(* ===== verification/_CoqProject ===== *)
-Q . S2P
Prelude.v
Text.v
Collections.v
Io.v
Regex.v
Expressions.v
LineBuffer.v
BuildOutput.v
Values.v
Config.v
DependencyGraph.v
Tasks.v
EditDistance.v
TaskOrder.v
Extends.v
CommandLine.v
CheckScript.v
ExternalChecks.v
CheckScriptSpec.v
Validate.v
Validated.v
Outcome.v
Startup.v
StartupOrder.v
StartupRegistry.v
StartupProgress.v
StartupTermination.v
StartupLiveness.v
Cleanup.v
CleanupOrder.v
CleanupSpec.v
Dockerignore.v
LexicalClean.v
Paths.v
IncludeTrust.v
WrittenFor.v
WrittenForSpec.v
Includes.v
IncludesSpec.v
Evaluate.v
Project.v
EvaluateSpec.v
DockerignoreSpec.v
Passwd.v
Labels.v
Resources.v
Proxy.v
ContainerSpec.v
HostMounts.v
ContainerRequest.v
ContainerFiles.v
Identity.v
IdentitySpec.v
Caches.v
CachesSpec.v
ImageReference.v
Images.v
ImagesSpec.v
ContainerRequestSpec.v
EntryLock.v
GitIncludes.v
GitIncludesSpec.v
Connection.v
ConnectionSpec.v
Credentials.v
DockerClient.v
DockerClientSpec.v
Diagnostics.v
DiagnosticsSpec.v
Convert.v
ConvertSpec.v
Wire.v
WireSpec.v
Durations.v
Displays.v
FancyDisplay.v
DisplaysSpec.v
Screen.v
FancyDisplaySpec.v
CompatCli.v
