(* ===== verification/Prelude.v ===== *)
(** * Ratect: a verification development

    Ratect runs the tasks of a project in containers: it reads a
    configuration, works out which containers a task needs, creates and
    starts them through the Docker daemon, runs the task's command and
    removes everything again.  This library models the decisions Ratect
    makes between what it is given (configuration files, the command line,
    the host, the daemon's answers) and what it asks for, and proves what
    they promise.

    ** Parts, files and sources

    Paths are relative to [src/ratect-core/src] unless they say otherwise.

    _Foundations._  [Prelude]: [Result], [u16]/[i64]/[usize] arithmetic,
    durations, options and lists.  [Text]: the operations of [str] and [char]
    the source uses, on strings of chars below U+0100.  [Collections]:
    [Ord] for strings, [sort], [dedup], loops with an early exit.  [Regex]:
    the interface of the [regex] crate and the atoms its patterns are made of.

    _Configuration._
    - [Config]: the data of [config.rs] ([Config], [Container], [Task] and the
      types of their fields).
    - [Values]: how ports, devices, volumes, sizes, network modes, users and
      limits are read.
    - [Wire], [WireSpec]: the hand-written [Deserialize] and [Serialize] of
      [config.rs]: the nodes each value is read from and written as.
    - [Durations]: [parse_duration] and [duration_string] of
      [config.rs], with the [f64] they compute in.
    - [Expressions]: [expressions.rs].
    - [Paths]: the operations of [std::path] the sources use, on strings.
    - [IncludeTrust]: [include_trust.rs] (what a bundle may reach, declare and
      be granted), with the names [ui.rs] and [git_include.rs] print.
    - [WrittenFor], [WrittenForSpec]: [written_for.rs]: versions, breaking
      changes and what a refusal's rows touch.
    - [Includes], [IncludesSpec]: [load_from_file_impl] of [config.rs].  Its
      [LoadState] is the loop's locals, one [load_entry] a round of its
      queue, [merge_files] what follows.
    - [Evaluate], [Project], [EvaluateSpec]: [check_values],
      [load_project_impl] and [LoadedProject::evaluate].
    - [Extends]: [resolve_extends]; [ExternalChecks]: companions of external
      health checks, with [CheckScript] and [CheckScriptSpec] for their
      command; [Validate] and [Validated]: the checks that span fields.

    _Tasks and their containers_ ([engine.rs]).
    - [DependencyGraph]: the containers of a task and their order.
    - [Tasks], [EditDistance], [TaskOrder]: prerequisites, suggestions, and the
      recursion that runs tasks.
    - [Startup] is the [execution] block of [run_task_internal] as a state
      machine.  Its [state] holds the memo cells of networks, images and
      containers, each future's phase, the permits and the registry; an
      [event] is an answer of the daemon, a future that is polled, or a
      signal.  [StartupOrder], [StartupRegistry], [StartupProgress],
      [StartupTermination] and [StartupLiveness] are its theorems.  A cell's
      [unshare] is applied once by the model, where the code may apply it to
      each clone of a result: it is idempotent.  The lines a setup command
      prints and the payload of [TaskGraphResolved] are left out of its
      events.
    - [Cleanup], [CleanupOrder], [CleanupSpec]: the rest of
      [run_task_internal], from the run's result to the task's: the graceful
      stops, the ladder of signals, forced removals, the network, the result.
    - [Outcome]: [interrupt.rs], [exit_code.rs], the failures of a run, and
      the options [ui.rs] keeps for a suggested command line.

    _Requests to the daemon._
    - [CommandLine]: [tokenize_command_line] of [docker.rs].
    - [ContainerSpec]: [container_spec.rs]; [ContainerRequest] and
      [ContainerRequestSpec]: [container_config] of [docker.rs] and what the
      request holds; [daemon_class.rs].
    - [HostMounts]: the directories made on the host before a
      container is created.
    - [Labels], [Resources]: [labels.rs], [resource_names.rs],
      [resources.rs].
    - [Proxy]: [proxy.rs].
    - [Passwd]: [user.rs], the identity files of a container.
    - [Io]: handlers that make requests of the world and may fail.
      [ContainerFiles]: the archive calls of [docker.rs] and
      [create_container]; [Identity] and [IdentitySpec]: [identity.rs], every
      function of it.
    - [Caches], [CachesSpec]: [cache.rs], with [resolve_volumes] of
      [engine.rs].
    - [ImageReference]: [image_reference.rs].  [Images], [ImagesSpec]: what
      decides a container's image ([resolve_image], [ensure_image_resolved]
      and the checks of tags and overrides of [engine.rs]), with
      [check_build_files] of [container_spec.rs].
    - [EntryLock]: [git_include/entry_lock.rs], one file taken as
      a lock by any number of processes that may crash; [GitIncludes],
      [GitIncludesSpec]: the cache of clones of [git_include.rs], while other
      processes change the same directory.
    - [Diagnostics], [DiagnosticsSpec]: [diagnostics.rs], what [ratect doctor] and
      [ratect config validate] find.
    - [Convert], [ConvertSpec]: [convert.rs], a Batect project as
      native files.
    - [Connection], [ConnectionSpec]: [docker/connection.rs], which daemon is
      connected to and what is trusted, with [docker/boolean_variable.rs].
    - [Credentials]: [registry_auth.rs], and what a pull and a build are given.
      [DockerClient], [DockerClientSpec]: the methods of [docker.rs]'s
      [DockerClient] that are not in the files above, request by request; a
      [client] is its caches, its log followers and the world.
    - [Dockerignore], [LexicalClean], [DockerignoreSpec]: the crate
      [dockerignore] and the selection of a build context.
    - [BuildOutput]: [docker/build_output.rs]; [LineBuffer]: the lines of
      [ui/interleaved.rs].

    _The terminal._
    - [Displays], [DisplaysSpec]: [ui.rs], [ui/raw_mode.rs], [ui/simple.rs] and
      [ui/interleaved.rs]: texts, consoles, events and the styles that append.
    - [FancyDisplay], [Screen], [FancyDisplaySpec]: [ui/fancy.rs], the display that
      paints over its own rows, on the terminal [Screen] says what bytes do to.

    _The command line._  [CompatCli]: [src/ratect-compat/src/main.rs], from the
    arguments to the settings of a run, over the words [Outcome] reads.

    ** How the parts meet

    The merged [Config] is what every check of [Validate] reads and what
    [DependencyGraph], [Tasks] and [ContainerSpec] are functions of.
    [Tasks.run_task_scoped] takes the run of one task as an argument
    ([Surroundings]); [Startup] and [Cleanup] are that run, joined by
    [Cleanup.cleanup_input], whose fields are what a finished [Startup.state]
    leaves.  [ContainerSpec.derive_spec] feeds
    [ContainerRequest.container_config], and [HostMounts] the mounts of the
    same spec.  [ExternalChecks] produces containers whose command
    [CommandLine.tokenize_command_line] splits again when they are created:
    [CheckScriptSpec] composes the two.

    ** What is assumed of other code

    Code that is not this repository's is an interface, a type class of its
    operations, with a second class for the documented laws a theorem needs:
    [RegexCrate]/[RegexLaws] (the [regex] crate), [Serde]/[SerdeLaws] (the parsers and
    the structs [serde] derives),
    [PathClean]/[PathCleanLaws]/[PathCleanLast] ([path_clean]; [LexicalClean] is an
    instance), [UrlCrate]/[UrlLaws] (the [url] crate),
    [ResourceInventory]/[InventoryLaws] (the daemon's lists), [HostFs]/[HostFsLaws]
    (the host's file system),
    [FileTree]/[FileTreeLaws] (the current directory and the files a load
    asks for), [TomlFiles] and [TomlDocuments] (the [toml] crate) and [ConfigSource] (reading a
    configuration file and cloning a repository),
    [TarCrate] (the [tar] crate), [ArchiveApi] with
    [ContainerView]/[ArchiveLaws] (the daemon's archive calls and the files
    they change), [HostUser] (the host's user) and [CacheHost] (the files and
    volumes caches are kept in), [ImageDaemon] (pulls, builds and tags) and
    [BuildFiles] (what a build directory holds), [Sha2]/[Sha2Laws] (the [sha2]
    crate), [TomlCrate] (a sidecar's text) and [CacheWorld]/[CacheLaws] (the cache
    directory and [git]), [DockerHost], [DockerJson] and [TlsCrates] (the Docker
    CLI's files and the TLS crates), [UnicodeWidth] (how wide a char is), [Clap]/[ClapLaws] (the
    [clap] crate), [DockerApi] (the daemon's answers to
    [bollard]), [BuildHost] (what a build reads), [RegistryCredentialResolver],
    [CredentialJson] and [CredentialHelpers] (credentials).  Every theorem that needs laws has a
    witness at a concrete instance.

    ** What the theorems show

    - _A run_: in every interleaving of the daemon's answers each request
      waits for what it needs ([startup_order_spec]), the registry is exact
      ([created_containers_spec]), the parallelism cap holds
      ([max_parallelism_spec]), a run ends, within a
      bound fixed before it, and cannot deadlock ([startup_live]).
    - _Cleanup_: order, completeness, termination, and the result and exit
      code ([cleanup_order_spec], [cleanup_complete_spec], [task_exit_spec]).
    - _Requests_: what is asked of the daemon and the host says what the
      configuration does ([container_request_spec],
      [ensure_host_directories_spec], [clean_spec],
      [proxy_environment_spec], [check_command_spec],
      [tokenize_command_line_spec], [build_context_spec],
      [passwd_edits_spec]).
    - _Configuration_: what is written of a value is read back, and what is read
      is well formed ([wire_spec], [accepted_values_spec], [durations_spec]), the expression
      readers agree ([expressions_spec]), inheritance, checks accept exactly the stated
      configurations, and graphs and tasks are ordered and acyclic
      ([task_order_spec]).
    - _Loading_: that a load ends, and what is read and from where, and what
      the merge holds ([load_spec]), what is refused for its version
      ([refusals_spec]), and what values become on this
      machine ([evaluation_spec]).
    - _Storage_: what an identity changes in a container
      ([apply_files_spec]), which images a run's containers get
      ([images_resolved_spec]), what a clean of caches removes
      and that it is what a listing shows ([clean_caches_spec]).
    - _Clones_: one process at a time holds an entry's lock, and a lock whose
      holder crashed is taken over ([entry_lock_spec]); a load gives
      a finished clone whatever other processes do, and a clean removes what it
      says ([git_cache_spec]).
    - _Diagnostics_: a finding is there exactly when what it says holds, and is a
      problem where a run would refuse ([config_findings_spec]).
    - _Conversion_: what a converted project holds and where its includes lead
      ([convert_spec]).
    - _The client_: which daemon a connection is made to ([connect_spec]), what a
      pull and a build ask it for, and how a container is
      stopped, removed and found healthy ([client_calls_spec]).
    - _The terminal_: no name or value is a command to it ([displays_spec]), and the
      live display paints over nothing but itself ([live_display_spec]).
    - _The command line_: where its options end, what it is refused for, and what
      a run gets of it ([command_line_spec]).

    ** Bounds and fuel

    Integers the code keeps at a width are [Z] with the width's bounds
    written out ([u16], [u32], [i64], [u8] exit codes, nanoseconds).  Where
    recursion is not structural a definition takes fuel, and a theorem says
    the fuel given is enough or that a value is returned:
    [Expressions.scan_loop] has the length of the value (a token is never
    empty); [DependencyGraph.visit], [reach] and [names_loop] have the number
    of containers and edges; [Tasks.check_visit] and
    [Tasks.run_task_scoped] the number of tasks (a path repeats no task);
    [Extends.resolve_container_extends] and [Validate.namespace_walk] the
    number of containers; [Outcome.failed_step] the depth of the error;
    [Regex.parse_atoms] and [Text.digits_rev] the length of what they read;
    [BuildOutput.display_order_loop] the size of the batch.
    [Identity.ancestors_of] has the number of components of the path.
    [IncludeTrust.real_path_loop] has the number of components of the path
    (each round drops one), [Includes.toml_search] one more than the targets
    recorded (a target is queued once), [Project.read_groups] the number of
    groups an address may have.  [Includes.load_loop] takes its fuel from
    the caller, since the files a load reaches are the host's:
    [load_terminates] says some number of rounds is enough and more change
    nothing.  [EntryLock.look] makes at most [LOOK_CALLS] = 8 calls, enough for
    every path of one ([entry_lock_spec]); [GitIncludes.wait_loop] looks
    [WAIT_LOOKS] = timeout / poll + 2 times, after which the time is up
    ([acquire_lock_spec]).  [Convert.git_walk] has one round for each include entry
    of a file loaded, and one more ([bundle_walk_ends]).
    [FancyDisplay.visit] has one more than the containers (each visit removes
    one).  [Durations.duration_loop] has the length of the text (a component is never
    empty): [durations_spec] says a result is returned.

    ** Not modelled

    - Sessions with a container: [run_container] with its terminal, standard
      input and resizing ([docker.rs], [docker/stdin.rs]), and the pumps of a
      follower's output; the agent that serves a build's keys ([ssh_agent.rs]):
      I/O.  To [Startup] and [Cleanup] the daemon's answers are events, and an
      image's resolution is one of them; [Images] is how it is reached, over
      [ImageDaemon].  Cancelling a wait for a follower is left out of
      [DockerClient].
    - Of the terminal, what asks the operating system ([TerminalFacts::gather],
      [console_dimensions_available]) and the writers themselves; a display is the
      writes it makes, and a terminal one that is told its width.
    - The adapters between YAML and TOML parsers and serde ([yaml.rs]), the
      structs serde derives, and the JSON schema ([schema.rs]): the
      libraries', not the program's.
    - The argument parsing of [src/ratect/src/main.rs], declared for the [clap]
      crate, and in both binaries the dispatch to what is modelled and the log.
    - [panic_hook.rs]: output only. *)

From Stdlib Require Ascii.
Export Ascii (ascii(..), ascii_of_N, N_of_ascii, ascii_N_embedding, N_ascii_embedding,
  ascii_of_nat, nat_of_ascii).
Export (notations) Ascii.
From stdpp Require Export base tactics strings gmap option numbers.
From stdpp Require Export list.
Export list_basics.list list_relations.list list_monad.list list_misc.list list_tactics.list list_numbers.list.
From stdpp Require Import options.

(** ** Results

    Rust's [Result<T, E>]. *)

Inductive result (A E : Type) : Type :=
| Ok (a : A)
| Err (e : E).
Arguments Ok {A E} a.
Arguments Err {A E} e.

Definition result_bind {A B E} (r : result A E) (k : A → result B E) : result B E :=
  match r with
  | Ok a => k a
  | Err e => Err e
  end.

Definition result_map {A B E} (f : A → B) (r : result A E) : result B E :=
  match r with
  | Ok a => Ok (f a)
  | Err e => Err e
  end.

Definition map_err {A E F} (f : E → F) (r : result A E) : result A F :=
  match r with
  | Ok a => Ok a
  | Err e => Err (f e)
  end.

Definition is_ok {A E} (r : result A E) : bool :=
  match r with Ok _ => true | Err _ => false end.

Definition ok_or {A E} (o : option A) (e : E) : result A E :=
  match o with Some a => Ok a | None => Err e end.

(** A check: [if !ok { bail!(e) }]. *)
Definition ensure {E} (b : bool) (e : E) : result () E := if b then Ok tt else Err e.

Declare Scope ratect_scope.
Delimit Scope ratect_scope with ratect.
Open Scope ratect_scope.

(** [?] of the source: [let? x := e in k] returns the error of [e] at once. *)
Notation "'let?' x := e 'in' k" :=
  (result_bind e (λ x, k))
  (at level 10, x pattern, e at level 100, k at level 200)
  : ratect_scope.

#[global] Instance result_eq_dec {A E} `{!EqDecision A, !EqDecision E} :
  EqDecision (result A E).
Proof. solve_decision. Defined.

(** ** The hint databases the components fill *)

Create HintDb ratect.
Create HintDb ratect_rw.

Lemma result_bind_Ok {A B E} (r : result A E) (k : A → result B E) b :
  result_bind r k = Ok b ↔ ∃ a, r = Ok a ∧ k a = Ok b.
Proof. destruct r; simpl; naive_solver. Qed.

Lemma result_bind_Err {A B E} (r : result A E) (k : A → result B E) e :
  result_bind r k = Err e ↔ r = Err e ∨ ∃ a, r = Ok a ∧ k a = Err e.
Proof. destruct r; simpl; naive_solver. Qed.

Lemma is_ok_true {A E} (r : result A E) : is_ok r = true ↔ ∃ a, r = Ok a.
Proof. destruct r; simpl; naive_solver. Qed.

Lemma is_ok_false {A E} (r : result A E) : is_ok r = false ↔ ∃ e, r = Err e.
Proof. destruct r; simpl; naive_solver. Qed.

Lemma ensure_Ok {E} b (e : E) u : ensure b e = Ok u ↔ b = true.
Proof. unfold ensure. destruct b, u; naive_solver. Qed.

(** ** Tactics *)

(** Runs the case analysis of a [result] computation: every [let?] and
    [match] on a hypothesis is split, and the impossible cases closed. *)
Ltac split_result :=
  repeat match goal with
  | H : result_bind _ _ = Ok _ |- _ =>
      apply result_bind_Ok in H; destruct H as (? & ? & ?)
  | H : Ok _ = Ok _ |- _ => injection H as H; subst
  | H : Err _ = Err _ |- _ => injection H as H; subst
  | H : Ok _ = Err _ |- _ => discriminate H
  | H : Err _ = Ok _ |- _ => discriminate H
  end.

(** Destructs the scrutinee of the innermost [match] or [if] of the goal. *)
Ltac break_match_goal :=
  match goal with
  | |- context [match ?x with _ => _ end] =>
      lazymatch x with
      | context [match _ with _ => _ end] => fail
      | _ => destruct x eqn:?
      end
  end.

Ltac break_match_in H :=
  match type of H with
  | context [match ?x with _ => _ end] =>
      lazymatch x with
      | context [match _ with _ => _ end] => fail
      | _ => destruct x eqn:?
      end
  end.

(** Boolean tests to propositions, everywhere. *)
Ltac bool_to_prop :=
  repeat match goal with
  | H : andb _ _ = true |- _ => apply andb_prop in H; destruct H
  | H : orb _ _ = false |- _ => apply orb_false_elim in H; destruct H
  | H : negb _ = true |- _ => apply negb_true_iff in H
  | H : negb _ = false |- _ => apply negb_false_iff in H
  | H : bool_decide _ = true |- _ => apply bool_decide_eq_true in H
  | H : bool_decide _ = false |- _ => apply bool_decide_eq_false in H
  | H : Nat.eqb _ _ = true |- _ => apply Nat.eqb_eq in H
  | H : Nat.eqb _ _ = false |- _ => apply Nat.eqb_neq in H
  | H : Nat.leb _ _ = true |- _ => apply Nat.leb_le in H
  | H : Nat.leb _ _ = false |- _ => apply Nat.leb_gt in H
  | H : Nat.ltb _ _ = true |- _ => apply Nat.ltb_lt in H
  | H : Nat.ltb _ _ = false |- _ => apply Nat.ltb_ge in H
  | H : Z.eqb _ _ = true |- _ => apply Z.eqb_eq in H
  | H : Z.eqb _ _ = false |- _ => apply Z.eqb_neq in H
  | H : Z.leb _ _ = true |- _ => apply Z.leb_le in H
  | H : Z.leb _ _ = false |- _ => apply Z.leb_gt in H
  | H : Z.ltb _ _ = true |- _ => apply Z.ltb_lt in H
  | H : Z.ltb _ _ = false |- _ => apply Z.ltb_ge in H
  | H : N.eqb _ _ = true |- _ => apply N.eqb_eq in H
  | H : N.eqb _ _ = false |- _ => apply N.eqb_neq in H
  | H : N.leb _ _ = true |- _ => apply N.leb_le in H
  | H : N.leb _ _ = false |- _ => apply N.leb_gt in H
  | H : N.ltb _ _ = true |- _ => apply N.ltb_lt in H
  | H : N.ltb _ _ = false |- _ => apply N.ltb_ge in H
  end.

(** ** Durations and machine integers

    A [Duration] is its nanoseconds. *)

Definition NANOS_PER_SEC : N := 1000000000.

(** [Duration::as_secs] and [Duration::subsec_nanos] *)
Definition as_secs (d : N) : N := (d / NANOS_PER_SEC)%N.
Definition subsec_nanos (d : N) : N := (d mod NANOS_PER_SEC)%N.

(** [as i64], and what 64-bit arithmetic leaves of a result. *)
Definition i64_wrap (z : Z) : Z := ((z + 2 ^ 63) mod 2 ^ 64 - 2 ^ 63)%Z.

Lemma i64_wrap_id z : (- 2 ^ 63 ≤ z < 2 ^ 63)%Z → i64_wrap z = z.
Proof. intros Hz. unfold i64_wrap. rewrite Z.mod_small; lia. Qed.

(** ** Lists *)

Lemma Forall_weaken {A} (P Q : A → Prop) l : Forall P l → (∀ x, P x → Q x) → Forall Q l.
Proof. intros H HPQ. induction H; eauto. Qed.
