(* ===== verification/Text.v ===== *)
(** * Text: the operations of Rust's [str] and [char] the source uses

    A model string is a sequence of chars below U+0100: each [ascii] is one
    [char] with that code point.  On such strings the operations below are
    exactly Rust's, except where a comment says otherwise. *)

From S2P Require Import Prelude.
From stdpp Require Import options.

(** A [Vec<char>]. *)
Definition chars (s : string) : list ascii := String.list_ascii_of_string s.
Definition of_chars (l : list ascii) : string := String.string_of_list_ascii l.

Definition code (c : ascii) : N := N_of_ascii c.

(** [char::is_ascii_digit], [is_ascii_uppercase], [is_ascii_lowercase]. *)
Definition in_range (lo hi : N) (c : ascii) : bool := (lo <=? code c)%N && (code c <=? hi)%N.
Definition is_ascii_digit (c : ascii) : bool := in_range 48 57 c.
Definition is_ascii_uppercase (c : ascii) : bool := in_range 65 90 c.
Definition is_ascii_lowercase (c : ascii) : bool := in_range 97 122 c.
Definition is_ascii_alphabetic (c : ascii) : bool := is_ascii_uppercase c || is_ascii_lowercase c.
Definition is_ascii_alphanumeric (c : ascii) : bool := is_ascii_alphabetic c || is_ascii_digit c.

(** [char::is_alphanumeric] below U+0100: the letters, the ordinals, the
    digits, the superscripts and the fractions of Latin-1. *)
Definition is_alphanumeric (c : ascii) : bool :=
  is_ascii_alphanumeric c
  || bool_decide (code c ∈ [170; 178; 179; 181; 185; 186; 188; 189; 190]%N)
  || in_range 192 214 c || in_range 216 246 c || in_range 248 255 c.

(** [char::is_whitespace] below U+0100. *)
Definition is_whitespace (c : ascii) : bool :=
  in_range 9 13 c || bool_decide (code c ∈ [32; 133; 160]%N).

(** [char::is_control]. *)
Definition is_control (c : ascii) : bool := in_range 0 31 c || in_range 127 159 c.

Definition to_lower_char (c : ascii) : ascii :=
  if is_ascii_uppercase c || in_range 192 214 c || in_range 216 222 c
  then ascii_of_N (code c + 32) else c.

Definition to_lowercase (s : string) : string := of_chars (to_lower_char <$> chars s).

(** [str::to_ascii_uppercase]; [str::to_uppercase] agrees with it on ASCII. *)
Definition to_upper_char (c : ascii) : ascii :=
  if is_ascii_lowercase c then ascii_of_N (code c - 32) else c.
Definition to_ascii_uppercase (s : string) : string := of_chars (to_upper_char <$> chars s).

Lemma of_chars_chars s : of_chars (chars s) = s.
Proof. apply String.string_of_list_ascii_of_string. Qed.

Lemma chars_of_chars l : chars (of_chars l) = l.
Proof. apply String.list_ascii_of_string_of_list_ascii. Qed.

Lemma chars_app s t : chars (s +:+ t) = chars s ++ chars t.
Proof. unfold chars. induction s; [done|]. simpl. f_equal. apply IHs. Qed.

Lemma string_app_cons c s t : String c s +:+ t = String c (s +:+ t).
Proof. done. Qed.

Lemma of_chars_app l k : of_chars (l ++ k) = of_chars l +:+ of_chars k.
Proof.
  unfold of_chars. induction l as [|c l IH]; [done|].
  simpl. by rewrite IH.
Qed.

Lemma string_app_nil_r s : s +:+ "" = s.
Proof. induction s as [|c s IH]; [done|]. by rewrite string_app_cons, IH. Qed.

Lemma string_app_assoc s t u : s +:+ (t +:+ u) = (s +:+ t) +:+ u.
Proof. induction s as [|c s IH]; [done|]. by rewrite !string_app_cons, IH. Qed.

Lemma length_chars s : length (chars s) = String.length s.
Proof. unfold chars. induction s; simpl; congruence. Qed.

#[global] Instance chars_inj : Inj (=) (=) chars.
Proof. intros s t H. by rewrite <-(of_chars_chars s), H, of_chars_chars. Qed.

(** ** Searching and splitting *)

Definition starts_with (p s : string) : bool := String.prefix p s.

Fixpoint strip_prefix (p s : string) : option string :=
  match p, s with
  | EmptyString, _ => Some s
  | String a p, String b s => if bool_decide (a = b) then strip_prefix p s else None
  | String _ _, EmptyString => None
  end.

Definition ends_with (p s : string) : bool :=
  bool_decide (p = of_chars (drop (String.length s - String.length p) (chars s))).

(** [strip_suffix]. *)
Definition strip_suffix (p s : string) : option string :=
  if ends_with p s then Some (of_chars (take (String.length s - String.length p) (chars s)))
  else None.

Definition contains_char (c : ascii) (s : string) : bool := bool_decide (c ∈ chars s).

(** [str::split_once] and [rsplit_once] at a char. *)
Fixpoint split_once_l (c : ascii) (l : list ascii) : option (list ascii * list ascii) :=
  match l with
  | [] => None
  | d :: l =>
      if bool_decide (d = c) then Some ([], l)
      else '(h, t) ← split_once_l c l; Some (d :: h, t)
  end.

Definition split_once (c : ascii) (s : string) : option (string * string) :=
  '(h, t) ← split_once_l c (chars s); Some (of_chars h, of_chars t).

Fixpoint rsplit_once_l (c : ascii) (l : list ascii) : option (list ascii * list ascii) :=
  match l with
  | [] => None
  | d :: l =>
      match rsplit_once_l c l with
      | Some (h, t) => Some (d :: h, t)
      | None => if bool_decide (d = c) then Some ([], l) else None
      end
  end.

Definition rsplit_once (c : ascii) (s : string) : option (string * string) :=
  '(h, t) ← rsplit_once_l c (chars s); Some (of_chars h, of_chars t).

(** [str::split] at a char: never empty. *)
Fixpoint split_l (c : ascii) (l : list ascii) : list (list ascii) :=
  match l with
  | [] => [[]]
  | d :: l =>
      if bool_decide (d = c) then [] :: split_l c l
      else match split_l c l with
           | [] => [[d]]
           | h :: t => (d :: h) :: t
           end
  end.

Definition split (c : ascii) (s : string) : list string := of_chars <$> split_l c (chars s).

(** [items.join(separator)]. *)
Fixpoint join (sep : string) (items : list string) : string :=
  match items with
  | [] => EmptyString
  | [x] => x
  | x :: items => x +:+ sep +:+ join sep items
  end.

(** [str::find] of a substring. *)
Fixpoint find_str_from (needle : string) (s : string) (i : nat) : option nat :=
  if starts_with needle s then Some i
  else match s with
       | EmptyString => None
       | String _ s => find_str_from needle s (S i)
       end.
Definition find_str (needle s : string) : option nat := find_str_from needle s 0.

Fixpoint trim_start_l (l : list ascii) : list ascii :=
  match l with
  | c :: l' => if is_whitespace c then trim_start_l l' else l
  | [] => []
  end.
Definition trim (s : string) : string :=
  of_chars (reverse (trim_start_l (reverse (trim_start_l (chars s))))).

(** ** Decimal numbers *)

Definition digit_value (c : ascii) : option N :=
  if is_ascii_digit c then Some (code c - 48)%N else None.

Definition digit_char (d : N) : ascii := ascii_of_N (48 + d).

(** The digits [l] after [acc], [None] at a char that is no digit. *)
Fixpoint parse_digits (acc : N) (l : list ascii) : option N :=
  match l with
  | [] => Some acc
  | c :: l => d ← digit_value c; parse_digits (acc * 10 + d)%N l
  end.

(** [FromStr] of an unsigned type with maximum [max]: an optional [+], then
    at least one digit, without overflow. *)
Definition parse_digits_signed (s : string) : option N :=
  let l := chars s in
  let l := match l with c :: l' => if bool_decide (c = "+"%char) then l' else l | [] => [] end in
  match l with
  | [] => None
  | _ => parse_digits 0 l
  end.
Definition parse_unsigned (max : N) (s : string) : option N :=
  n ← parse_digits_signed s; if (n <=? max)%N then Some n else None.

Definition u16_max : N := 65535.
Definition u32_max : N := 4294967295.
Definition u64_max : N := 18446744073709551615.

(** [Display] of an unsigned integer. *)
Fixpoint digits_rev (fuel : nat) (n : N) : list ascii :=
  match fuel with
  | 0 => []
  | S fuel =>
      if (n <? 10)%N then [digit_char n]
      else digit_char (n mod 10)%N :: digits_rev fuel (n / 10)%N
  end.

Definition show_N (n : N) : string := of_chars (reverse (digits_rev (S (N.size_nat n)) n)).
Definition show_nat (n : nat) : string := show_N (N.of_nat n).

Lemma digit_value_char d : (d < 10)%N → digit_value (digit_char d) = Some d.
Proof.
  intros H. unfold digit_value, is_ascii_digit, in_range, digit_char, code.
  rewrite N_ascii_embedding by lia.
  replace ((48 <=? 48 + d)%N && (48 + d <=? 57)%N) with true by
    (symmetry; apply andb_true_intro; split; apply N.leb_le; lia).
  f_equal. lia.
Qed.

Lemma parse_digits_app acc l k :
  parse_digits acc (l ++ k) = acc ← parse_digits acc l; parse_digits acc k.
Proof.
  revert acc. induction l as [|c l IH]; intros acc; simpl; [done|].
  destruct (digit_value c); simpl; [apply IH|done].
Qed.

Lemma digits_rev_nonempty fuel n : digits_rev (S fuel) n ≠ [].
Proof. simpl. by destruct (n <? 10)%N. Qed.

Lemma parse_digits_rev fuel : ∀ n,
  (n < 10 ^ N.of_nat fuel)%N → (0 < fuel) →
  parse_digits 0 (reverse (digits_rev fuel n)) = Some n.
Proof.
  induction fuel as [|fuel IH]; intros n Hn Hf; [lia|]. simpl.
  destruct (N.ltb_spec n 10).
  - simpl. by rewrite digit_value_char.
  - rewrite reverse_cons, parse_digits_app.
    rewrite Nat2N.inj_succ, N.pow_succ_r' in Hn.
    destruct fuel as [|fuel]; [simpl in Hn; lia|].
    rewrite IH; [|apply N.Div0.div_lt_upper_bound; lia|lia]. simpl.
    rewrite digit_value_char by (apply N.mod_lt; lia). simpl. f_equal.
    pose proof (N.div_mod' n 10). lia.
Qed.

Lemma size_nat_pow10 n : (n < 10 ^ N.of_nat (S (N.size_nat n)))%N.
Proof.
  assert (n < 2 ^ N.of_nat (N.size_nat n))%N as H.
  { destruct n as [|p]; [done|].
    pose proof (N.size_gt (N.pos p)).
    assert (N.of_nat (N.size_nat (N.pos p)) = N.size (N.pos p)) as ->; [|done].
    clear. simpl. induction p; simpl; rewrite ?Nat2N.inj_succ; simpl in *; try done; lia. }
  eapply N.lt_le_trans; [exact H|].
  etransitivity; [apply (N.pow_le_mono_l 2 10); lia|].
  apply N.pow_le_mono_r; lia.
Qed.

Lemma show_N_chars n : chars (show_N n) = reverse (digits_rev (S (N.size_nat n)) n).
Proof. unfold show_N. apply chars_of_chars. Qed.

Lemma digits_rev_digit fuel n c :
  c ∈ digits_rev fuel n → ∃ d, (d < 10)%N ∧ c = digit_char d.
Proof.
  revert n. induction fuel as [|fuel IH]; intros n; simpl; [by intros ?%not_elem_of_nil|].
  destruct (N.ltb_spec n 10).
  - intros ->%list_elem_of_singleton. eauto.
  - intros [->|?]%elem_of_cons; [|eauto].
    eexists; split; [|done]. apply N.mod_lt. lia.
Qed.

Lemma show_N_digit n c : c ∈ chars (show_N n) → ∃ d, (d < 10)%N ∧ c = digit_char d.
Proof. rewrite show_N_chars, elem_of_reverse. apply digits_rev_digit. Qed.

Lemma digit_char_range d : (d < 10)%N → is_ascii_digit (digit_char d) = true.
Proof.
  intros H. pose proof (digit_value_char d H) as Hd. unfold digit_value in Hd.
  by destruct (is_ascii_digit _).
Qed.

Lemma code_lt c : (code c < 256)%N.
Proof. apply Ascii.N_ascii_bounded. Qed.

Lemma parse_shown n : parse_digits 0 (chars (show_N n)) = Some n.
Proof. rewrite show_N_chars. apply parse_digits_rev; [apply size_nat_pow10|lia]. Qed.

Lemma parse_show_N max n : (n ≤ max)%N → parse_unsigned max (show_N n) = Some n.
Proof.
  intros Hn. unfold parse_unsigned, parse_digits_signed.
  pose proof (show_N_digit n) as Hdig. pose proof (parse_digits_rev _ n (size_nat_pow10 n)) as Hp.
  rewrite <-show_N_chars in Hp. specialize (Hp ltac:(lia)).
  destruct (chars (show_N n)) as [|c l] eqn:Hc.
  { exfalso. rewrite show_N_chars in Hc. apply (f_equal reverse) in Hc.
    rewrite reverse_involutive in Hc. by apply digits_rev_nonempty in Hc. }
  rewrite bool_decide_eq_false_2.
  - rewrite Hp. simpl. by rewrite (proj2 (N.leb_le _ _) Hn).
  - intros ->. destruct (Hdig "+"%char) as (d & Hd & Heq); [set_solver|].
    apply digit_char_range in Hd. rewrite <-Heq in Hd. done.
Qed.

Lemma parse_unsigned_Some max s n :
  parse_unsigned max s = Some n ↔ parse_digits_signed s = Some n ∧ (n ≤ max)%N.
Proof.
  unfold parse_unsigned. destruct (parse_digits_signed s) as [m|]; simpl; [|naive_solver].
  destruct (N.leb_spec m max); naive_solver lia.
Qed.

(** ** [splitn], [trim_end], [to_ascii_lowercase] *)

Fixpoint splitn_l (n : nat) (c : ascii) (l : list ascii) : list (list ascii) :=
  match n with
  | 0 => []
  | S n =>
      match n with
      | 0 => [l]
      | _ =>
          match split_once_l c l with
          | Some (h, t) => h :: splitn_l n c t
          | None => [l]
          end
      end
  end.

Definition splitn (n : nat) (c : ascii) (s : string) : list string :=
  of_chars <$> splitn_l n c (chars s).

Definition trim_end (s : string) : string := of_chars (reverse (trim_start_l (reverse (chars s)))).

Definition to_ascii_lower_char (c : ascii) : ascii :=
  if is_ascii_uppercase c then ascii_of_N (code c + 32) else c.
Definition to_ascii_lowercase (s : string) : string := of_chars (to_ascii_lower_char <$> chars s).

(** [split_once] finds the first [c]. *)
Lemma split_once_l_Some c l h t :
  split_once_l c l = Some (h, t) ↔ l = h ++ c :: t ∧ c ∉ h.
Proof.
  revert h t. induction l as [|d l IH]; intros h t; simpl.
  - split; [done|]. intros [H _]. destruct h; discriminate H.
  - case_bool_decide as Hd.
    + subst. split; [intros [= <- <-]; split; [done|apply not_elem_of_nil]|].
      intros [H Hc]. destruct h as [|e h]; simplify_eq/=; [done|]. exfalso. apply Hc. by left.
    + destruct (split_once_l c l) as [[h' t']|] eqn:E; simpl.
      * destruct (proj1 (IH h' t') eq_refl) as [-> Hh].
        split; [intros [= <- <-]; split; [done|]; set_solver|].
        intros [H Hc]. destruct h as [|e h]; simplify_eq/=.
        assert (Some (h', t') = Some (h, t)) as [= -> ->]; [|done].
        apply IH. split; [done|set_solver].
      * split; [done|]. intros [H Hc]. destruct h as [|e h]; simplify_eq/=.
        assert (None = Some (h, t)) as [=]. apply IH. split; [done|set_solver].
Qed.

Lemma split_once_l_None c l : split_once_l c l = None ↔ c ∉ l.
Proof.
  split.
  - intros H Hin. apply list_elem_of_split_l in Hin as (h & t & -> & Hh).
    by rewrite (proj2 (split_once_l_Some c (h ++ c :: t) h t)) in H.
  - intros H. destruct (split_once_l c l) as [[h t]|] eqn:E; [|done].
    apply split_once_l_Some in E as [-> _]. set_solver.
Qed.

Lemma split_once_Some c s h t :
  split_once c s = Some (h, t) ↔ s = h +:+ String c t ∧ c ∉ chars h.
Proof.
  unfold split_once. split.
  - intros H. destruct (split_once_l c (chars s)) as [[h' t']|] eqn:E; simplify_eq/=.
    apply split_once_l_Some in E as [E Hh]. rewrite chars_of_chars. split; [|done].
    apply chars_inj. by rewrite E, chars_app, chars_of_chars; simpl; rewrite chars_of_chars.
  - intros [-> Hh]. rewrite chars_app. simpl.
    rewrite (proj2 (split_once_l_Some c _ (chars h) (chars t))) by done.
    simpl. by rewrite !of_chars_chars.
Qed.

Lemma split_once_None c s : split_once c s = None ↔ c ∉ chars s.
Proof.
  rewrite <-split_once_l_None. unfold split_once.
  destruct (split_once_l c (chars s)) as [[]|]; naive_solver.
Qed.

Lemma is_ascii_digit_value c : is_ascii_digit c = true ↔ ∃ d, (d < 10)%N ∧ c = digit_char d.
Proof.
  split.
  - unfold is_ascii_digit, in_range. intros [H1%N.leb_le H2%N.leb_le]%andb_prop.
    exists (code c - 48)%N. split; [lia|]. unfold digit_char.
    replace (48 + (code c - 48))%N with (code c) by lia. unfold code. by rewrite ascii_N_embedding.
  - intros (d & Hd & ->). by apply digit_char_range.
Qed.

Lemma show_N_digits n c : c ∈ chars (show_N n) → is_ascii_digit c = true.
Proof. intros (d & Hd & ->)%show_N_digit. by apply digit_char_range. Qed.

Lemma strip_prefix_Some p s t : strip_prefix p s = Some t ↔ s = p +:+ t.
Proof.
  revert s. induction p as [|a p IH]; intros s; simpl; [split; [by intros [= ->]|by intros ->]|].
  rewrite string_app_cons. destruct s as [|b s]; [done|].
  case_bool_decide; [subst; rewrite IH; split; congruence|].
  split; [done|congruence].
Qed.

Lemma ends_with_true p s : ends_with p s = true ↔ ∃ t, s = t +:+ p.
Proof.
  unfold ends_with. rewrite bool_decide_eq_true. split.
  - intros Hp. exists (of_chars (take (String.length s - String.length p) (chars s))).
    rewrite Hp at 2. by rewrite <-of_chars_app, take_drop, of_chars_chars.
  - intros [t ->]. rewrite chars_app, <-!length_chars, chars_app, length_app.
    replace (length (chars t) + length (chars p) - length (chars p)) with (length (chars t)) by lia.
    by rewrite drop_app_length, of_chars_chars.
Qed.

Lemma strip_suffix_Some p s t : strip_suffix p s = Some t ↔ s = t +:+ p.
Proof.
  assert (∀ t, strip_suffix p (t +:+ p) = Some t) as Happ.
  { intros t'. unfold strip_suffix. rewrite (proj2 (ends_with_true _ _)) by eauto.
    rewrite chars_app, <-!length_chars, chars_app, length_app.
    replace (length (chars t') + length (chars p) - length (chars p)) with (length (chars t')) by lia.
    by rewrite take_app_length, of_chars_chars. }
  split; [|by intros ->]. intros H.
  assert (ends_with p s = true) as [t' ->]%ends_with_true.
  { unfold strip_suffix in H. by destruct (ends_with p s). }
  rewrite Happ in H. by simplify_eq.
Qed.

Lemma strip_suffix_None p s : strip_suffix p s = None ↔ ∀ t, s ≠ t +:+ p.
Proof.
  split.
  - intros H t Ht%strip_suffix_Some. congruence.
  - intros H. destruct (strip_suffix p s) as [t|] eqn:E; [|done].
    by apply strip_suffix_Some, H in E.
Qed.

(** A one-char suffix is not there when the last char is another. *)
Lemma strip_suffix_last s c d : c ≠ d → strip_suffix (String c EmptyString) (s +:+ String d EmptyString) = None.
Proof.
  intros Hne. apply strip_suffix_None. intros t H.
  apply (f_equal chars) in H. rewrite !chars_app in H. simpl in H.
  by apply app_inj_tail in H as [_ ->].
Qed.

Lemma trim_start_l_id l : (∀ c, c ∈ l → is_whitespace c = false) → trim_start_l l = l.
Proof. destruct l as [|c l]; simpl; [done|]. intros H. by rewrite H by left. Qed.

Lemma trim_id s : (∀ c, c ∈ chars s → is_whitespace c = false) → trim s = s.
Proof.
  intros H. unfold trim. rewrite (trim_start_l_id (chars s)) by done.
  rewrite trim_start_l_id by (intros c; rewrite elem_of_reverse; apply H).
  by rewrite reverse_involutive, of_chars_chars.
Qed.

Lemma trim_end_id s : (∀ c, c ∈ chars s → is_whitespace c = false) → trim_end s = s.
Proof.
  intros H. unfold trim_end.
  rewrite trim_start_l_id by (intros c; rewrite elem_of_reverse; apply H).
  by rewrite reverse_involutive, of_chars_chars.
Qed.

Lemma to_ascii_lowercase_id s :
  (∀ c, c ∈ chars s → is_ascii_uppercase c = false) → to_ascii_lowercase s = s.
Proof.
  intros H. unfold to_ascii_lowercase. rewrite <-(of_chars_chars s) at 2. f_equal.
  induction (chars s) as [|c l IH]; [done|]. rewrite fmap_cons, IH by set_solver.
  unfold to_ascii_lower_char. by rewrite H by left.
Qed.

(** A fact of the ten digits, by evaluation. *)
Lemma digit_char_forall (f : ascii → bool) :
  forallb (λ i, f (digit_char (N.of_nat i))) (seq 0 10) = true →
  ∀ c, is_ascii_digit c = true → f c = true.
Proof.
  rewrite forallb_forall. intros H c (d & Hd & ->)%is_ascii_digit_value.
  rewrite <-(N2Nat.id d). apply H. apply in_seq. lia.
Qed.

(** A fact of every char, by evaluation. *)
Lemma char_forall (f : ascii → bool) :
  forallb (λ i, f (ascii_of_nat i)) (seq 0 256) = true → ∀ c, f c = true.
Proof.
  rewrite forallb_forall. intros H c. rewrite <-(Ascii.ascii_nat_embedding c). apply H.
  apply in_seq. pose proof (Ascii.nat_ascii_bounded c). lia.
Qed.

Lemma char_implies (f g : ascii → bool) :
  forallb (λ i, implb (f (ascii_of_nat i)) (g (ascii_of_nat i))) (seq 0 256) = true →
  ∀ c, f c = true → g c = true.
Proof. intros H c Hf. pose proof (char_forall (λ c, implb (f c) (g c)) H c) as Hc. simpl in Hc. by rewrite Hf in Hc. Qed.

Lemma digit_not_whitespace c : is_ascii_digit c = true → is_whitespace c = false.
Proof. intros H. apply negb_true_iff. revert c H. apply (digit_char_forall (λ c, negb _)). done. Qed.

Lemma digit_not_uppercase c : is_ascii_digit c = true → is_ascii_uppercase c = false.
Proof. intros H. apply negb_true_iff. revert c H. apply (digit_char_forall (λ c, negb _)). done. Qed.

Lemma digit_not_char c d : is_ascii_digit c = false → is_ascii_digit d = true → c ≠ d.
Proof. intros ?? ->. congruence. Qed.

Lemma show_N_not_elem n c : is_ascii_digit c = false → c ∉ chars (show_N n).
Proof. intros H Hin%show_N_digits. congruence. Qed.

Lemma show_N_nonempty n : show_N n ≠ EmptyString.
Proof.
  intros H. apply (f_equal chars) in H. rewrite show_N_chars in H. simpl in H.
  apply (f_equal reverse) in H. rewrite reverse_involutive in H. by apply digits_rev_nonempty in H.
Qed.

(** ** [split] and [join] *)

Lemma split_l_nonempty c l : split_l c l ≠ [].
Proof. destruct l as [|d l]; simpl; [done|]. by repeat case_match. Qed.

Lemma split_l_app c l k : split_l c (l ++ c :: k) = split_l c l ++ split_l c k.
Proof.
  induction l as [|d l IH]; csimpl; [by rewrite bool_decide_true|].
  rewrite IH. case_bool_decide; [done|].
  destruct (split_l c l) eqn:E; [by apply split_l_nonempty in E|done].
Qed.

Lemma split_l_free c l : c ∉ l → split_l c l = [l].
Proof.
  induction l as [|d l IH]; [done|]. intros H. apply not_elem_of_cons in H as [Hd H].
  csimpl. rewrite bool_decide_false by done. by rewrite IH.
Qed.

Lemma split_app c s t :
  split c (s +:+ String c t) = split c s ++ split c t.
Proof. unfold split. by rewrite chars_app, <-fmap_app, <-split_l_app. Qed.

Lemma split_free c s : c ∉ chars s → split c s = [s].
Proof. intros H. unfold split. rewrite split_l_free by done. csimpl. by rewrite of_chars_chars. Qed.

Lemma split_nonempty c s : split c s ≠ [].
Proof. unfold split. intros H%fmap_nil_inv. by apply split_l_nonempty in H. Qed.

Lemma join_cons sep s items :
  items ≠ [] → join sep (s :: items) = s +:+ sep +:+ join sep items.
Proof. by destruct items. Qed.

Lemma split_join c items :
  items ≠ [] → Forall (λ s, c ∉ chars s) items →
  split c (join (String c EmptyString) items) = items.
Proof.
  intros Hn H. induction H as [|s items Hs H IH]; [done|].
  destruct (decide (items = [])) as [->|]; [by apply split_free|].
  rewrite join_cons by done. change (String c "" +:+ join (String c "") items)
    with (String c (join (String c "") items)).
  rewrite split_app, split_free by done. by rewrite IH.
Qed.

Lemma split_parts c s : Forall (λ t, c ∉ chars t) (split c s).
Proof.
  unfold split. apply Forall_fmap. unfold compose.
  cut (Forall (λ l, c ∉ l) (split_l c (chars s))).
  { intros H. eapply Forall_weaken; [exact H|]. intros l ?. by rewrite chars_of_chars. }
  induction (chars s) as [|d l IH]; csimpl; [by repeat constructor; apply not_elem_of_nil|].
  case_bool_decide; [constructor; [apply not_elem_of_nil|done]|].
  destruct (split_l c l) as [|h t]; apply Forall_cons in IH || clear IH.
  - repeat constructor. rewrite list_elem_of_singleton. by intros ->.
  - destruct IH as [Hh Ht]. constructor; [|done]. rewrite not_elem_of_cons. split; [by intros ->|done].
Qed.

Lemma join_split c s : join (String c EmptyString) (split c s) = s.
Proof.
  rewrite <-(of_chars_chars s) at 2. unfold split.
  induction (chars s) as [|d l IH]; [done|]. cbn [split_l]. case_bool_decide as Hd.
  - subst. change (of_chars <$> [] :: split_l c l) with ("" :: (of_chars <$> split_l c l)).
    rewrite join_cons; [by rewrite IH|]. intros H%fmap_nil_inv. by apply split_l_nonempty in H.
  - destruct (split_l c l) as [|h t] eqn:E; [by apply split_l_nonempty in E|].
    change (of_chars (d :: l)) with (String d (of_chars l)). rewrite <-IH.
    by destruct t.
Qed.

Lemma rsplit_once_l_Some c l h t :
  rsplit_once_l c l = Some (h, t) → l = h ++ c :: t ∧ c ∉ t.
Proof.
  revert h. induction l as [|d l IH]; intros h H; simpl in H; [done|].
  destruct (rsplit_once_l c l) as [[h' t']|] eqn:E.
  - simplify_eq. by destruct (IH h' eq_refl) as [-> ?].
  - case_bool_decide; simplify_eq. split; [done|]. clear IH. rename E into H. revert H.
    induction t as [|d l IH]; intros H; [apply not_elem_of_nil|]. simpl in H.
    destruct (rsplit_once_l c l) as [[]|] eqn:E; [done|]. case_bool_decide; [done|].
    rewrite not_elem_of_cons. split; [by intros ->|by apply IH].
Qed.

Lemma rsplit_once_l_None c l : rsplit_once_l c l = None → c ∉ l.
Proof.
  induction l as [|d l IH]; intros H; [apply not_elem_of_nil|]. simpl in H.
  destruct (rsplit_once_l c l) as [[]|] eqn:E; [done|]. case_bool_decide; [done|].
  rewrite not_elem_of_cons. split; [by intros ->|by apply IH].
Qed.

Lemma rsplit_once_Some c s h t :
  rsplit_once c s = Some (h, t) → s = h +:+ String c t ∧ c ∉ chars t.
Proof.
  unfold rsplit_once. intros ([h' t'] & H & [= <- <-])%bind_Some.
  apply rsplit_once_l_Some in H as [Hs Ht]. rewrite chars_of_chars. split; [|done].
  rewrite <-(of_chars_chars s), Hs, of_chars_app. done.
Qed.

Lemma rsplit_once_None c s : rsplit_once c s = None → c ∉ chars s.
Proof.
  unfold rsplit_once. destruct (rsplit_once_l c (chars s)) as [[]|] eqn:E; [done|].
  intros _. by apply rsplit_once_l_None.
Qed.

Lemma rsplit_once_app c h t : c ∉ chars t → rsplit_once c (h +:+ String c t) = Some (h, t).
Proof.
  intros Ht. unfold rsplit_once. rewrite chars_app.
  change (chars (String c t)) with (c :: chars t).
  assert (rsplit_once_l c (chars t) = None) as Hno.
  { destruct (rsplit_once_l c (chars t)) as [[h' t']|] eqn:E; [|done].
    apply rsplit_once_l_Some in E as [E _]. exfalso. apply Ht. rewrite E, elem_of_app. right. by left. }
  assert (∀ l, rsplit_once_l c (l ++ c :: chars t) = Some (l, chars t)) as ->.
  { induction l as [|d l IH]; simpl; [by rewrite Hno, bool_decide_true|by rewrite IH]. }
  simpl. by rewrite !of_chars_chars.
Qed.

Lemma starts_with_true p s : starts_with p s = true ↔ ∃ t, s = p +:+ t.
Proof.
  unfold starts_with. revert s. induction p as [|c p IH]; intros s.
  { split; [by exists s|]. intros _. by destruct s. }
  destruct s as [|d s]; simpl; [split; [done|]; intros [t E]; discriminate E|].
  destruct (Ascii.ascii_dec c d) as [->|Hn].
  - rewrite IH. split; [intros [t ->]; by exists t|intros [t [= ->]]; by exists t].
  - split; [done|]. intros [t [= <- _]]. done.
Qed.

(** ** Lines

    [str::lines] and [BufRead::lines]: the last line may lack its newline, and
    keeps a lone carriage return then. *)

Fixpoint terminated (parts : list string) : list string :=
  match parts with
  | [] => []
  | [last] => if bool_decide (last = EmptyString) then [] else [last]
  | line :: parts =>
      default line (strip_suffix (String "013" EmptyString) line) :: terminated parts
  end.
Definition buf_lines (content : string) : list string := terminated (split "010" content).
