(* ===== verification/Collections.v ===== *)
(** * Collections: ordered strings, sorting and early-exit folds

    [Ord] for [String], [Vec::sort] and [Vec::dedup] on strings, and the
    [for] loop over a fallible body. *)

From Stdlib Require Import String.
From stdpp Require Export sorting.
From S2P Require Export Prelude Text.
From stdpp Require Import options.
Local Open Scope string_scope.

(** ** The order of strings: by code points, a prefix first *)

Definition str_le (a b : string) : Prop := String.leb a b = true.
Definition str_lt (a b : string) : Prop := str_le a b ∧ a ≠ b.

#[global] Instance str_le_dec : RelDecision str_le.
Proof. intros a b. unfold str_le. apply _. Defined.

Lemma ascii_compare_N a b : Ascii.compare a b = (N_of_ascii a ?= N_of_ascii b)%N.
Proof. done. Qed.

Lemma str_le_cons x a y b :
  str_le (String x a) (String y b) ↔ (code x < code y)%N ∨ x = y ∧ str_le a b.
Proof.
  unfold str_le, String.leb, code. cbn [String.compare]. rewrite ascii_compare_N.
  destruct (N.compare_spec (N_of_ascii x) (N_of_ascii y)) as [E|E|E].
  - apply (f_equal ascii_of_N) in E. rewrite !ascii_N_embedding in E. subst.
    split; [auto|]. intros [?|[_ ?]]; [lia|done].
  - naive_solver.
  - split; [done|]. intros [?|[-> _]]; lia.
Qed.

Lemma str_le_nil a : str_le EmptyString a.
Proof. by destruct a. Qed.

Lemma str_le_cons_nil x a : ¬ str_le (String x a) EmptyString.
Proof. done. Qed.

#[global] Instance str_le_trans : Transitive str_le.
Proof.
  intros a. induction a as [|x a IH]; intros [|y b] [|z c];
    rewrite ?str_le_cons; try (by intros; apply str_le_nil || done).
  intros [Hxy|[-> Hab]] [Hyz|[-> Hbc]]; [left; lia|left; lia|left; lia|right].
  split; [done|]. by eapply IH.
Qed.

#[global] Instance str_le_po : PartialOrder str_le.
Proof.
  split; [split|].
  - intros a. induction a; [done|]. rewrite str_le_cons. auto.
  - apply _.
  - intros a b. apply String.leb_antisym.
Qed.

#[global] Instance str_le_total : Total str_le.
Proof. intros a b. apply String.leb_total. Qed.

(** ** [sort] and [dedup] *)

Definition sort_strings (l : list string) : list string := merge_sort str_le l.

(** [Vec::dedup]: of equal neighbours the first stays. *)
Fixpoint dedup (l : list string) : list string :=
  match l with
  | [] => []
  | x :: l =>
      match dedup l with
      | y :: l' => if decide (x = y) then y :: l' else x :: y :: l'
      | [] => [x]
      end
  end.

Definition sort_dedup (l : list string) : list string := dedup (sort_strings l).

Lemma elem_of_sort_strings x l : x ∈ sort_strings l ↔ x ∈ l.
Proof. unfold sort_strings. by rewrite (merge_sort_Permutation str_le l). Qed.

Lemma sort_strings_sorted l : StronglySorted str_le (sort_strings l).
Proof. apply (StronglySorted_merge_sort _). Qed.

Lemma elem_of_dedup x l : x ∈ dedup l ↔ x ∈ l.
Proof.
  induction l as [|y l IH]; simpl; [done|].
  rewrite elem_of_cons, <-IH. destruct (dedup l) as [|z l']; [set_solver|].
  case_decide; set_solver.
Qed.

Lemma dedup_sorted l : StronglySorted str_le l → StronglySorted str_lt (dedup l).
Proof.
  induction l as [|y l IH]; simpl; [constructor|].
  intros [Hl Hy]%StronglySorted_inv. specialize (IH Hl).
  assert (∀ z, z ∈ dedup l → str_le y z) as Hd.
  { intros z Hz. rewrite elem_of_dedup in Hz. rewrite Forall_forall in Hy. by apply Hy. }
  destruct (dedup l) as [|z l'] eqn:E; [repeat constructor|].
  case_decide as Hyz; [done|]. constructor; [done|].
  apply Forall_forall. intros w Hw. split; [by apply Hd|]. intros ->.
  apply StronglySorted_inv in IH as [_ Hz]. rewrite Forall_forall in Hz.
  apply elem_of_cons in Hw as [->|Hw]; [done|].
  destruct (Hz w Hw) as [Hle _]. apply Hyz, (anti_symm str_le); [|done].
  apply Hd. by left.
Qed.

Lemma elem_of_sort_dedup x l : x ∈ sort_dedup l ↔ x ∈ l.
Proof. unfold sort_dedup. by rewrite elem_of_dedup, elem_of_sort_strings. Qed.

Lemma sort_dedup_sorted l : StronglySorted str_lt (sort_dedup l).
Proof. apply dedup_sorted, sort_strings_sorted. Qed.

Lemma str_lt_NoDup l : StronglySorted str_lt l → NoDup l.
Proof.
  induction l as [|x l IH]; [constructor|]. intros [Hl Hx]%StronglySorted_inv.
  apply NoDup_cons. split; [|by apply IH]. intros Hin.
  rewrite Forall_forall in Hx. by destruct (Hx x Hin).
Qed.

(** ** A loop whose body may fail *)

Section try_fold.
Context {A B E : Type} (f : B → A → result B E).

Fixpoint try_fold (l : list A) (b : B) : result B E :=
  match l with
  | [] => Ok b
  | x :: l => let? b := f b x in try_fold l b
  end.

(** What the body keeps true, and promises of each element, the loop
    promises of all. *)
Lemma try_fold_ind (I : B → Prop) (Q : A → B → Prop) (R : E → Prop) l b :
  (∀ b b' x y, y ∈ l → Q x b → I b → f b y = Ok b' → Q x b') →
  (∀ b x, x ∈ l → I b →
    match f b x with Ok b' => I b' ∧ Q x b' | Err e => R e end) →
  I b →
  match try_fold l b with Ok b' => I b' ∧ ∀ x, x ∈ l → Q x b' | Err e => R e end.
Proof.
  revert b. induction l as [|x l IH]; intros b Hmono Hf Hb; simpl.
  - split; [done|]. set_solver.
  - pose proof (Hf b x (list_elem_of_here _ _) Hb) as Hx.
    destruct (f b x) as [b'|e]; simpl; [|done]. destruct Hx as [HI HQ].
    assert (∀ b b'', I b → Q x b → try_fold l b = Ok b'' → Q x b'') as Hkeep.
    { clear -Hmono Hf. induction l as [|y l IHl]; simpl; intros b b'' Hb HQ.
      - by intros [= <-].
      - intros H. apply result_bind_Ok in H as (b1 & H1 & H2).
        pose proof (Hf b y ltac:(set_solver) Hb) as Hy. rewrite H1 in Hy.
        apply (IHl ltac:(set_solver) ltac:(set_solver) b1); [by apply Hy| |done].
        by apply (Hmono b b1 x y); [set_solver|..]. }
    specialize (IH b'). destruct (try_fold l b') as [b''|e] eqn:El; [|apply IH; set_solver].
    destruct IH as [HI' HQ']; [set_solver..|]. split; [done|].
    intros z [->|Hz]%elem_of_cons; [by apply (Hkeep b')|by apply HQ'].
Qed.
End try_fold.

Lemma try_fold_ext {A B E : Type} (f g : B → A → result B E) l b :
  (∀ b a, f b a = g b a) → try_fold f l b = try_fold g l b.
Proof.
  intros Hfg. revert b. induction l as [|a l IH]; intros b; simpl; [done|].
  rewrite Hfg. destruct (g b a); simpl; [apply IH|done].
Qed.
