(* ===== verification/Io.v ===== *)
(** * Io: computations that ask the world for things, and may fail

    A handler of the source that makes requests of the daemon or of the host is
    an [action]: from a state of the world, the state it leaves, the requests it
    made, in order, and its result.  [justified] is the reasoning its users
    share: what a handler asked for, and when. *)

From S2P Require Import Prelude.
From stdpp Require Import options.

Definition action (W R E A : Type) : Type := W → W * list R * result A E.

Definition act_ret {W R E A} (a : A) : action W R E A := λ w, (w, [], Ok a).
Definition act_fail {W R E A} (e : E) : action W R E A := λ w, (w, [], Err e).
Definition act_read {W R E A} (g : W → A) : action W R E A := λ w, (w, [], Ok (g w)).
Definition act_bind {W R E A B} (m : action W R E A) (k : A → action W R E B) : action W R E B := λ w,
  let '(w, asked, a) := m w in
  match a with
  | Ok a => let '(w, more, b) := k a w in (w, asked ++ more, b)
  | Err e => (w, asked, Err e)
  end.

Notation "'do!' x := m 'in' k" := (act_bind m (λ x, k))
  (at level 10, x pattern, m at level 100, k at level 200) : ratect_scope.

(** [?] on a result that needs no request. *)
Definition act_lift {W R E A} (r : result A E) : action W R E A := λ w, (w, [], r).

(** A check: [if !ok { bail!(e) }]. *)
Definition act_ensure {W R E} (b : bool) (e : E) : action W R E () := act_lift (ensure b e).

(** A request, answered. *)
Definition act_ask {W R E A} (r : R) (answer : W → W * result A E) : action W R E A := λ w,
  let '(w, a) := answer w in (w, [r], a).

(** A [for] loop. *)
Fixpoint act_each {W R E A} (body : A → action W R E ()) (l : list A) : action W R E () :=
  match l with
  | [] => act_ret tt
  | x :: l => do! _ := body x in act_each body l
  end.

(** ** What is asked for *)

Section asked.
Context {W R E : Type}.

(** Every request of [m], whatever world it is run in, satisfies [P]. *)
Definition asks {A} (P : R → Prop) (m : action W R E A) : Prop :=
  ∀ w w' asked a, m w = (w', asked, a) → Forall P asked.

Lemma asks_ret {A} P (a : A) : asks P (act_ret a).
Proof. by intros w w' asked a' [= <- <- <-]. Qed.
Lemma asks_fail {A} P e : asks P (act_fail (A := A) e).
Proof. by intros w w' asked a' [= <- <- <-]. Qed.
Lemma asks_read {A} P (g : W → A) : asks P (act_read g).
Proof. by intros w w' asked a' [= <- <- <-]. Qed.
Lemma asks_lift {A} P (r : result A E) : asks P (act_lift r).
Proof. by intros w w' asked a' [= <- <- <-]. Qed.
Lemma asks_ensure P b (e : E) : asks P (act_ensure b e).
Proof. apply asks_lift. Qed.

Lemma asks_ask {A} (P : R → Prop) r (answer : W → W * result A E) : P r → asks P (act_ask r answer).
Proof.
  intros HP w w' asked a. unfold act_ask. destruct (answer w) as [w1 a1]. intros [= <- <- <-].
  by repeat constructor.
Qed.

Lemma asks_bind {A B} P (m : action W R E A) (k : A → action W R E B) :
  asks P m → (∀ w w1 asked a, m w = (w1, asked, Ok a) → asks P (k a)) → asks P (act_bind m k).
Proof.
  intros Hm Hk w w' asked b. unfold act_bind. destruct (m w) as [[w1 asked1] [a|e]] eqn:E1.
  - destruct (k a w1) as [[w2 asked2] b2] eqn:E2. intros [= <- <- <-].
    apply Forall_app. split; [by eapply Hm|by eapply Hk].
  - intros [= <- <- <-]. by eapply Hm.
Qed.

Lemma asks_each {A} P (body : A → action W R E ()) l :
  (∀ x, x ∈ l → asks P (body x)) → asks P (act_each body l).
Proof.
  induction l as [|x l IH]; intros Hb; [apply asks_ret|].
  apply asks_bind; [apply Hb; by left|]. intros. apply IH. intros y Hy. apply Hb. by right.
Qed.

Lemma asks_weaken {A} (P Q : R → Prop) (m : action W R E A) :
  (∀ r, P r → Q r) → asks P m → asks Q m.
Proof. intros H Hm w w' asked a Hr. eapply Forall_impl; [by eapply Hm|done]. Qed.

Lemma act_lift_Ok {A} (r : result A E) w w' (asked : list R) a :
  act_lift (W := W) r w = (w', asked, Ok a) → w' = w ∧ asked = [] ∧ r = Ok a.
Proof. intros [= -> -> ->]. done. Qed.

(** A bind that gives a result, split at its parts. *)
Lemma act_bind_Ok {A B} (m : action W R E A) (k : A → action W R E B) w w' asked b :
  act_bind m k w = (w', asked, Ok b) ↔
  ∃ w1 asked1 a asked2, m w = (w1, asked1, Ok a) ∧ k a w1 = (w', asked2, Ok b) ∧ asked = asked1 ++ asked2.
Proof.
  unfold act_bind. destruct (m w) as [[w1 asked1] [a|e]].
  - destruct (k a w1) as [[w2 asked2] b2] eqn:E2. split.
    + intros [= <- <- ->]. by exists w1, asked1, a, asked2.
    + intros (? & ? & ? & ? & [= <- <- <-] & Hk & ->). rewrite E2 in Hk. by injection Hk as <- <- ->.
  - split; [done|]. by intros (? & ? & ? & ? & ? & ?).
Qed.

Lemma act_bind_Err {A B} (m : action W R E A) (k : A → action W R E B) w w' asked e :
  act_bind m k w = (w', asked, Err e) ↔
  m w = (w', asked, Err e) ∨
  ∃ w1 asked1 a asked2, m w = (w1, asked1, Ok a) ∧ k a w1 = (w', asked2, Err e) ∧ asked = asked1 ++ asked2.
Proof.
  unfold act_bind. destruct (m w) as [[w1 asked1] [a|e1]].
  - destruct (k a w1) as [[w2 asked2] b2] eqn:E2. split.
    + intros [= <- <- ->]. right. by exists w1, asked1, a, asked2.
    + intros [?|(? & ? & ? & ? & [= <- <- <-] & Hk & ->)]; [done|].
      rewrite E2 in Hk. by injection Hk as <- <- ->.
  - split; [intros [= <- <- <-]; by left|]. by intros [[= <- <- <-]|(? & ? & ? & ? & ? & ?)].
Qed.

(** How a bind ran. *)
Lemma act_bind_run {A B} (m : action W R E A) (k : A → action W R E B) w w' asked r :
  act_bind m k w = (w', asked, r) →
  (∃ e, m w = (w', asked, Err e) ∧ r = Err e) ∨
  ∃ w1 asked1 a asked2, m w = (w1, asked1, Ok a) ∧ k a w1 = (w', asked2, r) ∧ asked = asked1 ++ asked2.
Proof.
  destruct r as [b|e].
  - intros ?%act_bind_Ok. by right.
  - intros [?|?]%act_bind_Err; [left; by eexists|by right].
Qed.
End asked.

(** ** Requests in order *)

Section requests.
Context {W R E : Type} (apply_request : W → R → W).

Definition run_requests (w : W) (l : list R) : W := foldl apply_request w l.

Lemma run_requests_app w l k : run_requests w (l ++ k) = run_requests (run_requests w l) k.
Proof. apply foldl_app. Qed.

(** Run from [w], [m] leaves the world as its requests do, and each request was
    justified by [P] on the world as it was at that point or before. *)
Definition justified {A} (P : W → R → Prop) (m : action W R E A) (w : W) : Prop :=
  ∀ w' asked a, m w = (w', asked, a) → w' = run_requests w asked ∧
    ∀ pre r post, asked = pre ++ r :: post → ∃ pre0, pre0 `prefix_of` pre ∧ P (run_requests w pre0) r.

Lemma justified_ret {A} P (a : A) w : justified P (act_ret a) w.
Proof. intros w' asked a' [= <- <- <-]. split; [done|]. by intros [|??] ???. Qed.

Lemma justified_fail {A} P e w : justified P (act_fail (A := A) e) w.
Proof. intros w' asked a' [= <- <- <-]. split; [done|]. by intros [|??] ???. Qed.

Lemma justified_bind {A B} P (m : action W R E A) (k : A → action W R E B) w :
  justified P m w → (∀ w1 asked a, m w = (w1, asked, Ok a) → justified P (k a) w1) →
  justified P (act_bind m k) w.
Proof.
  intros Hm Hk w' asked b. unfold act_bind. destruct (m w) as [[w1 asked1] [a|e]] eqn:E1.
  - destruct (k a w1) as [[w2 asked2] b2] eqn:E2. intros [= <- <- <-].
    destruct (Hm _ _ _ E1) as [-> Hm1]. destruct (Hk _ _ _ eq_refl _ _ _ E2) as [-> Hk1].
    split; [by rewrite run_requests_app|]. intros pre r post Heq.
    apply app_eq_inv in Heq as [(k1 & Hpre & Hrest)|(k1 & Hpre & Hrest)].
    + destruct k1 as [|x k1]; simpl in Hrest.
      * rewrite app_nil_r in Hpre. subst pre. destruct (Hk1 [] r post) as (pre0 & Hp & HP); [done|].
        exists (asked1 ++ pre0). split; [|by rewrite run_requests_app].
        apply prefix_nil_inv in Hp as ->. by rewrite app_nil_r.
      * injection Hrest as -> ->. by apply (Hm1 pre x k1).
    + subst pre. destruct (Hk1 k1 r post) as (pre0 & Hp & HP); [done|].
      exists (asked1 ++ pre0). split; [by apply prefix_app|by rewrite run_requests_app].
  - intros [= <- <- <-]. by apply (Hm _ _ _ E1).
Qed.

Lemma justified_read {A} P (g : W → A) w : justified P (act_read g) w.
Proof. intros w' asked a' [= <- <- <-]. split; [done|]. by intros [|??] ???. Qed.

Lemma justified_each {A} P (body : A → action W R E ()) l w :
  (∀ x w, x ∈ l → justified P (body x) w) → justified P (act_each body l) w.
Proof.
  revert w. induction l as [|x l IH]; intros w Hb; [apply justified_ret|].
  apply justified_bind; [apply Hb; by left|]. intros w1 asked [] _.
  apply IH. intros y w2 Hy. apply Hb. by right.
Qed.

Lemma justified_weaken {A} (P Q : W → R → Prop) (m : action W R E A) w :
  (∀ w r, P w r → Q w r) → justified P m w → justified Q m w.
Proof.
  intros H Hm w' asked a Hrun. destruct (Hm _ _ _ Hrun) as [-> HP]. split; [done|].
  intros pre r post Heq. destruct (HP _ _ _ Heq) as (pre0 & ? & ?). eauto.
Qed.
End requests.

#[export] Hint Resolve asks_ret asks_fail asks_read asks_lift asks_ensure asks_ask : ratect.

(** A call whose error is looked at, rather than passed on. *)
Definition act_try {W R E A} (m : action W R E A) : action W R E (result A E) := λ w,
  let '(w, asked, a) := m w in (w, asked, Ok a).

(** ** What a computation leaves

    Run from a world with [P], [m] leaves one with [Q] of its result. *)

Section hoare.
Context {W R E : Type}.

Definition hoare {A} (P : W → Prop) (m : action W R E A) (Q : result A E → W → Prop) : Prop :=
  ∀ w w' asked r, P w → m w = (w', asked, r) → Q r w'.

Lemma hoare_ret {A} (P : W → Prop) (a : A) (Q : result A E → W → Prop) :
  (∀ w, P w → Q (Ok a) w) → hoare P (act_ret a) Q.
Proof. intros H w w' asked r Hw [= <- _ <-]. by apply H. Qed.

Lemma hoare_lift {A} (P : W → Prop) (a : result A E) Q :
  (∀ w, P w → Q a w) → hoare P (act_lift a) Q.
Proof. intros H w w' asked r Hw [= <- _ <-]. by apply H. Qed.

Lemma hoare_ask {A} (P : W → Prop) q (a : A) (Q : result A E → W → Prop) :
  (∀ w, P w → Q (Ok a) w) → hoare P (act_ask q (λ w, (w, Ok a))) Q.
Proof. intros H w w' asked r Hw [= <- _ <-]. by apply H. Qed.

Lemma hoare_bind {A B} (P : W → Prop) (m : action W R E A) (k : A → action W R E B) (M : A → W → Prop) Q :
  hoare P m (λ r, match r with Ok a => M a | Err e => Q (Err e) end) →
  (∀ a, hoare (M a) (k a) Q) → hoare P (act_bind m k) Q.
Proof.
  intros Hm Hk w w' asked r Hw [(e & Hrun & ->)|(w1 & a1 & a & a2 & Hrun & Hrest & _)]%act_bind_run.
  - exact (Hm _ _ _ _ Hw Hrun).
  - eapply Hk; [|exact Hrest]. exact (Hm _ _ _ _ Hw Hrun).
Qed.

Lemma hoare_try {A} (P : W → Prop) (m : action W R E A) Q :
  hoare P m (λ r, Q (Ok r)) → hoare P (act_try m) Q.
Proof.
  intros Hm w w' asked r Hw. unfold act_try. destruct (m w) as [[w1 asked1] r1] eqn:Hrun.
  intros [= <- _ <-]. exact (Hm _ _ _ _ Hw Hrun).
Qed.

Lemma hoare_weaken {A} (P P' : W → Prop) (m : action W R E A) (Q Q' : result A E → W → Prop) :
  hoare P' m Q' → (∀ w, P w → P' w) → (∀ r w, Q' r w → Q r w) → hoare P m Q.
Proof. intros Hm HP HQ w w' asked r Hw Hrun. eapply HQ, Hm; [by apply HP|exact Hrun]. Qed.

(** [m] keeps an invariant. *)
Definition retains {A} (P : W → Prop) (m : action W R E A) : Prop := hoare P m (λ _, P).

Lemma retains_ret {A} P (a : A) : retains P (act_ret a).
Proof. by apply hoare_ret. Qed.
Lemma retains_lift {A} P (r : result A E) : retains P (act_lift r).
Proof. by apply hoare_lift. Qed.
Lemma retains_fail {A} P e : retains P (act_fail (A := A) e).
Proof. by apply (hoare_lift P (Err e)). Qed.
Lemma retains_ask {A} P q (a : A) : retains P (act_ask q (λ w, (w, Ok a))).
Proof. by apply hoare_ask. Qed.
Lemma retains_try {A} P (m : action W R E A) : retains P m → retains P (act_try m).
Proof. intros Hm. by apply (hoare_try P m (λ _, P)). Qed.
Lemma retains_bind {A B} P (m : action W R E A) (k : A → action W R E B) :
  retains P m → (∀ a, retains P (k a)) → retains P (act_bind m k).
Proof.
  intros Hm Hk. apply (hoare_bind _ _ _ (λ _, P)); [|done]. eapply hoare_weaken; [exact Hm|done|]. by intros [].
Qed.
End hoare.

#[export] Hint Resolve retains_ret retains_lift retains_fail retains_ask retains_try retains_bind : ratect.
