(* ===== verification/Regex.v ===== *)
(** * Regex: what the source relies on of the [regex] crate

    The source builds only anchored patterns.  The ones whose meaning a claim
    depends on are a sequence of the [atom]s below; the interface states what
    the crate documents for them, and a small matcher shows it can be met.
    [.] matches any char but a newline, [\[^/\]] any char but a slash. *)

From S2P Require Import Prelude Text Collections.
From stdpp Require Import options.

Definition newline : ascii := "010".
Definition slash : ascii := "/".
Definition backslash : ascii := "\".

Inductive atom :=
| Lit (c : ascii)       (* the char itself, escaped or not *)
| AnyString             (* [.*] *)
| NoSlashString         (* [\[^/\]*] *)
| NoSlashChar           (* [\[^/\]] *)
| Directories.          (* [(.*/)?] *)

(** The words an atom matches. *)
Definition atom_lang (a : atom) (w : list ascii) : Prop :=
  match a with
  | Lit c => w = [c]
  | AnyString => newline ∉ w
  | NoSlashString => slash ∉ w
  | NoSlashChar => ∃ c, w = [c] ∧ c ≠ slash
  | Directories => w = [] ∨ ∃ u, w = u ++ [slash] ∧ newline ∉ u
  end.

Definition lang (atoms : list atom) (w : list ascii) : Prop :=
  ∃ ws, Forall2 atom_lang atoms ws ∧ w = concat ws.

(** The chars with a meaning of their own in a pattern, and those
    [regex::escape] puts a backslash before. *)
Definition metachar (c : ascii) : bool :=
  bool_decide (c ∈ chars "\.+*?()|[]{}^$").
Definition escapable (c : ascii) : bool := metachar c || bool_decide (c ∈ chars "#&-~").

(** The texts that stand for an atom. *)
Definition renders_atom (a : atom) (t : string) : Prop :=
  match a with
  | Lit c => t = String c EmptyString ∧ metachar c = false
      ∨ t = String backslash (String c EmptyString) ∧ escapable c = true
  | AnyString => t = ".*"
  | NoSlashString => t = "[^/]*"
  | NoSlashChar => t = "[^/]"
  | Directories => t = "(.*/)?"
  end.

(** No text starts with a star, so no atom's text runs into the next. *)
Inductive renders : list atom → string → Prop :=
| renders_nil : renders [] EmptyString
| renders_cons a t atoms ts :
    renders_atom a t → renders atoms ts → renders (a :: atoms) (t +:+ ts).

(** ** The interface *)

Class RegexCrate := {
  regex : Type;
  regex_new : string → option regex;
  is_match : regex → string → bool;
  escape : string → string;
}.

Class RegexLaws `{RegexCrate} : Prop := {
  regex_new_anchored atoms t : renders atoms t →
    ∃ r, regex_new ("^" +:+ t +:+ "$") = Some r ∧
      ∀ s, is_match r s = true ↔ lang atoms (chars s);
  escape_renders s : renders (Lit <$> chars s) (escape s);
}.

(** ** The language, by the first atom *)

Lemma lang_nil w : lang [] w ↔ w = [].
Proof.
  split.
  - intros (ws & H & ->). by apply Forall2_nil_inv_l in H as ->.
  - intros ->. by exists [].
Qed.

Lemma lang_cons a atoms w : lang (a :: atoms) w ↔ ∃ u v, w = u ++ v ∧ atom_lang a u ∧ lang atoms v.
Proof.
  split.
  - intros (ws & H & ->). apply Forall2_cons_inv_l in H as (u & ws' & Hu & Hws & ->).
    exists u, (concat ws'). split; [done|]. split; [done|]. by exists ws'.
  - intros (u & v & -> & Hu & ws & Hws & ->). exists (u :: ws). split; [by constructor|done].
Qed.

Lemma lang_app l k w : lang (l ++ k) w ↔ ∃ u v, w = u ++ v ∧ lang l u ∧ lang k v.
Proof.
  revert w. induction l as [|a l IH]; intros w; simpl.
  - split; [intros H; exists [], w; by rewrite lang_nil|].
    intros (u & v & -> & ->%lang_nil & H). done.
  - rewrite lang_cons. setoid_rewrite IH. setoid_rewrite lang_cons. split.
    + intros (u & ? & -> & ? & u' & v & -> & ? & ?). exists (u ++ u'), v.
      rewrite (assoc_L (++)). split; [done|]. split; [by exists u, u'|done].
    + intros (? & v & -> & (u & u' & -> & ? & ?) & ?). exists u, (u' ++ v).
      rewrite (assoc_L (++)). split; [done|]. split; [done|]. by exists u', v.
Qed.

Lemma lang_lit l w : lang (Lit <$> l) w ↔ w = l.
Proof.
  revert w. induction l as [|c l IH]; intros w; csimpl; [apply lang_nil|].
  rewrite lang_cons. setoid_rewrite IH. simpl. split; [by intros (? & ? & -> & -> & ->)|].
  intros ->. by exists [c], l.
Qed.

Lemma renders_app l k s t : renders l s → renders k t → renders (l ++ k) (s +:+ t).
Proof.
  intros H Hk. induction H as [|a u l ts Ha H IH]; [done|].
  simpl. rewrite <-string_app_assoc. by constructor.
Qed.

Lemma renders_one a t : renders_atom a t → renders [a] t.
Proof. intros H. rewrite <-(string_app_nil_r t). by repeat constructor. Qed.

(** ** A matcher that meets the interface *)

Definition atom_match (a : atom) (w : list ascii) : bool :=
  match a with
  | Lit c => bool_decide (w = [c])
  | AnyString => bool_decide (newline ∉ w)
  | NoSlashString => bool_decide (slash ∉ w)
  | NoSlashChar => match w with [c] => bool_decide (c ≠ slash) | _ => false end
  | Directories =>
      bool_decide (w = [])
      || bool_decide (last w = Some slash ∧ newline ∉ take (pred (length w)) w)
  end.

Fixpoint lang_match (atoms : list atom) (w : list ascii) : bool :=
  match atoms with
  | [] => bool_decide (w = [])
  | a :: atoms =>
      existsb (λ i, atom_match a (take i w) && lang_match atoms (drop i w))
        (seq 0 (S (length w)))
  end.

Fixpoint strip_list (p l : list ascii) : option (list ascii) :=
  match p, l with
  | [], _ => Some l
  | c :: p, c' :: l => if decide (c = c') then strip_list p l else None
  | _ :: _, [] => None
  end.

Definition atom_texts : list (string * atom) :=
  [(".*", AnyString); ("[^/]*", NoSlashString); ("[^/]", NoSlashChar); ("(.*/)?", Directories)].

Definition next_atom (l : list ascii) : option (atom * list ascii) :=
  match l with
  | [] => None
  | c :: l' =>
      if decide (c = backslash) then
        match l' with
        | c' :: l'' => if escapable c' then Some (Lit c', l'') else None
        | [] => None
        end
      else if metachar c then
        foldr (λ '(t, a) rest,
          match strip_list (chars t) l with Some l' => Some (a, l') | None => rest end)
          None atom_texts
      else Some (Lit c, l')
  end.

Fixpoint parse_atoms (fuel : nat) (l : list ascii) : option (list atom) :=
  match fuel, l with
  | _, [] => Some []
  | O, _ => None
  | S fuel, _ => '(a, l') ← next_atom l; (a ::.) <$> parse_atoms fuel l'
  end.

Definition lang_regex_new (s : string) : option (list atom) :=
  t ← strip_prefix "^" s; t ← strip_suffix "$" t; parse_atoms (String.length t) (chars t).

Definition lang_escape (s : string) : string :=
  of_chars (concat ((λ c, if escapable c then [backslash; c] else [c]) <$> chars s)).

Definition lang_crate : RegexCrate :=
  {| regex := list atom; regex_new := lang_regex_new;
     is_match r s := lang_match r (chars s); escape := lang_escape |}.

Lemma atom_match_spec a w : atom_match a w = true ↔ atom_lang a w.
Proof.
  destruct a; simpl; rewrite ?orb_true_iff, ?bool_decide_eq_true; [done..| |].
  - destruct w as [|c []]; rewrite ?bool_decide_eq_true; naive_solver.
  - apply or_iff_compat_l. split.
    + intros [Hl Hn]. destruct (exists_last (l := w)) as (u & x & ->); [by intros ->|].
      rewrite last_snoc in Hl. simplify_eq. exists u. split; [done|].
      rewrite length_app in Hn. simpl in Hn. replace (pred (length u + 1)) with (length u) in Hn by lia.
      by rewrite take_app_length in Hn.
    + intros (u & -> & Hu). rewrite last_snoc, length_app. simpl.
      replace (pred (length u + 1)) with (length u) by lia. by rewrite take_app_length.
Qed.

Lemma lang_match_spec atoms w : lang_match atoms w = true ↔ lang atoms w.
Proof.
  revert w. induction atoms as [|a atoms IH]; intros w.
  - rewrite lang_nil. cbn. apply bool_decide_eq_true.
  - rewrite lang_cons. cbn [lang_match]. rewrite existsb_exists. split.
    + intros (i & _ & [Ha Hr]%andb_prop). exists (take i w), (drop i w).
      by rewrite take_drop, <-atom_match_spec, <-IH.
    + intros (u & v & -> & Hu & Hv). exists (length u).
      rewrite take_app_length, drop_app_length, in_seq, length_app.
      split; [lia|]. apply atom_match_spec in Hu as ->. by apply IH in Hv as ->.
Qed.

Lemma strip_list_app p l : strip_list p (p ++ l) = Some l.
Proof. induction p as [|c p IH]; simpl; [done|]. by destruct (decide _). Qed.

Lemma renders_head atoms t : renders atoms t → head (chars t) ≠ Some "*"%char.
Proof.
  intros [|a s l ts Ha _]; [done|]. rewrite chars_app.
  destruct a; simpl in Ha; simplify_eq; [|done..].
  destruct Ha as [[-> Hm]|[-> _]]; simpl; [|done]. intros [= ->]. by vm_compute in Hm.
Qed.

Lemma next_atom_renders a t atoms ts :
  renders_atom a t → renders atoms ts → next_atom (chars t ++ chars ts) = Some (a, chars ts).
Proof.
  intros Ha Hts. pose proof (renders_head atoms ts Hts) as Hhead.
  destruct a; simpl in Ha; simplify_eq; [|by destruct (chars ts)..| |done].
  - destruct Ha as [[-> Hm]|[-> Hm]]; simpl.
    + rewrite decide_False; [by rewrite Hm|]. intros ->. by vm_compute in Hm.
    + by rewrite Hm.
  - destruct (chars ts) as [|c l]; [done|]. simpl in *.
    unfold next_atom. simpl. destruct (decide ("*"%char = c)); [by subst|done].
Qed.

Lemma parse_atoms_renders atoms t fuel :
  renders atoms t → String.length t ≤ fuel → parse_atoms fuel (chars t) = Some atoms.
Proof.
  intros H. revert fuel. induction H as [|a t atoms ts Ha Hts IH]; intros fuel Hf.
  { by destruct fuel. }
  assert (t ≠ EmptyString) as Ht by (destruct a; simpl in Ha; naive_solver).
  rewrite chars_app. destruct t as [|c t]; [done|]. simpl in Hf.
  destruct fuel as [|fuel]; [lia|].
  pose proof (next_atom_renders a _ atoms ts Ha Hts) as Hn.
  change (chars (String c t) ++ chars ts) with (c :: (chars t ++ chars ts)) in Hn |- *.
  cbn [parse_atoms]. rewrite Hn. simpl.
  rewrite IH; [done|]. rewrite <-!length_chars, chars_app, length_app in Hf.
  rewrite <-length_chars. lia.
Qed.

#[global] Instance lang_crate_laws : @RegexLaws lang_crate.
Proof.
  split.
  - intros atoms t H. exists atoms. split.
    + simpl. unfold lang_regex_new. rewrite (proj2 (strip_prefix_Some _ _ _)) by done. simpl.
      rewrite (proj2 (strip_suffix_Some _ _ _)) by done. by apply parse_atoms_renders.
    + intros s. apply lang_match_spec.
  - intros s. simpl. unfold lang_escape. induction (chars s) as [|c l IH]; csimpl; [constructor|].
    rewrite of_chars_app. constructor; [|done]. simpl.
    destruct (escapable c) eqn:E; [by right|left]. split; [done|].
    unfold escapable in E. by apply orb_false_elim in E as [? _].
Qed.
