(* ===== verification/Expressions.v ===== *)
(** * Expressions: [ratect-core/src/expressions.rs]

    The expression syntax of configuration values: [$VAR], [${VAR:-default}],
    [<name], [<{name}] and the [\ ] escape.  [parse_token] reads one
    reference, [scan] is the one walk every reader of the syntax shares, and
    [interpolate], [contains_expression], [check_syntax], [references],
    [literal_as_expression] and [literal_kept] are its clients.

    Where the source indexes [chars] by [i], the model carries the suffix
    [chars[i..]] together with [i]; [scan]'s loop runs on fuel, one unit per
    iteration, and [S (length chars)] is proved to be enough. *)

From S2P Require Import Prelude Text.
From stdpp Require Import options.

Local Open Scope char_scope.

(** ** Data *)

Record Token := mk_token {
  start : nat;
  len : nat;
  sigil : ascii;
  name : string;
  default : option string;
}.

#[global] Instance Token_eq_dec : EqDecision Token.
Proof. solve_decision. Defined.

(** What is wrong with a reference; columns are 1-based. *)
Inductive token_problem :=
| MustBeFollowedByName (sigil : ascii) (column : nat)
| DoesNotContainName (sigil : ascii) (column : nat)
| ColonNotFollowedByDash (column : nat)
| DefaultEscapeAtEnd (column : nat)
| BraceNotClosed (column : nat)
| BracedNameEmpty (written : string) (column : nat).

Inductive var_kind := Environment | ConfigVar.

Inductive expr_error :=
| InvalidEscapeSequence (column : nat)
| InvalidReference (kind : var_kind) (problem : token_problem)
| HostVariableNotSet (name : string)
| ConfigVariableNotDeclared (name : string)
| ConfigVariableNoValue (name : string)
| ScanOutOfFuel.

(** ** [parse_token] *)

Definition is_name_char (c : ascii) : bool := is_alphanumeric c || bool_decide (c = "_").

(** The longest run of name characters at the front of [l]. *)
Fixpoint name_run (l : list ascii) : list ascii :=
  match l with
  | c :: l' => if is_name_char c then c :: name_run l' else []
  | [] => []
  end.

Record braced := mk_braced {
  b_name : list ascii;
  b_index : nat;
  b_rest : list ascii;
  b_closed : bool;
  b_has_default : bool;
}.

(** The first [while let]: a braced name, from [chars[i..] = rest]. *)
Fixpoint braced_name (sigil : ascii) (rest : list ascii) (i : nat) (name : list ascii) : braced :=
  match rest with
  | [] => mk_braced name i rest false false
  | c :: rest' =>
      if bool_decide (c = "}") then mk_braced name i rest true false
      else if bool_decide (c = ":" ∧ sigil = "$") then mk_braced name i rest false true
      else braced_name sigil rest' (S i) (name ++ [c])
  end.

(** The second [while let]: a default, up to the first [}] not escaped. *)
Fixpoint default_value (rest : list ascii) (i : nat) (default : list ascii)
  : result (list ascii * nat * bool) token_problem :=
  match rest with
  | [] => Ok (default, i, false)
  | c :: rest' =>
      if bool_decide (c = "}") then Ok (default, i, true)
      else if bool_decide (c = "\") then
        match rest' with
        | escaped :: rest'' => default_value rest'' (2 + i) (default ++ [escaped])
        | [] => Err (DefaultEscapeAtEnd (i + 1))
        end
      else default_value rest' (S i) (default ++ [c])
  end.

Definition parse_braced (sigil : ascii) (start : nat) (rest : list ascii)
  : result Token token_problem :=
  let b := braced_name sigil (drop 2 rest) (start + 2) [] in
  let? (default, i, closed) :=
    (if b_has_default b then
       if bool_decide (b_rest b !! 1 = Some "-") then
         let? (d, i, closed) := default_value (drop 2 (b_rest b)) (b_index b + 2) [] in
         Ok (Some d, i, closed)
       else Err (ColonNotFollowedByDash (b_index b + 1))
     else Ok (None, b_index b, b_closed b)) in
  if negb closed then Err (BraceNotClosed (start + 2))
  else if bool_decide (b_name b = []) then
    Err (BracedNameEmpty (of_chars (take (i + 1 - start) rest)) (start + 1))
  else Ok {| start := start; len := i + 1 - start; sigil := sigil;
             name := of_chars (b_name b); default := of_chars <$> default |}.

(** [parse_token chars start], on [rest = chars[start..]]. *)
Definition parse_token_problem (rest : list ascii) (start : nat) : result Token token_problem :=
  match rest with
  | sigil :: after_sigil =>
      match after_sigil with
      | [] => Err (MustBeFollowedByName sigil (start + 1))
      | after :: _ =>
          if bool_decide (after ≠ "{") then
            let run := name_run after_sigil in
            if bool_decide (run = []) then Err (DoesNotContainName sigil (start + 1))
            else Ok {| start := start; len := S (length run); sigil := sigil;
                       name := of_chars run; default := None |}
          else parse_braced sigil start rest
      end
  | [] => Err (BraceNotClosed start)
  end.

Definition kind_of (sigil : ascii) : var_kind :=
  if bool_decide (sigil = "$") then Environment else ConfigVar.

Definition parse_token (rest : list ascii) (start : nat) : result Token expr_error :=
  map_err (InvalidReference (kind_of (hd "$" rest))) (parse_token_problem rest start).

(** ** [scan] *)

Section scan.
(** [on_token] is the source's [FnMut]: [S] is what it captures. *)
Context {S : Type} (on_token : Token → S → result (string * S) expr_error).

Fixpoint scan_loop (fuel : nat) (rest : list ascii) (i : nat) (out : list ascii) (st : S)
  : result (list ascii * S) expr_error :=
  match fuel with
  | 0 => Err ScanOutOfFuel
  | Datatypes.S fuel =>
      match rest with
      | [] => Ok (out, st)
      | c :: rest' =>
          if bool_decide (c = "\") then
            match rest' with
            | escaped :: rest'' => scan_loop fuel rest'' (2 + i) (out ++ [escaped]) st
            | [] => Err (InvalidEscapeSequence (i + 1))
            end
          else if bool_decide (c = "$" ∨ c = "<") then
            let? token := parse_token rest i in
            let? (value, st) := on_token token st in
            scan_loop fuel (drop (len token) rest) (i + len token) (out ++ chars value) st
          else scan_loop fuel rest' (1 + i) (out ++ [c]) st
      end
  end.

Definition scan (input : string) (st : S) : result (string * S) expr_error :=
  let? (out, st) := scan_loop (1 + length (chars input)) (chars input) 0 [] st in
  Ok (of_chars out, st).
End scan.

(** ** The readers *)

Definition host_env := string → option string.
Definition config_vars := gmap string (option string).

Definition resolve (token : Token) (env : host_env) (vars : config_vars)
  : result string expr_error :=
  if bool_decide (sigil token = "$") then
    match env (name token) with
    | Some value => Ok value
    | None => ok_or (default token) (HostVariableNotSet (name token))
    end
  else
    match vars !! name token with
    | None => Err (ConfigVariableNotDeclared (name token))
    | Some None => Err (ConfigVariableNoValue (name token))
    | Some (Some value) => Ok value
    end.

Definition interpolate (input : string) (env : host_env) (vars : config_vars)
  : result string expr_error :=
  let? (out, _) := scan (λ token st, let? v := resolve token env vars in Ok (v, st)) input tt in
  Ok out.

Definition contains_expression (input : string) : bool :=
  match scan (λ _ _, Ok (EmptyString, true)) input false with
  | Ok (_, found) => found
  | Err _ => false
  end.

Definition check_syntax (input : string) : result unit expr_error :=
  let? _ := scan (λ _ st, Ok (EmptyString, st)) input tt in Ok tt.

Definition references (input : string) : result (list Token) expr_error :=
  let? (_, found) := scan (λ token found, Ok (EmptyString, found ++ [token])) input [] in
  Ok found.

Fixpoint escape_chars (special : list ascii) (l : list ascii) : list ascii :=
  match l with
  | [] => []
  | c :: l' =>
      if bool_decide (c ∈ special) then "\" :: c :: escape_chars special l'
      else c :: escape_chars special l'
  end.

Definition escape (input : string) (special : list ascii) : string :=
  of_chars (escape_chars special (chars input)).

Definition literal_kept (literal : string) : string := escape literal ["\"; "$"; "<"].

Definition literal_as_expression (literal : string) : string :=
  let backslashes_kept := escape literal ["\"] in
  if is_ok (check_syntax backslashes_kept) then backslashes_kept else literal_kept literal.

(** ** The abstract reading of a value

    A value is a sequence of pieces, each a literal char or a reference;
    [Reads rest i ps e] says [rest = chars[i..]] reads as [ps], up to its end
    ([e = None]) or up to its first mistake ([e = Some _]).  Every client of
    [scan] is shown to be a fold of its callback over these pieces. *)

Inductive piece :=
| Lit (c : ascii)
| Ref (token : Token).

Inductive Reads : list ascii → nat → list piece → option expr_error → Prop :=
| Reads_nil i : Reads [] i [] None
| Reads_escape c rest i ps e :
    Reads rest (2 + i) ps e → Reads ("\" :: c :: rest) i (Lit c :: ps) e
| Reads_escape_end i : Reads ["\"] i [] (Some (InvalidEscapeSequence (i + 1)))
| Reads_token c rest i token ps e :
    c = "$" ∨ c = "<" →
    parse_token (c :: rest) i = Ok token →
    Reads (drop (len token) (c :: rest)) (i + len token) ps e →
    Reads (c :: rest) i (Ref token :: ps) e
| Reads_malformed c rest i e :
    c = "$" ∨ c = "<" →
    parse_token (c :: rest) i = Err e →
    Reads (c :: rest) i [] (Some e)
| Reads_char c rest i ps e :
    c ≠ "\" → c ≠ "$" → c ≠ "<" →
    Reads rest (1 + i) ps e → Reads (c :: rest) i (Lit c :: ps) e.

Definition tokens_of (ps : list piece) : list Token :=
  omap (λ p, match p with Ref t => Some t | Lit _ => None end) ps.

Section run.
Context {S : Type} (on_token : Token → S → result (string * S) expr_error).

Fixpoint run (ps : list piece) (st : S) : result (list ascii * S) expr_error :=
  match ps with
  | [] => Ok ([], st)
  | Lit c :: ps => let? (out, st) := run ps st in Ok (c :: out, st)
  | Ref t :: ps =>
      let? (value, st) := on_token t st in
      let? (out, st) := run ps st in Ok (chars value ++ out, st)
  end.
End run.

(** *** Facts about [parse_token] *)

Definition is_sigil (c : ascii) : Prop := c = "$" ∨ c = "<".

Lemma braced_name_spec sg rest : ∀ i nm,
  let b := braced_name sg rest i nm in
  ∃ run, b_name b = nm ++ run ∧ rest = run ++ b_rest b ∧ b_index b = i + length run ∧
    (b_closed b || b_has_default b → b_rest b ≠ []).
Proof.
  induction rest as [|c rest IH]; intros i nm; simpl.
  - exists []. rewrite app_nil_r. naive_solver lia.
  - repeat case_bool_decide; simpl.
    + exists []. rewrite app_nil_r. naive_solver lia.
    + exists []. rewrite app_nil_r. naive_solver lia.
    + destruct (IH (S i) (nm ++ [c])) as (run & -> & Hr & -> & Hc).
      exists (c :: run). rewrite <-app_assoc. simpl. rewrite <-Hr.
      split_and!; [done..|lia|done].
Qed.

Lemma default_value_spec n : ∀ rest i d d' i' closed,
  length rest ≤ n →
  default_value rest i d = Ok (d', i', closed) →
  i ≤ i' ∧ i' + (if closed then 1 else 0) ≤ i + length rest.
Proof.
  induction n as [|n IH]; intros [|c rest] i d d' i' closed Hn H; simpl in *;
    [naive_solver lia|lia|naive_solver lia|].
  repeat case_bool_decide; simplify_eq/=; [lia| |].
  - destruct rest as [|e rest]; [done|]. simpl in *. apply IH in H; [|lia].
    destruct closed; lia.
  - apply IH in H; [|lia]. destruct closed; lia.
Qed.

Lemma name_run_prefix l : ∃ k, l = name_run l ++ k.
Proof.
  induction l as [|c l [k IH]]; simpl; [by exists []|].
  destruct (is_name_char c); [|by exists (c :: l)].
  exists k. simpl. by rewrite <-IH.
Qed.

(** What a reference that reads is: it starts where it was looked for, its
    span holds at least a sigil and a char, stays inside the input, and its
    name is not empty. *)
Record token_wf (rest : list ascii) (i : nat) (t : Token) : Prop := {
  wf_start : start t = i;
  wf_len : 2 ≤ len t;
  wf_bound : len t ≤ length rest;
  wf_sigil : hd_error rest = Some (sigil t);
  wf_name : name t ≠ EmptyString;
}.

Lemma of_chars_nil l : of_chars l = EmptyString ↔ l = [].
Proof. destruct l; naive_solver. Qed.

Lemma parse_braced_wf sg rest i t :
  hd_error rest = Some sg → 2 ≤ length rest →
  parse_braced sg i rest = Ok t → token_wf rest i t.
Proof.
  intros Hsg Hlen H. unfold parse_braced in H.
  destruct (braced_name_spec sg (drop 2 rest) (i + 2) []) as (run & Hn & Hr & Hi & Hc).
  remember (braced_name sg (drop 2 rest) (i + 2) []) as b eqn:Hb.
  apply (f_equal length) in Hr. rewrite length_drop, length_app in Hr. simpl in Hn.
  assert (∃ d j closed,
    (if negb closed then @Err Token _ (BraceNotClosed (i + 2))
     else if bool_decide (b_name b = [])
       then Err (BracedNameEmpty (of_chars (take (j + 1 - i) rest)) (i + 1))
     else Ok {| start := i; len := j + 1 - i; sigil := sg;
             name := of_chars (b_name b); default := of_chars <$> d |}) = Ok t ∧
    (closed → b_index b ≤ j ∧ j + 1 ≤ i + length rest)) as (d & j & closed & Ht & Hj).
  { destruct (b_has_default b) eqn:Hd.
    - case_bool_decide as Hdash; [|done].
      apply result_bind_Ok in H as ([[d j] closed] & Hd' & H).
      apply result_bind_Ok in Hd' as ([[d0 j0] closed0] & Hd' & ?). simplify_eq.
      eexists _, _, _. split; [exact H|]. intros ->%Is_true_true.
      apply (default_value_spec _ _ _ _ _ _ _ (le_n _)) in Hd'.
      apply lookup_lt_Some in Hdash. rewrite length_drop in Hd'. lia.
    - simpl in H. exists None, (b_index b), (b_closed b). split; [exact H|]. intros Hcl.
      rewrite orb_false_r in Hc. specialize (Hc Hcl).
      destruct (b_rest b); simpl in *; [done|lia]. }
  destruct closed; simpl in Ht; [|done]. case_bool_decide; [done|]. simplify_eq.
  destruct Hj as [? ?]; [done|].
  split; simpl; [done|..|by rewrite of_chars_nil]; [lia|lia|done].
Qed.

Lemma parse_token_wf rest i t : parse_token rest i = Ok t → token_wf rest i t.
Proof.
  unfold parse_token. intros H.
  destruct (parse_token_problem rest i) as [t'|] eqn:E; simplify_eq/=.
  destruct rest as [|sg [|after rest]]; simplify_eq/=.
  case_bool_decide; [|by eapply parse_braced_wf; [..|exact E]; simpl; [|lia]].
  case_bool_decide as Hrun; simplify_eq/=.
  destruct (name_run_prefix (after :: rest)) as [k Hk].
  apply (f_equal length) in Hk. rewrite length_app in Hk. simpl in Hk, Hrun.
  destruct (is_name_char after) eqn:?; [|done]. simpl in *.
  split; simpl; [done|lia|lia|done|done].
Qed.

(** *** [scan] is a fold over the pieces *)

Lemma drop_token_lt rest i t :
  parse_token rest i = Ok t → length (drop (len t) rest) < length rest.
Proof. intros H%parse_token_wf. destruct H. rewrite length_drop. lia. Qed.

Lemma Reads_total n : ∀ rest i, length rest ≤ n → ∃ ps e, Reads rest i ps e.
Proof.
  induction n as [|n IH]; intros rest i Hn.
  { destruct rest; simpl in Hn; [by eauto using Reads|lia]. }
  destruct rest as [|c rest]; [by eauto using Reads|].
  destruct (decide (c = "\")) as [->|Hc1].
  { destruct rest as [|d rest]; [by eauto using Reads|].
    destruct (IH rest (2 + i)) as (ps & e & H); [simpl in *; lia|]. eauto using Reads. }
  destruct (decide (c = "$" ∨ c = "<")) as [Hc|Hc].
  - destruct (parse_token (c :: rest) i) as [t|e] eqn:Ht; [|by eauto using Reads].
    pose proof (drop_token_lt _ _ _ Ht).
    destruct (IH (drop (len t) (c :: rest)) (i + len t)) as (ps & e & H'); [lia|].
    eauto using Reads.
  - destruct (IH rest (1 + i)) as (ps & e & H); [simpl in *; lia|].
    exists (Lit c :: ps), e. apply Reads_char; naive_solver.
Qed.

Lemma scan_loop_run {S} (f : Token → S → result (string * S) expr_error) rest i ps e :
  Reads rest i ps e → ∀ fuel out st,
  length rest < fuel →
  scan_loop f fuel rest i out st =
    let? (o, st) := run f ps st in
    match e with None => Ok (out ++ o, st) | Some e => Err e end.
Proof.
  induction 1 as [i|c rest i ps e H IH|i|c rest i t ps e Hc Ht H IH|c rest i e Hc Ht
    |c rest i ps e Hc1 Hc2 Hc3 H IH];
    intros [|fuel] out st Hf; try (simpl in *; lia).
  - simpl. by rewrite app_nil_r.
  - cbn -[app]. rewrite IH by (simpl in *; lia).
    destruct (run f ps st) as [[o st']|]; [|done]. cbn -[app].
    destruct e; [done|]. by rewrite <-app_assoc.
  - done.
  - cbn -[app drop parse_token]. rewrite bool_decide_eq_false_2 by naive_solver.
    rewrite bool_decide_eq_true_2 by done. rewrite Ht. cbn -[app drop].
    destruct (f t st) as [[v st1]|]; [|done]. cbn -[app drop].
    rewrite IH by (pose proof (drop_token_lt _ _ _ Ht); simpl in *; lia).
    destruct (run f ps st1) as [[o st']|]; [|done]. cbn -[app].
    destruct e; [done|]. by rewrite <-app_assoc.
  - cbn -[app drop parse_token]. rewrite bool_decide_eq_false_2 by naive_solver.
    by rewrite bool_decide_eq_true_2, Ht.
  - cbn -[app]. rewrite bool_decide_eq_false_2 by done.
    rewrite bool_decide_eq_false_2 by naive_solver.
    rewrite IH by (simpl in *; lia).
    destruct (run f ps st) as [[o st']|]; [|done]. cbn -[app].
    destruct e; [done|]. by rewrite <-app_assoc.
Qed.

Lemma scan_run {S} (f : Token → S → result (string * S) expr_error) input ps e st :
  Reads (chars input) 0 ps e →
  scan f input st =
    let? (o, st) := run f ps st in
    match e with None => Ok (of_chars o, st) | Some e => Err e end.
Proof.
  intros H. unfold scan. rewrite (scan_loop_run f _ _ _ _ H) by lia.
  destruct (run f ps st) as [[o st']|]; [|done]. by destruct e.
Qed.

(** The folds of the four readers. *)
Lemma run_blank {S} (g : Token → S → S) ps st :
  run (λ t st, Ok (EmptyString, g t st)) ps st =
    Ok (omap (λ p, match p with Lit c => Some c | Ref _ => None end) ps,
        foldl (flip g) st (tokens_of ps)).
Proof.
  revert st. induction ps as [|[c|t] ps IH]; intros st; simpl; [done|..]; by rewrite IH.
Qed.

Lemma run_resolve env vars ps :
  is_ok (run (λ t st, let? v := resolve t env vars in Ok (v, st)) ps tt) = true ↔
  ∀ t, t ∈ tokens_of ps → is_ok (resolve t env vars) = true.
Proof.
  unfold tokens_of. induction ps as [|[c|t] ps IH]; simpl.
  - split; [|done]. intros _ t Ht. by apply not_elem_of_nil in Ht.
  - rewrite <-IH. by destruct (run _ ps tt) as [[]|].
  - setoid_rewrite elem_of_cons. destruct (resolve t env vars) as [v|] eqn:Hv; simpl.
    + transitivity (is_ok (run (λ t st, let? v := resolve t env vars in Ok (v, st)) ps tt) = true).
      { by destruct (run _ ps tt) as [[]|]. }
      rewrite IH. split; [intros H t' [->|?]; [by rewrite Hv|by apply H]|by eauto].
    + split; [done|]. intros H. specialize (H t (or_introl eq_refl)). by rewrite Hv in H.
Qed.

(** *** What [references] finds *)

(** The tokens [ts] lie in [lo, hi), in order, without overlap, each on its
    sigil and with a name. *)
Fixpoint spans (input : list ascii) (lo hi : nat) (ts : list Token) : Prop :=
  match ts with
  | [] => lo ≤ hi
  | t :: ts =>
      lo ≤ start t ∧ 2 ≤ len t ∧ start t + len t ≤ hi ∧
      input !! start t = Some (sigil t) ∧ is_sigil (sigil t) ∧ name t ≠ EmptyString ∧
      spans input (start t + len t) hi ts
  end.

Lemma spans_weaken input lo lo' hi ts :
  lo ≤ lo' → spans input lo' hi ts → spans input lo hi ts.
Proof. destruct ts; simpl; intros ? H; [lia|]. decompose [and] H. split_and!; (lia || done). Qed.

Lemma Reads_spans rest i ps e input :
  Reads rest i ps e → rest = drop i input → i ≤ length input →
  spans input i (length input) (tokens_of ps).
Proof.
  assert (∀ c r j, c :: r = drop j input →
    input !! j = Some c ∧ r = drop (S j) input ∧ S j ≤ length input) as Hstep.
  { intros c r j Hd. assert (drop j input !! 0 = Some c) as Hl by by rewrite <-Hd.
    rewrite lookup_drop, Nat.add_0_r in Hl. split; [done|].
    split; [|apply lookup_lt_Some in Hl; lia].
    rewrite <-Nat.add_1_r, <-drop_drop, <-Hd. done. }
  induction 1 as [i|c rest i ps e H IH|i|c rest i t ps e Hc Ht H IH|c rest i e Hc Ht
    |c rest i ps e Hc1 Hc2 Hc3 H IH]; intros Hr Hi; simpl; try done.
  - apply Hstep in Hr as (_ & Hr & ?). apply Hstep in Hr as (_ & Hr & ?).
    eapply spans_weaken; [|by apply IH]; lia.
  - destruct (parse_token_wf _ _ _ Ht) as [Hs Hl Hb Hsg Hn].
    pose proof Hr as (Hc' & _)%Hstep. simpl in Hsg. simplify_eq.
    assert (len t ≤ length input - start t) by (by rewrite Hr, length_drop in Hb).
    split_and!; try (done || lia).
    apply IH; [|lia]. by rewrite Hr, drop_drop.
  - apply Hstep in Hr as (_ & Hr & ?). eapply spans_weaken; [|by apply IH]; lia.
Qed.

(** *** Escaping *)

Lemma Reads_literal_kept l : ∀ i,
  Reads (escape_chars ["\"; "$"; "<"] l) i (Lit <$> l) None.
Proof.
  induction l as [|c l IH]; intros i; simpl; [by constructor|].
  case_bool_decide as Hc; [by apply Reads_escape|].
  apply Reads_char; [set_solver..|]. apply IH.
Qed.

Lemma Reads_backslashes_kept l : ∀ i ps e,
  Reads (escape_chars ["\"] l) i ps e → e = None → tokens_of ps = [] → ps = Lit <$> l.
Proof.
  induction l as [|c l IH]; intros i ps e H He Hps; simpl in *.
  - by inversion H.
  - case_bool_decide as Hc.
    + apply list_elem_of_singleton in Hc as ->.
      inversion H; simplify_eq/=; [|naive_solver..].
      f_equal. by eapply IH.
    + inversion H; simplify_eq/=; [set_solver|]. f_equal. by eapply IH.
Qed.

Lemma tokens_of_literals l : tokens_of (Lit <$> l) = [].
Proof. induction l; simpl; done. Qed.

Lemma run_literals {S} (f : Token → S → result (string * S) expr_error) l st :
  run f (Lit <$> l) st = Ok (l, st).
Proof. induction l as [|c l IH]; [done|]. rewrite fmap_cons. cbn [run]. by rewrite IH. Qed.

(** *** The readers, by the pieces *)

Lemma Reads_input input : ∃ ps e, Reads (chars input) 0 ps e.
Proof. by eapply Reads_total. Qed.

Lemma foldl_snoc_tokens (ts acc : list Token) :
  foldl (flip (λ t found, found ++ [t])) acc ts = acc ++ ts.
Proof.
  revert acc. induction ts as [|t ts IH]; intros acc; simpl; [by rewrite app_nil_r|].
  rewrite IH. by rewrite <-app_assoc.
Qed.

Lemma foldl_found (ts : list Token) b :
  foldl (flip (λ (_ : Token) (_ : bool), true)) b ts = bool_decide (ts ≠ []) || b.
Proof. revert b. induction ts as [|t ts IH]; intros b; simpl; [done|]. rewrite IH. by destruct ts, b. Qed.

Lemma check_syntax_reads input ps e :
  Reads (chars input) 0 ps e →
  check_syntax input = match e with None => Ok tt | Some e => Err e end.
Proof.
  intros H. unfold check_syntax. rewrite (scan_run _ _ _ _ _ H).
  rewrite (run_blank (λ _ st, st)). by destruct e.
Qed.

Lemma references_reads input ps e :
  Reads (chars input) 0 ps e →
  references input = match e with None => Ok (tokens_of ps) | Some e => Err e end.
Proof.
  intros H. unfold references. rewrite (scan_run _ _ _ _ _ H).
  rewrite (run_blank (λ t found, found ++ [t])). rewrite foldl_snoc_tokens. by destruct e.
Qed.

Lemma contains_expression_reads input ps e :
  Reads (chars input) 0 ps e →
  contains_expression input = bool_decide (e = None ∧ tokens_of ps ≠ []).
Proof.
  intros H. unfold contains_expression. rewrite (scan_run _ _ _ _ _ H).
  rewrite (run_blank (λ _ _, true)), foldl_found. simpl.
  symmetry. destruct e.
  - apply bool_decide_eq_false_2. naive_solver.
  - simpl. rewrite orb_false_r. apply bool_decide_ext. naive_solver.
Qed.

Lemma Reads_error_in_fuel rest i ps e : Reads rest i ps e → e ≠ Some ScanOutOfFuel.
Proof.
  induction 1 as [| | | |? ? ? ? ? Ht|]; try done.
  unfold parse_token in Ht. destruct (parse_token_problem _ _); naive_solver.
Qed.

Lemma literal_kept_reads literal :
  Reads (chars (literal_kept literal)) 0 (Lit <$> chars literal) None.
Proof.
  unfold literal_kept, escape. rewrite chars_of_chars. apply Reads_literal_kept.
Qed.

Lemma interpolate_literals input literal env vars :
  Reads (chars input) 0 (Lit <$> chars literal) None → interpolate input env vars = Ok literal.
Proof.
  intros H. unfold interpolate. rewrite (scan_run _ _ _ _ _ H), run_literals.
  simpl. by rewrite of_chars_chars.
Qed.

(** ** Properties *)

Local Close Scope char_scope.

(** The four readers of the expression syntax agree on every value, whatever
    the machine holds.  [check_syntax] accepts a value exactly when
    [references] reads it, and refuses it with the same error;
    [contains_expression] answers whether a well-formed value holds a
    reference; and [interpolate] succeeds exactly when the value is well
    formed and each of its references resolves.  None of them ever runs out of
    the walk's fuel. *)
Theorem readers_agree input env vars :
  (∀ e, check_syntax input = Err e ↔ references input = Err e) ∧
  check_syntax input ≠ Err ScanOutOfFuel ∧
  contains_expression input =
    match references input with Ok ts => bool_decide (ts ≠ []) | Err _ => false end ∧
  (is_ok (interpolate input env vars) = true ↔
    ∃ ts, references input = Ok ts ∧ ∀ t, t ∈ ts → is_ok (resolve t env vars) = true).
Proof.
  destruct (Reads_input input) as (ps & e & H).
  rewrite (check_syntax_reads _ _ _ H), (references_reads _ _ _ H),
    (contains_expression_reads _ _ _ H).
  split_and!.
  - intros e'. destruct e; naive_solver.
  - pose proof (Reads_error_in_fuel _ _ _ _ H). destruct e; naive_solver.
  - destruct e; [apply bool_decide_eq_false_2; naive_solver|].
    apply bool_decide_ext. naive_solver.
  - pose proof (run_resolve env vars ps) as Hrun.
    unfold interpolate. rewrite (scan_run _ _ _ _ _ H).
    destruct e as [e|]; destruct (run _ ps tt) as [[o st]|]; simpl in *; naive_solver.
Qed.

(** Escaping round-trips: the value [config convert] writes for a literal
    text, with every backslash and sigil escaped, evaluates on every machine to
    exactly that text. *)
Theorem literal_kept_roundtrip literal env vars :
  interpolate (literal_kept literal) env vars = Ok literal.
Proof.
  apply interpolate_literals, literal_kept_reads.
Qed.

(** The references found in a value are where they say they are: in order,
    disjoint, inside the value, each spanning at least two chars from its sigil
    on, with a non-empty name.  So the walk always advances. *)
Theorem references_spans input ts :
  references input = Ok ts → spans (chars input) 0 (length (chars input)) ts.
Proof.
  intros Hts. destruct (Reads_input input) as (ps & e & H).
  rewrite (references_reads _ _ _ H) in Hts. destruct e; simplify_eq.
  eapply Reads_spans; [done|done|lia].
Qed.

Example references_spans_witness :
  references "a${HOME:-x\}y}/<{v}" =
    Ok [mk_token 1 13 "$"%char "HOME" (Some "x}y"); mk_token 15 4 "<"%char "v" None] ∧
  spans (chars "a${HOME:-x\}y}/<{v}") 0 (length (chars "a${HOME:-x\}y}/<{v}"))
    [mk_token 1 13 "$"%char "HOME" (Some "x}y"); mk_token 15 4 "<"%char "v" None].
Proof.
  split; [vm_compute; reflexivity|]. apply references_spans. vm_compute; reflexivity.
Defined.

(** What [config convert] makes of a plain text read as an expression is
    always a well-formed expression, and when it holds no reference it
    evaluates to the text itself. *)
Theorem literal_as_expression_valid literal env vars :
  check_syntax (literal_as_expression literal) = Ok tt ∧
  (contains_expression (literal_as_expression literal) = false →
    interpolate (literal_as_expression literal) env vars = Ok literal).
Proof.
  unfold literal_as_expression.
  pose proof (literal_kept_reads literal) as Hlit.
  destruct (Reads_input (escape literal ["\"%char])) as (ps & e & H).
  rewrite (check_syntax_reads _ _ _ H). destruct e as [e|]; cbn [is_ok].
  - rewrite (check_syntax_reads _ _ _ Hlit). split; [done|]. intros _.
    by apply interpolate_literals.
  - rewrite (check_syntax_reads _ _ _ H), (contains_expression_reads _ _ _ H).
    split; [done|]. intros Hps%bool_decide_eq_false.
    apply interpolate_literals.
    rewrite <-(Reads_backslashes_kept (chars literal) 0 ps None); [done|..]; [|done|].
    + unfold escape in H. by rewrite chars_of_chars in H.
    + destruct (decide (tokens_of ps = [])); naive_solver.
Qed.

(** Literals survive being written as expressions.  The value [config
    convert] writes for a literal text, with every backslash and sigil escaped,
    evaluates on every machine to exactly that text; and what it makes of a
    plain text read as an expression is always well formed, and evaluates to the
    text itself when it holds no reference. *)
Theorem literals_spec literal env vars :
  interpolate (literal_kept literal) env vars = Ok literal ∧
  check_syntax (literal_as_expression literal) = Ok tt ∧
  (contains_expression (literal_as_expression literal) = false →
    interpolate (literal_as_expression literal) env vars = Ok literal).
Proof. split; [apply literal_kept_roundtrip|apply literal_as_expression_valid]. Qed.

(** What expressions are written and found as.  The value [config convert]
    writes for a literal text evaluates on every machine to exactly that text;
    what it makes of a plain text read as an expression is always well formed,
    and evaluates to the text itself when it holds no reference; and the
    references found in a value are where they say they are: in order,
    disjoint, inside the value, each on its sigil with a non-empty name. *)
Theorem written_expressions_spec :
  (∀ literal env vars, interpolate (literal_kept literal) env vars = Ok literal) ∧
  (∀ text, check_syntax (literal_as_expression text) = Ok tt) ∧
  (∀ text env vars, contains_expression (literal_as_expression text) = false →
    interpolate (literal_as_expression text) env vars = Ok text) ∧
  (∀ input ts, references input = Ok ts → spans (chars input) 0 (length (chars input)) ts).
Proof.
  split_and!; intros; [apply literals_spec|by apply (literals_spec _ (λ _, None) ∅)|by apply literals_spec
    |by apply references_spans].
Qed.

(** C15: The expression language, read and written.  Its four readers agree on every
    value, whatever the machine holds: [check_syntax] accepts a value exactly
    when [references] reads it, refuses it with the same error and never runs
    out of the walk's fuel, [contains_expression] answers whether a well-formed
    value holds a reference, and [interpolate] succeeds exactly when the value
    is well formed and each reference resolves.  What [config convert] writes
    for a literal text evaluates on every machine to exactly that text; what it
    makes of a plain text read as an expression is well formed, and evaluates
    to the text itself when it holds no reference.  The references found in a
    value are in order, disjoint, inside the value, each on its sigil with a
    non-empty name. *)
Theorem expressions_spec :
  (∀ input env vars,
    (∀ e, check_syntax input = Err e ↔ references input = Err e) ∧
    check_syntax input ≠ Err ScanOutOfFuel ∧
    contains_expression input =
      match references input with Ok ts => bool_decide (ts ≠ []) | Err _ => false end ∧
    (is_ok (interpolate input env vars) = true ↔
      ∃ ts, references input = Ok ts ∧ ∀ t, t ∈ ts → is_ok (resolve t env vars) = true)) ∧
  (∀ literal env vars, interpolate (literal_kept literal) env vars = Ok literal) ∧
  (∀ text, check_syntax (literal_as_expression text) = Ok tt) ∧
  (∀ text env vars, contains_expression (literal_as_expression text) = false →
    interpolate (literal_as_expression text) env vars = Ok text) ∧
  (∀ input ts, references input = Ok ts → spans (chars input) 0 (length (chars input)) ts).
Proof. split; [exact readers_agree|exact written_expressions_spec]. Qed.
