(* ===== verification/LineBuffer.v ===== *)
(** * LineBuffer: [ratect-core/src/ui/interleaved.rs], [LineBuffer]

    Turns a stream's chunks into whole lines.  The buffer is the source's
    struct; each operation returns the new buffer and the lines it handed to
    [emit], as bytes ([String::from_utf8_lossy] of each is what is printed).
    The specification cuts the whole stream at once, with no buffer. *)

From S2P Require Import Prelude Text.
From stdpp Require Import options.

Definition cr : ascii := "013".
Definition lf : ascii := "010".

Record LineBuffer := mk_line_buffer {
  pending : list ascii;
  pending_cr : bool;
  after_lone_cr : bool;
}.

Definition new_line_buffer : LineBuffer := mk_line_buffer [] false false.

Definition lines := list (list ascii).

(** ** Operations *)

Definition end_at_newline (b : LineBuffer) : LineBuffer * lines :=
  if bool_decide (pending b ≠ []) || negb (after_lone_cr b)
  then (mk_line_buffer [] (pending_cr b) false, [pending b])
  else (mk_line_buffer (pending b) (pending_cr b) false, []).

Definition end_at_lone_cr (b : LineBuffer) : LineBuffer * lines :=
  if bool_decide (pending b ≠ [])
  then (mk_line_buffer [] (pending_cr b) true, [pending b])
  else (b, []).

(** One turn of [push]'s loop. *)
Definition push_byte (b : LineBuffer) (byte : ascii) : LineBuffer * lines :=
  let taken := mk_line_buffer (pending b) false (after_lone_cr b) in
  if pending_cr b && bool_decide (byte = lf) then end_at_newline taken
  else
    let '(b, emitted) := if pending_cr b then end_at_lone_cr taken else (taken, []) in
    if bool_decide (byte = cr) then (mk_line_buffer (pending b) true (after_lone_cr b), emitted)
    else if bool_decide (byte = lf) then
      let '(b, emitted') := end_at_newline b in (b, emitted ++ emitted')
    else (mk_line_buffer (pending b ++ [byte]) (pending_cr b) (after_lone_cr b), emitted).

Fixpoint push (b : LineBuffer) (chunk : list ascii) : LineBuffer * lines :=
  match chunk with
  | [] => (b, [])
  | byte :: chunk =>
      let '(b, emitted) := push_byte b byte in
      let '(b, emitted') := push b chunk in (b, emitted ++ emitted')
  end.

Definition flush (b : LineBuffer) : LineBuffer * lines :=
  if bool_decide (pending b ≠ []) then (mk_line_buffer [] false false, [pending b])
  else (mk_line_buffer (pending b) false false, []).

(** A whole stream: each chunk pushed, then the end. *)
Fixpoint push_all (b : LineBuffer) (chunks : list (list ascii)) : LineBuffer * lines :=
  match chunks with
  | [] => (b, [])
  | chunk :: chunks =>
      let '(b, emitted) := push b chunk in
      let '(b, emitted') := push_all b chunks in (b, emitted ++ emitted')
  end.

Definition run_stream (chunks : list (list ascii)) : lines :=
  let '(b, emitted) := push_all new_line_buffer chunks in emitted ++ (flush b).2.

(** ** Specification *)

(** How a line of the stream ends: at [\n] or a CRLF, at a [\r] not followed
    by [\n], or at the end of the stream. *)
Inductive ending := AtNewline | AtLoneCr | AtEnd.

(** The stream cut after each line ending; [acc] is the line so far. *)
Fixpoint cut (acc : list ascii) (bytes : list ascii) : list (list ascii * ending) :=
  match bytes with
  | [] => [(acc, AtEnd)]
  | byte :: bytes' =>
      if bool_decide (byte = lf) then (acc, AtNewline) :: cut [] bytes'
      else if bool_decide (byte = cr) then
        match bytes' with
        | next :: bytes'' =>
            if bool_decide (next = lf) then (acc, AtNewline) :: cut [] bytes''
            else (acc, AtLoneCr) :: cut [] bytes'
        | [] => [(acc, AtLoneCr); ([], AtEnd)]
        end
      else cut (acc ++ [byte]) bytes'
  end.

(** Which of the cut lines are emitted.  A line with content always is; an
    empty one only at a newline, and not when a lone [\r] has ended a line
    since the last newline ([after_cr]). *)
Fixpoint keep (after_cr : bool) (cuts : list (list ascii * ending)) : lines :=
  match cuts with
  | [] => []
  | (line, AtNewline) :: cuts =>
      (if bool_decide (line ≠ []) || negb after_cr then [line] else []) ++ keep false cuts
  | (line, AtLoneCr) :: cuts =>
      (if bool_decide (line ≠ []) then [line] else []) ++
      keep (bool_decide (line ≠ []) || after_cr) cuts
  | (line, AtEnd) :: cuts => (if bool_decide (line ≠ []) then [line] else []) ++ keep false cuts
  end.

Definition stream_lines (bytes : list ascii) : lines := keep false (cut [] bytes).

(** ** Refinement *)

Lemma cut_lone_cr acc byte bytes :
  byte ≠ lf → cut acc (cr :: byte :: bytes) = (acc, AtLoneCr) :: cut [] (byte :: bytes).
Proof.
  intros H. cbn [cut]. rewrite bool_decide_eq_false_2 by done.
  rewrite bool_decide_eq_true_2 by done. by rewrite bool_decide_eq_false_2.
Qed.

Lemma cut_nil acc : cut acc [] = [(acc, AtEnd)].
Proof. done. Qed.

Lemma cut_crlf acc bytes : cut acc (cr :: lf :: bytes) = (acc, AtNewline) :: cut [] bytes.
Proof. done. Qed.

Lemma cut_cr_end acc : cut acc [cr] = [(acc, AtLoneCr); ([], AtEnd)].
Proof. done. Qed.

Lemma cut_lf acc bytes : cut acc (lf :: bytes) = (acc, AtNewline) :: cut [] bytes.
Proof. done. Qed.

Lemma cut_char acc byte bytes :
  byte ≠ lf → byte ≠ cr → cut acc (byte :: bytes) = cut (acc ++ [byte]) bytes.
Proof. intros ??. cbn [cut]. by rewrite !bool_decide_eq_false_2. Qed.

#[local] Arguments cut : simpl never.

(** The rest of the stream from buffer [b] on: what is pending, then a [\r]
    whose successor is not known yet, then the bytes to come. *)
Definition rest_lines (b : LineBuffer) (bytes : list ascii) : lines :=
  keep (after_lone_cr b)
    (cut (pending b) (if pending_cr b then cr :: bytes else bytes)).

Lemma keep_after_newline b line cuts :
  line = pending b →
  keep (after_lone_cr b) ((line, AtNewline) :: cuts) =
    (end_at_newline b).2 ++ keep false cuts.
Proof. intros ->. unfold end_at_newline. cbn [keep]. by destruct (_ || _). Qed.

Lemma end_at_newline_buffer b :
  (end_at_newline b).1 = mk_line_buffer [] (pending_cr b) false.
Proof.
  unfold end_at_newline. destruct (_ || _) eqn:E; [done|]. simpl.
  apply orb_false_elim in E as [E _]. apply bool_decide_eq_false in E.
  f_equal. destruct (pending b); naive_solver.
Qed.

Lemma keep_after_lone_cr b bytes :
  keep (after_lone_cr b) ((pending b, AtLoneCr) :: cut [] bytes) =
    (end_at_lone_cr b).2 ++
    keep (after_lone_cr (end_at_lone_cr b).1) (cut (pending (end_at_lone_cr b).1) bytes).
Proof.
  unfold end_at_lone_cr. cbn [keep]. case_bool_decide as H; [done|]. simpl.
  assert (pending b = []) as -> by (destruct (pending b); naive_solver). done.
Qed.

Lemma end_at_lone_cr_pending_cr b : pending_cr (end_at_lone_cr b).1 = pending_cr b.
Proof. unfold end_at_lone_cr. by case_bool_decide. Qed.

Lemma push_byte_rest b byte bytes :
  rest_lines b (byte :: bytes) = (push_byte b byte).2 ++ rest_lines (push_byte b byte).1 bytes.
Proof.
  unfold push_byte, rest_lines. destruct b as [p pcr alc].
  set (taken := mk_line_buffer p false alc). simpl.
  assert (∀ b0, pending_cr b0 = false →
    keep (after_lone_cr b0) (cut (pending b0) (byte :: bytes)) =
    (let '(b, e) :=
      if bool_decide (byte = cr) then (mk_line_buffer (pending b0) true (after_lone_cr b0), [])
      else if bool_decide (byte = lf) then end_at_newline b0
      else (mk_line_buffer (pending b0 ++ [byte]) (pending_cr b0) (after_lone_cr b0), []) in
     e ++ keep (after_lone_cr b) (cut (pending b) (if pending_cr b then cr :: bytes else bytes))))
    as Hplain.
  { intros b0 Hb0. case_bool_decide as Hcr; [by subst byte|].
    case_bool_decide as Hlf.
    - subst byte. rewrite cut_lf, (keep_after_newline b0) by done.
      pose proof (end_at_newline_buffer b0) as Hb.
      destruct (end_at_newline b0) as [b1 e]. simpl in *. by rewrite Hb, Hb0.
    - rewrite cut_char by done. simpl. by rewrite Hb0. }
  destruct pcr; simpl.
  - destruct (decide (byte = lf)) as [->|Hlf].
    + rewrite cut_crlf, (keep_after_newline taken) by done.
      rewrite bool_decide_eq_true_2 by done.
      pose proof (end_at_newline_buffer taken) as Hb.
      fold taken. destruct (end_at_newline taken) as [b1 e]. simpl in *. by rewrite Hb.
    + rewrite cut_lone_cr, (bool_decide_eq_false_2 (byte = lf)) by done.
      rewrite (keep_after_lone_cr taken), Hplain by apply end_at_lone_cr_pending_cr.
      fold taken. destruct (end_at_lone_cr taken) as [b1 e]. simpl.
      rewrite !(bool_decide_eq_false_2 (byte = lf)) by done.
      destruct (bool_decide (byte = cr)); done.
  - etransitivity; [exact (Hplain taken eq_refl)|]. fold taken.
    destruct (bool_decide (byte = cr)); [done|].
    destruct (bool_decide (byte = lf)); [|done].
    by destruct (end_at_newline taken).
Qed.

Lemma push_rest b chunk bytes :
  rest_lines b (chunk ++ bytes) = (push b chunk).2 ++ rest_lines (push b chunk).1 bytes.
Proof.
  revert b. induction chunk as [|byte chunk IH]; intros b; [done|]. simpl.
  rewrite push_byte_rest, IH. destruct (push_byte b byte) as [b1 e1]. simpl.
  destruct (push b1 chunk) as [b2 e2]. simpl. by rewrite <-app_assoc.
Qed.

Lemma push_all_rest b chunks bytes :
  rest_lines b (concat chunks ++ bytes) =
    (push_all b chunks).2 ++ rest_lines (push_all b chunks).1 bytes.
Proof.
  revert b. induction chunks as [|c chunks IH]; intros b; [done|]. simpl.
  rewrite <-app_assoc, push_rest, IH. destruct (push b c) as [b1 e1]. simpl.
  destruct (push_all b1 chunks) as [b2 e2]. simpl. by rewrite <-app_assoc.
Qed.

Lemma flush_rest b : rest_lines b [] = (flush b).2.
Proof.
  destruct b as [p [] alc]; unfold rest_lines, flush; simpl;
    case_bool_decide; simpl; done.
Qed.

(** Every byte of content is in exactly one kept line, in order. *)
Lemma keep_content after_cr cuts : concat (keep after_cr cuts) = concat (cuts.*1).
Proof.
  revert after_cr. induction cuts as [|[l []] cuts IH]; intros a; simpl; [done|..].
  all: rewrite concat_app, IH; f_equal.
  all: case_bool_decide as Hl; simpl; rewrite ?app_nil_r; [done|].
  all: assert (l = []) as -> by (destruct l; naive_solver).
  all: first [done | by destruct a].
Qed.

Definition is_content (c : ascii) : Prop := c ≠ cr ∧ c ≠ lf.
#[global] Instance is_content_dec c : Decision (is_content c).
Proof. unfold is_content. apply _. Defined.

Lemma not_content_cr : ¬ is_content cr.
Proof. intros [H _]. by apply H. Qed.

Lemma not_content_lf : ¬ is_content lf.
Proof. intros [_ H]. by apply H. Qed.

Lemma cut_content n : ∀ acc bytes,
  length bytes ≤ n → concat ((cut acc bytes).*1) = acc ++ filter is_content bytes.
Proof.
  induction n as [|n IH]; intros acc [|byte bytes] Hn; simpl in Hn;
    [by rewrite cut_nil; simpl|lia|by rewrite cut_nil; simpl|].
  destruct (decide (byte = lf)) as [->|Hlf].
  { rewrite cut_lf. simpl. rewrite IH by lia.
    by rewrite filter_cons_False by apply not_content_lf. }
  destruct (decide (byte = cr)) as [->|Hcr].
  - rewrite filter_cons_False by apply not_content_cr.
    destruct bytes as [|next bytes]; [by rewrite cut_cr_end; simpl|].
    destruct (decide (next = lf)) as [->|Hnext].
    + rewrite cut_crlf. simpl. rewrite IH by (simpl in *; lia).
      by rewrite filter_cons_False by apply not_content_lf.
    + rewrite cut_lone_cr by done. simpl. by rewrite IH by (simpl in *; lia).
  - rewrite cut_char, IH, filter_cons_True by (done || lia). by rewrite <-app_assoc.
Qed.

(** ** Properties *)

(** However a container's output is split into chunks, the lines handed on
    are those the whole stream has, cut at once: a CRLF split across two
    chunks is one line break, a lone carriage return ends a line only if it
    has content, an unterminated tail is emitted at the end.  And no byte of
    content is lost, duplicated or reordered. *)
Theorem run_stream_spec chunks :
  run_stream chunks = stream_lines (concat chunks) ∧
  concat (run_stream chunks) = filter is_content (concat chunks).
Proof.
  assert (run_stream chunks = stream_lines (concat chunks)) as H.
  { unfold run_stream, stream_lines.
    pose proof (push_all_rest new_line_buffer chunks []) as H.
    rewrite app_nil_r in H. unfold rest_lines in H at 1. simpl in H. rewrite H, flush_rest.
    by destruct (push_all new_line_buffer chunks). }
  split; [done|]. rewrite H. unfold stream_lines.
  by rewrite keep_content, (cut_content _ _ _ (le_n _)).
Qed.
