(* ===== verification/BuildOutput.v ===== *)
(** * BuildOutput: [ratect-core/src/docker/build_output.rs]

    The output of an image build, rendered as lines: [ClassicBuildOutput] for
    the classic builder's text stream, [BuildKitOutput] for BuildKit's status
    updates.  A method that the source lets panic (an [expect], or indexing a
    map without the key) returns [None] there. *)

From S2P Require Import Prelude Text LineBuffer.
From stdpp Require Import options.

(** ** The status messages, as far as the source reads them *)

Record Vertex := mk_vertex {
  v_digest : string;
  v_name : string;
  v_inputs : list string;
  v_cached : bool;
  v_started : bool;
  v_completed : bool;
  v_error : string;
}.

#[global] Instance Vertex_eq_dec : EqDecision Vertex.
Proof. solve_decision. Defined.
#[global] Instance Vertex_inhabited : Inhabited Vertex :=
  populate (mk_vertex EmptyString EmptyString [] false false false EmptyString).

Record VertexLog := mk_vertex_log { log_vertex : string; log_msg : list ascii }.

Record StatusResponse := mk_status { vertexes : list Vertex; logs : list VertexLog }.

(** [String::from_utf8_lossy], on bytes below 0x80 the identity. *)
Definition push_lines (buffer : LineBuffer) (chunk : list ascii) : LineBuffer * list string :=
  let '(b, ls) := push buffer chunk in (b, of_chars <$> ls).

Definition flush_lines (buffer : LineBuffer) : LineBuffer * list string :=
  let '(b, ls) := flush buffer in (b, of_chars <$> ls).

(** ** The classic builder *)

Record ClassicBuildOutput := mk_classic { c_transcript : string; c_lines : LineBuffer }.

Definition classic_new : ClassicBuildOutput := mk_classic EmptyString new_line_buffer.

Definition classic_push (o : ClassicBuildOutput) (chunk : string)
  : ClassicBuildOutput * list string :=
  let '(b, ls) := push_lines (c_lines o) (chars chunk) in
  (mk_classic (c_transcript o +:+ chunk) b, ls).

Definition classic_finish (o : ClassicBuildOutput) : ClassicBuildOutput * list string :=
  let '(b, ls) := flush_lines (c_lines o) in (mk_classic (c_transcript o) b, ls).

(** ** [display_order] *)

Definition rank (name : string) : N :=
  if starts_with "[internal] load build definition " name then 0
  else if starts_with "[internal] " name then 1
  else if starts_with "[" name then 2
  else 3.

(** [&name.strip_prefix('[')?[..name.find("] ")? - 1]] and on. *)
Definition stage_step (name : string) : option (string * N) :=
  stripped ← strip_prefix "[" name;
  close ← find_str "] " name;
  let identifier := of_chars (take (close - 1) (chars stripped)) in
  let '(stage, counter) :=
    match rsplit_once " "%char identifier with
    | Some (stage, counter) => (trim stage, counter)
    | None => (EmptyString, identifier)
    end in
  '(step, _) ← split_once "/"%char counter;
  n ← parse_unsigned u32_max step;
  Some (stage, n).

Definition displays_before (first second : Vertex) : bool :=
  let first_rank := rank (v_name first) in
  let second_rank := rank (v_name second) in
  if negb (first_rank =? second_rank)%N then (first_rank <? second_rank)%N
  else
    match stage_step (v_name first), stage_step (v_name second) with
    | Some (first_stage, first_step), Some (second_stage, second_step) =>
        bool_decide (first_stage = second_stage) && (first_step <? second_step)%N
    | _, _ => false
    end.

Definition waits_for_input (batch : list Vertex) (vertex : Vertex) : bool :=
  existsb (λ input, existsb (λ other, bool_decide (v_digest other = input)) batch)
    (v_inputs vertex).

Definition preceded_by_none_of (batch : list Vertex) (candidates : list nat) (index : nat) : bool :=
  forallb (λ other, negb (displays_before (batch !!! other) (batch !!! index))) candidates.

(** The steps whose inputs have all been placed; all of them, on a cycle. *)
Definition ready_steps (batch : list Vertex) : list nat :=
  let all := seq 0 (length batch) in
  let ready := filter (λ index, waits_for_input batch (batch !!! index) = false) all in
  match ready with [] => all | _ => ready end.

(** The index the loop removes next. *)
Definition next_step (batch : list Vertex) : nat :=
  let all := seq 0 (length batch) in
  let ready := ready_steps batch in
  match List.find (preceded_by_none_of batch all) ready with
  | Some index => index
  | None =>
      match List.find (preceded_by_none_of batch ready) ready with
      | Some index => index
      | None => hd 0 ready
      end
  end.

Fixpoint display_order_loop (fuel : nat) (batch ordered : list Vertex) : list Vertex :=
  match fuel with
  | 0 => ordered
  | S fuel =>
      match batch with
      | [] => ordered
      | _ =>
          let next := next_step batch in
          display_order_loop fuel (delete next batch) (ordered ++ [batch !!! next])
      end
  end.

(** Each turn removes one step, so the batch's length is fuel enough. *)
Definition display_order (batch : list Vertex) : list Vertex :=
  display_order_loop (length batch) batch [].

(** ** The BuildKit builder *)

Record Step := mk_step {
  s_name : string;
  s_number : option nat;
  s_started : bool;
  s_shown_cached : bool;
  s_shown_error : bool;
  s_lines : LineBuffer;
}.

Record BuildKitOutput := mk_buildkit {
  transcript : string;
  steps : gmap string Step;
  last_number : nat;
}.

Definition buildkit_new : BuildKitOutput := mk_buildkit EmptyString ∅ 0.

Definition new_step : Step := mk_step EmptyString None false false false new_line_buffer.

(** [self.entry(digest)], read. *)
Definition step_of (o : BuildKitOutput) (digest : string) : Step :=
  default new_step (steps o !! digest).

(** [*self.entry(digest) = f(...)]: the step is inserted if absent. *)
Definition update_step (digest : string) (f : Step → Step) (o : BuildKitOutput) : BuildKitOutput :=
  mk_buildkit (transcript o) (<[digest := f (step_of o digest)]> (steps o)) (last_number o).

Definition set_name (name : string) (s : Step) : Step :=
  mk_step name (s_number s) (s_started s) (s_shown_cached s) (s_shown_error s) (s_lines s).
Definition set_number (n : nat) (s : Step) : Step :=
  mk_step (s_name s) (Some n) (s_started s) (s_shown_cached s) (s_shown_error s) (s_lines s).
Definition set_started (s : Step) : Step :=
  mk_step (s_name s) (s_number s) true (s_shown_cached s) (s_shown_error s) (s_lines s).
Definition set_shown_cached (s : Step) : Step :=
  mk_step (s_name s) (s_number s) (s_started s) true (s_shown_error s) (s_lines s).
Definition set_shown_error (s : Step) : Step :=
  mk_step (s_name s) (s_number s) (s_started s) (s_shown_cached s) true (s_lines s).
Definition set_lines (b : LineBuffer) (s : Step) : Step :=
  mk_step (s_name s) (s_number s) (s_started s) (s_shown_cached s) (s_shown_error s) b.

(** The output so far and the lines collected for the caller. *)
Notation out := (BuildKitOutput * list string)%type.

Definition label (number : nat) (part : string) : string :=
  if bool_decide (part = EmptyString) then "#" +:+ show_nat number
  else "#" +:+ show_nat number +:+ " " +:+ part.

Definition newline : string := String lf EmptyString.

Definition push_line (line : string) (st : out) : out :=
  (mk_buildkit (transcript st.1 +:+ line +:+ newline) (steps st.1) (last_number st.1),
   st.2 ++ [line]).

Definition emit (digest text : string) (st : out) : option out :=
  step ← steps st.1 !! digest;
  number ← s_number step;
  Some (foldl (λ st part, push_line (label number part) st) st (split lf text)).

Definition show (digest : string) (st : out) : option out :=
  let o := update_step digest id st.1 in
  match s_number (step_of o digest) with
  | Some _ => Some (o, st.2)
  | None =>
      let number := S (last_number o) in
      let o := mk_buildkit (transcript o) (steps o) number in
      let o := update_step digest (set_number number) o in
      let name := s_name (step_of o digest) in
      if bool_decide (name = EmptyString) then Some (o, st.2) else emit digest name (o, st.2)
  end.

(** [for x in xs { ... }] whose body may panic. *)
Fixpoint each {A} (f : A → out → option out) (xs : list A) (st : out) : option out :=
  match xs with
  | [] => Some st
  | x :: xs => st ← f x st; each f xs st
  end.

Definition name_vertex (vertex : Vertex) (o : BuildKitOutput) : BuildKitOutput :=
  update_step (v_digest vertex)
    (if bool_decide (v_name vertex = EmptyString) then id else set_name (v_name vertex)) o.

Definition start_vertex (vertex : Vertex) (st : out) : option out :=
  let o := update_step (v_digest vertex) set_started st.1 in
  let show_cached := v_cached vertex && negb (s_shown_cached (step_of o (v_digest vertex))) in
  let o := if v_cached vertex then update_step (v_digest vertex) set_shown_cached o else o in
  st ← show (v_digest vertex) (o, st.2);
  if show_cached then emit (v_digest vertex) "CACHED" st else Some st.

Definition push_log (log : VertexLog) (st : out) : option out :=
  st ← show (log_vertex log) st;
  let '(b, completed) := push_lines (s_lines (step_of st.1 (log_vertex log))) (log_msg log) in
  let st := (update_step (log_vertex log) (set_lines b) st.1, st.2) in
  each (λ line st, emit (log_vertex log) line st) completed st.

(** Shows what a finished step's buffer still holds. *)
Definition flush_step (digest : string) (st : out) : option out :=
  let '(b, rest) := flush_lines (s_lines (step_of st.1 digest)) in
  each (λ line st, emit digest line st) rest (update_step digest (set_lines b) st.1, st.2).

Definition finish_vertex (vertex : Vertex) (st : out) : option out :=
  let failed := bool_decide (v_error vertex ≠ EmptyString) in
  st ← (if v_completed vertex || failed then flush_step (v_digest vertex) st else Some st);
  if failed then
    let shown := s_shown_error (step_of st.1 (v_digest vertex)) in
    let st := (update_step (v_digest vertex) set_shown_error st.1, st.2) in
    if negb shown then
      st ← show (v_digest vertex) st;
      emit (v_digest vertex) ("ERROR: " +:+ v_error vertex) st
    else Some st
  else Some st.

(** [self.steps[&vertex.digest].started], [None] where it panics. *)
Fixpoint starting_vertexes (o : BuildKitOutput) (vs : list Vertex) : option (list Vertex) :=
  match vs with
  | [] => Some []
  | v :: vs =>
      if v_started v then
        step ← steps o !! v_digest v;
        rest ← starting_vertexes o vs;
        Some (if s_started step then rest else v :: rest)
      else starting_vertexes o vs
  end.

Definition buildkit_push (o : BuildKitOutput) (status : StatusResponse) : option out :=
  let o := foldl (λ o vertex, name_vertex vertex o) o (vertexes status) in
  starting ← starting_vertexes o (vertexes status);
  st ← each start_vertex (display_order starting) (o, []);
  st ← each push_log (logs status) st;
  each finish_vertex (vertexes status) st.

(** The digests of the numbered steps, in step order. *)
Fixpoint insert_step (x : nat * string) (l : list (nat * string)) : list (nat * string) :=
  match l with
  | [] => [x]
  | y :: l' =>
      if bool_decide (x.1 < y.1 ∨ x.1 = y.1 ∧ String.leb x.2 y.2 = true)
      then x :: l else y :: insert_step x l'
  end.

Definition unfinished (o : BuildKitOutput) : list (nat * string) :=
  foldr insert_step []
    (omap (λ '(digest, step), n ← s_number step; Some (n, digest)) (map_to_list (steps o))).

Definition buildkit_finish (o : BuildKitOutput) : option out :=
  each (λ '(_, digest) st, flush_step digest st) (unfinished o) (o, []).

(** A build so far: each update pushed in turn; the lines of all. *)
Fixpoint run_updates (o : BuildKitOutput) (updates : list StatusResponse) : option out :=
  match updates with
  | [] => Some (o, [])
  | status :: updates =>
      '(o, ls) ← buildkit_push o status;
      '(o, ls') ← run_updates o updates;
      Some (o, ls ++ ls')
  end.

(** The rest of a build: its updates, then the end of the stream. *)
Definition run_to_end (o : BuildKitOutput) (updates : list StatusResponse) : option out :=
  '(o, ls) ← run_updates o updates;
  '(o, ls') ← buildkit_finish o;
  Some (o, ls ++ ls').

(** ** The invariant of the output

    A step's number is between 1 and the last number given, no two steps
    share one, and only a numbered step has a partial line buffered. *)

Definition number_of (o : BuildKitOutput) (digest : string) : option nat :=
  step ← steps o !! digest; s_number step.

Record output_inv (o : BuildKitOutput) : Prop := {
  inv_bounds d n : number_of o d = Some n → 1 ≤ n ≤ last_number o;
  inv_distinct d d' n : number_of o d = Some n → number_of o d' = Some n → d = d';
  inv_buffered d : number_of o d = None → pending (s_lines (step_of o d)) = [];
}.

(** [o'] is a later state than [o]: numbers given are kept. *)
Definition later (o o' : BuildKitOutput) : Prop :=
  last_number o ≤ last_number o' ∧
  ∀ d n, number_of o d = Some n → number_of o' d = Some n.

Definition labelled (o : BuildKitOutput) (line : string) : Prop :=
  ∃ n part, 1 ≤ n ≤ last_number o ∧ line = label n part.

Definition render (ls : list string) : string :=
  foldr (λ line rest, line +:+ newline +:+ rest) EmptyString ls.

(** What holds of the output and the lines collected so far, [base] being
    the transcript they were collected from. *)
Record out_wf (base : string) (st : out) : Prop := {
  wf_inv : output_inv st.1;
  wf_transcript : transcript st.1 = base +:+ render st.2;
  wf_labelled : Forall (labelled st.1) st.2;
}.

#[global] Instance later_preorder : PreOrder later.
Proof. split; [by split|]. intros x y z [? H] [? H']. split; [lia|naive_solver]. Qed.

Lemma later_labelled o o' line : later o o' → labelled o line → labelled o' line.
Proof. intros [? _] (n & p & ? & ?). exists n, p. split; [lia|done]. Qed.

Lemma render_app a b : render (a ++ b) = render a +:+ render b.
Proof.
  induction a as [|x a IH]; [done|]. simpl. by rewrite IH, !string_app_assoc.
Qed.

Lemma step_of_update d f o d' :
  step_of (update_step d f o) d' = if decide (d = d') then f (step_of o d) else step_of o d'.
Proof. unfold step_of, update_step. simpl. rewrite lookup_insert. by case_decide. Qed.

Lemma number_of_update d f o d' :
  number_of (update_step d f o) d' =
    if decide (d = d') then s_number (f (step_of o d)) else number_of o d'.
Proof. unfold number_of, update_step. simpl. rewrite lookup_insert. by case_decide. Qed.

Lemma number_of_step o d : number_of o d = s_number (step_of o d).
Proof. unfold number_of, step_of. by destruct (steps o !! d). Qed.

(** An update of a step that keeps its number, and buffers nothing for a step
    without one, keeps everything. *)
Lemma out_wf_update base st d f :
  s_number (f (step_of st.1 d)) = s_number (step_of st.1 d) →
  (number_of st.1 d = None → pending (s_lines (f (step_of st.1 d))) = []) →
  out_wf base st →
  out_wf base (update_step d f st.1, st.2) ∧ later st.1 (update_step d f st.1).
Proof.
  intros Hn Hb [[H1 H2 H3] Ht Hl].
  assert (∀ d', number_of (update_step d f st.1) d' = number_of st.1 d') as Hnum.
  { intros d'. rewrite number_of_update. case_decide; [|done]. subst.
    by rewrite Hn, number_of_step. }
  assert (later st.1 (update_step d f st.1)) as Hlater.
  { split; [done|]. intros ??. by rewrite Hnum. }
  split; [|done]. split; simpl; [split|done|].
  - intros d' n. rewrite Hnum. apply H1.
  - intros d' d'' n. rewrite !Hnum. apply H2.
  - intros d'. rewrite Hnum, step_of_update. intros Hd. case_decide; [subst; auto|auto].
  - apply (Forall_weaken _ _ _ Hl). intros. by eapply later_labelled.
Qed.

Lemma push_line_wf base st n part :
  1 ≤ n ≤ last_number st.1 → out_wf base st → out_wf base (push_line (label n part) st).
Proof.
  intros Hn [[H1 H2 H3] Ht Hl]. split; simpl; [done| |].
  - rewrite Ht, render_app, !string_app_assoc. simpl. by rewrite string_app_assoc, string_app_nil_r.
  - apply Forall_app. split; [done|]. constructor; [|done]. by exists n, part.
Qed.

Lemma push_lines_wf base n parts : ∀ st,
  1 ≤ n ≤ last_number st.1 → out_wf base st →
  let st' := foldl (λ st part, push_line (label n part) st) st parts in
  out_wf base st' ∧ later st.1 st'.1.
Proof.
  induction parts as [|p parts IH]; intros st Hn Hwf; simpl; [done|].
  destruct (IH (push_line (label n p) st)) as [Hwf' Hl]; [done|by apply push_line_wf|].
  split; [done|]. etransitivity; [|exact Hl]. done.
Qed.

Lemma emit_wf base st d text n :
  number_of st.1 d = Some n → out_wf base st →
  ∃ st', emit d text st = Some st' ∧ out_wf base st' ∧ later st.1 st'.1.
Proof.
  intros Hd Hwf. pose proof (inv_bounds _ (wf_inv _ _ Hwf) _ _ Hd) as Hn.
  unfold emit, number_of in *. destruct (steps st.1 !! d) as [s|]; [|done].
  simpl in *. rewrite Hd. simpl. eexists; split; [done|]. by apply push_lines_wf.
Qed.

Lemma show_wf base st d :
  out_wf base st →
  ∃ st', show d st = Some st' ∧ out_wf base st' ∧ later st.1 st'.1 ∧
    ∃ n, number_of st'.1 d = Some n.
Proof.
  intros Hwf. unfold show.
  destruct (out_wf_update base st d id) as [Hwf1 Hl1]; [done| |done|].
  { apply (inv_buffered _ (wf_inv _ _ Hwf)). }
  set (o := update_step d id st.1) in *.
  destruct (s_number (step_of o d)) as [n|] eqn:Hn.
  { exists (o, st.2). split_and!; [done..|]. exists n. by rewrite number_of_step. }
  set (o2 := update_step d (set_number (S (last_number o))) _).
  assert (number_of o2 d = Some (S (last_number o))) as Hd2.
  { unfold o2. rewrite number_of_update. by rewrite decide_True. }
  assert (∀ d', d ≠ d' → number_of o2 d' = number_of o d') as Hd2'.
  { intros d' ?. unfold o2. rewrite number_of_update, decide_False by done. done. }
  assert (number_of o d = None) as Hod by by rewrite number_of_step.
  destruct Hwf1 as [[H1 H2 H3] Ht Hls]. simpl in *.
  assert (later o o2) as Hl2.
  { split; [simpl; lia|]. intros d' n. destruct (decide (d = d')) as [<-|]; [congruence|].
    by rewrite Hd2'. }
  assert (out_wf base (o2, st.2)) as Hwf2.
  { split; [split|exact Ht|]; simpl.
    - intros d' n. destruct (decide (d = d')) as [<-|]; [rewrite Hd2|rewrite Hd2' by done].
      + intros [= <-]. simpl. lia.
      + intros ?%H1. simpl in *. lia.
    - intros d' d'' n. destruct (decide (d = d')) as [<-|], (decide (d = d'')) as [<-|];
        rewrite ?Hd2, ?Hd2' by done; try done.
      + intros [= <-] ?%H1. simpl in *. lia.
      + intros ?%H1 [= <-]. simpl in *. lia.
      + apply H2.
    - intros d'. destruct (decide (d = d')) as [<-|]; [by rewrite Hd2|].
      rewrite Hd2' by done. intros Hd'%H3. unfold o2.
      rewrite step_of_update, decide_False by done. done.
    - apply (Forall_weaken _ _ _ Hls). intros. by eapply later_labelled. }
  case_bool_decide.
  - exists (o2, st.2). split_and!; [done|done|by etransitivity|by eauto].
  - destruct (emit_wf base (o2, st.2) d (s_name (step_of o2 d)) _ Hd2 Hwf2)
      as (st' & -> & Hwf' & Hl'). simpl in *.
    exists st'. split_and!; [done|done|by do 2 (etransitivity; [eassumption|])|].
    destruct Hl' as [_ Hl']. eauto.
Qed.

Lemma each_wf {A} base (f : A → out → option out) (P : out → A → Prop) xs : ∀ st,
  (∀ st st' x, P st x → later st.1 st'.1 → P st' x) →
  (∀ st x, P st x → out_wf base st →
    ∃ st', f x st = Some st' ∧ out_wf base st' ∧ later st.1 st'.1) →
  Forall (P st) xs → out_wf base st →
  ∃ st', each f xs st = Some st' ∧ out_wf base st' ∧ later st.1 st'.1.
Proof.
  intros st Hmono Hf. revert st. induction xs as [|x xs IH]; intros st HP Hwf; simpl.
  - exists st. done.
  - apply Forall_cons_1 in HP as [Hx HP]. destruct (Hf st x Hx Hwf) as (st1 & -> & Hwf1 & Hl1).
    simpl. destruct (IH st1) as (st' & -> & ? & ?); [|done|].
    + apply (Forall_weaken _ _ _ HP). intros y Hy. by eapply Hmono.
    + exists st'. split_and!; [done|done|by etransitivity].
Qed.

Lemma emit_lines_wf base st d ls :
  (∃ n, number_of st.1 d = Some n) → out_wf base st →
  ∃ st', each (λ line st, emit d line st) ls st = Some st' ∧ out_wf base st' ∧ later st.1 st'.1.
Proof.
  intros Hd Hwf. apply (each_wf base _ (λ st _, ∃ n, number_of st.1 d = Some n)); [| | |done].
  - intros ? ? _ [n ?] [_ ?]. eauto.
  - intros st0 x [n Hn] ?. by eapply emit_wf.
  - by apply Forall_true.
Qed.

(** ** The operations keep it, and never panic *)

Lemma start_vertex_wf base v st :
  out_wf base st →
  ∃ st', start_vertex v st = Some st' ∧ out_wf base st' ∧ later st.1 st'.1.
Proof.
  intros Hwf. unfold start_vertex. set (d := v_digest v).
  pose proof (inv_buffered _ (wf_inv _ _ Hwf) d) as Hb.
  destruct (out_wf_update base st d set_started) as [Hwf1 Hl1]; [done|exact Hb|done|].
  set (o1 := update_step d set_started st.1) in *.
  set (cached := v_cached v && _). clearbody cached.
  set (o2 := if v_cached v then _ else o1).
  assert (out_wf base (o2, st.2) ∧ later st.1 o2) as [Hwf2 Hl2].
  { unfold o2. destruct (v_cached v); [|done].
    destruct (out_wf_update base (o1, st.2) d set_shown_cached) as [? ?]; [done| |done|].
    - apply (inv_buffered _ (wf_inv _ _ Hwf1)).
    - split; [done|]. by etransitivity. }
  destruct (show_wf base (o2, st.2) d Hwf2) as (st3 & -> & Hwf3 & Hl3 & n & Hn). simpl in *.
  destruct cached.
  - destruct (emit_wf base st3 d "CACHED" n Hn Hwf3) as (st4 & -> & ? & ?).
    exists st4. split_and!; [done|done|by do 2 (etransitivity; [eassumption|])].
  - exists st3. split_and!; [done|done|by etransitivity].
Qed.

Lemma push_log_wf base log st :
  out_wf base st →
  ∃ st', push_log log st = Some st' ∧ out_wf base st' ∧ later st.1 st'.1.
Proof.
  intros Hwf. unfold push_log. set (d := log_vertex log).
  destruct (show_wf base st d Hwf) as (st1 & -> & Hwf1 & Hl1 & n & Hn). simpl.
  destruct (push_lines _ _) as [b completed].
  destruct (out_wf_update base st1 d (set_lines b)) as [Hwf2 Hl2]; [done|congruence|done|].
  destruct (emit_lines_wf base (update_step d (set_lines b) st1.1, st1.2) d completed)
    as (st3 & -> & Hwf3 & Hl3); [exists n; by apply Hl2|done|].
  exists st3. split_and!; [done|done|by do 2 (etransitivity; [eassumption|])].
Qed.

Lemma flush_step_wf base d st :
  out_wf base st →
  ∃ st', flush_step d st = Some st' ∧ out_wf base st' ∧ later st.1 st'.1.
Proof.
  intros Hwf. unfold flush_step. pose proof (inv_buffered _ (wf_inv _ _ Hwf) d) as Hb.
  destruct (flush_lines _) as [b rest] eqn:Hf.
  unfold flush_lines, flush in Hf.
  destruct (number_of st.1 d) as [n|] eqn:Hn.
  - destruct (out_wf_update base st d (set_lines b)) as [Hwf2 Hl2]; [done|congruence|done|].
    destruct (emit_lines_wf base (update_step d (set_lines b) st.1, st.2) d rest)
      as (st3 & -> & Hwf3 & Hl3); [exists n; by apply Hl2|done|].
    exists st3. split_and!; [done|done|by etransitivity].
  - rewrite (Hb eq_refl) in Hf. simpl in Hf. simplify_eq. simpl.
    destruct (out_wf_update base st d (set_lines (mk_line_buffer [] false false)))
      as [Hwf2 Hl2]; [done|done|done|].
    eexists. split_and!; [done|done|done].
Qed.

Lemma finish_vertex_wf base v st :
  out_wf base st →
  ∃ st', finish_vertex v st = Some st' ∧ out_wf base st' ∧ later st.1 st'.1.
Proof.
  intros Hwf. unfold finish_vertex. cbv zeta. set (d := v_digest v).
  assert (∀ c : bool, ∃ st1, (if c then flush_step d st else Some st) = Some st1 ∧
    out_wf base st1 ∧ later st.1 st1.1) as Hflush.
  { intros []; [by apply flush_step_wf|by exists st]. }
  match goal with |- context [if ?c then flush_step d st else Some st] =>
    destruct (Hflush c) as (st1 & Hst1 & Hwf1 & Hl1) end.
  rewrite Hst1. clear Hflush Hst1.
  simpl. destruct (bool_decide (v_error v ≠ EmptyString)); [|by exists st1].
  destruct (out_wf_update base st1 d set_shown_error) as [Hwf2 Hl2]; [done| |done|].
  { apply (inv_buffered _ (wf_inv _ _ Hwf1)). }
  destruct (negb _).
  - destruct (show_wf base (update_step d set_shown_error st1.1, st1.2) d Hwf2)
      as (st3 & -> & Hwf3 & Hl3 & n & Hn). simpl in *.
    destruct (emit_wf base st3 d ("ERROR: " +:+ v_error v) n Hn Hwf3) as (st4 & -> & ? & ?).
    exists st4. split_and!; [done|done|by do 3 (etransitivity; [eassumption|])].
  - eexists. split_and!; [done|done|by etransitivity].
Qed.

Lemma each_all_wf {A} base (f : A → out → option out) xs st :
  (∀ st x, out_wf base st →
    ∃ st', f x st = Some st' ∧ out_wf base st' ∧ later st.1 st'.1) →
  out_wf base st →
  ∃ st', each f xs st = Some st' ∧ out_wf base st' ∧ later st.1 st'.1.
Proof.
  intros Hf Hwf. apply (each_wf base f (λ _ _, True)); [done| | |done].
  - intros ? ? _. apply Hf.
  - by apply Forall_true.
Qed.

Lemma out_wf_start o : output_inv o → out_wf (transcript o) (o, []).
Proof. intros H. split; simpl; [done| |done]. by rewrite string_app_nil_r. Qed.

Lemma name_vertex_inv v o : output_inv o → output_inv (name_vertex v o) ∧
  later o (name_vertex v o) ∧ transcript (name_vertex v o) = transcript o.
Proof.
  intros H. unfold name_vertex.
  destruct (out_wf_update (transcript o) (o, []) (v_digest v)
    (if bool_decide (v_name v = EmptyString) then id else set_name (v_name v))) as [Hwf Hl].
  - by case_bool_decide.
  - intros Hn%(inv_buffered _ H). by case_bool_decide.
  - by apply out_wf_start.
  - split_and!; [apply Hwf|done|done].
Qed.

Lemma name_vertexes vs : ∀ o, output_inv o →
  let o' := foldl (λ o vertex, name_vertex vertex o) o vs in
  output_inv o' ∧ later o o' ∧ transcript o' = transcript o ∧
  (∀ d, is_Some (steps o !! d) → is_Some (steps o' !! d)) ∧
  Forall (λ v, is_Some (steps o' !! v_digest v)) vs.
Proof.
  induction vs as [|v vs IH]; intros o H; simpl; [split_and!; done|].
  destruct (name_vertex_inv v o H) as (H1 & Hl1 & Ht1).
  destruct (IH (name_vertex v o) H1) as (H2 & Hl2 & Ht2 & Hs & Hv).
  assert (∀ d, is_Some (steps o !! d) → is_Some (steps (name_vertex v o) !! d)) as Hs1.
  { intros d Hd. unfold name_vertex, update_step. simpl. rewrite lookup_insert_is_Some'. auto. }
  split_and!; [done|by etransitivity|congruence|auto|].
  constructor; [|done]. apply Hs. unfold name_vertex, update_step. simpl.
  rewrite lookup_insert_is_Some'. auto.
Qed.

Lemma starting_vertexes_defined o vs :
  Forall (λ v, is_Some (steps o !! v_digest v)) vs → ∃ starting, starting_vertexes o vs = Some starting.
Proof.
  induction 1 as [|v vs [s Hs] _ [starting IH]]; simpl; [by eexists|].
  rewrite Hs, IH. simpl. destruct (v_started v); by eexists.
Qed.

Lemma buildkit_push_wf o status :
  output_inv o →
  ∃ st, buildkit_push o status = Some st ∧ out_wf (transcript o) st ∧ later o st.1.
Proof.
  intros H. unfold buildkit_push.
  destruct (name_vertexes (vertexes status) o H) as (H1 & Hl1 & Ht1 & _ & Hv).
  set (o1 := foldl _ o _) in *.
  destruct (starting_vertexes_defined _ _ Hv) as [starting ->]. simpl.
  assert (out_wf (transcript o) (o1, [])) as Hwf1 by (rewrite <-Ht1; by apply out_wf_start).
  destruct (each_all_wf (transcript o) start_vertex (display_order starting) (o1, [])) as (st2 & -> & Hwf2 & Hl2);
    [intros; by apply start_vertex_wf|done|].
  simpl. destruct (each_all_wf (transcript o) push_log (logs status) st2) as (st3 & -> & Hwf3 & Hl3);
    [intros; by apply push_log_wf|done|].
  simpl. destruct (each_all_wf (transcript o) finish_vertex (vertexes status) st3) as (st4 & -> & Hwf4 & Hl4);
    [intros; by apply finish_vertex_wf|done|].
  exists st4. split_and!; [done|done|by do 3 (etransitivity; [eassumption|])].
Qed.

Lemma buildkit_finish_wf o :
  output_inv o →
  ∃ st, buildkit_finish o = Some st ∧ out_wf (transcript o) st ∧ later o st.1.
Proof.
  intros H. unfold buildkit_finish. apply (each_all_wf _ _ _ (o, [])); [|by apply out_wf_start].
  intros st [n d]. apply flush_step_wf.
Qed.

Definition build_step (o : BuildKitOutput) (r : option out) : Prop :=
  ∃ o' ls, r = Some (o', ls) ∧ output_inv o' ∧ later o o' ∧
    transcript o' = transcript o +:+ render ls ∧ Forall (labelled o') ls.

Lemma build_step_wf o r :
  (∃ st, r = Some st ∧ out_wf (transcript o) st ∧ later o st.1) → build_step o r.
Proof. intros ([o' ls] & -> & [? ? ?] & ?). exists o', ls. done. Qed.

Lemma build_step_trans o r (k : BuildKitOutput → option out) :
  build_step o r → (∀ o', output_inv o' → build_step o' (k o')) →
  build_step o ('(o, ls) ← r; '(o, ls') ← k o; Some (o, ls ++ ls')).
Proof.
  intros (o1 & ls1 & -> & H1 & Hl1 & Ht1 & Hls1) Hk. simpl.
  destruct (Hk o1 H1) as (o2 & ls2 & -> & H2 & Hl2 & Ht2 & Hls2). simpl.
  exists o2, (ls1 ++ ls2). split_and!; [done|done|by etransitivity| |].
  - by rewrite Ht2, Ht1, render_app, string_app_assoc.
  - apply Forall_app. split; [|done]. apply (Forall_weaken _ _ _ Hls1).
    intros. by eapply later_labelled.
Qed.

Lemma run_updates_wf updates : ∀ o, output_inv o → build_step o (run_updates o updates).
Proof.
  induction updates as [|status updates IH]; intros o H; simpl.
  - exists o, []. by rewrite string_app_nil_r.
  - apply build_step_trans; [|done]. by apply build_step_wf, buildkit_push_wf.
Qed.

Lemma run_to_end_wf updates o : output_inv o → build_step o (run_to_end o updates).
Proof.
  intros H. apply build_step_trans; [by apply run_updates_wf|].
  intros o' H'. by apply build_step_wf, buildkit_finish_wf.
Qed.

Lemma buildkit_new_inv : output_inv buildkit_new.
Proof.
  assert (∀ d, number_of buildkit_new d = None) as H.
  { intros d. unfold number_of. simpl. by rewrite lookup_empty. }
  split; intros *; rewrite ?H; done.
Qed.

(** ** [display_order] *)

Lemma ready_steps_nonempty batch : batch ≠ [] → ready_steps batch ≠ [].
Proof.
  intros H. unfold ready_steps. destruct (filter _ _) eqn:E; [|done].
  destruct batch; [done|]. by simpl.
Qed.

Lemma ready_steps_lt batch i : i ∈ ready_steps batch → i < length batch.
Proof.
  unfold ready_steps. destruct (filter _ _) as [|j l] eqn:E.
  - intros ?%elem_of_seq. lia.
  - rewrite <-E, list_elem_of_filter, elem_of_seq. lia.
Qed.

Lemma find_elem {A} (f : A → bool) (l : list A) x : List.find f l = Some x → x ∈ l.
Proof. intros H. apply List.find_some in H as [H _]. by apply list_elem_of_In. Qed.

Lemma next_step_ready batch : batch ≠ [] → next_step batch ∈ ready_steps batch.
Proof.
  intros H%ready_steps_nonempty. unfold next_step.
  destruct (List.find _ _) eqn:E; [by eapply find_elem|].
  clear E. destruct (List.find _ _) eqn:E; [by eapply find_elem|].
  destruct (ready_steps batch); [done|]. simpl. by left.
Qed.

Lemma next_step_lookup batch :
  batch ≠ [] → batch !! next_step batch = Some (batch !!! next_step batch).
Proof. intros H. apply list_lookup_lookup_total_lt, ready_steps_lt, next_step_ready, H. Qed.

Lemma display_order_loop_app fuel : ∀ batch ordered,
  display_order_loop fuel batch ordered = ordered ++ display_order_loop fuel batch [].
Proof.
  induction fuel as [|fuel IH]; intros batch ordered; simpl; [by rewrite app_nil_r|].
  destruct batch as [|v batch]; [by rewrite app_nil_r|].
  rewrite IH. rewrite (IH _ [_]). by rewrite <-app_assoc.
Qed.

Lemma display_order_loop_cons fuel batch :
  batch ≠ [] → length batch ≤ S fuel →
  display_order_loop (S fuel) batch [] =
    batch !!! next_step batch :: display_order_loop fuel (delete (next_step batch) batch) [] ∧
  length (delete (next_step batch) batch) ≤ fuel.
Proof.
  intros H Hf. pose proof (next_step_lookup _ H) as Hn. split.
  - cbn [display_order_loop]. destruct batch; [done|]. by rewrite display_order_loop_app.
  - rewrite length_delete by eauto. lia.
Qed.

Lemma display_order_loop_perm fuel : ∀ batch,
  length batch ≤ fuel → display_order_loop fuel batch [] ≡ₚ batch.
Proof.
  induction fuel as [|fuel IH]; intros batch Hf.
  { destruct batch; [done|simpl in Hf; lia]. }
  destruct (decide (batch = [])) as [->|H]; [done|].
  destruct (display_order_loop_cons fuel batch H Hf) as [-> Hd].
  rewrite (IH _ Hd). symmetry. by apply delete_Permutation, next_step_lookup.
Qed.

(** No step of the batch is, by way of the inputs it lists, its own input. *)
Definition acyclic_inputs (batch : list Vertex) : Prop :=
  ∃ depth : string → nat, ∀ v w,
    v ∈ batch → w ∈ batch → v_digest w ∈ v_inputs v → depth (v_digest w) < depth (v_digest v).

Lemma waits_for_input_false batch v :
  waits_for_input batch v = false ↔ ∀ w, w ∈ batch → v_digest w ∉ v_inputs v.
Proof.
  unfold waits_for_input. rewrite <-not_true_iff_false, existsb_exists.
  setoid_rewrite existsb_exists. setoid_rewrite bool_decide_eq_true.
  setoid_rewrite <-list_elem_of_In. naive_solver.
Qed.

Lemma least_depth (depth : string → nat) (batch : list Vertex) :
  batch ≠ [] → ∃ i v, batch !! i = Some v ∧ ∀ w, w ∈ batch → depth (v_digest v) ≤ depth (v_digest w).
Proof.
  induction batch as [|v batch IH]; [done|]. intros _.
  destruct (decide (batch = [])) as [->|H].
  { exists 0, v. split; [done|]. intros w ->%list_elem_of_singleton. done. }
  destruct (IH H) as (i & u & Hu & Hle).
  destruct (decide (depth (v_digest v) ≤ depth (v_digest u))) as [Hv|Hv].
  - exists 0, v. split; [done|]. intros w [->|Hw]%elem_of_cons; [done|].
    specialize (Hle w Hw). lia.
  - exists (S i), u. split; [done|]. intros w [->|Hw]%elem_of_cons; [lia|auto].
Qed.

Lemma next_step_no_inputs batch :
  batch ≠ [] → acyclic_inputs batch →
  ∀ w, w ∈ batch → v_digest w ∉ v_inputs (batch !!! next_step batch).
Proof.
  intros H [depth Hd]. apply waits_for_input_false.
  pose proof (next_step_ready batch H) as Hr. unfold ready_steps in Hr.
  destruct (filter _ _) as [|j l] eqn:E; [exfalso|rewrite <-E in Hr; apply list_elem_of_filter in Hr; by destruct Hr].
  destruct (least_depth depth batch H) as (i & v & Hv & Hle).
  assert (i ∈ filter (λ i, waits_for_input batch (batch !!! i) = false)
    (seq 0 (length batch))) as Hi; [|rewrite E in Hi; by apply not_elem_of_nil in Hi].
  apply list_elem_of_filter. split.
  - rewrite (list_lookup_total_correct _ _ _ Hv). apply waits_for_input_false.
    intros w Hw Hin. specialize (Hd v w (list_elem_of_lookup_2 _ _ _ Hv) Hw Hin).
    specialize (Hle w Hw). lia.
  - apply elem_of_seq. apply lookup_lt_Some in Hv. lia.
Qed.

Lemma display_order_loop_inputs fuel : ∀ batch,
  length batch ≤ fuel → acyclic_inputs batch →
  ∀ i j v w, display_order_loop fuel batch [] !! i = Some v →
    display_order_loop fuel batch [] !! j = Some w → v_digest w ∈ v_inputs v → j < i.
Proof.
  induction fuel as [|fuel IH]; intros batch Hf Hac i j v w; [done|].
  destruct (decide (batch = [])) as [->|H]; [done|].
  destruct (display_order_loop_cons fuel batch H Hf) as [-> Hd].
  pose proof (next_step_lookup _ H) as Hn. pose proof (next_step_no_inputs _ H Hac) as Hno.
  assert (∀ u, u ∈ display_order_loop fuel (delete (next_step batch) batch) [] → u ∈ batch)
    as Hsub.
  { intros u. rewrite (display_order_loop_perm _ _ Hd). intros Hu.
    rewrite (delete_Permutation _ _ _ Hn). by right. }
  intros Hi Hj Hin. destruct i as [|i]; simpl in *.
  - simplify_eq. exfalso. apply (Hno w); [|done]. destruct j as [|j]; simpl in *.
    + simplify_eq. by eapply list_elem_of_lookup_2.
    + by eapply Hsub, list_elem_of_lookup_2.
  - destruct j as [|j]; simpl in *; [lia|].
    enough (j < i) by lia. eapply (IH _ Hd); [|done..].
    destruct Hac as [depth Hac]. exists depth. intros v' w' Hv' Hw'.
    apply Hac; rewrite (delete_Permutation _ _ _ Hn); by right.
Qed.

(** ** Properties *)

(** The output of a BuildKit build never panics, whatever its updates hold
    and in whatever order they come.  Every line it returns is labelled with
    the number of a displayed step, no two steps share a number, a number
    given by some moment of the build is kept to its end, and the transcript
    is exactly the lines returned, in order. *)
Theorem build_output_labelled before after :
  ∃ o1 ls1 o ls,
    run_updates buildkit_new before = Some (o1, ls1) ∧ run_to_end o1 after = Some (o, ls) ∧
    transcript o = render (ls1 ++ ls) ∧ Forall (labelled o) (ls1 ++ ls) ∧
    (∀ d n, number_of o1 d = Some n → number_of o d = Some n) ∧
    (∀ d n, number_of o d = Some n → 1 ≤ n ≤ last_number o) ∧
    (∀ d d' n, number_of o d = Some n → number_of o d' = Some n → d = d').
Proof.
  destruct (run_updates_wf before _ buildkit_new_inv) as (o1 & ls1 & H1 & Hi1 & _ & Ht1 & Hls1).
  destruct (run_to_end_wf after o1 Hi1) as (o & ls & H & Hi & Hl & Ht & Hls).
  exists o1, ls1, o, ls. split_and!; [done..| | |apply Hl|apply Hi|apply Hi].
  - by rewrite Ht, Ht1, render_app.
  - apply Forall_app. split; [|done]. apply (Forall_weaken _ _ _ Hls1).
    intros. by eapply later_labelled.
Qed.

(** Steps that start in one update are displayed each exactly once, and, when
    their inputs form no cycle, each after every step of the batch it lists
    among its inputs.  The loop ends within one turn per step. *)
Theorem display_order_spec batch :
  display_order batch ≡ₚ batch ∧
  (acyclic_inputs batch → ∀ i j v w,
    display_order batch !! i = Some v → display_order batch !! j = Some w →
    v_digest w ∈ v_inputs v → j < i).
Proof.
  split; [by apply display_order_loop_perm|]. by apply display_order_loop_inputs.
Qed.

