(* ===== verification/Values.v ===== *)
(** * Values: the value types of [ratect-core/src/config.rs]

    The fields of a container that are written as strings or scalars and
    parsed at load: ports, devices, volumes, sizes, network modes, names or
    ids, ulimits, external health checks.  A wording of an error is a
    constructor of [value_error]. *)

From S2P Require Import Prelude Text.
From stdpp Require Import options.

Inductive value_error :=
| EmptyDefinition
| InvalidForm (value : string)
| PortNotPositive (value : string)
| PortsNotAscending (value : string)
| PortCountsDiffer (local container : N)
| InvalidSize (value : string)
| InvalidSizeNumber (value : Z)
| NotANetworkMode (value : string)
| NegativeId (value : Z)
| UnlimitedSoftLimit (hard : Z)
| SoftAboveHard (soft hard : Z)
| OnlyForHttp (field : string)
| UnknownCheckType (type : string).

#[global] Instance value_error_eq_dec : EqDecision value_error.
Proof. solve_decision. Defined.

Definition colon : ascii := ":".

(** ** Ports *)

Record PortRange := mk_port_range { from : N; to : N }.

Definition port_range_parse (value : string) : result PortRange value_error :=
  let '(from_str, to_str) := default (value, value) (split_once "-"%char value) in
  let? from := ok_or (parse_unsigned u16_max from_str) (InvalidForm value) in
  let? to := ok_or (parse_unsigned u16_max to_str) (InvalidForm value) in
  if (from =? 0)%N then Err (PortNotPositive value)
  else if (to <? from)%N then Err (PortsNotAscending value)
  else Ok (mk_port_range from to).

Definition port_range_size (r : PortRange) : N := (to r - from r + 1)%N.

(** [Display]. *)
Definition port_range_show (r : PortRange) : string :=
  if (from r =? to r)%N then show_N (from r)
  else show_N (from r) +:+ "-" +:+ show_N (to r).

(** What [serde] hands the visitor of a scalar field. *)
Inductive scalar :=
| ScalarStr (v : string)
| ScalarU64 (v : N)
| ScalarI64 (v : Z).

(** [Display] of an [i64]. *)
Definition show_Z (z : Z) : string :=
  if (z <? 0)%Z then "-" +:+ show_N (Z.to_N (- z)) else show_N (Z.to_N z).

Definition port_range_deserialize (v : scalar) : result PortRange value_error :=
  match v with
  | ScalarStr v => port_range_parse v
  | ScalarU64 v => port_range_parse (show_N v)
  | ScalarI64 v => port_range_parse (show_Z v)
  end.

(** [serialize]: a single port as an integer, a range as its string. *)
Definition port_range_serialize (r : PortRange) : scalar :=
  if (from r =? to r)%N then ScalarU64 (from r) else ScalarStr (port_range_show r).

Record PortMapping := mk_port_mapping {
  pm_local : PortRange;
  pm_container : PortRange;
  pm_protocol : string;
}.

Definition port_mapping_new (local container : PortRange) (protocol : string)
  : result PortMapping value_error :=
  if negb (port_range_size local =? port_range_size container)%N
  then Err (PortCountsDiffer (port_range_size local) (port_range_size container))
  else Ok (mk_port_mapping local container protocol).

Definition port_mapping_parse_string (value : string) : result PortMapping value_error :=
  if bool_decide (value = EmptyString) then Err EmptyDefinition
  else
    let? (local, rest) := ok_or (split_once colon value) (InvalidForm value) in
    let '(container, protocol) := default (rest, "tcp") (split_once "/"%char rest) in
    if bool_decide (local = EmptyString ∨ container = EmptyString ∨ protocol = EmptyString)
    then Err (InvalidForm value)
    else
      let? local := port_range_parse local in
      let? container := port_range_parse container in
      port_mapping_new local container protocol.

(** [as u16], and [u16] addition, which the release build wraps. *)
Definition u16_add (a b : N) : N := ((a + b mod 65536) mod 65536)%N.

Definition port_mapping_expand (m : PortMapping) : list (N * N * string) :=
  (λ i : nat, (u16_add (from (pm_local m)) (N.of_nat i),
               u16_add (from (pm_container m)) (N.of_nat i), pm_protocol m))
  <$> seq 0 (N.to_nat (port_range_size (pm_local m))).

(** ** Devices and volumes *)

Record DeviceMapping := mk_device {
  dm_local : string;
  dm_container : string;
  dm_options : option string;
}.

(** The common form of [DeviceMapping::parse_string] and
    [VolumeMount::parse_string]. *)
Definition parse_mount_parts (value : string)
  : result (string * string * option string) value_error :=
  if bool_decide (value = EmptyString) then Err EmptyDefinition
  else
    match splitn 4 colon value with
    | local :: container :: rest =>
        let options := hd_error rest in
        if bool_decide (2 ≤ length rest) then Err (InvalidForm value)
        else if bool_decide (local = EmptyString ∨ container = EmptyString ∨
                             options = Some EmptyString)
        then Err (InvalidForm value)
        else Ok (local, container, options)
    | _ => Err (InvalidForm value)
    end.

Definition device_parse_string (value : string) : result DeviceMapping value_error :=
  let? (local, container, options) := parse_mount_parts value in
  Ok (mk_device local container options).

Inductive CacheScope := Project | Shared.
#[global] Instance CacheScope_eq_dec : EqDecision CacheScope.
Proof. solve_decision. Defined.

Record LocalVolumeMount := mk_local_mount {
  lv_local : string;
  lv_container : string;
  lv_options : option string;
  lv_compact : bool;
}.

Record CacheVolumeMount := mk_cache_mount {
  cv_name : string;
  cv_container : string;
  cv_options : option string;
  cv_scope : option CacheScope;
}.

Record TmpfsVolumeMount := mk_tmpfs_mount {
  tv_container : string;
  tv_options : option string;
}.

Inductive VolumeMount :=
| LocalMount (mount : LocalVolumeMount)
| CacheMount (mount : CacheVolumeMount)
| TmpfsMount (mount : TmpfsVolumeMount).

Definition local_is_expression (m : LocalVolumeMount) (batect_shaped : bool) : bool :=
  negb (lv_compact m && batect_shaped).

Definition cache_scope (m : CacheVolumeMount) : CacheScope := default Project (cv_scope m).

Definition container_path (m : VolumeMount) : string :=
  match m with
  | LocalMount m => lv_container m
  | CacheMount m => cv_container m
  | TmpfsMount m => tv_container m
  end.

Definition volume_parse_string (value : string) : result VolumeMount value_error :=
  let? (local, container, options) := parse_mount_parts value in
  Ok (LocalMount (mk_local_mount local container options true)).

(** ** Sizes *)

Definition i64_max : Z := 9223372036854775807.

Definition size_unit (without_b : string) : string * Z :=
  match strip_suffix "k" without_b with
  | Some rest => (rest, 1024%Z)
  | None =>
      match strip_suffix "m" without_b with
      | Some rest => (rest, (1024 * 1024)%Z)
      | None =>
          match strip_suffix "g" without_b with
          | Some rest => (rest, (1024 * 1024 * 1024)%Z)
          | None => (without_b, 1%Z)
          end
      end
  end.

Definition parse_byte_size (value : string) : result Z value_error :=
  let lower := to_ascii_lowercase (trim value) in
  let without_b := default lower (strip_suffix "b" lower) in
  let '(digits, multiplier) := size_unit without_b in
  let digits := trim_end digits in
  if bool_decide (digits = EmptyString) || negb (forallb is_ascii_digit (chars digits))
  then Err (InvalidSize value)
  else
    match parse_unsigned (Z.to_N i64_max) digits with
    | None => Err (InvalidSize value)
    | Some count =>
        let product := (Z.of_N count * multiplier)%Z in
        if (product <=? i64_max)%Z then Ok product else Err (InvalidSize value)
    end.

Definition deserialize_shm_size (v : scalar) : result Z value_error :=
  match v with
  | ScalarStr v => parse_byte_size v
  | ScalarU64 v => if (Z.of_N v <=? i64_max)%Z then Ok (Z.of_N v) else Err (InvalidSizeNumber (Z.of_N v))
  | ScalarI64 v => if (v <? 0)%Z then Err (InvalidSizeNumber v) else Ok v
  end.

(** ** Network modes, names or ids, ulimits *)

Inductive NetworkMode := HostMode | NoneMode | ContainerMode (name : string).
#[global] Instance NetworkMode_eq_dec : EqDecision NetworkMode.
Proof. solve_decision. Defined.

Definition network_mode_try_from (value : string) : result NetworkMode value_error :=
  if bool_decide (value = "host") then Ok HostMode
  else if bool_decide (value = "none") then Ok NoneMode
  else match strip_prefix "container:" value with
       | Some name =>
           if bool_decide (name ≠ EmptyString) then Ok (ContainerMode name)
           else Err (NotANetworkMode value)
       | None => Err (NotANetworkMode value)
       end.

Definition network_mode_into (m : NetworkMode) : string :=
  match m with
  | HostMode => "host"
  | NoneMode => "none"
  | ContainerMode name => "container:" +:+ name
  end.

Definition NameOrId := string.

Definition name_or_id_deserialize (v : scalar) : result NameOrId value_error :=
  match v with
  | ScalarStr v => Ok v
  | ScalarU64 v => Ok (show_N v)
  | ScalarI64 v => if (v <? 0)%Z then Err (NegativeId v) else Ok (show_N (Z.to_N v))
  end.

Inductive UlimitResource :=
| Core | Cpu | Data | Fsize | Locks | Memlock | Msgqueue | Nice | Nofile | Nproc | Rss
| Rtprio | Rttime | Sigpending | Stack.
#[global] Instance UlimitResource_eq_dec : EqDecision UlimitResource.
Proof. solve_decision. Defined.

Definition ulimit_as_str (r : UlimitResource) : string :=
  match r with
  | Core => "core" | Cpu => "cpu" | Data => "data" | Fsize => "fsize" | Locks => "locks"
  | Memlock => "memlock" | Msgqueue => "msgqueue" | Nice => "nice" | Nofile => "nofile"
  | Nproc => "nproc" | Rss => "rss" | Rtprio => "rtprio" | Rttime => "rttime"
  | Sigpending => "sigpending" | Stack => "stack"
  end.

Record Ulimit := mk_ulimit { ul_name : UlimitResource; ul_soft : Z; ul_hard : Z }.

Definition ulimit_new (name : UlimitResource) (soft hard : Z) : result Ulimit value_error :=
  if negb (hard =? -1)%Z && (soft =? -1)%Z then Err (UnlimitedSoftLimit hard)
  else if negb (hard =? -1)%Z && negb (soft <=? hard)%Z then Err (SoftAboveHard soft hard)
  else Ok (mk_ulimit name soft hard).

(** ** External health checks; durations in nanoseconds *)

Inductive ExternalHealthCheckKind :=
| Http (port : N) (path : string) (expected_status : N)
| Tcp (port : N).

Record ExternalHealthCheck := mk_external_check {
  eh_kind : ExternalHealthCheckKind;
  eh_interval : option N;
  eh_retries : option N;
  eh_timeout : option N;
}.

Record ExternalHealthCheckFields := mk_external_fields {
  ef_type : string;
  ef_port : N;
  ef_path : option string;
  ef_expected_status : option N;
  ef_interval : option N;
  ef_retries : option N;
  ef_timeout : option N;
}.

Definition external_check_try_from (f : ExternalHealthCheckFields)
  : result ExternalHealthCheck value_error :=
  let? kind :=
    (if bool_decide (ef_type f = "http") then
       Ok (Http (ef_port f) (default "/" (ef_path f)) (default 200%N (ef_expected_status f)))
     else if bool_decide (ef_type f = "tcp") then
       if bool_decide (is_Some (ef_path f)) then Err (OnlyForHttp "path")
       else if bool_decide (is_Some (ef_expected_status f)) then Err (OnlyForHttp "expected_status")
       else Ok (Tcp (ef_port f))
     else Err (UnknownCheckType (ef_type f))) in
  Ok (mk_external_check kind (ef_interval f) (ef_retries f) (ef_timeout f)).

Definition external_check_into (c : ExternalHealthCheck) : ExternalHealthCheckFields :=
  let '(type, port, path, expected_status) :=
    match eh_kind c with
    | Http port path expected_status => ("http", port, Some path, Some expected_status)
    | Tcp port => ("tcp", port, None, None)
    end in
  mk_external_fields type port path expected_status (eh_interval c) (eh_retries c) (eh_timeout c).

(** ** Port ranges *)

Definition port_range_wf (r : PortRange) : Prop := (1 ≤ from r ≤ to r ∧ to r ≤ u16_max)%N.

Lemma port_range_parse_wf s r : port_range_parse s = Ok r → port_range_wf r.
Proof.
  unfold port_range_parse. destruct (default _ _) as [f t].
  destruct (parse_unsigned u16_max f) as [n|]; [|done].
  destruct (parse_unsigned u16_max t) as [m|] eqn:Ht; [|done]. simpl.
  apply parse_unsigned_Some in Ht as [_ Ht].
  destruct (N.eqb_spec n 0); [done|]. destruct (N.ltb_spec m n); [done|].
  intros [= <-]. split; simpl; lia.
Qed.

Lemma port_range_parse_show r : port_range_wf r → port_range_parse (port_range_show r) = Ok r.
Proof.
  destruct r as [f t]. intros [Hf Ht]. simpl in *.
  unfold port_range_parse, port_range_show. simpl.
  destruct (N.eqb_spec f t) as [->|Hne].
  - rewrite (proj2 (split_once_None _ _)) by by apply show_N_not_elem. simpl.
    rewrite parse_show_N by lia. simpl.
    destruct (N.eqb_spec t 0); [lia|]. by destruct (N.ltb_spec t t); [lia|].
  - rewrite (proj2 (split_once_Some "-"%char _ (show_N f) (show_N t))) by
      (split; [done|by apply show_N_not_elem]).
    simpl. rewrite !parse_show_N by lia. simpl.
    destruct (N.eqb_spec f 0); [lia|]. by destruct (N.ltb_spec t f); [lia|].
Qed.

(** ** Mounts *)

(** The compact form of a device or a volume. *)
Definition mount_text (local container : string) (options : option string) : string :=
  local +:+ String colon container +:+
  match options with Some o => String colon o | None => EmptyString end.

Definition mount_segment (s : string) : Prop := s ≠ EmptyString ∧ colon ∉ chars s.

Lemma splitn_cons n c h t :
  c ∉ chars h → splitn (S (S n)) c (h +:+ String c t) = h :: splitn (S n) c t.
Proof.
  intros H. unfold splitn. rewrite chars_app. cbn [splitn_l].
  rewrite (proj2 (split_once_l_Some c _ (chars h) (chars t))) by done.
  rewrite fmap_cons. by rewrite of_chars_chars.
Qed.

Lemma splitn_last n c s : c ∉ chars s → splitn (S (S n)) c s = [s].
Proof.
  intros H. unfold splitn. cbn [splitn_l].
  rewrite (proj2 (split_once_l_None _ _) H). simpl. by rewrite of_chars_chars.
Qed.

Lemma splitn_one c s : splitn 1 c s = [s].
Proof. unfold splitn. simpl. by rewrite of_chars_chars. Qed.

(** A value is its first segment, then the rest after a colon, if any. *)
Lemma first_segment c s :
  c ∉ chars s ∨ ∃ h t, s = h +:+ String c t ∧ c ∉ chars h.
Proof.
  destruct (split_once c s) as [[h t]|] eqn:E.
  - right. exists h, t. by apply split_once_Some.
  - left. by apply split_once_None.
Qed.

Lemma parse_mount_parts_text l c o :
  mount_segment l → mount_segment c →
  match o with Some o => mount_segment o | None => True end →
  parse_mount_parts (mount_text l c o) = Ok (l, c, o).
Proof.
  intros [Hl Hl'] [Hc Hc'] Ho. unfold parse_mount_parts, mount_text.
  rewrite bool_decide_eq_false_2 by (destruct l; [done|by rewrite string_app_cons]).
  rewrite string_app_cons, splitn_cons by done.
  destruct o as [o|].
  - destruct Ho as [Ho Ho']. rewrite splitn_cons, splitn_last by done. simpl.
   
    rewrite bool_decide_eq_false_2; [done|naive_solver].
  - rewrite string_app_nil_r, splitn_last by done. simpl.
   
    rewrite bool_decide_eq_false_2; [done|naive_solver].
Qed.

Lemma parse_mount_parts_Ok value l c o :
  parse_mount_parts value = Ok (l, c, o) →
  value = mount_text l c o ∧ mount_segment l ∧ mount_segment c ∧
  match o with Some o => mount_segment o | None => True end.
Proof.
  unfold parse_mount_parts, mount_text. case_bool_decide as He; [done|].
  destruct (first_segment colon value) as [H|(h & t & -> & Hh)];
    [by rewrite splitn_last|].
  rewrite splitn_cons by done.
  destruct (first_segment colon t) as [Ht|(h2 & t2 & -> & Hh2)].
  - rewrite splitn_last by done. simpl.
    case_bool_decide as Hs; [done|]. intros [= <- <- <-].
    rewrite string_app_nil_r. split_and!; [done|split|split|]; naive_solver.
  - rewrite splitn_cons by done.
    destruct (first_segment colon t2) as [Ht2|(h3 & t3 & -> & Hh3)].
    + rewrite splitn_last by done. simpl.
      case_bool_decide as Hs; [done|]. intros [= <- <- <-].
      split_and!; [done|split|split|split]; naive_solver.
    + rewrite splitn_cons, splitn_one by done. done.
Qed.

(** ** Sizes *)

(** The suffixes a size may have, with what each multiplies the count by. *)
Definition size_units : list (string * Z) :=
  [ (EmptyString, 1); ("b", 1); ("k", 1024); ("kb", 1024); ("m", 1048576); ("mb", 1048576);
    ("g", 1073741824); ("gb", 1073741824) ]%Z.

Lemma show_N_last n : ∃ s d, show_N n = s +:+ String d EmptyString ∧ is_ascii_digit d = true.
Proof.
  destruct (exists_last (l := chars (show_N n))) as (l & d & H).
  { intros H. apply (show_N_nonempty n). by rewrite <-(of_chars_chars (show_N n)), H. }
  exists (of_chars l), d. split.
  - apply chars_inj. by rewrite H, chars_app, chars_of_chars.
  - apply (show_N_digits n). rewrite H. set_solver.
Qed.

Lemma strip_suffix_digits n c :
  is_ascii_digit c = false → strip_suffix (String c EmptyString) (show_N n) = None.
Proof.
  intros Hc. destruct (show_N_last n) as (s & d & -> & Hd).
  apply strip_suffix_last. by eapply digit_not_char.
Qed.

Lemma strip_suffix_app p s : strip_suffix p (s +:+ p) = Some s.
Proof. by apply strip_suffix_Some. Qed.

Lemma size_unit_spec n (u : string) m :
  (u, m) ∈ size_units →
  let lower := show_N n +:+ u in
  size_unit (default lower (strip_suffix "b" lower)) = (show_N n, m).
Proof.
  pose proof (strip_suffix_digits n) as Hd. pose proof (strip_suffix_app) as Ha.
  pose proof (strip_suffix_last (show_N n)) as Hl. unfold size_units, size_unit.
  assert (∀ a b, show_N n +:+ String a (String b EmptyString) =
    (show_N n +:+ String a EmptyString) +:+ String b EmptyString) as Htwo
    by (intros; by rewrite <-string_app_assoc).
  intros Hu%list_elem_of_In. cbv zeta.
  repeat (destruct Hu as [[= <- <-]|Hu]; [rewrite ?Htwo, ?string_app_nil_r, ?Ha; cbn [from_option id];
    repeat first [rewrite Ha | rewrite Hd by done | rewrite Hl by done | progress cbn [from_option id]];
    done|]).
  destruct Hu.
Qed.

Lemma size_unit_chars (u : string) m c :
  (u, m) ∈ size_units → c ∈ chars u → is_whitespace c = false ∧ is_ascii_uppercase c = false.
Proof.
  intros Hu Hc. unfold size_units in Hu.
  assert (forallb (λ '(u, _), forallb (λ c, negb (is_whitespace c) && negb (is_ascii_uppercase c))
    (chars u)) size_units = true) as H by reflexivity.
  rewrite forallb_forall in H. apply list_elem_of_In, H in Hu.
  rewrite forallb_forall in Hu. apply list_elem_of_In, Hu in Hc.
  by apply andb_prop in Hc as [?%negb_true_iff ?%negb_true_iff].
Qed.

Lemma parse_byte_size_show n (u : string) m :
  (u, m) ∈ size_units →
  parse_byte_size (show_N n +:+ u) =
    if ((Z.of_N n <=? i64_max) && (Z.of_N n * m <=? i64_max))%Z
    then Ok (Z.of_N n * m)%Z else Err (InvalidSize (show_N n +:+ u)).
Proof.
  intros Hu. unfold parse_byte_size.
  assert (∀ c, c ∈ chars (show_N n +:+ u) →
    is_whitespace c = false ∧ is_ascii_uppercase c = false) as Hc.
  { intros c. rewrite chars_app, elem_of_app. intros [H|H].
    - apply show_N_digits in H. split; [by apply digit_not_whitespace|by apply digit_not_uppercase].
    - by eapply size_unit_chars. }
  rewrite trim_id, to_ascii_lowercase_id by (intros; by apply Hc).
  rewrite (size_unit_spec _ _ _ Hu).
  rewrite trim_end_id by (intros; by eapply digit_not_whitespace, show_N_digits).
  rewrite bool_decide_eq_false_2 by apply show_N_nonempty.
  replace (forallb is_ascii_digit (chars (show_N n))) with true; [|symmetry; apply forallb_forall;
    intros c Hin%list_elem_of_In; by apply show_N_digits in Hin].
  assert (Z.of_N (Z.to_N i64_max) = i64_max) as Hmax by done.
  cbn [negb orb]. destruct (Z.leb_spec (Z.of_N n) i64_max) as [Hn|Hn]; cbn [andb].
  - rewrite parse_show_N by lia. done.
  - destruct (parse_unsigned _ _) as [k|] eqn:E; [|done]. exfalso.
    apply parse_unsigned_Some in E as [E H].
    assert (parse_unsigned n (show_N n) = Some n) as E2 by (apply parse_show_N, N.le_refl).
    apply parse_unsigned_Some in E2 as [E2 _]. assert (n = k) as -> by congruence.
    apply N2Z.inj_le in H. rewrite Hmax in H. lia.
Qed.

Lemma size_unit_nonneg w : (0 ≤ (size_unit w).2)%Z.
Proof. apply Z.leb_le. unfold size_unit. by repeat destruct (strip_suffix _ _). Qed.

Lemma parse_byte_size_bound value z : parse_byte_size value = Ok z → (0 ≤ z ≤ i64_max)%Z.
Proof.
  unfold parse_byte_size.
  pose proof (size_unit_nonneg (default (to_ascii_lowercase (trim value))
    (strip_suffix "b" (to_ascii_lowercase (trim value))))) as Hm.
  destruct (size_unit _) as [digits m]. cbn [snd] in Hm.
  destruct (_ || _); [done|]. destruct (parse_unsigned _ _) as [n|]; [|done].
  destruct (Z.leb_spec (Z.of_N n * m) i64_max); [|done]. intros [= <-]. split; [lia|done].
Qed.

(** ** Properties *)

Definition port_mapping_wf (m : PortMapping) : Prop :=
  port_range_wf (pm_local m) ∧ port_range_wf (pm_container m) ∧
  port_range_size (pm_local m) = port_range_size (pm_container m).

Lemma port_mapping_parse_wf s m : port_mapping_parse_string s = Ok m → port_mapping_wf m.
Proof.
  unfold port_mapping_parse_string. case_bool_decide as Hd; [done|].
  intros H. apply result_bind_Ok in H as ([l r] & _ & H).
  destruct (default _ _) as [c p]. case_bool_decide as Hd'; [done|].
  apply result_bind_Ok in H as (lr & Hl & H). apply result_bind_Ok in H as (cr & Hc & H).
  unfold port_mapping_new in H.
  destruct (N.eqb_spec (port_range_size lr) (port_range_size cr)); simplify_eq/=.
  split_and!; [by eapply port_range_parse_wf..|done].
Qed.

(** A port mapping the loader accepts publishes each port of its local range
    to the port at the same position of its container range, and no other: as
    many pairs as the ranges have ports, every port between 1 and 65535, with
    no wrap-around of the 16-bit sums and no local port published twice. *)
Theorem port_mapping_expand_spec value m :
  port_mapping_parse_string value = Ok m →
  length (port_mapping_expand m) = N.to_nat (port_range_size (pm_local m)) ∧
  (∀ i l c p, port_mapping_expand m !! i = Some (l, c, p) ↔
    l = (from (pm_local m) + N.of_nat i)%N ∧ c = (from (pm_container m) + N.of_nat i)%N ∧
    p = pm_protocol m ∧ (l ≤ to (pm_local m))%N) ∧
  Forall (λ '(l, c, _), 1 ≤ l ≤ u16_max ∧ 1 ≤ c ≤ u16_max)%N (port_mapping_expand m) ∧
  NoDup ((λ x : N * N * string, x.1.1) <$> port_mapping_expand m).
Proof.
  intros ([Hl1 Hl2] & [Hc1 Hc2] & Hs)%port_mapping_parse_wf.
  unfold port_range_size, u16_max in *.
  set (n := N.to_nat (to (pm_local m) - from (pm_local m) + 1)).
  assert (port_mapping_expand m = (λ i : nat, ((from (pm_local m) + N.of_nat i)%N,
    (from (pm_container m) + N.of_nat i)%N, pm_protocol m)) <$> seq 0 n) as ->.
  { unfold port_mapping_expand, port_range_size, u16_add. apply list_fmap_ext.
    intros i x [-> Hi]%lookup_seq. fold n in Hi.
    rewrite (N.mod_small (N.of_nat _)) by lia. rewrite !N.mod_small by lia. done. }
  split_and!.
  - by rewrite length_fmap, length_seq.
  - intros i l c p. rewrite list_lookup_fmap_Some. setoid_rewrite lookup_seq. split.
    + intros (x & [= -> -> ->] & -> & Hi). simpl. split_and!; [done..|]. lia.
    + intros (-> & -> & -> & Hi). exists i. split; [done|]. split; [done|]. lia.
  - apply Forall_fmap, Forall_seq. intros i Hi. simpl. lia.
  - rewrite <-list_fmap_compose. apply NoDup_fmap_2_strong; [|apply NoDup_seq].
    simpl. intros. lia.
Qed.

Example port_mapping_expand_witness :
  port_mapping_parse_string "8000-8002:9000-9002/udp" =
    Ok (mk_port_mapping (mk_port_range 8000 8002) (mk_port_range 9000 9002) "udp") ∧
  length (port_mapping_expand
    (mk_port_mapping (mk_port_range 8000 8002) (mk_port_range 9000 9002) "udp")) = 3.
Proof.
  split; [vm_compute; reflexivity|].
  refine (proj1 (port_mapping_expand_spec "8000-8002:9000-9002/udp" _ _)).
  vm_compute; reflexivity.
Defined.

(** Writing a port range and reading it back gives the range, for every range
    the loader can hold, and what the loader reads is always such a range. *)
Theorem port_range_roundtrip r :
  (port_range_wf r → port_range_deserialize (port_range_serialize r) = Ok r) ∧
  ∀ v, port_range_deserialize v = Ok r → port_range_wf r.
Proof.
  split.
  - intros Hr. pose proof (port_range_parse_show r Hr) as H.
    unfold port_range_serialize, port_range_show in *.
    by destruct (from r =? to r)%N.
  - intros []; apply port_range_parse_wf.
Qed.

(** A size is its count times its unit, or refused when that exceeds an
    [i64]: the multiplication never overflows.  Every size accepted is in
    range. *)
Theorem parse_byte_size_spec :
  (∀ n (u : string) m, (u, m) ∈ size_units →
    parse_byte_size (show_N n +:+ u) =
      if (Z.of_N n * m <=? i64_max)%Z
      then Ok (Z.of_N n * m)%Z else Err (InvalidSize (show_N n +:+ u))) ∧
  (∀ value z, parse_byte_size value = Ok z → (0 ≤ z ≤ i64_max)%Z).
Proof.
  split; [|apply parse_byte_size_bound]. intros n u m Hu.
  rewrite (parse_byte_size_show n u m Hu).
  assert (1 ≤ m)%Z as Hm.
  { unfold size_units in Hu. assert (Forall (λ '(_, m), (1 <=? m)%Z = true) size_units) as H
      by (repeat constructor). rewrite Forall_forall in H. apply H in Hu. lia. }
  destruct (Z.leb_spec (Z.of_N n) i64_max), (Z.leb_spec (Z.of_N n * m) i64_max);
    simpl; (done || nia).
Qed.

(** A device or compact volume is accepted exactly when it is two or three
    non-empty segments without colons, joined by colons, and is read as those
    segments. *)
Theorem parse_mount_parts_spec value l c o :
  parse_mount_parts value = Ok (l, c, o) ↔
  value = mount_text l c o ∧ mount_segment l ∧ mount_segment c ∧
  match o with Some o => mount_segment o | None => True end.
Proof.
  split; [apply parse_mount_parts_Ok|]. intros (-> & ? & ? & ?). by apply parse_mount_parts_text.
Qed.

(** The compact forms of values.  A port range written down is read back,
    for every range the loader can hold, and what the loader reads is always
    such a range; a device or compact volume is accepted exactly when it is two
    or three non-empty segments without colons, joined by colons, and is read as
    those segments. *)
Theorem compact_forms_spec :
  (∀ r, port_range_wf r → port_range_deserialize (port_range_serialize r) = Ok r) ∧
  (∀ r v, port_range_deserialize v = Ok r → port_range_wf r) ∧
  ∀ value l c o, parse_mount_parts value = Ok (l, c, o) ↔
    value = mount_text l c o ∧ mount_segment l ∧ mount_segment c ∧
    match o with Some o => mount_segment o | None => True end.
Proof.
  split; [intros r; apply (port_range_roundtrip r)|]. split; [intros r; apply (port_range_roundtrip r)|].
  apply parse_mount_parts_spec.
Qed.

Example compact_forms_spec_witness :
  port_range_wf (mk_port_range 80 443) ∧
  port_range_deserialize (port_range_serialize (mk_port_range 80 443)) = Ok (mk_port_range 80 443).
Proof.
  assert (port_range_wf (mk_port_range 80 443)) as H by (split; [split|]; vm_compute; discriminate).
  split; [exact H|]. exact (proj1 compact_forms_spec (mk_port_range 80 443) H).
Defined.

(** C17: What the loader makes of the values a container is written with.  A port
    mapping it accepts publishes each port of its local range to the port at
    the same position of its container range, all between 1 and 65535, with no
    wrap-around of the 16-bit sums; a port range written down is read back; a
    device or compact volume is accepted exactly as two or three non-empty
    segments without colons; a size is its count times its unit, or refused
    when that exceeds an [i64]. *)
Theorem accepted_values_spec :
  (∀ value m, port_mapping_parse_string value = Ok m →
    length (port_mapping_expand m) = N.to_nat (port_range_size (pm_local m)) ∧
    (∀ i l c p, port_mapping_expand m !! i = Some (l, c, p) ↔
      l = (from (pm_local m) + N.of_nat i)%N ∧ c = (from (pm_container m) + N.of_nat i)%N ∧
      p = pm_protocol m ∧ (l ≤ to (pm_local m))%N) ∧
    Forall (λ '(l, c, _), 1 ≤ l ≤ u16_max ∧ 1 ≤ c ≤ u16_max)%N (port_mapping_expand m)) ∧
  (∀ r, port_range_wf r → port_range_deserialize (port_range_serialize r) = Ok r) ∧
  (∀ value l c o, parse_mount_parts value = Ok (l, c, o) ↔
    value = mount_text l c o ∧ mount_segment l ∧ mount_segment c ∧
    match o with Some o => mount_segment o | None => True end) ∧
  (∀ n (u : string) m, (u, m) ∈ size_units →
    parse_byte_size (show_N n +:+ u) =
      if (Z.of_N n * m <=? i64_max)%Z
      then Ok (Z.of_N n * m)%Z else Err (InvalidSize (show_N n +:+ u))) ∧
  (∀ value z, parse_byte_size value = Ok z → (0 ≤ z ≤ i64_max)%Z).
Proof.
  split; [intros value m (? & ? & ? & _)%port_mapping_expand_spec; eauto|].
  split; [apply compact_forms_spec|]. split; [apply compact_forms_spec|]. apply parse_byte_size_spec.
Qed.
