(* ===== verification/Config.v ===== *)
(** * Config: the data of [ratect-core/src/config.rs]

    The merged configuration as the loader holds it and the engine reads it:
    [Config], [Container], [Task] and the types of their fields that
    [Values] does not define.  A [HashMap] is a [gmap]; an [IndexMap], whose
    order shows, is an association list in insertion order.  Durations are
    nanoseconds.  The fields of a record carry its initial, since several
    records of the source share a field name. *)

From S2P Require Import Prelude Text Values.
From stdpp Require Import options.

(** ** Insertion-ordered maps

    [IndexMap] of the [indexmap] crate: the association list in insertion
    order, with the look-up and the insertion that crate documents. *)

Notation index_map V := (list (string * V)).

Fixpoint im_get {V} (m : index_map V) (k : string) : option V :=
  match m with
  | [] => None
  | (k', v) :: m => if decide (k' = k) then Some v else im_get m k
  end.

Fixpoint im_insert {V} (k : string) (v : V) (m : index_map V) : index_map V :=
  match m with
  | [] => [(k, v)]
  | (k', v') :: m => if decide (k' = k) then (k, v) :: m else (k', v') :: im_insert k v m
  end.

Lemma im_get_Some_elem {V} (m : index_map V) k v : im_get m k = Some v → (k, v) ∈ m.
Proof.
  induction m as [|[k' v'] m IH]; simpl; [done|].
  destruct (decide _) as [->|]; [intros [= ->]; constructor|]. intros H%IH. by constructor.
Qed.

Lemma im_get_is_Some {V} (m : index_map V) k : is_Some (im_get m k) ↔ k ∈ m.*1.
Proof.
  induction m as [|[k' v'] m IH]; simpl.
  - rewrite is_Some_alt. set_solver.
  - destruct (decide _) as [->|]; [split; [set_solver|eauto]|].
    rewrite IH. set_solver.
Qed.

Lemma im_get_None {V} (m : index_map V) k : im_get m k = None ↔ k ∉ m.*1.
Proof. rewrite <-im_get_is_Some. by rewrite eq_None_not_Some. Qed.

Lemma im_get_elem {V} (m : index_map V) k v :
  NoDup m.*1 → (k, v) ∈ m → im_get m k = Some v.
Proof.
  induction m as [|[k' v'] m IH]; simpl; [set_solver|].
  intros [Hk' Hm]%NoDup_cons. intros [[= -> ->]|H]%elem_of_cons.
  - by destruct (decide _).
  - destruct (decide _) as [->|]; [|by apply IH]. destruct Hk'.
    apply list_elem_of_fmap. by exists (k, v).
Qed.

Lemma im_get_insert {V} (m : index_map V) k v k' :
  im_get (im_insert k v m) k' = if decide (k = k') then Some v else im_get m k'.
Proof.
  induction m as [|[k0 v0] m IH]; simpl; [done|].
  destruct (decide (k0 = k)) as [->|]; simpl; [by destruct (decide _)|].
  rewrite IH. by destruct (decide (k0 = k')), (decide (k = k')); simplify_eq.
Qed.

Lemma im_insert_keys {V} (m : index_map V) k v :
  (im_insert k v m).*1 = if bool_decide (k ∈ m.*1) then m.*1 else m.*1 ++ [k].
Proof.
  induction m as [|[k0 v0] m IH]; csimpl; [done|].
  destruct (decide (k0 = k)) as [->|Hk]; csimpl.
  - rewrite bool_decide_eq_true_2; [done|constructor].
  - rewrite IH. rewrite (bool_decide_ext (k ∈ k0 :: m.*1) (k ∈ m.*1)) by set_solver.
    by destruct (bool_decide _).
Qed.

Lemma im_insert_NoDup {V} (m : index_map V) k v : NoDup m.*1 → NoDup (im_insert k v m).*1.
Proof.
  intros H. rewrite im_insert_keys. case_bool_decide; [done|].
  apply NoDup_app. split; [done|]. split; [set_solver|apply NoDup_singleton].
Qed.

(** ** Capabilities *)

Inductive Capability :=
| AuditControl | AuditRead | AuditWrite | BlockSuspend | Bpf | CheckpointRestore
| Chown | DacOverride | DacReadSearch | Fowner | Fsetid | IpcLock
| IpcOwner | Kill | Lease | LinuxImmutable | MacAdmin | MacOverride
| Mknod | NetAdmin | NetBindService | NetBroadcast | NetRaw | Perfmon
| Setgid | Setfcap | Setpcap | Setuid | SysAdmin | SysBoot
| SysChroot | SysModule | SysNice | SysPacct | SysPtrace | SysRawio
| SysResource | SysTime | SysTtyConfig | Syslog | WakeAlarm | AllCapabilities.

Definition capability_as_str (c : Capability) : string :=
  match c with
  | AuditControl => "AUDIT_CONTROL"
  | AuditRead => "AUDIT_READ"
  | AuditWrite => "AUDIT_WRITE"
  | BlockSuspend => "BLOCK_SUSPEND"
  | Bpf => "BPF"
  | CheckpointRestore => "CHECKPOINT_RESTORE"
  | Chown => "CHOWN"
  | DacOverride => "DAC_OVERRIDE"
  | DacReadSearch => "DAC_READ_SEARCH"
  | Fowner => "FOWNER"
  | Fsetid => "FSETID"
  | IpcLock => "IPC_LOCK"
  | IpcOwner => "IPC_OWNER"
  | Kill => "KILL"
  | Lease => "LEASE"
  | LinuxImmutable => "LINUX_IMMUTABLE"
  | MacAdmin => "MAC_ADMIN"
  | MacOverride => "MAC_OVERRIDE"
  | Mknod => "MKNOD"
  | NetAdmin => "NET_ADMIN"
  | NetBindService => "NET_BIND_SERVICE"
  | NetBroadcast => "NET_BROADCAST"
  | NetRaw => "NET_RAW"
  | Perfmon => "PERFMON"
  | Setgid => "SETGID"
  | Setfcap => "SETFCAP"
  | Setpcap => "SETPCAP"
  | Setuid => "SETUID"
  | SysAdmin => "SYS_ADMIN"
  | SysBoot => "SYS_BOOT"
  | SysChroot => "SYS_CHROOT"
  | SysModule => "SYS_MODULE"
  | SysNice => "SYS_NICE"
  | SysPacct => "SYS_PACCT"
  | SysPtrace => "SYS_PTRACE"
  | SysRawio => "SYS_RAWIO"
  | SysResource => "SYS_RESOURCE"
  | SysTime => "SYS_TIME"
  | SysTtyConfig => "SYS_TTY_CONFIG"
  | Syslog => "SYSLOG"
  | WakeAlarm => "WAKE_ALARM"
  | AllCapabilities => "ALL"
  end.

Definition all_capabilities : list Capability :=
  [ AuditControl; AuditRead; AuditWrite; BlockSuspend; Bpf; CheckpointRestore; Chown;
    DacOverride; DacReadSearch; Fowner; Fsetid; IpcLock; IpcOwner; Kill; Lease;
    LinuxImmutable; MacAdmin; MacOverride; Mknod; NetAdmin; NetBindService;
    NetBroadcast; NetRaw; Perfmon; Setgid; Setfcap; Setpcap; Setuid; SysAdmin; SysBoot;
    SysChroot; SysModule; SysNice; SysPacct; SysPtrace; SysRawio; SysResource; SysTime;
    SysTtyConfig; Syslog; WakeAlarm; AllCapabilities ].

(** What the derived [Deserialize] reads: the constructor of that name. *)
Definition capability_from_str (s : string) : option Capability :=
  snd <$> list_find (λ c, capability_as_str c = s) all_capabilities.

Lemma capability_roundtrip c : capability_from_str (capability_as_str c) = Some c.
Proof. by destruct c. Qed.

#[global] Instance capability_as_str_inj : Inj (=) (=) capability_as_str.
Proof. intros a b E%(f_equal capability_from_str). rewrite !capability_roundtrip in E. congruence. Qed.

#[global] Instance Capability_eq_dec : EqDecision Capability.
Proof.
  intros a b. destruct (decide (capability_as_str a = capability_as_str b)) as [E|E].
  - left. by apply (inj capability_as_str).
  - right. by intros ->.
Defined.

#[global] Instance Capability_countable : Countable Capability :=
  inj_countable capability_as_str capability_from_str capability_roundtrip.

(** ** The types of the other fields *)

Inductive ImagePullPolicy := IfNotPresent | Always.
#[global] Instance ImagePullPolicy_eq_dec : EqDecision ImagePullPolicy.
Proof. solve_decision. Defined.

Inductive BuildSecret :=
| EnvironmentSecret (name : string)
| PathSecret (path : string).

Record SshAgent := mk_ssh_agent {
  sa_id : string;
  sa_paths : list string;
}.

Record HealthCheckConfig := mk_health_check {
  hc_command : option string;
  hc_interval : option N;
  hc_retries : option N;
  hc_start_period : option N;
  hc_timeout : option N;
}.

Record SetupCommand := mk_setup_command {
  sc_command : string;
  sc_working_directory : option string;
  sc_run_in : option string;
}.

Record RunAsCurrentUser := mk_run_as {
  ru_enabled : bool;
  ru_home_directory : option string;
}.

Record AdditionalUser := mk_additional_user {
  au_name : string;
  au_uid : N;
  au_gid : N;
}.
#[global] Instance AdditionalUser_eq_dec : EqDecision AdditionalUser.
Proof. solve_decision. Defined.

Record Identity := mk_identity {
  id_home : string;
  id_additional_users : list AdditionalUser;
}.

(** ** Containers, tasks and the whole configuration *)

Record Container := mk_container {
  c_extends : option string;
  c_image : option string;
  c_image_pull_policy : option ImagePullPolicy;
  c_build_directory : option string;
  c_build_directory_in_bundle : option string;
  c_build_args : option (gmap string string);
  c_dockerfile : option string;
  c_build_target : option string;
  c_build_secrets : option (gmap string BuildSecret);
  c_build_ssh : option (list SshAgent);
  c_volumes : option (list VolumeMount);
  c_dependencies : option (list string);
  c_environment : option (gmap string string);
  c_run_as_current_user : option RunAsCurrentUser;
  c_additional_hostnames : option (list string);
  c_additional_hosts : option (gmap string string);
  c_ports : option (list PortMapping);
  c_health_check : option HealthCheckConfig;
  c_setup_commands : option (list SetupCommand);
  c_run_to_completion : option bool;
  c_external_health_check : option ExternalHealthCheck;
  c_reports_readiness_for : option string;
  c_working_directory : option string;
  c_command : option string;
  c_entrypoint : option string;
  c_labels : option (gmap string string);
  c_capabilities_to_add : option (gset Capability);
  c_capabilities_to_drop : option (gset Capability);
  c_privileged : option bool;
  c_shm_size : option Z;
  c_devices : option (list DeviceMapping);
  c_enable_init_process : option bool;
  c_log_driver : option string;
  c_log_options : option (gmap string string);
  c_stop_signal : option string;
  c_stop_grace_period : option N;
  c_ulimits : option (list Ulimit);
  c_dns : option (list string);
  c_dns_search : option (list string);
  c_dns_options : option (list string);
  c_network_mode : option NetworkMode;
  c_user : option NameOrId;
  c_group : option NameOrId;
  c_groups : option (list NameOrId);
  c_identity : option Identity;
}.

(** [Container::default()]: nothing set. *)
Definition container_default : Container :=
  mk_container
    None None None None None None None None None
    None None None None None None None None None
    None None None None None None None None None
    None None None None None None None None None
    None None None None None None None None None.

Definition image_is_expression (batect_shaped : bool) : bool := negb batect_shaped.

Record TaskRun := mk_task_run {
  r_container : string;
  r_command : option string;
  r_environment : option (gmap string string);
  r_ports : option (list PortMapping);
  r_working_directory : option string;
  r_entrypoint : option string;
}.

Record TaskContainerCustomisation := mk_customisation {
  cu_environment : option (gmap string string);
  cu_ports : option (list PortMapping);
  cu_working_directory : option string;
}.

Record Task := mk_task {
  t_run : option TaskRun;
  t_prerequisites : option (list string);
  t_dependencies : option (list string);
  t_description : option string;
  t_group : option string;
  t_customise : option (index_map TaskContainerCustomisation);
}.

Record ConfigVariable := mk_config_variable {
  cfv_default : option string;
  cfv_description : option string;
}.

Record Config := mk_config {
  cfg_project_name : string;
  cfg_containers : index_map Container;
  cfg_tasks : index_map Task;
  cfg_config_variables : option (index_map ConfigVariable);
  cfg_forbid_telemetry : option bool;
}.
