(* ===== verification/DependencyGraph.v ===== *)
(** * DependencyGraph: which containers a task needs, and in which order

    [build_dependency_graph], [declared_dependencies], [is_narrated] and
    [dependents_to_stop_first] of [ratect-core/src/engine.rs], and
    [container_names_in_task] of [config.rs].  A recursion of the source that
    no argument bounds takes fuel; the specifications show that the fuel each
    entry point passes is never exhausted, whatever the configuration. *)

From S2P Require Import Prelude Text Collections Values Config.
From stdpp Require Import options.

Notation graph := (gmap string (list string)).

Inductive graph_error :=
| Circular (name : string)
| Undeclared (name : string)
| OutOfFuel.
#[global] Instance graph_error_eq_dec : EqDecision graph_error.
Proof. solve_decision. Defined.

(** ** The code *)

(** The sorted, duplicate-free adjacency list [visit] stores. *)
Definition all_dependencies (c : Container) (extra : option (list string)) : list string :=
  sort_dedup (default [] (c_dependencies c) ++ default [] extra).

Fixpoint visit (fuel : nat) (containers : gmap string Container) (name : string)
    (extra : option (list string)) (path : list string) (g : graph)
    : result graph graph_error :=
  match fuel with
  | O => Err OutOfFuel
  | S fuel =>
      if decide (is_Some (g !! name)) then Ok g
      else if decide (name ∈ path) then Err (Circular name)
      else
        match containers !! name with
        | None => Err (Undeclared name)
        | Some c =>
            let deps := all_dependencies c extra in
            let? g' := try_fold (λ g dependency,
                visit fuel containers dependency None (path ++ [name]) g) deps g in
            Ok (<[name := deps]> g')
        end
  end.

Definition build_dependency_graph (containers : gmap string Container) (root : string)
    (task_dependencies : option (list string)) : result graph graph_error :=
  visit (S (size containers)) containers root task_dependencies [] ∅.

(** Each name once, at its first position; the task's own first. *)
Definition declared_dependencies (c : Container) (task : option (list string)) : list string :=
  foldl (λ declared name, if decide (name ∈ declared) then declared else declared ++ [name])
    [] (default [] task ++ default [] (c_dependencies c)).

Definition is_narrated (containers : gmap string Container) (name : string) : bool :=
  match containers !! name with
  | Some c => bool_decide (c_reports_readiness_for c = None)
  | None => true
  end.

Definition successors (g : graph) (name : string) : list string := default [] (g !! name).

Fixpoint reach (fuel : nat) (g : graph) (name : string) (seen : gset string)
    : result (gset string) graph_error :=
  match fuel with
  | O => Err OutOfFuel
  | S fuel =>
      try_fold (λ (seen : gset string) dependency,
          if decide (dependency ∈ seen) then Ok seen
          else reach fuel g dependency ({[dependency]} ∪ seen))
        (successors g name) seen
  end.

(** Every name an adjacency list holds: bounds [reach]'s recursion. *)
Definition mentioned (g : graph) : gset string :=
  list_to_set (concat (map_to_list g).*2).

Definition dependents_to_stop_first (g : graph) (created : list string)
    : result (gmap string (gset string)) graph_error :=
  let start : gmap string (gset string) := list_to_map ((λ name, (name, ∅)) <$> created) in
  try_fold (λ (dependents : gmap string (gset string)) dependent,
      let? dependencies := reach (S (size (mentioned g))) g dependent ∅ in
      Ok (map_imap (λ name waiting,
            Some (if decide (name ∈ dependencies) then {[dependent]} ∪ waiting else waiting))
          dependents))
    created start.

(** [config.rs]: the stack is a [Vec], whose last element is popped first. *)
Fixpoint names_loop (fuel : nat) (containers : gmap string Container) (names : gset string)
    (stack : list string) : option (gset string) :=
  match fuel with
  | O => None
  | S fuel =>
      match last stack with
      | None => Some names
      | Some name =>
          let stack := take (pred (length stack)) stack in
          if decide (name ∈ names) then names_loop fuel containers names stack
          else
            names_loop fuel containers ({[name]} ∪ names)
              (stack ++ default [] (containers !! name ≫= c_dependencies))
      end
  end.

Definition dependency_count (containers : gmap string Container) : nat :=
  map_fold (λ _ c n, length (default [] (c_dependencies c)) + n) 0 containers.

Definition container_names_in_task (containers : gmap string Container) (root : string)
    (task_dependencies : option (list string)) : option (gset string) :=
  let stack := root :: default [] task_dependencies in
  names_loop (S (length stack + dependency_count containers)) containers ∅ stack.

(** ** The relation the graph is of *)

Section graph_spec.
Context (containers : gmap string Container) (root : string) (extra : option (list string)).

(** The task's dependencies count as its own container's. *)
Definition extra_of (name : string) : option (list string) :=
  if decide (name = root) then extra else None.

(** [y] is a direct dependency of [x]. *)
Definition edge (x y : string) : Prop :=
  ∃ c, containers !! x = Some c ∧ y ∈ all_dependencies c (extra_of x).

Lemma edge_spec x y :
  edge x y ↔ ∃ c, containers !! x = Some c ∧
    (y ∈ default [] (c_dependencies c) ∨ x = root ∧ y ∈ default [] extra).
Proof.
  unfold edge, all_dependencies, extra_of. setoid_rewrite elem_of_sort_dedup.
  setoid_rewrite elem_of_app. by destruct (decide _); set_solver.
Qed.

(** What [visit] keeps true of the graph it builds: an entry is its
    container's adjacency list, is complete, and no chain descends from it
    for ever. *)
Definition graph_inv (g : graph) : Prop :=
  ∀ x ds, g !! x = Some ds →
    (∃ c, containers !! x = Some c ∧ ds = all_dependencies c (extra_of x)) ∧
    (∀ y, y ∈ ds → is_Some (g !! y)) ∧ rtc edge root x ∧ Acc (λ y x, edge x y) x.

Definition graph_problem (e : graph_error) : Prop :=
  match e with
  | Circular n => rtc edge root n ∧ tc edge n n
  | Undeclared n => rtc edge root n ∧ containers !! n = None
  | OutOfFuel => False
  end.

Lemma try_fold_mono {A} (f : graph → A → result graph graph_error) l g g' :
  (∀ g g' a, f g a = Ok g' → ∀ x, is_Some (g !! x) → is_Some (g' !! x)) →
  try_fold f l g = Ok g' → ∀ x, is_Some (g !! x) → is_Some (g' !! x).
Proof.
  intros Hf. revert g. induction l as [|a l IH]; simpl; intros g; [by intros [= <-]|].
  intros H x Hx. apply result_bind_Ok in H as (g1 & H1 & H2). eauto.
Qed.

Lemma visit_mono fuel name ex path g g' :
  visit fuel containers name ex path g = Ok g' → ∀ x, is_Some (g !! x) → is_Some (g' !! x).
Proof.
  revert name ex path g g'. induction fuel as [|fuel IH]; simpl; [done|].
  intros name ex path g g' H x Hx. case_decide; [by simplify_eq|]. case_decide; [done|].
  destruct (containers !! name) as [c|]; [|done].
  apply result_bind_Ok in H as (g1 & Hloop & [= <-]).
  rewrite lookup_insert_is_Some. destruct (decide (name = x)); [by left|]. right.
  split; [done|]. eapply try_fold_mono; [|exact Hloop|exact Hx].
  intros g2 g3 a Ha y Hy. eapply IH; [exact Ha|exact Hy].
Qed.

Lemma graph_inv_insert g name c :
  containers !! name = Some c → rtc edge root name → graph_inv g →
  (∀ y, y ∈ all_dependencies c (extra_of name) → is_Some (g !! y)) →
  graph_inv (<[name := all_dependencies c (extra_of name)]> g).
Proof.
  intros Hc Hr Hg Hy x ds [[<- <-]|[Hne Hx]]%lookup_insert_Some.
  - split; [eauto|]. split; [|split; [done|]].
    + intros y H. rewrite lookup_insert_is_Some'. auto.
    + constructor. intros y (c' & Hc' & Hin). simplify_eq.
      destruct (Hy y Hin) as [ds' Hds]. by apply Hg in Hds as (_ & _ & _ & ?).
  - destruct (Hg x ds Hx) as (Hent & Hds & Hrest). split; [done|]. split; [|done].
    intros y ?. rewrite lookup_insert_is_Some'. auto.
Qed.

Lemma path_fits path :
  NoDup path → (∀ a, a ∈ path → is_Some (containers !! a)) → length path ≤ size containers.
Proof.
  intros Hn Hp. rewrite <-size_dom, <-(size_list_to_set (C := gset string) path) by done.
  apply subseteq_size. intros a Ha. apply elem_of_dom, Hp. by rewrite elem_of_list_to_set in Ha.
Qed.

Lemma visit_spec fuel name ex path g :
  NoDup path →
  (∀ a, a ∈ path → is_Some (containers !! a) ∧ tc edge a name) →
  rtc edge root name → (name = root ∨ root ∈ path) →
  (name ∉ path → ex = extra_of name) →
  size containers < fuel + length path → graph_inv g →
  match visit fuel containers name ex path g with
  | Ok g' => graph_inv g' ∧ is_Some (g' !! name)
  | Err e => graph_problem e
  end.
Proof.
  revert name ex path g. induction fuel as [|fuel IH];
    intros name ex path g Hnd Hpath Hreach Hroot Hex Hfuel Hg; simpl.
  { pose proof (path_fits path Hnd (λ a Ha, proj1 (Hpath a Ha))). lia. }
  case_decide as Hdone; [done|].
  case_decide as Hin; [split; [done|]; by apply Hpath|].
  destruct (containers !! name) as [c|] eqn:Hc; [|done].
  rewrite (Hex Hin). set (deps := all_dependencies c (extra_of name)).
  assert (∀ d, d ∈ deps → edge name d) as Hedge by (intros; by exists c).
  pose proof (try_fold_ind (λ g d, visit fuel containers d None (path ++ [name]) g)
    graph_inv (λ d g, is_Some (g !! d)) graph_problem deps g) as Hloop.
  ospecialize* Hloop; [| |exact Hg|].
  - intros b b' x y _ Hb _ H. eapply visit_mono; [exact H|exact Hb].
  - intros b d Hd Hb. apply IH; clear IH; [..|done].
    + apply NoDup_app. split; [done|]. split; [set_solver|apply NoDup_singleton].
    + intros a [Ha|Ha]%elem_of_app.
      * destruct (Hpath a Ha). split; [done|]. eapply tc_r; [done|by apply Hedge].
      * apply list_elem_of_singleton in Ha as ->. rewrite Hc. split; [done|].
        by apply tc_once, Hedge.
    + eapply rtc_r; [exact Hreach|by apply Hedge].
    + right. rewrite elem_of_app, list_elem_of_singleton. naive_solver.
    + intros Hnot. unfold extra_of. rewrite decide_False; [done|]. intros ->.
      apply Hnot. rewrite elem_of_app, list_elem_of_singleton. naive_solver.
    + rewrite length_app. simpl. lia.
  - destruct (try_fold _ deps g) as [g'|e]; simpl; [|done]. destruct Hloop as [Hg' Hall].
    split; [by apply graph_inv_insert|]. rewrite lookup_insert_is_Some'. auto.
Qed.

Lemma build_spec :
  match build_dependency_graph containers root extra with
  | Ok g => graph_inv g ∧ is_Some (g !! root)
  | Err e => graph_problem e
  end.
Proof.
  unfold build_dependency_graph. apply visit_spec; [constructor|set_solver|done|by left| | |].
  - intros _. unfold extra_of. by rewrite decide_True.
  - simpl. lia.
  - intros x ds. by rewrite lookup_empty.
Qed.

Lemma graph_inv_reachable g x :
  graph_inv g → is_Some (g !! root) → rtc edge root x → is_Some (g !! x).
Proof.
  intros Hg Hroot Hx. revert x Hx. apply rtc_ind_r; [done|].
  intros y z Hy (c & Hc & Hz) IH. destruct IH as [ds Hds]. destruct (Hg y ds Hds) as ((c' & Hc' & ->) & Hin & _).
  simplify_eq. by apply Hin.
Qed.

Lemma Acc_no_cycle x : Acc (λ y x, edge x y) x → ¬ tc edge x x.
Proof.
  induction 1 as [x _ IH]. intros Hx. inversion Hx as [? ? Hxx|? y ? Hxy Hyx]; subst.
  - by apply (IH x).
  - apply (IH y Hxy). by eapply tc_r.
Qed.
End graph_spec.

(** ** The stack walk of [container_names_in_task] *)

Section names_spec.
Context (containers : gmap string Container).

Definition declared (x : string) : list string := default [] (containers !! x ≫= c_dependencies).
Definition declares (x y : string) : Prop := y ∈ declared x.

(** What is still to be pushed: the dependencies of the names not met yet. *)
Definition unmet (names : gset string) : nat :=
  map_fold (λ _ c n, length (default [] (c_dependencies c)) + n) 0
    (filter (λ p, p.1 ∉ names) containers).

Lemma unmet_empty : unmet ∅ = dependency_count containers.
Proof.
  unfold unmet, dependency_count. f_equal. apply map_filter_id. intros. simpl. set_solver.
Qed.

Lemma unmet_insert names x :
  x ∉ names → unmet names = length (declared x) + unmet ({[x]} ∪ names).
Proof.
  intros Hx. unfold unmet, declared. destruct (containers !! x) as [c|] eqn:Hc; simpl.
  - assert (filter (λ p, p.1 ∉ names) containers =
      <[x := c]> (filter (λ p, p.1 ∉ {[x]} ∪ names) containers)) as ->.
    { apply map_eq. intros y. destruct (decide (x = y)) as [<-|Hne].
      - rewrite lookup_insert_eq. by apply map_lookup_filter_Some.
      - rewrite lookup_insert_ne by done. apply option_eq. intros c'.
        rewrite !map_lookup_filter_Some. simpl. set_solver. }
    rewrite map_fold_insert_L; [done| |].
    + intros. lia.
    + apply map_lookup_filter_None. right. intros c' _. simpl. set_solver.
  - simpl. f_equal. apply map_filter_ext. intros y c' Hy. simpl.
    assert (x ≠ y) by congruence. set_solver.
Qed.

Lemma declares_edge root extra x y : declares x y → edge containers root extra x y.
Proof.
  unfold declares, declared. intros Hy. apply edge_spec.
  destruct (containers !! x) as [c|]; simpl in Hy; [eauto|set_solver].
Qed.

Lemma names_loop_spec (reachable : string → Prop) fuel names stack :
  length stack + unmet names < fuel →
  (∀ x, x ∈ stack → reachable x) → (∀ x, x ∈ names → reachable x) →
  (∀ x y, reachable x → declares x y → reachable y) →
  (∀ x y, x ∈ names → declares x y → y ∈ names ∨ y ∈ stack) →
  ∃ names', names_loop fuel containers names stack = Some names' ∧
    (∀ x, x ∈ names' → reachable x) ∧
    (∀ x, x ∈ names ∨ x ∈ stack → x ∈ names') ∧
    (∀ x y, x ∈ names' → declares x y → y ∈ names').
Proof.
  revert names stack. induction fuel as [|fuel IH]; intros names stack Hf Hs Hn Hstep Hcl;
    [lia|]. simpl. induction stack as [|x stack _] using rev_ind.
  - simpl. exists names. split; [done|]. split; [done|]. set_solver.
  - rewrite last_snoc, length_app. simpl. replace (pred (length stack + 1)) with (length stack) by lia.
    rewrite take_app_length. rewrite length_app in Hf. simpl in Hf. case_decide as Hx.
    + destruct (IH names stack) as (names' & -> & ? & ? & ?); [lia|set_solver..|].
      exists names'. split; [done|]. split; [done|]. split; [|done]. set_solver.
    + rewrite (unmet_insert names x Hx) in Hf. unfold declared in *.
      destruct (IH ({[x]} ∪ names) (stack ++ default [] (containers !! x ≫= c_dependencies)))
        as (names' & -> & ? & Hin & ?); [| | | done | |].
      * rewrite length_app. lia.
      * intros y [?|?]%elem_of_app; [set_solver|]. apply (Hstep x); [set_solver|done].
      * set_solver.
      * intros y z [->%elem_of_singleton|Hy]%elem_of_union Hz;
          [|destruct (Hcl y z Hy Hz)]; set_solver.
      * exists names'. split; [done|]. split; [done|]. split; [|done].
        intros y Hy. apply Hin. set_solver.
Qed.
End names_spec.

(** ** The walk of [dependents_to_stop_first] *)

Section reach_spec.
Context (g : graph).

Definition succ (x y : string) : Prop := y ∈ successors g x.

Lemma succ_mentioned x y : succ x y → y ∈ mentioned g.
Proof.
  unfold succ, successors, mentioned. destruct (g !! x) as [ds|] eqn:Hx; simpl; [|set_solver].
  intros Hy. apply elem_of_list_to_set, list_elem_of_In, in_concat. exists ds.
  rewrite <-!list_elem_of_In. split; [|done]. apply list_elem_of_fmap.
  exists (x, ds). by rewrite elem_of_map_to_list.
Qed.

(** What a walk from [name] adds to [seen]. *)
Definition reach_post (name : string) (seen r : gset string) : Prop :=
  seen ⊆ r ∧ ∀ y, y ∈ r → y ∉ seen → tc succ name y ∧ ∀ z, succ y z → z ∈ r.

Lemma reach_spec fuel name seen :
  size (mentioned g ∖ seen) < fuel →
  ∃ r, reach fuel g name seen = Ok r ∧ reach_post name seen r ∧ ∀ y, succ name y → y ∈ r.
Proof.
  revert name seen. induction fuel as [|fuel IH]; intros name seen Hf; [lia|]. simpl.
  set (f := λ (seen : gset string) dependency, _).
  assert (∀ r d, seen ⊆ r → succ name d → d ∉ r →
    ∃ r', reach fuel g d ({[d]} ∪ r) = Ok r' ∧ reach_post d ({[d]} ∪ r) r' ∧
      ∀ y, succ d y → y ∈ r') as Hstep.
  { intros r d Hr Hd Hdr. apply IH. apply Nat.lt_le_trans with (size (mentioned g ∖ seen)); [|lia].
    apply subset_size. apply succ_mentioned in Hd. set_solver. }
  assert (match try_fold f (successors g name) seen with
    | Ok r => reach_post name seen r ∧ ∀ y, y ∈ successors g name → y ∈ r
    | Err _ => False end) as Hloop.
  { apply (try_fold_ind f _ (λ y r, y ∈ r) (λ _, False)).
    - unfold f. intros r r' x d Hd Hx [Hr _]. case_decide as Hdr; [by intros [= <-]|].
      destruct (Hstep r d Hr Hd Hdr) as (r1 & -> & [Hr1 _] & _). intros [= <-]. set_solver.
    - intros r d Hd [Hr Hnew]. unfold f. case_decide as Hdr; [done|].
      destruct (Hstep r d Hr Hd Hdr) as (r' & -> & [Hr' Hnew'] & Hsucc).
      split; [|set_solver]. split; [set_solver|]. intros y Hy Hys.
      destruct (decide (y ∈ r)) as [Hyr|Hyr].
      + destruct (Hnew y Hyr Hys) as [? Hz]. split; [done|]. intros z ?%Hz. set_solver.
      + destruct (decide (y = d)) as [->|Hyd]; [split; [by apply tc_once|done]|].
        destruct (Hnew' y Hy) as [Htc ?]; [set_solver|]. split; [|done].
        eapply tc_l; [exact Hd|exact Htc].
    - split; [done|]. set_solver. }
  destruct (try_fold f _ _) as [r|]; [|done]. destruct Hloop. by exists r.
Qed.

(** From the start nothing is seen, and the walk finds exactly what is
    reachable by one edge or more. *)
Lemma reach_all name :
  ∃ r, reach (S (size (mentioned g))) g name ∅ = Ok r ∧ ∀ y, y ∈ r ↔ tc succ name y.
Proof.
  destruct (reach_spec (S (size (mentioned g))) name ∅) as (r & -> & [_ Hr] & Hsucc).
  { rewrite difference_empty_L. lia. }
  exists r. split; [done|]. intros y. split.
  - intros Hy. by apply (Hr y Hy).
  - assert (∀ y z, y ∈ r → succ y z → z ∈ r) as Hcl.
    { intros y' z Hy'. by apply (Hr y'); [|apply not_elem_of_empty]. }
    clear Hr. induction 1 as [x y Hxy|x y z Hxy Hyz IH]; [by apply Hsucc|].
    apply IH. intros w. by apply Hcl, Hsucc.
Qed.
End reach_spec.

#[global] Arguments reach : simpl never.

Lemma dependents_loop g created (m : gmap string (gset string)) :
  ∃ m', try_fold (λ (dependents : gmap string (gset string)) dependent,
      let? dependencies := reach (S (size (mentioned g))) g dependent ∅ in
      Ok (map_imap (λ name waiting,
            Some (if decide (name ∈ dependencies) then {[dependent]} ∪ waiting else waiting))
          dependents)) created m = Ok m' ∧
    ∀ name, match m !! name with
      | None => m' !! name = None
      | Some w => ∃ w', m' !! name = Some w' ∧
          ∀ x, x ∈ w' ↔ x ∈ w ∨ x ∈ created ∧ tc (succ g) x name
      end.
Proof.
  revert m. induction created as [|c created IH]; intros m; simpl.
  - exists m. split; [done|]. intros name. destruct (m !! name); [|done]. set_solver.
  - destruct (reach_all g c) as (r & -> & Hr). simpl.
    edestruct IH as (m' & Hm' & Hspec). exists m'. split; [exact Hm'|]. intros name.
    specialize (Hspec name). rewrite map_lookup_imap in Hspec.
    destruct (m !! name) as [w|]; simpl in Hspec; [|done].
    destruct Hspec as (w' & -> & Hw'). exists w'. split; [done|]. intros x. rewrite Hw'.
    destruct (decide (name ∈ r)) as [Hin|Hin]; [|rewrite Hr in Hin; set_solver].
    apply Hr in Hin. set_solver.
Qed.

Lemma dependents_first g created :
  ∃ m, dependents_to_stop_first g created = Ok m ∧
    (∀ name, is_Some (m !! name) ↔ name ∈ created) ∧
    ∀ name w, m !! name = Some w → ∀ x, x ∈ w ↔ x ∈ created ∧ tc (succ g) x name.
Proof.
  unfold dependents_to_stop_first.
  set (start := list_to_map _). destruct (dependents_loop g created start) as (m & -> & Hm).
  exists m. split; [done|].
  assert (∀ name, start !! name = if bool_decide (name ∈ created) then Some ∅ else None) as Hstart.
  { intros name. unfold start. clear. induction created as [|c l IH]; csimpl.
    - by rewrite lookup_empty.
    - rewrite lookup_insert, IH. destruct (decide (c = name)) as [->|].
      + by rewrite bool_decide_eq_true_2 by set_solver.
      + by rewrite (bool_decide_ext (name ∈ c :: l) (name ∈ l)) by set_solver. }
  assert (∀ name, (name ∈ created ∧ ∃ w, m !! name = Some w ∧
      ∀ x, x ∈ w ↔ x ∈ created ∧ tc (succ g) x name) ∨ (name ∉ created ∧ m !! name = None)) as H.
  { intros name. specialize (Hm name). rewrite Hstart in Hm. case_bool_decide; [left|by right].
    split; [done|]. destruct Hm as (w & ? & Hw). exists w. split; [done|]. set_solver. }
  split.
  - intros name. destruct (H name) as [(? & w & -> & _)|(? & ->)]; [by eauto|].
    split; [by intros [? ?]|done].
  - intros name w Hw. destruct (H name) as [(? & w' & ? & ?)|(? & ?)]; by simplify_eq.
Qed.

(** ** Properties *)

(** The graph of a task, or the reason there is none.  A graph holds
    exactly the containers reachable from the task's own, each with its
    sorted, duplicate-free dependencies, and none of them reaches itself; a
    circular dependency is reported only for a container that depends on
    itself, directly or not, an undeclared name only for a reachable name
    without a container.  The walk always ends. *)
Theorem build_dependency_graph_spec containers root task_dependencies :
  let E := edge containers root task_dependencies in
  match build_dependency_graph containers root task_dependencies with
  | Ok g =>
      (∀ x, is_Some (g !! x) ↔ rtc E root x) ∧
      (∀ x ds, g !! x = Some ds → StronglySorted str_lt ds ∧ ∀ y, y ∈ ds ↔ E x y) ∧
      (∀ x, rtc E root x → is_Some (containers !! x) ∧ ¬ tc E x x)
  | Err (Circular n) => rtc E root n ∧ tc E n n
  | Err (Undeclared n) => rtc E root n ∧ containers !! n = None
  | Err OutOfFuel => False
  end.
Proof.
  intros E. pose proof (build_spec containers root task_dependencies) as H.
  destruct (build_dependency_graph _ _ _) as [g|[]]; [|done..]. destruct H as [Hg Hroot].
  assert (∀ x, rtc E root x → is_Some (g !! x)) as Hreach
    by (intros x; by eapply graph_inv_reachable).
  split; [|split].
  - intros x. split; [|by apply Hreach]. intros [ds (_ & _ & ? & _)%Hg]. done.
  - intros x ds ((c & Hc & ->) & _)%Hg. split; [apply sort_dedup_sorted|].
    intros y. split; [by exists c|]. intros (c' & Hc' & ?). by simplify_eq.
  - intros x [ds ((c & Hc & _) & _ & _ & Hacc)%Hg]%Hreach. rewrite Hc. split; [done|].
    by apply Acc_no_cycle.
Qed.

(** The names that share a task's network (its proxy exemptions, and what it
    may customise) are the containers of its graph, whenever there is one;
    and without one they are still exactly the reachable names.  The walk
    always ends, cycles included. *)
Theorem container_names_in_task_spec containers root task_dependencies :
  ∃ names, container_names_in_task containers root task_dependencies = Some names ∧
    (∀ x, x ∈ names ↔
       ∃ s, s ∈ root :: default [] task_dependencies ∧ rtc (declares containers) s x) ∧
    ∀ g, build_dependency_graph containers root task_dependencies = Ok g → names = dom g.
Proof.
  set (E := edge containers root task_dependencies).
  set (starts := root :: default [] task_dependencies).
  set (reachable x := ∃ s, s ∈ starts ∧ rtc (declares containers) s x).
  assert (∀ x y, reachable x → declares containers x y → reachable y) as Hstep.
  { intros x y (s & ? & ?) ?. exists s. split; [done|]. by eapply rtc_r. }
  assert (∀ x, x ∈ starts → reachable x) as Hstart by (intros x; by exists x).
  destruct (names_loop_spec containers reachable (S (length starts + dependency_count containers))
    ∅ starts) as (names & Hnames & Hsound & Hin & Hcl); [|done|set_solver|done|set_solver|].
  { rewrite unmet_empty. lia. }
  exists names. split; [done|]. assert (∀ x, x ∈ names ↔ reachable x) as Hiff.
  { intros x. split; [apply Hsound|]. intros (s & Hs & Hsx).
    assert (s ∈ names) as Hn by auto. clear Hs. induction Hsx; eauto. }
  split; [done|]. intros g Hg. apply set_eq. intros x. rewrite Hiff, elem_of_dom.
  pose proof (build_spec containers root task_dependencies) as Hb. rewrite Hg in Hb.
  destruct Hb as [Hinv Hroot]. split.
  - intros (s & Hs & Hsx). assert (rtc E root s) as Hrs.
    { apply elem_of_cons in Hs as [->|Hs]; [done|]. apply rtc_once, edge_spec.
      destruct Hroot as [ds ((c & Hc & _) & _)%Hinv]. exists c. auto. }
    eapply graph_inv_reachable; [done..|]. transitivity s; [exact Hrs|].
    eapply rtc_subrel; [|exact Hsx]. intros y z. apply declares_edge.
  - intros [ds (_ & _ & Hx & _)%Hinv]. revert x Hx. apply rtc_ind_r; [apply Hstart; by left|].
    intros y z _ (c & Hc & [Hz|[-> Hz]])%edge_spec IH; [|apply Hstart; by right].
    apply (Hstep y); [done|]. unfold declares, declared. by rewrite Hc.
Qed.

(** C18: Which containers a task runs, or why it runs none.  The graph holds
    exactly the containers reachable from the task's own, each with its
    sorted, duplicate-free dependencies, and none of them reaches itself; a
    circular dependency is reported only for a container that depends on
    itself, directly or not, an undeclared name only for a reachable name
    without a container; the walk always ends; and the names that share the
    task's network, found by another walk, are the containers of the graph. *)
Theorem task_containers_spec containers root task_dependencies :
  let E := edge containers root task_dependencies in
  match build_dependency_graph containers root task_dependencies with
  | Ok g =>
      (∀ x, is_Some (g !! x) ↔ rtc E root x) ∧
      (∀ x ds, g !! x = Some ds → StronglySorted str_lt ds ∧ ∀ y, y ∈ ds ↔ E x y) ∧
      (∀ x, rtc E root x → is_Some (containers !! x) ∧ ¬ tc E x x) ∧
      container_names_in_task containers root task_dependencies = Some (dom g)
  | Err (Circular n) => rtc E root n ∧ tc E n n
  | Err (Undeclared n) => rtc E root n ∧ containers !! n = None
  | Err OutOfFuel => False
  end.
Proof.
  pose proof (build_dependency_graph_spec containers root task_dependencies) as Hg.
  destruct (container_names_in_task_spec containers root task_dependencies) as (names & Hn & _ & Hd).
  destruct (build_dependency_graph containers root task_dependencies) as [g|e]; [|done].
  destruct Hg as (? & ? & ?). rewrite Hn, (Hd g eq_refl). by split_and!.
Qed.
