(* ===== verification/Tasks.v ===== *)
(** * Tasks: finding tasks, their prerequisites, and running them in order

    The task half of [ratect-core/src/engine.rs]: wildcard prerequisites, the
    suggestions for a mistyped name, [check_prerequisites], and the recursion
    of [run_task], [run_task_scoped] and [run_task_internal] around a task's
    own run. *)

From S2P Require Import Prelude Text Collections Regex Values Config DependencyGraph.
From stdpp Require Import options.

Notation tasks_map := (index_map Task).

Inductive task_error (E : Type) :=
| UnknownTask (task suggestions : string) (requested : bool)
| TaskCycle (task : string)
| InvalidWildcard (pattern : string)
| TaskInterrupted (next : string)
| UndeclaredContainer (name : string)
| GraphError (e : graph_error)
| Untagged (containers : list string)
| RunFailed (e : E)
| NoFuel.
Arguments UnknownTask {E} task suggestions requested.
Arguments TaskCycle {E} task.
Arguments InvalidWildcard {E} pattern.
Arguments TaskInterrupted {E} next.
Arguments UndeclaredContainer {E} name.
Arguments GraphError {E} e.
Arguments Untagged {E} containers.
Arguments RunFailed {E} e.
Arguments NoFuel {E}.

(** ** Suggestions for a mistyped name *)

(** The cells of one row of the table after its first, from the row above
    ([previous], aligned with the cell to the upper left) and the cell to the
    left. *)
Fixpoint row_cells (x : ascii) (b : list ascii) (previous : list nat) (left : nat) : list nat :=
  match b, previous with
  | y :: b, diagonal :: ((above :: _) as previous) =>
      let cell := if decide (x = y) then diagonal
                  else 1 + Nat.min (Nat.min diagonal above) left in
      cell :: row_cells x b previous cell
  | _, _ => []
  end.

Definition next_row (b : list ascii) (previous : list nat) (i : nat) (x : ascii) : list nat :=
  i :: row_cells x b previous i.

Definition edit_distance (a b : string) : nat :=
  let rows := foldl (λ '(i, previous) x, (S i, next_row (chars b) previous i x))
    (1, seq 0 (S (String.length b))) (chars a) in
  List.nth (String.length b) rows.2 0.

(** Closest first, ties by name. *)
Definition suggestion_le (p q : nat * string) : Prop :=
  p.1 < q.1 ∨ p.1 = q.1 ∧ str_le p.2 q.2.
#[global] Instance suggestion_le_dec : RelDecision suggestion_le.
Proof. intros p q. unfold suggestion_le. apply _. Defined.

Definition suggest_task_names (tasks : tasks_map) (name : string) : list string :=
  snd <$> merge_sort suggestion_le
    (filter (λ p, p.1 ≤ 3) ((λ task_name, (edit_distance name task_name, task_name)) <$> tasks.*1)).

Definition human_readable_list (items : list string) (conjunction : string) : string :=
  match items with
  | [] => EmptyString
  | [only] => only
  | _ =>
      let rest := take (pred (length items)) items in
      join ", " rest +:+ " " +:+ conjunction +:+ " " +:+ List.last items EmptyString
  end.

Definition format_task_suggestions (tasks : tasks_map) (name : string) : string :=
  let suggestions := suggest_task_names tasks name in
  if bool_decide (suggestions = []) then EmptyString
  else " Did you mean " +:+
    human_readable_list ((λ s, "'" +:+ s +:+ "'") <$> suggestions) "or" +:+ "?".

Definition find_task {E} (tasks : tasks_map) (name : string) (requested : bool)
  : result Task (task_error E) :=
  ok_or (im_get tasks name) (UnknownTask name (format_task_suggestions tasks name) requested).

(** ** Wildcards *)

Section wildcards.
Context `{RegexCrate} {E : Type}.

Definition wildcard_to_regex (pattern : string) : result regex (task_error E) :=
  ok_or (regex_new ("^" +:+ join ".*" (escape <$> split "*" pattern) +:+ "$"))
    (InvalidWildcard pattern).

Fixpoint expand_prerequisite_wildcards (tasks : tasks_map) (patterns : list string)
    : result (list string) (task_error E) :=
  match patterns with
  | [] => Ok []
  | pattern :: patterns =>
      let? here :=
        (if negb (contains_char "*" pattern) then Ok [pattern]
         else
           let? r := wildcard_to_regex pattern in
           Ok (sort_strings (filter (λ name, is_match r name = true) tasks.*1))) in
      let? rest := expand_prerequisite_wildcards tasks patterns in
      Ok (here ++ rest)
  end.

(** ** The check before anything runs *)

Fixpoint check_visit (fuel : nat) (tasks : tasks_map) (task : Task) (path : list string)
    (checked : gset string) : result (gset string) (task_error E) :=
  match fuel with
  | O => Err NoFuel
  | S fuel =>
      match t_prerequisites task with
      | None => Ok checked
      | Some prerequisites =>
          let? names := expand_prerequisite_wildcards tasks prerequisites in
          let? resolved := try_fold (λ resolved name,
              let? prerequisite := find_task tasks name false in
              if decide (name ∈ path) then Err (TaskCycle name)
              else Ok (resolved ++ [(name, prerequisite)])) names [] in
          try_fold (λ (checked : gset string) '(name, prerequisite),
              if decide (name ∈ checked) then Ok checked
              else
                let? checked := check_visit fuel tasks prerequisite (path ++ [name]) checked in
                Ok ({[name]} ∪ checked))
            resolved checked
      end
  end.

Definition check_prerequisites (tasks : tasks_map) (task_name : string)
    (skip_prerequisites : bool) : result unit (task_error E) :=
  let? task := find_task tasks task_name true in
  if skip_prerequisites then Ok tt
  else
    let? _ := check_visit (S (length tasks)) tasks task [task_name] ∅ in
    Ok tt.
End wildcards.

(** ** The run

    What one task's own run does to the daemon and the terminal is the
    parameter [run_graph], from the creation of its network to the end of its
    cleanup; the world it acts on is [W].  [evaluate] is the evaluation of the
    task's values, [signals] the number of termination signals so far. *)

Inductive event :=
| PrerequisitesOnly (task : string)
| TaskStarting (task : string)
| NotStarting (next : string).

Record RunState (W : Type) := mk_run_state {
  st_executed : gset string;
  st_in_progress : gset string;
  st_events : list event;
  st_world : W;
}.
Arguments mk_run_state {W} _ _ _ _.
Arguments st_executed {W} _.
Arguments st_in_progress {W} _.
Arguments st_events {W} _.
Arguments st_world {W} _.

Section run.
Context `{RegexCrate} {E W : Type}.

Record Surroundings := mk_surroundings {
  evaluate : W → string → result (Task * gmap string Container) E;
  check_image_overrides : result unit E;
  signals : W → N;
  run_graph : W → string → TaskRun → graph → list string → bool → W * result unit E;
  containers_used : W → gset string;
  image_tags : list string;
  skip_prerequisites : bool;
}.

Context (env : Surroundings) (tasks : tasks_map).
Notation outcome := (RunState W * result unit (task_error E))%type.

Definition post (e : event) (st : RunState W) : RunState W :=
  mk_run_state (st_executed st) (st_in_progress st) (st_events st ++ [e]) (st_world st).

Definition set_in_progress (s : gset string) (st : RunState W) : RunState W :=
  mk_run_state (st_executed st) s (st_events st) (st_world st).

Definition set_executed (s : gset string) (st : RunState W) : RunState W :=
  mk_run_state s (st_in_progress st) (st_events st) (st_world st).

Definition set_world (w : W) (st : RunState W) : RunState W :=
  mk_run_state (st_executed st) (st_in_progress st) (st_events st) w.

(** [?] on an operation that changes the state. *)
Definition and_then (o : outcome) (k : RunState W → outcome) : outcome :=
  match o.2 with Ok _ => k o.1 | Err e => (o.1, Err e) end.

Definition has_run (task_name : string) (st : RunState W) : bool :=
  bool_decide (task_name ∈ st_executed st).

Definition stop_if_signalled (baseline : N) (next : string) (st : RunState W) : outcome :=
  if (signals env (st_world st) <=? baseline)%N then (st, Ok tt)
  else (post (NotStarting next) st, Err (TaskInterrupted next)).

Fixpoint run_prerequisites (scoped : string → list string → bool → RunState W → outcome)
    (baseline : N) (prerequisites : list string) (st : RunState W) : outcome :=
  match prerequisites with
  | [] => (st, Ok tt)
  | prerequisite :: prerequisites =>
      and_then (if has_run prerequisite st then (st, Ok tt)
                else stop_if_signalled baseline prerequisite st) (λ st,
      and_then (scoped prerequisite [] false st)
        (run_prerequisites scoped baseline prerequisites))
  end.

(** The own part of [run_task_internal], once the prerequisites have run. *)
Definition run_own (baseline : N) (task_name : string) (additional_args : list string)
    (top_level : bool) (st : RunState W) : outcome :=
  match evaluate env (st_world st) task_name with
  | Err e => (st, Err (RunFailed e))
  | Ok (task, containers) =>
      match t_run task with
      | None => (post (PrerequisitesOnly task_name) st, Ok tt)
      | Some run =>
          match check_image_overrides env with
          | Err e => (st, Err (RunFailed e))
          | Ok _ =>
              and_then (stop_if_signalled baseline task_name st) (λ st,
              match containers !! r_container run with
              | None => (st, Err (UndeclaredContainer (r_container run)))
              | Some _ =>
                  match build_dependency_graph containers (r_container run)
                          (t_dependencies task) with
                  | Err e => (st, Err (GraphError e))
                  | Ok g =>
                      let st := post (TaskStarting task_name) st in
                      let '(w, r) := run_graph env (st_world st) task_name run g
                                       additional_args top_level in
                      (set_world w st, map_err RunFailed r)
                  end
              end)
          end
      end
  end.

Definition run_task_internal (scoped : string → list string → bool → RunState W → outcome)
    (task_name : string) (additional_args : list string) (top_level : bool) (st : RunState W)
    : outcome :=
  match find_task tasks task_name top_level with
  | Err e => (st, Err e)
  | Ok task =>
      let interrupts_before_prerequisites := signals env (st_world st) in
      and_then
        (if top_level && skip_prerequisites env then (st, Ok tt)
         else match t_prerequisites task with
              | None => (st, Ok tt)
              | Some prerequisites =>
                  match expand_prerequisite_wildcards tasks prerequisites with
                  | Err e => (st, Err e)
                  | Ok prerequisites =>
                      run_prerequisites scoped interrupts_before_prerequisites prerequisites st
                  end
              end)
        (run_own interrupts_before_prerequisites task_name additional_args top_level)
  end.

Fixpoint run_task_scoped (fuel : nat) (task_name : string) (additional_args : list string)
    (top_level : bool) (st : RunState W) : outcome :=
  match fuel with
  | O => (st, Err NoFuel)
  | S fuel =>
      if decide (task_name ∈ st_executed st) then (st, Ok tt)
      else if decide (task_name ∈ st_in_progress st) then (st, Err (TaskCycle task_name))
      else
        let st := set_in_progress ({[task_name]} ∪ st_in_progress st) st in
        let '(st, r) := run_task_internal (run_task_scoped fuel) task_name additional_args
                          top_level st in
        let st := set_in_progress (st_in_progress st ∖ {[task_name]}) st in
        match r with
        | Ok _ => (set_executed ({[task_name]} ∪ st_executed st) st, Ok tt)
        | Err e => (st, Err e)
        end
  end.

Definition run_task (task_name : string) (additional_args : list string) (w : W) : outcome :=
  let st := mk_run_state ∅ ∅ [] w in
  match check_prerequisites tasks task_name (skip_prerequisites env) with
  | Err e => (st, Err e)
  | Ok _ =>
      and_then (run_task_scoped (S (length tasks)) task_name additional_args true st) (λ st,
      let untagged := sort_strings
        (filter (λ name, name ∉ containers_used env (st_world st)) (image_tags env)) in
      if bool_decide (untagged = []) then (st, Ok tt) else (st, Err (Untagged untagged)))
  end.
End run.
