(* ===== verification/EditDistance.v ===== *)
(** * EditDistance: the two-row table computes the least number of edits

    [edit_distance] and [suggest_task_names] of [ratect-core/src/engine.rs]
    (declared in [Tasks]) against their definition: the length of the shortest
    edit script. *)

From S2P Require Import Prelude Text Collections Regex Values Config DependencyGraph Tasks.
From stdpp Require Import options.

(** ** Edit scripts *)

(** [edits a b n]: [n] insertions, deletions and substitutions turn [a] into [b]. *)
Inductive edits : list ascii → list ascii → nat → Prop :=
| edits_nil : edits [] [] 0
| edits_keep x a b n : edits a b n → edits (x :: a) (x :: b) n
| edits_substitute x y a b n : edits a b n → edits (x :: a) (y :: b) (S n)
| edits_delete x a b n : edits a b n → edits (x :: a) b (S n)
| edits_insert y a b n : edits a b n → edits a (y :: b) (S n).
#[export] Hint Constructors edits : ratect.

Lemma edits_app a b n a' b' n' : edits a b n → edits a' b' n' → edits (a ++ a') (b ++ b') (n + n').
Proof. induction 1; simpl; auto with ratect. Qed.

Lemma edits_rev a b n : edits a b n → edits (rev a) (rev b) n.
Proof.
  assert (∀ a b n c d m, edits a b n → edits c d m →
    edits (a ++ c) (b ++ d) (n + m)) as Happ by (intros; by apply edits_app).
  induction 1 as [|x a b n H IH|x y a b n H IH|x a b n H IH|y a b n H IH]; simpl; [constructor|..].
  - rewrite <-(Nat.add_0_r n). apply Happ; auto with ratect.
  - rewrite <-Nat.add_1_r. apply Happ; auto with ratect.
  - rewrite <-Nat.add_1_r, <-(app_nil_r (rev b)). apply Happ; auto with ratect.
  - rewrite <-Nat.add_1_r, <-(app_nil_r (rev a)). apply Happ; auto with ratect.
Qed.

(** ** The recursive distance *)

Fixpoint lev (a : list ascii) : list ascii → nat :=
  match a with
  | [] => length
  | x :: a =>
      let fix lev_b (b : list ascii) : nat :=
        match b with
        | [] => S (length a)
        | y :: b =>
            if decide (x = y) then lev a b
            else 1 + Nat.min (Nat.min (lev a b) (lev_b b)) (lev a (y :: b))
        end in
      lev_b
  end.

Lemma lev_nil_r a : lev a [] = length a.
Proof. by destruct a. Qed.

Lemma lev_cons x a y b : lev (x :: a) (y :: b) =
  if decide (x = y) then lev a b
  else 1 + Nat.min (Nat.min (lev a b) (lev (x :: a) b)) (lev a (y :: b)).
Proof. done. Qed.

Lemma lev_edits a b : edits a b (lev a b).
Proof.
  revert b. induction a as [|x a IHa]; intros b; [induction b; simpl; auto with ratect|].
  induction b as [|y b IHb].
  - specialize (IHa []). rewrite lev_nil_r in *. simpl. auto with ratect.
  - rewrite lev_cons. case_decide; [subst; auto with ratect|].
    set (m := Nat.min _ _). change (1 + m) with (S m).
    assert (m = lev a b ∨ m = lev (x :: a) b ∨ m = lev a (y :: b)) as [->|[->| ->]] by lia;
      auto with ratect.
Qed.

(** One char more or less changes the distance by at most one. *)
Lemma lev_lipschitz n a b : length a + length b ≤ n →
  (∀ x, lev (x :: a) b ≤ S (lev a b) ∧ lev a b ≤ S (lev (x :: a) b)) ∧
  (∀ y, lev a (y :: b) ≤ S (lev a b) ∧ lev a b ≤ S (lev a (y :: b))).
Proof.
  revert a b. induction n as [|n IH]; intros a b Hn.
  { destruct a, b; simpl in *; try lia. split; intros; simpl; lia. }
  split.
  - intros x. destruct b as [|y b].
    + rewrite !lev_nil_r. simpl. lia.
    + rewrite lev_cons. simpl in Hn. destruct (IH a b) as [Hx Hy]; [lia|].
      destruct (Hx x), (Hy y). case_decide; lia.
  - intros y. destruct a as [|x a]; [simpl; lia|].
    rewrite lev_cons. simpl in Hn. destruct (IH a b) as [Hx Hy]; [lia|].
    destruct (Hx x), (Hy y). case_decide; lia.
Qed.

Lemma lev_least a b n : edits a b n → lev a b ≤ n.
Proof.
  induction 1 as [|x a b n H IH|x y a b n H IH|x a b n H IH|y a b n H IH]; [done|..].
  - rewrite lev_cons. by rewrite decide_True.
  - rewrite lev_cons. case_decide; lia.
  - destruct (lev_lipschitz _ a b (Nat.le_refl _)) as [Hx _]. specialize (Hx x). lia.
  - destruct (lev_lipschitz _ a b (Nat.le_refl _)) as [_ Hy]. specialize (Hy y). lia.
Qed.

(** ** The table *)

(** One row: the distances of [rp] to [rb] extended by each prefix of [b]. *)
Fixpoint levs (rp rb b : list ascii) : list nat :=
  lev rp rb :: match b with [] => [] | y :: b => levs rp (y :: rb) b end.

Lemma row_cells_spec x rp rb b :
  lev (x :: rp) rb :: row_cells x b (levs rp rb b) (lev (x :: rp) rb) = levs (x :: rp) rb b.
Proof.
  revert rb. induction b as [|y b IH]; intros rb; [done|].
  cbn [levs]. f_equal. rewrite <-IH. clear IH.
  assert (∃ t, levs rp (y :: rb) b = lev rp (y :: rb) :: t) as [t Ht] by (destruct b; simpl; eauto).
  cbn [row_cells]. rewrite Ht. rewrite lev_cons.
  replace (Nat.min (Nat.min (lev rp rb) (lev rp (y :: rb))) (lev (x :: rp) rb))
    with (Nat.min (Nat.min (lev rp rb) (lev (x :: rp) rb)) (lev rp (y :: rb))) by lia.
  done.
Qed.

Lemma levs_empty rb b : levs [] rb b = seq (length rb) (S (length b)).
Proof.
  revert rb. induction b as [|y b IH]; intros rb; [done|]. cbn [levs]. rewrite IH. done.
Qed.

Lemma levs_last rp rb b : List.nth (length b) (levs rp rb b) 0 = lev rp (rev b ++ rb).
Proof.
  revert rb. induction b as [|y b IH]; intros rb; [done|].
  simpl. rewrite IH, <-app_assoc. done.
Qed.

Lemma rows_spec a rp b i :
  i = S (length rp) →
  (foldl (λ '(i, previous) x, (S i, next_row b previous i x)) (i, levs rp [] b) a).2 =
    levs (rev a ++ rp) [] b.
Proof.
  revert rp i. induction a as [|x a IH]; intros rp i ->; [done|].
  simpl. rewrite <-app_assoc. change ([x] ++ rp) with (x :: rp).
  rewrite <-(IH (x :: rp) (S (S (length rp)))) by done.
  f_equal. unfold next_row. do 2 f_equal. by rewrite <-row_cells_spec, lev_nil_r.
Qed.

Lemma edit_distance_lev a b : edit_distance a b = lev (rev (chars a)) (rev (chars b)).
Proof.
  unfold edit_distance. rewrite <-!length_chars.
  pose proof (levs_empty [] (chars b)) as Hrow. simpl length in Hrow. rewrite <-Hrow.
  rewrite rows_spec by done. by rewrite levs_last, !app_nil_r.
Qed.

Lemma edit_distance_edits a b : edits (chars a) (chars b) (edit_distance a b).
Proof.
  rewrite edit_distance_lev. rewrite <-(rev_involutive (chars a)), <-(rev_involutive (chars b)) at 1.
  apply edits_rev, lev_edits.
Qed.

Lemma edit_distance_least a b n : edits (chars a) (chars b) n → edit_distance a b ≤ n.
Proof. rewrite edit_distance_lev. intros H. by apply lev_least, edits_rev. Qed.

(** ** Suggestions *)

#[global] Instance suggestion_le_trans : Transitive suggestion_le.
Proof.
  intros [a s] [b t] [c u] [H1|[H1 H2]] [H3|[H3 H4]]; simpl in *; [left|left|left|right]; simpl; try lia.
  split; [lia|]. by etrans.
Qed.

#[global] Instance suggestion_le_total : Total suggestion_le.
Proof.
  intros [a s] [b t]. unfold suggestion_le. simpl.
  destruct (Nat.lt_trichotomy a b) as [?|[->|?]]; [auto| |auto].
  destruct (total str_le s t); auto.
Qed.

(** What is suggested for a mistyped task name: exactly the tasks at most
    three edits away from it (insertions, deletions, substitutions of one
    char), the closest first and equally close ones by name, where the
    distance compared is the least number of edits. *)
Theorem suggest_task_names_spec tasks name :
  (∀ task, task ∈ suggest_task_names tasks name ↔
     task ∈ tasks.*1 ∧ ∃ n, n ≤ 3 ∧ edits (chars name) (chars task) n) ∧
  StronglySorted (λ s t, edit_distance name s < edit_distance name t ∨
     edit_distance name s = edit_distance name t ∧ str_le s t) (suggest_task_names tasks name) ∧
  (∀ a b, edits (chars a) (chars b) (edit_distance a b) ∧
     ∀ n, edits (chars a) (chars b) n → edit_distance a b ≤ n).
Proof.
  unfold suggest_task_names. set (l := filter _ _).
  assert (∀ p, p ∈ merge_sort suggestion_le l ↔
    p.1 = edit_distance name p.2 ∧ p.2 ∈ tasks.*1 ∧ p.1 ≤ 3) as Hl.
  { intros [d t]. rewrite (merge_sort_Permutation suggestion_le l). unfold l.
    rewrite list_elem_of_filter, list_elem_of_fmap. simpl. split.
    - intros (? & x & [= -> ->] & ?). done.
    - intros (-> & ? & ?). eauto. }
  split; [|split].
  - intros t. rewrite list_elem_of_fmap. split.
    + intros ([d t'] & -> & (? & ? & ?)%Hl). simpl in *. split; [done|].
      eexists. split; [|apply edit_distance_edits]. lia.
    + intros (Ht & n & Hn & Hed%edit_distance_least). exists (edit_distance name t, t).
      split; [done|]. apply Hl. simpl. split; [done|]. split; [done|lia].
  - pose proof (StronglySorted_merge_sort suggestion_le l) as Hs.
    assert (∀ p, p ∈ merge_sort suggestion_le l → p.1 = edit_distance name p.2) as Hd
      by (intros p Hp; by apply Hl).
    clear Hl. induction Hs as [|p k Hk IH Hp]; csimpl; [constructor|].
    constructor; [apply IH; intros; apply Hd; set_solver|].
    rewrite Forall_fmap. rewrite Forall_forall in Hp |- *. intros q Hq. simpl.
    rewrite <-!Hd by set_solver. by apply Hp.
  - intros a b. split; [apply edit_distance_edits|]. apply edit_distance_least.
Qed.
