(* ===== verification/TaskOrder.v ===== *)
(** * TaskOrder: prerequisites are checked first and run first

    The theorems about [Tasks]: what a wildcard stands for, what
    [check_prerequisites] accepts, and what [run_task] then runs. *)

From S2P Require Import Prelude Text Collections Regex Values Config DependencyGraph Tasks.
From stdpp Require Import options.

(** ** Wildcards *)

(** A [*] stands for any chars but a newline, every other char for itself. *)
Definition glob_atoms (pattern : list ascii) : list atom :=
  (λ c, if decide (c = "*"%char) then AnyString else Lit c) <$> pattern.

Definition glob (pattern name : string) : Prop := lang (glob_atoms (chars pattern)) (chars name).

Lemma glob_atoms_plain l : "*"%char ∉ l → glob_atoms l = Lit <$> l.
Proof.
  intros H. apply list_fmap_ext. intros i c Hc. rewrite decide_False; [done|].
  intros ->. by apply list_elem_of_lookup_2 in Hc.
Qed.

Lemma split_l_glob c l :
  ∃ first rest, split_l c l = first :: rest ∧ c ∉ first ∧
    (rest = [] ∧ l = first ∨
     ∃ l', l = first ++ c :: l' ∧ split_l c l' = rest).
Proof.
  induction l as [|d l (first & rest & Hs & Hc & Hl)]; simpl.
  - exists [], []. split; [done|]. split; [set_solver|]. by left.
  - case_bool_decide as Hd.
    + subst d. exists [], (split_l c l). split; [done|]. split; [set_solver|]. right. by exists l.
    + rewrite Hs. exists (d :: first), rest. split; [done|]. split; [set_solver|].
      destruct Hl as [[-> ->]|(l' & -> & ?)]; [by left|]. right. by exists l'.
Qed.

Section wildcards.
Context `{RegexLaws}.
#[local] Set Default Proof Using "All".

Lemma wildcard_renders n l :
  length l ≤ n →
  renders (glob_atoms l) (join ".*" (escape <$> (of_chars <$> split_l "*" l))).
Proof.
  revert l. induction n as [|n IH]; intros l Hn;
    destruct (split_l_glob "*" l) as (first & rest & -> & Hc & [[-> ->]|(l' & -> & <-)]).
  1, 3: rewrite glob_atoms_plain by done; csimpl;
    pose proof (escape_renders (of_chars first)) as He; by rewrite chars_of_chars in He.
  { rewrite length_app in Hn. simpl in Hn. lia. }
  unfold glob_atoms. rewrite fmap_app, fmap_cons, decide_True by done.
  fold (glob_atoms first) (glob_atoms l'). rewrite glob_atoms_plain by done. rewrite !fmap_cons.
  assert (∀ x items, items ≠ [] → join ".*" (x :: items) = x +:+ ".*" +:+ join ".*" items) as Hj
    by (intros x []; done).
  rewrite Hj.
  - apply renders_app.
    + pose proof (escape_renders (of_chars first)) as He. by rewrite chars_of_chars in He.
    + apply (renders_cons AnyString ".*"); [done|]. apply IH.
      rewrite length_app in Hn. simpl in Hn. lia.
  - destruct (split_l_glob "*" l') as (f & r & -> & _). done.
Qed.

Lemma wildcard_to_regex_spec {E} pattern :
  ∃ r, wildcard_to_regex (E := E) pattern = Ok r ∧ ∀ s, is_match r s = true ↔ glob pattern s.
Proof.
  unfold wildcard_to_regex, split.
  destruct (regex_new_anchored _ _ (wildcard_renders _ (chars pattern) (Nat.le_refl _)))
    as (r & -> & Hr). by exists r.
Qed.

Lemma expand_ok {E} tasks patterns :
  ∃ names, expand_prerequisite_wildcards (E := E) tasks patterns = Ok names.
Proof.
  induction patterns as [|p patterns [names IH]]; simpl; [eauto|]. rewrite IH.
  destruct (contains_char _ p); simpl; [|eauto].
  destruct (wildcard_to_regex_spec (E := E) p) as (r & -> & _). simpl. eauto.
Qed.

(** Every entry of a task's prerequisites stands for itself, and one with a
    [*] for the tasks whose whole name it matches, sorted, of which there may
    be none; an entry without one is kept even if no task has that name. *)
Theorem expand_prerequisite_wildcards_spec {E} tasks patterns :
  ∃ expansions, expand_prerequisite_wildcards (E := E) tasks patterns = Ok (concat expansions) ∧
    Forall2 (λ pattern names,
      if contains_char "*" pattern
      then StronglySorted str_le names ∧ ∀ x, x ∈ names ↔ x ∈ tasks.*1 ∧ glob pattern x
      else names = [pattern]) patterns expansions.
Proof.
  induction patterns as [|p patterns (expansions & IH & Hall)]; [by exists []|].
  simpl. rewrite IH. destruct (contains_char "*" p) eqn:Hp; simpl.
  - destruct (wildcard_to_regex_spec (E := E) p) as (r & -> & Hr). simpl.
    eexists (_ :: expansions). split; [done|]. constructor; [|done]. rewrite Hp.
    split; [apply sort_strings_sorted|]. intros x.
    rewrite elem_of_sort_strings, list_elem_of_filter, Hr. naive_solver.
  - exists ([p] :: expansions). split; [done|]. constructor; [by rewrite Hp|done].
Qed.

End wildcards.

(** ** The prerequisite relation and the check *)

Section check.
Context {RX : RegexCrate} {E : Type} (tasks : tasks_map).
#[local] Set Default Proof Using "Type".

(** [y] is one of [x]'s prerequisites, its wildcards expanded. *)
Definition prerequisite (x y : string) : Prop :=
  ∃ t ps names, im_get tasks x = Some t ∧ t_prerequisites t = Some ps ∧
    expand_prerequisite_wildcards (E := E) tasks ps = Ok names ∧ y ∈ names.

(** A task that exists, and whose prerequisites can be expanded. *)
Definition settled (x : string) : Prop :=
  ∃ t, im_get tasks x = Some t ∧ ∀ ps, t_prerequisites t = Some ps →
    ∃ names, expand_prerequisite_wildcards (E := E) tasks ps = Ok names.

(** What a walked task has: no chain of prerequisites descends from it for
    ever, and every task it reaches is settled. *)
Definition sound (x : string) : Prop :=
  Acc (λ y x, prerequisite x y) x ∧ ∀ y, rtc prerequisite x y → settled y.

Lemma sound_intro x :
  settled x → (∀ y, prerequisite x y → sound y) → sound x.
Proof.
  intros Hx Hy. split; [constructor; intros y ?; by apply Hy|].
  intros y [->|(z & Hz & Hzy)]%rtc_inv; [done|]. by apply (Hy z).
Qed.

Definition check_problem (root : string) (e : task_error E) : Prop :=
  match e with
  | UnknownTask n s requested =>
      im_get tasks n = None ∧ s = format_task_suggestions tasks n ∧
      (if requested then n = root else rtc prerequisite root n)
  | TaskCycle n => rtc prerequisite root n ∧ tc prerequisite n n
  | InvalidWildcard p => regex_new ("^" +:+ join ".*" (escape <$> split "*" p) +:+ "$") = None
  | _ => False
  end.

Lemma expand_error ps e :
  expand_prerequisite_wildcards (E := E) tasks ps = Err e →
  ∃ p, e = InvalidWildcard p ∧
    regex_new ("^" +:+ join ".*" (escape <$> split "*" p) +:+ "$") = None.
Proof.
  induction ps as [|p ps IH]; simpl; [done|].
  intros [He|(l & _ & [He|(l' & _ & ?)]%result_bind_Err)]%result_bind_Err; [|auto|done].
  destruct (negb _); [done|]. apply result_bind_Err in He as [He|(? & _ & ?)]; [|done].
  unfold wildcard_to_regex, ok_or in He. destruct (regex_new _) eqn:Hr; [done|].
  injection He as <-. eauto.
Qed.

(** The entries of a list, looked up before any is walked into. *)
Lemma resolve_spec root (path names : list string) :
  (∀ n, n ∈ names → rtc prerequisite root n ∧ (n ∈ path → tc prerequisite n n)) →
  match try_fold (λ resolved name,
      let? prerequisite := find_task (E := E) tasks name false in
      if decide (name ∈ path) then Err (TaskCycle name)
      else Ok (resolved ++ [(name, prerequisite)])) names [] with
  | Ok resolved => resolved.*1 = names ∧
      ∀ n t, (n, t) ∈ resolved → im_get tasks n = Some t ∧ n ∉ path
  | Err e => check_problem root e
  end.
Proof.
  set (f := λ resolved name, _).
  assert (∀ acc, (∀ n t, (n, t) ∈ acc → im_get tasks n = Some t ∧ n ∉ path) →
    (∀ n, n ∈ names → rtc prerequisite root n ∧ (n ∈ path → tc prerequisite n n)) →
    match try_fold f names acc with
    | Ok resolved => resolved.*1 = acc.*1 ++ names ∧
        ∀ n t, (n, t) ∈ resolved → im_get tasks n = Some t ∧ n ∉ path
    | Err e => check_problem root e
    end) as Hgen; [|intros Hn; apply (Hgen []); [set_solver|done]].
  induction names as [|n names IH]; intros acc Hacc Hn; simpl.
  { by rewrite app_nil_r. }
  destruct (Hn n) as [Hreach Hcyc]; [by left|].
  unfold f at 1, find_task. destruct (im_get tasks n) as [t|] eqn:Ht; simpl.
  - case_decide as Hp; simpl; [split; [done|by apply Hcyc]|].
    specialize (IH (acc ++ [(n, t)])). destruct (try_fold f names _) as [r|e].
    + destruct IH as [-> ?]; [set_solver..|]. split; [|done].
      by rewrite fmap_app, <-app_assoc.
    + apply IH; set_solver.
  - done.
Qed.

Definition walked (checked : gset string) : Prop := ∀ x, x ∈ checked → sound x.

Lemma check_visit_spec root fuel task name path checked :
  im_get tasks name = Some task → name ∈ path → NoDup path → length tasks < fuel + length path →
  (∀ a, a ∈ path → a ∈ tasks.*1 ∧ rtc prerequisite a name) → rtc prerequisite root name →
  walked checked →
  match check_visit (E := E) fuel tasks task path checked with
  | Ok checked' => walked checked' ∧ checked ⊆ checked' ∧ sound name
  | Err e => check_problem root e
  end.
Proof.
  revert task name path checked. induction fuel as [|fuel IH];
    intros task name path checked Ht Hname Hnd Hfuel Hpath Hroot Hchecked; simpl.
  { assert (length path ≤ length tasks.*1); [|rewrite length_fmap in *; lia].
    apply submseteq_length, NoDup_submseteq; [done|]. intros a Ha. by apply Hpath. }
  destruct (t_prerequisites task) as [ps|] eqn:Hps.
  2: { split; [done|]. split; [done|]. apply sound_intro.
       { exists task. split; [done|]. intros ps ?. simplify_eq. }
       intros y (? & ? & ? & ? & ? & _). simplify_eq. }
  destruct (expand_prerequisite_wildcards tasks ps) as [names|e] eqn:Hexp; simpl.
  2: { apply expand_error in Hexp as (p & -> & ?). done. }
  assert (∀ n, n ∈ names ↔ prerequisite name n) as Hnames.
  { intros n. split; [by exists task, ps, names|].
    intros (t' & ps' & names' & ? & ? & ? & ?). simplify_eq. by rewrite Hexp in *; simplify_eq. }
  assert (∀ n, n ∈ names → rtc prerequisite root n ∧ (n ∈ path → tc prerequisite n n)) as Hn.
  { intros n Hn%Hnames. split; [by eapply rtc_r|]. intros Hin.
    destruct (Hpath n Hin) as [_ ?]. eapply tc_rtc_l; [done|by apply tc_once]. }
  pose proof (resolve_spec root path names Hn) as Hres.
  destruct (try_fold _ names []) as [resolved|e]; simpl; [|done].
  destruct Hres as [Hkeys Hres].
  set (f := λ (checked : gset string) '(name, prerequisite), _).
  pose proof (try_fold_ind f (λ c, walked c ∧ checked ⊆ c) (λ p c, p.1 ∈ c) (check_problem root)
    resolved checked) as Hloop.
  assert (∀ c n t, (n, t) ∈ resolved → walked c → checked ⊆ c →
    match f c (n, t) with
    | Ok c' => walked c' ∧ c ⊆ c' ∧ n ∈ c' | Err e => check_problem root e end) as Hf.
  { intros c n t Hin Hc Hsub. unfold f. case_decide as Hdone; [done|].
    destruct (Hres n t Hin) as [Htn Hnp].
    assert (n ∈ names) as Hnn by (rewrite <-Hkeys; apply list_elem_of_fmap; by exists (n, t)).
    pose proof (IH t n (path ++ [n]) c Htn) as Hc'. ospecialize* Hc'; [..|exact Hc|].
    - set_solver.
    - apply NoDup_app. split; [done|]. split; [set_solver|apply NoDup_singleton].
    - rewrite length_app. simpl. lia.
    - assert (prerequisite name n) by by apply Hnames.
      intros a [Ha|Ha]%elem_of_app.
      + destruct (Hpath a Ha). split; [done|]. by eapply rtc_r.
      + apply list_elem_of_singleton in Ha as ->. split; [|done].
        apply im_get_is_Some. by rewrite Htn.
    - by apply Hn.
    - destruct (check_visit fuel tasks t (path ++ [n]) c) as [c'|e]; simpl; [|done].
      destruct Hc' as (Hw & Hs & Hsound). split; [|set_solver].
      intros x [->%elem_of_singleton|?]%elem_of_union; [done|by apply Hw]. }
  ospecialize* Hloop; [| |done|].
  - intros c c' p [n t] Hin Hp [Hc Hsub] Hfc. specialize (Hf c n t Hin Hc Hsub).
    rewrite Hfc in Hf. set_solver.
  - intros c [n t] Hin [Hc Hsub]. specialize (Hf c n t Hin Hc Hsub).
    destruct (f c (n, t)) as [c'|e]; [|done]. destruct Hf as (? & ? & ?). set_solver.
  - destruct (try_fold f resolved checked) as [c'|e]; [|done]. destruct Hloop as [[Hw Hs] Hall].
    split; [done|]. split; [done|]. apply sound_intro.
    { exists task. split; [done|]. intros ps' ?. simplify_eq. eauto. }
    intros y Hy%Hnames. apply Hw. rewrite <-Hkeys, list_elem_of_fmap in Hy.
    destruct Hy as (p & -> & Hp). by apply Hall.
Qed.

Lemma sound_no_cycle x : sound x → ¬ tc prerequisite x x.
Proof.
  intros [Hacc _]. induction Hacc as [x _ IH]. intros Hx.
  inversion Hx as [? ? Hxx|? y ? Hxy Hyx]; subst; [by apply (IH x)|].
  apply (IH y Hxy). by eapply tc_r.
Qed.

Lemma sound_reachable x y : sound x → rtc prerequisite x y → sound y.
Proof.
  intros [Hacc Hex] Hxy. split; [|intros z ?; apply Hex; by transitivity y].
  clear Hex. induction Hxy as [|x y z Hxy Hyz IH]; [done|]. by apply IH, Hacc.
Qed.

Lemma check_prerequisites_sound name skip :
  match check_prerequisites (E := E) tasks name skip with
  | Ok _ => is_Some (im_get tasks name) ∧ (skip = false → sound name)
  | Err e => check_problem name e ∧ (skip = true → ∃ s, e = UnknownTask name s true)
  end.
Proof.
  unfold check_prerequisites, find_task.
  destruct (im_get tasks name) as [task|] eqn:Ht; cbn [ok_or result_bind]; [|by simpl; eauto].
  destruct skip; [by eauto|].
  pose proof (check_visit_spec name (S (length tasks)) task name [name] ∅ Ht) as H.
  ospecialize* H.
  - set_solver.
  - apply NoDup_singleton.
  - simpl. lia.
  - intros a ->%list_elem_of_singleton. split; [|done]. apply im_get_is_Some. by rewrite Ht.
  - done.
  - intros x Hx. set_solver.
  - destruct (check_visit _ _ _ _ _) as [c|e]; simpl; [|by split].
    split; [by eauto|]. intros _. by apply H.
Qed.
End check.

(** ** The run *)

Section run_order.
Context {RX : RegexCrate} {E W : Type} (env : Surroundings (E := E) (W := W))
  (tasks : tasks_map) (root : string).
#[local] Set Default Proof Using "Type".
Notation requires := (prerequisite (E := E) tasks).
Notation outcome := (RunState W * result unit (task_error E))%type.

(** The tasks whose own part was reached, in order, as the event sink saw it. *)
Definition event_task (e : event) : option string :=
  match e with
  | PrerequisitesOnly t | TaskStarting t => Some t
  | NotStarting _ => None
  end.
Definition announced (st : RunState W) : list string := omap event_task (st_events st).

(** [--skip-prerequisites] names the task given on the command line only. *)
Definition exempt (t : string) : Prop := t = root ∧ skip_prerequisites env = true.

(** Every task after all its prerequisites. *)
Definition ordered (l : list string) : Prop :=
  ∀ l1 t l2, l = l1 ++ t :: l2 → ∀ p, requires t p → exempt t ∨ p ∈ l1.

Definition once_in_order (st : RunState W) : Prop := NoDup (announced st) ∧ ordered (announced st).

(** What holds whenever no task is being run but the ancestors of the next. *)
Definition run_inv (st : RunState W) : Prop :=
  once_in_order st ∧ (∀ t, t ∈ announced st ↔ t ∈ st_executed st) ∧
  ∀ x, x ∈ st_in_progress st → x ∉ st_executed st.

(** The errors [check_prerequisites] leaves to the run. *)
Definition late_error (e : task_error E) : Prop :=
  match e with
  | UnknownTask _ _ _ | TaskCycle _ | InvalidWildcard _ | NoFuel => False
  | GraphError e => e ≠ OutOfFuel
  | _ => True
  end.

Definition extends (st st' : RunState W) : Prop :=
  st_in_progress st' = st_in_progress st ∧ st_executed st ⊆ st_executed st'.

Definition good (st : RunState W) (P : RunState W → Prop) (o : outcome) : Prop :=
  match o.2 with
  | Ok _ => run_inv o.1 ∧ extends st o.1 ∧ P o.1
  | Err e => once_in_order o.1 ∧ late_error e
  end.

#[global] Instance extends_preorder : PreOrder extends.
Proof.
  split; [done|]. intros a b c [H1 H2] [H3 H4]. split; [congruence|]. by transitivity (st_executed b).
Qed.

Lemma good_and_then st P Q o k :
  good st P o →
  (∀ st1, run_inv st1 → extends st st1 → P st1 → good st1 Q (k st1)) →
  good st Q (and_then o k).
Proof.
  unfold and_then. destruct o as [st1 [[]|e]]; [|done]. intros (Hinv & Hext & HP) Hk.
  specialize (Hk st1 Hinv Hext HP). unfold good in *. simpl.
  destruct (k st1) as [st2 [[]|e]]; [|done]. simpl in *. destruct Hk as (? & ? & ?).
  split; [done|]. split; [by transitivity st1|done].
Qed.

Lemma announced_post e st : announced (post e st) = announced st ++ option_list (event_task e).
Proof. unfold announced. simpl. rewrite omap_app. by destruct e. Qed.

Lemma stop_if_signalled_good baseline next st :
  run_inv st → good st (λ st', st' = st) (stop_if_signalled env baseline next st).
Proof.
  intros Hinv. unfold stop_if_signalled. destruct (_ <=? _)%N; [by split|].
  split; [|done]. unfold once_in_order. simpl fst. rewrite announced_post. simpl. rewrite app_nil_r. apply Hinv.
Qed.

Lemma ordered_snoc l t :
  ordered l → (∀ p, requires t p → exempt t ∨ p ∈ l) → ordered (l ++ [t]).
Proof.
  intros Hl Ht l1 x l2 Heq p Hp. destruct l2 as [|y l2 _] using rev_ind.
  - apply app_inj_tail in Heq as [-> ->]. by apply Ht.
  - rewrite app_comm_cons, app_assoc in Heq. apply app_inj_tail in Heq as [-> ->].
    by apply (Hl l1 x l2).
Qed.

(** The task's own part announces it, once, after its prerequisites. *)
Definition own_outcome (st : RunState W) (name : string) (o : outcome) : Prop :=
  match o.2 with
  | Ok _ => announced o.1 = announced st ++ [name] ∧
      st_executed o.1 = st_executed st ∧ st_in_progress o.1 = st_in_progress st
  | Err e => (announced o.1 = announced st ∨ announced o.1 = announced st ++ [name]) ∧
      late_error e
  end.

Lemma run_own_spec baseline name args top st :
  own_outcome st name (run_own env baseline name args top st).
Proof.
  unfold run_own, own_outcome. destruct (evaluate _ _ _) as [[task containers]|]; [|by split; [left|]].
  destruct (t_run task) as [run|]; [|cbn [fst snd]; by rewrite announced_post].
  destruct (check_image_overrides env); [|by split; [left|]].
  unfold and_then, stop_if_signalled. destruct (_ <=? _)%N; simpl.
  2: { rewrite announced_post. simpl. rewrite app_nil_r. by split; [left|]. }
  destruct (containers !! _); [|by split; [left|]].
  pose proof (build_spec containers (r_container run) (t_dependencies task)) as Hg.
  destruct (build_dependency_graph _ _ _) as [g|e].
  2: { split; [by left|]. simpl. by intros ->. }
  destruct (run_graph _ _ _ _ _ _ _) as [w [[]|e]]; simpl;
    match goal with |- context [announced (set_world w ?st')] =>
      change (announced (set_world w st')) with (announced st') end;
    rewrite announced_post; [done|by split; [right|]].
Qed.

Lemma run_prerequisites_good scoped baseline ps progress :
  (∀ p st, p ∈ ps → run_inv st → st_in_progress st = progress →
     good st (λ st', p ∈ st_executed st') (scoped p [] false st)) →
  ∀ st, run_inv st → st_in_progress st = progress →
    good st (λ st', ∀ p, p ∈ ps → p ∈ st_executed st')
      (run_prerequisites env scoped baseline ps st).
Proof.
  induction ps as [|p ps IH]; intros Hscoped st Hst Hprog; simpl; [by split; [|set_solver]|].
  apply (good_and_then st (λ st', st' = st)).
  { destruct (has_run p st); [by split|]. by apply stop_if_signalled_good. }
  intros st1 _ _ ->. apply (good_and_then st (λ st', p ∈ st_executed st')).
  { apply Hscoped; [by left|done..]. }
  intros st2 Hst2 [Hprog2 _] Hp.
  assert (good st2 (λ st', ∀ p, p ∈ ps → p ∈ st_executed st')
    (run_prerequisites env scoped baseline ps st2)) as H.
  { apply IH; [|done|congruence]. intros q st3 Hq. apply Hscoped. by right. }
  unfold good in *. destruct (run_prerequisites _ _ _ _ _) as [st3 [[]|e]]; [|done].
  simpl in *. destruct H as (? & [? Hsub] & Hall). split; [done|]. split; [done|].
  intros q [->|Hq]%elem_of_cons; [by apply Hsub|by apply Hall].
Qed.

(** What [run_task_scoped] is called with: a task none of whose ancestors is
    itself, whose prerequisites [check_prerequisites] has walked. *)
Definition callable (name : string) (top : bool) (st : RunState W) : Prop :=
  run_inv st ∧ is_Some (im_get tasks name) ∧ name ∉ st_in_progress st ∧
  (∀ a, a ∈ st_in_progress st → a ∈ tasks.*1 ∧ tc requires a name) ∧
  (if top && skip_prerequisites env then name = root else sound (E := E) tasks name).

Lemma run_task_internal_spec scoped name args top st progress :
  run_inv st → name ∉ st_executed st → st_in_progress st = progress → is_Some (im_get tasks name) →
  (if top && skip_prerequisites env then name = root else sound (E := E) tasks name) →
  (∀ p st, top && skip_prerequisites env = false → requires name p → run_inv st →
     st_in_progress st = progress → good st (λ st', p ∈ st_executed st') (scoped p [] false st)) →
  ∃ st1, (run_inv st1 ∧ extends st st1 ∧ (∀ p, requires name p → exempt name ∨ p ∈ announced st1) ∧
      own_outcome st1 name (run_task_internal env tasks scoped name args top st)) ∨
    good st (λ _, False) (run_task_internal env tasks scoped name args top st).
Proof.
  intros Hst Hnew Hprog [t Ht] Htop Hscoped.
  unfold run_task_internal, find_task. rewrite Ht. simpl ok_or. cbv beta iota.
  set (baseline := signals env (st_world st)).
  set (before := if top && skip_prerequisites env then _ else _).
  assert (good st (λ st', ∀ p, requires name p → exempt name ∨ p ∈ st_executed st') before) as Hb.
  { unfold before. destruct (top && skip_prerequisites env) eqn:Hskip.
    - split; [done|]. split; [done|]. intros p _. left. split; [done|].
      by apply andb_prop in Hskip as [_ ?].
    - destruct (t_prerequisites t) as [ps|] eqn:Hps.
      + destruct Htop as [_ Htop]. destruct (Htop name (rtc_refl _ _)) as (t' & Ht' & Hexp).
        assert (t' = t) as -> by congruence. destruct (Hexp ps Hps) as [names Hnames]. rewrite Hnames.
        assert (∀ p, requires name p ↔ p ∈ names) as Hreq.
        { intros p. split; [|by exists t, ps, names].
          intros (? & ? & ? & ? & ? & Hn & ?). simplify_eq. rewrite Hnames in Hn. by simplify_eq. }
        pose proof (run_prerequisites_good scoped baseline names progress) as H.
        ospecialize* H; [|exact Hst|exact Hprog|].
        * intros p st' Hp. apply Hscoped; [done|]. by apply Hreq.
        * unfold good in *. destruct (run_prerequisites _ _ _ _ _) as [st2 [[]|e]]; [|done].
          destruct H as (? & ? & H). split; [done|]. split; [done|].
          intros p Hp%Hreq. right. by apply H.
      + split; [done|]. split; [done|]. intros p (? & ? & ? & ? & ? & _). by simplify_eq. }
  unfold good in Hb. unfold and_then. destruct before as [st1 [[]|e]].
  - exists st1. left. destruct Hb as (Hinv & Hext & Hall). split; [done|]. split; [done|].
    split; [|apply run_own_spec]. intros p Hp. simpl. destruct Hinv as (_ & Hiff & _).
    rewrite Hiff. by apply Hall.
  - exists st. by right.
Qed.

Lemma once_in_order_snoc st1 name (o : outcome) :
  run_inv st1 → name ∉ announced st1 →
  (∀ p, requires name p → exempt name ∨ p ∈ announced st1) →
  own_outcome st1 name o → once_in_order o.1.
Proof.
  intros ((Hnd & Hord) & _) Hnew Hreq Ho.
  assert (announced o.1 = announced st1 ∨ announced o.1 = announced st1 ++ [name]) as [E1|E1].
  { unfold own_outcome in Ho. destruct o as [st2 [u|e]]; simpl in *; [right|]; by destruct Ho. }
  { unfold once_in_order. by rewrite E1. }
  unfold once_in_order. rewrite E1. split; [|by apply ordered_snoc].
  apply NoDup_app. split; [done|]. split; [set_solver|apply NoDup_singleton].
Qed.

Lemma progress_fits (progress : gset string) :
  (∀ a, a ∈ progress → a ∈ tasks.*1) → size progress ≤ length tasks.
Proof.
  intros H. rewrite <-(length_fmap fst tasks).
  change (length (elements progress) ≤ length tasks.*1).
  apply submseteq_length, NoDup_submseteq; [apply NoDup_elements|].
  intros x Hx%elem_of_elements. by apply H.
Qed.

Lemma run_task_scoped_good fuel name args top st :
  length tasks < fuel + size (st_in_progress st) → callable name top st →
  good st (λ st', name ∈ st_executed st') (run_task_scoped env tasks fuel name args top st).
Proof.
  revert name args top st. induction fuel as [|fuel IH];
    intros name args top st Hfuel (Hst & Hset & Hnew & Hanc & Hsound).
  { pose proof (progress_fits (st_in_progress st) (λ a Ha, proj1 (Hanc a Ha))). lia. }
  cbn [run_task_scoped]. case_decide as Hexec; [by split|].
  rewrite decide_False by done.
  set (progress := {[name]} ∪ st_in_progress st).
  set (st0 := set_in_progress progress st).
  assert (run_inv st0) as Hst0.
  { destruct Hst as (? & ? & Hdis). split; [done|]. split; [done|]. simpl. set_solver. }
  assert (name ∉ announced st0) as Hann.
  { destruct Hst as (_ & Hiff & _). change (announced st0) with (announced st). by rewrite Hiff. }
  pose proof (run_task_internal_spec (run_task_scoped env tasks fuel) name args top st0 progress
    Hst0 Hexec eq_refl Hset) as Hint. ospecialize* Hint.
  - done.
  - intros p st1 Hskip Hp Hst1 Hprog1. rewrite Hskip in Hsound. apply IH.
    + rewrite Hprog1. unfold progress. rewrite size_union by set_solver.
      rewrite size_singleton. lia.
    + assert (sound (E := E) tasks p) as Hp' by (eapply sound_reachable; [done|by apply rtc_once]).
      assert (∀ a, a ∈ progress → a ∈ tasks.*1 ∧ tc requires a p) as Hanc'.
      { intros a [->%elem_of_singleton|Ha]%elem_of_union.
        - split; [by apply im_get_is_Some|by apply tc_once].
        - destruct (Hanc a Ha). split; [done|]. by eapply tc_r. }
      split; [done|]. split.
      { destruct Hp' as [_ Hp']. by destruct (Hp' p (rtc_refl _ _)) as (t & -> & _). }
      rewrite Hprog1. split; [|done].
      intros Hin. destruct (Hanc' p Hin) as [_ Hc]. by apply (sound_no_cycle tasks p Hp').
  - destruct Hint as (st1 & [(Hst1 & [Hprog1 Hsub] & Hreq & Hown)|Hbad]).
    + assert (name ∉ announced st1) as Hann1.
      { destruct Hst1 as (_ & -> & Hdis). apply Hdis. rewrite Hprog1. simpl. set_solver. }
      pose proof (once_in_order_snoc st1 name _ Hst1 Hann1 Hreq Hown) as Hord.
      unfold own_outcome in Hown. unfold good.
      destruct (run_task_internal _ _ _ _ _ _ _) as [st2 [u|e]]; simpl in *; [|split; [done|apply Hown]].
      destruct Hown as (E1 & E2 & E3). rewrite E3, Hprog1, E2. destruct Hst1 as (_ & Hiff & Hdis).
      unfold run_inv, extends, announced in *. simpl.
      split; [split; [done|]; split|split; [split|]].
      * intros t. rewrite E1, elem_of_app, list_elem_of_singleton, Hiff. set_solver.
      * intros x. rewrite Hprog1 in Hdis. simpl in Hdis. set_solver.
      * unfold progress. set_solver.
      * simpl in Hsub. set_solver.
      * set_solver.
    + unfold good in *. destruct (run_task_internal _ _ _ _ _ _ _) as [st2 [u|e]]; simpl in *; [|done].
      by destruct Hbad as (_ & _ & []).
Qed.
End run_order.

(** ** Properties *)

Section properties.
Context `{RegexLaws} {E : Type}.
#[local] Set Default Proof Using "All".

(** What [check_prerequisites] settles before anything runs.  It accepts
    exactly when the named task exists and (unless prerequisites are skipped)
    every task it requires, directly or not, exists and none requires itself;
    a cycle or a missing task is reported only when there is one among them.
    It always ends. *)
Theorem check_prerequisites_spec tasks name skip :
  let requires := prerequisite (E := E) tasks in
  match check_prerequisites (E := E) tasks name skip with
  | Ok _ => is_Some (im_get tasks name) ∧
      (skip = false → ∀ x, rtc requires name x → is_Some (im_get tasks x) ∧ ¬ tc requires x x)
  | Err (UnknownTask n s requested) =>
      im_get tasks n = None ∧ s = format_task_suggestions tasks n ∧
      (if requested then n = name else skip = false ∧ rtc requires name n)
  | Err (TaskCycle n) => skip = false ∧ rtc requires name n ∧ tc requires n n
  | Err _ => False
  end.
Proof.
  intros requires. pose proof (check_prerequisites_sound (E := E) tasks name skip) as Hc.
  destruct (check_prerequisites _ _ _) as [u|e].
  - destruct Hc as [? Hs]. split; [done|]. intros Hskip x Hx. specialize (Hs Hskip).
    split; [|by eapply sound_no_cycle, sound_reachable].
    destruct Hs as [_ Hs]. destruct (Hs x Hx) as (t & -> & _). by eexists.
  - destruct Hc as [Hc Hs]. destruct skip; [destruct (Hs eq_refl) as [s' ->]; naive_solver|].
    destruct e; simpl in Hc; try done.
    + destruct requested; naive_solver.
    + destruct (wildcard_to_regex_spec (E := E) pattern) as (r & Hr & _).
      unfold wildcard_to_regex in Hr. by rewrite Hc in Hr.
Qed.

(** What is settled of a task's prerequisites before anything runs.  An entry
    without a [*] stands for itself and any other for the tasks it matches,
    sorted; [check_prerequisites] accepts exactly when the named task exists
    and (unless prerequisites are skipped) every task it requires, directly or
    not, exists and none requires itself; and a cycle or a missing task is
    reported only when there is one among them.  It always ends. *)
Theorem prerequisites_spec tasks name skip :
  (∀ patterns, ∃ expansions,
    expand_prerequisite_wildcards (E := E) tasks patterns = Ok (concat expansions) ∧
    Forall2 (λ pattern names,
      if contains_char "*" pattern
      then StronglySorted str_le names ∧ ∀ x, x ∈ names ↔ x ∈ tasks.*1 ∧ glob pattern x
      else names = [pattern]) patterns expansions) ∧
  let requires := prerequisite (E := E) tasks in
  match check_prerequisites (E := E) tasks name skip with
  | Ok _ => is_Some (im_get tasks name) ∧
      (skip = false → ∀ x, rtc requires name x → is_Some (im_get tasks x) ∧ ¬ tc requires x x)
  | Err (UnknownTask n s requested) =>
      im_get tasks n = None ∧ s = format_task_suggestions tasks n ∧
      (if requested then n = name else skip = false ∧ rtc requires name n)
  | Err (TaskCycle n) => skip = false ∧ rtc requires name n ∧ tc requires n n
  | Err _ => False
  end.
Proof. split; [intros; apply expand_prerequisite_wildcards_spec|apply check_prerequisites_spec]. Qed.
End properties.

(** A run starts nothing when [check_prerequisites] refuses it.  Otherwise
    every task's own part is reached at most once, and only after those of
    all its prerequisites (the named task's excepted under
    [--skip-prerequisites]); when the run passes, every task the named one
    requires has run; and no run ends in a missing task, a task cycle, a bad
    wildcard or without ending.  Whatever the tasks themselves do. *)
Theorem run_task_spec {RX : RegexCrate} {E W} (env : Surroundings (E := E) (W := W))
    tasks name args w :
  let requires := prerequisite (E := E) tasks in
  let '(st, r) := run_task env tasks name args w in
  match check_prerequisites (E := E) tasks name (skip_prerequisites env) with
  | Err e => r = Err e ∧ st_events st = [] ∧ st_world st = w
  | Ok _ =>
      NoDup (announced st) ∧
      (∀ before t after, announced st = before ++ t :: after → ∀ p, requires t p →
         p ∈ before ∨ t = name ∧ skip_prerequisites env = true) ∧
      (r = Ok tt → name ∈ announced st ∧
         (skip_prerequisites env = false → ∀ x, rtc requires name x → x ∈ announced st)) ∧
      ∀ e, r = Err e → late_error e
  end.
Proof.
  intros requires. unfold run_task.
  pose proof (check_prerequisites_sound (E := E) tasks name (skip_prerequisites env)) as Hc.
  destruct (check_prerequisites _ _ _) as [u|e]; [|done].
  set (st0 := mk_run_state ∅ ∅ [] w). destruct Hc as [Hname Hsound].
  pose proof (run_task_scoped_good env tasks name (S (length tasks)) name args true st0) as H.
  ospecialize* H.
  { simpl. lia. }
  { split; [|split; [done|split; [|split]]].
    - split; [|split]; [split; [apply NoDup_nil_2|]| |]; simpl; [|set_solver..].
      intros l1 t l2 Heq. by destruct l1.
    - simpl. set_solver.
    - simpl. set_solver.
    - simpl. destruct (skip_prerequisites env); [done|]. by apply Hsound. }
  assert (∀ st : RunState W, ordered (E := E) env tasks name (announced st) → name ∈ announced st →
    skip_prerequisites env = false → ∀ x, rtc requires name x → x ∈ announced st) as Hclosed.
  { intros st Hord Hin Hskip. apply rtc_ind_r; [done|]. intros y z _ Hyz Hy.
    apply list_elem_of_split in Hy as (l1 & l2 & Heq).
    destruct (Hord l1 y l2 Heq z Hyz) as [[_ ?]|Hz]; [congruence|]. rewrite Heq. set_solver. }
  unfold and_then, good in *.
  destruct (run_task_scoped _ _ _ _ _ _ _) as [st [[]|e]]; simpl in *.
  - destruct H as (((Hnd & Hord) & Hiff & _) & _ & Hin). apply Hiff in Hin.
    assert (∀ before t after, announced st = before ++ t :: after → ∀ p, requires t p →
      p ∈ before ∨ t = name ∧ skip_prerequisites env = true) as Hord'.
    { intros l1 t l2 Heq p Hp. destruct (Hord l1 t l2 Heq p Hp) as [?|?]; auto. }
    case_bool_decide; (split; [done|]; split; [done|]; split; [|by intros ? [= <-]]); eauto.
  - destruct H as ((Hnd & Hord) & Hlate). split; [done|]. split; [|split; [done|]].
    + intros l1 t l2 Heq p Hp. destruct (Hord l1 t l2 Heq p Hp) as [?|?]; auto.
    + by intros e' [= <-].
Qed.

(** C19: The order of a project's tasks.  A prerequisite without a [*] stands for
    itself and any other for the tasks it matches, sorted.  Before anything runs,
    [check_prerequisites] accepts exactly when the named task exists and (unless
    prerequisites are skipped) every task it requires, directly or not, exists
    and none requires itself; a cycle or a missing task is reported only when
    there is one among them.  A run starts nothing when that refuses it.
    Otherwise every task's own part is reached at most once, and only after those
    of all its prerequisites (the named task's excepted under
    [--skip-prerequisites]); when the run passes, every task the named one
    requires has run; and no run ends in a missing task, a task cycle, a bad
    wildcard or without ending, whatever the tasks themselves do. *)
Theorem task_order_spec {RX : RegexCrate} {laws : RegexLaws} {E} tasks name :
  let requires := prerequisite (E := E) tasks in
  (∀ patterns, ∃ expansions,
    expand_prerequisite_wildcards (E := E) tasks patterns = Ok (concat expansions) ∧
    Forall2 (λ pattern names,
      if contains_char "*" pattern
      then StronglySorted str_le names ∧ ∀ x, x ∈ names ↔ x ∈ tasks.*1 ∧ glob pattern x
      else names = [pattern]) patterns expansions) ∧
  (∀ skip,
    match check_prerequisites (E := E) tasks name skip with
    | Ok _ => is_Some (im_get tasks name) ∧
        (skip = false → ∀ x, rtc requires name x → is_Some (im_get tasks x) ∧ ¬ tc requires x x)
    | Err (UnknownTask n s requested) =>
        im_get tasks n = None ∧ s = format_task_suggestions tasks n ∧
        (if requested then n = name else skip = false ∧ rtc requires name n)
    | Err (TaskCycle n) => skip = false ∧ rtc requires name n ∧ tc requires n n
    | Err _ => False
    end) ∧
  (∀ W (env : Surroundings (E := E) (W := W)) args w,
    let '(st, r) := run_task env tasks name args w in
    match check_prerequisites (E := E) tasks name (skip_prerequisites env) with
    | Err e => r = Err e ∧ st_events st = [] ∧ st_world st = w
    | Ok _ =>
        NoDup (announced st) ∧
        (∀ before t after, announced st = before ++ t :: after → ∀ p, requires t p →
           p ∈ before ∨ t = name ∧ skip_prerequisites env = true) ∧
        (r = Ok tt → name ∈ announced st ∧
           (skip_prerequisites env = false → ∀ x, rtc requires name x → x ∈ announced st)) ∧
        ∀ e, r = Err e → late_error e
    end).
Proof.
  split_and!; [intros; apply (prerequisites_spec tasks name false)|intros; apply prerequisites_spec|].
  intros. apply run_task_spec.
Qed.

(** ** The interface of [Regex] can be met: two tasks matched by a wildcard, and
    a cycle through one *)

Definition chain_task (prerequisites : list string) : Task :=
  mk_task None (Some prerequisites) None None None None.

Definition example_tasks : tasks_map :=
  [("all", chain_task ["check:*"]); ("check:b", chain_task []); ("check:a", chain_task [])].

Definition cyclic_tasks : tasks_map := [("a", chain_task ["b*"]); ("b1", chain_task ["a"])].

Example expand_prerequisite_wildcards_spec_witness :
  expand_prerequisite_wildcards (H := lang_crate) (E := unit) example_tasks ["check:*"; "gone"] =
    Ok ["check:a"; "check:b"; "gone"] ∧
  ∃ expansions, expand_prerequisite_wildcards (H := lang_crate) (E := unit) example_tasks
    ["check:*"; "gone"] = Ok (concat expansions).
Proof.
  split; [vm_compute; reflexivity|].
  destruct (@expand_prerequisite_wildcards_spec lang_crate lang_crate_laws unit example_tasks
    ["check:*"; "gone"]) as (expansions & Hexp & _). exists expansions. exact Hexp.
Defined.

Example check_prerequisites_spec_witness :
  check_prerequisites (H := lang_crate) (E := unit) cyclic_tasks "a" false = Err (TaskCycle "a") ∧
  tc (prerequisite (RX := lang_crate) (E := unit) cyclic_tasks) "a" "a".
Proof.
  assert (check_prerequisites (H := lang_crate) (E := unit) cyclic_tasks "a" false =
    Err (TaskCycle "a")) as He by (vm_compute; reflexivity).
  split; [exact He|].
  pose proof (@check_prerequisites_spec lang_crate lang_crate_laws unit cyclic_tasks "a" false)
    as Hs. simpl in Hs. rewrite He in Hs. exact (proj2 (proj2 Hs)).
Defined.

Example task_order_spec_witness :
  check_prerequisites (H := lang_crate) (E := unit) cyclic_tasks "a" false = Err (TaskCycle "a") ∧
  expand_prerequisite_wildcards (H := lang_crate) (E := unit) example_tasks ["check:*"; "gone"] =
    Ok ["check:a"; "check:b"; "gone"] ∧
  (∃ expansions, expand_prerequisite_wildcards (H := lang_crate) (E := unit) example_tasks
    ["check:*"; "gone"] = Ok (concat expansions)) ∧
  rtc (prerequisite (RX := lang_crate) (E := unit) cyclic_tasks) "a" "a" ∧
  tc (prerequisite (RX := lang_crate) (E := unit) cyclic_tasks) "a" "a".
Proof.
  assert (check_prerequisites (H := lang_crate) (E := unit) cyclic_tasks "a" false = Err (TaskCycle "a"))
    as Hc by (vm_compute; reflexivity).
  split; [exact Hc|]. split; [vm_compute; reflexivity|]. split.
  - destruct (@task_order_spec lang_crate lang_crate_laws unit example_tasks "x") as [Hw _].
    destruct (Hw ["check:*"; "gone"]) as (expansions & Hexp & _). exists expansions. exact Hexp.
  - destruct (@task_order_spec lang_crate lang_crate_laws unit cyclic_tasks "a") as (_ & H & _).
    specialize (H false). simpl in H. rewrite Hc in H. destruct H as (_ & H1 & H2). split; [exact H1|exact H2].
Defined.
