(* ===== verification/Extends.v ===== *)
(** * Extends: the inheritance between containers

    [resolve_extends], [resolve_container_extends] and
    [inherit_container_fields] of [ratect-core/src/config.rs].  The
    specification names the chain of a container ([extends_chain]) and gives
    every field the first value set along it. *)

From S2P Require Import Prelude Text Collections Values Config.
From stdpp Require Import options.

(** ** The code *)

(** [child.or(parent)] on options. *)
Definition or {A} (child parent : option A) : option A :=
  match child with Some a => Some a | None => parent end.

Definition inherit_container_fields (child parent : Container) : Container :=
  mk_container
    (c_extends child)
    (or (c_image child) (c_image parent))
    (or (c_image_pull_policy child) (c_image_pull_policy parent))
    (or (c_build_directory child) (c_build_directory parent))
    (c_build_directory_in_bundle child)
    (or (c_build_args child) (c_build_args parent))
    (or (c_dockerfile child) (c_dockerfile parent))
    (or (c_build_target child) (c_build_target parent))
    (or (c_build_secrets child) (c_build_secrets parent))
    (or (c_build_ssh child) (c_build_ssh parent))
    (or (c_volumes child) (c_volumes parent))
    (or (c_dependencies child) (c_dependencies parent))
    (or (c_environment child) (c_environment parent))
    (or (c_run_as_current_user child) (c_run_as_current_user parent))
    (or (c_additional_hostnames child) (c_additional_hostnames parent))
    (or (c_additional_hosts child) (c_additional_hosts parent))
    (or (c_ports child) (c_ports parent))
    (or (c_health_check child) (c_health_check parent))
    (or (c_setup_commands child) (c_setup_commands parent))
    (or (c_run_to_completion child) (c_run_to_completion parent))
    (or (c_external_health_check child) (c_external_health_check parent))
    (c_reports_readiness_for child)
    (or (c_working_directory child) (c_working_directory parent))
    (or (c_command child) (c_command parent))
    (or (c_entrypoint child) (c_entrypoint parent))
    (or (c_labels child) (c_labels parent))
    (or (c_capabilities_to_add child) (c_capabilities_to_add parent))
    (or (c_capabilities_to_drop child) (c_capabilities_to_drop parent))
    (or (c_privileged child) (c_privileged parent))
    (or (c_shm_size child) (c_shm_size parent))
    (or (c_devices child) (c_devices parent))
    (or (c_enable_init_process child) (c_enable_init_process parent))
    (or (c_log_driver child) (c_log_driver parent))
    (or (c_log_options child) (c_log_options parent))
    (or (c_stop_signal child) (c_stop_signal parent))
    (or (c_stop_grace_period child) (c_stop_grace_period parent))
    (or (c_ulimits child) (c_ulimits parent))
    (or (c_dns child) (c_dns parent))
    (or (c_dns_search child) (c_dns_search parent))
    (or (c_dns_options child) (c_dns_options parent))
    (or (c_network_mode child) (c_network_mode parent))
    (or (c_user child) (c_user parent))
    (or (c_group child) (c_group parent))
    (or (c_groups child) (c_groups parent))
    (or (c_identity child) (c_identity parent)).

(** [merged.extends = None]. *)
Definition without_extends (c : Container) : Container :=
  mk_container
    None
    (c_image c)
    (c_image_pull_policy c)
    (c_build_directory c)
    (c_build_directory_in_bundle c)
    (c_build_args c)
    (c_dockerfile c)
    (c_build_target c)
    (c_build_secrets c)
    (c_build_ssh c)
    (c_volumes c)
    (c_dependencies c)
    (c_environment c)
    (c_run_as_current_user c)
    (c_additional_hostnames c)
    (c_additional_hosts c)
    (c_ports c)
    (c_health_check c)
    (c_setup_commands c)
    (c_run_to_completion c)
    (c_external_health_check c)
    (c_reports_readiness_for c)
    (c_working_directory c)
    (c_command c)
    (c_entrypoint c)
    (c_labels c)
    (c_capabilities_to_add c)
    (c_capabilities_to_drop c)
    (c_privileged c)
    (c_shm_size c)
    (c_devices c)
    (c_enable_init_process c)
    (c_log_driver c)
    (c_log_options c)
    (c_stop_signal c)
    (c_stop_grace_period c)
    (c_ulimits c)
    (c_dns c)
    (c_dns_search c)
    (c_dns_options c)
    (c_network_mode c)
    (c_user c)
    (c_group c)
    (c_groups c)
    (c_identity c).

(** Which container supplied each field whose value is anchored on the file
    that declares it. *)
Record Suppliers := mk_suppliers {
  s_image : string;
  s_volumes : string;
  s_build_directory : string;
  s_build_secrets : string;
  s_build_ssh : string;
  s_run_as_current_user : string;
}.

Definition suppliers_own (name : string) : Suppliers :=
  mk_suppliers name name name name name name.

Definition supplier {A} (value : option A) (own inherited : string) : string :=
  match value with Some _ => own | None => inherited end.

Definition inherit_suppliers (merged : Container) (supplied inherited : Suppliers) : Suppliers :=
  mk_suppliers
    (supplier (c_image merged) (s_image supplied) (s_image inherited))
    (supplier (c_volumes merged) (s_volumes supplied) (s_volumes inherited))
    (supplier (c_build_directory merged) (s_build_directory supplied) (s_build_directory inherited))
    (supplier (c_build_secrets merged) (s_build_secrets supplied) (s_build_secrets inherited))
    (supplier (c_build_ssh merged) (s_build_ssh supplied) (s_build_ssh inherited))
    (supplier (c_run_as_current_user merged) (s_run_as_current_user supplied)
      (s_run_as_current_user inherited)).

Inductive extends_error :=
| CyclicExtends (name : string) (path : list string)
| UndefinedParent (name parent : string)
| ExtendsPanic
| ExtendsFuel.

Notation resolution := (gmap string Container * gmap string Suppliers)%type.

Fixpoint resolve_container_extends (fuel : nat) (name : string) (source : index_map Container)
    (state : resolution) (ancestors : list string) : result resolution extends_error :=
  match fuel with
  | O => Err ExtendsFuel
  | S fuel =>
      if decide (is_Some (state.1 !! name)) then Ok state
      else if decide (name ∈ ancestors) then Err (CyclicExtends name (ancestors ++ [name]))
      else
        match im_get source name with
        | None => Err ExtendsPanic
        | Some merged =>
            let supplied := suppliers_own name in
            match c_extends merged with
            | None =>
                Ok (<[name := without_extends merged]> state.1, <[name := supplied]> state.2)
            | Some parent =>
                if decide (im_get source parent = None) then Err (UndefinedParent name parent)
                else
                  let? state :=
                    resolve_container_extends fuel parent source state (ancestors ++ [name]) in
                  match state.1 !! parent, state.2 !! parent with
                  | Some parent, Some inherited =>
                      let supplied := inherit_suppliers merged supplied inherited in
                      let merged := inherit_container_fields merged parent in
                      Ok (<[name := without_extends merged]> state.1,
                          <[name := supplied]> state.2)
                  | _, _ => Err ExtendsPanic
                  end
            end
        end
  end.

(** The containers again, in the order they were declared in. *)
Fixpoint rebuild (names : list string) (resolved : gmap string Container)
    : result (index_map Container) extends_error :=
  match names with
  | [] => Ok []
  | name :: names =>
      match resolved !! name with
      | None => Err ExtendsPanic
      | Some container =>
          let? rest := rebuild names (delete name resolved) in
          Ok ((name, container) :: rest)
      end
  end.

Definition resolve_extends (containers : index_map Container)
    : result (index_map Container * gmap string Suppliers) extends_error :=
  let names := containers.*1 in
  let? (resolved, suppliers) := try_fold (λ state name,
      resolve_container_extends (S (length containers)) name containers state [])
    names (∅, ∅) in
  let? containers := rebuild names resolved in
  Ok (containers, suppliers).

(** ** The specification *)

(** A field of a container, whatever its type. *)
Record Field := mk_field { f_type : Type; f_get : Container → option f_type }.
Arguments mk_field {_} _.

(** Every field but [extends] itself and the two that later passes set. *)
Definition inheritable : list Field :=
  [ mk_field c_image; mk_field c_image_pull_policy; mk_field c_build_directory; mk_field c_build_args;
    mk_field c_dockerfile; mk_field c_build_target; mk_field c_build_secrets; mk_field c_build_ssh;
    mk_field c_volumes; mk_field c_dependencies; mk_field c_environment; mk_field
    c_run_as_current_user; mk_field c_additional_hostnames; mk_field c_additional_hosts; mk_field
    c_ports; mk_field c_health_check; mk_field c_setup_commands; mk_field c_run_to_completion;
    mk_field c_external_health_check; mk_field c_working_directory; mk_field c_command; mk_field
    c_entrypoint; mk_field c_labels; mk_field c_capabilities_to_add; mk_field
    c_capabilities_to_drop; mk_field c_privileged; mk_field c_shm_size; mk_field c_devices; mk_field
    c_enable_init_process; mk_field c_log_driver; mk_field c_log_options; mk_field c_stop_signal;
    mk_field c_stop_grace_period; mk_field c_ulimits; mk_field c_dns; mk_field c_dns_search; mk_field
    c_dns_options; mk_field c_network_mode; mk_field c_user; mk_field c_group; mk_field c_groups;
    mk_field c_identity ].

Section spec.
Context (source : index_map Container).
#[local] Set Default Proof Using "Type".

Definition parent_of (x y : string) : Prop :=
  ∃ c, im_get source x = Some c ∧ c_extends c = Some y.

(** A container, what it extends, what that extends, and so on. *)
Inductive extends_chain : string → list (string * Container) → Prop :=
| chain_base name c :
    im_get source name = Some c → c_extends c = None → extends_chain name [(name, c)]
| chain_child name c parent chain :
    im_get source name = Some c → c_extends c = Some parent → extends_chain parent chain →
    extends_chain name ((name, c) :: chain).

Fixpoint first_set {A} (values : list (option A)) : option A :=
  match values with
  | [] => None
  | Some a :: _ => Some a
  | None :: values => first_set values
  end.

(** The container of the chain a field's value is from; if none sets it, the
    last. *)
Fixpoint supplier_in {A} (get : Container → option A) (chain : list (string * Container))
    : string :=
  match chain with
  | [] => EmptyString
  | (name, c) :: chain =>
      match get c, chain with
      | None, _ :: _ => supplier_in get chain
      | _, _ => name
      end
  end.

Definition effective (chain : list (string * Container)) (c : Container) : Prop :=
  Forall (λ f, f_get f c = first_set (f_get f ∘ snd <$> chain)) inheritable ∧
  c_extends c = None ∧
  ∃ own, head chain.*2 = Some own ∧ c_reports_readiness_for c = c_reports_readiness_for own ∧
    c_build_directory_in_bundle c = c_build_directory_in_bundle own.

Definition supplied_by (chain : list (string * Container)) (s : Suppliers) : Prop :=
  s = mk_suppliers (supplier_in c_image chain) (supplier_in c_volumes chain)
    (supplier_in c_build_directory chain) (supplier_in c_build_secrets chain)
    (supplier_in c_build_ssh chain) (supplier_in c_run_as_current_user chain).

Lemma inherit_fields child parent :
  Forall (λ f, f_get f (without_extends (inherit_container_fields child parent)) =
    or (f_get f child) (f_get f parent)) inheritable.
Proof. unfold inheritable. repeat (constructor; [reflexivity|]). constructor. Qed.

Lemma without_extends_fields c :
  Forall (λ f, f_get f (without_extends c) = f_get f c) inheritable.
Proof. unfold inheritable. repeat (constructor; [reflexivity|]). constructor. Qed.

Lemma effective_base name c : effective [(name, c)] (without_extends c).
Proof.
  split; [|split; [done|by exists c]].
  eapply Forall_impl; [apply without_extends_fields|]. intros f Hf. simpl. rewrite Hf. by destruct (f_get f c).
Qed.

Lemma effective_child name c chain p :
  effective chain p → effective ((name, c) :: chain) (without_extends (inherit_container_fields c p)).
Proof.
  intros [Hp _]. split; [|split; [done|by exists c]].
  pose proof (inherit_fields c p) as Hc. rewrite Forall_forall in Hp, Hc |- *.
  intros f Hf. rewrite (Hc f Hf), (Hp f Hf). csimpl. by destruct (f_get f c).
Qed.

Lemma supplied_child name c chain s :
  chain ≠ [] → supplied_by chain s →
  supplied_by ((name, c) :: chain) (inherit_suppliers c (suppliers_own name) s).
Proof.
  intros Hne ->. unfold supplied_by, inherit_suppliers, suppliers_own. simpl.
  destruct chain as [|x chain]; [done|]. f_equal; unfold supplier; by destruct (_ c).
Qed.

Definition resolution_inv (st : resolution) : Prop :=
  ∀ name c, st.1 !! name = Some c → ∃ chain s,
    extends_chain name chain ∧ effective chain c ∧ st.2 !! name = Some s ∧ supplied_by chain s.

Definition extends_problem (e : extends_error) : Prop :=
  match e with
  | CyclicExtends name path => tc parent_of name name ∧ last path = Some name
  | UndefinedParent name parent => parent_of name parent ∧ im_get source parent = None
  | _ => False
  end.

Lemma resolution_inv_insert st name c chain s :
  resolution_inv st → extends_chain name chain → effective chain c → supplied_by chain s →
  resolution_inv (<[name := c]> st.1, <[name := s]> st.2).
Proof.
  intros Hst ? ? ? n c'. simpl. intros [[<- <-]|[Hne Hn]]%lookup_insert_Some.
  - exists chain, s. by rewrite lookup_insert_eq.
  - rewrite lookup_insert_ne by done. by apply Hst.
Qed.

Lemma extends_chain_nonempty name chain : extends_chain name chain → chain ≠ [].
Proof. by destruct 1. Qed.

Lemma resolve_container_extends_spec fuel name st ancestors :
  is_Some (im_get source name) → NoDup ancestors → length source < fuel + length ancestors →
  (∀ a, a ∈ ancestors → a ∈ source.*1 ∧ tc parent_of a name) → resolution_inv st →
  match resolve_container_extends fuel name source st ancestors with
  | Ok st' => resolution_inv st' ∧ is_Some (st'.1 !! name) ∧
      ∀ n, is_Some (st.1 !! n) → is_Some (st'.1 !! n)
  | Err e => extends_problem e
  end.
Proof.
  revert name st ancestors. induction fuel as [|fuel IH];
    intros name st ancestors [merged Hname] Hnd Hfuel Hanc Hst; simpl.
  { assert (length ancestors ≤ length source.*1); [|rewrite length_fmap in *; lia].
    apply submseteq_length, NoDup_submseteq; [done|]. intros a Ha. by apply Hanc. }
  case_decide as Hdone; [done|].
  case_decide as Hcyc; [split; [by apply Hanc|apply last_snoc]|]. rewrite Hname.
  assert (∀ c s n, is_Some (st.1 !! n) → is_Some ((<[name:=c]> st.1, s : gmap string Suppliers).1 !! n))
    as Hkeep by (intros; simpl; rewrite lookup_insert_is_Some'; auto).
  destruct (c_extends merged) as [parent|] eqn:Hext.
  - case_decide as Hparent; [split; [by exists merged|done]|].
    assert (parent_of name parent) as Hpo by by exists merged.
    specialize (IH parent st (ancestors ++ [name])). ospecialize* IH; [..|done|].
    + by destruct (im_get source parent).
    + apply NoDup_app. split; [done|]. split; [set_solver|apply NoDup_singleton].
    + rewrite length_app. simpl. lia.
    + intros a [Ha|Ha]%elem_of_app.
      * destruct (Hanc a Ha). split; [done|]. by eapply tc_r.
      * apply list_elem_of_singleton in Ha as ->. split; [|by apply tc_once].
        apply im_get_is_Some. by rewrite Hname.
    + destruct (resolve_container_extends _ _ _ _ _) as [st'|e]; simpl; [|done].
      destruct IH as (Hst' & [p Hp] & Hmono). rewrite Hp.
      destruct (Hst' parent p Hp) as (chain & s & Hch & Heff & -> & Hs).
      split; [|split].
      * apply (resolution_inv_insert _ _ _ ((name, merged) :: chain)); [done| | |].
        -- by eapply chain_child.
        -- by apply effective_child.
        -- apply supplied_child; [by eapply extends_chain_nonempty|done].
      * simpl. by rewrite lookup_insert_eq.
      * intros n Hn. simpl. rewrite lookup_insert_is_Some'. auto.
  - split; [|split; [simpl; by rewrite lookup_insert_eq|intros n Hn; by apply Hkeep]].
    apply (resolution_inv_insert _ _ _ [(name, merged)]); [done| | |].
    + by apply chain_base.
    + apply effective_base.
    + unfold supplied_by. simpl. by repeat destruct (_ merged).
Qed.

Lemma rebuild_spec names resolved :
  NoDup names → (∀ n, n ∈ names → is_Some (resolved !! n)) →
  ∃ l, rebuild names resolved = Ok l ∧ l.*1 = names ∧ ∀ n c, (n, c) ∈ l → resolved !! n = Some c.
Proof.
  revert resolved. induction names as [|n names IH]; intros resolved Hnd Hall; simpl.
  { exists []. split; [done|]. split; [done|]. set_solver. }
  apply NoDup_cons in Hnd as [Hn Hnd]. destruct (Hall n) as [c Hc]; [by left|]. rewrite Hc.
  destruct (IH (delete n resolved)) as (l & -> & <- & Hl); [done| |].
  { intros m Hm. rewrite lookup_delete_ne; [apply Hall; by right|]. by intros ->. }
  exists ((n, c) :: l). split; [done|]. split; [done|]. intros m c' Hm.
  apply elem_of_cons in Hm as [Hm|Hm].
  - by injection Hm as -> ->.
  - by apply Hl, lookup_delete_Some in Hm as [_ ?].
Qed.

Lemma resolve_all_spec names st :
  resolution_inv st → (∀ n, n ∈ names → n ∈ source.*1) →
  match try_fold (λ st n, resolve_container_extends (S (length source)) n source st []) names st with
  | Ok st' => resolution_inv st' ∧ ∀ n, n ∈ names → is_Some (st'.1 !! n)
  | Err e => extends_problem e
  end.
Proof.
  intros Hst Hnames. set (f := λ st n, _).
  assert (∀ st n, n ∈ names → resolution_inv st →
    match f st n with
    | Ok st' => resolution_inv st' ∧ is_Some (st'.1 !! n) ∧
        ∀ n, is_Some (st.1 !! n) → is_Some (st'.1 !! n)
    | Err e => extends_problem e end) as Hf.
  { intros st1 n Hn Hst1. apply resolve_container_extends_spec; [|constructor| |set_solver|done].
    - by apply im_get_is_Some, Hnames.
    - simpl. lia. }
  apply (try_fold_ind f resolution_inv (λ n st, is_Some (st.1 !! n)) (extends_problem)); [| |done].
  - intros st1 st2 x y Hy Hx Hst1 E. specialize (Hf st1 y Hy Hst1). rewrite E in Hf. by apply Hf.
  - intros st1 n Hn Hst1. specialize (Hf st1 n Hn Hst1). destruct (f st1 n); [|done].
    destruct Hf as (? & ? & _). by split.
Qed.
End spec.

(** ** Properties *)

(** C20: Inheritance gives every container, in the order declared, each field as
    the nearest container along its [extends] chain that sets it has it, and
    the name of that container for the fields a path or a message depends on;
    nothing is merged inside a field, and no [extends] is left.  It fails
    only for a container that extends itself, directly or not, or extends one
    that is not defined, and always ends. *)
Theorem resolve_extends_spec containers :
  NoDup containers.*1 →
  match resolve_extends containers with
  | Ok (resolved, suppliers) =>
      resolved.*1 = containers.*1 ∧
      ∀ name c, (name, c) ∈ resolved → ∃ chain s, extends_chain containers name chain ∧
        effective chain c ∧ suppliers !! name = Some s ∧ supplied_by chain s
  | Err (CyclicExtends name path) => tc (parent_of containers) name name ∧ last path = Some name
  | Err (UndefinedParent name parent) =>
      parent_of containers name parent ∧ im_get containers parent = None
  | Err _ => False
  end.
Proof.
  intros Hnd. unfold resolve_extends.
  pose proof (resolve_all_spec containers containers.*1 (∅, ∅)) as H. ospecialize* H; [done..|].
  destruct (try_fold _ _ _) as [[resolved suppliers]|[]]; simpl; [|done..].
  destruct H as [Hinv Hall]. destruct (rebuild_spec containers.*1 resolved Hnd Hall) as (l & -> & Hl & Hget).
  simpl. split; [done|]. intros name c Hin. by apply (Hinv name c), Hget.
Qed.

Definition example_containers : index_map Container :=
  [ ("child", mk_container (Some "base") None None None None None None None None
      None None None None None None None None None None None None None
      (Some "/srv") None None None None None None None None None None None None None
      None None None None None None None None None);
    ("base", mk_container None (Some "alpine") None None None None None None None
      None None None None None None None None None None None None None
      (Some "/") None None None None None None None None None None None None None
      None None None None None None None None None) ].

Definition example_outcome : option (option string) * option (option string) * option string :=
  match resolve_extends example_containers with
  | Ok (resolved, suppliers) =>
      (c_image <$> im_get resolved "child", c_working_directory <$> im_get resolved "child",
       s_image <$> suppliers !! "child")
  | Err _ => (None, None, None)
  end.

Example resolve_extends_spec_witness :
  NoDup example_containers.*1 ∧
  example_outcome = (Some (Some "alpine"), Some (Some "/srv"), Some "base") ∧
  match resolve_extends example_containers with
  | Ok (resolved, _) => resolved.*1 = example_containers.*1
  | Err e => extends_problem example_containers e
  end.
Proof.
  assert (NoDup example_containers.*1) as Hnd
    by (apply (bool_decide_unpack _); vm_compute; exact I).
  split; [exact Hnd|]. split; [vm_compute; reflexivity|].
  pose proof (resolve_extends_spec example_containers Hnd) as H.
  destruct (resolve_extends example_containers) as [[resolved suppliers]|[]];
    [exact (proj1 H)|exact H..].
Defined.
