(* ===== verification/CommandLine.v ===== *)
(** * CommandLine: a command line split into its arguments

    [tokenize_command_line] and [build_cmd] of [ratect-core/src/docker.rs]: how
    a [command], an [entrypoint] or a setup command of the configuration
    becomes the arguments a container is started with.  The loop over the chars
    is structural; its specification reads the line as a list of pieces (a
    separator, a bare or escaped char, a quoted run), and a line that is no
    such list as one that breaks off inside a piece. *)

From S2P Require Import Prelude Text.
From stdpp Require Import options.

(** ** The code *)

Definition backslash : ascii := "\".
Definition single_quote : ascii := "'".
Definition double_quote : ascii := "034".

Inductive TokenizerState := Normal | SingleQuote | DoubleQuote.
#[global] Instance TokenizerState_eq_dec : EqDecision TokenizerState.
Proof. solve_decision. Defined.

(** What the three messages say of the command line they quote. *)
Inductive command_error :=
| DanglingBackslash (input : string)
| UnbalancedDoubleQuote (input : string)
| UnbalancedSingleQuote (input : string).

(** [current.chars().any(|c| !c.is_whitespace())] *)
Definition is_blank (l : list ascii) : bool := forallb is_whitespace l.

(** The loop and the [match] after it; [current] and [arguments] are the
    variables the loop updates. *)
Fixpoint tokenize_from (input : string) (state : TokenizerState) (current : list ascii)
    (arguments : list string) (l : list ascii) : result (list string) command_error :=
  match l with
  | [] =>
      match state with
      | DoubleQuote => Err (UnbalancedDoubleQuote input)
      | SingleQuote => Err (UnbalancedSingleQuote input)
      | Normal => Ok (match current with [] => arguments | _ => arguments ++ [of_chars current] end)
      end
  | c :: l =>
      match state with
      | Normal =>
          if decide (c = backslash) then
            match l with
            | [] => Err (DanglingBackslash input)
            | d :: l => tokenize_from input Normal (current ++ [d]) arguments l
            end
          else if is_whitespace c then
            if negb (is_blank current)
            then tokenize_from input Normal [] (arguments ++ [of_chars current]) l
            else tokenize_from input Normal [] arguments l
          else if decide (c = single_quote) then tokenize_from input SingleQuote current arguments l
          else if decide (c = double_quote) then tokenize_from input DoubleQuote current arguments l
          else tokenize_from input Normal (current ++ [c]) arguments l
      | SingleQuote =>
          if decide (c = single_quote) then tokenize_from input Normal current arguments l
          else tokenize_from input SingleQuote (current ++ [c]) arguments l
      | DoubleQuote =>
          if decide (c = double_quote) then tokenize_from input Normal current arguments l
          else if decide (c = backslash) then
            match l with
            | [] => Err (DanglingBackslash input)
            | d :: l => tokenize_from input DoubleQuote (current ++ [d]) arguments l
            end
          else tokenize_from input DoubleQuote (current ++ [c]) arguments l
      end
  end.

Definition tokenize_command_line (input : string) : result (list string) command_error :=
  tokenize_from input Normal [] [] (chars input).

Definition build_cmd (command : option string) (additional_args : list string)
    : result (option (list string)) command_error :=
  match command with
  | Some c =>
      let? argv := tokenize_command_line c in
      Ok (Some (argv ++ additional_args))
  | None =>
      match additional_args with
      | [] => Ok None
      | _ => Ok (Some additional_args)
      end
  end.

Definition additional_args_replace_image_cmd (command : option string) (additional_args : list string)
    : bool :=
  match command with None => true | Some _ => false end
  && negb (match additional_args with [] => true | _ => false end).

Definition replaced_image_cmd (command : option string) (additional_args : list string)
    (image_cmd : option (list string)) : option (list string) :=
  cmd ← image_cmd;
  if additional_args_replace_image_cmd command additional_args
     && negb (match cmd with [] => true | _ => false end)
  then Some cmd else None.

(** ** The pieces of a command line *)

Inductive piece :=
| Separator (c : ascii)
| Bare (c : ascii)
| Escaped (c : ascii)
| SingleQuoted (l : list ascii)
| DoubleQuoted (l : list (bool * ascii)).

Definition special (c : ascii) : bool := bool_decide (c ∈ [backslash; single_quote; double_quote]).

(** A char between double quotes, escaped or as it is. *)
Definition quoted_ok (p : bool * ascii) : Prop :=
  p.1 = true ∨ (p.2 ≠ double_quote ∧ p.2 ≠ backslash).
Definition quoted_render (p : bool * ascii) : list ascii := if p.1 then [backslash; p.2] else [p.2].

Definition piece_ok (p : piece) : Prop :=
  match p with
  | Separator c => is_whitespace c = true
  | Bare c => is_whitespace c = false ∧ special c = false
  | Escaped _ => True
  | SingleQuoted l => single_quote ∉ l
  | DoubleQuoted l => Forall quoted_ok l
  end.

Definition piece_render (p : piece) : list ascii :=
  match p with
  | Separator c | Bare c => [c]
  | Escaped c => [backslash; c]
  | SingleQuoted l => single_quote :: l ++ [single_quote]
  | DoubleQuoted l => double_quote :: (l ≫= quoted_render) ++ [double_quote]
  end.

Definition piece_value (p : piece) : list ascii :=
  match p with
  | Separator _ => []
  | Bare c | Escaped c => [c]
  | SingleQuoted l => l
  | DoubleQuoted l => l.*2
  end.

Definition render (ps : list piece) : list ascii := ps ≫= piece_render.

(** The runs of pieces between separators, and what each one stands for. *)
Fixpoint runs (ps : list piece) : list ascii * list (list ascii) :=
  match ps with
  | [] => ([], [])
  | Separator _ :: ps => let '(first, others) := runs ps in ([], first :: others)
  | p :: ps => let '(first, others) := runs ps in (piece_value p ++ first, others)
  end.

(** Every run but a blank one is an argument; the last one only has to hold a
    char. *)
Fixpoint kept (first : list ascii) (others : list (list ascii)) : list (list ascii) :=
  match others with
  | [] => match first with [] => [] | _ => [first] end
  | second :: others => (if is_blank first then [] else [first]) ++ kept second others
  end.

Definition arguments_of (ps : list piece) : list string :=
  let '(first, others) := runs ps in of_chars <$> kept first others.

(** ** The loop on pieces *)

(** What the loop holds in [current] and [arguments] after the pieces. *)
Fixpoint loop_after (current : list ascii) (arguments : list string) (ps : list piece)
    : list ascii * list string :=
  match ps with
  | [] => (current, arguments)
  | Separator _ :: ps =>
      loop_after [] (if is_blank current then arguments else arguments ++ [of_chars current]) ps
  | p :: ps => loop_after (current ++ piece_value p) arguments ps
  end.

Lemma single_loop input current arguments l tail :
  single_quote ∉ l →
  tokenize_from input SingleQuote current arguments (l ++ tail) =
    tokenize_from input SingleQuote (current ++ l) arguments tail.
Proof.
  revert current. induction l as [|c l IH]; intros current Hl; [by rewrite app_nil_r|].
  apply not_elem_of_cons in Hl as [Hc Hl]. simpl. rewrite decide_False by done.
  rewrite IH by done. by rewrite <-app_assoc.
Qed.

Lemma double_loop input current arguments l tail :
  Forall quoted_ok l →
  tokenize_from input DoubleQuote current arguments ((l ≫= quoted_render) ++ tail) =
    tokenize_from input DoubleQuote (current ++ l.*2) arguments tail.
Proof.
  intros Hl. revert current. induction Hl as [|[e c] l Hc Hl IH]; intros current; csimpl;
    [by rewrite app_nil_r|].
  rewrite (cons_middle c), app_assoc. destruct e; simpl.
  - apply IH.
  - destruct Hc as [[=]|[Hd Hb]]. rewrite !decide_False by done. apply IH.
Qed.

Lemma special_false c : special c = false ↔ c ≠ backslash ∧ c ≠ single_quote ∧ c ≠ double_quote.
Proof. unfold special. rewrite bool_decide_eq_false. set_solver. Qed.

Lemma loop_pieces input current arguments ps tail :
  Forall piece_ok ps →
  tokenize_from input Normal current arguments (render ps ++ tail) =
    let '(current, arguments) := loop_after current arguments ps in
    tokenize_from input Normal current arguments tail.
Proof.
  intros Hps. revert current arguments.
  induction Hps as [|p ps Hp Hps IH]; intros current arguments; [done|].
  unfold render in *. csimpl. destruct p as [c|c|c|l|l]; simpl in *.
  - rewrite decide_False by (intros ->; discriminate). rewrite Hp. by destruct (is_blank current); simpl.
  - destruct Hp as [Hw (? & ? & ?)%special_false]. rewrite Hw, !decide_False by done. apply IH.
  - apply IH.
  - rewrite <-!app_assoc, single_loop by done. apply IH.
  - rewrite <-!app_assoc, double_loop by done. apply IH.
Qed.

Lemma loop_after_kept current arguments ps :
  let '(current', arguments') := loop_after current arguments ps in
  match current' with [] => arguments' | _ => arguments' ++ [of_chars current'] end =
    arguments ++ (let '(first, others) := runs ps in of_chars <$> kept (current ++ first) others).
Proof.
  revert current arguments. induction ps as [|p ps IH]; intros current arguments; simpl.
  { rewrite app_nil_r. destruct current; simpl; [by rewrite app_nil_r|done]. }
  destruct p; simpl;
    lazymatch goal with
    | |- context [loop_after ?c ?a ps] => specialize (IH c a)
    end; destruct (runs ps) as [first others], (loop_after _ _ ps) as [current' arguments'];
    rewrite IH; try by rewrite <-app_assoc.
  rewrite app_nil_r. cbn [kept]. destruct (is_blank current); csimpl; [done|]. by rewrite <-app_assoc.
Qed.

(** Where a line that is no list of pieces breaks off, and the error of each. *)
Inductive broken := InSingle (l : list ascii) | InDouble (l : list (bool * ascii)) (dangling : bool) | AtBackslash.

Definition broken_ok (b : broken) : Prop :=
  match b with
  | InSingle l => single_quote ∉ l
  | InDouble l _ => Forall quoted_ok l
  | AtBackslash => True
  end.

Definition broken_render (b : broken) : list ascii :=
  match b with
  | InSingle l => single_quote :: l
  | InDouble l dangling => double_quote :: (l ≫= quoted_render) ++ (if dangling then [backslash] else [])
  | AtBackslash => [backslash]
  end.

Definition broken_error (input : string) (b : broken) : command_error :=
  match b with
  | InSingle _ => UnbalancedSingleQuote input
  | InDouble _ false => UnbalancedDoubleQuote input
  | InDouble _ true | AtBackslash => DanglingBackslash input
  end.

Lemma loop_broken input current arguments b :
  broken_ok b → tokenize_from input Normal current arguments (broken_render b) = Err (broken_error input b).
Proof.
  destruct b as [l|l dangling|]; simpl; intros Hb.
  - rewrite <-(app_nil_r l), single_loop by done. done.
  - rewrite double_loop by done. by destruct dangling.
  - done.
Qed.

Lemma read_single l :
  (∃ k tail, single_quote ∉ k ∧ l = k ++ single_quote :: tail) ∨ single_quote ∉ l.
Proof.
  destruct (decide (single_quote ∈ l)) as [(k & t & -> & Hk)%list_elem_of_split_l|]; [left|by right].
  by exists k, t.
Qed.

Lemma read_double l :
  (∃ k tail, Forall quoted_ok k ∧ l = (k ≫= quoted_render) ++ double_quote :: tail) ∨
  ∃ k dangling, Forall quoted_ok k ∧ l = (k ≫= quoted_render) ++ (if dangling : bool then [backslash] else []).
Proof.
  induction l as [l IH] using (induction_ltof1 _ length); unfold ltof in IH.
  destruct l as [|c l]; [right; by exists [], false|].
  destruct (decide (c = double_quote)) as [->|Hd]; [left; by exists [], l|].
  destruct (decide (c = backslash)) as [->|Hb].
  - destruct l as [|d l]; [right; by exists [], true|].
    destruct (IH l) as [(k & t & ? & ->)|(k & g & ? & ->)]; [simpl; lia|left|right].
    + exists ((true, d) :: k), t. split; [|done]. constructor; [by left|done].
    + exists ((true, d) :: k), g. split; [|done]. constructor; [by left|done].
  - destruct (IH l) as [(k & t & ? & ->)|(k & g & ? & ->)]; [simpl; lia|left|right].
    + exists ((false, c) :: k), t. split; [|done]. constructor; [by right|done].
    + exists ((false, c) :: k), g. split; [|done]. constructor; [by right|done].
Qed.

(** Every line is a list of pieces, or breaks off after one. *)
Lemma read_line l :
  ∃ ps, Forall piece_ok ps ∧ (l = render ps ∨ ∃ b, broken_ok b ∧ l = render ps ++ broken_render b).
Proof.
  induction l as [l IH] using (induction_ltof1 _ length); unfold ltof in IH.
  assert (∀ p l', piece_ok p → l = piece_render p ++ l' →
    ∃ ps, Forall piece_ok ps ∧ (l = render ps ∨ ∃ b, broken_ok b ∧ l = render ps ++ broken_render b)) as Hstep.
  { intros p l' Hp ->. destruct (IH l') as (ps & Hps & Hl').
    { rewrite length_app. destruct p; simpl; lia. }
    exists (p :: ps). split; [by constructor|]. unfold render in *. csimpl.
    destruct Hl' as [->|(b & ? & ->)]; [by left|right]. exists b. by rewrite app_assoc. }
  destruct l as [|c l]; [exists []; by split; [|left]|].
  destruct (decide (c = backslash)) as [->|Hb].
  { destruct l as [|d l]; [|by apply (Hstep (Escaped d) l)].
    exists []. split; [done|right]. by exists AtBackslash. }
  destruct (is_whitespace c) eqn:Hw; [by apply (Hstep (Separator c) l)|].
  destruct (decide (c = single_quote)) as [->|Hs].
  { destruct (read_single l) as [(k & t & ? & ->)|?].
    - apply (Hstep (SingleQuoted k) t); [done|]. simpl. by rewrite <-app_assoc.
    - exists []. split; [done|right]. by exists (InSingle l). }
  destruct (decide (c = double_quote)) as [->|Hd].
  { destruct (read_double l) as [(k & t & ? & ->)|(k & g & ? & ->)].
    - apply (Hstep (DoubleQuoted k) t); [done|]. simpl. by rewrite <-app_assoc.
    - exists []. split; [done|right]. by exists (InDouble k g). }
  apply (Hstep (Bare c) l); [|done]. split; [done|]. by apply special_false.
Qed.

Lemma tokenize_pieces input ps :
  Forall piece_ok ps → chars input = render ps → tokenize_command_line input = Ok (arguments_of ps).
Proof.
  intros Hps Hin. unfold tokenize_command_line. rewrite Hin, <-(app_nil_r (render ps)), loop_pieces by done.
  pose proof (loop_after_kept [] [] ps) as Hk. destruct (loop_after [] [] ps) as [current arguments].
  simpl in *. by rewrite Hk.
Qed.

Lemma tokenize_broken input ps b :
  Forall piece_ok ps → broken_ok b → chars input = render ps ++ broken_render b →
  tokenize_command_line input = Err (broken_error input b).
Proof.
  intros Hps Hb Hin. unfold tokenize_command_line. rewrite Hin, loop_pieces by done.
  destruct (loop_after [] [] ps) as [current arguments]. by apply loop_broken.
Qed.

(** ** Arguments written down so that they are read back *)

(** [args] each in double quotes, every char escaped, with spaces between. *)
Fixpoint spell (args : list string) : list piece :=
  match args with
  | [] => []
  | [a] => [DoubleQuoted (pair true <$> chars a)]
  | a :: args => DoubleQuoted (pair true <$> chars a) :: Separator " " :: spell args
  end.

Lemma spell_ok args : Forall piece_ok (spell args).
Proof.
  induction args as [|a args IH]; [constructor|].
  assert (piece_ok (DoubleQuoted (pair true <$> chars a))) as Ha.
  { simpl. apply Forall_fmap, Forall_true. intros c. by left. }
  destruct args as [|b args]; simpl; [by repeat constructor|].
  constructor; [done|]. constructor; [done|]. exact IH.
Qed.

Lemma spell_arguments args :
  Forall (λ a, is_blank (chars a) = false) args → arguments_of (spell args) = args.
Proof.
  unfold arguments_of. induction 1 as [|a args Ha Hargs IH]; [done|].
  assert (piece_value (DoubleQuoted (pair true <$> chars a)) = chars a) as Hval.
  { simpl. rewrite <-list_fmap_compose. apply list_fmap_id. }
  destruct args as [|b args].
  - cbn [spell runs]. rewrite Hval, app_nil_r. cbn [kept].
    destruct (chars a) eqn:E; [done|]. by rewrite fmap_cons, <-E, of_chars_chars.
  - change (spell (a :: b :: args)) with
      (DoubleQuoted (pair true <$> chars a) :: Separator " " :: spell (b :: args)).
    set (rest := spell (b :: args)) in *. clearbody rest. cbn [runs].
    destruct (runs rest) as [first others]. rewrite Hval, app_nil_r. cbn [kept]. rewrite Ha. cbn [app].
    rewrite fmap_cons, of_chars_chars. by f_equal.
Qed.

(** ** Properties *)

(** C13: [tokenize_command_line] accepts exactly the lines made of separators,
    bare and escaped chars, single-quoted runs taken literally and
    double-quoted runs with escapes, and gives the runs between separators,
    blank ones but a last one left out; any other line breaks off, and is
    refused for where it does: inside single quotes, inside double quotes or
    after a backslash.  A list of arguments none of which is blank can be
    written as a command, which is started with exactly those arguments and
    the additional ones after them. *)
Theorem tokenize_command_line_spec :
  (∀ input args, tokenize_command_line input = Ok args ↔
     ∃ ps, Forall piece_ok ps ∧ chars input = render ps ∧ args = arguments_of ps) ∧
  (∀ input e, tokenize_command_line input = Err e ↔
     ∃ ps b, Forall piece_ok ps ∧ broken_ok b ∧ chars input = render ps ++ broken_render b ∧
       e = broken_error input b) ∧
  (∀ args extra, Forall (λ a, is_blank (chars a) = false) args →
     build_cmd (Some (of_chars (render (spell args)))) extra = Ok (Some (args ++ extra))).
Proof.
  split; [|split].
  - intros input args. split; [|intros (ps & ? & ? & ->); by apply tokenize_pieces].
    intros H. destruct (read_line (chars input)) as (ps & Hps & [Hl|(b & Hb & Hl)]).
    + exists ps. rewrite (tokenize_pieces _ ps) in H by done. by injection H as <-.
    + by rewrite (tokenize_broken _ ps b) in H by done.
  - intros input e. split; [|intros (ps & b & ? & ? & ? & ->); by eapply tokenize_broken].
    intros H. destruct (read_line (chars input)) as (ps & Hps & [Hl|(b & Hb & Hl)]).
    + by rewrite (tokenize_pieces _ ps) in H by done.
    + exists ps, b. rewrite (tokenize_broken _ ps b) in H by done. by injection H as <-.
  - intros args extra Hargs. unfold build_cmd.
    rewrite (tokenize_pieces _ (spell args)); [|apply spell_ok|by rewrite chars_of_chars].
    simpl. by rewrite spell_arguments.
Qed.

Example tokenize_command_line_spec_witness :
  tokenize_command_line "sh -c 'echo $a b'" = Ok ["sh"; "-c"; "echo $a b"] ∧
  build_cmd (Some (of_chars (render (spell ["a b"; "c"])))) ["-d"] = Ok (Some ["a b"; "c"; "-d"]).
Proof.
  split; [vm_compute; reflexivity|].
  refine (proj2 (proj2 tokenize_command_line_spec) ["a b"; "c"] ["-d"] _).
  repeat constructor.
Defined.
