(* ===== verification/CheckScript.v ===== *)
(** * CheckScript: the command of an external health check

    [ExternalHealthCheck::command] and [format_seconds] of
    [ratect-core/src/config.rs]: the command line the companion of a checked
    container is given.  A duration is its nanoseconds; the text of one that is
    no whole number of seconds goes through an [f64], which is Rocq's own
    specification of IEEE arithmetic at 53 bits. *)

From Stdlib Require Import ZArith SpecFloat.
From S2P Require Import Prelude Text Values.
From stdpp Require Import options.

(** ** Seconds *)

Definition f64_of_N (n : N) : spec_float := binary_normalize 53 1024 (Z.of_N n) 0 false.

(** [Duration::as_secs_f64] *)
Definition as_secs_f64 (d : N) : spec_float :=
  SFadd 53 1024 (f64_of_N (as_secs d))
    (SFdiv 53 1024 (f64_of_N (subsec_nanos d)) (f64_of_N NANOS_PER_SEC)).

Definition div_half_even (a b : N) : N :=
  let q := (a / b)%N in
  match (2 * (a mod b) ?= b)%N with
  | Lt => q
  | Gt => q + 1
  | Eq => if N.even q then q else q + 1
  end%N.

(** The value in thousandths, a tie going to the even one. *)
Definition thousandths (f : spec_float) : N :=
  match f with
  | S754_finite _ m (Zneg e) => div_half_even (N.pos m * 1000) (2 ^ N.pos e)
  | S754_finite _ m e => N.pos m * 1000 * 2 ^ Z.to_N e
  | _ => 0
  end%N.

Definition three_digits (n : N) : string :=
  of_chars [digit_char (n / 100 mod 10); digit_char (n / 10 mod 10); digit_char (n mod 10)]%N.

(** [format!("{:.3}", f)] of a float that is not negative *)
Definition show_three (f : spec_float) : string :=
  show_N (thousandths f / 1000) +:+ "." +:+ three_digits (thousandths f mod 1000).

Definition SMALLEST : string := "0.001".

Definition format_seconds (d : N) : string :=
  if (subsec_nanos d =? 0)%N then show_N (as_secs d)
  else if (d <? 1000000)%N then SMALLEST
  else show_three (as_secs_f64 d).

(** ** The command *)

Definition DEFAULT_INTERVAL : N := NANOS_PER_SEC.
Definition DEFAULT_RETRIES : N := 30.
Definition DEFAULT_TIMEOUT : N := 5 * NANOS_PER_SEC.

(** A text between double quotes. *)
Definition in_quotes (s : string) : string := String "034" (s +:+ String "034" EmptyString).

Definition check_url (container : string) (port : N) (path : string) : string :=
  "http://" +:+ container +:+ ":" +:+ show_N port +:+ path.

(** What one round of the loop runs, and what is said when none succeeds. *)
Definition check_attempt (kind : ExternalHealthCheckKind) (timeout : N) (container : string) : string :=
  match kind with
  | Http port path expected_status =>
      "code=$(curl -s -o /dev/null -w %{http_code} -m " +:+ format_seconds timeout +:+ " "
        +:+ in_quotes (check_url container port path) +:+ "); if [ " +:+ in_quotes "$code" +:+ " = "
        +:+ in_quotes (show_N expected_status) +:+ " ]; then exit 0; fi"
  | Tcp port =>
      "if nc -z -w " +:+ show_N (as_secs timeout `max` 1) +:+ " " +:+ container +:+ " " +:+ show_N port
        +:+ "; then exit 0; fi"
  end.

Definition check_failure (kind : ExternalHealthCheckKind) (retries : N) (container : string) : string :=
  "echo " +:+ in_quotes
    match kind with
    | Http port path expected_status =>
        "last status $code from " +:+ check_url container port path +:+ " after " +:+ show_N retries
          +:+ " attempt(s), wanted " +:+ show_N expected_status
    | Tcp port =>
        "no TCP connection to " +:+ container +:+ ":" +:+ show_N port +:+ " after " +:+ show_N retries
          +:+ " attempt(s)"
    end +:+ " >&2".

Definition check_script (check : ExternalHealthCheck) (container : string) : string :=
  let retries := default DEFAULT_RETRIES (eh_retries check) in
  let interval := format_seconds (default DEFAULT_INTERVAL (eh_interval check)) in
  let timeout := default DEFAULT_TIMEOUT (eh_timeout check) in
  "i=0; while [ " +:+ in_quotes "$i" +:+ " -lt " +:+ show_N retries +:+ " ]; do if [ "
    +:+ in_quotes "$i" +:+ " -gt 0 ]; then sleep " +:+ interval +:+ "; fi; "
    +:+ check_attempt (eh_kind check) timeout container +:+ "; i=$((i+1)); done; "
    +:+ check_failure (eh_kind check) retries container +:+ "; exit 1".

(** [ExternalHealthCheck::command] *)
Definition check_command (check : ExternalHealthCheck) (container : string) : string :=
  "-c '" +:+ check_script check container +:+ "'".

Example format_seconds_examples :
  format_seconds 1000000000 = "1" ∧ format_seconds 1500000000 = "1.500" ∧ format_seconds 1 = "0.001" ∧
  format_seconds 1000500000 = "1.000" ∧ format_seconds 1999999999 = "2.000" ∧
  format_seconds 12034567890 = "12.035".
Proof. by vm_compute. Qed.

(** ** The chars of a script *)

Definition seconds_char (c : ascii) : bool := is_ascii_digit c || bool_decide (c = "."%char).

Lemma format_seconds_chars d c : c ∈ chars (format_seconds d) → seconds_char c = true.
Proof.
  assert (∀ n c, c ∈ chars (show_N n) → seconds_char c = true) as Hn.
  { intros n a Ha%show_N_digits. unfold seconds_char. by rewrite Ha. }
  unfold format_seconds. repeat case_match; [by apply Hn|by vm_compute; set_solver|].
  unfold show_three. rewrite !chars_app, !elem_of_app. intros [?|[Hc|Hc]]; [by eapply Hn| |].
  - apply list_elem_of_singleton in Hc as ->. done.
  - unfold three_digits in Hc. rewrite chars_of_chars in Hc. unfold seconds_char.
    rewrite !elem_of_cons in Hc. apply orb_true_iff. left.
    destruct Hc as [->|[->|[->|[]%not_elem_of_nil]]]; apply digit_char_range, N.mod_lt; lia.
Qed.
