(* ===== verification/ExternalChecks.v ===== *)
(** * ExternalChecks: the companions of external health checks

    [expand_external_health_checks] of [ratect-core/src/config.rs] and what it
    uses: a container checked from outside gets a generated companion, and
    whatever waits on the container waits on the companion too. *)

From S2P Require Import Prelude Text Collections Values Config CheckScript.
From stdpp Require Import options.

(** ** The code *)

Definition EXTERNAL_HEALTH_CHECK_IMAGE : string :=
  "curlimages/curl@sha256:c1fe1679c34d9784c1b0d1e5f62ac0a79fca01fb6377cdd33e90473c6f9f9a69".
Definition EXTERNAL_HEALTH_CHECK_PREFIX : string := "ratect-health-check-".

Definition external_health_check_container_name (container : string) : string :=
  EXTERNAL_HEALTH_CHECK_PREFIX +:+ container.

(** [image_reference::is_name_component], whose pattern is
    [^\[a-z0-9\]+(?:(?:\[._\]|__|\[-\]+)\[a-z0-9\]+)*$]: the automaton of that pattern. *)
Inductive name_state := NeedsWord | InWord | OneUnderscore | Dashes.

Definition lower_or_digit (c : ascii) : bool := is_ascii_lowercase c || is_ascii_digit c.

Definition name_step (st : name_state) (c : ascii) : option name_state :=
  if lower_or_digit c then Some InWord
  else
    match st with
    | NeedsWord => None
    | InWord =>
        if decide (c = "."%char) then Some NeedsWord
        else if decide (c = "_"%char) then Some OneUnderscore
        else if decide (c = "-"%char) then Some Dashes
        else None
    | OneUnderscore => if decide (c = "_"%char) then Some NeedsWord else None
    | Dashes => if decide (c = "-"%char) then Some Dashes else None
    end.

Fixpoint name_run (st : name_state) (l : list ascii) : bool :=
  match l with
  | [] => match st with InWord => true | _ => false end
  | c :: l => match name_step st c with Some st => name_run st l | None => false end
  end.

Definition is_name_component (name : string) : bool := name_run NeedsWord (chars name).

Inductive external_error :=
| AlsoHealthCheck (name : string)
| AlsoRunToCompletion (name : string)
| AlsoSetupCommands (name : string)
| BadContainerName (name : string)
| BadCheckPath (name path : string)
| ZeroPort (name : string)
| BadStatus (name : string) (status : N)
| ZeroTimeout (name : string)
| ZeroRetries (name : string)
| ReservedContainer (companion : string)
| ReservedDependency (other companion : string)
| ReservedTaskRun (task companion : string)
| ReservedTaskDependency (task companion : string).

(** A char the checking shell would read specially. *)
Definition bad_path_char (c : ascii) : bool :=
  is_whitespace c || is_control c || bool_decide (c ∈ ["'"; "034"; "\"; "`"; "$"]%char).

Definition validate_external_health_check_path (container path : string)
    : result unit external_error :=
  if negb (starts_with "/" path) then Err (BadCheckPath container path)
  else if existsb bad_path_char (chars path) then Err (BadCheckPath container path)
  else Ok tt.

Definition is_none {A} (o : option A) : bool := match o with None => true | Some _ => false end.
Definition is_empty {A} (l : list A) : bool := match l with [] => true | _ :: _ => false end.

Definition check_port (check : ExternalHealthCheck) : N :=
  match eh_kind check with Http port _ _ | Tcp port => port end.

(** What the first loop asks of one container. *)
Definition judge_check (name : string) (c : Container)
    : result (option ExternalHealthCheck) external_error :=
  match c_external_health_check c with
  | None => Ok None
  | Some check =>
      let? _ := ensure (is_none (c_health_check c)) (AlsoHealthCheck name) in
      let? _ := ensure (negb (default false (c_run_to_completion c))) (AlsoRunToCompletion name) in
      let? _ := ensure (is_empty (default [] (c_setup_commands c))) (AlsoSetupCommands name) in
      let? _ := ensure (is_name_component name) (BadContainerName name) in
      let? _ := match eh_kind check with
                | Http _ path _ => validate_external_health_check_path name path
                | Tcp _ => Ok tt
                end in
      let? _ := ensure (negb (check_port check =? 0)%N) (ZeroPort name) in
      let? _ := match eh_kind check with
                | Http _ _ status =>
                    ensure ((100 <=? status)%N && (status <=? 999)%N) (BadStatus name status)
                | Tcp _ => Ok tt
                end in
      let? _ := ensure (negb (bool_decide (eh_timeout check = Some 0%N))) (ZeroTimeout name) in
      let? _ := ensure (negb (bool_decide (eh_retries check = Some 0%N))) (ZeroRetries name) in
      Ok (Some check)
  end.

Fixpoint collect_checks (containers : index_map Container)
    : result (list (string * ExternalHealthCheck)) external_error :=
  match containers with
  | [] => Ok []
  | (name, c) :: containers =>
      let? judged := judge_check name c in
      let? rest := collect_checks containers in
      Ok (match judged with Some check => (name, check) :: rest | None => rest end)
  end.

(** The second loop: a name the companion of [name] would take. *)
Definition names (companion : string) (dependencies : option (list string)) : bool :=
  bool_decide (companion ∈ default [] dependencies).

Definition check_reserved (config : Config) (name : string) : result unit external_error :=
  let companion := external_health_check_container_name name in
  let? _ := ensure (is_none (im_get (cfg_containers config) companion))
              (ReservedContainer companion) in
  let? _ := try_fold (λ _ '(other, c),
                ensure (negb (names companion (c_dependencies c)))
                  (ReservedDependency other companion))
              (cfg_containers config) tt in
  try_fold (λ _ '(task_name, task),
      let? _ := ensure (negb (bool_decide (r_container <$> t_run task = Some companion)))
                  (ReservedTaskRun task_name companion) in
      ensure (negb (names companion (t_dependencies task)))
        (ReservedTaskDependency task_name companion))
    (cfg_tasks config) tt.

Definition add_dependency_after (dependencies : option (list string)) (target companion : string)
    : option (list string) :=
  match dependencies with
  | None => None
  | Some l =>
      if bool_decide (target ∈ l) && negb (bool_decide (companion ∈ l))
      then Some (l ++ [companion]) else Some l
  end.

Definition set_dependencies (dependencies : option (list string)) (c : Container) : Container :=
  mk_container
    (c_extends c)
    (c_image c)
    (c_image_pull_policy c)
    (c_build_directory c)
    (c_build_directory_in_bundle c)
    (c_build_args c)
    (c_dockerfile c)
    (c_build_target c)
    (c_build_secrets c)
    (c_build_ssh c)
    (c_volumes c)
    dependencies
    (c_environment c)
    (c_run_as_current_user c)
    (c_additional_hostnames c)
    (c_additional_hosts c)
    (c_ports c)
    (c_health_check c)
    (c_setup_commands c)
    (c_run_to_completion c)
    (c_external_health_check c)
    (c_reports_readiness_for c)
    (c_working_directory c)
    (c_command c)
    (c_entrypoint c)
    (c_labels c)
    (c_capabilities_to_add c)
    (c_capabilities_to_drop c)
    (c_privileged c)
    (c_shm_size c)
    (c_devices c)
    (c_enable_init_process c)
    (c_log_driver c)
    (c_log_options c)
    (c_stop_signal c)
    (c_stop_grace_period c)
    (c_ulimits c)
    (c_dns c)
    (c_dns_search c)
    (c_dns_options c)
    (c_network_mode c)
    (c_user c)
    (c_group c)
    (c_groups c)
    (c_identity c).

Definition set_task_dependencies (dependencies : option (list string)) (t : Task) : Task :=
  mk_task (t_run t) (t_prerequisites t) dependencies (t_description t) (t_group t) (t_customise t).


Definition companion_container (name : string) (check : ExternalHealthCheck) : Container :=
  mk_container
    None (Some EXTERNAL_HEALTH_CHECK_IMAGE) None None None None None None None None None (Some [name]) None None
    None None None None None (Some true) None (Some name) None (Some (check_command check
    name)) (Some "sh") None None None None None None None (Some "json-file") None None None
    None None None None None None None None None.

Definition insert_companions (checked : list (string * ExternalHealthCheck))
    (containers : index_map Container) : index_map Container :=
  foldl (λ containers '(name, check),
      im_insert (external_health_check_container_name name) (companion_container name check)
        containers) containers checked.

Definition wait_on_companion (name : string) (p : string * Container) : string * Container :=
  let companion := external_health_check_container_name name in
  if bool_decide (p.1 = name ∨ p.1 = companion) then p
  else (p.1, set_dependencies (add_dependency_after (c_dependencies p.2) name companion) p.2).

Definition task_waits_on_companion (name : string) (p : string * Task) : string * Task :=
  (p.1, set_task_dependencies (add_dependency_after (t_dependencies p.2) name
          (external_health_check_container_name name)) p.2).

Definition expand_external_health_checks (config : Config) : result Config external_error :=
  let? checked := collect_checks (cfg_containers config) in
  let? _ := try_fold (λ _ '(name, _), check_reserved config name) checked tt in
  let containers := insert_companions checked (cfg_containers config) in
  let '(containers, tasks) :=
    foldl (λ '(containers, tasks) '(name, _),
        (wait_on_companion name <$> containers, task_waits_on_companion name <$> tasks))
      (containers, cfg_tasks config) checked in
  Ok (mk_config (cfg_project_name config) containers tasks (cfg_config_variables config)
        (cfg_forbid_telemetry config)).

(** ** What the loops leave *)

Notation companion_of := external_health_check_container_name.

#[global] Instance companion_inj : Inj (=) (=) companion_of.
Proof.
  intros a b H. unfold companion_of in H. apply (f_equal chars) in H.
  rewrite !chars_app in H. apply app_inv_head in H. by apply chars_inj.
Qed.

Lemma try_fold_unit {A E} (f : A → result unit E) l :
  try_fold (λ _, f) l tt = Ok tt ↔ ∀ a, a ∈ l → f a = Ok tt.
Proof.
  induction l as [|a l IH]; simpl; [set_solver|].
  destruct (f a) as [[]|e] eqn:Ha; simpl.
  - rewrite IH. split; [|set_solver]. intros H b [->|Hb]%elem_of_cons; auto.
  - split; [done|]. intros H. specialize (H a (list_elem_of_here _ _)). by rewrite H in Ha.
Qed.

(** What a container with an external check is, once accepted. *)
Definition acceptable (name : string) (c : Container) (check : ExternalHealthCheck) : Prop :=
  c_health_check c = None ∧ default false (c_run_to_completion c) = false ∧
  default [] (c_setup_commands c) = [] ∧ is_name_component name = true ∧
  check_port check ≠ 0%N ∧ eh_timeout check ≠ Some 0%N ∧ eh_retries check ≠ Some 0%N ∧
  match eh_kind check with
  | Http _ path status =>
      starts_with "/" path = true ∧ (∀ a, a ∈ chars path → bad_path_char a = false) ∧
      (100 ≤ status ≤ 999)%N
  | Tcp _ => True
  end.

Lemma path_accepted name path u :
  validate_external_health_check_path name path = Ok u →
  starts_with "/" path = true ∧ ∀ a, a ∈ chars path → bad_path_char a = false.
Proof.
  unfold validate_external_health_check_path. destruct (starts_with "/" path); [simpl|done].
  destruct (existsb _ _) eqn:E; [done|]. intros _. split; [done|]. intros a Ha.
  destruct (bad_path_char a) eqn:Hb; [|done]. rewrite <-E. symmetry. apply existsb_exists.
  exists a. by rewrite <-list_elem_of_In.
Qed.

Lemma judge_check_spec name c k :
  judge_check name c = Ok k →
  k = c_external_health_check c ∧ ∀ check, k = Some check → acceptable name c check.
Proof.
  unfold judge_check. destruct (c_external_health_check c) as [check|]; [|by intros [= <-]].
  intros H. repeat (apply result_bind_Ok in H as (? & ?%ensure_Ok & H)).
  apply result_bind_Ok in H as (u & Hpath & H).
  apply result_bind_Ok in H as (? & Hport%ensure_Ok & H).
  apply result_bind_Ok in H as (? & Hstatus & H).
  apply result_bind_Ok in H as (? & Htime%ensure_Ok & H).
  apply result_bind_Ok in H as (? & Hretry%ensure_Ok & [= <-]).
  split; [done|]. intros k' [= <-]. bool_to_prop. unfold acceptable.
  split; [by destruct (c_health_check c)|]. split; [done|].
  split; [by destruct (default [] (c_setup_commands c))|].
  split; [done|]. split; [done|]. split; [done|]. split; [done|].
  destruct (eh_kind check); [|done]. apply path_accepted in Hpath as [??].
  apply ensure_Ok in Hstatus. bool_to_prop. done.
Qed.

Lemma collect_checks_spec containers checked :
  collect_checks containers = Ok checked →
  (∀ n k, (n, k) ∈ checked ↔ ∃ c, (n, c) ∈ containers ∧ c_external_health_check c = Some k) ∧
  (∀ n k c, (n, c) ∈ containers → c_external_health_check c = Some k → acceptable n c k) ∧
  sublist checked.*1 containers.*1.
Proof.
  revert checked. induction containers as [|[n c] containers IH]; intros checked; simpl.
  { intros [= <-]. split; [intros n k; split; [by intros ?%not_elem_of_nil|]|split; [|done]].
    - by intros (? & ?%not_elem_of_nil & _).
    - by intros ? ? ? ?%not_elem_of_nil. }
  intros H. apply result_bind_Ok in H as (k & [Hk Hacc]%judge_check_spec & H).
  apply result_bind_Ok in H as (rest & (IH1 & IH2 & IH3)%IH & [= <-]).
  assert (∀ m k' c', (m, c') ∈ (n, c) :: containers → c_external_health_check c' = Some k' →
    acceptable m c' k') as Hall.
  { intros m k' c' [[= -> ->]|Hm]%elem_of_cons Hk'; [apply Hacc; congruence|by eapply IH2]. }
  split; [|split; [exact Hall|]].
  - intros m k'. destruct k as [k|]; [rewrite elem_of_cons|]; rewrite IH1; split.
    + intros [[= -> ->]|(c' & ? & ?)]; [exists c; split; [by left|congruence]|exists c'; by split; [right|]].
    + intros (c' & [[= -> ->]|?]%elem_of_cons & ?); [left; congruence|right; by exists c'].
    + intros (c' & ? & ?). exists c'. by split; [right|].
    + intros (c' & [[= -> ->]|?]%elem_of_cons & ?); [congruence|by exists c'].
  - destruct k; csimpl; by constructor.
Qed.

(** ** The edges added *)

Lemma elem_of_add_dependency deps target companion y :
  y ∈ default [] (add_dependency_after deps target companion) ↔
    y ∈ default [] deps ∨ target ∈ default [] deps ∧ y = companion.
Proof.
  unfold add_dependency_after. destruct deps as [l|]; simpl; [|set_solver].
  repeat case_bool_decide; simpl; rewrite ?elem_of_app; set_solver.
Qed.

Lemma add_dependency_None deps target companion :
  is_Some (add_dependency_after deps target companion) ↔ is_Some deps.
Proof.
  unfold add_dependency_after. destruct deps; [|done]. destruct (_ && _); split; eauto.
Qed.

(** One list through the whole last loop: it gains the companions of the
    checked containers it names, save where [skip] says so. *)
Lemma added_dependencies (skip : string → bool) ns deps y :
  (∀ n m, n ∈ ns → m ∈ ns → n ≠ companion_of m) →
  y ∈ default [] (foldl (λ deps n,
      if skip n then deps else add_dependency_after deps n (companion_of n)) deps ns) ↔
    y ∈ default [] deps ∨
    ∃ n, n ∈ ns ∧ skip n = false ∧ y = companion_of n ∧ n ∈ default [] deps.
Proof.
  revert deps. induction ns as [|n ns IH]; intros deps Hns; simpl; [set_solver|].
  rewrite IH by (intros; apply Hns; by right).
  assert (∀ P : string → Prop, (∃ m, m ∈ n :: ns ∧ skip m = false ∧ P m) ↔
    (skip n = false ∧ P n) ∨ ∃ m, m ∈ ns ∧ skip m = false ∧ P m) as Hcons.
  { intros P. split.
    - intros (m & [->|?]%elem_of_cons & ?); [by left|right; eauto].
    - intros [?|(m & ? & ?)]; [exists n|exists m]; (split; [|done]); [by left|by right]. }
  rewrite Hcons. destruct (skip n) eqn:Hskip.
  { split; [intros [?|?]; [by left|by right; right]|].
    intros [?|[[? _]|?]]; [by left|done|by right]. }
  rewrite elem_of_add_dependency. split.
  - intros [[?|[? ->]]|(m & Hm & Hs & -> & Hd)]; [by left|by right; left|].
    apply elem_of_add_dependency in Hd as [?|[? ->]]; [right; right; by exists m|].
    exfalso. by apply (Hns (companion_of n) n); [right|left|].
  - intros [?|[(_ & -> & ?)|(m & ? & ? & -> & ?)]]; [by do 2 left|by left; right|].
    right. exists m. rewrite elem_of_add_dependency. auto.
Qed.

Definition skips (x n : string) : bool := bool_decide (x = n ∨ x = companion_of n).

Lemma wait_loop ns x c :
  ∃ deps, foldl (λ p n, wait_on_companion n p) (x, c) ns = (x, set_dependencies deps c) ∧
    deps = foldl (λ deps n,
      if skips x n then deps else add_dependency_after deps n (companion_of n))
      (c_dependencies c) ns.
Proof.
  revert c. induction ns as [|n ns IH]; intros c; simpl.
  - exists (c_dependencies c). by destruct c.
  - unfold wait_on_companion at 2, skips at 2. simpl. case_bool_decide; [apply IH|].
    destruct (IH (set_dependencies (add_dependency_after (c_dependencies c) n (companion_of n)) c))
      as (deps & -> & ->). eexists. by split.
Qed.

Lemma task_wait_loop ns x t :
  ∃ deps, foldl (λ p n, task_waits_on_companion n p) (x, t) ns = (x, set_task_dependencies deps t) ∧
    deps = foldl (λ deps n, add_dependency_after deps n (companion_of n)) (t_dependencies t) ns.
Proof.
  revert t. induction ns as [|n ns IH]; intros t; simpl.
  - exists (t_dependencies t). by destruct t.
  - unfold task_waits_on_companion at 2. simpl.
    destruct (IH (set_task_dependencies
      (add_dependency_after (t_dependencies t) n (companion_of n)) t)) as (deps & -> & ->).
    eexists. by split.
Qed.

Lemma foldl_pair_fmap {A B C} (f : C → A → A) (g : C → B → B) (l : list A) (k : list B) cs :
  foldl (λ '(l, k) c, (f c <$> l, g c <$> k)) (l, k) cs =
    ((λ a, foldl (λ a c, f c a) a cs) <$> l, (λ b, foldl (λ b c, g c b) b cs) <$> k).
Proof.
  revert l k. induction cs as [|c cs IH]; intros l k; simpl; [by rewrite !list_fmap_id|].
  rewrite IH. by rewrite <-!list_fmap_compose.
Qed.

(** ** No cycle is introduced *)

Definition depends (containers : index_map Container) (x y : string) : Prop :=
  y ∈ default [] (im_get containers x ≫= c_dependencies).

Section collapse.
Context (old new : string → string → Prop) (ns : list string).
#[local] Set Default Proof Using "Type".

(** A step of the new relation: from a companion to what it checks, or an old
    step, or an old step to a checked container turned to its companion. *)
Hypothesis new_step : ∀ x y, new x y →
  (x ∈ companion_of <$> ns ∧ x = companion_of y) ∨
  (x ∉ companion_of <$> ns ∧ (old x y ∨ ∃ m, m ∈ ns ∧ y = companion_of m ∧ old x m)).
Hypothesis ns_fresh : ∀ n, n ∈ ns → n ∉ companion_of <$> ns.
Hypothesis old_fresh : ∀ x y, old x y → y ∉ companion_of <$> ns.

(** What a companion stands for; anything else stands for itself. *)
Definition stands_for (x x0 : string) : Prop :=
  (x ∉ companion_of <$> ns ∧ x0 = x) ∨ (x0 ∈ ns ∧ x = companion_of x0).

Lemma stands_for_total x : ∃ x0, stands_for x x0.
Proof.
  destruct (decide (x ∈ companion_of <$> ns)) as [Hx|Hx]; [|exists x; by left].
  apply list_elem_of_fmap in Hx as (n & -> & Hn). exists n. by right.
Qed.

Lemma collapse_step x y x0 y0 :
  new x y → stands_for x x0 → stands_for y y0 →
  (x ∉ companion_of <$> ns ∧ old x0 y0) ∨
  (x ∈ companion_of <$> ns ∧ y ∉ companion_of <$> ns ∧ x0 = y0).
Proof using new_step ns_fresh old_fresh.
  intros [[Hx ->]|[Hx Hxy]]%new_step Hx0 Hy0.
  - right. split; [done|]. destruct Hx0 as [[? _]|[Hn Heq]]; [done|].
    apply companion_inj in Heq as ->. split; [by apply ns_fresh|].
    destruct Hy0 as [[_ ->]|[Hm ->]]; [done|]. exfalso. apply (ns_fresh _ Hn).
    apply list_elem_of_fmap. by exists y0.
  - left. split; [done|]. destruct Hx0 as [[_ ->]|[Hn ->]].
    2: { exfalso. apply Hx, list_elem_of_fmap. by exists x0. }
    destruct Hxy as [Hxy|(m & Hm & -> & Hxm)], Hy0 as [[Hy ->]|[Hn Heq]]; [done| | |].
    + subst y. exfalso. apply (old_fresh _ _ Hxy), list_elem_of_fmap. by exists y0.
    + exfalso. apply Hy, list_elem_of_fmap. by exists m.
    + by apply companion_inj in Heq as ->.
Qed.

Lemma collapse_path x y x0 y0 :
  tc new x y → stands_for x x0 → stands_for y y0 →
  tc old x0 y0 ∨ (x ∈ companion_of <$> ns ∧ y ∉ companion_of <$> ns ∧ x0 = y0).
Proof using new_step ns_fresh old_fresh.
  intros Hxy. revert x0 y0. induction Hxy as [x y Hxy|x z y Hxz Hzy IH]; intros x0 y0 Hx0 Hy0.
  - destruct (collapse_step x y x0 y0) as [[? ?]|?]; [done..|left; by apply tc_once|by right].
  - destruct (stands_for_total z) as [z0 Hz0]. destruct (IH z0 y0) as [Hz|(Hz & Hy & ->)]; [done..| |].
    + left. destruct (collapse_step x z x0 z0) as [[? ?]|(? & ? & ->)]; [done..| |done].
      by eapply tc_l.
    + destruct (collapse_step x z x0 y0) as [[? ?]|(? & ? & ?)]; [done..|left; by apply tc_once|done].
Qed.

Lemma collapse_cycle x : tc new x x → ∃ y, tc old y y.
Proof using new_step ns_fresh old_fresh.
  intros Hx. destruct (stands_for_total x) as [x0 Hx0]. exists x0.
  destruct (collapse_path x x x0 x0) as [?|(? & ? & _)]; done.
Qed.
End collapse.

(** ** The whole expansion *)

Lemma im_insert_fresh {V} (m : index_map V) k v : k ∉ m.*1 → im_insert k v m = m ++ [(k, v)].
Proof.
  induction m as [|[k' v'] m IH]; csimpl; [done|]. intros Hk.
  rewrite decide_False by set_solver. rewrite IH; [done|set_solver].
Qed.

Definition companions (checked : list (string * ExternalHealthCheck)) : index_map Container :=
  (λ p, (companion_of p.1, companion_container p.1 p.2)) <$> checked.

Lemma insert_companions_spec checked containers :
  NoDup checked.*1 → (∀ n, n ∈ checked.*1 → companion_of n ∉ containers.*1) →
  insert_companions checked containers = containers ++ companions checked.
Proof.
  revert containers. induction checked as [|[n k] checked IH]; csimpl; intros containers Hnd Hfresh.
  { unfold insert_companions. simpl. by rewrite app_nil_r. }
  apply NoDup_cons in Hnd as [Hn Hnd]. unfold insert_companions in *. simpl.
  rewrite im_insert_fresh by (apply Hfresh; by left). rewrite IH; [by rewrite <-app_assoc|done|].
  intros m Hm. rewrite fmap_app, elem_of_app. csimpl.
  intros [?|?%list_elem_of_singleton]; [by apply (Hfresh m); [right|]|].
  by apply companion_inj in H as ->.
Qed.

Lemma expand_loop (checked : list (string * ExternalHealthCheck))
    (l : index_map Container) (k : index_map Task) :
  foldl (λ '(containers, tasks) '(name, _),
      (wait_on_companion name <$> containers, task_waits_on_companion name <$> tasks)) (l, k) checked =
    ((λ p, foldl (λ p n, wait_on_companion n p) p checked.*1) <$> l,
     (λ p, foldl (λ p n, task_waits_on_companion n p) p checked.*1) <$> k).
Proof.
  rewrite <-foldl_pair_fmap. revert l k. induction checked as [|[n c] checked IH]; intros l k; [done|].
  simpl. apply IH.
Qed.

Lemma im_get_fmap {V} (f : string * V → string * V) (g : string → V → V) (m : index_map V) x :
  (∀ k v, f (k, v) = (k, g k v)) → im_get (f <$> m) x = g x <$> im_get m x.
Proof.
  intros Hf. induction m as [|[k v] m IH]; csimpl; [done|]. rewrite Hf.
  case_decide as Hk; [by subst|done].
Qed.

Lemma im_get_app {V} (l k : index_map V) x :
  im_get (l ++ k) x = match im_get l x with Some v => Some v | None => im_get k x end.
Proof. induction l as [|[y v] l IH]; simpl; [done|]. by case_decide. Qed.

Definition final_dependencies (ns : list string) (x : string) (c : Container) : Container :=
  set_dependencies (foldl (λ deps n,
    if skips x n then deps else add_dependency_after deps n (companion_of n)) (c_dependencies c) ns) c.

Definition final_task (ns : list string) (t : Task) : Task :=
  set_task_dependencies (foldl (λ deps n, add_dependency_after deps n (companion_of n))
    (t_dependencies t) ns) t.

Lemma companions_keys checked : (companions checked).*1 = companion_of <$> checked.*1.
Proof. unfold companions. by rewrite <-!list_fmap_compose. Qed.

(** The loop leaves a companion as it was made. *)
Lemma companion_unchanged ns n check :
  final_dependencies ns (companion_of n) (companion_container n check) =
    companion_container n check.
Proof.
  unfold final_dependencies. induction ns as [|m ns IH]; simpl in *; [done|].
  destruct (skips _ m) eqn:Hs; [done|]. unfold skips in Hs. bool_to_prop.
  rewrite bool_decide_eq_false_2; [done|]. intros ->%list_elem_of_singleton. naive_solver.
Qed.

Lemma expand_Ok config config' :
  NoDup (cfg_containers config).*1 →
  expand_external_health_checks config = Ok config' →
  ∃ checked, collect_checks (cfg_containers config) = Ok checked ∧
    (∀ n, n ∈ checked.*1 → companion_of n ∉ (cfg_containers config).*1) ∧
    (∀ n x c, n ∈ checked.*1 → (x, c) ∈ cfg_containers config →
       companion_of n ∉ default [] (c_dependencies c)) ∧
    (∀ x, im_get (cfg_containers config') x = final_dependencies checked.*1 x <$>
       im_get (cfg_containers config ++ companions checked) x) ∧
    (∀ x, im_get (cfg_tasks config') x = final_task checked.*1 <$> im_get (cfg_tasks config) x).
Proof.
  intros Hnd H. unfold expand_external_health_checks in H.
  apply result_bind_Ok in H as (checked & Hc & H). exists checked. split; [done|].
  apply result_bind_Ok in H as ([] & Hres & H).
  assert (∀ n, n ∈ checked.*1 → check_reserved config n = Ok tt) as Hres'.
  { intros n (p & -> & Hp)%list_elem_of_fmap.
    assert (try_fold (λ _ p, check_reserved config p.1) checked tt = Ok tt) as Hr.
    { rewrite <-Hres. by apply try_fold_ext; intros ? []. }
    by apply (proj1 (try_fold_unit (λ p, check_reserved config p.1) checked) Hr). }
  assert (∀ n, n ∈ checked.*1 → companion_of n ∉ (cfg_containers config).*1) as Hfresh.
  { intros n Hn%Hres'. unfold check_reserved in Hn.
    apply result_bind_Ok in Hn as (? & Hn%ensure_Ok & _). apply im_get_None.
    by destruct (im_get _ _). }
  split; [done|]. split.
  { intros n x c Hn%Hres' Hx. unfold check_reserved in Hn.
    apply result_bind_Ok in Hn as (? & _ & Hn). apply result_bind_Ok in Hn as ([] & Hn & _).
    assert (try_fold (λ _ p, ensure (negb (names (companion_of n) (c_dependencies p.2)))
      (ReservedDependency p.1 (companion_of n))) (cfg_containers config) tt = Ok tt) as Hr.
    { rewrite <-Hn. by apply try_fold_ext; intros ? []. }
    pose proof (proj1 (try_fold_unit _ _) Hr (x, c) Hx) as Hn'. apply ensure_Ok in Hn'.
    unfold names in Hn'. bool_to_prop. done. }
  pose proof (collect_checks_spec _ _ Hc) as (_ & _ & Hsub).
  rewrite insert_companions_spec in H by (done || by eapply sublist_NoDup).
  rewrite expand_loop in H. injection H as <-. simpl. split; intros x.
  - apply im_get_fmap. intros k c. destruct (wait_loop checked.*1 k c) as (d & -> & ->). done.
  - apply (im_get_fmap _ (λ _, final_task checked.*1)). intros k t.
    by destruct (task_wait_loop checked.*1 k t) as (d & -> & ->).
Qed.

(** ** Properties *)


Definition example_db : Container :=
    mk_container None (Some "postgres") None None None None None None None None None
      None None None None None None None None None (Some (mk_external_check (Tcp 5432)
      None None None)) None None None None None None None None None None None None None
      None None None None None None None None None None None.
Definition example_app : Container :=
    mk_container None (Some "app") None None None None None None None None None (Some
      ["db"]) None None None None None None None None None None None None None None None
      None None None None None None None None None None None None None None None None
      None None.
Definition example_config : Config :=
  mk_config "example" [("db", example_db); ("app", example_app)] [] None None.
Definition example_expanded : Config :=
  match expand_external_health_checks example_config with
  | Ok c => c
  | Err _ => example_config
  end.

