(* ===== verification/CheckScriptSpec.v ===== *)
(** * CheckScriptSpec: what an external health check runs

    The command of a companion, read back the way the container is given it:
    the shell gets the whole script as one argument, and nothing the
    configuration says can end a word or a quoted text of it. *)

From S2P Require Import Prelude Text Values Config CommandLine CheckScript ExternalChecks.
From stdpp Require Import options.

(** ** The script as fragments

    [Fixed] text is the program's own, a [Word] is written bare and a [Quoted]
    text between double quotes. *)

Inductive fragment := Fixed (s : string) | Word (s : string) | Quoted (s : string).

Definition fragment_text (f : fragment) : string :=
  match f with Fixed s | Word s | Quoted s => s end.

Definition dq : string := String "034" EmptyString.

Definition attempt_fragments (kind : ExternalHealthCheckKind) (timeout : N) (name : string)
    : list fragment :=
  match kind with
  | Http port path expected_status =>
      [Fixed "code=$(curl -s -o /dev/null -w %{http_code} -m "; Word (format_seconds timeout);
       Fixed (" " +:+ dq); Quoted (check_url name port path);
       Fixed (dq +:+ "); if [ " +:+ in_quotes "$code" +:+ " = " +:+ dq); Quoted (show_N expected_status);
       Fixed (dq +:+ " ]; then exit 0; fi")]
  | Tcp port =>
      [Fixed "if nc -z -w "; Word (show_N (as_secs timeout `max` 1)); Fixed " "; Word name; Fixed " ";
       Word (show_N port); Fixed "; then exit 0; fi"]
  end.

Definition failure_fragments (kind : ExternalHealthCheckKind) (retries : N) (name : string)
    : list fragment :=
  match kind with
  | Http port path expected_status =>
      [Fixed ("echo " +:+ dq +:+ "last status $code from "); Quoted (check_url name port path);
       Fixed " after "; Quoted (show_N retries); Fixed " attempt(s), wanted ";
       Quoted (show_N expected_status); Fixed (dq +:+ " >&2")]
  | Tcp port =>
      [Fixed ("echo " +:+ dq +:+ "no TCP connection to "); Quoted name; Fixed ":"; Quoted (show_N port);
       Fixed " after "; Quoted (show_N retries); Fixed (" attempt(s)" +:+ dq +:+ " >&2")]
  end.

Definition script_fragments (check : ExternalHealthCheck) (name : string) : list fragment :=
  let retries := default DEFAULT_RETRIES (eh_retries check) in
  let timeout := default DEFAULT_TIMEOUT (eh_timeout check) in
  [Fixed ("i=0; while [ " +:+ in_quotes "$i" +:+ " -lt "); Word (show_N retries);
   Fixed (" ]; do if [ " +:+ in_quotes "$i" +:+ " -gt 0 ]; then sleep ");
   Word (format_seconds (default DEFAULT_INTERVAL (eh_interval check))); Fixed "; fi; "]
  ++ attempt_fragments (eh_kind check) timeout name ++ [Fixed "; i=$((i+1)); done; "]
  ++ failure_fragments (eh_kind check) retries name ++ [Fixed "; exit 1"].

Definition fixed_parts (fs : list fragment) : list string :=
  omap (λ f, match f with Fixed s => Some s | _ => None end) fs.

Definition text_of (fs : list fragment) : string := join EmptyString (fragment_text <$> fs).

Lemma text_of_cons f fs : text_of (f :: fs) = fragment_text f +:+ text_of fs.
Proof. unfold text_of. destruct fs as [|g fs]; csimpl; [by rewrite string_app_nil_r|done]. Qed.

Lemma in_quotes_eq s : in_quotes s = dq +:+ s +:+ dq.
Proof. done. Qed.

Lemma script_text check name : check_script check name = text_of (script_fragments check name).
Proof.
  unfold check_script, script_fragments, check_failure. destruct (eh_kind check);
    cbn [attempt_fragments failure_fragments check_attempt app];
    rewrite !text_of_cons; cbn [fragment_text]; change (text_of []) with EmptyString;
    rewrite !in_quotes_eq, <-!string_app_assoc, string_app_nil_r; reflexivity.
Qed.

(** ** What the configuration can put into it *)

(** A char of a bare word: a letter or digit, or one of [._-]. *)
Definition word_char (c : ascii) : bool := lower_or_digit c || bool_decide (c ∈ ["."; "_"; "-"]%char).

(** A char the shell reads as itself between double quotes. *)
Definition quoted_char (c : ascii) : bool := negb (bad_path_char c).

Lemma word_char_quoted c : word_char c = true → quoted_char c = true.
Proof. apply char_implies. vm_compute. reflexivity. Qed.

Lemma quoted_not_single c : quoted_char c = true → c ≠ single_quote.
Proof. by intros H ->. Qed.

Lemma seconds_char_word c : seconds_char c = true → word_char c = true.
Proof. apply char_implies. vm_compute. reflexivity. Qed.

Lemma digit_word c : is_ascii_digit c = true → word_char c = true.
Proof. apply char_implies. vm_compute. reflexivity. Qed.

Lemma name_run_chars st l c : name_run st l = true → c ∈ l → word_char c = true.
Proof.
  revert st. induction l as [|d l IH]; simpl; intros st Hrun; [by intros ?%not_elem_of_nil|].
  destruct (name_step st d) as [st'|] eqn:Hs; [|done].
  intros [->|Hc]%elem_of_cons; [|by eapply IH]. unfold name_step, word_char in *.
  destruct (lower_or_digit d); [done|]. simpl. apply bool_decide_eq_true.
  destruct st; repeat case_decide; subst; set_solver.
Qed.

Lemma name_chars name c : is_name_component name = true → c ∈ chars name → word_char c = true.
Proof. apply name_run_chars. Qed.

Lemma name_first name :
  is_name_component name = true → ∃ c s, name = String c s ∧ lower_or_digit c = true.
Proof.
  unfold is_name_component. destruct name as [|c s]; [done|]. change (chars (String c s)) with (c :: chars s).
  simpl. unfold name_step. destruct (lower_or_digit c) eqn:E; [|done]. by exists c, s.
Qed.

Lemma show_N_word n c : c ∈ chars (show_N n) → word_char c = true.
Proof. intros ?%show_N_digits. by apply digit_word. Qed.

(** What a fragment may hold. *)
Definition fragment_ok (f : fragment) : Prop :=
  match f with
  | Fixed s => single_quote ∉ chars s
  | Word s => s ≠ EmptyString ∧ ∀ c, c ∈ chars s → word_char c = true
  | Quoted s => ∀ c, c ∈ chars s → quoted_char c = true
  end.

Lemma fragment_no_single f : fragment_ok f → single_quote ∉ chars (fragment_text f).
Proof.
  destruct f; simpl; [done| |].
  - intros [_ H] Hs. specialize (H _ Hs). by vm_compute in H.
  - intros H Hs. specialize (H _ Hs). by vm_compute in H.
Qed.

Lemma text_no_single fs : Forall fragment_ok fs → single_quote ∉ chars (text_of fs).
Proof.
  induction 1 as [|f fs Hf Hfs IH]; [apply not_elem_of_nil|].
  rewrite text_of_cons, chars_app, elem_of_app. by intros [?%fragment_no_single|].
Qed.

Lemma fixed_ok (s : string) : negb (bool_decide (single_quote ∈ chars s)) = true → fragment_ok (Fixed s).
Proof. intros H. simpl. by bool_to_prop. Qed.

Lemma show_N_ok n : fragment_ok (Word (show_N n)).
Proof. split; [apply show_N_nonempty|intros c; apply show_N_word]. Qed.

Lemma show_N_quoted n : fragment_ok (Quoted (show_N n)).
Proof. intros c ?%show_N_word. by apply word_char_quoted. Qed.

Lemma format_seconds_ok d : fragment_ok (Word (format_seconds d)).
Proof.
  split; [|intros c ?%format_seconds_chars; by apply seconds_char_word].
  unfold format_seconds. repeat case_match; [apply show_N_nonempty|done|].
  unfold show_three. intros He. apply (f_equal chars) in He. rewrite chars_app in He.
  by apply app_eq_nil in He as [_ He].
Qed.

Lemma name_ok name :
  is_name_component name = true → fragment_ok (Word name) ∧ fragment_ok (Quoted name).
Proof.
  intros Hn. split; [split|].
  - intros ->. done.
  - intros c. by apply name_chars.
  - intros c Hc. apply word_char_quoted. by eapply name_chars.
Qed.

Lemma check_url_ok name port path :
  is_name_component name = true → (∀ a, a ∈ chars path → bad_path_char a = false) →
  fragment_ok (Quoted (check_url name port path)).
Proof.
  intros Hn Hpath c. unfold check_url. rewrite !chars_app, !elem_of_app.
  assert (∀ s, forallb quoted_char (chars s) = true → c ∈ chars s → quoted_char c = true) as Hs.
  { intros s Hall Hc. eapply forallb_forall; [done|]. by apply list_elem_of_In. }
  intros [?|[?|[?|[?|Hc]]]].
  - by apply (Hs "http://").
  - by apply (proj2 (name_ok name Hn)).
  - by apply (Hs ":").
  - by apply (show_N_quoted port).
  - unfold quoted_char. by rewrite (Hpath c Hc).
Qed.

Lemma script_ok name c check :
  acceptable name c check → Forall fragment_ok (script_fragments check name).
Proof.
  intros (_ & _ & _ & Hn & _ & _ & _ & Hkind). pose proof (name_ok name Hn) as [Hw Hq].
  unfold script_fragments, attempt_fragments, failure_fragments.
  destruct (eh_kind check) as [port path status|port];
    repeat apply Forall_app_2;
    repeat first [apply Forall_nil_2 | apply Forall_cons_2];
    try first [by apply fixed_ok | apply show_N_ok | apply show_N_quoted | apply format_seconds_ok | done];
    apply check_url_ok; naive_solver.
Qed.

(** The program's own text of a script, by the kind of the check alone. *)
Definition template (http : bool) : list string :=
  fixed_parts (script_fragments (mk_external_check (if http then Http 1 "/" 200 else Tcp 1) None None None) "x").
Definition is_http (check : ExternalHealthCheck) : bool :=
  match eh_kind check with Http _ _ _ => true | Tcp _ => false end.

(** ** Properties *)

(** C12: The companion of an accepted external health check is started with
    [-c] and the whole script as one argument, whatever the configuration
    says.  The script is the program's own text, which depends on the kind of
    the check alone, with texts of the configuration at fixed places: those
    written bare are non-empty words of letters, digits and [._-], and those
    between double quotes hold no char that would end the quotes or that the
    shell expands.  The name [nc] gets starts with a letter or digit, so that
    it is no option, and its timeout is never zero, which would be none. *)
Theorem check_command_spec name c check :
  acceptable name c check →
  build_cmd (Some (check_command check name)) [] = Ok (Some ["-c"; check_script check name]) ∧
  check_script check name = text_of (script_fragments check name) ∧
  fixed_parts (script_fragments check name) = template (is_http check) ∧
  Forall fragment_ok (script_fragments check name) ∧
  (∃ first rest, name = String first rest ∧ lower_or_digit first = true) ∧
  (1 ≤ as_secs (default DEFAULT_TIMEOUT (eh_timeout check)) `max` 1)%N.
Proof.
  intros Hacc. pose proof (script_ok _ _ _ Hacc) as Hok.
  split; [|split; [apply script_text|split; [|split; [done|split; [|lia]]]]].
  - unfold build_cmd. rewrite (tokenize_pieces _ [Bare "-"; Bare "c"; Separator " ";
      SingleQuoted (chars (check_script check name))]%char).
    + assert (chars (check_script check name) ≠ []) as Hne by (unfold check_script; by rewrite chars_app).
      set (script := check_script check name) in *. clearbody script.
      unfold arguments_of. cbn [runs piece_value]. rewrite app_nil_r. cbn [kept].
      destruct (chars script) eqn:E; [done|]. rewrite <-E. cbn. rewrite !app_nil_r, E, <-E. simpl. by rewrite of_chars_chars.
    + do 3 (apply Forall_cons_2; [done|]). apply Forall_singleton.
      cbn [piece_ok]. rewrite script_text. by apply text_no_single.
    + unfold check_command. rewrite !chars_app. set (script := chars (check_script check name)). clearbody script.
      unfold render. cbn. by rewrite app_nil_r.
  - unfold template, is_http, script_fragments. by destruct (eh_kind check).
  - destruct Hacc as (_ & _ & _ & Hn & _). by apply name_first.
Qed.

Definition example_check : ExternalHealthCheck := mk_external_check (Http 8080 "/ready?x=1" 200) (Some 1500000000%N) None None.

Example check_command_spec_witness :
  acceptable "web" container_default example_check ∧
  build_cmd (Some (check_command example_check "web")) [] = Ok (Some ["-c"; check_script example_check "web"]).
Proof.
  assert (acceptable "web" container_default example_check) as Hacc.
  { pose proof (path_accepted "web" "/ready?x=1" tt eq_refl) as [Hs Hc].
    do 7 (split; [done|]). split; [exact Hs|]. split; [exact Hc|lia]. }
  split; [exact Hacc|]. exact (proj1 (check_command_spec "web" container_default example_check Hacc)).
Defined.
