(* ===== verification/Validate.v ===== *)
(** * Validate: the checks that span several fields

    The checks of [ratect-core/src/config.rs] that [load_project_impl] runs on
    the merged configuration: shared networks, identities, setup commands,
    caches, references and customisations, and the fields a Batect-format
    file may not use.  Every check stops at the first offender, containers
    first, in the order declared. *)

From S2P Require Import Prelude Text Collections Values Config DependencyGraph Extends.
From S2P Require Expressions.
From stdpp Require Import options.

Inductive validation_error :=
| NotAContainer (name target reached : string)
| NetworkLoop (name target : string) (members : list string)
| NeedsTaskNetwork (name field mode : string)
| NotADependency (name target : string)
| TargetRunsToCompletion (name target : string)
| OwnerOffTaskNetwork (name field owner target mode : string)
| SetOnOwner (name field owner target : string)
| TaskPorts (task name : string)
| SetupTargetNotDependency (name target command : string)
| SetupTargetCompletes (name target command : string)
| GroupWithoutUser (name : string)
| UserAndCurrentUser (name : string)
| NotANameOrId (name field value : string)
| NotAUserName (container name : string)
| RootId (container name field : string)
| SameUserName (container name : string)
| SameUserId (container earlier name field : string) (id : N)
| IdentityAnd (name other : string)
| IdentityAndCurrentUser (name : string)
| RelativeIdentityCache (name path : string)
| InheritedCurrentUser (name supplier : string)
| CacheScopes (cache : string)
| UndeclaredReference (reference referrer : string)
| CustomisesOutside (task name : string)
| RelativeCacheMount (name path : string)
| CompletesWithHealthCheck (name : string)
| CompletesWithSetup (name : string)
| NativeField (name field : string)
| BothImageSources (name : string)
| NoImageSource (name : string)
| BuildFieldWithImage (name field : string)
| ImageExpression (name image : string).

(** ** Loops over what must all hold *)

Section each.
Context {A E : Type} (f : A → result unit E).

Fixpoint each (l : list A) : result unit E :=
  match l with
  | [] => Ok tt
  | a :: l => let? _ := f a in each l
  end.

Lemma each_Ok l : each l = Ok tt ↔ Forall (λ a, f a = Ok tt) l.
Proof.
  induction l as [|a l IH]; simpl; [done|]. rewrite Forall_cons, <-IH.
  destruct (f a) as [[]|e]; simpl; naive_solver.
Qed.
End each.

(** The first field of a list of (name, is it set?) that is set. *)
Definition first_field (fields : list (string * bool)) : option string :=
  fst ∘ snd <$> list_find (λ p, p.2 = true) fields.
#[global] Arguments first_field : simpl never.

Definition set {A} (o : option A) : bool := match o with Some _ => true | None => false end.

(** ** Networks *)

Definition get_container (config : Config) (name : string) : option Container :=
  im_get (cfg_containers config) name.

(** [path] holds the containers visited, in order. *)
Fixpoint namespace_walk (fuel : nat) (config : Config) (name target owner : string)
    (path : list string) : option (result (string * option string) validation_error) :=
  match fuel with
  | O => None
  | S fuel =>
      match get_container config owner with
      | None => Some (Err (NotAContainer name target owner))
      | Some owner_config =>
          match list_find (λ visited, visited = owner) path with
          | Some (start, _) => Some (Err (NetworkLoop name target (drop start path ++ [owner])))
          | None =>
              let path := path ++ [owner] in
              match c_network_mode owner_config with
              | Some (ContainerMode next) => namespace_walk fuel config name target next path
              | Some mode => Some (Ok (owner, Some (network_mode_into mode)))
              | None => Some (Ok (owner, None))
              end
          end
      end
  end.

Definition network_namespace_owner (config : Config) (name target : string)
    : option (result (string * option string) validation_error) :=
  namespace_walk (S (S (length (cfg_containers config)))) config name target target [].

Definition task_network_fields (c : Container) : list (string * bool) :=
  [("ports", set (c_ports c)); ("additional_hostnames", set (c_additional_hostnames c));
   ("external_health_check", set (c_external_health_check c))].

Definition shared_namespace_fields (c : Container) : list (string * bool) :=
  [("additional_hosts", set (c_additional_hosts c)); ("dns", set (c_dns c));
   ("dns_search", set (c_dns_search c)); ("dns_options", set (c_dns_options c))].

Definition runs_to_completion (config : Config) (name : string) : bool :=
  match get_container config name with
  | Some c => default false (c_run_to_completion c)
  | None => false
  end.

Definition lists (dependencies : option (list string)) (name : string) : bool :=
  bool_decide (name ∈ default [] dependencies).

Definition out_of_fuel {A E} (o : option (result A E)) (e : E) : result A E := default (Err e) o.

Definition validate_container_network (config : Config) (p : string * Container)
    : result unit validation_error :=
  let '(name, c) := p in
  match c_network_mode c with
  | None => Ok tt
  | Some (ContainerMode target) =>
      let? (owner, owner_off_task_network) :=
        out_of_fuel (network_namespace_owner config name target) (NotAContainer name target target) in
      let? _ := ensure (lists (c_dependencies c) target) (NotADependency name target) in
      let? _ := ensure (negb (runs_to_completion config target)) (TargetRunsToCompletion name target) in
      let? _ := match first_field (task_network_fields c), owner_off_task_network with
                | Some field, Some mode => Err (OwnerOffTaskNetwork name field owner target mode)
                | _, _ => Ok tt
                end in
      match first_field (task_network_fields c ++ shared_namespace_fields c) with
      | Some field => Err (SetOnOwner name field owner target)
      | None => Ok tt
      end
  | Some mode =>
      match first_field (task_network_fields c) with
      | Some field => Err (NeedsTaskNetwork name field (network_mode_into mode))
      | None => Ok tt
      end
  end.

(** The containers a task adds [ports] to. *)
Definition task_ports (t : Task) : list string :=
  fst <$> filter (λ p, p.2 = true)
    (match t_run t with Some run => [(r_container run, set (r_ports run))] | None => [] end ++
     ((λ p, (p.1, set (cu_ports p.2))) <$> default [] (t_customise t))).

Definition validate_task_ports (config : Config) (p : string * Task) : result unit validation_error :=
  each (λ name,
    match get_container config name ≫= c_network_mode with
    | None => Ok tt
    | Some (ContainerMode target) =>
        let? _ := out_of_fuel (network_namespace_owner config name target)
                    (NotAContainer name target target) in
        Err (TaskPorts p.1 name)
    | Some _ => Err (TaskPorts p.1 name)
    end) (task_ports p.2).

Definition validate_network_modes (config : Config) : result unit validation_error :=
  let? _ := each (validate_container_network config) (cfg_containers config) in
  each (validate_task_ports config) (cfg_tasks config).

(** ** Setup commands *)

Definition validate_setup_command (config : Config) (name : string) (c : Container)
    (setup_command : SetupCommand) : result unit validation_error :=
  match sc_run_in setup_command with
  | None => Ok tt
  | Some target =>
      if bool_decide (target = name) then Ok tt
      else
        let? _ := ensure (lists (c_dependencies c) target)
                    (SetupTargetNotDependency name target (sc_command setup_command)) in
        ensure (negb (runs_to_completion config target))
          (SetupTargetCompletes name target (sc_command setup_command))
  end.

Definition validate_setup_command_targets (config : Config) : result unit validation_error :=
  each (λ '(name, c), each (validate_setup_command config name c) (default [] (c_setup_commands c)))
    (cfg_containers config).

(** ** Identities *)

Definition runs_as_current_user (c : Container) : bool :=
  match c_run_as_current_user c with Some r => ru_enabled r | None => false end.

Definition validate_identity_value (name : string) (p : string * NameOrId)
    : result unit validation_error :=
  ensure (negb (bool_decide (p.2 = EmptyString)) && negb (contains_char ":" p.2))
    (NotANameOrId name p.1 p.2).

Definition as_list {A} (o : option A) : list A := match o with Some a => [a] | None => [] end.

Definition validate_passthrough_identity (config : Config) : result unit validation_error :=
  each (λ '(name, c),
      let? _ := ensure (negb (set (c_group c)) || set (c_user c)) (GroupWithoutUser name) in
      let? _ := ensure (negb (set (c_user c)) || negb (runs_as_current_user c))
                  (UserAndCurrentUser name) in
      each (validate_identity_value name)
        ((pair "user" <$> as_list (c_user c)) ++ (pair "group" <$> as_list (c_group c)) ++
         (pair "groups" <$> default [] (c_groups c))))
    (cfg_containers config).

Definition reject_inherited_run_as_current_user (config : Config)
    (suppliers : gmap string Suppliers) : result unit validation_error :=
  each (λ '(name, c),
      let supplier := s_run_as_current_user (default (suppliers_own name) (suppliers !! name)) in
      ensure (negb (runs_as_current_user c) || bool_decide (supplier = name))
        (InheritedCurrentUser name supplier))
    (cfg_containers config).

Definition is_user_name (name : string) : bool :=
  match chars name with
  | [] => false
  | first :: characters =>
      (is_ascii_alphabetic first || bool_decide (first = "_"%char)) &&
      forallb (λ rest, is_ascii_alphanumeric rest || bool_decide (rest ∈ ["_"; "."; "-"]%char))
        characters
  end.

(** Two users, the earlier first. *)
Definition distinct_users (container : string) (user earlier : AdditionalUser)
    : result unit validation_error :=
  let? _ := ensure (negb (bool_decide (au_name earlier = au_name user)))
              (SameUserName container (au_name user)) in
  let? _ := ensure (negb (au_uid earlier =? au_uid user)%N)
              (SameUserId container (au_name earlier) (au_name user) "uid" (au_uid user)) in
  ensure (negb (au_gid earlier =? au_gid user)%N)
    (SameUserId container (au_name earlier) (au_name user) "gid" (au_gid user)).

Fixpoint validate_users_from (container : string) (seen users : list AdditionalUser)
    : result unit validation_error :=
  match users with
  | [] => Ok tt
  | user :: users =>
      let? _ := ensure (is_user_name (au_name user)) (NotAUserName container (au_name user)) in
      let? _ := ensure (negb (au_uid user =? 0)%N && negb (au_gid user =? 0)%N)
                  (RootId container (au_name user) (if (au_uid user =? 0)%N then "uid" else "gid")) in
      let? _ := each (distinct_users container user) seen in
      validate_users_from container (seen ++ [user]) users
  end.

Definition validate_additional_users (container : string) (users : list AdditionalUser)
    : result unit validation_error :=
  validate_users_from container [] users.

Definition validate_identity (config : Config) : result unit validation_error :=
  each (λ '(name, c),
      match c_identity c with
      | None => Ok tt
      | Some identity =>
          let? _ := validate_additional_users name (id_additional_users identity) in
          let? _ := match c_user c, c_group c with
                    | Some _, _ => Err (IdentityAnd name "user")
                    | None, Some _ => Err (IdentityAnd name "group")
                    | None, None => Ok tt
                    end in
          let? _ := ensure (negb (runs_as_current_user c)) (IdentityAndCurrentUser name) in
          each (λ volume,
              match volume with
              | CacheMount cache =>
                  ensure (starts_with "/" (cv_container cache))
                    (RelativeIdentityCache name (cv_container cache))
              | _ => Ok tt
              end) (default [] (c_volumes c))
      end)
    (cfg_containers config).

(** ** Caches, references and run-to-completion *)

Definition cache_mounts (c : Container) : list CacheVolumeMount :=
  omap (λ v, match v with CacheMount m => Some m | _ => None end) (default [] (c_volumes c)).

Definition reject_conflicting_cache_scopes (config : Config) : result unit validation_error :=
  let? _ := try_fold (λ (seen : gmap string CacheScope) cache,
      match seen !! cv_name cache with
      | Some scope =>
          if decide (scope = cache_scope cache) then Ok (<[cv_name cache := cache_scope cache]> seen)
          else Err (CacheScopes (cv_name cache))
      | None => Ok (<[cv_name cache := cache_scope cache]> seen)
      end) (mjoin (cache_mounts ∘ snd <$> cfg_containers config)) ∅ in
  Ok tt.

Definition reject_references_to_undeclared_containers (companion_name : string → string)
    (config : Config) : result unit validation_error :=
  let companions := companion_name ∘ fst <$>
    filter (λ p, set (c_external_health_check p.2) = true) (cfg_containers config) in
  let check (referrer reference : string) :=
    ensure (set (get_container config reference) || bool_decide (reference ∈ companions))
      (UndeclaredReference reference referrer) in
  let? _ := each (λ '(name, c), each (check name) (default [] (c_dependencies c)))
              (cfg_containers config) in
  each (λ '(task_name, task),
      each (check task_name)
        (as_list (r_container <$> t_run task) ++ default [] (t_dependencies task)))
    (cfg_tasks config).

Definition containers_map (config : Config) : gmap string Container :=
  list_to_map (cfg_containers config).

Definition reject_customisations_outside_the_task_graph (config : Config)
    : result unit validation_error :=
  each (λ '(task_name, task),
      match t_run task, t_customise task with
      | Some run, Some customise =>
          let names_in_task := default ∅
            (container_names_in_task (containers_map config) (r_container run) (t_dependencies task)) in
          match list_find (λ p, p.1 ∉ names_in_task) customise with
          | Some (_, (name, _)) => Err (CustomisesOutside task_name name)
          | None => Ok tt
          end
      | _, _ => Ok tt
      end) (cfg_tasks config).

Definition reject_relative_cache_mounts_under_user_mapping (config : Config)
    : result unit validation_error :=
  each (λ '(name, c),
      if negb (runs_as_current_user c) then Ok tt
      else each (λ cache, ensure (starts_with "/" (cv_container cache))
                            (RelativeCacheMount name (cv_container cache))) (cache_mounts c))
    (cfg_containers config).

Definition reject_run_to_completion_conflicts (config : Config) : result unit validation_error :=
  each (λ '(name, c),
      if negb (default false (c_run_to_completion c)) then Ok tt
      else
        let? _ := ensure (negb (set (c_health_check c))) (CompletesWithHealthCheck name) in
        ensure (match default [] (c_setup_commands c) with [] => true | _ => false end)
          (CompletesWithSetup name))
    (cfg_containers config).

(** ** What a Batect-format file may not use *)

Notation batect_shaped := (list (string * Container)).

(** The checks of one native field: the first container that sets one. *)
Definition reject_fields (fields : Container → list (string * bool)) (shaped : batect_shaped)
    : result unit validation_error :=
  each (λ '(name, c),
      match first_field (fields c) with
      | Some field => Err (NativeField name field)
      | None => Ok tt
      end) shaped.

Definition reject_extends_in_compat : batect_shaped → result unit validation_error :=
  reject_fields (λ c, [("extends", set (c_extends c))]).

Definition reject_run_to_completion_in_compat : batect_shaped → result unit validation_error :=
  reject_fields (λ c, [("run_to_completion", default false (c_run_to_completion c))]).

Definition reject_external_health_check_in_compat : batect_shaped → result unit validation_error :=
  reject_fields (λ c, [("external_health_check", set (c_external_health_check c))]).

Definition reject_setup_command_run_in_compat : batect_shaped → result unit validation_error :=
  reject_fields (λ c, [("run_in", existsb (λ s, set (sc_run_in s)) (default [] (c_setup_commands c)))]).

Definition reject_shared_caches_in_compat : batect_shaped → result unit validation_error :=
  reject_fields (λ c, [("scope", existsb (λ m, set (cv_scope m)) (cache_mounts c))]).

Definition reject_stop_signal_in_compat : batect_shaped → result unit validation_error :=
  reject_fields (λ c, [("stop_signal", set (c_stop_signal c))]).

Definition reject_stop_grace_period_in_compat : batect_shaped → result unit validation_error :=
  reject_fields (λ c, [("stop_grace_period", set (c_stop_grace_period c))]).

Definition reject_ulimits_in_compat : batect_shaped → result unit validation_error :=
  reject_fields (λ c, [("ulimits", set (c_ulimits c))]).

Definition reject_dns_in_compat : batect_shaped → result unit validation_error :=
  reject_fields (λ c, [("dns", set (c_dns c)); ("dns_search", set (c_dns_search c));
    ("dns_options", set (c_dns_options c))]).

Definition reject_network_mode_in_compat : batect_shaped → result unit validation_error :=
  reject_fields (λ c, [("network_mode", set (c_network_mode c))]).

Definition reject_passthrough_identity_in_compat : batect_shaped → result unit validation_error :=
  reject_fields (λ c, [("user", set (c_user c)); ("group", set (c_group c));
    ("groups", set (c_groups c))]).

Definition reject_identity_in_compat : batect_shaped → result unit validation_error :=
  reject_fields (λ c, [("identity", set (c_identity c))]).

Definition build_only (c : Container) : list (string * bool) :=
  [ ("build_args", set (c_build_args c)); ("build_target", set (c_build_target c));
    ("dockerfile", set (c_dockerfile c)); ("build_ssh", set (c_build_ssh c));
    ("build_secrets", set (c_build_secrets c)) ].

Definition validate_image_sources_in_compat (shaped : batect_shaped) : result unit validation_error :=
  each (λ '(name, c),
      match c_image c, c_build_directory c with
      | Some _, Some _ => Err (BothImageSources name)
      | None, None => Err (NoImageSource name)
      | None, Some _ => Ok tt
      | Some _, None =>
          match first_field (build_only c) with
          | Some field => Err (BuildFieldWithImage name field)
          | None => Ok tt
          end
      end) shaped.

Definition reject_image_expressions_in_compat (shaped : batect_shaped) : result unit validation_error :=
  each (λ '(name, c),
      match c_image c with
      | Some image => ensure (negb (Expressions.contains_expression image)) (ImageExpression name image)
      | None => Ok tt
      end) shaped.

(** [declared_in_batect] says which containers a Batect-format file declares;
    the others may not set [run_as_current_user]. *)
Definition reject_run_as_current_user_in_toml (config : Config) (declared_in_batect : string → bool)
    : result unit validation_error :=
  each (λ '(name, c),
      ensure (negb (set (c_run_as_current_user c)) || declared_in_batect name)
        (NativeField name "run_as_current_user"))
    (cfg_containers config).

Definition reject_incompatible_fields (config : Config) (declared_in_batect : string → bool)
    : result unit validation_error :=
  let shaped := filter (λ p, declared_in_batect p.1 = true) (cfg_containers config) in
  let? _ := reject_extends_in_compat shaped in
  let? _ := reject_run_to_completion_in_compat shaped in
  let? _ := reject_external_health_check_in_compat shaped in
  let? _ := reject_setup_command_run_in_compat shaped in
  let? _ := reject_shared_caches_in_compat shaped in
  let? _ := reject_stop_signal_in_compat shaped in
  let? _ := reject_stop_grace_period_in_compat shaped in
  let? _ := reject_ulimits_in_compat shaped in
  let? _ := reject_dns_in_compat shaped in
  let? _ := reject_network_mode_in_compat shaped in
  let? _ := reject_passthrough_identity_in_compat shaped in
  let? _ := reject_identity_in_compat shaped in
  let? _ := validate_image_sources_in_compat shaped in
  let? _ := reject_image_expressions_in_compat shaped in
  reject_run_as_current_user_in_toml config declared_in_batect.
