(* ===== verification/Validated.v ===== *)
(** * Validated: what a configuration that passed its checks satisfies

    The theorems about [Validate]: each check accepts exactly the
    configurations with the stated property, and always ends. *)

From S2P Require Import Prelude Text Collections Values Config DependencyGraph Extends Validate.
From S2P Require Expressions.
From stdpp Require Import options.

Lemma bind_unit_Ok {E} (r k : result unit E) :
  (let? _ := r in k) = Ok tt ↔ r = Ok tt ∧ k = Ok tt.
Proof. destruct r as [[]|]; simpl; naive_solver. Qed.

Lemma first_field_None l : first_field l = None ↔ ∀ p, p ∈ l → p.2 = false.
Proof.
  unfold first_field. rewrite fmap_None, list_find_None, Forall_forall.
  split; intros H p Hp; specialize (H p Hp); by destruct (p.2).
Qed.

Lemma set_false {A} (o : option A) : set o = false ↔ o = None.
Proof. by destruct o. Qed.

#[export] Hint Rewrite @ensure_Ok @bind_unit_Ok @first_field_None @set_false @each_Ok
  @Forall_forall : ratect_rw.

(** ** Shared networks *)

Section networks.
Context (config : Config).
#[local] Set Default Proof Using "Type".

(** [x] shares the network of [y]. *)
Definition shares (x y : string) : Prop :=
  ∃ c, get_container config x = Some c ∧ c_network_mode c = Some (ContainerMode y).

(** A container with a network namespace that is not another container's. *)
Definition owns_network (x : string) (mode : option string) : Prop :=
  ∃ c, get_container config x = Some c ∧ (∀ y, c_network_mode c ≠ Some (ContainerMode y)) ∧
    mode = network_mode_into <$> c_network_mode c.

Lemma shares_det x y z : shares x y → shares x z → y = z.
Proof. intros (c & ? & ?) (c' & ? & ?). congruence. Qed.

Lemma namespace_walk_spec fuel name target owner path :
  NoDup path → length (cfg_containers config) < fuel + length path →
  (∀ a, a ∈ path → a ∈ (cfg_containers config).*1 ∧ tc shares a owner) →
  rtc shares target owner →
  match namespace_walk fuel config name target owner path with
  | Some (Ok (o, mode)) => rtc shares target o ∧ owns_network o mode
  | Some (Err (NotAContainer n t reached)) =>
      rtc shares target reached ∧ get_container config reached = None
  | Some (Err (NetworkLoop n t members)) => ∃ x, rtc shares target x ∧ tc shares x x
  | _ => False
  end.
Proof.
  revert owner path. induction fuel as [|fuel IH]; intros owner path Hnd Hfuel Hpath Hreach; simpl.
  { assert (length path ≤ length (cfg_containers config).*1); [|rewrite length_fmap in *; lia].
    apply submseteq_length, NoDup_submseteq; [done|]. intros a Ha. by apply Hpath. }
  destruct (get_container config owner) as [c|] eqn:Hc; [|done].
  destruct (list_find _ path) as [[start x]|] eqn:Hfind.
  { apply list_find_Some in Hfind as (Hx & -> & _). exists owner. split; [done|].
    by apply Hpath, list_elem_of_lookup_2 with start. }
  assert (owner ∉ path) as Hnew.
  { intros Hin. rewrite list_find_None, Forall_forall in Hfind. by apply (Hfind owner). }
  destruct (c_network_mode c) as [[]|] eqn:Hmode.
  1,2,4: split; [done|]; exists c; rewrite Hmode; split; [done|]; split; [done|done].
  assert (shares owner name0) as Hsh by (by exists c). apply IH.
  - apply NoDup_app. split; [done|]. split; [set_solver|apply NoDup_singleton].
  - rewrite length_app. simpl. lia.
  - intros a [Ha|Ha]%elem_of_app.
    + destruct (Hpath a Ha). split; [done|]. by eapply tc_r.
    + apply list_elem_of_singleton in Ha as ->. split; [|by apply tc_once].
      apply im_get_is_Some. unfold get_container in Hc. by rewrite Hc.
  - by eapply rtc_r.
Qed.

(** An owner reached rules the other two ends out. *)
Lemma owner_terminal o mode x : owns_network o mode → ¬ shares o x.
Proof. intros (c & ? & Hno & _) (c' & ? & ?). simplify_eq. by apply (Hno x). Qed.

Lemma shares_to_owner x y o mode :
  owns_network o mode → rtc shares x o → rtc shares x y → rtc shares y o.
Proof.
  intros Ho Hxo Hxy. induction Hxy as [|x z y Hxz Hzy IH]; [done|]. apply IH.
  apply rtc_inv in Hxo as [->|(z' & Hz' & ?)]; [by apply owner_terminal with (x := z) in Ho|].
  by rewrite (shares_det _ _ _ Hxz Hz').
Qed.

Lemma no_loop_to_owner x o mode : owns_network o mode → rtc shares x o → ¬ tc shares x x.
Proof.
  intros Ho Hxo. induction Hxo as [x|x y z Hxy Hyz IH]; intros Hx.
  - inversion Hx; subst; by eapply owner_terminal.
  - apply (IH Ho). inversion Hx as [? ? Hxx|? y' ? Hxy' Hyx]; subst.
    + rewrite (shares_det _ _ _ Hxy Hxx) in *. by apply tc_once.
    + rewrite (shares_det _ _ _ Hxy Hxy') in *. by eapply tc_r.
Qed.

Lemma network_namespace_owner_Ok name target :
  (∃ r, network_namespace_owner config name target = Some (Ok r)) ↔
  ∃ o mode, rtc shares target o ∧ owns_network o mode.
Proof.
  pose proof (namespace_walk_spec (S (S (length (cfg_containers config)))) name target target [])
    as H. ospecialize* H; [constructor|simpl; lia|set_solver|done|].
  unfold network_namespace_owner. split.
  - intros [[o mode] Hr]. rewrite Hr in H. eauto.
  - intros (o & mode & Hto & Ho).
    destruct (namespace_walk _ _ _ _ _ _) as [[[o' mode']|[]]|]; try done; [by eexists| |].
    + destruct H as [Hreach Hnone]. exfalso.
      pose proof (shares_to_owner _ _ _ _ Ho Hto Hreach) as Hro.
      apply rtc_inv in Hro as [->|(y & (c & ? & _) & _)]; [|congruence].
      destruct Ho as (c & ? & _). congruence.
    + destruct H as (x & Hreach & Hloop). exfalso. eapply no_loop_to_owner; [exact Ho| |exact Hloop].
      by eapply shares_to_owner.
Qed.

(** What a container's own [network_mode] asks of it. *)
Definition network_allowed (c : Container) : Prop :=
  match c_network_mode c with
  | None => True
  | Some mode =>
      c_ports c = None ∧ c_additional_hostnames c = None ∧ c_external_health_check c = None ∧
      match mode with
      | ContainerMode target =>
          (∃ owner m, rtc shares target owner ∧ owns_network owner m) ∧
          target ∈ default [] (c_dependencies c) ∧ runs_to_completion config target = false ∧
          c_additional_hosts c = None ∧ c_dns c = None ∧ c_dns_search c = None ∧
          c_dns_options c = None
      | _ => True
      end
  end.

Lemma task_network_fields_None c :
  first_field (task_network_fields c) = None ↔
    c_ports c = None ∧ c_additional_hostnames c = None ∧ c_external_health_check c = None.
Proof.
  unfold task_network_fields. destruct (c_ports c), (c_additional_hostnames c),
    (c_external_health_check c); vm_compute; naive_solver.
Qed.

Lemma all_fields_None c :
  first_field (task_network_fields c ++ shared_namespace_fields c) = None ↔
    first_field (task_network_fields c) = None ∧ c_additional_hosts c = None ∧ c_dns c = None ∧
    c_dns_search c = None ∧ c_dns_options c = None.
Proof.
  rewrite !first_field_None. setoid_rewrite elem_of_app. unfold shared_namespace_fields.
  split.
  - intros H. split; [auto|].
    split_and!; apply set_false.
    + apply (H ("additional_hosts", _)); right. set_solver.
    + apply (H ("dns", _)); right. set_solver.
    + apply (H ("dns_search", _)); right. set_solver.
    + apply (H ("dns_options", _)); right. set_solver.
  - intros (H & H1 & H2 & H3 & H4) p [?|Hp]; [auto|]. rewrite H1, H2, H3, H4 in Hp.
    repeat (apply elem_of_cons in Hp as [->|Hp]; [done|]). by apply not_elem_of_nil in Hp.
Qed.

Lemma validate_container_network_Ok name c :
  validate_container_network config (name, c) = Ok tt ↔ network_allowed c.
Proof.
  unfold validate_container_network, network_allowed.
  pose proof (task_network_fields_None c) as Hf. pose proof (all_fields_None c) as Ha.
  destruct (c_network_mode c) as [[| |target]|]; [| | |done].
  1,2: destruct (first_field _) as [f|]; [split; [done|]; intros (? & ? & ? & _);
    by assert (Some f = None) by by apply Hf|]; split; [|done]; intros _; by destruct (proj1 Hf eq_refl) as (? & ? & ?).
  pose proof (network_namespace_owner_Ok name target) as Ho.
  unfold out_of_fuel. split.
  - intros H. apply result_bind_Ok in H as ([o m] & Hr & H).
    destruct (network_namespace_owner config name target) as [r|] eqn:E; simpl in Hr; [subst r|done].
    rewrite !bind_unit_Ok, !ensure_Ok in H. destruct H as (Hd & Hc & Hm & Hall).
    destruct (first_field (_ ++ _)) eqn:Eall; [done|].
    destruct (proj1 Ha eq_refl) as (Htask & ? & ? & ? & ?). destruct (proj1 Hf Htask) as (? & ? & ?).
    split_and!; try done; [apply Ho; by eexists|by apply bool_decide_eq_true in Hd|by apply negb_true_iff].
  - intros (H1 & H2 & H3 & Hown & Hdep & Hrun & H4). destruct (proj2 Ho Hown) as [[o m] ->].
    rewrite Hrun. unfold lists. rewrite bool_decide_eq_true_2 by done.
    assert (first_field (task_network_fields c) = None) as Htask by by apply Hf.
    rewrite Htask. cbn [from_option id result_bind ensure negb].
    by rewrite (proj2 Ha (conj Htask H4)).
Qed.

Lemma validate_task_ports_Ok p :
  validate_task_ports config p = Ok tt ↔
    ∀ name, name ∈ task_ports p.2 → get_container config name ≫= c_network_mode = None.
Proof.
  unfold validate_task_ports. rewrite each_Ok, Forall_forall.
  split; intros H name Hname; specialize (H name Hname).
  - destruct (get_container config name ≫= _) as [[]|]; [done..| |done].
    destruct (out_of_fuel _ _); [done|]. simpl in H. done.
  - by rewrite H.
Qed.
End networks.

(** The networks of a project are accepted exactly when every container that
    shares another's network can: following the sharing ends at a container
    with a network of its own, the one shared is a dependency that keeps
    running, and no field that needs the task's network, or that belongs to
    the network's owner, is set beside it; a container on [host] or [none]
    sets no field that needs the task's network; and no task publishes ports
    for either kind. *)
Theorem validate_network_modes_spec config :
  validate_network_modes config = Ok tt ↔
    (∀ name c, (name, c) ∈ cfg_containers config → network_allowed config c) ∧
    ∀ task_name t name, (task_name, t) ∈ cfg_tasks config → name ∈ task_ports t →
      get_container config name ≫= c_network_mode = None.
Proof.
  unfold validate_network_modes. rewrite bind_unit_Ok, !each_Ok, !Forall_forall. split.
  - intros [H1 H2]. split.
    + intros name c Hc. by apply (validate_container_network_Ok config name), H1.
    + intros tn t name Ht. by apply (validate_task_ports_Ok config (tn, t)), H2.
  - intros [H1 H2]. split.
    + intros [name c] Hc. by apply validate_container_network_Ok, (H1 name).
    + intros [tn t] Ht. apply validate_task_ports_Ok. intros name. by apply (H2 tn).
Qed.

(** ** Identities *)

Definition user_allowed (u : AdditionalUser) : Prop :=
  is_user_name (au_name u) = true ∧ au_uid u ≠ 0%N ∧ au_gid u ≠ 0%N.

Lemma distinct_users_Ok container u e :
  distinct_users container u e = Ok tt ↔
    au_name e ≠ au_name u ∧ au_uid e ≠ au_uid u ∧ au_gid e ≠ au_gid u.
Proof.
  unfold distinct_users. rewrite !bind_unit_Ok, !ensure_Ok, !negb_true_iff, bool_decide_eq_false.
  by rewrite !N.eqb_neq.
Qed.

Lemma validate_users_from_Ok container seen users :
  NoDup (au_name <$> seen) → NoDup (au_uid <$> seen) → NoDup (au_gid <$> seen) →
  validate_users_from container seen users = Ok tt ↔
    Forall user_allowed users ∧ NoDup (au_name <$> seen ++ users) ∧
    NoDup (au_uid <$> seen ++ users) ∧ NoDup (au_gid <$> seen ++ users).
Proof.
  revert seen. induction users as [|u users IH]; intros seen Hn Hu Hg; simpl.
  { rewrite app_nil_r. naive_solver. }
  assert (∀ A (f : AdditionalUser → A), NoDup (f <$> seen) →
    NoDup (f <$> seen ++ [u]) ↔ ∀ e, e ∈ seen → f e ≠ f u) as Hsnoc.
  { intros A f Hf. rewrite fmap_app, NoDup_app. split.
    - intros (_ & H & _) e He Heq.
      apply (H (f u)); [rewrite <-Heq; by apply list_elem_of_fmap_2|by left].
    - intros H. split; [done|]. split; [|apply NoDup_singleton].
      intros x (e & -> & He)%list_elem_of_fmap Hx%list_elem_of_singleton. by apply (H e). }
  rewrite !bind_unit_Ok, !ensure_Ok, each_Ok, Forall_forall, Forall_cons.
  assert (negb (au_uid u =? 0)%N && negb (au_gid u =? 0)%N = true ↔
    au_uid u ≠ 0%N ∧ au_gid u ≠ 0%N) as -> by
    (rewrite andb_true_iff, !negb_true_iff, !N.eqb_neq; done).
  setoid_rewrite distinct_users_Ok.
  replace (seen ++ u :: users) with ((seen ++ [u]) ++ users) by by rewrite <-app_assoc.
  split.
  - intros (Ha & [Hb Hc] & Hd & Hrest). apply IH in Hrest;
      [|rewrite Hsnoc by done; intros e He; by destruct (Hd e He) as (? & ? & ?)..].
    destruct Hrest as (? & ? & ? & ?). split; [split; [by split_and!|done]|done].
  - intros ([(? & ? & ?) ?] & Hn' & Hu' & Hg').
    assert (NoDup (au_name <$> seen ++ [u]) ∧ NoDup (au_uid <$> seen ++ [u]) ∧
      NoDup (au_gid <$> seen ++ [u])) as (Hn1 & Hu1 & Hg1).
    { rewrite (fmap_app au_name (seen ++ [u])) in Hn'. rewrite (fmap_app au_uid (seen ++ [u])) in Hu'.
      rewrite (fmap_app au_gid (seen ++ [u])) in Hg'.
      apply NoDup_app in Hn' as [? _], Hu' as [? _], Hg' as [? _]. done. }
    split; [done|]. split; [done|]. split; [|by apply IH].
    intros e He. rewrite Hsnoc in Hn1, Hu1, Hg1 by done. split; [by apply Hn1|].
    split; [by apply Hu1|by apply Hg1].
Qed.

(** Who a container says it runs as. *)
Definition identity_sources (c : Container) : list string :=
  (if set (c_identity c) then ["identity"] else []) ++
  (if set (c_user c) then ["user"] else []) ++
  (if runs_as_current_user c then ["run_as_current_user"] else []).

Definition name_or_id (value : NameOrId) : Prop :=
  value ≠ EmptyString ∧ contains_char ":" value = false.

Definition identity_fields_allowed (c : Container) (identity : Identity) : Prop :=
  (Forall user_allowed (id_additional_users identity) ∧
   NoDup (au_name <$> id_additional_users identity) ∧
   NoDup (au_uid <$> id_additional_users identity) ∧
   NoDup (au_gid <$> id_additional_users identity)) ∧
  ∀ cache, CacheMount cache ∈ default [] (c_volumes c) → starts_with "/" (cv_container cache) = true.

Definition identity_allowed (c : Container) : Prop :=
  length (identity_sources c) ≤ 1 ∧
  (c_group c ≠ None → c_user c ≠ None) ∧
  (∀ v, c_user c = Some v ∨ c_group c = Some v ∨ v ∈ default [] (c_groups c) → name_or_id v) ∧
  ∀ identity, c_identity c = Some identity → identity_fields_allowed c identity.

Lemma sources_at_most_one c :
  length (identity_sources c) ≤ 1 ↔
    (set (c_identity c) && (set (c_user c) || runs_as_current_user c) = false ∧
     set (c_user c) && runs_as_current_user c = false).
Proof.
  unfold identity_sources.
  destruct (set (c_identity c)), (set (c_user c)), (runs_as_current_user c); simpl; split;
    (lia || done || intros [? ?]; done).
Qed.

Lemma group_needs_user c :
  (c_group c ≠ None → c_user c ≠ None) ↔ negb (set (c_group c)) || set (c_user c) = true.
Proof. destruct (c_group c), (c_user c); simpl; naive_solver. Qed.

Lemma validate_identity_value_Ok name p :
  validate_identity_value name p = Ok tt ↔ name_or_id p.2.
Proof.
  unfold validate_identity_value, name_or_id.
  by rewrite ensure_Ok, andb_true_iff, !negb_true_iff, bool_decide_eq_false.
Qed.

Lemma identity_values name c :
  each (validate_identity_value name)
    ((pair "user" <$> as_list (c_user c)) ++ (pair "group" <$> as_list (c_group c)) ++
     (pair "groups" <$> default [] (c_groups c))) = Ok tt ↔
  ∀ v, c_user c = Some v ∨ c_group c = Some v ∨ v ∈ default [] (c_groups c) → name_or_id v.
Proof.
  rewrite each_Ok, Forall_forall. setoid_rewrite validate_identity_value_Ok. split.
  - intros H v Hv. assert (∃ f, (f, v) ∈ (pair "user" <$> as_list (c_user c)) ++
      (pair "group" <$> as_list (c_group c)) ++ (pair "groups" <$> default [] (c_groups c)))
      as [f Hf]; [|by apply (H (f, v))].
    destruct Hv as [-> |[-> | Hv]]; [exists "user"|exists "group"|exists "groups"];
      rewrite !elem_of_app; [by do 2 left|right; left; by left|do 2 right].
    by apply list_elem_of_fmap_2.
  - intros H [f v] Hp. apply H. simpl. rewrite !elem_of_app, !list_elem_of_fmap in Hp.
    destruct Hp as [(u & [= -> ->] & Hu)|[(u & [= -> ->] & Hu)|(u & [= -> ->] & Hu)]].
    + left. destruct (c_user c); [by apply list_elem_of_singleton in Hu as ->|set_solver].
    + right; left. destruct (c_group c); [by apply list_elem_of_singleton in Hu as ->|set_solver].
    + auto.
Qed.

Lemma relative_caches_Ok {E} (err : CacheVolumeMount → E) volumes :
  each (λ volume,
      match volume with
      | CacheMount cache => ensure (starts_with "/" (cv_container cache)) (err cache)
      | _ => Ok tt
      end) volumes = Ok tt ↔
  ∀ cache, CacheMount cache ∈ volumes → starts_with "/" (cv_container cache) = true.
Proof.
  rewrite each_Ok, Forall_forall. split.
  - intros H cache Hc. specialize (H _ Hc). simpl in H. by apply ensure_Ok in H.
  - intros H [m|m|m] Hm; try done. by apply ensure_Ok, H.
Qed.

(** A configuration passes its identity checks exactly when every container
    has at most one of [identity], [user] and an enabled
    [run_as_current_user]; a [group] only with a [user]; names and ids that
    can be one; and, with an [identity], absolute cache mounts and additional
    users with valid names, no id that is root's, and no two with a name, a
    uid or a gid in common. *)
Theorem validate_identities_spec config :
  validate_identity config = Ok tt ∧ validate_passthrough_identity config = Ok tt ↔
    ∀ name c, (name, c) ∈ cfg_containers config → identity_allowed c.
Proof.
  unfold validate_identity, validate_passthrough_identity. rewrite !each_Ok, !Forall_forall.
  assert (∀ name c, (let '(name, c) := (name, c) in
      match c_identity c with
      | None => Ok tt
      | Some identity =>
          let? _ := validate_additional_users name (id_additional_users identity) in
          let? _ := match c_user c, c_group c with
                    | Some _, _ => Err (IdentityAnd name "user")
                    | None, Some _ => Err (IdentityAnd name "group")
                    | None, None => Ok tt
                    end in
          let? _ := ensure (negb (runs_as_current_user c)) (IdentityAndCurrentUser name) in
          each (λ volume,
              match volume with
              | CacheMount cache =>
                  ensure (starts_with "/" (cv_container cache))
                    (RelativeIdentityCache name (cv_container cache))
              | _ => Ok tt
              end) (default [] (c_volumes c))
      end) = Ok tt ∧
      (let? _ := ensure (negb (set (c_group c)) || set (c_user c)) (GroupWithoutUser name) in
      let? _ := ensure (negb (set (c_user c)) || negb (runs_as_current_user c))
                  (UserAndCurrentUser name) in
      each (validate_identity_value name)
        ((pair "user" <$> as_list (c_user c)) ++ (pair "group" <$> as_list (c_group c)) ++
         (pair "groups" <$> default [] (c_groups c)))) = Ok tt ↔ identity_allowed c) as Hone.
  { intros name c. rewrite !bind_unit_Ok, !ensure_Ok, identity_values. unfold identity_allowed.
    rewrite sources_at_most_one, group_needs_user.
    destruct (c_identity c) as [identity|]; simpl.
    - rewrite !bind_unit_Ok, !ensure_Ok, relative_caches_Ok. unfold validate_additional_users.
      rewrite validate_users_from_Ok by constructor. simpl.
      assert ((∀ i, Some identity = Some i → identity_fields_allowed c i) ↔
        identity_fields_allowed c identity) as -> by (split; [auto|by intros ? ? [= <-]]).
      unfold identity_fields_allowed. generalize (Forall user_allowed (id_additional_users identity)).
      destruct (c_user c), (c_group c), (runs_as_current_user c); simpl; intros P;
        (split; [intros ((? & ? & ? & ?) & ? & ? & ?)|intros ([? ?] & ? & ? & ? & ?)]);
        try discriminate; tauto.
    - destruct (c_user c), (c_group c), (runs_as_current_user c); simpl;
        (split; [intros (? & ? & ? & ?)|intros ([? ?] & ? & ? & ?)]);
        try discriminate; (split_and!; done). }
  split.
  - intros [H1 H2] name c Hc. apply (Hone name c). split; [by apply (H1 (name, c))|by apply (H2 (name, c))].
  - intros H. split; intros [name c] Hc; by apply (Hone name c), (H name).
Qed.

(** ** Caches *)

Definition all_cache_mounts (config : Config) : list CacheVolumeMount :=
  mjoin (cache_mounts ∘ snd <$> cfg_containers config).

Lemma cache_scopes_loop l (seen : gmap string CacheScope) :
  is_ok (try_fold (λ (seen : gmap string CacheScope) cache,
      match seen !! cv_name cache with
      | Some scope =>
          if decide (scope = cache_scope cache) then Ok (<[cv_name cache := cache_scope cache]> seen)
          else Err (CacheScopes (cv_name cache))
      | None => Ok (<[cv_name cache := cache_scope cache]> seen)
      end) l seen) = true ↔
  (∀ m, m ∈ l → ∀ scope, seen !! cv_name m = Some scope → scope = cache_scope m) ∧
  ∀ m m', m ∈ l → m' ∈ l → cv_name m = cv_name m' → cache_scope m = cache_scope m'.
Proof.
  revert seen. induction l as [|m l IH]; intros seen; simpl.
  { split; [|done]. intros _. split; [by intros m ?%not_elem_of_nil|by intros m ? ?%not_elem_of_nil]. }
  assert (∀ seen', seen' = <[cv_name m := cache_scope m]> seen →
    (∀ scope, seen !! cv_name m = Some scope → scope = cache_scope m) →
    ((∀ x, x ∈ l → ∀ scope, seen' !! cv_name x = Some scope → scope = cache_scope x) ∧
      (∀ x x', x ∈ l → x' ∈ l → cv_name x = cv_name x' → cache_scope x = cache_scope x')) ↔
    (∀ x, x ∈ m :: l → ∀ scope, seen !! cv_name x = Some scope → scope = cache_scope x) ∧
    (∀ x x', x ∈ m :: l → x' ∈ m :: l → cv_name x = cv_name x' → cache_scope x = cache_scope x'))
    as Hstep.
  { intros seen' -> Hm. split; intros [H1 H2].
    - assert (∀ x, x ∈ l → cv_name m = cv_name x → cache_scope m = cache_scope x) as Hmx.
      { intros x Hx Hn. apply (H1 x Hx). by rewrite <-Hn, lookup_insert_eq. }
      split.
      + intros x [->|Hx]%elem_of_cons scope Hs; [by apply Hm|].
        destruct (decide (cv_name m = cv_name x)) as [Hn|Hn].
        * rewrite <-(Hmx x Hx Hn). apply Hm. by rewrite Hn.
        * apply (H1 x Hx). by rewrite lookup_insert_ne.
      + intros x x' [->|Hx]%elem_of_cons [->|Hx']%elem_of_cons Hn; [done|by apply Hmx| |by apply H2].
        symmetry. by apply Hmx.
    - split.
      + intros x Hx scope. destruct (decide (cv_name m = cv_name x)) as [Hn|Hn].
        * rewrite Hn, lookup_insert_eq. intros [= <-]. apply H2; [by left|by right|done].
        * rewrite lookup_insert_ne by done. apply H1. by right.
      + intros x x' Hx Hx'. apply H2; by right. }
  destruct (seen !! cv_name m) as [scope|] eqn:Hs.
  - case_decide as Heq; simpl.
    + rewrite IH. apply Hstep; [done|]. by intros ? [= <-].
    + split; [done|]. intros [H1 _]. exfalso. apply Heq, (H1 m); [by left|done].
  - simpl. rewrite IH. apply Hstep; [done|]. by intros ?.
Qed.

(** A project's caches are accepted exactly when no two cache mounts of the
    same name, in whatever containers, have different scopes, an omitted
    scope counting as [project]. *)
Theorem reject_conflicting_cache_scopes_spec config :
  reject_conflicting_cache_scopes config = Ok tt ↔
    ∀ m m', m ∈ all_cache_mounts config → m' ∈ all_cache_mounts config →
      cv_name m = cv_name m' → cache_scope m = cache_scope m'.
Proof.
  unfold reject_conflicting_cache_scopes. fold (all_cache_mounts config).
  pose proof (cache_scopes_loop (all_cache_mounts config) ∅) as H.
  destruct (try_fold _ _ _) as [s|e]; simpl in *.
  - split; [intros _|done]. by apply H.
  - split; [done|]. intros Hall. destruct H as [_ H]. discriminate H. split; [|done].
    intros m _ scope. by rewrite lookup_empty.
Qed.

(** ** What a Batect-format file may not use *)

(** Nothing only Ratect's own format has. *)
Definition batect_only (c : Container) : Prop :=
  c_extends c = None ∧ default false (c_run_to_completion c) = false ∧
  c_external_health_check c = None ∧
  (∀ s, s ∈ default [] (c_setup_commands c) → sc_run_in s = None) ∧
  (∀ m, m ∈ cache_mounts c → cv_scope m = None) ∧
  c_stop_signal c = None ∧ c_stop_grace_period c = None ∧ c_ulimits c = None ∧
  (c_dns c = None ∧ c_dns_search c = None ∧ c_dns_options c = None) ∧
  c_network_mode c = None ∧ (c_user c = None ∧ c_group c = None ∧ c_groups c = None) ∧
  c_identity c = None.

(** Exactly one source of the image, and nothing that needs the other. *)
Definition one_image_source (c : Container) : Prop :=
  match c_image c with
  | Some image =>
      c_build_directory c = None ∧ Expressions.contains_expression image = false ∧
      c_build_args c = None ∧ c_build_target c = None ∧ c_dockerfile c = None ∧
      c_build_ssh c = None ∧ c_build_secrets c = None
  | None => c_build_directory c ≠ None
  end.

Lemma reject_fields_Ok fields shaped :
  reject_fields fields shaped = Ok tt ↔
    ∀ name c, (name, c) ∈ shaped → Forall (λ p, p.2 = false) (fields c).
Proof.
  unfold reject_fields. rewrite each_Ok, Forall_forall. split.
  - intros H name c Hc. apply Forall_forall, first_field_None. specialize (H _ Hc). simpl in H.
    by destruct (first_field (fields c)).
  - intros H [name c] Hc. specialize (H name c Hc). rewrite Forall_forall in H.
    by rewrite (proj2 (first_field_None _) H).
Qed.

Lemma existsb_false {A} (f : A → bool) l : existsb f l = false ↔ ∀ a, a ∈ l → f a = false.
Proof.
  induction l as [|a l IH]; simpl; [split; [by intros _ a ?%not_elem_of_nil|done]|].
  rewrite orb_false_iff, IH. split.
  - intros [Ha Hl] b [->|Hb]%elem_of_cons; auto.
  - intros H. split; [apply H; by left|]. intros b Hb. apply H. by right.
Qed.

Lemma build_only_None c :
  first_field (build_only c) = None ↔ c_build_args c = None ∧ c_build_target c = None ∧
    c_dockerfile c = None ∧ c_build_ssh c = None ∧ c_build_secrets c = None.
Proof.
  rewrite first_field_None, <-Forall_forall. unfold build_only. rewrite !Forall_cons. simpl.
  rewrite !set_false. naive_solver.
Qed.

Lemma image_sources_Ok shaped :
  validate_image_sources_in_compat shaped = Ok tt ∧ reject_image_expressions_in_compat shaped = Ok tt ↔
    ∀ name c, (name, c) ∈ shaped → one_image_source c.
Proof.
  unfold validate_image_sources_in_compat, reject_image_expressions_in_compat.
  rewrite !each_Ok, !Forall_forall. unfold one_image_source. split.
  - intros [H1 H2] name c Hc. specialize (H1 _ Hc). specialize (H2 _ Hc). simpl in H1, H2.
    destruct (c_image c), (c_build_directory c); try done.
    apply ensure_Ok, negb_true_iff in H2.
    destruct (first_field (build_only c)) eqn:Hf; [done|]. by apply build_only_None in Hf.
  - intros H. split; intros [name c] Hc; specialize (H name c Hc);
      destruct (c_image c); simpl; try done.
    + destruct H as (-> & _ & H). by rewrite (proj2 (build_only_None c) H).
    + by destruct (c_build_directory c).
    + apply ensure_Ok, negb_true_iff. apply H.
Qed.

(** The fields of a project are accepted exactly when every container a
    Batect-format file declares uses nothing only Ratect's format has and
    says in one way, and as a literal, where its image comes from, and no
    other container sets [run_as_current_user]. *)
Theorem reject_incompatible_fields_spec config declared_in_batect :
  reject_incompatible_fields config declared_in_batect = Ok tt ↔
    ∀ name c, (name, c) ∈ cfg_containers config →
      if declared_in_batect name then batect_only c ∧ one_image_source c
      else c_run_as_current_user c = None.
Proof.
  unfold reject_incompatible_fields. set (shaped := filter _ _).
  assert (∀ name c, (name, c) ∈ shaped ↔ declared_in_batect name = true ∧ (name, c) ∈ cfg_containers config)
    as Hshaped by (intros; unfold shaped; by rewrite list_elem_of_filter).
  pose proof (image_sources_Ok shaped) as Himg.
  assert (reject_run_as_current_user_in_toml config declared_in_batect = Ok tt ↔
    ∀ name c, (name, c) ∈ cfg_containers config → declared_in_batect name = false →
      c_run_as_current_user c = None) as Hrun.
  { unfold reject_run_as_current_user_in_toml. rewrite each_Ok, Forall_forall. split.
    - intros H name c Hc Hd. specialize (H _ Hc). simpl in H. apply ensure_Ok in H.
      rewrite Hd, orb_false_r in H. by apply set_false, negb_true_iff.
    - intros H [name c] Hc. apply ensure_Ok. destruct (declared_in_batect name) eqn:Hd; [by rewrite orb_true_r|].
      by rewrite (H name c Hc Hd). }
  rewrite !bind_unit_Ok, Hrun.
  unfold reject_extends_in_compat, reject_run_to_completion_in_compat,
    reject_external_health_check_in_compat, reject_setup_command_run_in_compat,
    reject_shared_caches_in_compat, reject_stop_signal_in_compat, reject_stop_grace_period_in_compat,
    reject_ulimits_in_compat, reject_dns_in_compat, reject_network_mode_in_compat,
    reject_passthrough_identity_in_compat, reject_identity_in_compat.
  rewrite !reject_fields_Ok. split.
  - intros (H1 & H2 & H3 & H4 & H5 & H6 & H7 & H8 & H9 & H10 & H11 & H12 & H13 & H14 & H15) name c Hc.
    destruct (declared_in_batect name) eqn:Hd; [|by eapply H15].
    assert ((name, c) ∈ shaped) as Hin by by apply Hshaped.
    split; [|by apply (proj1 Himg (conj H13 H14) name)].
    specialize (H1 _ _ Hin); specialize (H2 _ _ Hin); specialize (H3 _ _ Hin);
      specialize (H4 _ _ Hin); specialize (H5 _ _ Hin); specialize (H6 _ _ Hin);
      specialize (H7 _ _ Hin); specialize (H8 _ _ Hin); specialize (H9 _ _ Hin);
      specialize (H10 _ _ Hin); specialize (H11 _ _ Hin); specialize (H12 _ _ Hin).
    rewrite ?Forall_cons in *. cbn [snd] in *. rewrite ?existsb_false, ?set_false in *.
    unfold batect_only. setoid_rewrite set_false in H4. setoid_rewrite set_false in H5. tauto.
  - intros H.
    assert (∀ name c, (name, c) ∈ shaped → batect_only c ∧ one_image_source c) as Hs.
    { intros name c [Hd Hc]%Hshaped. specialize (H name c Hc). by rewrite Hd in H. }
    destruct (proj2 Himg (λ name c Hin, proj2 (Hs name c Hin))) as [H13 H14].
    split_and!; try done; [..|intros name c Hc Hd; specialize (H name c Hc); by rewrite Hd in H];
      intros name c [Hb _]%Hs; unfold batect_only in Hb; destruct_and! Hb;
      repeat (apply Forall_cons; split); try apply Forall_nil_2; cbn [snd];
      rewrite ?existsb_false; try done; try (by apply set_false);
      intros; apply set_false; auto.
Qed.

(** What a project may not say.  Its caches are accepted exactly when no two
    cache mounts of the same name, in whatever containers, have different
    scopes, an omitted scope counting as [project]; its fields exactly when
    every container a Batect-format file declares uses nothing only Ratect's own
    format has and says in one way, and as a literal, where its image comes
    from, and no other container sets [run_as_current_user]. *)
Theorem rejected_configurations_spec config declared_in_batect :
  (reject_conflicting_cache_scopes config = Ok tt ↔
    ∀ m m', m ∈ all_cache_mounts config → m' ∈ all_cache_mounts config →
      cv_name m = cv_name m' → cache_scope m = cache_scope m') ∧
  (reject_incompatible_fields config declared_in_batect = Ok tt ↔
    ∀ name c, (name, c) ∈ cfg_containers config →
      if declared_in_batect name then batect_only c ∧ one_image_source c
      else c_run_as_current_user c = None).
Proof. split; [apply reject_conflicting_cache_scopes_spec|apply reject_incompatible_fields_spec]. Qed.

