(* ===== verification/Outcome.v ===== *)
(** * Outcome: signals, failures and what an invocation exits with

    [ratect-core/src/interrupt.rs] (the signals and their counters) and
    [ratect-core/src/exit_code.rs] (the mapping from a failure to an exit
    code, and the reading of a command line that does not parse), with the
    error types of [engine.rs] and [docker.rs] they dispatch over.  An
    [anyhow::Error] is the inductive [error]: a leaf for each type something
    downcasts to, the layers [anyhow]'s downcasts look through ([Context] and
    the [NotReady] context) and the two wrappers they do not ([Failed],
    [FailureReported]). *)

From S2P Require Import Prelude Text.
From stdpp Require Import options.

(** ** Termination signals *)

Inductive TerminationSignal := Interrupt | Terminate | Hangup.
#[global] Instance TerminationSignal_eq_dec : EqDecision TerminationSignal.
Proof. solve_decision. Defined.

Definition ALL : list TerminationSignal := [Interrupt; Terminate; Hangup].

Definition number (s : TerminationSignal) : Z :=
  match s with Interrupt => 2 | Terminate => 15 | Hangup => 1 end.

(** [128 + self.number() as u8], at [u8]'s width. *)
Definition exit_code (s : TerminationSignal) : Z := (128 + number s `mod` 256) `mod` 256.

Definition name (s : TerminationSignal) : string :=
  match s with Interrupt => "SIGINT" | Terminate => "SIGTERM" | Hangup => "SIGHUP" end.

Definition ended_run (s : TerminationSignal) : string :=
  match s with
  | Interrupt => "Interrupted"
  | Terminate => "Terminated by SIGTERM"
  | Hangup => "Terminated by SIGHUP"
  end.

Definition not_starting (s : TerminationSignal) (task : string) : string :=
  ended_run s +:+ "; not starting task '" +:+ task +:+ "'.".

Definition send_again (s : TerminationSignal) : string :=
  match s with
  | Interrupt => "Press Ctrl+C again"
  | Terminate => "Send SIGTERM again"
  | Hangup => "Send SIGHUP again"
  end.

Definition from_number (n : Z) : TerminationSignal :=
  match list_find (λ s, number s = n) ALL with
  | Some (_, s) => s
  | None => Interrupt
  end.

(** The tracker's three counters. *)
Record Interrupts := mk_interrupts {
  i_count : nat;
  i_interrupts : nat;
  i_last_signal : Z;
}.

Definition interrupts_new : Interrupts := mk_interrupts 0 0 0.

Definition record_signal (signal : TerminationSignal) (i : Interrupts) : Interrupts :=
  mk_interrupts (S (i_count i))
    (if decide (signal = Interrupt) then S (i_interrupts i) else i_interrupts i)
    (number signal).

Definition last_signal (i : Interrupts) : TerminationSignal := from_number (i_last_signal i).

Definition is_interrupted (i : Interrupts) : bool := bool_decide (0 < i_count i).

(** ** Failures *)

(** What cleanup says it follows. *)
Inductive CleanupCause :=
| Exited (task : string) (exit_code : Z)
| ImagePullFailed (container : string)
| ImageBuildFailed (container : string)
| CreateFailed (container : string)
| StartFailed (container : string)
| NotHealthy (container : string)
| SetupCommandExited (container : string) (index : nat) (exit_code : Z)
| SetupCommandNotRun (container : string) (index : nat)
| DependencyExited (container : string) (exit_code : Z)
| TaskFailedCause (task : string).

Inductive error :=
| ContainerExitedNonZero (exit_code : Z)
| TaskInterrupted (signal : TerminationSignal)
| StdoutClosed
| CleanupFailed (task run : string)
| VerbFailuresReported
| InvalidOptionValue (message : string)
| ContainerStartFailed (container : string) (e : error)
| Message (message : string)
| Context (message : string) (e : error)
| NotReady (message : string)
| NotReadyContext (message : string) (e : error)
| Failed (cause : CleanupCause) (e : error)
| FailureReported (e : error).

(** [anyhow]'s [downcast_ref]: the first layer [p] recognises, through every
    context but not into a wrapper. *)
Fixpoint downcast {A} (p : error → option A) (e : error) : option A :=
  match p e with
  | Some a => Some a
  | None =>
      match e with
      | Context _ e | NotReadyContext _ e | ContainerStartFailed _ e => downcast p e
      | _ => None
      end
  end.

Definition err_is {A} (p : error → option A) (e : error) : bool := bool_decide (is_Some (downcast p e)).

Definition as_exited (e : error) : option Z :=
  match e with ContainerExitedNonZero code => Some code | _ => None end.
Definition as_interrupted (e : error) : option TerminationSignal :=
  match e with TaskInterrupted s => Some s | _ => None end.
Definition as_stdout_closed (e : error) : option () :=
  match e with StdoutClosed => Some () | _ => None end.
Definition as_cleanup_failed (e : error) : option () :=
  match e with CleanupFailed _ _ => Some () | _ => None end.
Definition as_verb_failures (e : error) : option () :=
  match e with VerbFailuresReported => Some () | _ => None end.
Definition as_invalid_option (e : error) : option () :=
  match e with InvalidOptionValue _ => Some () | _ => None end.
Definition as_start_failed (e : error) : option () :=
  match e with ContainerStartFailed _ _ => Some () | _ => None end.
Definition as_not_ready (e : error) : option () :=
  match e with NotReady _ | NotReadyContext _ _ => Some () | _ => None end.
Definition as_failed (e : error) : option (CleanupCause * error) :=
  match e with Failed cause e => Some (cause, e) | _ => None end.
Definition as_reported (e : error) : option error :=
  match e with FailureReported e => Some e | _ => None end.

(** The container's own step [cause], unless it is an external health check's
    companion. *)
Definition of_container (container : string) (reports_readiness_for : option string)
    (cause : string → CleanupCause) : CleanupCause :=
  match reports_readiness_for with
  | Some checked => NotHealthy checked
  | None => cause container
  end.

(** The two searches that go through the wrappers [downcast] stops at. Fuel:
    the depth of the error, which each wrapper they enter lowers. *)
Fixpoint depth (e : error) : nat :=
  match e with
  | ContainerStartFailed _ e | Context _ e | NotReadyContext _ e | Failed _ e
  | FailureReported e => S (depth e)
  | _ => 1
  end.

Fixpoint failed_step_fuel (fuel : nat) (e : error) : option CleanupCause :=
  match fuel with
  | O => None
  | S fuel =>
      match downcast as_failed e with
      | Some (cause, _) => Some cause
      | None => downcast as_reported e ≫= failed_step_fuel fuel
      end
  end.
Definition failed_step (e : error) : option CleanupCause := failed_step_fuel (depth e) e.

Fixpoint is_not_ready_fuel (fuel : nat) (e : error) : bool :=
  match fuel with
  | O => false
  | S fuel =>
      err_is as_not_ready e ||
      match downcast as_failed e with
      | Some (_, e) => is_not_ready_fuel fuel e
      | None => false
      end
  end.
Definition is_not_ready (e : error) : bool := is_not_ready_fuel (depth e) e.

(** What a memo cell's answer is to its callers: the failure as text, rebuilt
    as what its report depends on.  [debug] is [anyhow]'s rendering of the
    whole chain. *)
Definition unshare (debug : error → string) (e : error) : error :=
  let flattened := if is_not_ready e then NotReady (debug e) else Message (debug e) in
  match failed_step e with
  | Some cause => Failed cause flattened
  | None => flattened
  end.

(** ** Exit codes *)

Definition SUCCESS : Z := 0.
Definition VERB_FAILED : Z := 1.
Definition RATECT_FAILED : Z := 125.
Definition INVOCATION_ERROR : Z := 2.
Definition STDOUT_CLOSED : Z := 141.

(** [failure.exit_code as u8] keeps the low eight bits of the [i64]. *)
Definition for_error (e : error) : Z :=
  let e := match downcast as_reported e with Some reported => reported | None => e end in
  match downcast as_exited e with
  | Some code => code `mod` 256
  | None =>
      match downcast as_interrupted e with
      | Some signal => exit_code signal
      | None => if err_is as_stdout_closed e then STDOUT_CLOSED else RATECT_FAILED
      end
  end.

Definition already_reported (e : error) : bool :=
  err_is as_exited e || err_is as_interrupted e || err_is as_stdout_closed e || err_is as_cleanup_failed e
  || err_is as_reported e || err_is as_verb_failures e.

Definition for_failure (e : error) (is_run : bool) : Z :=
  if is_run then for_error e
  else if err_is as_invalid_option e then INVOCATION_ERROR
  else VERB_FAILED.

Definition for_invocation_error (is_run : bool) : Z :=
  if is_run then RATECT_FAILED else INVOCATION_ERROR.

(** ** The words of a command line *)

Inductive Word :=
| Long (name : string)
| Short (c : ascii)
| Positional (word : string).
#[global] Instance Word_eq_dec : EqDecision Word.
Proof. solve_decision. Defined.

(** One word [-shorts]: the words it holds, and whether the next argument is
    the value of its last option. *)
Fixpoint short_words (takes_value : Word → bool) (shorts : list ascii) : list Word * bool :=
  match shorts with
  | [] => ([], false)
  | short :: shorts =>
      if takes_value (Short short) then ([Short short], bool_decide (shorts = []))
      else
        let '(words, next) := short_words takes_value shorts in
        (Short short :: words, next)
  end.

(** One argument's words, and whether the next argument is a value. *)
Definition arg_words (takes_value : Word → bool) (arg : string) : list Word * bool :=
  match strip_prefix "--" arg with
  | Some long =>
      match split_once "=" long with
      | Some (name, _) => ([Long name], false)
      | None => ([Long long], takes_value (Long long))
      end
  | None =>
      match strip_prefix "-" arg with
      | Some (String c shorts) => short_words takes_value (chars (String c shorts))
      | _ => ([Positional arg], false)
      end
  end.

Fixpoint words_from (takes_value : Word → bool) (skip : bool) (args : list string) : list Word :=
  match args with
  | [] => []
  | arg :: args =>
      if skip then words_from takes_value false args
      else if decide (arg = "--") then []
      else
        let '(words, next) := arg_words takes_value arg in
        words ++ words_from takes_value next args
  end.

Definition command_line_words (takes_value : Word → bool) (args : list string) : list Word :=
  words_from takes_value false args.

(** ** Properties *)

Lemma downcast_context {A} (p : error → option A) m e :
  p (Context m e) = None → downcast p (Context m e) = downcast p e.
Proof. intros E. simpl. by rewrite E. Qed.

(** Only a recognised layer makes [downcast] succeed. *)
Lemma downcast_Some {A} (p : error → option A) e a :
  downcast p e = Some a → ∃ e', p e' = Some a ∧ depth e' ≤ depth e.
Proof.
  induction e; intros H; simpl in H |- *;
    try match type of H with
    | match ?q with _ => _ end = _ => destruct q eqn:Eq; simplify_eq; eauto
    end;
    try (destruct IHe as (e' & ? & ?); [done|]; exists e'; split; [done|simpl; lia]).
Qed.

Lemma downcast_as_failed_depth e cause e' :
  downcast as_failed e = Some (cause, e') → depth e' < depth e.
Proof.
  intros (e0 & H & Hd)%downcast_Some. destruct e0; simplify_eq/=; simpl in Hd; lia.
Qed.

Lemma downcast_as_reported_depth e e' :
  downcast as_reported e = Some e' → depth e' < depth e.
Proof.
  intros (e0 & H & Hd)%downcast_Some. destruct e0; simplify_eq/=; simpl in Hd; lia.
Qed.

Lemma depth_pos e : 0 < depth e.
Proof. destruct e; simpl; lia. Qed.

(** The depth is fuel enough for both searches. *)
Lemma failed_step_fuel_enough n e :
  depth e ≤ n → failed_step_fuel n e = failed_step_fuel (depth e) e.
Proof.
  unfold failed_step. remember (depth e) as d eqn:Ed. assert (depth e ≤ d) as Hd by lia. clear Ed.
  revert n e Hd. induction d as [|d IH]; intros n e Hd Hn; [pose proof (depth_pos e); lia|].
  destruct n as [|n]; [lia|]. simpl. destruct (downcast as_failed e) as [[]|]; [done|].
  destruct (downcast as_reported e) as [e'|] eqn:E; simpl; [|done].
  apply downcast_as_reported_depth in E. apply IH; lia.
Qed.

Lemma failed_step_eq e :
  failed_step e =
    match downcast as_failed e with
    | Some (cause, _) => Some cause
    | None => downcast as_reported e ≫= failed_step
    end.
Proof.
  unfold failed_step at 1. pose proof (depth_pos e) as Hd. destruct (depth e) as [|d] eqn:E; [lia|].
  simpl. destruct (downcast as_failed e) as [[]|]; [done|].
  destruct (downcast as_reported e) as [e'|] eqn:E'; simpl; [|done].
  apply downcast_as_reported_depth in E'. apply failed_step_fuel_enough. lia.
Qed.

Lemma is_not_ready_fuel_enough n e :
  depth e ≤ n → is_not_ready_fuel n e = is_not_ready_fuel (depth e) e.
Proof.
  remember (depth e) as d eqn:Ed. assert (depth e ≤ d) as Hd by lia. clear Ed.
  revert n e Hd. induction d as [|d IH]; intros n e Hd Hn; [pose proof (depth_pos e); lia|].
  destruct n as [|n]; [lia|]. simpl. f_equal.
  destruct (downcast as_failed e) as [[c e']|] eqn:E; simpl; [|done].
  apply downcast_as_failed_depth in E. apply IH; lia.
Qed.

Lemma is_not_ready_eq e :
  is_not_ready e = err_is as_not_ready e ||
    match downcast as_failed e with Some (_, e) => is_not_ready e | None => false end.
Proof.
  unfold is_not_ready at 1. pose proof (depth_pos e) as Hd. destruct (depth e) as [|d] eqn:E; [lia|].
  simpl. f_equal. destruct (downcast as_failed e) as [[c e']|] eqn:E'; simpl; [|done].
  apply downcast_as_failed_depth in E'. apply is_not_ready_fuel_enough. lia.
Qed.

(** However many cells a failure passes through, it is the same failure. *)
Lemma unshare_idemp debug e :
  (∀ message, debug (Message message) = message) →
  (∀ message, debug (NotReady message) = message) →
  (∀ cause e, debug (Failed cause e) = debug e) →
  unshare debug (unshare debug e) = unshare debug e.
Proof.
  intros Hm Hn Hf. unfold unshare at 2 3.
  destruct (is_not_ready e), (failed_step e); unfold unshare; simpl;
    rewrite ?Hf, ?Hm, ?Hn; reflexivity.
Qed.

Lemma err_is_Some {A} (p : error → option A) e a : downcast p e = Some a → err_is p e = true.
Proof. intros H. apply bool_decide_eq_true. eauto. Qed.

Lemma exit_code_range s : (129 ≤ exit_code s ≤ 143)%Z.
Proof. destruct s; vm_compute; split; discriminate. Qed.

Lemma from_number_number s : from_number (number s) = s.
Proof. by destruct s. Qed.

(** What a failed run exits with.  The code is always a [u8]; a task's own
    exit keeps its low eight bits, a signal exits [128] plus its number and a
    gone reader [141], in that order of precedence and also under the wrapper
    of a failure already reported; any failure that exits something other
    than [125] has been reported by then, so that [main] only ever prints an
    [Error:] line for a run that exits [125]; and a context added to an error
    changes neither answer. *)
Theorem for_error_spec e :
  (0 ≤ for_error e < 256)%Z ∧
  (∀ code, downcast as_exited e = Some code → downcast as_reported e = None →
    for_error e = code `mod` 256)%Z ∧
  (∀ signal, downcast as_interrupted e = Some signal → downcast as_exited e = None →
    downcast as_reported e = None →
    for_error e = 128 + number signal)%Z ∧
  (for_error e ≠ RATECT_FAILED → already_reported e = true) ∧
  (∀ message, for_error (Context message e) = for_error e ∧
    already_reported (Context message e) = already_reported e) ∧
  (∀ inner, downcast as_reported inner = None → for_error (FailureReported inner) = for_error inner).
Proof.
  split; [|split; [|split; [|split; [|split]]]].
  - unfold for_error. destruct (downcast as_exited _); [apply Z.mod_pos_bound; lia|].
    destruct (downcast as_interrupted _) as [s|]; [pose proof (exit_code_range s); lia|].
    case_match; unfold STDOUT_CLOSED, RATECT_FAILED; lia.
  - intros code E1 E2. unfold for_error. by rewrite E2, E1.
  - intros s E1 E2 E3. unfold for_error. rewrite E3, E2, E1. by destruct s.
  - unfold for_error, already_reported. intros H.
    destruct (downcast as_reported e) as [r|] eqn:E1.
    { rewrite (err_is_Some as_reported e r E1). by rewrite !orb_true_r. }
    destruct (downcast as_exited e) eqn:E2; [by rewrite (err_is_Some _ _ _ E2)|].
    destruct (downcast as_interrupted e) eqn:E3;
      [rewrite (err_is_Some _ _ _ E3); by rewrite !orb_true_r|].
    destruct (err_is as_stdout_closed e); [by rewrite !orb_true_r|done].
  - intros m. split; [|reflexivity]. unfold for_error.
    rewrite (downcast_context as_reported m e) by done.
    destruct (downcast as_reported e); [done|reflexivity].
  - intros inner E. unfold for_error at 1. simpl. unfold for_error. by rewrite E.
Qed.

Definition record_all (signals : list TerminationSignal) (i : Interrupts) : Interrupts :=
  foldl (λ i s, record_signal s i) i signals.

Lemma record_all_counts signals i :
  i_count (record_all signals i) = i_count i + length signals ∧
  i_interrupts (record_all signals i) =
    i_interrupts i + length (filter (λ s, s = Interrupt) signals) ∧
  (∀ signal, last signals = Some signal → last_signal (record_all signals i) = signal).
Proof.
  unfold record_all. revert i. induction signals as [|s signals IH]; intros i; simpl.
  { split_and!; try done; simpl; lia. }
  destruct (IH (record_signal s i)) as (IH1 & IH2 & IH3). simpl in *. rewrite IH1, IH2. split_and!.
  - lia.
  - rewrite filter_cons. simpl. destruct (decide (s = Interrupt)); simpl; lia.
  - intros signal. destruct signals as [|s' signals].
    + intros [= ->]. unfold last_signal. simpl. apply from_number_number.
    + rewrite last_cons_cons. apply IH3.
Qed.

(** ** Reading back a rendered command line *)

(** Where an option's value is written. *)
Inductive value_at := NoValue | Inline (value : string) | Next (value : string).

Inductive item :=
| ILong (name : string) (value : value_at)
| IShorts (flags : list ascii) (valued : option (ascii * value_at))
| IPositional (word : string).

Definition render (i : item) : list string :=
  match i with
  | ILong name NoValue => ["--" +:+ name]
  | ILong name (Inline value) => ["--" +:+ name +:+ "=" +:+ value]
  | ILong name (Next value) => ["--" +:+ name; value]
  | IShorts flags None => ["-" +:+ of_chars flags]
  | IShorts flags (Some (c, Inline value)) => ["-" +:+ of_chars (flags ++ [c]) +:+ value]
  | IShorts flags (Some (c, Next value)) => ["-" +:+ of_chars (flags ++ [c]); value]
  | IShorts flags (Some (c, NoValue)) => ["-" +:+ of_chars (flags ++ [c])]
  | IPositional word => [word]
  end.

Definition item_words (i : item) : list Word :=
  match i with
  | ILong name _ => [Long name]
  | IShorts flags valued => Short <$> flags ++ match valued with Some (c, _) => [c] | None => [] end
  | IPositional word => [Positional word]
  end.

(** An item that reads as itself, for options that take values as
    [takes_value] says. *)
Definition item_ok (takes_value : Word → bool) (i : item) : Prop :=
  match i with
  | ILong name NoValue => name ≠ EmptyString ∧ "="%char ∉ chars name ∧ takes_value (Long name) = false
  | ILong name (Inline _) => "="%char ∉ chars name
  | ILong name (Next _) => name ≠ EmptyString ∧ "="%char ∉ chars name ∧ takes_value (Long name) = true
  | IShorts flags valued =>
      Forall (λ c, takes_value (Short c) = false) flags ∧
      match valued with
      | None => flags ≠ []
      | Some (c, value) =>
          takes_value (Short c) = true ∧
          match value with NoValue => False | Inline v => v ≠ EmptyString | Next _ => True end
      end ∧
      head (flags ++ match valued with Some (c, _) => [c] | None => [] end) ≠ Some "-"%char
  | IPositional word => strip_prefix "-" word = None ∨ word = "-"
  end.

Section words.
Context (takes_value : Word → bool).

Lemma strip_prefix_dashes s : strip_prefix "--" ("--" +:+ s) = Some s.
Proof. by apply strip_prefix_Some. Qed.

Lemma short_words_flags flags rest :
  Forall (λ c, takes_value (Short c) = false) flags →
  short_words takes_value (flags ++ rest) =
    ((Short <$> flags) ++ (short_words takes_value rest).1, (short_words takes_value rest).2).
Proof.
  induction 1 as [|c flags Hc _ IH]; csimpl; [by destruct (short_words _ _)|].
  rewrite Hc, IH. done.
Qed.

Lemma arg_words_shorts c l :
  c ≠ "-"%char →
  arg_words takes_value ("-" +:+ of_chars (c :: l)) = short_words takes_value (c :: l).
Proof.
  intros Hc. unfold arg_words.
  destruct (strip_prefix "--" _) as [t|] eqn:E.
  { apply strip_prefix_Some in E. injection E as E. done. }
  rewrite (proj2 (strip_prefix_Some "-" _ (of_chars (c :: l)))) by done.
  change (of_chars (c :: l)) with (String c (of_chars l)).
  cbv iota beta. f_equal. apply (chars_of_chars (c :: l)).
Qed.

Lemma words_from_item i args :
  item_ok takes_value i →
  words_from takes_value false (render i ++ args) =
    item_words i ++ words_from takes_value false args.
Proof.
  intros Hi.
  assert (∀ s, s ≠ EmptyString → "--" +:+ s ≠ "--") as Hdash.
  { intros s Hs E. apply Hs. by injection E. }
  assert (∀ c l, c ≠ "-"%char → "-" +:+ of_chars (c :: l) ≠ "--") as Hdash1.
  { intros c l Hc E. apply Hc. by injection E. }
  destruct i as [name [|v|v]|flags valued|w].
  - destruct Hi as (Hn & Heq & Ht). cbn [render app words_from].
    rewrite decide_False by auto. unfold arg_words. rewrite strip_prefix_dashes.
    rewrite (proj2 (split_once_None "=" name)) by done. by rewrite Ht.
  - cbn [render app words_from]. rewrite decide_False.
    2: { intros E. injection E as E. by destruct name. }
    unfold arg_words. rewrite strip_prefix_dashes.
    rewrite (proj2 (split_once_Some "=" (name +:+ "=" +:+ v) name v)) by done. done.
  - destruct Hi as (Hn & Heq & Ht). cbn [render app words_from].
    rewrite decide_False by auto. unfold arg_words. rewrite strip_prefix_dashes.
    rewrite (proj2 (split_once_None "=" name)) by done. by rewrite Ht.
  - destruct Hi as (Hf & Hv & Hh).
    destruct valued as [[c v]|].
    + destruct (flags ++ [c]) as [|c0 l] eqn:El; [by destruct flags|].
      assert (c0 ≠ "-"%char) as Hc0 by (intros ->; by simpl in Hh).
      destruct Hv as [Hc Hv].
      destruct v as [|v|v]; [done| |]; cbn [render app words_from item_words]; rewrite El.
      * rewrite decide_False. 2: { intros E. injection E as E. done. }
        replace ("-" +:+ of_chars (c0 :: l) +:+ v) with ("-" +:+ of_chars (c0 :: (l ++ chars v))).
        2: { by rewrite app_comm_cons, of_chars_app, of_chars_chars. }
        rewrite arg_words_shorts by done. rewrite app_comm_cons, <-El, <-(assoc_L (++)).
        rewrite short_words_flags by done. cbn [app short_words]. rewrite Hc.
        rewrite bool_decide_eq_false_2. 2: { intros E. apply Hv. by apply (inj chars). }
        simpl. by rewrite fmap_app.
      * rewrite decide_False by auto. rewrite arg_words_shorts by done. rewrite <-El.
        rewrite short_words_flags by done. cbn [app short_words]. rewrite Hc.
        rewrite bool_decide_eq_true_2 by done. simpl. by rewrite fmap_app.
    + rewrite app_nil_r in Hh. destruct flags as [|c0 l] eqn:El; [done|].
      assert (c0 ≠ "-"%char) as Hc0 by (intros ->; by simpl in Hh).
      cbn [render app words_from item_words]. rewrite decide_False by auto.
      rewrite arg_words_shorts by done. rewrite <-El in *.
      rewrite <-(app_nil_r flags) at 1. rewrite short_words_flags by done. csimpl.
      cbn [short_words fst snd]. rewrite !app_nil_r, El. reflexivity.
  - destruct Hi as [Hi| ->]; [|done]. cbn [render app words_from].
    destruct (strip_prefix "--" w) as [t|] eqn:E.
    { apply strip_prefix_Some in E. subst w. done. }
    rewrite decide_False by (intros ->; done). unfold arg_words. by rewrite E, Hi.
Qed.
End words.

(** Whatever a command line's options and positionals, each is read back as
    itself: an option's value, however it is written, is never one of the
    words, a cluster of short options gives one word each, and nothing after
    [--] is read. *)
Lemma command_line_words_read takes_value items rest :
  Forall (item_ok takes_value) items →
  command_line_words takes_value (concat (render <$> items)) = concat (item_words <$> items) ∧
  command_line_words takes_value (concat (render <$> items) ++ "--" :: rest) =
    concat (item_words <$> items).
Proof.
  intros H. unfold command_line_words.
  assert (∀ args, words_from takes_value false args = [] →
    words_from takes_value false (concat (render <$> items) ++ args) =
      concat (item_words <$> items)) as Hgen.
  { intros args Hargs. induction H as [|i items Hi _ IH]; csimpl; [done|].
    rewrite <-(assoc_L (++)), words_from_item by done. by rewrite IH. }
  split; [|by apply Hgen]. rewrite <-(app_nil_r (concat (render <$> items))). by apply Hgen.
Qed.

Example words_read :
  let takes_value w := bool_decide (w = Short "o"%char ∨ w = Long "file") in
  command_line_words takes_value ["-qo"; "simple"; "--file=a=b"; "run"; "build"; "--"; "--help"]
    = [Short "q"; Short "o"; Long "file"; Positional "run"; Positional "build"].
Proof. vm_compute. reflexivity. Qed.
