(* ===== verification/Startup.v ===== *)
(** * Startup: one task's run, from its network to its end

    The [execution] block of [run_task_internal], with
    [ensure_container_created], [ensure_container_ready],
    [run_setup_commands] and [run_task_container_readiness]
    ([ratect-core/src/engine.rs]), as a state machine.  The futures of the
    source wait on the Docker daemon and on one another: an [event] is one
    answer of the daemon, or one step a future takes when what it waits for
    has come, and [step] is what the code does then, so that an order of
    events is one interleaving of the run.  The memo cells are the phases of
    [s_created] and [s_ready]; a container a cell does not name has not been
    asked for.  The log keeps the events and what the run did, newest first.

    What a container is created with ([container_spec.rs]), its image and the
    warnings on the way are one event, [ImageResolved], or the failure
    [PrepareFailed]. *)

From S2P Require Import Prelude Text Collections Values Config DependencyGraph Outcome.
From stdpp Require Import options.

(** ** What a run is given *)

Record TaskRunContext := mk_context {
  x_task : string;
  x_graph : graph;
  x_containers : gmap string Container;
  x_root : string;
  x_command : option string;
  x_existing_network : option string;
  x_network : string;
  x_readiness_gate : bool;
  x_max_parallelism : option nat;
  x_debug : error → string;
}.

Definition successors_of (x : TaskRunContext) (name : string) : list string :=
  successors (x_graph x) name.

Definition setup_commands (x : TaskRunContext) (name : string) : list SetupCommand :=
  default [] (x_containers x !! name ≫= c_setup_commands).

Definition reports_readiness_for (x : TaskRunContext) (name : string) : option string :=
  x_containers x !! name ≫= c_reports_readiness_for.

(** ** What it does *)

Inductive TaskEvent :=
| TaskGraphResolved
| ContainerCreating (container : string)
| ContainerCreated (container : string)
| DependencyStarting (container : string)
| DependencyStarted (container : string)
| DependencyCompleted (container : string)
| ContainerBecameHealthy (container : string)
| RunningSetupCommand (container command : string) (index total : nat) (run_in : option string)
| SetupCommandsCompleted (container : string)
| RunningTaskContainer (container : string) (command : option string)
| DependencyExitedUnexpectedly (container : string) (exit_code : Z).

Inductive action :=
| Post (e : TaskEvent)
| NetworkExists (network : string)
| CreateNetwork (network : string)
| CreateContainer (container : string)
| StartContainer (container : string)
| ExecSetup (container : string) (index : nat) (target : string)
| RunContainer (container : string).

(** ** What happens to it *)

Inductive event :=
| NetworkAnswered (answer : result bool error)
| ImageResolved (container : string)
| PrepareFailed (container : string) (e : error)
| CreateRequested (container : string)
| CreateAnswered (container : string) (answer : result string (option string * error))
| IdentityApplied (container : string) (answer : result () error)
| ReadyCalled (container : string)
| StartRequested (container : string)
| StartAnswered (container : string) (answer : result () error)
| ExitAnswered (container : string) (answer : result Z error)
| OutputAnswered (container : string) (answer : result string error)
| HealthAnswered (container : string) (answer : result () error)
| ExecRequested (container : string)
| ExecAnswered (container : string) (index : nat) (answer : result (Z * string) error)
| WatchAnswered (container : string) (answer : result Z error)
| RunRequested
| RunStarted
| RunAnswered (answer : result () error)
| InspectAnswered (answer : result bool error)
| GraceExpired
| Signalled (signal : TerminationSignal)
| InterruptSeen.

(** ** The state *)

(** One [CreatedCell]: waiting for the image, then for a [container:] target,
    the create sent, the container there and its files being written, and
    the cell's two answers. *)
Inductive create_phase :=
| CImage
| CTarget
| CRequested
| CApplying (id : string)
| CCreated (id : string)
| CFailed.

(** The gate's second half, shared with the task's own container: the health
    wait, a setup command waiting for its permit, and one running. *)
Inductive gate_phase := GHealth | GSetup (index : nat) | GExec (index : nat).

Inductive ready_phase :=
| RWaiting
| RStarting
| RExit
| RDiagnose (checked : string)
| RGate (gate : gate_phase)
| RReady.

(** The task's own container's gate: off or passed, waiting for the start,
    under way, failed and asking whether the container still runs, failed
    with it gone, and failed with the grace running. *)
Inductive main_gate :=
| MPassed
| MWaitStart
| MAt (gate : gate_phase)
| MInspect (e : error)
| MExited (e : error)
| MGrace (e : error).

Inductive main_phase := MIdle | MRun (started : bool) (gate : main_gate).

Inductive entry := In (e : event) | Out (a : action).

Record state := mk_state {
  s_network : option string;
  s_created : gmap string create_phase;
  s_ready : gmap string ready_phase;
  s_main : main_phase;
  s_created_containers : gmap string string;
  s_pending_creates : list string;
  s_started : gset string;
  s_watching : gset string;
  s_permits : nat;
  s_interrupts : Interrupts;
  s_outcome : option (result () error * nat);
  s_log : list entry;
}.

Definition initial (interrupts : Interrupts) : state :=
  mk_state None ∅ ∅ MIdle ∅ [] ∅ ∅ 0 interrupts None [].

Definition with_network v (s : state) : state :=
  mk_state v (s_created s) (s_ready s) (s_main s) (s_created_containers s)
    (s_pending_creates s) (s_started s) (s_watching s) (s_permits s) (s_interrupts s)
    (s_outcome s) (s_log s).
Definition with_created v (s : state) : state :=
  mk_state (s_network s) v (s_ready s) (s_main s) (s_created_containers s)
    (s_pending_creates s) (s_started s) (s_watching s) (s_permits s) (s_interrupts s)
    (s_outcome s) (s_log s).
Definition with_ready v (s : state) : state :=
  mk_state (s_network s) (s_created s) v (s_main s) (s_created_containers s)
    (s_pending_creates s) (s_started s) (s_watching s) (s_permits s) (s_interrupts s)
    (s_outcome s) (s_log s).
Definition with_main v (s : state) : state :=
  mk_state (s_network s) (s_created s) (s_ready s) v (s_created_containers s)
    (s_pending_creates s) (s_started s) (s_watching s) (s_permits s) (s_interrupts s)
    (s_outcome s) (s_log s).
Definition with_created_containers v (s : state) : state :=
  mk_state (s_network s) (s_created s) (s_ready s) (s_main s) v (s_pending_creates s)
    (s_started s) (s_watching s) (s_permits s) (s_interrupts s) (s_outcome s) (s_log s).
Definition with_pending v (s : state) : state :=
  mk_state (s_network s) (s_created s) (s_ready s) (s_main s) (s_created_containers s) v
    (s_started s) (s_watching s) (s_permits s) (s_interrupts s) (s_outcome s) (s_log s).
Definition with_started v (s : state) : state :=
  mk_state (s_network s) (s_created s) (s_ready s) (s_main s) (s_created_containers s)
    (s_pending_creates s) v (s_watching s) (s_permits s) (s_interrupts s) (s_outcome s)
    (s_log s).
Definition with_watching v (s : state) : state :=
  mk_state (s_network s) (s_created s) (s_ready s) (s_main s) (s_created_containers s)
    (s_pending_creates s) (s_started s) v (s_permits s) (s_interrupts s) (s_outcome s)
    (s_log s).
Definition with_permits v (s : state) : state :=
  mk_state (s_network s) (s_created s) (s_ready s) (s_main s) (s_created_containers s)
    (s_pending_creates s) (s_started s) (s_watching s) v (s_interrupts s) (s_outcome s)
    (s_log s).
Definition with_interrupts v (s : state) : state :=
  mk_state (s_network s) (s_created s) (s_ready s) (s_main s) (s_created_containers s)
    (s_pending_creates s) (s_started s) (s_watching s) (s_permits s) v (s_outcome s) (s_log s).
Definition with_outcome v (s : state) : state :=
  mk_state (s_network s) (s_created s) (s_ready s) (s_main s) (s_created_containers s)
    (s_pending_creates s) (s_started s) (s_watching s) (s_permits s) (s_interrupts s) v
    (s_log s).
Definition with_log v (s : state) : state :=
  mk_state (s_network s) (s_created s) (s_ready s) (s_main s) (s_created_containers s)
    (s_pending_creates s) (s_started s) (s_watching s) (s_permits s) (s_interrupts s)
    (s_outcome s) v.

Definition emit (a : action) (s : state) : state := with_log (Out a :: s_log s) s.

Definition create_cell (name : string) (phase : create_phase) (s : state) : state :=
  with_created (<[name := phase]> (s_created s)) s.
Definition ready_cell (name : string) (phase : ready_phase) (s : state) : state :=
  with_ready (<[name := phase]> (s_ready s)) s.

(** The run's first result is its outcome, with the signal count of that
    moment: the baseline of cleanup's ladder. *)
Definition finish (r : result () error) (s : state) : state :=
  match s_outcome s with
  | Some _ => s
  | None => with_outcome (Some (r, i_count (s_interrupts s))) s
  end.

Definition has_permit (x : TaskRunContext) (s : state) : bool :=
  match x_max_parallelism x with
  | None => true
  | Some m => bool_decide (s_permits s < m)
  end.
Definition take_permit (s : state) : state := with_permits (S (s_permits s)) s.
Definition release_permit (s : state) : state := with_permits (pred (s_permits s)) s.

(** ** The network *)

(** The network is there: the graph is shown and every container's creation
    begins. *)
Definition network_ready (x : TaskRunContext) (network : string) (s : state) : state :=
  emit (Post TaskGraphResolved)
    (with_created (gset_to_gmap CImage (dom (x_graph x))) (with_network (Some network) s)).

Definition network_answered (x : TaskRunContext) (answer : result bool error) (s : state)
    : option state :=
  if decide (s_network s = None) then
    match x_existing_network x, answer with
    | Some network, Ok true => Some (network_ready x network s)
    | Some network, Ok false =>
        Some (finish (Err (Message ("The network '" +:+ network +:+ "' does not exist."))) s)
    | None, Ok _ => Some (network_ready x (x_network x) s)
    | _, Err e => Some (finish (Err e) s)
    end
  else None.

(** The first thing a run does. *)
Definition begin (x : TaskRunContext) (interrupts : Interrupts) : state :=
  emit match x_existing_network x with
       | Some network => NetworkExists network
       | None => CreateNetwork (x_network x)
       end (initial interrupts).

(** ** [ensure_container_created] *)

Definition undeclared_container_bug (name : string) : string :=
  "Container '" +:+ name +:+ "' not found — the configuration loader should have refused " +:+
  "this reference, so this is a bug in Ratect".

Definition image_resolved (x : TaskRunContext) (name : string) (s : state) : option state :=
  match s_created s !! name, x_containers x !! name with
  | Some CImage, Some _ => Some (create_cell name CTarget s)
  | _, _ => None
  end.

Definition prepare_failed (x : TaskRunContext) (name : string) (e : error) (s : state)
    : option state :=
  match s_created s !! name with
  | Some CImage | Some CTarget => Some (finish (Err (unshare (x_debug x) e)) (create_cell name CFailed s))
  | _ => None
  end.

(** The container whose creation [name]'s own waits for. *)
Definition network_target (x : TaskRunContext) (name : string) : option string :=
  match x_containers x !! name ≫= c_network_mode with
  | Some (ContainerMode target) => Some target
  | _ => None
  end.

Definition is_created (s : state) (name : string) : bool :=
  match s_created s !! name with Some (CCreated _) => true | _ => false end.

Definition narrated (x : TaskRunContext) (name : string) : bool :=
  bool_decide (reports_readiness_for x name = None).

Definition post_narrated (x : TaskRunContext) (name : string) (e : TaskEvent) (s : state) : state :=
  if narrated x name then emit (Post e) s else s.

Definition create_requested (x : TaskRunContext) (name : string) (s : state) : option state :=
  match s_created s !! name with
  | Some CTarget =>
      let target_ready :=
        match network_target x name with Some target => is_created s target | None => true end in
      if target_ready && has_permit x s then
        let s := post_narrated x name (ContainerCreating name) (take_permit s) in
        Some (with_pending (s_pending_creates s ++ [name])
          (emit (CreateContainer name) (create_cell name CRequested s)))
      else None
  | _ => None
  end.

(** Every id the daemon hands back is registered before anything else, on
    both arms. *)
Definition register (name id : string) (s : state) : state :=
  with_created_containers (<[name := id]> (s_created_containers s)) s.

Definition create_failed (x : TaskRunContext) (name : string) (e : error) (s : state) : state :=
  finish (Err (unshare (x_debug x)
      (Failed (of_container name (reports_readiness_for x name) CreateFailed) e)))
    (create_cell name CFailed (release_permit s)).

Definition create_answered (x : TaskRunContext) (name : string)
    (answer : result string (option string * error)) (s : state) : option state :=
  match s_created s !! name with
  | Some CRequested =>
      Some match answer with
      | Ok id => create_cell name (CApplying id) (register name id s)
      | Err (Some id, e) => create_failed x name e (register name id s)
      | Err (None, e) => create_failed x name e s
      end
  | _ => None
  end.

Definition identity_applied (x : TaskRunContext) (name : string) (answer : result () error)
    (s : state) : option state :=
  match s_created s !! name with
  | Some (CApplying id) =>
      Some match answer with
      | Ok _ =>
          create_cell name (CCreated id)
            (post_narrated x name (ContainerCreated name) (release_permit s))
      | Err e => create_failed x name e s
      end
  | _ => None
  end.

(** ** [run_setup_commands] *)

Inductive setup_next := SetupDone | SetupAt (index : nat) | SetupBroken (e : error).

(** Where a setup command runs: the container it names, unless that is its
    own. *)
Definition elsewhere (name : string) (command : SetupCommand) : option string :=
  sc_run_in command ≫= λ target, if decide (target = name) then None else Some target.

Definition setup_target (name : string) (command : SetupCommand) : string :=
  default name (elsewhere name command).

Definition setup_description (name : string) (command : SetupCommand) : string :=
  match elsewhere name command with
  | Some target => "'" +:+ target +:+ "' (a setup command of container '" +:+ name +:+ "')"
  | None => "'" +:+ name +:+ "'"
  end.

(** The loop's head, at the command after the [index] done ones: the end, or
    the next command's target and line. *)
Definition setup_enter (x : TaskRunContext) (name : string) (index : nat) (s : state)
    : state * setup_next :=
  let commands := setup_commands x name in
  match commands !! index with
  | None =>
      ((if bool_decide (commands = []) then s else emit (Post (SetupCommandsCompleted name)) s),
        SetupDone)
  | Some command =>
      if bool_decide (setup_target name command = name
                      ∨ setup_target name command ∈ successors_of x name)
      then
        (emit (Post (RunningSetupCommand name (sc_command command) (S index)
            (length commands) (elsewhere name command))) s,
          SetupAt index)
      else
        (s, SetupBroken (Message ("Setup command '" +:+ sc_command command +:+
          "' on container '" +:+ name +:+ "' names 'run_in' container '" +:+
          setup_target name command +:+ "', which was not started as one of its " +:+
          "dependencies — the configuration loader should have refused this, so this is " +:+
          "a bug in Ratect")))
  end.

(** The command's answer, as the loop's body reads it. *)
Definition setup_verdict (name : string) (index : nat) (command : SetupCommand)
    (answer : result (Z * string) error) : result () error :=
  match answer with
  | Err e =>
      Err (Failed (SetupCommandNotRun name (S index))
        (NotReadyContext ("Failed to run setup command '" +:+ sc_command command +:+
          "' in container " +:+ setup_description name command) e))
  | Ok (code, output) =>
      if (code =? 0)%Z then Ok tt
      else
        let output := if bool_decide (trim output = EmptyString)
          then ", and did not produce any output" else ", with output:
" +:+ trim output in
        Err (Failed (SetupCommandExited name (S index) code)
          (NotReady ("Setup command '" +:+ sc_command command +:+ "' in container " +:+
            setup_description name command +:+ " exited with code " +:+ show_Z code +:+ output)))
  end.

(** ** [ensure_container_ready] *)

Definition dependency_failed (x : TaskRunContext) (e : error) (s : state) : state :=
  finish (Err (unshare (x_debug x) e)) s.

(** A container is asked for by the run's own fan-out or by a dependent's. *)
Definition ready_called (x : TaskRunContext) (name : string) (s : state) : option state :=
  let wanted :=
    bool_decide (name ∈ successors_of x (x_root x)) ||
    existsb (λ parent, bool_decide (name ∈ successors_of x parent))
      (map_to_list (s_ready s)).*1 in
  if bool_decide (s_network s ≠ None) && wanted && bool_decide (s_ready s !! name = None)
  then Some (ready_cell name RWaiting s) else None.

Definition is_ready (s : state) (name : string) : bool :=
  match s_ready s !! name with Some RReady => true | _ => false end.

Definition start_requested (x : TaskRunContext) (name : string) (s : state) : option state :=
  match s_ready s !! name with
  | Some RWaiting =>
      if forallb (is_ready s) (successors_of x name) && is_created s name && has_permit x s then
        Some (emit (StartContainer name) (ready_cell name RStarting
          (post_narrated x name (DependencyStarting name) (take_permit s))))
      else None
  | _ => None
  end.

(** Every setup command has passed: ready, and watched from now on. *)
Definition become_ready (name : string) (s : state) : state :=
  with_watching ({[name]} ∪ s_watching s) (ready_cell name RReady s).

Definition enter_dependency_setup (x : TaskRunContext) (name : string) (index : nat) (s : state)
    : state :=
  match setup_enter x name index s with
  | (s, SetupDone) => become_ready name s
  | (s, SetupAt index) => ready_cell name (RGate (GSetup index)) s
  | (s, SetupBroken e) => dependency_failed x e s
  end.

Definition start_answered (x : TaskRunContext) (name : string) (answer : result () error)
    (s : state) : option state :=
  match s_ready s !! name, x_containers x !! name with
  | Some RStarting, Some c =>
      let s := release_permit s in
      Some match answer with
      | Err e =>
          dependency_failed x (Failed (of_container name (c_reports_readiness_for c) StartFailed) e) s
      | Ok _ =>
          let s := post_narrated x name (DependencyStarted name)
            (with_started ({[name]} ∪ s_started s) s) in
          if default false (c_run_to_completion c) then ready_cell name RExit s
          else if bool_decide (c_external_health_check c = None)
          then ready_cell name (RGate GHealth) s
          else enter_dependency_setup x name 0 s
      end
  | _, _ => None
  end.

Definition exit_answered (x : TaskRunContext) (name : string) (answer : result Z error) (s : state)
    : option state :=
  match s_ready s !! name with
  | Some RExit =>
      Some match answer with
      | Err e =>
          dependency_failed x (Context ("Container '" +:+ name +:+ "' did not run to completion") e) s
      | Ok code =>
          match reports_readiness_for x name with
          | Some checked =>
              if (code =? 0)%Z
              then emit (Post (ContainerBecameHealthy checked)) (ready_cell name RReady s)
              else ready_cell name (RDiagnose checked) s
          | None =>
              if (code =? 0)%Z
              then emit (Post (DependencyCompleted name)) (ready_cell name RReady s)
              else dependency_failed x (Failed (DependencyExited name code)
                (Message ("Container '" +:+ name +:+ "' (a run-to-completion dependency) exited " +:+
                  "with code " +:+ show_Z code))) s
          end
      end
  | _ => None
  end.

Definition output_answered (x : TaskRunContext) (name : string) (answer : result string error) (s : state)
    : option state :=
  match s_ready s !! name with
  | Some (RDiagnose checked) =>
      let detail := trim match answer with Ok output => output | Err _ => EmptyString end in
      Some (dependency_failed x (Failed (NotHealthy checked)
        (Message ("Container '" +:+ checked +:+ "' did not become healthy: " +:+
          (if bool_decide (detail = EmptyString) then "its external health check failed"
           else detail) +:+
          ". The external check ran in container '" +:+ name +:+
          "' — --no-cleanup-after-failure keeps it for inspection"))) s)
  | _ => None
  end.

Definition not_healthy (name : string) (e : error) : error :=
  Failed (NotHealthy name)
    (NotReadyContext ("Container '" +:+ name +:+ "' did not become healthy") e).

Definition watch_answered (name : string) (answer : result Z error) (s : state) : option state :=
  if decide (name ∈ s_watching s) then
    let s := with_watching (s_watching s ∖ {[name]}) s in
    Some match answer with
    | Ok code => emit (Post (DependencyExitedUnexpectedly name code)) s
    | Err _ => s
    end
  else None.

(** ** The task's own container *)

(** Everything is created, the root's dependencies are ready: the main
    command runs, its gate waiting for it to start. *)
Definition run_requested (x : TaskRunContext) (s : state) : option state :=
  if forallb (is_created s) (elements (dom (x_graph x)))
     && forallb (is_ready s) (successors_of x (x_root x))
     && bool_decide (s_network s ≠ None) && match s_main s with MIdle => true | _ => false end
  then
    Some (emit (RunContainer (x_root x))
      (emit (Post (RunningTaskContainer (x_root x) (x_command x)))
        (with_main (MRun false (if x_readiness_gate x then MWaitStart else MPassed)) s)))
  else None.

Definition run_started (x : TaskRunContext) (s : state) : option state :=
  match s_main s with
  | MRun false gate =>
      Some (with_started ({[x_root x]} ∪ s_started s)
        (with_main (MRun true
          match gate with MWaitStart => MAt GHealth | gate => gate end) s))
  | _ => None
  end.

(** The run's own end is the outcome, whatever the gate has come to: a
    failed gate is forgiven.  Nothing polls the run while its container is
    being inspected. *)
Definition run_answered (x : TaskRunContext) (answer : result () error) (s : state)
    : option state :=
  match s_main s with
  | MRun _ (MInspect _) => None
  | MRun started _ =>
      match answer with
      | Ok _ => if started then Some (finish (Ok tt) s) else None
      | Err e =>
          Some (finish (Err (if err_is as_start_failed e then Failed (StartFailed (x_root x)) e
            else e)) s)
      end
  | MIdle => None
  end.

Definition enter_main_setup (x : TaskRunContext) (index : nat) (s : state) : state :=
  match setup_enter x (x_root x) index s with
  | (s, SetupDone) => with_main (MRun true MPassed) s
  | (s, SetupAt index) => with_main (MRun true (MAt (GSetup index))) s
  | (s, SetupBroken e) => with_main (MRun true (MInspect e)) s
  end.

Definition inspect_answered (answer : result bool error) (s : state) : option state :=
  match s_main s with
  | MRun started (MInspect e) =>
      Some (with_main (MRun started
        match answer with Ok false => MExited e | _ => MGrace e end) s)
  | _ => None
  end.

Definition grace_expired (s : state) : option state :=
  match s_main s with
  | MRun _ (MGrace e) => Some (finish (Err e) s)
  | _ => None
  end.

(** ** Both gates *)

(** The gate [name] is at: a dependency's or the task container's own. *)
Definition gate_of (x : TaskRunContext) (name : string) (s : state) : option gate_phase :=
  if decide (name = x_root x)
  then match s_main s with MRun true (MAt gate) => Some gate | _ => None end
  else match s_ready s !! name with Some (RGate gate) => Some gate | _ => None end.

Definition set_gate (x : TaskRunContext) (name : string) (gate : gate_phase) (s : state) : state :=
  if decide (name = x_root x) then with_main (MRun true (MAt gate)) s
  else ready_cell name (RGate gate) s.

(** The gate goes on at the setup command [index], or passes. *)
Definition gate_enter (x : TaskRunContext) (name : string) (index : nat) (s : state) : state :=
  if decide (name = x_root x) then enter_main_setup x index s
  else enter_dependency_setup x name index s.

(** A dependency's failed gate ends the run; the task container's is first
    held against whether the container still runs. *)
Definition gate_failed (x : TaskRunContext) (name : string) (e : error) (s : state) : state :=
  if decide (name = x_root x) then with_main (MRun true (MInspect e)) s
  else dependency_failed x e s.

Definition health_answered (x : TaskRunContext) (name : string) (answer : result () error)
    (s : state) : option state :=
  match gate_of x name s with
  | Some GHealth =>
      Some match answer with
      | Err e => gate_failed x name (not_healthy name e) s
      | Ok _ => gate_enter x name 0 (emit (Post (ContainerBecameHealthy name)) s)
      end
  | _ => None
  end.

Definition exec_requested (x : TaskRunContext) (name : string) (s : state) : option state :=
  match gate_of x name s with
  | Some (GSetup index) =>
      match setup_commands x name !! index with
      | Some command =>
          if has_permit x s then
            Some (emit (ExecSetup name index (setup_target name command))
              (set_gate x name (GExec index) (take_permit s)))
          else None
      | None => None
      end
  | _ => None
  end.

Definition exec_answered (x : TaskRunContext) (name : string) (index : nat)
    (answer : result (Z * string) error) (s : state) : option state :=
  match gate_of x name s, setup_commands x name !! index with
  | Some (GExec index'), Some command =>
      if decide (index = index') then
        let s := release_permit s in
        Some match setup_verdict name index command answer with
        | Err e => gate_failed x name e s
        | Ok _ => gate_enter x name (S index) s
        end
      else None
  | _, _ => None
  end.

(** ** Signals *)

Definition interrupt_seen (s : state) : option state :=
  if is_interrupted (s_interrupts s)
  then Some (finish (Err (TaskInterrupted (last_signal (s_interrupts s)))) s) else None.

(** ** One event

    An answer to a create is taken whether or not the run still waits for it:
    its request outlives the run in [pending_creates].  Everything else is
    dropped with the run. *)
Definition handle (x : TaskRunContext) (e : event) (s : state) : option state :=
  match e with
  | Signalled signal => Some (with_interrupts (record_signal signal (s_interrupts s)) s)
  | CreateAnswered name answer => create_answered x name answer s
  | IdentityApplied name answer => identity_applied x name answer s
  | _ =>
      if decide (s_outcome s = None) then
        match e with
        | NetworkAnswered answer => network_answered x answer s
        | ImageResolved name => image_resolved x name s
        | PrepareFailed name e => prepare_failed x name e s
        | CreateRequested name => create_requested x name s
        | ReadyCalled name => ready_called x name s
        | StartRequested name => start_requested x name s
        | StartAnswered name answer => start_answered x name answer s
        | ExitAnswered name answer => exit_answered x name answer s
        | OutputAnswered name answer => output_answered x name answer s
        | HealthAnswered name answer => health_answered x name answer s
        | ExecRequested name => exec_requested x name s
        | ExecAnswered name index answer => exec_answered x name index answer s
        | WatchAnswered name answer => watch_answered name answer s
        | RunRequested => run_requested x s
        | RunStarted => run_started x s
        | RunAnswered answer => run_answered x answer s
        | InspectAnswered answer => inspect_answered answer s
        | GraceExpired => grace_expired s
        | InterruptSeen => interrupt_seen s
        | Signalled _ | CreateAnswered _ _ | IdentityApplied _ _ => None
        end
      else None
  end.

Definition log_event (e : event) (s : state) : state := with_log (In e :: s_log s) s.

Definition step (x : TaskRunContext) (s : state) (e : event) : option state :=
  handle x e (log_event e s).

(** A run of the events, in order. *)
Fixpoint run_events (x : TaskRunContext) (s : state) (events : list event) : option state :=
  match events with
  | [] => Some s
  | e :: events => step x s e ≫= λ s, run_events x s events
  end.

(** [create.peek().is_none()]. *)
Definition create_unfinished (s : state) (name : string) : bool :=
  match s_created s !! name with Some CRequested | Some (CApplying _) => true | _ => false end.

(** The creates whose wait cleanup cut short, for its warning: neither an
    answer nor an id. *)
Definition unanswered (s : state) : list string :=
  sort_dedup (filter (λ name,
      create_unfinished s name = true ∧ s_created_containers s !! name = None)
    (s_pending_creates s)).

(** ** An example: a database with a migration, under a cap of one *)

Definition example_container (dependencies : list string) (setup : list SetupCommand) : Container :=
  mk_container
    None (Some "postgres") None None None None None None None
    None None (Some dependencies) None None None None None None
    (Some setup) None None None None None None None None
    None None None None None None None None None
    None None None None None None None None None.

Definition example_containers : gmap string Container :=
  {[ "app" := example_container ["db"] [];
     "db" := example_container [] [mk_setup_command "migrate" None None] ]}.

Definition example_context : TaskRunContext :=
  mk_context "build" {[ "app" := ["db"]; "db" := [] ]} example_containers "app" None None "net"
    true (Some 1) (λ _, "failed").

Definition example_started : list event :=
  [ NetworkAnswered (Ok true); ImageResolved "db"; ImageResolved "app"; CreateRequested "db";
    CreateAnswered "db" (Ok "id-db"); IdentityApplied "db" (Ok tt); ReadyCalled "db";
    StartRequested "db"; StartAnswered "db" (Ok tt); CreateRequested "app" ].

Definition example_events : list event :=
  example_started ++
  [ CreateAnswered "app" (Ok "id-app"); HealthAnswered "db" (Ok tt); IdentityApplied "app" (Ok tt);
    ExecRequested "db"; ExecAnswered "db" 0 (Ok (0%Z, EmptyString)); RunRequested; RunStarted;
    HealthAnswered "app" (Ok tt); RunAnswered (Ok tt) ].

Definition example_state (events : list event) : state :=
  default (initial interrupts_new) (run_events example_context (begin example_context interrupts_new) events).

Lemma example_run :
  (fst <$> s_outcome (example_state example_events)) = Some (Ok tt) ∧
  s_created_containers (example_state example_events) = {[ "app" := "id-app"; "db" := "id-db" ]}.
Proof. split; vm_compute; reflexivity. Qed.
