(* ===== verification/StartupOrder.v ===== *)
(** * StartupOrder: what a run does, and only then

    For every interleaving of [Startup]'s events: what the run asks of Docker
    is asked once, and only after what the code waits for.  The order is
    stated on the log alone ([justified]); [Inv] ties the phases of the cells
    to it. *)

From S2P Require Import Prelude Text Collections Values Config DependencyGraph Outcome Startup.
From stdpp Require Import options.

(** ** The specification, on the log *)

Section order.
Context (x : TaskRunContext).

Definition created_evidence (log : list entry) (c : string) : Prop :=
  In (IdentityApplied c (Ok tt)) ∈ log ∧ ∃ id, In (CreateAnswered c (Ok id)) ∈ log.

(** The health wait passed, where there is one. *)
Definition health_evidence (log : list entry) (c : string) : Prop :=
  (x_containers x !! c ≫= c_external_health_check = None ∨ c = x_root x) →
  In (HealthAnswered c (Ok tt)) ∈ log.

(** The first [k] setup commands exited 0. *)
Definition setup_evidence (log : list entry) (c : string) (k : nat) : Prop :=
  ∀ j, j < k → ∃ output, In (ExecAnswered c j (Ok (0%Z, output))) ∈ log.

Definition runs_to_completion (c : string) : bool :=
  default false (x_containers x !! c ≫= c_run_to_completion).

(** What the readiness gate of [docs/dependency-readiness.md] asks for. *)
Definition ready_evidence (log : list entry) (c : string) : Prop :=
  In (StartAnswered c (Ok tt)) ∈ log ∧
  if runs_to_completion c then In (ExitAnswered c (Ok 0%Z)) ∈ log
  else (x_containers x !! c ≫= c_external_health_check = None →
          In (HealthAnswered c (Ok tt)) ∈ log) ∧
    setup_evidence log c (length (setup_commands x c)).

Definition deps_evidence (log : list entry) (c : string) : Prop :=
  ∀ d, d ∈ successors_of x c → ready_evidence log d.

(** An action, and the log it comes after. *)
Definition justified (a : action) (log : list entry) : Prop :=
  match a with
  | CreateContainer c =>
      Out (CreateContainer c) ∉ log ∧ c ∈ dom (x_graph x) ∧ In (ImageResolved c) ∈ log ∧
      ∀ target, network_target x c = Some target → created_evidence log target
  | StartContainer c =>
      Out (StartContainer c) ∉ log ∧ created_evidence log c ∧ deps_evidence log c
  | ExecSetup c index target =>
      (In (StartAnswered c (Ok tt)) ∈ log ∨ In RunStarted ∈ log) ∧
      health_evidence log c ∧ setup_evidence log c index ∧
      (∃ command, setup_commands x c !! index = Some command ∧ target = setup_target c command) ∧
      (target = c ∨ target ∈ successors_of x c ∧ ready_evidence log target)
  | RunContainer c =>
      c = x_root x ∧ Out (RunContainer c) ∉ log ∧
      (∀ c, c ∈ dom (x_graph x) → created_evidence log c) ∧ deps_evidence log c
  | Post _ | NetworkExists _ | CreateNetwork _ => True
  end.

(** Newest first, every action comes after what justifies it. *)
Fixpoint justified_log (log : list entry) : Prop :=
  match log with
  | [] => True
  | Out a :: log => justified a log ∧ justified_log log
  | In _ :: log => justified_log log
  end.

Lemma justified_log_split log newer older a :
  justified_log log → log = newer ++ Out a :: older → justified a older.
Proof.
  intros H ->. induction newer as [|[e|b] newer IH]; simpl in H; [apply H|by apply IH|].
  apply IH, H.
Qed.

(** ** Evidence only grows *)

Lemma created_evidence_mono log log' c :
  log ⊆ log' → created_evidence log c → created_evidence log' c.
Proof. intros Hl (H & id & Hid). split; [by apply Hl|]. exists id. by apply Hl. Qed.

Lemma setup_evidence_mono log log' c k :
  log ⊆ log' → setup_evidence log c k → setup_evidence log' c k.
Proof. intros Hl H j Hj. destruct (H j Hj) as [o Ho]. exists o. by apply Hl. Qed.

Lemma ready_evidence_mono log log' c :
  log ⊆ log' → ready_evidence log c → ready_evidence log' c.
Proof.
  intros Hl [H1 H2]. split; [by apply Hl|]. destruct (runs_to_completion c); [by apply Hl|].
  destruct H2 as [H2 H3]. split; [intros Hc; by apply Hl, H2|by eapply setup_evidence_mono].
Qed.

Lemma deps_evidence_mono log log' c :
  log ⊆ log' → deps_evidence log c → deps_evidence log' c.
Proof. intros Hl H d Hd. eapply ready_evidence_mono; eauto. Qed.

(** ** The invariant *)

(** What a gate has seen.  [healthy] is whether the gate had a health wait. *)
Definition gate_evidence (log : list entry) (c : string) (healthy : Prop) (g : gate_phase) : Prop :=
  match g with
  | GHealth => True
  | GSetup k | GExec k =>
      (healthy → In (HealthAnswered c (Ok tt)) ∈ log) ∧ setup_evidence log c k ∧
      ∀ command, setup_commands x c !! k = Some command →
        setup_target c command = c ∨ setup_target c command ∈ successors_of x c
  end.

Definition created_ok (log : list entry) (c : string) (phase : create_phase) : Prop :=
  c ∈ dom (x_graph x) ∧
  match phase with
  | CImage => True
  | CTarget => In (ImageResolved c) ∈ log
  | CRequested | CFailed => True
  | CApplying id => In (CreateAnswered c (Ok id)) ∈ log
  | CCreated _ => created_evidence log c
  end.

Definition no_external (c : string) : Prop := x_containers x !! c ≫= c_external_health_check = None.

Definition ready_ok (log : list entry) (c : string) (phase : ready_phase) : Prop :=
  match phase with
  | RWaiting => True
  | RStarting => deps_evidence log c
  | RExit => In (StartAnswered c (Ok tt)) ∈ log ∧ runs_to_completion c = true
  | RDiagnose _ => True
  | RGate g => In (StartAnswered c (Ok tt)) ∈ log ∧ runs_to_completion c = false ∧
      deps_evidence log c ∧ gate_evidence log c (no_external c) g
  | RReady => ready_evidence log c
  end.

Definition main_ok (log : list entry) (m : main_phase) : Prop :=
  match m with
  | MIdle => True
  | MRun started gate =>
      deps_evidence log (x_root x) ∧ (started = true → In RunStarted ∈ log) ∧
      match gate with
      | MAt g => started = true ∧ gate_evidence log (x_root x) True g
      | _ => True
      end
  end.

(** Whether a cell has sent its request. *)
Definition create_sent (phase : option create_phase) : bool :=
  match phase with None | Some CImage | Some CTarget => false | _ => true end.
Definition start_sent (phase : option ready_phase) : bool :=
  match phase with None | Some RWaiting => false | _ => true end.
Definition run_sent (m : main_phase) : bool := match m with MIdle => false | _ => true end.

Record Inv (s : state) : Prop := {
  inv_network : s_network s = None → s_created s = ∅;
  inv_log : justified_log (s_log s);
  inv_created : map_Forall (created_ok (s_log s)) (s_created s);
  inv_ready : map_Forall (ready_ok (s_log s)) (s_ready s);
  inv_main : main_ok (s_log s) (s_main s);
  inv_create_sent : ∀ c, Out (CreateContainer c) ∈ s_log s → create_sent (s_created s !! c) = true;
  inv_start_sent : ∀ c, Out (StartContainer c) ∈ s_log s → start_sent (s_ready s !! c) = true;
  inv_run_sent : ∀ c, Out (RunContainer c) ∈ s_log s → run_sent (s_main s) = true;
}.

Lemma gate_evidence_mono log log' c p g :
  log ⊆ log' → gate_evidence log c p g → gate_evidence log' c p g.
Proof.
  intros Hl. destruct g as [|k|k]; simpl; [done|..];
    intros (H1 & H2 & H3); (split; [intros Hp; by apply Hl, H1|]);
    (split; [by eapply setup_evidence_mono|done]).
Qed.

Lemma created_ok_mono log log' c ph : log ⊆ log' → created_ok log c ph → created_ok log' c ph.
Proof.
  intros Hl [H1 H2]. split; [done|]. destruct ph; simpl in *; auto.
  by eapply created_evidence_mono.
Qed.

Lemma ready_ok_mono log log' c ph : log ⊆ log' → ready_ok log c ph → ready_ok log' c ph.
Proof.
  intros Hl. destruct ph; simpl; auto.
  - by apply deps_evidence_mono.
  - intros [H1 H2]. auto.
  - intros (H1 & H2 & H3 & H4). split_and!; auto; [by eapply deps_evidence_mono|].
    by eapply gate_evidence_mono.
  - by apply ready_evidence_mono.
Qed.

Lemma main_ok_mono log log' m : log ⊆ log' → main_ok log m → main_ok log' m.
Proof.
  intros Hl. destruct m as [|started gate]; simpl; [done|]. intros (H1 & H2 & H3).
  split; [by eapply deps_evidence_mono|]. split; [auto|].
  destruct gate; auto. destruct H3. split; [done|]. by eapply gate_evidence_mono.
Qed.

(** ** The primitive updates keep it *)

(** The fields [Inv] does not read. *)
Lemma Inv_same s s' :
  s_network s' = s_network s → s_created s' = s_created s → s_ready s' = s_ready s →
  s_main s' = s_main s → s_log s' = s_log s → Inv s → Inv s'.
Proof. intros E0 E1 E2 E3 E4 []. constructor; rewrite ?E0, ?E1, ?E2, ?E3, ?E4; auto. Qed.

Lemma Inv_take_permit s : Inv s → Inv (take_permit s).
Proof. by apply Inv_same. Qed.
Lemma Inv_release_permit s : Inv s → Inv (release_permit s).
Proof. by apply Inv_same. Qed.
Lemma Inv_register name id s : Inv s → Inv (register name id s).
Proof. by apply Inv_same. Qed.
Lemma Inv_pending v s : Inv s → Inv (with_pending v s).
Proof. by apply Inv_same. Qed.
Lemma Inv_started v s : Inv s → Inv (with_started v s).
Proof. by apply Inv_same. Qed.
Lemma Inv_watching v s : Inv s → Inv (with_watching v s).
Proof. by apply Inv_same. Qed.
Lemma Inv_interrupts v s : Inv s → Inv (with_interrupts v s).
Proof. by apply Inv_same. Qed.

Lemma Inv_finish r s : Inv s → Inv (finish r s).
Proof. unfold finish. destruct (s_outcome s); [done|]. by apply Inv_same. Qed.

Lemma Inv_log en s :
  Inv s →
  (∀ a, en = Out a → justified a (s_log s) ∧
    (∀ c, a = CreateContainer c → create_sent (s_created s !! c) = true) ∧
    (∀ c, a = StartContainer c → start_sent (s_ready s !! c) = true) ∧
    (∀ c, a = RunContainer c → run_sent (s_main s) = true)) →
  Inv (with_log (en :: s_log s) s).
Proof.
  intros [] Ha. assert (s_log s ⊆ en :: s_log s) as Hl by set_solver.
  constructor; simpl; auto.
  - destruct en as [e|a]; [done|]. split; [by apply Ha|done].
  - eapply map_Forall_impl; [done|]. intros c ph. by apply created_ok_mono.
  - eapply map_Forall_impl; [done|]. intros c ph. by apply ready_ok_mono.
  - by eapply main_ok_mono.
  - intros c [<-|H]%elem_of_cons; [|by auto]. destruct (Ha _ eq_refl) as (_ & H & _). by apply H.
  - intros c [<-|H]%elem_of_cons; [|by auto]. destruct (Ha _ eq_refl) as (_ & _ & H & _). by apply H.
  - intros c [<-|H]%elem_of_cons; [|by eauto]. destruct (Ha _ eq_refl) as (_ & _ & _ & H). by eapply H.
Qed.

Lemma Inv_post e s : Inv s → Inv (emit (Post e) s).
Proof. intros H. apply Inv_log; [done|]. intros a [= <-]. by split_and!. Qed.

Lemma Inv_post_narrated c e s : Inv s → Inv (post_narrated x c e s).
Proof. unfold post_narrated. destruct (narrated x c); [apply Inv_post|done]. Qed.

Lemma Inv_create_cell c ph s :
  Inv s → s_network s ≠ None → created_ok (s_log s) c ph →
  (create_sent (s_created s !! c) = true → create_sent (Some ph) = true) →
  Inv (create_cell c ph s).
Proof.
  intros [] Hn Hok Hs. constructor; simpl; auto; [done|by apply map_Forall_insert_2|].
  intros c' H. destruct (decide (c = c')) as [->|]; simplify_map_eq; auto.
Qed.

Lemma Inv_ready_cell c ph s :
  Inv s → ready_ok (s_log s) c ph →
  (start_sent (s_ready s !! c) = true → start_sent (Some ph) = true) →
  Inv (ready_cell c ph s).
Proof.
  intros [] Hok Hs. constructor; simpl; auto; [by apply map_Forall_insert_2|].
  intros c' H. destruct (decide (c = c')) as [->|]; simplify_map_eq; auto.
Qed.

Lemma Inv_main m s :
  Inv s → main_ok (s_log s) m → (run_sent (s_main s) = true → run_sent m = true) →
  Inv (with_main m s).
Proof. intros [] Hok Hs. constructor; simpl; eauto. Qed.

Lemma Inv_cell_network s c ph : Inv s → s_created s !! c = Some ph → s_network s ≠ None.
Proof. intros [Hn _ _ _ _ _ _ _] H E. by rewrite (Hn E) in H. Qed.

Lemma is_created_evidence s c : Inv s → is_created s c = true → created_evidence (s_log s) c.
Proof.
  intros Hi. unfold is_created. destruct (s_created s !! c) as [ph|] eqn:E; [|done].
  destruct ph as [| | | |id|]; try done. intros _.
  by destruct (inv_created s Hi c _ E) as [_ ?].
Qed.

Lemma is_ready_evidence s c : Inv s → is_ready s c = true → ready_evidence (s_log s) c.
Proof.
  intros Hi. unfold is_ready. destruct (s_ready s !! c) as [ph|] eqn:E; [|done].
  destruct ph; try done. intros _. by apply (inv_ready s Hi c _ E).
Qed.

Lemma all_ready_evidence s c :
  Inv s → forallb (is_ready s) (successors_of x c) = true → deps_evidence (s_log s) c.
Proof.
  intros Hi H d Hd. apply is_ready_evidence; [done|].
  rewrite forallb_forall in H. apply H. by apply list_elem_of_In.
Qed.
End order.

#[export] Hint Resolve Inv_finish Inv_post Inv_post_narrated Inv_take_permit Inv_release_permit
  Inv_register Inv_pending Inv_started Inv_watching Inv_interrupts : ratect.

(** ** Every handler keeps it *)

Section handlers.
Context (x : TaskRunContext).
Implicit Types s : state.

Lemma network_answered_Inv answer s s' :
  Inv x s → network_answered x answer s = Some s' → Inv x s'.
Proof.
  intros Hi H. unfold network_answered in H. destruct (decide _) as [Hn|]; [|done].
  assert (∀ n, Inv x (network_ready x n s)) as Hready.
  { intros n. apply Inv_post. destruct Hi as [H0 H1 H2 H3 H4 H5 H6 H7].
    constructor; simpl; auto; [done| |].
    - intros c ph [Hc <-]%lookup_gset_to_gmap_Some. by split.
    - intros c Hc. specialize (H5 c Hc). by rewrite H0, lookup_empty in H5. }
  repeat case_match; simplify_eq; auto with ratect.
Qed.

Lemma image_resolved_Inv name s s' :
  In (ImageResolved name) ∈ s_log s → Inv x s → image_resolved x name s = Some s' → Inv x s'.
Proof.
  intros He Hi H. unfold image_resolved in H. repeat case_match; simplify_eq.
  apply Inv_create_cell; [done|by eapply Inv_cell_network|..].
  - split; [by eapply inv_created|done].
  - by simplify_map_eq.
Qed.

Lemma prepare_failed_Inv name e s s' :
  Inv x s → prepare_failed x name e s = Some s' → Inv x s'.
Proof.
  intros Hi H. unfold prepare_failed in H. repeat case_match; simplify_eq;
    (apply Inv_finish, Inv_create_cell; [done|by eapply Inv_cell_network| |done];
     split; [by eapply inv_created|done]).
Qed.

Lemma create_requested_Inv name s s' :
  Inv x s → create_requested x name s = Some s' → Inv x s'.
Proof.
  intros Hi H. unfold create_requested in H.
  destruct (s_created s !! name) as [[| | | | |]|] eqn:E; try done.
  destruct (_ && _) eqn:G; [|done]. injection H as <-. bool_to_prop.
  destruct (inv_created _ _ Hi name _ E) as [Hd Himg].
  assert (Out (CreateContainer name) ∉ s_log s) as Hfresh.
  { intros Hc%(inv_create_sent _ _ Hi). by rewrite E in Hc. }
  apply Inv_pending.
  assert (Inv x (post_narrated x name (ContainerCreating name) (take_permit s))) as Hi'.
  { auto with ratect. }
  assert (s_created (post_narrated x name (ContainerCreating name) (take_permit s)) = s_created s)
    as Ec by (unfold post_narrated; by destruct (narrated _ _)).
  assert (s_log s ⊆ s_log (post_narrated x name (ContainerCreating name) (take_permit s))) as Hl.
  { unfold post_narrated. destruct (narrated _ _); simpl; set_solver. }
  apply Inv_log.
  - apply Inv_create_cell; [done|by eapply Inv_cell_network; [|rewrite Ec]|by split|by rewrite Ec, E].
  - intros a [= <-]. split_and!; try done; [|intros c [= ->]; simpl; by rewrite lookup_insert_eq].
    split_and!.
    + simpl. unfold post_narrated. destruct (narrated _ _); simpl; set_solver.
    + done.
    + by apply Hl.
    + intros target Ht. eapply created_evidence_mono; [exact Hl|].
      apply (is_created_evidence x); [done|]. by rewrite Ht in *.
Qed.

Lemma create_failed_Inv name e s ph :
  Inv x s → s_created s !! name = Some ph → create_sent (Some ph) = true →
  Inv x (create_failed x name e s).
Proof.
  intros Hi E Hs. apply Inv_finish. apply Inv_create_cell.
  - auto with ratect.
  - by apply (Inv_cell_network x s name ph).
  - split; [by eapply (inv_created _ _ Hi)|done].
  - done.
Qed.

Lemma create_answered_Inv name answer s s' :
  In (CreateAnswered name answer) ∈ s_log s →
  Inv x s → create_answered x name answer s = Some s' → Inv x s'.
Proof.
  intros He Hi H. unfold create_answered in H.
  destruct (s_created s !! name) as [[| | | | |]|] eqn:E; try done. injection H as <-.
  destruct answer as [id|[[id|] e]].
  - apply Inv_create_cell; [auto with ratect|by apply (Inv_cell_network x s name _ Hi E)| |done].
    split; [by eapply (inv_created _ _ Hi)|done].
  - eapply create_failed_Inv; [auto with ratect|exact E|done].
  - by eapply create_failed_Inv.
Qed.

Lemma identity_applied_Inv name answer s s' :
  In (IdentityApplied name answer) ∈ s_log s →
  Inv x s → identity_applied x name answer s = Some s' → Inv x s'.
Proof.
  intros He Hi H. unfold identity_applied in H.
  destruct (s_created s !! name) as [[| | |id| |]|] eqn:E; try done. injection H as <-.
  destruct (inv_created _ _ Hi name _ E) as [Hd Hid].
  destruct answer as [[]|e]; [|by eapply create_failed_Inv].
  assert (Inv x (post_narrated x name (ContainerCreated name) (release_permit s))) as Hi'.
  { auto with ratect. }
  assert (s_log s ⊆ s_log (post_narrated x name (ContainerCreated name) (release_permit s))) as Hl.
  { unfold post_narrated. destruct (narrated _ _); simpl; set_solver. }
  apply Inv_create_cell; [done| | |done].
  - eapply Inv_cell_network; [done|]. unfold post_narrated. by destruct (narrated _ _).
  - split; [done|]. split; [by apply Hl|]. exists id. by apply Hl.
Qed.

(** *** Setup commands *)

Lemma setup_enter_Inv name index s s' n :
  Inv x s → setup_enter x name index s = (s', n) →
  Inv x s' ∧ s_log s ⊆ s_log s' ∧ s_ready s' = s_ready s ∧ s_main s' = s_main s ∧
  match n with
  | SetupDone => setup_commands x name !! index = None
  | SetupAt k => k = index ∧ ∀ command, setup_commands x name !! k = Some command →
      setup_target name command = name ∨ setup_target name command ∈ successors_of x name
  | SetupBroken _ => True
  end.
Proof.
  intros Hi H. unfold setup_enter in H.
  destruct (setup_commands x name !! index) as [command|] eqn:E.
  - case_bool_decide as Ht; simplify_eq; (split; [auto with ratect|]); split_and!; try done; simpl.
    + set_solver.
    + intros command' ?. by simplify_eq.
  - injection H as <- <-. split; [case_bool_decide; auto with ratect|].
    split_and!; try done; case_bool_decide; simpl; set_solver.
Qed.

Lemma setup_evidence_all log c k :
  setup_commands x c !! k = None → setup_evidence log c k →
  setup_evidence log c (length (setup_commands x c)).
Proof. intros Hk%lookup_ge_None H j Hj. apply H. lia. Qed.

(** Where a dependency's gate goes on to the command [index]. *)
Lemma enter_dependency_setup_Inv name index s :
  Inv x s → In (StartAnswered name (Ok tt)) ∈ s_log s → runs_to_completion x name = false →
  deps_evidence x (s_log s) name →
  (no_external x name → In (HealthAnswered name (Ok tt)) ∈ s_log s) →
  setup_evidence (s_log s) name index →
  Inv x (enter_dependency_setup x name index s).
Proof.
  intros Hi Hs Hr Hd Hh Hc. unfold enter_dependency_setup.
  destruct (setup_enter x name index s) as [s' n] eqn:E.
  apply setup_enter_Inv in E as (Hi' & Hl & Er & _ & Hn); [|done].
  destruct n as [|k|e]; [| |by apply Inv_finish].
  - apply Inv_watching, Inv_ready_cell; [done| |done]. split; [by apply Hl|]. rewrite Hr.
    split; [intros ?; by apply Hl, Hh|].
    eapply setup_evidence_mono; [done|]. by eapply setup_evidence_all.
  - destruct Hn as [-> Hn]. apply Inv_ready_cell; [done| |done].
    split_and!; [by apply Hl|done|by eapply deps_evidence_mono|].
    split_and!; [intros ?; by apply Hl, Hh|by eapply setup_evidence_mono|done].
Qed.

Lemma enter_main_setup_Inv index s :
  Inv x s → In RunStarted ∈ s_log s → deps_evidence x (s_log s) (x_root x) →
  In (HealthAnswered (x_root x) (Ok tt)) ∈ s_log s → setup_evidence (s_log s) (x_root x) index →
  Inv x (enter_main_setup x index s).
Proof.
  intros Hi Hs Hd Hh Hc. unfold enter_main_setup.
  destruct (setup_enter x (x_root x) index s) as [s' n] eqn:E.
  apply setup_enter_Inv in E as (Hi' & Hl & _ & _ & Hn); [|done].
  pose proof (deps_evidence_mono _ _ _ _ Hl Hd). pose proof (Hl _ Hs).
  destruct n as [|k|e]; [apply Inv_main; [done|by split_and!|done]| |
    apply Inv_main; [done|by split_and!|done]].
  destruct Hn as [-> Hn]. apply Inv_main; [done| |done].
  split_and!; try done. split_and!; [intros _; by apply Hl|by eapply setup_evidence_mono|done].
Qed.

(** *** Dependencies *)

Lemma ready_called_Inv name s s' :
  Inv x s → ready_called x name s = Some s' → Inv x s'.
Proof.
  intros Hi H. unfold ready_called in H. destruct (_ && _) eqn:G; [|done].
  injection H as <-. apply andb_prop in G as [_ G]. bool_to_prop.
  apply Inv_ready_cell; [done|done|]. by rewrite G.
Qed.

Lemma start_requested_Inv name s s' :
  Inv x s → start_requested x name s = Some s' → Inv x s'.
Proof.
  intros Hi H. unfold start_requested in H.
  destruct (s_ready s !! name) as [[| | | | |]|] eqn:E; try done.
  destruct (_ && _) eqn:G; [|done]. injection H as <-. bool_to_prop.
  assert (Out (StartContainer name) ∉ s_log s) as Hfresh.
  { intros Hc%(inv_start_sent _ _ Hi). by rewrite E in Hc. }
  set (s1 := post_narrated x name (DependencyStarting name) (take_permit s)).
  assert (Inv x s1) as Hi1 by (unfold s1; auto with ratect).
  assert (s_ready s1 = s_ready s) as Er by (unfold s1, post_narrated; by destruct (narrated _ _)).
  assert (s_log s ⊆ s_log s1 ∧ Out (StartContainer name) ∉ s_log s1) as [Hl Hf1].
  { unfold s1, post_narrated. destruct (narrated _ _); simpl; set_solver. }
  assert (deps_evidence x (s_log s1) name) as Hd.
  { eapply deps_evidence_mono; [exact Hl|]. by apply all_ready_evidence. }
  apply Inv_log.
  - apply Inv_ready_cell; [done|done|by rewrite Er, E].
  - intros a [= <-]. split_and!; try done; [|intros c [= ->]; simpl; by rewrite lookup_insert_eq].
    split_and!; [done| |done]. eapply created_evidence_mono; [exact Hl|].
    by apply (is_created_evidence x).
Qed.

Lemma start_answered_Inv name answer s s' :
  In (StartAnswered name answer) ∈ s_log s →
  Inv x s → start_answered x name answer s = Some s' → Inv x s'.
Proof.
  intros He Hi H. unfold start_answered in H.
  destruct (s_ready s !! name) as [[| | | | |]|] eqn:E; try done.
  destruct (x_containers x !! name) as [c|] eqn:Ec; [|done]. injection H as <-.
  destruct answer as [[]|e]; [|unfold dependency_failed; auto with ratect].
  pose proof (inv_ready _ _ Hi name _ E) as Hd. simpl in Hd.
  set (s1 := post_narrated x name (DependencyStarted name) _).
  assert (Inv x s1) as Hi1 by (unfold s1; auto with ratect).
  assert (s_log s ⊆ s_log s1) as Hl.
  { unfold s1, post_narrated. destruct (narrated _ _); simpl; set_solver. }
  assert (runs_to_completion x name = default false (c_run_to_completion c)) as Er.
  { unfold runs_to_completion. by rewrite Ec. }
  destruct (default false (c_run_to_completion c)).
  { apply Inv_ready_cell; [done| |done]. split; [by apply Hl|done]. }
  case_bool_decide as Hx.
  - apply Inv_ready_cell; [done| |done]. split_and!; [by apply Hl|done| |done].
    by eapply deps_evidence_mono.
  - apply enter_dependency_setup_Inv; [done|by apply Hl|done|by eapply deps_evidence_mono|..].
    + unfold no_external. rewrite Ec. simpl. done.
    + intros j Hj. lia.
Qed.

Lemma exit_answered_Inv name answer s s' :
  In (ExitAnswered name answer) ∈ s_log s →
  Inv x s → exit_answered x name answer s = Some s' → Inv x s'.
Proof.
  intros He Hi H. unfold exit_answered in H.
  destruct (s_ready s !! name) as [[| | | | |]|] eqn:E; try done. injection H as <-.
  destruct answer as [code|e]; [|unfold dependency_failed; auto with ratect].
  destruct (inv_ready _ _ Hi name _ E) as [Hs Hr].
  assert (code = 0%Z → Inv x (ready_cell name RReady s)) as Hready.
  { intros ->. apply Inv_ready_cell; [done| |done]. split; [done|]. by rewrite Hr. }
  destruct (reports_readiness_for x name) as [checked|];
    destruct (code =? 0)%Z eqn:E0; bool_to_prop.
  - by apply Inv_post, Hready.
  - by apply Inv_ready_cell.
  - by apply Inv_post, Hready.
  - unfold dependency_failed. auto with ratect.
Qed.

Lemma output_answered_Inv name answer s s' :
  Inv x s → output_answered x name answer s = Some s' → Inv x s'.
Proof.
  intros Hi H. unfold output_answered in H.
  destruct (s_ready s !! name) as [[| | | | |]|] eqn:E; try done. injection H as <-.
  unfold dependency_failed. auto with ratect.
Qed.

Lemma watch_answered_Inv name answer s s' :
  Inv x s → watch_answered name answer s = Some s' → Inv x s'.
Proof.
  intros Hi H. unfold watch_answered in H. destruct (decide _); [|done]. injection H as <-.
  destruct answer; auto with ratect.
Qed.

(** *** The gates *)

(** What a gate under way has seen, whichever container's it is. *)
Definition gate_seen (log : list entry) (name : string) (g : gate_phase) : Prop :=
  (In (StartAnswered name (Ok tt)) ∈ log ∨ In RunStarted ∈ log) ∧
  deps_evidence x log name ∧
  gate_evidence x log name (no_external x name ∨ name = x_root x) g ∧
  (name ≠ x_root x → In (StartAnswered name (Ok tt)) ∈ log ∧ runs_to_completion x name = false) ∧
  (name = x_root x → In RunStarted ∈ log).

Lemma gate_of_seen name g s : Inv x s → gate_of x name s = Some g → gate_seen (s_log s) name g.
Proof.
  intros Hi. unfold gate_of. destruct (decide (name = x_root x)) as [->|Hn].
  - destruct (s_main s) as [|[] []] eqn:E; try done. intros [= ->].
    pose proof (inv_main _ _ Hi) as Hm. rewrite E in Hm. destruct Hm as (H1 & H2 & _ & H3).
    split_and!; [by auto|done| |done|by auto].
    destruct g as [|k|k]; simpl in *; [done|..]; destruct H3 as (? & ? & ?); split_and!; auto.
  - destruct (s_ready s !! name) as [[]|] eqn:E; try done. intros [= ->].
    destruct (inv_ready _ _ Hi name _ E) as (H1 & H2 & H3 & H4).
    split_and!; [by auto|done| |done|done].
    destruct g as [|k|k]; simpl in *; [done|..]; destruct H4 as (? & ? & ?); split_and!; auto;
      (intros [?|?]; [auto|done]).
Qed.

Lemma gate_enter_Inv name g index s :
  Inv x s → gate_seen (s_log s) name g →
  (no_external x name ∨ name = x_root x → In (HealthAnswered name (Ok tt)) ∈ s_log s) →
  setup_evidence (s_log s) name index →
  Inv x (gate_enter x name index s).
Proof.
  intros Hi (_ & Hd & _ & Hs & Hm) Hh Hc. unfold gate_enter.
  destruct (decide (name = x_root x)) as [->|Hn].
  - apply enter_main_setup_Inv; auto.
  - destruct (Hs Hn). apply enter_dependency_setup_Inv; auto.
Qed.

Lemma gate_failed_Inv name g e s :
  Inv x s → gate_of x name s = Some g → Inv x (gate_failed x name e s).
Proof.
  intros Hi Hg. pose proof (gate_of_seen _ _ _ Hi Hg) as (_ & Hd & _ & _ & Hm).
  unfold gate_failed. destruct (decide (name = x_root x)) as [->|Hn].
  - apply Inv_main; [done|by split_and!; auto|done].
  - unfold dependency_failed. auto with ratect.
Qed.

Lemma set_gate_Inv name g g' s :
  Inv x s → gate_of x name s = Some g →
  gate_evidence x (s_log s) name (no_external x name ∨ name = x_root x) g' →
  Inv x (set_gate x name g' s).
Proof.
  intros Hi Hg Hev. pose proof (gate_of_seen _ _ _ Hi Hg) as (_ & Hd & _ & Hs & Hm).
  unfold set_gate. destruct (decide (name = x_root x)) as [->|Hn].
  - apply Inv_main; [done| |done]. split_and!; auto.
    destruct g' as [|k|k]; simpl in *; [done|..]; destruct Hev as (? & ? & ?); split_and!; auto.
  - destruct (Hs Hn). apply Inv_ready_cell; [done| |done]. split_and!; auto.
    destruct g' as [|k|k]; simpl in *; [done|..]; destruct Hev as (? & ? & ?); split_and!; auto.
Qed.

Lemma health_answered_Inv name answer s s' :
  In (HealthAnswered name answer) ∈ s_log s →
  Inv x s → health_answered x name answer s = Some s' → Inv x s'.
Proof.
  intros He Hi H. unfold health_answered in H.
  destruct (gate_of x name s) as [[]|] eqn:E; try done. injection H as <-.
  destruct answer as [[]|e]; [|by eapply gate_failed_Inv].
  eapply gate_enter_Inv.
  - auto with ratect.
  - by eapply (gate_of_seen name GHealth); [auto with ratect|].
  - intros _. simpl. by right.
  - intros j Hj. lia.
Qed.

Lemma exec_requested_Inv name s s' :
  Inv x s → exec_requested x name s = Some s' → Inv x s'.
Proof.
  intros Hi H. unfold exec_requested in H.
  destruct (gate_of x name s) as [[|k|]|] eqn:E; try done.
  destruct (setup_commands x name !! k) as [command|] eqn:Ec; [|done].
  destruct (has_permit x s); [|done]. injection H as <-.
  destruct (gate_of_seen _ _ _ Hi E) as (Hs & Hd & (Hh & Hc & Ht) & _).
  assert (s_log (set_gate x name (GExec k) (take_permit s)) = s_log s) as El.
  { unfold set_gate. by destruct (decide _). }
  apply Inv_log.
  - eapply set_gate_Inv; [auto with ratect|exact E|]. by split_and!.
  - rewrite El. intros a [= <-]. split_and!; try done. split_and!; [done|exact Hh|done|by eauto|].
    destruct (Ht _ Ec) as [Ht'|Ht']; [by left|]. right. split; [done|]. by apply Hd.
Qed.

Lemma exec_answered_Inv name index answer s s' :
  In (ExecAnswered name index answer) ∈ s_log s →
  Inv x s → exec_answered x name index answer s = Some s' → Inv x s'.
Proof.
  intros He Hi H. unfold exec_answered in H.
  destruct (gate_of x name s) as [[| |k]|] eqn:E; try done;
    destruct (setup_commands x name !! index) as [command|] eqn:Ec; try done.
  destruct (decide _) as [<-|]; [|done]. injection H as <-.
  destruct (setup_verdict name index command answer) as [[]|e] eqn:Ev.
  2: { eapply gate_failed_Inv; [auto with ratect|exact E]. }
  pose proof (gate_of_seen _ _ _ Hi E) as Hg.
  destruct Hg as (_ & _ & (Hh & Hc & _) & _).
  eapply gate_enter_Inv; [auto with ratect|exact (gate_of_seen name (GExec index) s Hi E)|exact Hh|].
  intros j Hj. simpl. destruct (decide (j = index)) as [->|]; [|apply Hc; lia].
  destruct answer as [[code output]|e]; simpl in Ev; [|done].
  destruct (code =? 0)%Z eqn:E0; [|done]. bool_to_prop. subst. eauto.
Qed.

(** *** The task's own container *)

Lemma run_requested_Inv s s' : Inv x s → run_requested x s = Some s' → Inv x s'.
Proof.
  intros Hi H. unfold run_requested in H. destruct (_ && _) eqn:G; [|done]. injection H as <-.
  bool_to_prop. destruct (s_main s) as [|] eqn:Em; [|done].
  assert (deps_evidence x (s_log s) (x_root x)) as Hd by by apply all_ready_evidence.
  assert (∀ c, Out (RunContainer c) ∉ s_log s) as Hfresh.
  { intros c Hc%(inv_run_sent _ _ Hi). by rewrite Em in Hc. }
  apply Inv_log.
  - apply Inv_post. apply Inv_main; [done| |by rewrite Em].
    split_and!; [done|done|by destruct (x_readiness_gate x)].
  - intros a [= <-]. split_and!; try done. split_and!; [done| | |].
    + simpl. pose proof (Hfresh (x_root x)). set_solver.
    + intros c Hc. eapply created_evidence_mono; [|eapply is_created_evidence; [exact Hi|]].
      * simpl. set_solver.
      * rewrite forallb_forall in H. apply H. apply list_elem_of_In. by apply elem_of_elements.
    + eapply deps_evidence_mono; [|exact Hd]. simpl. set_solver.
Qed.

Lemma run_started_Inv s s' :
  In RunStarted ∈ s_log s → Inv x s → run_started x s = Some s' → Inv x s'.
Proof.
  intros He Hi H. unfold run_started in H. destruct (s_main s) as [|[] gate] eqn:E; try done.
  injection H as <-. pose proof (inv_main _ _ Hi) as Hm. rewrite E in Hm.
  destruct Hm as (H1 & _ & H2). apply Inv_started, Inv_main; [done| |done].
  split_and!; [done|done|]. destruct gate; try done. by destruct H2.
Qed.

Lemma run_answered_Inv answer s s' : Inv x s → run_answered x answer s = Some s' → Inv x s'.
Proof.
  intros Hi H. unfold run_answered in H. repeat case_match; simplify_eq; auto with ratect.
Qed.

Lemma inspect_answered_Inv answer s s' : Inv x s → inspect_answered answer s = Some s' → Inv x s'.
Proof.
  intros Hi H. unfold inspect_answered in H.
  destruct (s_main s) as [|started gate] eqn:E; [done|].
  destruct gate; try done. injection H as <-. pose proof (inv_main _ _ Hi) as Hm. rewrite E in Hm.
  destruct Hm as (H1 & H2 & _). apply Inv_main; [done| |done].
  split_and!; [done|done|]. by destruct answer as [[]|].
Qed.

(** *** Every step *)

Lemma handle_Inv e s s' : In e ∈ s_log s → Inv x s → handle x e s = Some s' → Inv x s'.
Proof.
  intros He Hi H. destruct e; simpl in H;
    eauto using create_answered_Inv, identity_applied_Inv;
    try (injection H as <-; auto with ratect);
    (destruct (decide _); [|done]).
  - by eapply network_answered_Inv.
  - by eapply image_resolved_Inv.
  - by eapply prepare_failed_Inv.
  - by eapply create_requested_Inv.
  - by eapply ready_called_Inv.
  - by eapply start_requested_Inv.
  - by eapply start_answered_Inv.
  - by eapply exit_answered_Inv.
  - by eapply output_answered_Inv.
  - by eapply health_answered_Inv.
  - by eapply exec_requested_Inv.
  - by eapply exec_answered_Inv.
  - by eapply watch_answered_Inv.
  - by eapply run_requested_Inv.
  - by eapply run_started_Inv.
  - by eapply run_answered_Inv.
  - by eapply inspect_answered_Inv.
  - unfold grace_expired in H. repeat case_match; simplify_eq. auto with ratect.
  - unfold interrupt_seen in H. repeat case_match; simplify_eq. auto with ratect.
Qed.

Lemma step_Inv s e s' : Inv x s → step x s e = Some s' → Inv x s'.
Proof.
  intros Hi. apply handle_Inv; [by left|]. by apply Inv_log.
Qed.

Lemma run_events_ind (P : state → Prop) s events s' :
  (∀ s e s', P s → step x s e = Some s' → P s') →
  P s → run_events x s events = Some s' → P s'.
Proof.
  intros Hstep. revert s. induction events as [|e events IH]; intros s Hs H; simpl in H.
  - by simplify_eq.
  - destruct (step x s e) as [s1|] eqn:E; [|done]. eauto.
Qed.

Lemma begin_Inv interrupts : Inv x (begin x interrupts).
Proof.
  unfold begin. apply Inv_log.
  - constructor; simpl; try done; set_solver.
  - intros a [= <-]. destruct (x_existing_network x); by split_and!.
Qed.

Lemma run_Inv interrupts events s :
  run_events x (begin x interrupts) events = Some s → Inv x s.
Proof. apply (run_events_ind (Inv x)); [apply step_Inv|apply begin_Inv]. Qed.
End handlers.


Lemma example_run_events events :
  run_events example_context (begin example_context interrupts_new) events ≠ None →
  run_events example_context (begin example_context interrupts_new) events =
    Some (example_state events).
Proof. unfold example_state. by destruct (run_events _ _ events). Qed.

