(* ===== verification/StartupRegistry.v ===== *)
(** * StartupRegistry: nothing the daemon made is forgotten

    Over every interleaving of [Startup]'s events: the registry cleanup reads
    holds exactly the containers the daemon answered with, the creates it
    never answered are exactly those the warning names, and what counts as
    started is what the daemon said it started. *)

From S2P Require Import Prelude Text Collections Values Config DependencyGraph Outcome Startup.
From S2P Require Import StartupOrder.
From stdpp Require Import options.

(** ** What the log says of creates and starts *)

Definition creates (log : list entry) : list string :=
  omap (λ en, match en with Out (CreateContainer c) => Some c | _ => None end) log.

Definition answers (log : list entry) : list (string * option string) :=
  omap (λ en,
    match en with
    | In (CreateAnswered c (Ok id)) => Some (c, Some id)
    | In (CreateAnswered c (Err (id, _))) => Some (c, id)
    | _ => None
    end) log.

Definition starts (x : TaskRunContext) (log : list entry) : list string :=
  omap (λ en,
    match en with
    | In (StartAnswered c (Ok _)) => Some c
    | In RunStarted => Some (x_root x)
    | _ => None
    end) log.

(** The part of the state the registry is about. *)
Record registry := mk_registry {
  v_created : gmap string create_phase;
  v_ids : gmap string string;
  v_pending : list string;
  v_started : gset string;
  v_creates : list string;
  v_answers : list (string * option string);
  v_starts : list string;
}.

Section registry.
Context (x : TaskRunContext).

Definition view (s : state) : registry :=
  mk_registry (s_created s) (s_created_containers s) (s_pending_creates s) (s_started s)
   (creates (s_log s)) (answers (s_log s)) (starts x (s_log s)).

Definition concerns_registry (e : event) : bool :=
  match e with
  | NetworkAnswered _ | ImageResolved _ | PrepareFailed _ _ | CreateRequested _
  | CreateAnswered _ _ | IdentityApplied _ _ | StartAnswered _ _ | RunStarted => true
  | _ => false
  end.

Lemma view_post e s : view (emit (Post e) s) = view s.
Proof. done. Qed.
Lemma view_post_narrated c e s : view (post_narrated x c e s) = view s.
Proof. unfold post_narrated. by destruct (narrated x c). Qed.
Lemma view_finish r s : view (finish r s) = view s.
Proof. unfold finish. by destruct (s_outcome s). Qed.
Lemma view_setup_enter c k s : view (setup_enter x c k s).1 = view s.
Proof.
  unfold setup_enter. destruct (_ !! _); case_bool_decide; done.
Qed.
Lemma view_enter_dependency_setup c k s : view (enter_dependency_setup x c k s) = view s.
Proof.
  unfold enter_dependency_setup. rewrite <-(view_setup_enter c k s).
  destruct (setup_enter x c k s) as [s' []]; simpl; [done..|]. apply view_finish.
Qed.
Lemma view_enter_main_setup k s : view (enter_main_setup x k s) = view s.
Proof.
  unfold enter_main_setup. rewrite <-(view_setup_enter (x_root x) k s).
  by destruct (setup_enter x (x_root x) k s) as [s' []].
Qed.
Lemma view_gate_enter c k s : view (gate_enter x c k s) = view s.
Proof.
  unfold gate_enter. destruct (decide _); [apply view_enter_main_setup|].
  apply view_enter_dependency_setup.
Qed.
Lemma view_gate_failed c e s : view (gate_failed x c e s) = view s.
Proof. unfold gate_failed. destruct (decide _); [done|]. apply view_finish. Qed.
Lemma view_set_gate c g s : view (set_gate x c g s) = view s.
Proof. unfold set_gate. by destruct (decide _). Qed.

#[local] Hint Rewrite view_post view_post_narrated view_finish view_enter_dependency_setup
  view_gate_enter view_gate_failed view_set_gate : view.

(** The other events leave it alone. *)
Lemma view_frame e s s' :
  concerns_registry e = false → step x s e = Some s' → view s' = view s.
Proof.
  intros Hc H. unfold step in H.
  assert (view (log_event e s) = view s) as <-.
  { unfold log_event, view. simpl. destruct e; done. }
  revert H. generalize (log_event e s) as s0. intros s0 H.
  destruct e; try done; simpl in H;
    try (injection H as <-; reflexivity);
    (destruct (decide (s_outcome s0 = None)); [|done]).
  - unfold ready_called in H. repeat case_match; by simplify_eq.
  - unfold start_requested in H. repeat case_match; simplify_eq.
    etrans; [|exact (view_post_narrated container (DependencyStarting container) (take_permit s0))]. done.
  - unfold exit_answered, dependency_failed in H.
    repeat case_match; simplify_eq; autorewrite with view; done.
  - unfold output_answered, dependency_failed in H.
    repeat case_match; simplify_eq; autorewrite with view; done.
  - unfold health_answered in H. repeat case_match; simplify_eq; autorewrite with view; done.
  - unfold exec_requested in H. repeat case_match; simplify_eq; autorewrite with view.
    etrans; [|eapply (view_set_gate _ _ (take_permit s0))]. done.
  - unfold exec_answered in H. repeat case_match; simplify_eq; autorewrite with view; done.
  - unfold watch_answered in H. repeat case_match; simplify_eq; done.
  - unfold run_requested in H. repeat case_match; simplify_eq; done.
  - unfold run_answered in H. repeat case_match; simplify_eq; autorewrite with view; done.
  - unfold inspect_answered in H. repeat case_match; simplify_eq; done.
  - unfold grace_expired in H. repeat case_match; simplify_eq; autorewrite with view; done.
  - unfold interrupt_seen in H. repeat case_match; simplify_eq; autorewrite with view; done.
Qed.

(** ** The invariant *)

(** What a cell's phase says of its create. *)
Definition phase_ok (c : string) (phase : option create_phase) (v : registry) : Prop :=
  match phase with
  | None | Some CImage | Some CTarget => c ∉ v_creates v ∧ c ∉ (v_answers v).*1
  | Some CRequested => c ∈ v_creates v ∧ c ∉ (v_answers v).*1
  | Some (CApplying id) | Some (CCreated id) => c ∈ v_creates v ∧ (c, Some id) ∈ v_answers v
  | Some CFailed => c ∈ v_creates v ↔ c ∈ (v_answers v).*1
  end.

Record Reg (v : registry) : Prop := {
  reg_ids : ∀ c id, v_ids v !! c = Some id ↔ (c, Some id) ∈ v_answers v;
  reg_phase : ∀ c, phase_ok c (v_created v !! c) v;
  reg_pending : ∀ c, c ∈ v_pending v ↔ c ∈ v_creates v;
  reg_started : ∀ c, c ∈ v_started v ↔ c ∈ v_starts v;
}.

(** A phase changed without a request or an answer. *)
Lemma Reg_phase_change v c phase :
  Reg v → phase_ok c (Some phase) v →
  Reg (mk_registry (<[c := phase]> (v_created v)) (v_ids v) (v_pending v) (v_started v)
    (v_creates v) (v_answers v) (v_starts v)).
Proof.
  intros [] Hp. constructor; simpl; auto. intros c'.
  destruct (decide (c = c')) as [->|]; simplify_map_eq; [exact Hp|].
  apply (reg_phase0 c').
Qed.

(** An answer taken. *)
Lemma Reg_answer v c oid phase :
  Reg v → v_created v !! c = Some CRequested →
  (phase = CFailed ∨ ∃ id, oid = Some id ∧ phase = CApplying id) →
  Reg (mk_registry (<[c := phase]> (v_created v))
    (match oid with Some id => <[c := id]> (v_ids v) | None => v_ids v end)
    (v_pending v) (v_started v) (v_creates v) ((c, oid) :: v_answers v) (v_starts v)).
Proof.
  intros [Hids Hph Hpe Hst] E Hphase.
  pose proof (Hph c) as Hc. rewrite E in Hc. destruct Hc as [Hc Ha].
  constructor; simpl; auto.
  - intros c' id'. rewrite elem_of_cons. destruct oid as [id|].
    + destruct (decide (c = c')) as [->|Hn]; simplify_map_eq.
      * split; [intros [= ->]; by left|]. intros [[= ->]|H]; [done|]. destruct Ha.
        apply list_elem_of_fmap. by exists (c', Some id').
      * rewrite Hids. split; [by right|]. intros [[= -> ->]|]; done.
    + rewrite Hids. split; [by right|]. intros [[=]|]; done.
  - intros c'. destruct (decide (c = c')) as [->|Hn]; simplify_map_eq.
    + destruct Hphase as [->|(id & -> & ->)]; simpl.
      * split; [left|done].
      * split; [done|left].
    + specialize (Hph c'). unfold phase_ok in *; simpl.
      destruct (v_created v !! c') as [[]|]; try rewrite not_elem_of_cons;
        try rewrite elem_of_cons; intuition congruence.
Qed.

Lemma view_network_ready n s : view (network_ready x n s) =
  mk_registry (gset_to_gmap CImage (dom (x_graph x))) (s_created_containers s)
    (s_pending_creates s) (s_started s) (creates (s_log s)) (answers (s_log s))
    (starts x (s_log s)).
Proof. done. Qed.

Lemma Reg_step s e s' : Inv x s → Reg (view s) → step x s e = Some s' → Reg (view s').
Proof.
  intros Hi Hr H. destruct (concerns_registry e) eqn:Ec.
  2: { by rewrite (view_frame _ _ _ Ec H). }
  pose proof (λ c, reg_phase _ Hr c) as Hp. simpl in Hp.
  unfold step in H. destruct e; try done; simpl in H;
    try (destruct (decide (s_outcome s = None)); [|done]).
  - unfold network_answered in H. simpl in H. destruct (decide _) as [Hn|]; [|done].
    assert (∀ n, Reg (view (network_ready x n (log_event (NetworkAnswered answer) s)))) as Hready.
    { intros n. destruct Hr as [H1 H2 H3 H4]. constructor; simpl; auto.
      intros c. specialize (Hp c). rewrite (inv_network _ _ Hi Hn), lookup_empty in Hp.
      destruct (gset_to_gmap _ _ !! c) as [ph|] eqn:E; [|done].
      by apply lookup_gset_to_gmap_Some in E as [_ <-]. }
    repeat case_match; simplify_eq; try done; rewrite view_finish; exact Hr.
  - unfold image_resolved in H. simpl in H. specialize (Hp container).
    repeat case_match; simplify_eq. by apply (Reg_phase_change (view s)).
  - unfold prepare_failed in H. simpl in H. specialize (Hp container).
    repeat case_match; simplify_eq; rewrite view_finish;
      (apply (Reg_phase_change (view s)); [done|]); destruct Hp; done.
  - unfold create_requested in H. simpl in H. specialize (Hp container).
    destruct (s_created s !! container) as [[]|] eqn:E; try done.
    destruct (_ && _); [|done]. injection H as <-.
    set (s1 := post_narrated x container (ContainerCreating container)
      (take_permit (log_event (CreateRequested container) s))).
    assert (view s1 = view s) as Ev by (unfold s1; by rewrite view_post_narrated).
    destruct Hr as [H1 H2 H3 H4]. destruct Hp as [Hp1 Hp2].
    pose proof (f_equal v_creates Ev) as Ev1. pose proof (f_equal v_answers Ev) as Ev2.
    pose proof (f_equal v_created Ev) as Ev3. pose proof (f_equal v_ids Ev) as Ev4.
    pose proof (f_equal v_pending Ev) as Ev5. pose proof (f_equal v_started Ev) as Ev6.
    pose proof (f_equal v_starts Ev) as Ev7. simpl in Ev1, Ev2, Ev3, Ev4, Ev5, Ev6, Ev7.
    constructor; unfold view; simpl.
    + rewrite Ev4, Ev2. exact H1.
    + rewrite Ev3, Ev1, Ev2. intros c. destruct (decide (container = c)) as [->|Hn]; simplify_map_eq.
      * split; [by left|done].
      * specialize (H2 c). unfold phase_ok in *; simpl in *.
        destruct (s_created s !! c) as [[]|]; rewrite ?not_elem_of_cons, ?elem_of_cons;
          intuition congruence.
    + rewrite Ev5, Ev1. intros c. rewrite elem_of_app, list_elem_of_singleton, elem_of_cons.
      rewrite (H3 c). tauto.
    + rewrite Ev6, Ev7. exact H4.
  - unfold create_answered in H. simpl in H. specialize (Hp container).
    destruct (s_created s !! container) as [[]|] eqn:E; try done. injection H as <-.
    destruct answer as [id|[[id|] e']].
    + apply (Reg_answer (view s) container (Some id) (CApplying id)); [done|exact E|]. right. eauto.
    + unfold create_failed. rewrite view_finish.
      apply (Reg_answer (view s) container (Some id) CFailed); [done|exact E|]. by left.
    + unfold create_failed. rewrite view_finish.
      apply (Reg_answer (view s) container None CFailed); [done|exact E|]. by left.
  - unfold identity_applied in H. simpl in H. specialize (Hp container).
    destruct (s_created s !! container) as [[| | |id| |]|] eqn:E; try done. injection H as <-.
    destruct answer as [[]|e'].
    + set (s1 := post_narrated x container (ContainerCreated container) _).
      assert (view s1 = view s) as Ev by (unfold s1; by rewrite view_post_narrated).
      change (Reg (mk_registry (<[container := CCreated id]> (v_created (view s1)))
        (v_ids (view s1)) (v_pending (view s1)) (v_started (view s1)) (v_creates (view s1))
        (v_answers (view s1)) (v_starts (view s1)))).
      rewrite Ev. by apply Reg_phase_change.
    + unfold create_failed. rewrite view_finish.
      apply (Reg_phase_change (view s)); [done|]. destruct Hp as [Hp1 Hp2].
      split; [|done]. intros _. apply list_elem_of_fmap. by exists (container, Some id).
  - unfold start_answered in H. simpl in H.
    destruct (s_ready s !! container) as [[]|] eqn:E; try done.
    destruct (x_containers x !! container) as [c|]; [|done]. injection H as <-.
    destruct answer as [[]|e']; [|unfold dependency_failed; rewrite view_finish; exact Hr].
    set (s1 := post_narrated x container (DependencyStarted container) _).
    assert (Reg (view s1)) as Hr1.
    { unfold s1. rewrite view_post_narrated. destruct Hr as [H1 H2 H3 H4].
      constructor; simpl; auto. intros c'. rewrite elem_of_union, elem_of_singleton, elem_of_cons.
      rewrite (H4 c'). tauto. }
    destruct (default _ _); [exact Hr1|]. case_bool_decide; [exact Hr1|].
    by rewrite view_enter_dependency_setup.
  - unfold run_started in H. simpl in H. destruct (s_main s) as [|[] gate]; try done.
    injection H as <-. destruct Hr as [H1 H2 H3 H4]. constructor; simpl; auto.
    intros c'. rewrite elem_of_union, elem_of_singleton, elem_of_cons. rewrite (H4 c'). tauto.
Qed.

Lemma Reg_run interrupts events s :
  run_events x (begin x interrupts) events = Some s → Reg (view s).
Proof.
  intros H. apply (run_events_ind x (λ s, Inv x s ∧ Reg (view s)) _ _ _) in H; [apply H|..].
  - intros s1 e s2 [Hi Hr] Hs. split; [by eapply step_Inv|by eapply Reg_step].
  - split; [apply begin_Inv|]. unfold begin.
    constructor; simpl; destruct (x_existing_network x); simpl; intros c; rewrite ?lookup_empty;
      simpl; set_solver.
Qed.
End registry.

Lemma elem_of_answers log c oid :
  (c, oid) ∈ answers log ↔ ∃ a, In (CreateAnswered c a) ∈ log ∧
    oid = match a with Ok id => Some id | Err (id, _) => id end.
Proof.
  unfold answers. rewrite list_elem_of_omap. split.
  - intros ([[]|] & Hin & E); try done. destruct answer as [id|[id e]]; simplify_eq; eauto.
  - intros (a & Hin & ->). eexists. split; [exact Hin|]. by destruct a as [|[]].
Qed.

Lemma elem_of_creates log c : c ∈ creates log ↔ Out (CreateContainer c) ∈ log.
Proof.
  unfold creates. rewrite list_elem_of_omap. split; [|eauto].
  by intros ([|[]] & Hin & [= ->]).
Qed.

Lemma elem_of_starts x log c :
  c ∈ starts x log ↔
    In (StartAnswered c (Ok tt)) ∈ log ∨ c = x_root x ∧ In RunStarted ∈ log.
Proof.
  unfold starts. rewrite list_elem_of_omap. split.
  - intros ([[]|] & Hin & E); try done.
    + destruct answer as [[]|]; simplify_eq. by left.
    + simplify_eq. by right.
  - intros [H|[-> H]]; eauto.
Qed.

Lemma elem_of_unanswered s c :
  c ∈ unanswered s ↔
    c ∈ s_pending_creates s ∧ create_unfinished s c = true ∧ s_created_containers s !! c = None.
Proof. unfold unanswered. rewrite elem_of_sort_dedup, list_elem_of_filter. tauto. Qed.

(** C3: What cleanup reads of a run is what the daemon did.  Whatever the order
    of events, and however the run ended, the registry holds a container
    exactly when the daemon answered its create with an id, in success and
    inside a failure alike, and under that id; the creates the warning names
    are exactly those sent and never answered, so that no container the
    daemon made is in neither; and a container counts as started exactly when
    the daemon answered its start, or began the task's own command. *)
Theorem created_containers_spec x interrupts events s :
  run_events x (begin x interrupts) events = Some s →
  (∀ c id, s_created_containers s !! c = Some id ↔
    In (CreateAnswered c (Ok id)) ∈ s_log s ∨
    ∃ e, In (CreateAnswered c (Err (Some id, e))) ∈ s_log s) ∧
  (∀ c, c ∈ unanswered s ↔
    Out (CreateContainer c) ∈ s_log s ∧ ∀ answer, In (CreateAnswered c answer) ∉ s_log s) ∧
  (∀ c, c ∈ s_started s ↔
    In (StartAnswered c (Ok tt)) ∈ s_log s ∨ c = x_root x ∧ In RunStarted ∈ s_log s).
Proof.
  intros [Hids Hph Hpe Hst]%Reg_run. simpl in *. split; [|split].
  - intros c id. rewrite Hids, elem_of_answers. split.
    + intros (a & Hin & E). destruct a as [|[id' e]]; simplify_eq; eauto.
    + intros [H|[e H]]; eexists; (split; [exact H|done]).
  - intros c. rewrite elem_of_unanswered, Hpe, elem_of_creates.
    specialize (Hph c). unfold create_unfinished.
    assert (∀ a, In (CreateAnswered c a) ∈ s_log s → c ∈ (answers (s_log s)).*1) as Hans.
    { intros a Ha. apply list_elem_of_fmap. eexists (c, _). split; [done|].
      apply elem_of_answers. eauto. }
    split.
    + intros (Hc & Hu & Hn). split; [done|]. intros a Ha%Hans.
      destruct (s_created s !! c) as [[]|]; try done; [by destruct Hph|].
      destruct Hph as [_ Hid%Hids]. simpl in Hid. by rewrite Hn in Hid.
    + intros [Hc Hno]. split; [done|].
      assert (c ∉ (answers (s_log s)).*1) as Hno'.
      { intros ([c' oid] & -> & (a & Ha & _)%elem_of_answers)%list_elem_of_fmap. by destruct (Hno a). }
      assert (∀ id, s_created_containers s !! c = Some id → False) as Hnone.
      { intros id Hid%Hids. destruct Hno'. apply list_elem_of_fmap. by exists (c, Some id). }
      split; [|destruct (s_created_containers s !! c); naive_solver].
      rewrite <-elem_of_creates in Hc.
      destruct (s_created s !! c) as [[]|]; simpl in Hph; try naive_solver.
  - intros c. by rewrite Hst, elem_of_starts.
Qed.

(** In the middle of the run, the database is registered and started, and the
    application's create unanswered. *)
Lemma created_containers_spec_witness :
  unanswered (example_state example_started) = ["app"] ∧
  (∀ c id, s_created_containers (example_state example_started) !! c = Some id ↔
    In (CreateAnswered c (Ok id)) ∈ s_log (example_state example_started) ∨
    ∃ e, In (CreateAnswered c (Err (Some id, e))) ∈ s_log (example_state example_started)).
Proof.
  split; [vm_compute; reflexivity|].
  refine (proj1 (created_containers_spec example_context interrupts_new example_started _ _)).
  apply example_run_events. vm_compute. discriminate.
Defined.
