(* ===== verification/StartupProgress.v ===== *)
(** * StartupProgress: a run ends, and nothing deadlocks

    Over [Startup]'s events: the daemon operations in flight are exactly the
    permits held, so that a cap bounds them; every step other than a signal
    lowers a measure, so that a run is finite; and a run in which nothing has
    failed can always go on until it has succeeded. *)

From S2P Require Import Prelude Text Collections Values Config DependencyGraph Outcome Startup.
From S2P Require Import StartupOrder.
From stdpp Require Import options.

(** ** Counting the cells in a state *)

Section counting.
Context {A : Type} (busy : A → bool).

Definition count_busy (m : gmap string A) : nat :=
  size (filter (λ kv, busy kv.2 = true) m).

Definition busy_at (o : option A) : nat := if default false (busy <$> o) then 1 else 0.

Lemma count_busy_insert k v m :
  count_busy (<[k := v]> m) + busy_at (m !! k) = count_busy m + busy_at (Some v).
Proof.
  unfold count_busy, busy_at. rewrite map_filter_insert. simpl.
  assert (size (filter (λ kv : string * A, busy kv.2 = true) (delete k m)) +
    (if default false (busy <$> m !! k) then 1 else 0) =
    size (filter (λ kv : string * A, busy kv.2 = true) m)) as Hdel.
  { rewrite map_filter_delete, map_size_delete.
    destruct (m !! k) as [v'|] eqn:E; simpl.
    - destruct (busy v') eqn:Eb.
      + rewrite (proj2 (map_lookup_filter_Some _ _ _ _)) by (split; [exact E|exact Eb]).
        assert (size (filter (λ kv : string * A, busy kv.2 = true) m) ≠ 0); [|simpl; lia].
        intros H0%map_size_empty_inv.
        assert (filter (λ kv : string * A, busy kv.2 = true) m !! k = Some v') as Hc
          by (by apply map_lookup_filter_Some). by rewrite H0, lookup_empty in Hc.
      + rewrite (proj2 (map_lookup_filter_None _ _ _)); [simpl; lia|]. right. intros v0 E0.
        simplify_eq. simpl. congruence.
    - rewrite (proj2 (map_lookup_filter_None _ _ _)); [simpl; lia|]. by left. }
  destruct (decide (busy v = true)) as [Eb|Eb].
  - rewrite Eb. rewrite <-(insert_delete_eq (filter _ m)), map_size_insert_None
      by apply lookup_delete_eq. rewrite <-map_filter_delete. lia.
  - apply not_true_is_false in Eb. rewrite Eb. lia.
Qed.

Lemma count_busy_zero m : count_busy m = 0 ↔ ∀ k v, m !! k = Some v → busy v = false.
Proof.
  unfold count_busy. split.
  - intros H%map_size_empty_inv k v E. destruct (busy v) eqn:Eb; [|done].
    assert (filter (λ kv : string * A, busy kv.2 = true) m !! k = Some v) as Hc
      by (by apply map_lookup_filter_Some). by rewrite H, lookup_empty in Hc.
  - intros H. apply map_size_empty_iff, map_empty. intros k. apply map_lookup_filter_None. right.
    intros v E. simpl. rewrite (H k v E). done.
Qed.
End counting.

(** ** Permits *)

(** The requests that hold a permit: a create until its files are written, a
    start, a setup command. *)
Definition create_busy (phase : create_phase) : bool :=
  match phase with CRequested | CApplying _ => true | _ => false end.
Definition ready_busy (phase : ready_phase) : bool :=
  match phase with RStarting | RGate (GExec _) => true | _ => false end.
Definition main_busy (m : main_phase) : nat :=
  match m with MRun _ (MAt (GExec _)) => 1 | _ => 0 end.

Definition in_flight (s : state) : nat :=
  count_busy create_busy (s_created s) + count_busy ready_busy (s_ready s) + main_busy (s_main s).

Lemma in_flight_create_cell c ph s :
  in_flight (create_cell c ph s) + busy_at create_busy (s_created s !! c) =
    in_flight s + busy_at create_busy (Some ph).
Proof. unfold in_flight. simpl. pose proof (count_busy_insert create_busy c ph (s_created s)). lia. Qed.

Lemma in_flight_ready_cell c ph s :
  in_flight (ready_cell c ph s) + busy_at ready_busy (s_ready s !! c) =
    in_flight s + busy_at ready_busy (Some ph).
Proof. unfold in_flight. simpl. pose proof (count_busy_insert ready_busy c ph (s_ready s)). lia. Qed.

Lemma in_flight_main m s :
  in_flight (with_main m s) + main_busy (s_main s) = in_flight s + main_busy m.
Proof. unfold in_flight. simpl. lia. Qed.

Section permits.
Context (x : TaskRunContext).

(** While the run goes on, every permit is held by a request in flight. *)
Definition Permits (s : state) : Prop :=
  (s_outcome s = None → s_permits s = in_flight s) ∧
  (∀ m, x_max_parallelism x = Some m → s_permits s ≤ m).

(** The update leaves permits and requests, or ends the run. *)
Definition same_permits (s s' : state) : Prop :=
  s_permits s' = s_permits s ∧ (s_outcome s' = None → s_outcome s = None ∧ in_flight s' = in_flight s).

Lemma Permits_same s s' : same_permits s s' → Permits s → Permits s'.
Proof.
  intros [H1 H2] [H3 H4]. split; [|by rewrite H1]. intros Ho.
  destruct (H2 Ho) as [Ho' ->]. rewrite H1. auto.
Qed.

Lemma same_permits_refl s : same_permits s s.
Proof. by split. Qed.
Lemma same_permits_trans s1 s2 s3 : same_permits s1 s2 → same_permits s2 s3 → same_permits s1 s3.
Proof.
  intros [H1 H2] [H3 H4]. split; [congruence|]. intros Ho. destruct (H4 Ho) as [Ho2 ->].
  by apply H2.
Qed.

Lemma same_permits_finish r s : same_permits s (finish r s).
Proof. unfold finish. destruct (s_outcome s) eqn:E; by split. Qed.
Lemma same_permits_post e s : same_permits s (emit (Post e) s).
Proof. by split. Qed.
Lemma same_permits_post_narrated c e s : same_permits s (post_narrated x c e s).
Proof. unfold post_narrated. destruct (narrated x c); by split. Qed.

Lemma same_permits_create_cell c ph s :
  busy_at create_busy (s_created s !! c) = busy_at create_busy (Some ph) →
  same_permits s (create_cell c ph s).
Proof.
  intros H. split; [done|]. intros Ho. split; [done|]. pose proof (in_flight_create_cell c ph s). lia.
Qed.
Lemma same_permits_ready_cell c ph s :
  busy_at ready_busy (s_ready s !! c) = busy_at ready_busy (Some ph) →
  same_permits s (ready_cell c ph s).
Proof.
  intros H. split; [done|]. intros Ho. split; [done|]. pose proof (in_flight_ready_cell c ph s). lia.
Qed.
Lemma same_permits_main m s :
  main_busy (s_main s) = main_busy m → same_permits s (with_main m s).
Proof.
  intros H. split; [done|]. intros Ho. split; [done|]. pose proof (in_flight_main m s). lia.
Qed.

(** A request sent under a permit, and one whose answer gives it back. *)
Lemma Permits_take s s' :
  Permits s → has_permit x s = true → s_permits s' = S (s_permits s) →
  s_outcome s' = s_outcome s → in_flight s' = S (in_flight s) → Permits s'.
Proof.
  intros [H1 H2] Hp E1 E2 E3. split; [intros Ho; rewrite E1, E3, H1 by congruence; done|].
  intros m Hm. unfold has_permit in Hp. rewrite Hm in Hp. bool_to_prop. lia.
Qed.

Lemma Permits_release s s' :
  Permits s → s_permits s' = pred (s_permits s) →
  (s_outcome s' = None → s_outcome s = None ∧ S (in_flight s') = in_flight s) → Permits s'.
Proof.
  intros [H1 H2] E1 E2. split.
  - intros Ho. destruct (E2 Ho) as [Ho' E]. rewrite E1, (H1 Ho'). lia.
  - intros m Hm. specialize (H2 m Hm). lia.
Qed.

(** *** The gates *)

Definition gate_busy (g : gate_phase) : nat := match g with GExec _ => 1 | _ => 0 end.

(** The update leaves the permits, and lowers the requests in flight by
    [n], or ends the run. *)
Definition settles (n : nat) (s s' : state) : Prop :=
  s_permits s' = s_permits s ∧
  (s_outcome s' = None → s_outcome s = None ∧ in_flight s' + n = in_flight s).

Lemma settles_ended n s s' : s_permits s' = s_permits s → s_outcome s' ≠ None → settles n s s'.
Proof. by split. Qed.

Lemma finish_ended r s : s_outcome (finish r s) ≠ None.
Proof. unfold finish. destruct (s_outcome s) eqn:E; simpl; congruence. Qed.

Lemma settles_ready_cell n c ph s :
  busy_at ready_busy (s_ready s !! c) = n → ready_busy ph = false →
  settles n s (ready_cell c ph s).
Proof.
  intros H Hp. split; [done|]. intros Ho. split; [done|].
  pose proof (in_flight_ready_cell c ph s) as E. unfold busy_at in E at 2. simpl in E.
  rewrite Hp in E. lia.
Qed.

Lemma settles_main n m s :
  main_busy (s_main s) = n → main_busy m = 0 → settles n s (with_main m s).
Proof.
  intros H Hm. split; [done|]. intros Ho. split; [done|]. pose proof (in_flight_main m s). lia.
Qed.

Lemma setup_enter_frame c k s :
  s_permits (setup_enter x c k s).1 = s_permits s ∧ s_outcome (setup_enter x c k s).1 = s_outcome s ∧
  s_ready (setup_enter x c k s).1 = s_ready s ∧ s_main (setup_enter x c k s).1 = s_main s ∧
  s_created (setup_enter x c k s).1 = s_created s ∧ s_network (setup_enter x c k s).1 = s_network s.
Proof. unfold setup_enter. destruct (_ !! _); case_bool_decide; done. Qed.

Lemma settles_enter_dependency n c k s :
  busy_at ready_busy (s_ready s !! c) = n → settles n s (enter_dependency_setup x c k s).
Proof.
  intros H. unfold enter_dependency_setup. pose proof (setup_enter_frame c k s) as Hf.
  destruct (setup_enter x c k s) as [s1 nx]. simpl in Hf. destruct Hf as (E1 & E2 & E3 & E4 & E5 & _).
  assert (in_flight s1 = in_flight s) as E by (unfold in_flight; by rewrite E3, E4, E5).
  assert (∀ ph, ready_busy ph = false → settles n s (ready_cell c ph s1)) as Hcell.
  { intros ph Hp. destruct (settles_ready_cell n c ph s1) as [H1 H2]; [by rewrite E3|done|].
    split; [congruence|]. by rewrite <-E, <-E2. }
  destruct nx as [|j|e]; [by apply Hcell|by apply Hcell|].
  unfold dependency_failed. apply settles_ended; [|apply finish_ended].
  destruct (same_permits_finish (Err (unshare (x_debug x) e)) s1) as [-> _]. done.
Qed.

Lemma settles_enter_main n k s :
  main_busy (s_main s) = n → settles n s (enter_main_setup x k s).
Proof.
  intros H. unfold enter_main_setup. pose proof (setup_enter_frame (x_root x) k s) as Hf.
  destruct (setup_enter x (x_root x) k s) as [s1 nx]. simpl in Hf.
  destruct Hf as (E1 & E2 & E3 & E4 & E5 & _).
  assert (in_flight s1 = in_flight s) as E by (unfold in_flight; by rewrite E3, E4, E5).
  assert (∀ m, main_busy m = 0 → settles n s (with_main m s1)) as Hm.
  { intros m Hm. destruct (settles_main n m s1) as [H1 H2]; [by rewrite E4|done|].
    split; [congruence|]. by rewrite <-E, <-E2. }
  destruct nx; by apply Hm.
Qed.

Lemma gate_of_busy c g s :
  gate_of x c s = Some g →
  (c = x_root x ∧ main_busy (s_main s) = gate_busy g) ∨
  (c ≠ x_root x ∧ busy_at ready_busy (s_ready s !! c) = gate_busy g).
Proof.
  unfold gate_of. destruct (decide (c = x_root x)) as [->|Hn].
  - destruct (s_main s) as [|[] []]; try done. intros [= ->]. left. split; [done|]. by destruct g.
  - destruct (s_ready s !! c) as [[]|]; try done. intros [= ->]. right. split; [done|].
    unfold busy_at. by destruct g.
Qed.

Lemma settles_gate_enter c g k s :
  gate_of x c s = Some g → settles (gate_busy g) s (gate_enter x c k s).
Proof.
  intros H. unfold gate_enter. destruct (gate_of_busy _ _ _ H) as [[-> Hb]|[Hn Hb]].
  - rewrite decide_True by done. by apply settles_enter_main.
  - rewrite decide_False by done. by apply settles_enter_dependency.
Qed.

Lemma settles_gate_failed c g e s :
  gate_of x c s = Some g → settles (gate_busy g) s (gate_failed x c e s).
Proof.
  intros H. unfold gate_failed. destruct (gate_of_busy _ _ _ H) as [[-> Hb]|[Hn Hb]].
  - rewrite decide_True by done. by apply settles_main.
  - rewrite decide_False by done. unfold dependency_failed.
    apply settles_ended; [apply same_permits_finish|apply finish_ended].
Qed.

Lemma in_flight_set_gate c g g' s :
  gate_of x c s = Some g →
  in_flight (set_gate x c g' s) + gate_busy g = in_flight s + gate_busy g' ∧
  s_permits (set_gate x c g' s) = s_permits s ∧ s_outcome (set_gate x c g' s) = s_outcome s.
Proof.
  intros H. unfold set_gate. destruct (gate_of_busy _ _ _ H) as [[-> Hb]|[Hn Hb]].
  - rewrite decide_True by done. split; [|done].
    pose proof (in_flight_main (MRun true (MAt g')) s) as E. rewrite Hb in E. rewrite E.
    by destruct g'.
  - rewrite decide_False by done. split; [|done].
    pose proof (in_flight_ready_cell c (RGate g') s) as E. rewrite Hb in E. rewrite E.
    unfold busy_at. by destruct g'.
Qed.

Lemma Permits_settles s s' : settles 0 s s' → Permits s → Permits s'.
Proof.
  intros [H1 H2] Hp. apply (Permits_same s); [|done]. split; [done|]. intros Ho.
  destruct (H2 Ho). split; [done|lia].
Qed.

(** The answer of a request releases its permit. *)
Lemma Permits_settles_release s s' :
  settles 1 (release_permit s) s' → Permits s → Permits s'.
Proof.
  intros [H1 H2] Hp. apply (Permits_release s); [done|done|]. intros Ho.
  destruct (H2 Ho) as [Ho' E]. split; [done|]. change (in_flight (release_permit s)) with (in_flight s) in E. lia.
Qed.
End permits.

#[export] Hint Resolve same_permits_refl same_permits_finish same_permits_post
  same_permits_post_narrated : ratect.

Section permits_step.
Context (x : TaskRunContext).

Lemma settles_refl s : settles 0 s s.
Proof. split; [done|]. intros Ho. split; [done|lia]. Qed.

Lemma settles_finish n r s : settles n s (finish r s).
Proof. apply settles_ended; [apply same_permits_finish|apply finish_ended]. Qed.

Lemma create_busy_at s c ph :
  s_created s !! c = Some ph → busy_at create_busy (s_created s !! c) = if create_busy ph then 1 else 0.
Proof. intros ->. by destruct ph. Qed.

(** A create's failure gives its permit back and ends the run. *)
Lemma Permits_create_failed c e s : Permits x s → Permits x (create_failed x c e s).
Proof.
  intros H. apply (Permits_settles_release x s); [|done]. unfold create_failed.
  apply settles_ended; [|apply finish_ended].
  by rewrite (proj1 (same_permits_finish _ (create_cell c CFailed (release_permit s)))).
Qed.

Lemma permits_created e s s' :
  match e with
  | NetworkAnswered _ | ImageResolved _ | PrepareFailed _ _ | CreateRequested _
  | CreateAnswered _ _ | IdentityApplied _ _ => True | _ => False end →
  Inv x s → Permits x s → handle x e s = Some s' → Permits x s'.
Proof.
  intros He Hi Hp H. destruct e; try done; simpl in H;
    try (destruct (decide (s_outcome s = None)) as [Ho|]; [|done]).
  - unfold network_answered in H. destruct (decide _) as [Hn|]; [|done].
    assert (∀ n, Permits x (network_ready x n s)) as Hready.
    { intros n. apply (Permits_same x s); [|done]. split; [done|]. intros _. split; [done|].
      unfold in_flight. simpl. rewrite (inv_network _ _ Hi Hn).
      replace (count_busy create_busy (gset_to_gmap CImage (dom (x_graph x)))) with 0; [done|].
      symmetry. apply count_busy_zero. by intros k v [_ <-]%lookup_gset_to_gmap_Some. }
    repeat case_match; simplify_eq; try done;
      (eapply Permits_settles; [apply settles_finish|done]).
  - unfold image_resolved in H. repeat case_match; simplify_eq.
    apply (Permits_same x s); [|done]. apply same_permits_create_cell.
    by erewrite create_busy_at by done.
  - unfold prepare_failed in H. repeat case_match; simplify_eq;
      (apply (Permits_settles x s); [|done]);
      (apply settles_ended; [|apply finish_ended]);
      by rewrite (proj1 (same_permits_finish _ _)).
  - unfold create_requested in H.
    destruct (s_created s !! container) as [ph|] eqn:E; [|done]. destruct ph; try done.
    destruct (_ && _) eqn:G; [|done]. injection H as <-. bool_to_prop.
    apply (Permits_take x s); [done..| | |].
    + simpl. unfold post_narrated. by destruct (narrated _ _).
    + simpl. unfold post_narrated. by destruct (narrated _ _).
    + set (s1 := post_narrated x container (ContainerCreating container) (take_permit s)).
      pose proof (in_flight_create_cell container CRequested s1) as Ef.
      assert (in_flight s1 = in_flight s ∧ s_created s1 = s_created s) as [E1 E2].
      { unfold s1, post_narrated. by destruct (narrated _ _). }
      rewrite E1, E2, E in Ef. unfold busy_at in Ef. simpl in Ef.
      change (in_flight (create_cell container CRequested s1) = S (in_flight s)). lia.
  - unfold create_answered in H.
    destruct (s_created s !! container) as [ph|] eqn:E; [|done]. destruct ph; try done.
    injection H as <-. destruct answer as [id|[[id|] e]].
    + apply (Permits_same x (register container id s)); [|exact Hp].
      apply same_permits_create_cell. simpl. by erewrite create_busy_at by done.
    + by apply Permits_create_failed.
    + by apply Permits_create_failed.
  - unfold identity_applied in H.
    destruct (s_created s !! container) as [ph|] eqn:E; [|done]. destruct ph as [| | |id| |]; try done.
    injection H as <-. destruct answer as [[]|e]; [|by apply Permits_create_failed].
    set (s1 := post_narrated x container (ContainerCreated container) (release_permit s)).
    assert (in_flight s1 = in_flight s ∧ s_created s1 = s_created s ∧
      s_permits s1 = pred (s_permits s) ∧ s_outcome s1 = s_outcome s) as (E1 & E2 & E3 & E4).
    { unfold s1, post_narrated. by destruct (narrated _ _). }
    apply (Permits_release x s); [done|exact E3|]. simpl. rewrite E4. intros Ho. split; [done|].
    pose proof (in_flight_create_cell container (CCreated id) s1) as Ef.
    rewrite E1, E2, E in Ef. unfold busy_at in Ef. simpl in Ef. lia.
Qed.

Lemma permits_ready e s s' :
  match e with
  | NetworkAnswered _ | ImageResolved _ | PrepareFailed _ _ | CreateRequested _
  | CreateAnswered _ _ | IdentityApplied _ _ => False | _ => True end →
  Permits x s → handle x e s = Some s' → Permits x s'.
Proof.
  intros He Hp H. destruct e; try done; simpl in H;
    try (destruct (decide (s_outcome s = None)) as [Ho|]; [|done]).
  - unfold ready_called in H. destruct (_ && _) eqn:G; [|done]. injection H as <-.
    apply andb_prop in G as [_ G]. bool_to_prop.
    apply (Permits_same x s); [|done]. apply same_permits_ready_cell. by rewrite G.
  - unfold start_requested in H.
    destruct (s_ready s !! container) as [ph|] eqn:E; [|done]. destruct ph; try done.
    destruct (_ && _) eqn:G; [|done]. injection H as <-. bool_to_prop.
    set (s1 := post_narrated x container (DependencyStarting container) (take_permit s)).
    assert (in_flight s1 = in_flight s ∧ s_ready s1 = s_ready s ∧
      s_permits s1 = S (s_permits s) ∧ s_outcome s1 = s_outcome s) as (E1 & E2 & E3 & E4).
    { unfold s1, post_narrated. by destruct (narrated _ _). }
    apply (Permits_take x s); [done..| | |]; [exact E3|exact E4|].
    pose proof (in_flight_ready_cell container RStarting s1) as Ef.
    rewrite E1, E2, E in Ef. unfold busy_at in Ef. simpl in Ef.
    change (in_flight (ready_cell container RStarting s1) = S (in_flight s)). lia.
  - unfold start_answered in H.
    destruct (s_ready s !! container) as [ph|] eqn:E; [|done]. destruct ph; try done.
    destruct (x_containers x !! container) as [c|]; [|done]. injection H as <-.
    apply (Permits_settles_release x s); [|done].
    destruct answer as [[]|e]; [|apply settles_finish].
    set (s1 := post_narrated x container (DependencyStarted container)
      (with_started ({[container]} ∪ s_started (release_permit s)) (release_permit s))).
    assert (in_flight s1 = in_flight (release_permit s) ∧ s_ready s1 = s_ready s ∧
      s_permits s1 = s_permits (release_permit s) ∧ s_outcome s1 = s_outcome (release_permit s))
      as (E1 & E2 & E3 & E4).
    { unfold s1, post_narrated. by destruct (narrated _ _). }
    assert (∀ s', settles 1 s1 s' → settles 1 (release_permit s) s') as Hs1.
    { intros s' [H1 H2]. split; [congruence|]. by rewrite <-E1, <-E4. }
    apply Hs1. assert (busy_at ready_busy (s_ready s1 !! container) = 1) as Hb by by rewrite E2, E.
    destruct (default _ _); [by apply settles_ready_cell|].
    case_bool_decide; [by apply settles_ready_cell|]. by apply settles_enter_dependency.
  - unfold exit_answered in H.
    destruct (s_ready s !! container) as [ph|] eqn:E; [|done]. destruct ph; try done.
    injection H as <-. apply (Permits_settles x s); [|done].
    assert (∀ ph, ready_busy ph = false → settles 0 s (ready_cell container ph s)) as Hcell.
    { intros ph Hph. apply settles_ready_cell; [by rewrite E|done]. }
    destruct answer as [code|e]; [|apply settles_finish].
    repeat case_match; try apply settles_finish; by apply Hcell.
  - unfold output_answered in H. repeat case_match; simplify_eq;
      (apply (Permits_settles x s); [apply settles_finish|done]).
  - unfold health_answered in H. destruct (gate_of x container s) as [[]|] eqn:E; try done.
    injection H as <-. apply (Permits_settles x s); [|done].
    destruct answer as [[]|e]; [|by apply (settles_gate_failed x _ GHealth)].
    by apply (settles_gate_enter x container GHealth 0
      (emit (Post (ContainerBecameHealthy container)) s)).
  - unfold exec_requested in H. destruct (gate_of x container s) as [[|k|]|] eqn:E; try done.
    destruct (_ !! k); [|done]. destruct (has_permit x s) eqn:Hh; [|done]. injection H as <-.
    destruct (in_flight_set_gate x container (GSetup k) (GExec k) (take_permit s) E) as (E1 & E2 & E3).
    apply (Permits_take x s); [done..| | |]; [exact E2|exact E3|].
    simpl in E1. change (in_flight (take_permit s)) with (in_flight s) in E1.
    change (in_flight (set_gate x container (GExec k) (take_permit s)) = S (in_flight s)). lia.
  - unfold exec_answered in H. destruct (gate_of x container s) as [[| |k]|] eqn:E; try done;
      destruct (_ !! index); try done.
    destruct (decide _) as [<-|]; [|done]. injection H as <-.
    apply (Permits_settles_release x s); [|done].
    destruct (setup_verdict _ _ _ _) as [[]|e];
      [by apply (settles_gate_enter x container (GExec index))|].
    by apply (settles_gate_failed x container (GExec index)).
  - unfold watch_answered in H. destruct (decide _); [|done]. injection H as <-.
    by destruct answer.
  - unfold run_requested in H. destruct (_ && _) eqn:G; [|done]. injection H as <-. bool_to_prop.
    destruct (s_main s) eqn:Em; [|done]. apply (Permits_settles x s); [|done].
    apply (settles_main 0); [by rewrite Em|]. by destruct (x_readiness_gate x).
  - unfold run_started in H. destruct (s_main s) as [|[] gate] eqn:Em; try done.
    injection H as <-. apply (Permits_same x s); [|done].
    apply (same_permits_main (MRun true match gate with MWaitStart => MAt GHealth | g => g end) s).
    rewrite Em. by destruct gate as [| |[]| | |].
  - unfold run_answered in H. repeat case_match; simplify_eq;
      (apply (Permits_settles x s); [apply settles_finish|done]).
  - unfold inspect_answered in H. destruct (s_main s) as [|st gate] eqn:Em; [done|].
    destruct gate; try done. injection H as <-. apply (Permits_settles x s); [|done].
    apply (settles_main 0); [by rewrite Em|]. by destruct answer as [[]|].
  - unfold grace_expired in H. repeat case_match; simplify_eq.
    apply (Permits_settles x s); [apply settles_finish|done].
  - by injection H as <-.
  - unfold interrupt_seen in H. repeat case_match; simplify_eq.
    apply (Permits_settles x s); [apply settles_finish|done].
Qed.

Lemma Permits_step s e s' : Inv x s → Permits x s → step x s e = Some s' → Permits x s'.
Proof.
  intros Hi Hp H. unfold step in H.
  assert (Inv x (log_event e s)) as Hi' by (by apply Inv_log).
  assert (Permits x (log_event e s)) as Hp' by exact Hp.
  destruct e; first [by eapply permits_created in H|by eapply permits_ready in H].
Qed.

Lemma Permits_run interrupts events s :
  run_events x (begin x interrupts) events = Some s → Permits x s.
Proof.
  intros H. apply (run_events_ind x (λ s, Inv x s ∧ Permits x s) _ _ _) in H; [apply H|..].
  - intros s1 e s2 [Hi Hr] Hs. split; [by eapply step_Inv|by eapply Permits_step].
  - split; [apply begin_Inv|]. split; [done|]. intros m _. simpl. lia.
Qed.
End permits_step.


