(* ===== verification/StartupTermination.v ===== *)
(** * StartupTermination: every run is finite

    A measure of [Startup]'s states that every event but a signal lowers: the
    answers and steps a run can still take. *)

From S2P Require Import Prelude Text Collections Values Config DependencyGraph Outcome Startup.
From S2P Require Import StartupOrder StartupProgress.
From stdpp Require Import options.

(** ** Sums over the names of a list *)

Definition total (f : string → nat) (l : list string) : nat := foldr (λ c n, f c + n) 0 l.

Lemma total_ext f g l : (∀ c, c ∈ l → f c = g c) → total f l = total g l.
Proof.
  induction l as [|c l IH]; simpl; [done|]. intros H. rewrite (H c) by left.
  rewrite IH; [done|]. intros c' Hc'. apply H. by right.
Qed.

Lemma total_update f g l c :
  NoDup l → c ∈ l → (∀ c', c' ≠ c → g c' = f c') → total g l + f c = total f l + g c.
Proof.
  intros Hnd Hc Hg. induction Hnd as [|c' l Hnot _ IH]; simpl; [by apply not_elem_of_nil in Hc|].
  destruct (decide (c' = c)) as [->|Hn].
  - rewrite (total_ext g f l); [lia|]. intros c' Hc'. apply Hg. by intros ->.
  - apply elem_of_cons in Hc as [->|Hc]; [done|]. specialize (IH Hc). rewrite (Hg c') by done. lia.
Qed.

(** ** The measure *)

Section measure.
Context (x : TaskRunContext).

Definition commands (c : string) : nat := length (setup_commands x c).

Definition create_weight (phase : option create_phase) : nat :=
  match phase with
  | None => 5
  | Some CImage => 4
  | Some CTarget => 3
  | Some CRequested => 2
  | Some (CApplying _) => 1
  | Some (CCreated _ | CFailed) => 0
  end.

Definition gate_weight (n : nat) (g : gate_phase) : nat :=
  match g with
  | GHealth => 2 * n + 4
  | GSetup k => 2 * (n - k) + 2
  | GExec k => 2 * (n - k) + 1
  end.

Definition ready_weight (c : string) (phase : option ready_phase) : nat :=
  match phase with
  | None => 2 * commands c + 7
  | Some RWaiting => 2 * commands c + 6
  | Some RStarting => 2 * commands c + 5
  | Some (RGate g) => gate_weight (commands c) g
  | Some RExit => 2
  | Some (RDiagnose _) => 1
  | Some RReady => 0
  end.

Definition main_gate_weight (g : main_gate) : nat :=
  match g with
  | MPassed => 2
  | MWaitStart => 0
  | MAt g => gate_weight (commands (x_root x)) g + 3
  | MInspect _ => 3
  | MExited _ | MGrace _ => 2
  end.

Definition main_weight (m : main_phase) : nat :=
  match m with
  | MIdle => 2 * commands (x_root x) + 12
  | MRun started gate =>
      (if started then 0 else 2 * commands (x_root x) + 9) + main_gate_weight gate
  end.

Definition creates_weight (s : state) : nat :=
  total (λ c, create_weight (s_created s !! c)) (elements (dom (x_graph x))).
Definition readies_weight (s : state) : nat :=
  total (λ c, ready_weight c (s_ready s !! c)) (elements (mentioned (x_graph x))).

Definition measure (s : state) : nat :=
  (if decide (s_network s = None) then 1 else 0) + creates_weight s + readies_weight s +
  main_weight (s_main s) + size (s_watching s) + (if decide (s_outcome s = None) then 1 else 0).

(** The names the ready cells can hold. *)
Definition Keys (s : state) : Prop := dom (s_ready s) ⊆ mentioned (x_graph x).

Lemma successors_mentioned c d : d ∈ successors_of x c → d ∈ mentioned (x_graph x).
Proof.
  unfold successors_of, successors, mentioned. intros Hd.
  destruct (x_graph x !! c) as [ds|] eqn:E; simpl in Hd; [|by apply not_elem_of_nil in Hd].
  apply elem_of_list_to_set, list_elem_of_In, in_concat. exists ds.
  split; [|by apply list_elem_of_In]. apply list_elem_of_In, list_elem_of_fmap.
  exists (c, ds). split; [done|]. by apply elem_of_map_to_list.
Qed.

Lemma measure_create_cell c ph s :
  c ∈ dom (x_graph x) →
  measure (create_cell c ph s) + create_weight (s_created s !! c) =
    measure s + create_weight (Some ph).
Proof.
  intros Hc.
  assert (creates_weight (create_cell c ph s) + create_weight (s_created s !! c) =
    creates_weight s + create_weight (Some ph)) as E.
  { unfold creates_weight. simpl.
    pose proof (total_update (λ c, create_weight (s_created s !! c))
      (λ c', create_weight (<[c := ph]> (s_created s) !! c')) (elements (dom (x_graph x))) c) as H.
    simpl in H. rewrite lookup_insert_eq in H. apply H; [apply NoDup_elements|by apply elem_of_elements|].
    intros c' Hc'. by rewrite lookup_insert_ne. }
  change (measure (create_cell c ph s)) with
    ((if decide (s_network s = None) then 1 else 0) + creates_weight (create_cell c ph s)
      + readies_weight s + main_weight (s_main s) + size (s_watching s)
      + (if decide (s_outcome s = None) then 1 else 0)).
  unfold measure. lia.
Qed.

Lemma measure_ready_cell c ph s :
  c ∈ mentioned (x_graph x) →
  measure (ready_cell c ph s) + ready_weight c (s_ready s !! c) =
    measure s + ready_weight c (Some ph).
Proof.
  intros Hc.
  assert (readies_weight (ready_cell c ph s) + ready_weight c (s_ready s !! c) =
    readies_weight s + ready_weight c (Some ph)) as E.
  { unfold readies_weight. simpl.
    pose proof (total_update (λ c, ready_weight c (s_ready s !! c))
      (λ c', ready_weight c' (<[c := ph]> (s_ready s) !! c')) (elements (mentioned (x_graph x))) c) as H.
    simpl in H. rewrite lookup_insert_eq in H. apply H; [apply NoDup_elements|by apply elem_of_elements|].
    intros c' Hc'. by rewrite lookup_insert_ne. }
  change (measure (ready_cell c ph s)) with
    ((if decide (s_network s = None) then 1 else 0) + creates_weight s
      + readies_weight (ready_cell c ph s) + main_weight (s_main s) + size (s_watching s)
      + (if decide (s_outcome s = None) then 1 else 0)).
  unfold measure. lia.
Qed.

Lemma measure_main m s : measure (with_main m s) + main_weight (s_main s) = measure s + main_weight m.
Proof.
  unfold measure. simpl.
  change (readies_weight (with_main m s)) with (readies_weight s).
  change (creates_weight (with_main m s)) with (creates_weight s). lia.
Qed.

Lemma measure_post e s : measure (emit (Post e) s) = measure s.
Proof. done. Qed.
Lemma measure_post_narrated c e s : measure (post_narrated x c e s) = measure s.
Proof. unfold post_narrated. by destruct (narrated x c). Qed.

Lemma measure_finish r s :
  measure (finish r s) + (if decide (s_outcome s = None) then 1 else 0) = measure s.
Proof.
  unfold finish. destruct (s_outcome s) eqn:E.
  { rewrite decide_False by done. lia. }
  change (measure (with_outcome (Some (r, i_count (s_interrupts s))) s)) with
    ((if decide (s_network s = None) then 1 else 0) + creates_weight s + readies_weight s
      + main_weight (s_main s) + size (s_watching s) + 0).
  unfold measure. rewrite E. destruct (decide (None = None)); [lia|done].
Qed.

Lemma measure_finish_le r s : measure (finish r s) ≤ measure s.
Proof. pose proof (measure_finish r s). lia. Qed.

Lemma measure_finish_lt r s : s_outcome s = None → measure (finish r s) < measure s.
Proof. intros H. pose proof (measure_finish r s). rewrite H in *. simpl in *. lia. Qed.

Lemma measure_watching c s : measure (with_watching ({[c]} ∪ s_watching s) s) ≤ S (measure s).
Proof.
  change (measure (with_watching ({[c]} ∪ s_watching s) s)) with
    ((if decide (s_network s = None) then 1 else 0) + creates_weight s + readies_weight s
      + main_weight (s_main s) + size ({[c]} ∪ s_watching s)
      + (if decide (s_outcome s = None) then 1 else 0)).
  unfold measure. pose proof (size_union_alt ({[c]} : gset string) (s_watching s)) as E.
  assert (size (s_watching s ∖ {[c]}) ≤ size (s_watching s)) by (apply subseteq_size; set_solver).
  rewrite size_singleton in E. lia.
Qed.

(** *** The setup commands *)

Lemma setup_enter_measure c k s :
  measure (setup_enter x c k s).1 = measure s ∧
  s_outcome (setup_enter x c k s).1 = s_outcome s ∧
  s_ready (setup_enter x c k s).1 = s_ready s ∧ s_main (setup_enter x c k s).1 = s_main s ∧
  ∀ j, (setup_enter x c k s).2 = SetupAt j → j = k ∧ k < commands c.
Proof.
  unfold setup_enter. destruct (setup_commands x c !! k) as [command|] eqn:E.
  - apply lookup_lt_Some in E. case_bool_decide; simpl; split_and!; try done; intros j [= <-]; done.
  - case_bool_decide; simpl; split_and!; done.
Qed.

Lemma enter_dependency_lt c k s :
  s_outcome s = None → c ∈ mentioned (x_graph x) →
  2 ≤ ready_weight c (s_ready s !! c) →
  (k < commands c → 2 * (commands c - k) + 2 < ready_weight c (s_ready s !! c)) →
  measure (enter_dependency_setup x c k s) < measure s.
Proof.
  intros Ho Hc Hw Hk. unfold enter_dependency_setup.
  pose proof (setup_enter_measure c k s) as Hf.
  destruct (setup_enter x c k s) as [s1 nx]. simpl in Hf. destruct Hf as (<- & E2 & E3 & _ & E5).
  rewrite <-E3 in Hw, Hk. destruct nx as [|j|e].
  - pose proof (measure_watching c (ready_cell c RReady s1)) as H1.
    pose proof (measure_ready_cell c RReady s1 Hc) as H2. simpl in H2.
    change (measure (become_ready c s1)) with
      (measure (with_watching ({[c]} ∪ s_watching (ready_cell c RReady s1)) (ready_cell c RReady s1))).
    lia.
  - destruct (E5 j eq_refl) as [-> Hj].
    pose proof (measure_ready_cell c (RGate (GSetup k)) s1 Hc) as H2. simpl in H2.
    specialize (Hk Hj). lia.
  - apply measure_finish_lt. congruence.
Qed.

Lemma enter_main_lt k s :
  4 ≤ main_weight (s_main s) →
  (k < commands (x_root x) → 2 * (commands (x_root x) - k) + 5 < main_weight (s_main s)) →
  measure (enter_main_setup x k s) < measure s.
Proof.
  intros Hw Hk. unfold enter_main_setup. pose proof (setup_enter_measure (x_root x) k s) as Hf.
  destruct (setup_enter x (x_root x) k s) as [s1 nx]. simpl in Hf. destruct Hf as (<- & _ & _ & E4 & E5).
  rewrite <-E4 in Hw, Hk. destruct nx as [|j|e].
  - pose proof (measure_main (MRun true MPassed) s1) as H. simpl in H. lia.
  - destruct (E5 j eq_refl) as [-> Hj]. specialize (Hk Hj).
    pose proof (measure_main (MRun true (MAt (GSetup k))) s1) as H. simpl in H. lia.
  - pose proof (measure_main (MRun true (MInspect e)) s1) as H. simpl in H. lia.
Qed.

Lemma gate_of_weight c g s :
  Keys s → gate_of x c s = Some g →
  (c = x_root x ∧ main_weight (s_main s) = gate_weight (commands c) g + 3) ∨
  (c ≠ x_root x ∧ c ∈ mentioned (x_graph x) ∧
    ready_weight c (s_ready s !! c) = gate_weight (commands c) g).
Proof.
  intros Hkeys. unfold gate_of. destruct (decide (c = x_root x)) as [->|Hn].
  - destruct (s_main s) as [|[] []]; try done. intros [= ->]. left. by split.
  - destruct (s_ready s !! c) as [ph|] eqn:E; [|done]. destruct ph; try done. intros [= ->]. right.
    split_and!; [done| |done]. apply Hkeys. by apply elem_of_dom_2 in E.
Qed.

Lemma gate_enter_lt c g k s :
  Keys s → s_outcome s = None → gate_of x c s = Some g → 3 ≤ gate_weight (commands c) g →
  (k < commands c → 2 * (commands c - k) + 2 < gate_weight (commands c) g) →
  measure (gate_enter x c k s) < measure s.
Proof.
  intros Hkeys Ho Hg Hw Hk. unfold gate_enter.
  destruct (gate_of_weight _ _ _ Hkeys Hg) as [[-> E]|(Hn & Hc & E)].
  - rewrite decide_True by done. apply enter_main_lt; [lia|]. intros Hlt. specialize (Hk Hlt). lia.
  - rewrite decide_False by done. apply enter_dependency_lt; [done|done|lia|].
    intros Hlt. specialize (Hk Hlt). lia.
Qed.

Lemma gate_failed_lt c g e s :
  Keys s → s_outcome s = None → gate_of x c s = Some g → 1 ≤ gate_weight (commands c) g →
  measure (gate_failed x c e s) < measure s.
Proof.
  intros Hkeys Ho Hg Hw. unfold gate_failed.
  destruct (gate_of_weight _ _ _ Hkeys Hg) as [[-> E]|(Hn & Hc & E)].
  - rewrite decide_True by done. pose proof (measure_main (MRun true (MInspect e)) s) as H.
    simpl in H. lia.
  - rewrite decide_False by done. by apply measure_finish_lt.
Qed.

Lemma set_gate_measure c g g' s :
  Keys s → gate_of x c s = Some g →
  measure (set_gate x c g' s) + gate_weight (commands c) g =
    measure s + gate_weight (commands c) g'.
Proof.
  intros Hkeys Hg. unfold set_gate.
  destruct (gate_of_weight _ _ _ Hkeys Hg) as [[-> E]|(Hn & Hc & E)].
  - rewrite decide_True by done. pose proof (measure_main (MRun true (MAt g')) s) as H.
    simpl in H. lia.
  - rewrite decide_False by done. pose proof (measure_ready_cell c (RGate g') s Hc) as H.
    simpl in H. lia.
Qed.

(** *** Every event *)

Definition is_signal (e : event) : bool := match e with Signalled _ => true | _ => false end.

Lemma measure_network_ready n s :
  s_network s = None → s_created s = ∅ → measure (network_ready x n s) < measure s.
Proof.
  intros Hn Hc. unfold measure. rewrite Hn. rewrite (decide_True (P := @None string = None)) by done.
  assert (creates_weight (network_ready x n s) ≤ creates_weight s) as Hle.
  { unfold creates_weight. rewrite Hc. simpl.
    assert (∀ l : list string, (∀ c, c ∈ l → c ∈ dom (x_graph x)) →
      total (λ c, create_weight (gset_to_gmap CImage (dom (x_graph x)) !! c)) l ≤
      total (λ c, create_weight ((∅ : gmap string create_phase) !! c)) l) as H.
    { induction l as [|c l IH]; simpl; [lia|]. intros Hl.
      assert (gset_to_gmap CImage (dom (x_graph x)) !! c = Some CImage) as ->.
      { apply lookup_gset_to_gmap_Some. split; [apply Hl; by left|done]. }
      rewrite lookup_empty. simpl.
      enough (total (λ c, create_weight (gset_to_gmap CImage (dom (x_graph x)) !! c)) l ≤
        total (λ c, create_weight ((∅ : gmap string create_phase) !! c)) l) by lia.
      apply IH. intros c' Hc'. apply Hl. by right. }
    apply H. intros c. by rewrite elem_of_elements. }
  change (readies_weight (network_ready x n s)) with (readies_weight s).
  change (s_main (network_ready x n s)) with (s_main s).
  change (s_watching (network_ready x n s)) with (s_watching s).
  change (s_outcome (network_ready x n s)) with (s_outcome s).
  change (s_network (network_ready x n s)) with (Some n). rewrite decide_False by done. lia.
Qed.

Lemma create_cell_lt c ph ph' s :
  Inv x s → s_created s !! c = Some ph → create_weight (Some ph') < create_weight (Some ph) →
  measure (create_cell c ph' s) < measure s.
Proof.
  intros Hi E Hlt. destruct (inv_created _ _ Hi c _ E) as [Hc _].
  pose proof (measure_create_cell c ph' s Hc) as H. rewrite E in H. lia.
Qed.

Lemma measure_permits v s : measure (with_permits v s) = measure s.
Proof. done. Qed.

Lemma create_failed_lt c ph e s :
  Inv x s → s_created s !! c = Some ph → 0 < create_weight (Some ph) →
  measure (create_failed x c e s) < measure s.
Proof.
  intros Hi E Hlt. unfold create_failed.
  eapply Nat.le_lt_trans; [apply measure_finish_le|].
  apply (create_cell_lt c ph CFailed (release_permit s)); [by apply Inv_release_permit|done|done].
Qed.
End measure.

Section steps.
Context (x : TaskRunContext).
#[local] Notation measure := (measure x).

Lemma ready_key s c ph : Keys x s → s_ready s !! c = Some ph → c ∈ mentioned (x_graph x).
Proof. intros H E. apply H. by apply elem_of_dom_2 in E. Qed.

Lemma handle_lt e s s' :
  Inv x s → Keys x s → is_signal e = false → handle x e s = Some s' → measure s' < measure s.
Proof.
  intros Hi Hk He H. destruct e; try done; simpl in H;
    try (destruct (decide (s_outcome s = None)) as [Ho|]; [|done]).
  - unfold network_answered in H. destruct (decide _) as [Hn|]; [|done].
    pose proof (λ n, measure_network_ready x n s Hn (inv_network _ _ Hi Hn)).
    repeat case_match; simplify_eq; auto using measure_finish_lt.
  - unfold image_resolved in H. repeat case_match; simplify_eq.
    eapply create_cell_lt; [done..|]. simpl. lia.
  - unfold prepare_failed in H. repeat case_match; simplify_eq;
      (eapply Nat.le_lt_trans; [apply measure_finish_le|]);
      (eapply create_cell_lt; [done..|]; simpl; lia).
  - unfold create_requested in H.
    destruct (s_created s !! container) as [ph|] eqn:E; [|done]. destruct ph; try done.
    destruct (_ && _); [|done]. injection H as <-.
    set (s1 := post_narrated x container (ContainerCreating container) (take_permit s)).
    assert (s_created s1 = s_created s ∧ measure s1 = measure s) as [E1 <-].
    { unfold s1. split; [unfold post_narrated; by destruct (narrated _ _)|].
      by rewrite measure_post_narrated. }
    apply (create_cell_lt x container CTarget CRequested s1); [|by rewrite E1|simpl; lia].
    unfold s1. auto with ratect.
  - unfold create_answered in H.
    destruct (s_created s !! container) as [ph|] eqn:E; [|done]. destruct ph; try done.
    injection H as <-. destruct answer as [id|[[id|] e]].
    + apply (create_cell_lt x container CRequested (CApplying id) (register container id s));
        [auto with ratect|done|simpl; lia].
    + apply (create_failed_lt x container CRequested e (register container id s));
        [auto with ratect|done|simpl; lia].
    + eapply create_failed_lt; [done..|simpl; lia].
  - unfold identity_applied in H.
    destruct (s_created s !! container) as [ph|] eqn:E; [|done]. destruct ph as [| | |id| |]; try done.
    injection H as <-. destruct answer as [[]|e]; [|eapply create_failed_lt; [done..|simpl; lia]].
    set (s1 := post_narrated x container (ContainerCreated container) (release_permit s)).
    assert (s_created s1 = s_created s ∧ measure s1 = measure s) as [E1 <-].
    { unfold s1. split; [unfold post_narrated; by destruct (narrated _ _)|].
      by rewrite measure_post_narrated. }
    eapply (create_cell_lt x container (CApplying id)); [|by rewrite E1|simpl; lia].
    unfold s1. auto with ratect.
  - unfold ready_called in H. destruct (_ && _) eqn:G; [|done]. injection H as <-.
    apply andb_prop in G as [G1 G]. apply andb_prop in G1 as [_ G1]. bool_to_prop.
    assert (container ∈ mentioned (x_graph x)) as Hc.
    { apply orb_prop in G1 as [G1|G1]; bool_to_prop; [by eapply successors_mentioned|].
      apply existsb_exists in G1 as (p & _ & G1). bool_to_prop. by eapply successors_mentioned. }
    pose proof (measure_ready_cell x container RWaiting s Hc) as Hm. rewrite G in Hm.
    simpl in Hm. lia.
  - unfold start_requested in H.
    destruct (s_ready s !! container) as [ph|] eqn:E; [|done]. destruct ph; try done.
    destruct (_ && _); [|done]. injection H as <-.
    set (s1 := post_narrated x container (DependencyStarting container) (take_permit s)).
    assert (s_ready s1 = s_ready s ∧ measure s1 = measure s) as [E1 <-].
    { unfold s1. split; [unfold post_narrated; by destruct (narrated _ _)|].
      by rewrite measure_post_narrated. }
    pose proof (measure_ready_cell x container RStarting s1 (ready_key _ _ _ Hk E)) as Hm.
    rewrite E1, E in Hm. simpl in Hm.
    change (measure (ready_cell container RStarting s1) < measure s1). lia.
  - unfold start_answered in H.
    destruct (s_ready s !! container) as [ph|] eqn:E; [|done]. destruct ph; try done.
    destruct (x_containers x !! container) as [c|]; [|done]. injection H as <-.
    destruct answer as [[]|e]; [|by apply (measure_finish_lt x _ (release_permit s))].
    set (s1 := post_narrated x container (DependencyStarted container) _).
    assert (s_ready s1 = s_ready s ∧ s_outcome s1 = s_outcome s ∧ measure s1 = measure s)
      as (E1 & E2 & <-).
    { unfold s1. split_and!; [unfold post_narrated; by destruct (narrated _ _)..|].
      by rewrite measure_post_narrated. }
    pose proof (ready_key _ _ _ Hk E) as Hc. rewrite <-E1 in E. rewrite <-E2 in Ho.
    assert (∀ ph, ready_weight x container (Some ph) < 2 * commands x container + 5 →
      measure (ready_cell container ph s1) < measure s1) as Hcell.
    { intros ph Hph. pose proof (measure_ready_cell x container ph s1 Hc) as Hm.
      rewrite E in Hm. simpl in Hm. simpl in Hph. lia. }
    destruct (default _ _); [apply Hcell; simpl; lia|].
    case_bool_decide; [apply Hcell; simpl; lia|].
    apply enter_dependency_lt; [done|done|rewrite E; simpl; lia..].
  - unfold exit_answered in H.
    destruct (s_ready s !! container) as [ph|] eqn:E; [|done]. destruct ph; try done.
    injection H as <-. pose proof (ready_key _ _ _ Hk E) as Hc.
    assert (∀ ph, ready_weight x container (Some ph) < 2 →
      measure (ready_cell container ph s) < measure s) as Hcell.
    { intros ph Hph. pose proof (measure_ready_cell x container ph s Hc) as Hm.
      rewrite E in Hm. simpl in Hm. simpl in Hph. lia. }
    destruct answer as [code|e]; [|by apply measure_finish_lt].
    repeat case_match; try (by apply measure_finish_lt); apply Hcell; simpl; lia.
  - unfold output_answered in H. repeat case_match; simplify_eq; by apply measure_finish_lt.
  - unfold health_answered in H. destruct (gate_of x container s) as [[]|] eqn:E; try done.
    injection H as <-. destruct answer as [[]|e].
    + apply (gate_enter_lt x container GHealth 0 (emit (Post (ContainerBecameHealthy container)) s));
        [done..|simpl; lia|simpl; lia].
    + eapply gate_failed_lt; [done..|simpl; lia].
  - unfold exec_requested in H. destruct (gate_of x container s) as [[|k|]|] eqn:E; try done.
    destruct (_ !! k) eqn:Ek; [|done]. destruct (has_permit x s); [|done]. injection H as <-.
    apply lookup_lt_Some in Ek.
    pose proof (set_gate_measure x container _ (GExec k) (take_permit s) Hk E) as Hm.
    simpl in Hm. change (measure (take_permit s)) with (measure s) in Hm.
    change (measure (set_gate x container (GExec k) (take_permit s)) < measure s). lia.
  - unfold exec_answered in H. destruct (gate_of x container s) as [[| |k]|] eqn:E; try done;
      destruct (_ !! index) eqn:Ek; try done.
    destruct (decide _) as [<-|]; [|done]. injection H as <-.
    apply lookup_lt_Some in Ek. unfold commands.
    destruct (setup_verdict _ _ _ _) as [[]|e].
    + apply (gate_enter_lt x container (GExec index) (S index) (release_permit s));
        [done..|simpl; unfold commands; lia|simpl; unfold commands; lia].
    + apply (gate_failed_lt x container (GExec index) e (release_permit s));
        [done..|simpl; lia].
  - unfold watch_answered in H. destruct (decide _) as [Hw|]; [|done]. injection H as <-.
    assert (measure (with_watching (s_watching s ∖ {[container]}) s) < measure s) as Hlt.
    { change (measure (with_watching (s_watching s ∖ {[container]}) s)) with
        ((if decide (s_network s = None) then 1 else 0) + creates_weight x s + readies_weight x s
          + main_weight x (s_main s) + size (s_watching s ∖ {[container]})
          + (if decide (s_outcome s = None) then 1 else 0)).
      assert (size (s_watching s ∖ {[container]}) < size (s_watching s)); [|unfold measure; lia].
      apply subset_size. set_solver. }
    by destruct answer.
  - unfold run_requested in H. destruct (_ && _) eqn:G; [|done]. injection H as <-. bool_to_prop.
    destruct (s_main s) eqn:Em; [|done].
    pose proof (measure_main x (MRun false (if x_readiness_gate x then MWaitStart else MPassed)) s) as Hm.
    rewrite Em in Hm. simpl in Hm.
    change (measure (with_main (MRun false (if x_readiness_gate x then MWaitStart else MPassed)) s)
      < measure s).
    destruct (x_readiness_gate x); simpl in Hm; lia.
  - unfold run_started in H. destruct (s_main s) as [|[] gate] eqn:Em; try done.
    injection H as <-.
    pose proof (measure_main x (MRun true match gate with MWaitStart => MAt GHealth | g => g end) s) as Hm.
    rewrite Em in Hm.
    change (measure (with_main (MRun true match gate with MWaitStart => MAt GHealth | g => g end) s)
      < measure s).
    destruct gate; simpl in Hm; lia.
  - unfold run_answered in H. repeat case_match; simplify_eq; by apply measure_finish_lt.
  - unfold inspect_answered in H. destruct (s_main s) as [|st gate] eqn:Em; [done|].
    destruct gate; try done. injection H as <-.
    pose proof (measure_main x (MRun st match answer with Ok false => MExited e | _ => MGrace e end) s) as Hm.
    rewrite Em in Hm. simpl in Hm. destruct answer as [[]|]; simpl in Hm; lia.
  - unfold grace_expired in H. repeat case_match; simplify_eq. by apply measure_finish_lt.
  - unfold interrupt_seen in H. repeat case_match; simplify_eq. by apply measure_finish_lt.
Qed.

(** *** The ready cells' names *)

Lemma Keys_same s s' : s_ready s' = s_ready s → Keys x s → Keys x s'.
Proof. unfold Keys. by intros ->. Qed.

Lemma Keys_ready_cell c ph s : Keys x s → c ∈ mentioned (x_graph x) → Keys x (ready_cell c ph s).
Proof. unfold Keys. simpl. rewrite dom_insert. set_solver. Qed.

Lemma ready_finish r s : s_ready (finish r s) = s_ready s.
Proof. unfold finish. by destruct (s_outcome s). Qed.

Lemma ready_post_narrated c e s : s_ready (post_narrated x c e s) = s_ready s.
Proof. unfold post_narrated. by destruct (narrated x c). Qed.

Lemma Keys_finish r s : Keys x s → Keys x (finish r s).
Proof. apply Keys_same, ready_finish. Qed.

Lemma Keys_enter_dependency c k s :
  Keys x s → c ∈ mentioned (x_graph x) → Keys x (enter_dependency_setup x c k s).
Proof.
  intros H Hc. unfold enter_dependency_setup. pose proof (setup_enter_measure x c k s) as Hf.
  destruct (setup_enter x c k s) as [s1 nx]. simpl in Hf. destruct Hf as (_ & _ & E & _).
  apply (Keys_same _ s1) in H; [|done].
  destruct nx; [by apply Keys_ready_cell|by apply Keys_ready_cell|by apply Keys_finish].
Qed.

Lemma Keys_gate_enter c g k s :
  Keys x s → gate_of x c s = Some g → Keys x (gate_enter x c k s).
Proof.
  intros H Hg. unfold gate_enter. destruct (gate_of_weight _ _ _ _ H Hg) as [[-> _]|(Hn & Hc & _)].
  - rewrite decide_True by done. unfold enter_main_setup.
    pose proof (setup_enter_measure x (x_root x) k s) as Hf.
    destruct (setup_enter x (x_root x) k s) as [s1 nx]. simpl in Hf. destruct Hf as (_ & _ & E & _).
    by destruct nx; apply (Keys_same s).
  - rewrite decide_False by done. by apply Keys_enter_dependency.
Qed.

Lemma Keys_gate_failed c e s : Keys x s → Keys x (gate_failed x c e s).
Proof. intros H. unfold gate_failed. destruct (decide _); [done|]. by apply Keys_finish. Qed.

Lemma Keys_set_gate c g g' s : Keys x s → gate_of x c s = Some g → Keys x (set_gate x c g' s).
Proof.
  intros H Hg. unfold set_gate. destruct (gate_of_weight _ _ _ _ H Hg) as [[-> _]|(Hn & Hc & _)].
  - by rewrite decide_True by done.
  - rewrite decide_False by done. by apply Keys_ready_cell.
Qed.

Lemma handle_Keys e s s' : Keys x s → handle x e s = Some s' → Keys x s'.
Proof.
  intros Hk H. destruct e; simpl in H;
    try (destruct (decide (s_outcome s = None)) as [Ho|]; [|done]).
  - unfold network_answered in H. repeat case_match; simplify_eq; try done; by apply Keys_finish.
  - unfold image_resolved in H. by repeat case_match; simplify_eq.
  - unfold prepare_failed in H. repeat case_match; simplify_eq; by apply Keys_finish.
  - unfold create_requested in H. repeat case_match; simplify_eq;
      (eapply Keys_same; [|exact Hk]); exact (ready_post_narrated _ _ (take_permit s)).
  - unfold create_answered, create_failed in H. repeat case_match; simplify_eq; try done;
      by apply Keys_finish.
  - unfold identity_applied, create_failed in H. repeat case_match; simplify_eq.
    + eapply Keys_same; [|exact Hk]. exact (ready_post_narrated _ _ (release_permit s)).
    + by apply Keys_finish.
  - unfold ready_called in H. destruct (_ && _) eqn:G; [|done]. injection H as <-.
    apply andb_prop in G as [G1 G]. apply andb_prop in G1 as [_ G1].
    apply Keys_ready_cell; [done|].
    apply orb_prop in G1 as [G1|G1]; bool_to_prop; [by eapply successors_mentioned|].
    apply existsb_exists in G1 as (p & _ & G1). bool_to_prop. by eapply successors_mentioned.
  - unfold start_requested in H.
    destruct (s_ready s !! container) as [ph|] eqn:E; [|done]. destruct ph; try done.
    destruct (_ && _); [|done]. injection H as <-. pose proof (ready_key _ _ _ Hk E) as Hc.
    apply (Keys_ready_cell container RStarting (post_narrated x container _ (take_permit s))); [|done].
    eapply (Keys_same s); [|exact Hk]. by rewrite ready_post_narrated.
  - unfold start_answered in H.
    destruct (s_ready s !! container) as [ph|] eqn:E; [|done]. destruct ph; try done.
    destruct (x_containers x !! container) as [c|]; [|done]. injection H as <-.
    pose proof (ready_key _ _ _ Hk E) as Hc.
    destruct answer as [[]|e]; [|by apply Keys_finish].
    set (s1 := post_narrated x container (DependencyStarted container) _).
    assert (Keys x s1) as Hk1.
    { eapply Keys_same; [|exact Hk]. unfold s1. by rewrite ready_post_narrated. }
    destruct (default _ _); [by apply Keys_ready_cell|].
    case_bool_decide; [by apply Keys_ready_cell|]. by apply Keys_enter_dependency.
  - unfold exit_answered, dependency_failed in H.
    destruct (s_ready s !! container) as [ph|] eqn:E; [|done]. destruct ph; try done.
    injection H as <-. pose proof (ready_key _ _ _ Hk E) as Hc.
    repeat case_match; try (by apply Keys_finish); by apply Keys_ready_cell.
  - unfold output_answered, dependency_failed in H. repeat case_match; simplify_eq; by apply Keys_finish.
  - unfold health_answered in H. destruct (gate_of x container s) as [[]|] eqn:E; try done.
    injection H as <-. destruct answer as [[]|e]; [|by apply Keys_gate_failed].
    by apply (Keys_gate_enter container GHealth 0 (emit (Post (ContainerBecameHealthy container)) s)).
  - unfold exec_requested in H. destruct (gate_of x container s) as [[|k|]|] eqn:E; try done.
    destruct (_ !! k) eqn:Ek; [|done]. destruct (has_permit x s); [|done]. injection H as <-.
    by apply (Keys_set_gate container (GSetup k) (GExec k) (take_permit s)).
  - unfold exec_answered in H. destruct (gate_of x container s) as [[| |k]|] eqn:E; try done;
      destruct (_ !! index) eqn:Ek; try done.
    destruct (decide _) as [<-|]; [|done]. injection H as <-.
    destruct (setup_verdict _ _ _ _) as [[]|e].
    + by apply (Keys_gate_enter container (GExec index) (S index) (release_permit s)).
    + by apply Keys_gate_failed.
  - unfold watch_answered in H. by repeat case_match; simplify_eq.
  - unfold run_requested in H. by repeat case_match; simplify_eq.
  - unfold run_started in H. by repeat case_match; simplify_eq.
  - unfold run_answered in H. repeat case_match; simplify_eq; by apply Keys_finish.
  - unfold inspect_answered in H. by repeat case_match; simplify_eq.
  - unfold grace_expired in H. repeat case_match; simplify_eq. by apply Keys_finish.
  - by simplify_eq.
  - unfold interrupt_seen in H. repeat case_match; simplify_eq. by apply Keys_finish.
Qed.

Lemma step_lt s e s' :
  Inv x s → Keys x s → step x s e = Some s' →
  measure s' + (if is_signal e then 0 else 1) ≤ measure s ∧ Inv x s' ∧ Keys x s'.
Proof.
  intros Hi Hk H. split_and!; [|by eapply step_Inv|by eapply (handle_Keys e (log_event e s))].
  change (measure s) with (measure (log_event e s)).
  destruct (is_signal e) eqn:He.
  - destruct e; try done. simpl in H. injection H as <-.
    change (measure (log_event (Signalled signal) s) + 0 ≤ measure (log_event (Signalled signal) s)).
    lia.
  - apply (handle_lt e (log_event e s)) in H; [lia|by apply Inv_log|done|done].
Qed.

Lemma run_events_le s events s' :
  Inv x s → Keys x s → run_events x s events = Some s' →
  length (filter (λ e, is_signal e = false) events) + measure s' ≤ measure s.
Proof.
  revert s. induction events as [|e events IH]; intros s Hi Hk H; simpl in H.
  { simplify_eq. simpl. lia. }
  destruct (step x s e) as [s1|] eqn:E; [|done].
  destruct (step_lt _ _ _ Hi Hk E) as (Hlt & Hi1 & Hk1). specialize (IH s1 Hi1 Hk1 H).
  rewrite filter_cons. destruct (is_signal e) eqn:He.
  - rewrite decide_False by congruence. lia.
  - rewrite decide_True by done. simpl. lia.
Qed.
End steps.

(** A run ends.  Whatever the daemon answers and in whatever order, a run of
    a task takes at most as many steps, signals apart, as a number fixed
    before it starts: a few for each container of the graph, two for each
    setup command and a constant for the task's own. *)
Theorem startup_terminates x interrupts events s :
  run_events x (begin x interrupts) events = Some s →
  length (filter (λ e, is_signal e = false) events) ≤ measure x (begin x interrupts).
Proof.
  intros H. apply run_events_le in H; [lia|apply begin_Inv|]. unfold Keys, begin.
  destruct (x_existing_network x); simpl; set_solver.
Qed.

Lemma startup_terminates_witness :
  length (filter (λ e, is_signal e = false) example_events) = 19 ∧
  length (filter (λ e, is_signal e = false) example_events) ≤
    measure example_context (begin example_context interrupts_new).
Proof.
  split; [vm_compute; reflexivity|].
  refine (startup_terminates example_context interrupts_new example_events
    (example_state example_events) _).
  apply example_run_events. vm_compute. discriminate.
Defined.
