(* ===== verification/StartupLiveness.v ===== *)
(** * StartupLiveness: a run that nothing fails succeeds

    The dependency gates, the memo cells and the permits of [Startup] never
    wait on one another for ever: from every state of a run in which nothing
    has failed, answers without a failure lead to the task's own command
    having run. *)

From S2P Require Import Prelude Text Collections Values Config DependencyGraph Outcome Startup.
From S2P Require Import StartupOrder StartupProgress StartupTermination.
From stdpp Require Import options.

(** ** A context the loader lets through

    The graph is the one [build_dependency_graph] made, and the loader's
    checks of [container:] targets and [run_in] hold. *)
Record well_formed (x : TaskRunContext) : Prop := {
  wf_graph : ∃ extra, build_dependency_graph (x_containers x) (x_root x) extra = Ok (x_graph x);
  wf_target : ∀ c target, network_target x c = Some target → target ∈ successors_of x c;
  wf_run_in : ∀ c command, command ∈ setup_commands x c →
    setup_target c command = c ∨ setup_target c command ∈ successors_of x c;
  wf_parallelism : x_max_parallelism x ≠ Some 0;
}.

(** The events of a run nothing fails in. *)
Definition good (e : event) : Prop :=
  match e with
  | NetworkAnswered answer => answer = Ok true
  | CreateAnswered _ answer => is_ok answer = true
  | IdentityApplied _ answer | StartAnswered _ answer | HealthAnswered _ answer
  | RunAnswered answer => answer = Ok tt
  | ExitAnswered _ answer => answer = Ok 0%Z
  | ExecAnswered _ _ answer => ∃ output, answer = Ok (0%Z, output)
  | ImageResolved _ | CreateRequested _ | ReadyCalled _ | StartRequested _ | ExecRequested _
  | RunRequested | RunStarted | WatchAnswered _ _ => True
  | PrepareFailed _ _ | OutputAnswered _ _ | InspectAnswered _ | GraceExpired | Signalled _
  | InterruptSeen => False
  end.

(** The events considered: all of them, or the good ones. *)
Definition allowed (strict : bool) (e : event) : Prop := strict = true → good e.

Section liveness.
Context (x : TaskRunContext) (Hwf : well_formed x).

(** ** The graph *)

Definition depends (c d : string) : Prop := d ∈ successors_of x c.

Lemma graph_entry c ds :
  x_graph x !! c = Some ds →
  is_Some (x_containers x !! c) ∧ (∀ d, d ∈ ds → is_Some (x_graph x !! d)).
Proof using Hwf.
  destruct (wf_graph x Hwf) as [extra Hg]. pose proof (build_spec (x_containers x) (x_root x) extra) as H.
  rewrite Hg in H. destruct H as [Hinv _]. intros E. destruct (Hinv c ds E) as ((con & Hc & _) & Hd & _).
  by rewrite Hc.
Qed.

Lemma depends_dom c d : depends c d → c ∈ dom (x_graph x) ∧ d ∈ dom (x_graph x).
Proof using Hwf.
  unfold depends, successors_of, successors. intros Hd.
  destruct (x_graph x !! c) as [ds|] eqn:E; simpl in Hd; [|by apply not_elem_of_nil in Hd].
  split; [by apply elem_of_dom|]. apply elem_of_dom. by apply (graph_entry c ds E).
Qed.

Lemma dom_container c : c ∈ dom (x_graph x) → is_Some (x_containers x !! c).
Proof using Hwf. intros [ds E]%elem_of_dom. by apply (graph_entry c ds E). Qed.

(** Every chain of dependencies ends. *)
Lemma depends_Acc c : c ∈ dom (x_graph x) → Acc (λ d c, depends c d) c.
Proof using Hwf.
  destruct (wf_graph x Hwf) as [extra Hg]. pose proof (build_spec (x_containers x) (x_root x) extra) as H.
  rewrite Hg in H. destruct H as [Hinv _]. intros [ds E]%elem_of_dom.
  destruct (Hinv c ds E) as (_ & _ & _ & Hacc). clear ds E.
  induction Hacc as [c _ IH]. constructor. intros d Hd. apply IH.
  unfold depends, successors_of, successors in Hd.
  destruct (x_graph x !! c) as [ds|] eqn:E; simpl in Hd; [|by apply not_elem_of_nil in Hd].
  destruct (Hinv c ds E) as ((con & Hc & ->) & _). by exists con.
Qed.

(** The task's own container is nobody's dependency. *)
Lemma depends_not_root c : ¬ depends c (x_root x).
Proof using Hwf.
  destruct (wf_graph x Hwf) as [extra Hg]. pose proof (build_spec (x_containers x) (x_root x) extra) as H.
  rewrite Hg in H. destruct H as [Hinv [dr Hroot]]. intros Hd.
  destruct (proj1 (elem_of_dom _ _) (proj1 (depends_dom _ _ Hd))) as [ds E].
  destruct (Hinv c ds E) as ((con & Hc & ->) & _ & Hreach & _).
  destruct (Hinv _ dr Hroot) as (_ & _ & _ & Hacc).
  apply (Acc_no_cycle (x_containers x) (x_root x) extra (x_root x) Hacc).
  eapply tc_rtc_l; [exact Hreach|]. apply tc_once.
  unfold depends, successors_of, successors in Hd. rewrite E in Hd. by exists con.
Qed.

(** A state of a cell with some property has one whose dependencies have not. *)
Lemma least (P : string → Prop) c :
  (∀ c, Decision (P c)) → c ∈ dom (x_graph x) → P c →
  ∃ c, c ∈ dom (x_graph x) ∧ P c ∧ ∀ d, depends c d → ¬ P d.
Proof using Hwf.
  intros Hdec Hc. pose proof (depends_Acc c Hc) as Hacc. revert Hc.
  induction Hacc as [c _ IH]. intros Hc HP.
  destruct (decide (Exists P (successors_of x c))) as [Hex|Hno].
  - apply Exists_exists in Hex as (d & Hd & HPd).
    apply (IH d Hd); [|done]. by apply (depends_dom c).
  - exists c. split_and!; [done|done|]. intros d Hd HPd. apply Hno, Exists_exists. eauto.
Qed.

(** ** The states of such a run *)

Definition gate_good (c : string) (g : gate_phase) : Prop :=
  match g with GHealth => True | GSetup k | GExec k => k < commands x c end.

Definition ready_sound (strict : bool) (c : string) (phase : ready_phase) : Prop :=
  c ∈ dom (x_graph x) ∧ c ≠ x_root x ∧
  match phase with RDiagnose _ => strict = false | RGate g => gate_good c g | _ => True end.

Definition main_sound (strict : bool) (m : main_phase) : Prop :=
  match m with
  | MIdle => True
  | MRun false (MPassed | MWaitStart) => True
  | MRun true MPassed => True
  | MRun true (MAt g) => gate_good (x_root x) g
  | MRun true (MInspect _ | MExited _ | MGrace _) => strict = false
  | _ => False
  end.

(** What holds while a run has no outcome: by [strict], of one nothing has failed in,
    or of any. *)
Record Sound (strict : bool) (s : state) : Prop := {
  good_open : s_outcome s = None;
  good_created : ∀ c, s_created s !! c ≠ Some CFailed;
  good_dom : s_network s ≠ None → dom (s_created s) = dom (x_graph x);
  good_ready : map_Forall (ready_sound strict) (s_ready s);
  good_main : main_sound strict (s_main s);
}.

Context (strict : bool).
#[local] Notation Good := (Sound strict).
#[local] Notation ready_good := (ready_sound strict).
#[local] Notation main_good := (main_sound strict).

Lemma Good_same s s' :
  s_outcome s' = s_outcome s → s_created s' = s_created s → s_network s' = s_network s →
  s_ready s' = s_ready s → s_main s' = s_main s → Good s → Good s'.
Proof. intros E1 E2 E3 E4 E5 []. constructor; rewrite ?E1, ?E2, ?E3, ?E4, ?E5; auto. Qed.

Lemma Good_post_narrated c e s : Good s → Good (post_narrated x c e s).
Proof. unfold post_narrated. destruct (narrated x c); [by apply (Good_same s)|done]. Qed.

Lemma Good_create_cell c ph s :
  Good s → is_Some (s_created s !! c) → ph ≠ CFailed → Good (create_cell c ph s).
Proof.
  intros [] Hc Hph. constructor; simpl; auto.
  - intros c'. destruct (decide (c = c')) as [->|]; simplify_map_eq; [congruence|auto].
  - intros Hn. rewrite dom_insert_lookup_L by done. auto.
Qed.

Lemma Good_ready_cell c ph s : Good s → ready_good c ph → Good (ready_cell c ph s).
Proof. intros [] Hc. constructor; simpl; auto. by apply map_Forall_insert_2. Qed.

Lemma Good_main m s : Good s → main_good m → Good (with_main m s).
Proof. intros [] Hm. by constructor. Qed.

Lemma setup_enter_good c k s s' nx :
  Good s → setup_enter x c k s = (s', nx) →
  Good s' ∧ match nx with SetupDone => True | SetupAt j => j < commands x c | SetupBroken _ => False end.
Proof using Hwf.
  intros H. unfold setup_enter. destruct (setup_commands x c !! k) as [command|] eqn:E.
  - pose proof (wf_run_in x Hwf c command) as Hin.
    rewrite bool_decide_eq_true_2 by (apply Hin; by eapply list_elem_of_lookup_2).
    intros [= <- <-]. split; [by apply (Good_same s)|]. by eapply lookup_lt_Some.
  - intros [= <- <-]. split; [|done]. case_bool_decide; [done|by apply (Good_same s)].
Qed.

Lemma Good_enter_dependency c k s :
  Good s → c ∈ dom (x_graph x) → c ≠ x_root x → Good (enter_dependency_setup x c k s).
Proof using Hwf.
  intros H Hc Hr. unfold enter_dependency_setup. destruct (setup_enter x c k s) as [s1 nx] eqn:E.
  apply setup_enter_good in E as [H1 Hnx]; [|done]. destruct nx; [| |done].
  - apply (Good_same (ready_cell c RReady s1)); [done..|]. by apply Good_ready_cell.
  - by apply Good_ready_cell.
Qed.

Lemma Good_enter_main k s : Good s → Good (enter_main_setup x k s).
Proof using Hwf.
  intros H. unfold enter_main_setup. destruct (setup_enter x (x_root x) k s) as [s1 nx] eqn:E.
  apply setup_enter_good in E as [H1 Hnx]; [|done]. destruct nx; [| |done]; by apply Good_main.
Qed.

Lemma gate_of_good c g s :
  Good s → gate_of x c s = Some g → gate_good c g ∧ (c = x_root x ∨ c ∈ dom (x_graph x)).
Proof.
  intros H. unfold gate_of. destruct (decide (c = x_root x)) as [->|Hn].
  - pose proof (good_main _ _ H) as Hm. destruct (s_main s) as [|[] []]; try done.
    intros [= ->]. split; [done|by left].
  - destruct (s_ready s !! c) as [ph|] eqn:E; [|done]. destruct ph; try done. intros [= ->].
    destruct (good_ready _ _ H c _ E) as (? & _ & ?). split; [done|by right].
Qed.

Lemma Good_gate_enter c g k s : Good s → gate_of x c s = Some g → Good (gate_enter x c k s).
Proof using Hwf.
  intros H Hg. pose proof (gate_of_good _ _ _ H Hg) as [_ Hc]. unfold gate_enter.
  destruct (decide (c = x_root x)); [by apply Good_enter_main|].
  apply Good_enter_dependency; [done| |done]. by destruct Hc.
Qed.

Lemma Good_set_gate c g g' s :
  Good s → gate_of x c s = Some g → gate_good c g' → Good (set_gate x c g' s).
Proof.
  intros H Hg Hg'. pose proof (gate_of_good _ _ _ H Hg) as [_ Hc]. unfold set_gate.
  destruct (decide (c = x_root x)) as [->|]; [by apply Good_main|].
  apply Good_ready_cell; [done|]. split_and!; [by destruct Hc|done|done].
Qed.

(** An event leaves the run without an outcome, or gives it one: its own command's
    success where only good events happen. *)
Definition Ended (s : state) : Prop :=
  ∃ o, s_outcome s = Some o ∧ (strict = true → o.1 = Ok tt).

Lemma Ended_failed r s : s_outcome s = None → (strict = true → r = Ok tt) → Ended (finish r s).
Proof. intros Ho Hr. unfold Ended, finish. rewrite Ho. simpl. eauto. Qed.

Lemma Good_gate_failed c g e s :
  strict = false → s_outcome s = None → Good s → gate_of x c s = Some g →
  Ended (gate_failed x c e s) ∨ Good (gate_failed x c e s).
Proof.
  intros Hs Ho H Hg. unfold gate_failed. destruct (decide (c = x_root x)).
  - right. by apply Good_main.
  - left. apply Ended_failed; [done|congruence].
Qed.

Lemma Ended_err e s : strict = false → s_outcome s = None → Ended (finish (Err e) s).
Proof using Type. intros Hs Ho. apply Ended_failed; [done|congruence]. Qed.

(** An answer that is not the good one is not allowed where only those are. *)
Lemma not_strict (P : Prop) : (strict = true → P) → ¬ P → strict = false.
Proof using Type. destruct strict; [|done]. intros HP HnP. by destruct (HnP (HP eq_refl)). Qed.

#[local] Ltac lenient He := apply (not_strict _ He); simpl; solve [congruence | naive_solver].

Lemma outcome_post_narrated c e s : s_outcome (post_narrated x c e s) = s_outcome s.
Proof using Type. unfold post_narrated. by destruct (narrated x c). Qed.

Lemma is_created_cell c e s : is_Some (s_created s !! c) → is_Some (s_created (post_narrated x c e s) !! c).
Proof using Type. unfold post_narrated. by destruct (narrated x c). Qed.

Lemma network_answered_kept answer s s' :
  (strict = true → answer = Ok true) → s_outcome s = None → Good s →
  network_answered x answer s = Some s' → Ended s' ∨ Good s'.
Proof using Type.
  intros He Ho H Hs. unfold network_answered in Hs. destruct (decide _) as [Hn|]; [|done].
  assert (∀ n, Good (network_ready x n s)) as Hready.
  { intros n. destruct H. constructor; simpl; auto.
    - intros c [_ E]%lookup_gset_to_gmap_Some. done.
    - intros _. apply dom_gset_to_gmap. }
  destruct (x_existing_network x), answer as [[]|]; injection Hs as <-;
    solve [auto | left; apply Ended_err; [lenient He|done]].
Qed.

Lemma create_failed_kept c e s : strict = false → s_outcome s = None → Ended (create_failed x c e s).
Proof using Type. intros. unfold create_failed. by apply Ended_err. Qed.

Lemma create_event_kept e s s' :
  match e with
  | ImageResolved _ | PrepareFailed _ _ | CreateRequested _ | CreateAnswered _ _ | IdentityApplied _ _ => True
  | _ => False
  end → allowed strict e → s_outcome s = None → Good s → handle x e s = Some s' → Ended s' ∨ Good s'.
Proof using Type.
  intros Hevent He Ho H Hs. destruct e; try done; simpl in Hs; try (rewrite decide_True in Hs by done).
  - right. unfold image_resolved in Hs. repeat case_match; simplify_eq. by apply Good_create_cell; eauto.
  - left. unfold prepare_failed in Hs.
    assert (strict = false) as Hstrict by lenient He.
    by repeat case_match; simplify_eq; apply Ended_err.
  - right. unfold create_requested in Hs.
    destruct (s_created s !! container) as [ph|] eqn:E; [|done]. destruct ph; try done.
    destruct (_ && _); [|done]. injection Hs as <-.
    set (s1 := post_narrated x container (ContainerCreating container) (take_permit s)).
    apply (Good_same (create_cell container CRequested s1)); [done..|].
    apply Good_create_cell; [|by apply is_created_cell; simpl; eauto|done].
    apply Good_post_narrated. by apply (Good_same s).
  - unfold create_answered in Hs.
    destruct (s_created s !! container) as [ph|] eqn:E; [|done]. destruct ph; try done.
    injection Hs as <-. destruct answer as [id|[[id|] e]].
    + right. apply Good_create_cell; [by apply (Good_same s)|simpl; eauto|done].
    + left. apply create_failed_kept; [|done]. lenient He.
    + left. apply create_failed_kept; [|done]. lenient He.
  - unfold identity_applied in Hs.
    destruct (s_created s !! container) as [ph|] eqn:E; [|done]. destruct ph; try done.
    injection Hs as <-. destruct answer as [[]|e].
    + right. apply Good_create_cell; [|by apply is_created_cell; simpl; eauto|done].
      apply Good_post_narrated. by apply (Good_same s).
    + left. apply create_failed_kept; [|done]. lenient He.
Qed.

Lemma ready_called_kept c s s' : Good s → ready_called x c s = Some s' → Good s'.
Proof using Hwf.
  intros H Hs. unfold ready_called in Hs. destruct (_ && _) eqn:G; [|done]. injection Hs as <-.
  apply andb_prop in G as [G1 G]. apply andb_prop in G1 as [_ G1].
  assert (∃ p, depends p c) as [p Hp].
  { apply orb_prop in G1 as [G1|G1]; bool_to_prop; [by exists (x_root x)|].
    apply existsb_exists in G1 as (p & _ & G1). bool_to_prop. by exists p. }
  apply Good_ready_cell; [done|]. split; [by apply (depends_dom p)|].
  split; [|done]. intros ->. by apply (depends_not_root p).
Qed.

Lemma start_answered_kept c answer s s' :
  (strict = true → answer = Ok tt) → s_outcome s = None → Good s →
  start_answered x c answer s = Some s' → Ended s' ∨ Good s'.
Proof using Hwf.
  intros He Ho H Hs. unfold start_answered in Hs.
  destruct (s_ready s !! c) as [ph|] eqn:E; [|done]. destruct ph; try done.
  destruct (x_containers x !! c) as [con|]; [|done]. injection Hs as <-.
  destruct (good_ready _ _ H c _ E) as (Hc & Hr & _). destruct answer as [[]|e].
  2: { left. apply Ended_err; [lenient He|done]. }
  right. set (s1 := post_narrated x c (DependencyStarted c) _).
  assert (Good s1) as H1 by (apply Good_post_narrated; by apply (Good_same s)).
  destruct (default _ _); [by apply Good_ready_cell|].
  case_bool_decide; [by apply Good_ready_cell|]. by apply Good_enter_dependency.
Qed.

Lemma exit_answered_kept c answer s s' :
  (strict = true → answer = Ok 0%Z) → s_outcome s = None → Good s →
  exit_answered x c answer s = Some s' → Ended s' ∨ Good s'.
Proof using Type.
  intros He Ho H Hs. unfold exit_answered in Hs.
  destruct (s_ready s !! c) as [ph|] eqn:E; [|done]. destruct ph; try done.
  injection Hs as <-. destruct (good_ready _ _ H c _ E) as (Hc & Hr & _).
  assert (∀ e, Good (emit e (ready_cell c RReady s))) as Hready.
  { intros e. apply (Good_same (ready_cell c RReady s)); [done..|]. by apply Good_ready_cell. }
  destruct answer as [code|e].
  2: { left. apply Ended_err; [lenient He|done]. }
  destruct (Z.eqb_spec code 0) as [->|Hcode].
  { right. by destruct (reports_readiness_for x c). }
  assert (strict = false) as Hstrict by (lenient He).
  destruct (reports_readiness_for x c); [right; by apply Good_ready_cell|left; by apply Ended_err].
Qed.

Lemma start_event_kept e s s' :
  match e with
  | ReadyCalled _ | StartRequested _ | StartAnswered _ _ | ExitAnswered _ _ | OutputAnswered _ _ => True
  | _ => False
  end → allowed strict e → s_outcome s = None → Good s → handle x e s = Some s' → Ended s' ∨ Good s'.
Proof using Hwf.
  intros Hevent He Ho H Hs. destruct e; try done; simpl in Hs; rewrite decide_True in Hs by done.
  - right. by eapply ready_called_kept.
  - right. unfold start_requested in Hs.
    destruct (s_ready s !! container) as [ph|] eqn:E; [|done]. destruct ph; try done.
    destruct (_ && _); [|done]. injection Hs as <-.
    destruct (good_ready _ _ H container _ E) as (Hc & Hr & _).
    apply (Good_same (ready_cell container RStarting
      (post_narrated x container (DependencyStarting container) (take_permit s)))); [done..|].
    apply Good_ready_cell; [|done]. apply Good_post_narrated. by apply (Good_same s).
  - by eapply start_answered_kept.
  - by eapply exit_answered_kept.
  - left. unfold output_answered in Hs. destruct (s_ready s !! container) as [ph|]; [|done].
    destruct ph; try done. injection Hs as <-. apply Ended_err; [lenient He|done].
Qed.

Lemma gate_event_kept e s s' :
  match e with HealthAnswered _ _ | ExecRequested _ | ExecAnswered _ _ _ => True | _ => False end →
  allowed strict e → s_outcome s = None → Good s → handle x e s = Some s' → Ended s' ∨ Good s'.
Proof using Hwf.
  intros Hevent He Ho H Hs. destruct e; try done; simpl in Hs; rewrite decide_True in Hs by done.
  - unfold health_answered in Hs. destruct (gate_of x container s) as [[]|] eqn:E; try done.
    injection Hs as <-. destruct answer as [[]|e].
    + right. apply (Good_gate_enter container GHealth 0 (emit (Post (ContainerBecameHealthy container)) s));
        [by apply (Good_same s)|done].
    + eapply Good_gate_failed; [lenient He|done..].
  - right. unfold exec_requested in Hs. destruct (gate_of x container s) as [[|k|]|] eqn:E; try done.
    destruct (_ !! k) eqn:Ek; [|done]. destruct (has_permit x s); [|done]. injection Hs as <-.
    apply (Good_same (set_gate x container (GExec k) (take_permit s))); [done..|].
    apply (Good_set_gate container (GSetup k) (GExec k) (take_permit s));
      [by apply (Good_same s)|done|]. by eapply lookup_lt_Some.
  - unfold exec_answered in Hs.
    destruct (gate_of x container s) as [[| |k]|] eqn:E; try done;
      destruct (_ !! index) eqn:Ek; try done.
    destruct (decide _) as [<-|]; [|done]. injection Hs as <-.
    destruct (setup_verdict _ _ _ _) as [[]|e] eqn:Everdict.
    + right. apply (Good_gate_enter container (GExec index) (S index) (release_permit s));
        [by apply (Good_same s)|done].
    + assert (strict = false) as Hstrict by lenient He.
      by apply (Good_gate_failed container (GExec index)); [..|apply (Good_same s)|].
Qed.

Lemma run_answered_kept answer s s' :
  (strict = true → answer = Ok tt) → s_outcome s = None → run_answered x answer s = Some s' → Ended s'.
Proof using Type.
  intros He Ho Hs. unfold run_answered in Hs. destruct answer as [[]|e].
  - by destruct (s_main s) as [|[] []]; simplify_eq; apply Ended_failed.
  - assert (strict = false) as Hstrict by lenient He.
    by destruct (s_main s) as [|[] []]; simplify_eq; apply Ended_err.
Qed.

Lemma main_event_kept e s s' :
  match e with
  | RunRequested | RunStarted | RunAnswered _ | InspectAnswered _ | GraceExpired => True
  | _ => False
  end → allowed strict e → s_outcome s = None → Good s → handle x e s = Some s' → Ended s' ∨ Good s'.
Proof using Type.
  intros Hevent He Ho H Hs. pose proof (good_main _ _ H) as Hm.
  destruct e; try done; simpl in Hs; rewrite decide_True in Hs by done.
  - right. unfold run_requested in Hs. destruct (_ && _); [|done]. injection Hs as <-.
    apply (Good_same (with_main (MRun false (if x_readiness_gate x then MWaitStart else MPassed)) s));
      [done..|]. apply Good_main; [done|]. by destruct (x_readiness_gate x).
  - right. unfold run_started in Hs.
    destruct (s_main s) as [|[] gate] eqn:Em; try done. injection Hs as <-.
    eapply (Good_same (with_main _ s)); [done..|]. apply Good_main; [done|]. by destruct gate.
  - left. by eapply run_answered_kept.
  - right. unfold inspect_answered in Hs. destruct (s_main s) as [|[] []]; try done. injection Hs as <-.
    apply Good_main; [done|]. by destruct answer as [[]|].
  - left. unfold grace_expired in Hs.
    assert (strict = false) as Hstrict by lenient He.
    by destruct (s_main s) as [|[] []]; simplify_eq; apply Ended_err.
Qed.

Lemma Good_handle e s s' :
  allowed strict e → s_outcome s = None → Good s → handle x e s = Some s' → Ended s' ∨ Good s'.
Proof using Hwf.
  intros He Ho H Hs.
  destruct e; try (refine (create_event_kept _ s s' _ He Ho H Hs); exact I);
    try (refine (start_event_kept _ s s' _ He Ho H Hs); exact I);
    try (refine (gate_event_kept _ s s' _ He Ho H Hs); exact I);
    try (refine (main_event_kept _ s s' _ He Ho H Hs); exact I); simpl in Hs;
    try (rewrite decide_True in Hs by done).
  - by eapply network_answered_kept.
  - right. unfold watch_answered in Hs. destruct (decide _); [|done]. injection Hs as <-.
    by destruct answer; apply (Good_same s).
  - right. injection Hs as <-. by apply (Good_same s).
  - left. unfold interrupt_seen in Hs. destruct (is_interrupted _); [|done]. injection Hs as <-.
    apply Ended_err; [lenient He|done].
Qed.

(** ** Something can always happen next *)

Lemma step_log e s s' : handle x e (log_event e s) = Some s' → step x s e = Some s'.
Proof. done. Qed.

(** No request in flight leaves a permit free. *)
Lemma permit_free s :
  Permits x s → s_outcome s = None → in_flight s = 0 → has_permit x s = true.
Proof using Hwf.
  intros [H _] Ho E. unfold has_permit. pose proof (wf_parallelism x Hwf) as Hm.
  destruct (x_max_parallelism x) as [[|m]|]; [done| |done].
  apply bool_decide_eq_true. rewrite (H Ho), E. lia.
Qed.

(** The two cells of a state whose daemon answers have all come. *)
Definition create_settled (phase : create_phase) : Prop :=
  phase = CTarget ∨ ∃ id, phase = CCreated id.
Definition ready_settled (phase : ready_phase) : Prop :=
  phase = RWaiting ∨ phase = RReady ∨ ∃ k, phase = RGate (GSetup k).

Definition goes_on (s : state) : Prop :=
  ∃ e s', allowed strict e ∧ is_signal e = false ∧ step x s e = Some s'.

Lemma create_goes_on s c ph :
  Good s → s_outcome s = None → s_created s !! c = Some ph → c ∈ dom (x_graph x) →
  goes_on s ∨ create_settled ph.
Proof using Hwf.
  intros H Ho E Hc. destruct ph as [| | |id|id|].
  - left. exists (ImageResolved c). eexists. split_and!; [done|done|]. apply step_log. simpl.
    rewrite decide_True by done. unfold image_resolved. simpl. rewrite E.
    by destruct (dom_container c Hc) as [con ->].
  - right. by left.
  - left. exists (CreateAnswered c (Ok EmptyString)). eexists. split_and!; [done|done|]. apply step_log. simpl.
    unfold create_answered. simpl. by rewrite E.
  - left. exists (IdentityApplied c (Ok tt)). eexists. split_and!; [done|done|]. apply step_log. simpl.
    unfold identity_applied. simpl. by rewrite E.
  - right. right. eauto.
  - by destruct (good_created _ _ H c).
Qed.

Lemma gate_goes_on s c g :
  Good s → s_outcome s = None → gate_of x c s = Some g → goes_on s ∨ ∃ k, g = GSetup k.
Proof.
  intros H Ho Hg. destruct (gate_of_good _ _ _ H Hg) as [Hgood _].
  destruct g as [|k|k].
  - left. exists (HealthAnswered c (Ok tt)). eexists. split_and!; [done|done|]. apply step_log. simpl.
    rewrite decide_True by done. unfold health_answered.
    change (gate_of x c (log_event _ s)) with (gate_of x c s). by rewrite Hg.
  - right. eauto.
  - destruct (lookup_lt_is_Some_2 _ _ Hgood) as [command Ec].
    left. exists (ExecAnswered c k (Ok (0%Z, EmptyString))). eexists. split_and!; [by eexists|done|].
    apply step_log. simpl. rewrite decide_True by done. unfold exec_answered.
    change (gate_of x c (log_event _ s)) with (gate_of x c s). rewrite Hg.
    rewrite Ec. by rewrite decide_True.
Qed.

Lemma ready_goes_on s c ph :
  Good s → s_outcome s = None → s_ready s !! c = Some ph → goes_on s ∨ ready_settled ph.
Proof using Hwf.
  intros H Ho E. destruct (good_ready _ _ H c _ E) as (Hc & Hr & Hph).
  destruct (dom_container c Hc) as [con Econ].
  destruct ph as [| | |checked|g|]; [right; by left| | | | |right; right; by left].
  - left. exists (StartAnswered c (Ok tt)). eexists. split_and!; [done|done|]. apply step_log. simpl.
    rewrite decide_True by done. unfold start_answered. simpl. by rewrite E, Econ.
  - left. exists (ExitAnswered c (Ok 0%Z)). eexists. split_and!; [done|done|]. apply step_log. simpl.
    rewrite decide_True by done. unfold exit_answered. simpl. by rewrite E.
  - left. exists (OutputAnswered c (Ok EmptyString)). eexists. split_and!; [by rewrite Hph|done|].
    apply step_log. simpl. rewrite decide_True by done. unfold output_answered. simpl. by rewrite E.
  - assert (gate_of x c s = Some g) as Hg.
    { unfold gate_of. by rewrite decide_False, E by done. }
    destruct (gate_goes_on s c g H Ho Hg) as [|[k ->]]; [by left|]. right. right. right. eauto.
Qed.

(** A setup command only waits for its permit. *)
Lemma setup_goes_on s c k :
  Good s → s_outcome s = None → has_permit x s = true → gate_of x c s = Some (GSetup k) → goes_on s.
Proof.
  intros H Ho Hp Hg. destruct (gate_of_good _ _ _ H Hg) as [Hgood _].
  destruct (lookup_lt_is_Some_2 _ _ Hgood) as [command Ec].
  exists (ExecRequested c). eexists. split_and!; [done|done|]. apply step_log. simpl.
  rewrite decide_True by done. unfold exec_requested.
  change (gate_of x c (log_event _ s)) with (gate_of x c s). rewrite Hg.
  rewrite Ec. change (has_permit x (log_event _ s)) with (has_permit x s). by rewrite Hp.
Qed.

(** Every element goes on, or all of them have settled. *)
Lemma map_or {A} (P : Prop) (Q : string → A → Prop) (m : gmap string A) :
  (∀ k v, m !! k = Some v → P ∨ Q k v) → P ∨ map_Forall Q m.
Proof.
  induction m as [|k v m Hk IH] using map_ind; intros H; [right; apply map_Forall_empty|].
  destruct (H k v) as [|Hq]; [apply lookup_insert_eq|by left|].
  destruct IH as [|IH]; [|by left|right; by apply map_Forall_insert_2].
  intros k' v' E. apply H. rewrite lookup_insert_ne; [done|congruence].
Qed.

Lemma list_or {A} (P : Prop) (Q : A → Prop) (l : list A) :
  (∀ a, a ∈ l → P ∨ Q a) → P ∨ ∀ a, a ∈ l → Q a.
Proof.
  induction l as [|a l IH]; intros H; [right; intros a Ha; by apply not_elem_of_nil in Ha|].
  destruct (H a) as [|Ha]; [left|by left|]. destruct IH as [|IH]; [|by left|].
  - intros b Hb. apply H. by right.
  - right. intros b [->|Hb]%elem_of_cons; auto.
Qed.

#[local] Instance create_phase_eq_dec : EqDecision create_phase.
Proof. solve_decision. Defined.
#[local] Instance gate_phase_eq_dec : EqDecision gate_phase.
Proof. solve_decision. Defined.
#[local] Instance ready_phase_eq_dec : EqDecision ready_phase.
Proof. solve_decision. Defined.

Lemma settled_idle s :
  map_Forall (λ _, create_settled) (s_created s) → map_Forall (λ _, ready_settled) (s_ready s) →
  main_busy (s_main s) = 0 → in_flight s = 0.
Proof.
  intros Hc Hr Hm. unfold in_flight. rewrite Hm.
  rewrite (proj2 (count_busy_zero create_busy (s_created s))).
  2: { intros k v E. by destruct (Hc k v E) as [->|[id ->]]. }
  rewrite (proj2 (count_busy_zero ready_busy (s_ready s))); [done|].
  intros k v E. by destruct (Hr k v E) as [->|[->|[j ->]]].
Qed.

(** A dependency nobody has asked for yet can be. *)
Lemma called_goes_on s p d :
  s_outcome s = None → s_network s ≠ None → depends p d →
  p = x_root x ∨ is_Some (s_ready s !! p) → s_ready s !! d = None → goes_on s.
Proof.
  intros Ho Hn Hd Hp E. exists (ReadyCalled d). eexists. split_and!; [done|done|]. apply step_log. simpl.
  rewrite decide_True by done. unfold ready_called. simpl.
  rewrite bool_decide_eq_true_2 by done. rewrite (bool_decide_eq_true_2 (s_ready s !! d = None)) by done.
  replace (_ || _) with true; [done|]. symmetry. apply orb_true_intro.
  destruct Hp as [->|[ph Hp]]; [left; by apply bool_decide_eq_true|right].
  apply existsb_exists. exists p. split; [|by apply bool_decide_eq_true].
  apply list_elem_of_In, list_elem_of_fmap. exists (p, ph). split; [done|]. by apply elem_of_map_to_list.
Qed.

(** With every answer in and a permit free, each dependency of [p] is ready
    or something goes on. *)
Lemma dependencies_ready s p :
  Good s → s_outcome s = None → s_network s ≠ None → has_permit x s = true →
  map_Forall (λ _, ready_settled) (s_ready s) →
  p = x_root x ∨ is_Some (s_ready s !! p) →
  (∀ d, depends p d → s_ready s !! d ≠ Some RWaiting) →
  goes_on s ∨ forallb (is_ready s) (successors_of x p) = true.
Proof.
  intros H Ho Hn Hp Hr Hcalled Hw.
  destruct (list_or (goes_on s) (λ d, is_ready s d = true) (successors_of x p)) as [|Hall];
    [|by left|right].
  - intros d Hd. specialize (Hw d Hd). destruct (s_ready s !! d) as [ph|] eqn:E.
    2: { left. by apply (called_goes_on s p d). }
    destruct (Hr d ph E) as [->|[->|[k ->]]]; [done|right; unfold is_ready; by rewrite E|].
    left. apply (setup_goes_on s d k); [done..|]. destruct (good_ready _ _ H d _ E) as (_ & Hd' & _).
    unfold gate_of. by rewrite decide_False, E.
  - apply forallb_forall. intros d Hd%list_elem_of_In. by apply Hall.
Qed.

Lemma progress s :
  Inv x s → Permits x s → Good s → s_outcome s = None → goes_on s.
Proof using Hwf.
  intros Hi Hper H Ho. destruct (decide (s_network s = None)) as [Hn|Hn].
  { exists (NetworkAnswered (Ok true)). destruct (x_existing_network x) as [n|] eqn:En;
      eexists; (split_and!; [done|done|]); apply step_log; simpl; rewrite decide_True by done;
      unfold network_answered; simpl; rewrite decide_True by done; by rewrite En. }
  assert (∀ c, is_Some (s_created s !! c) ↔ c ∈ dom (x_graph x)) as Hdom.
  { intros c. by rewrite <-(good_dom _ _ H Hn), elem_of_dom. }
  destruct (map_or (goes_on s) (λ _, create_settled) (s_created s)) as [|Hc]; [|done|].
  { intros c ph E. eapply create_goes_on; [done..|]. apply Hdom. eauto. }
  destruct (map_or (goes_on s) (λ _, ready_settled) (s_ready s)) as [|Hr]; [|done|].
  { intros c ph E. by eapply ready_goes_on. }
  assert (goes_on s ∨ s_main s = MIdle ∨ ∃ k, s_main s = MRun true (MAt (GSetup k))) as [|Hmain];
    [|done|].
  { pose proof (good_main _ _ H) as Hm. destruct (s_main s) as [|started gate] eqn:Em; [by right; left|].
    destruct started; destruct gate as [| |g|e|e|e]; try done.
    - left. exists (RunAnswered (Ok tt)). eexists. split_and!; [done|done|]. apply step_log. simpl.
      rewrite decide_True by done. unfold run_answered. simpl. by rewrite Em.
    - assert (gate_of x (x_root x) s = Some g) as Hg.
      { unfold gate_of. by rewrite decide_True, Em. }
      destruct (gate_goes_on s (x_root x) g H Ho Hg) as [|[k ->]]; [by left|]. right. right. eauto.
    - left. exists (InspectAnswered (Ok true)). eexists. split_and!; [by rewrite Hm|done|]. apply step_log. simpl.
      rewrite decide_True by done. unfold inspect_answered. simpl. by rewrite Em.
    - left. exists (RunAnswered (Ok tt)). eexists. split_and!; [done|done|]. apply step_log. simpl.
      rewrite decide_True by done. unfold run_answered. simpl. by rewrite Em.
    - left. exists GraceExpired. eexists. split_and!; [by rewrite Hm|done|]. apply step_log. simpl.
      rewrite decide_True by done. unfold grace_expired. simpl. by rewrite Em.
    - left. exists RunStarted. eexists. split_and!; [done|done|]. apply step_log. simpl.
      rewrite decide_True by done. unfold run_started. simpl. by rewrite Em.
    - left. exists RunStarted. eexists. split_and!; [done|done|]. apply step_log. simpl.
      rewrite decide_True by done. unfold run_started. simpl. by rewrite Em. }
  assert (has_permit x s = true) as Hfree.
  { apply permit_free; [done|done|]. apply settled_idle; [done|done|].
    by destruct Hmain as [->|[k ->]]. }
  destruct Hmain as [Hm|[k Hm]].
  2: { apply (setup_goes_on s (x_root x) k); [done..|]. unfold gate_of. by rewrite decide_True, Hm. }
  destruct (map_or (goes_on s) (λ _ ph, ∃ id, ph = CCreated id) (s_created s)) as [|Hcreated]; [|done|].
  { intros c ph E. destruct (Hc c ph E) as [->|]; [left|by right].
    destruct (least (λ c, s_created s !! c = Some CTarget) c _) as (c' & Hc' & E' & Hmin);
      [apply Hdom; eauto|done|].
    exists (CreateRequested c'). eexists. split_and!; [done|done|]. apply step_log. simpl.
    rewrite decide_True by done. unfold create_requested. simpl. rewrite E'.
    change (has_permit x (log_event _ s)) with (has_permit x s). rewrite Hfree, andb_true_r.
    destruct (network_target x c') as [target|] eqn:Et; [|done].
    pose proof (wf_target x Hwf c' target Et) as Hd.
    destruct (proj2 (Hdom target)) as [pt Ept]; [by apply (depends_dom c')|].
    unfold is_created. simpl. rewrite Ept.
    destruct (Hc target pt Ept) as [->|[id ->]]; [by destruct (Hmin target Hd)|done]. }
  destruct (map_or (goes_on s) (λ _ ph, ph = RReady) (s_ready s)) as [|Hready]; [|done|].
  { intros c ph E. destruct (Hr c ph E) as [->|[->|[k ->]]]; [left|by right|left].
    - destruct (good_ready _ _ H c _ E) as (Hcd & _ & _).
      destruct (least (λ c, s_ready s !! c = Some RWaiting) c _) as (c' & Hc' & E' & Hmin); [done..|].
      destruct (dependencies_ready s c') as [|Hall]; [done..|by right; eauto|done|done|].
      exists (StartRequested c'). eexists. split_and!; [done|done|]. apply step_log. simpl.
      rewrite decide_True by done. unfold start_requested. simpl. rewrite E'.
      change (has_permit x (log_event _ s)) with (has_permit x s).
      change (is_ready (log_event _ s)) with (is_ready s). rewrite Hall, Hfree, andb_true_r.
      destruct (proj2 (Hdom c') Hc') as [pc Epc]. unfold is_created. simpl. rewrite Epc.
      by destruct (Hcreated c' pc Epc) as [id ->].
    - destruct (good_ready _ _ H c _ E) as (_ & Hcr & _).
      apply (setup_goes_on s c k); [done..|]. unfold gate_of. by rewrite decide_False, E. }
  destruct (dependencies_ready s (x_root x)) as [|Hall]; [done..|by left| |done|].
  { intros d _ E. by apply Hready in E. }
  exists RunRequested. eexists. split_and!; [done|done|]. apply step_log. simpl.
  rewrite decide_True by done. unfold run_requested. simpl.
  change (is_ready (log_event _ s)) with (is_ready s). rewrite Hall, Hm.
  rewrite bool_decide_eq_true_2 by done. rewrite !andb_true_r.
  replace (forallb _ _) with true; [done|]. symmetry. apply forallb_forall.
  intros c Hcd%list_elem_of_In%elem_of_elements.
  destruct (proj2 (Hdom c) Hcd) as [pc Epc]. unfold is_created. simpl. rewrite Epc.
  by destruct (Hcreated c pc Epc) as [id ->].
Qed.

(** ** The end *)

Lemma begin_Good interrupts : Good (begin x interrupts).
Proof.
  unfold begin. constructor; destruct (x_existing_network x); simpl; auto; try done;
    apply map_Forall_empty.
Qed.

(** What is kept of a run: what holds of any, and that it is sound, or has ended. *)
Definition all_good (s : state) : Prop := Inv x s ∧ Permits x s ∧ Keys x s ∧ (Ended s ∨ Good s).

Lemma Ended_step e s s' : Ended s → step x s e = Some s' → Ended s'.
Proof using Type.
  intros (o & Ho & Hok) Hs. exists o. split; [|done].
  assert (s_outcome (log_event e s) = Some o) as Ho' by done. clear Ho. unfold step in Hs.
  revert Hs Ho'. generalize (log_event e s). clear s. intros s Hs Ho.
  destruct e; simpl in Hs; try (rewrite decide_False in Hs by (by rewrite Ho)); try done.
  - unfold create_answered in Hs. destruct (s_created s !! container) as [ph|]; [|done]. destruct ph; try done.
    injection Hs as <-. by destruct answer as [id|[[id|] e]]; simpl; unfold create_failed, finish; simpl; rewrite ?Ho.
  - unfold identity_applied in Hs. destruct (s_created s !! container) as [ph|]; [|done]. destruct ph; try done.
    injection Hs as <-. destruct answer as [[]|e].
    + cbn [create_cell with_created s_outcome]. by rewrite outcome_post_narrated.
    + by unfold create_failed, finish; simpl; rewrite ?Ho.
  - by injection Hs as <-.
Qed.

Lemma all_good_step e s s' : allowed strict e → all_good s → step x s e = Some s' → all_good s'.
Proof using Hwf.
  intros He (Hi & Hp & Hk & Hg) Hs. split_and!.
  - by eapply step_Inv.
  - by eapply Permits_step.
  - by eapply (handle_Keys x e (log_event e s)).
  - destruct Hg as [Hend|Hg]; [left; by eapply Ended_step|].
    apply (Good_handle e (log_event e s)); [done|by apply good_open in Hg|by apply (Good_same s)|done].
Qed.

Lemma all_good_run events : ∀ s s',
  Forall (allowed strict) events → all_good s → run_events x s events = Some s' → all_good s'.
Proof using Hwf.
  induction events as [|e events IH]; intros s s' Hgood H Hs; simpl in Hs; [by simplify_eq|].
  destruct (step x s e) as [s1|] eqn:E; [|done]. apply Forall_cons in Hgood as [He Hgood].
  eapply IH; [done| |done]. by eapply all_good_step.
Qed.

Lemma begin_all_good interrupts : all_good (begin x interrupts).
Proof using Hwf.
  split_and!.
  - apply begin_Inv.
  - split; [by unfold begin; destruct (x_existing_network x)|].
    intros m _. simpl. lia.
  - unfold Keys, begin. destruct (x_existing_network x); simpl; set_solver.
  - right. apply begin_Good.
Qed.

Lemma run_to_end s :
  all_good s → ∃ events s', Forall (λ e, allowed strict e ∧ is_signal e = false) events ∧
    run_events x s events = Some s' ∧ Ended s'.
Proof using Hwf.
  remember (measure x s) as m eqn:Em. revert s Em. induction m as [m IH] using lt_wf_ind.
  intros s -> Hs. destruct (proj2 (proj2 (proj2 Hs))) as [Hend|Hg].
  { exists [], s. split_and!; [constructor|done|done]. }
  destruct Hs as (Hi & Hp & Hk & _). destruct (progress s Hi Hp Hg (good_open _ _ Hg)) as (e & s1 & He & Hsig & E).
  destruct (step_lt x s e s1 Hi Hk E) as (Hlt & _). rewrite Hsig in Hlt.
  destruct (IH (measure x s1) ltac:(lia) s1 eq_refl) as (events & s' & Hall & Hrun & Hend).
  { eapply all_good_step; [done| |done]. split_and!; [done..|by right]. }
  exists (e :: events), s'. split_and!; [by constructor|simpl; by rewrite E|done].
Qed.
End liveness.

(** C5: A run ends, and nothing it waits for can deadlock.  Whatever the daemon
    answers and in whatever order, a run of a task takes at most as many steps,
    signals apart, as a number fixed before it starts: a few for each container of
    the graph, two for each setup command and a constant for the task's own.  For a task the loader lets through, and
    with any [--max-parallelism] of at least one, every state a run reaches, whatever has
    failed and whatever signals have come, can be continued without a signal to the run's
    outcome: no cycle of dependency gates, shared cells, [container:] targets and permits
    keeps it from there.  Where nothing has failed it can be continued, by answers that
    are not failures, to the task's own command exiting 0. *)
Theorem startup_live x interrupts events s :
  well_formed x → run_events x (begin x interrupts) events = Some s →
  length (filter (λ e, is_signal e = false) events) ≤ measure x (begin x interrupts) ∧
  (∃ more s', Forall (λ e, is_signal e = false) more ∧ run_events x s more = Some s' ∧ s_outcome s' ≠ None) ∧
  (Forall good events →
    ∃ more s' n, Forall good more ∧ run_events x s more = Some s' ∧ s_outcome s' = Some (Ok tt, n)).
Proof.
  intros Hwf Hrun. split; [by eapply startup_terminates|]. split.
  - destruct (run_to_end x Hwf false s) as (more & s' & Hall & Hmore & o & Ho & _).
    { eapply all_good_run; [done| |by apply begin_all_good|exact Hrun]. by apply Forall_true. }
    exists more, s'. split_and!; [|done|by rewrite Ho]. eapply Forall_impl; [exact Hall|]. by intros e [_ ?].
  - intros Hgood. destruct (run_to_end x Hwf true s) as (more & s' & Hall & Hmore & [o n] & Ho & Hok).
    { eapply all_good_run; [done| |by apply begin_all_good|exact Hrun].
      eapply Forall_impl; [exact Hgood|]. by intros e He _. }
    exists more, s', n. split_and!; [|done|by rewrite Ho, <-(Hok eq_refl)].
    eapply Forall_impl; [exact Hall|]. intros e [He _]. by apply He.
Qed.

Lemma example_well_formed : well_formed example_context.
Proof.
  constructor.
  - exists None. vm_compute. reflexivity.
  - intros c target. unfold network_target.
    change (x_containers example_context) with example_containers. unfold example_containers.
    destruct (decide (c = "app")) as [->|]; [by rewrite lookup_insert_eq|].
    destruct (decide (c = "db")) as [->|];
      [by rewrite lookup_insert_ne, lookup_singleton_eq by done|].
    by rewrite lookup_insert_ne, lookup_singleton_ne by done.
  - intros c command. unfold setup_commands.
    change (x_containers example_context) with example_containers. unfold example_containers.
    destruct (decide (c = "app")) as [->|]; [rewrite lookup_insert_eq; intros []%not_elem_of_nil|].
    destruct (decide (c = "db")) as [->|];
      [rewrite lookup_insert_ne, lookup_singleton_eq by done|].
    + intros ->%list_elem_of_singleton. by left.
    + rewrite lookup_insert_ne, lookup_singleton_ne by done. intros []%not_elem_of_nil.
  - done.
Qed.

(** The task's container failed its own health check: its run is still waited for. *)
Definition example_unhealthy : list event :=
  example_started ++
  [ CreateAnswered "app" (Ok "id-app"); HealthAnswered "db" (Ok tt); IdentityApplied "app" (Ok tt);
    ExecRequested "db"; ExecAnswered "db" 0 (Ok (0%Z, EmptyString)); RunRequested; RunStarted;
    Signalled Interrupt; HealthAnswered "app" (Err (Message "unhealthy")) ].

Lemma startup_live_witness :
  (∃ more s' n, Forall good more ∧
    run_events example_context (example_state example_started) more = Some s' ∧
    s_outcome s' = Some (Ok tt, n)) ∧
  s_outcome (example_state example_unhealthy) = None ∧
  length (filter (λ e, is_signal e = false) example_unhealthy) ≤
    measure example_context (begin example_context interrupts_new) ∧
  ∃ more s', Forall (λ e, is_signal e = false) more ∧
    run_events example_context (example_state example_unhealthy) more = Some s' ∧ s_outcome s' ≠ None.
Proof.
  split; [|split; [vm_compute; reflexivity|split]].
  - apply (startup_live example_context interrupts_new example_started).
    + exact example_well_formed.
    + apply example_run_events. vm_compute. discriminate.
    + repeat (apply Forall_cons_2; [vm_compute; try reflexivity; exact I|]). apply Forall_nil_2.
  - apply (startup_live example_context interrupts_new example_unhealthy (example_state example_unhealthy)).
    + exact example_well_formed.
    + apply example_run_events. vm_compute. discriminate.
  - apply (startup_live example_context interrupts_new example_unhealthy).
    + exact example_well_formed.
    + apply example_run_events. vm_compute. discriminate.
Defined.
