(* ===== verification/Cleanup.v ===== *)
(** * Cleanup: what a run leaves, and how it ends

    The second half of [run_task_internal] ([ratect-core/src/engine.rs]),
    from the run's result to the task's: whether cleanup runs, the graceful
    stops in reverse dependency order, the ladder a signal climbs (force, then
    abandon), the network, the report of what is left behind
    ([LeftBehind]) and what replaces what in the result.  The daemon's
    answers and the signals are the events of a state machine, as in
    [Startup]; the cancels of abandoned builds are left out. *)

From S2P Require Import Prelude Text Collections Values Config DependencyGraph Outcome.
From stdpp Require Import options.

(** ** What cleanup is given *)

Record cleanup_input := mk_cleanup_input {
  ci_task : string;
  ci_run_id : string;
  ci_root : string;
  ci_graph : graph;
  ci_containers : gmap string Container;
  ci_created : gmap string string;
  ci_started : gset string;
  ci_network : option string;
  ci_existing_network : bool;
  ci_top_level : bool;
  ci_cleanup_after_success : bool;
  ci_cleanup_after_failure : bool;
  ci_result : result () error;
  ci_baseline : nat;
}.

(** ** The run's result, classified *)

(** The code of a task's own container that ran to an end. *)
Definition ran_to (r : result () error) : option Z :=
  match r with
  | Ok _ => Some 0%Z
  | Err e => downcast as_exited e
  end.

Definition interrupted_by (r : result () error) : option TerminationSignal :=
  match r with
  | Ok _ => None
  | Err e => downcast as_interrupted e
  end.

Definition stdout_closed (r : result () error) : bool :=
  match r with
  | Ok _ => false
  | Err e => err_is as_stdout_closed e
  end.

Definition should_cleanup (i : cleanup_input) : bool :=
  match ran_to (ci_result i) with
  | Some _ => ci_cleanup_after_success i || negb (ci_top_level i)
  | None => ci_cleanup_after_failure i
  end.

(** An infrastructure failure is reported before cleanup, and marked so; the
    report of one that left a container worth a look ends with the hint to
    keep it. *)
Definition reported_result (r : result () error) : result () error :=
  match r with
  | Err e =>
      if bool_decide (ran_to r = None) && negb (already_reported e) then Err (FailureReported e) else r
  | Ok _ => r
  end.

Inductive CleanupEvent :=
| RunEnded (task : string)
| ErrorReported (e : error) (rerun_hint : bool)
| ErrorMessage (message : string)
| Notice (message : string)
| CleanupStarting (cause : option CleanupCause)
| ContainerStopped (container : string)
| ContainerRemoved (container : string)
| RemovingNetwork
| NetworkRemoved
| CleanupFinished
| TaskFinished (task : string) (exit_code : Z)
| TaskFailed (task : string).

Definition failure_report (i : cleanup_input) : list CleanupEvent :=
  match ci_result i with
  | Err e =>
      if bool_decide (ran_to (ci_result i) = None) && negb (already_reported e)
      then [ErrorReported e (ci_cleanup_after_failure i && is_not_ready e)]
      else []
  | Ok _ => []
  end.

Definition ended_notice (i : cleanup_input) : list CleanupEvent :=
  match interrupted_by (ci_result i) with
  | Some signal =>
      [Notice (if should_cleanup i then
          ended_run signal +:+ "; cleaning up. " +:+ send_again signal +:+
          " to force-remove what's left, and Ctrl+C after that to stop cleaning up."
        else ended_run signal +:+ "; not cleaning up.")]
  | None =>
      if stdout_closed (ci_result i) then
        [Notice (if should_cleanup i then
            "Stdout closed; cleaning up. Press Ctrl+C to force-remove what's left, " +:+
            "and Ctrl+C after that to stop cleaning up."
          else "Stdout closed; not cleaning up.")]
      else []
  end.

Definition cleanup_cause (i : cleanup_input) : option CleanupCause :=
  if bool_decide (interrupted_by (ci_result i) ≠ None) || stdout_closed (ci_result i) then None
  else match ran_to (ci_result i) with
       | Some code => if (code =? 0)%Z then None else Some (Exited (ci_task i) code)
       | None =>
           match reported_result (ci_result i) with
           | Err e => Some (default (TaskFailedCause (ci_task i)) (failed_step e))
           | Ok _ => Some (TaskFailedCause (ci_task i))
           end
       end.

Definition owns_network (i : cleanup_input) : option string :=
  if ci_existing_network i then None else ci_network i.

(** ** What is left behind *)

Record LeftBehind := mk_left_behind {
  lb_containers : list (string * string);
  lb_network : option string;
}.

Definition lb_is_empty (l : LeftBehind) : bool :=
  bool_decide (lb_containers l = []) && bool_decide (lb_network l = None).

(** [id.get(..12).unwrap_or(id)]. *)
Definition short_id (id : string) : string := of_chars (take 12 (chars id)).

Definition lb_list (l : LeftBehind) : string :=
  join ", " (((λ '(name, id), name +:+ " (" +:+ short_id id +:+ ")") <$> lb_containers l) ++
    match lb_network l with Some network => ["network " +:+ network] | None => [] end).

Definition lb_command (l : LeftBehind) : string :=
  join "; " ((if bool_decide (lb_containers l = []) then []
      else ["docker rm -f -v " +:+ join " " ((λ '(_, id), short_id id) <$> lb_containers l)]) ++
    match lb_network l with Some network => ["docker network rm " +:+ network] | None => [] end).

Definition failure_message (l : LeftBehind) (abandoned : bool) (refusals : list string) : string :=
  let what :=
    if abandoned then
      if bool_decide (refusals = []) then "Cleanup abandoned"
      else "Cleanup abandoned after failing: " +:+ join "; " refusals
    else "Cleanup failed: " +:+ join "; " refusals in
  if lb_is_empty l then what +:+ ". Nothing is known to be left behind."
  else what +:+ "; left behind: " +:+ lb_list l +:+ ". Remove with: " +:+ lb_command l.

Definition investigation (name id : string) (running : bool) : string :=
  let id := short_id id in
  "Investigate " +:+ name +:+ " with: docker logs " +:+ id +:+ ", or " +:+
  (if running then EmptyString else "docker start " +:+ id +:+ "; ") +:+
  "docker exec -it " +:+ id +:+ " <command>".

(** ** The removals *)

Record removal := mk_removal {
  rm_name : string;
  rm_id : string;
  rm_narrate : bool;
  rm_started : bool;
  rm_is_task_container : bool;
}.

(** The task's own container first, the rest by name. *)
Definition created_names (i : cleanup_input) : list string :=
  let names := sort_strings (map_to_list (ci_created i)).*1 in
  filter (λ name, name = ci_root i) names ++ filter (λ name, name ≠ ci_root i) names.

Definition removal_of (i : cleanup_input) (name : string) : option removal :=
  (λ id, mk_removal name id
      (bool_decide (name = ci_root i) || is_narrated (ci_containers i) name)
      (bool_decide (name ∈ ci_started i)) (bool_decide (name = ci_root i)))
    <$> ci_created i !! name.

Definition removals (i : cleanup_input) : list removal := omap (removal_of i) (created_names i).

Definition to_remove (i : cleanup_input) : list (string * string) :=
  (λ r, (rm_name r, rm_id r)) <$> removals i.

(** ** The machine *)

Inductive caction :=
| CPost (e : CleanupEvent)
| Stop (container : string) (signal : option string) (grace : option N)
| ForceRemove (container : string)
| RemoveNetwork (network : string).

Inductive cevent :=
| StopSucceeded (container : string)
| StopAnswered (container : string) (answer : result () string)
| EscalationSeen
| Drained
| ForcedAnswered (container : string) (answer : result () string)
| NetworkRemovalAnswered (answer : result () string)
| RungSeen
| AbandonSeen
| CSignalled (signal : TerminationSignal).

Inductive centry := CIn (e : cevent) | COut (a : caction).

(** The graceful stops, the stops that finished in the same instant, the
    forced removals, the network (with the abandon rung's baseline, once a
    signal has set it), and the end. *)
Inductive cphase :=
| PStopping
| PDraining
| PForcing (sigints : nat)
| PNetwork (sigints : option nat)
| PDone.

Record cstate := mk_cstate {
  k_phase : cphase;
  k_waiting : gmap string (gset string);
  k_queued : list removal;
  k_in_flight : list removal;
  k_stopped : gset string;
  k_removed : gset string;
  k_refusals : list string;
  k_failed : bool;
  k_abandoned : bool;
  k_network_removed : bool;
  k_interrupts : Interrupts;
  k_log : list centry;
}.


Definition set_phase v (s : cstate) : cstate :=
  mk_cstate v (k_waiting s) (k_queued s) (k_in_flight s) (k_stopped s) (k_removed s)
    (k_refusals s) (k_failed s) (k_abandoned s) (k_network_removed s) (k_interrupts s)
    (k_log s).
Definition set_waiting v (s : cstate) : cstate :=
  mk_cstate (k_phase s) v (k_queued s) (k_in_flight s) (k_stopped s) (k_removed s)
    (k_refusals s) (k_failed s) (k_abandoned s) (k_network_removed s) (k_interrupts s)
    (k_log s).
Definition set_queued v (s : cstate) : cstate :=
  mk_cstate (k_phase s) (k_waiting s) v (k_in_flight s) (k_stopped s) (k_removed s)
    (k_refusals s) (k_failed s) (k_abandoned s) (k_network_removed s) (k_interrupts s)
    (k_log s).
Definition set_in_flight v (s : cstate) : cstate :=
  mk_cstate (k_phase s) (k_waiting s) (k_queued s) v (k_stopped s) (k_removed s) (k_refusals s)
    (k_failed s) (k_abandoned s) (k_network_removed s) (k_interrupts s) (k_log s).
Definition set_stopped v (s : cstate) : cstate :=
  mk_cstate (k_phase s) (k_waiting s) (k_queued s) (k_in_flight s) v (k_removed s)
    (k_refusals s) (k_failed s) (k_abandoned s) (k_network_removed s) (k_interrupts s)
    (k_log s).
Definition set_removed v (s : cstate) : cstate :=
  mk_cstate (k_phase s) (k_waiting s) (k_queued s) (k_in_flight s) (k_stopped s) v
    (k_refusals s) (k_failed s) (k_abandoned s) (k_network_removed s) (k_interrupts s)
    (k_log s).
Definition set_refusals v (s : cstate) : cstate :=
  mk_cstate (k_phase s) (k_waiting s) (k_queued s) (k_in_flight s) (k_stopped s) (k_removed s)
    v (k_failed s) (k_abandoned s) (k_network_removed s) (k_interrupts s) (k_log s).
Definition set_failed v (s : cstate) : cstate :=
  mk_cstate (k_phase s) (k_waiting s) (k_queued s) (k_in_flight s) (k_stopped s) (k_removed s)
    (k_refusals s) v (k_abandoned s) (k_network_removed s) (k_interrupts s) (k_log s).
Definition set_abandoned v (s : cstate) : cstate :=
  mk_cstate (k_phase s) (k_waiting s) (k_queued s) (k_in_flight s) (k_stopped s) (k_removed s)
    (k_refusals s) (k_failed s) v (k_network_removed s) (k_interrupts s) (k_log s).
Definition set_network_removed v (s : cstate) : cstate :=
  mk_cstate (k_phase s) (k_waiting s) (k_queued s) (k_in_flight s) (k_stopped s) (k_removed s)
    (k_refusals s) (k_failed s) (k_abandoned s) v (k_interrupts s) (k_log s).
Definition set_interrupts v (s : cstate) : cstate :=
  mk_cstate (k_phase s) (k_waiting s) (k_queued s) (k_in_flight s) (k_stopped s) (k_removed s)
    (k_refusals s) (k_failed s) (k_abandoned s) (k_network_removed s) v (k_log s).
Definition set_log v (s : cstate) : cstate :=
  mk_cstate (k_phase s) (k_waiting s) (k_queued s) (k_in_flight s) (k_stopped s) (k_removed s)
    (k_refusals s) (k_failed s) (k_abandoned s) (k_network_removed s) (k_interrupts s) v.

Definition cemit (a : caction) (s : cstate) : cstate := set_log (COut a :: k_log s) s.

Section machine.
Context (i : cleanup_input).

Definition escalate_at : nat := S (ci_baseline i).
Definition escalated (s : cstate) : bool := bool_decide (escalate_at ≤ i_count (k_interrupts s)).

(** [report]: a confirmed removal, or the daemon's refusal. *)
Definition report (r : removal) (outcome : result () string) (s : cstate) : cstate :=
  match outcome with
  | Ok _ =>
      let s := set_removed ({[rm_id r]} ∪ k_removed s) s in
      if rm_narrate r then cemit (CPost (ContainerRemoved (rm_name r))) s else s
  | Err message => set_refusals (k_refusals s ++ [message]) (set_failed true s)
  end.

(** [in_flight.retain(..)]. *)
Definition forget (r : removal) (s : cstate) : cstate :=
  set_in_flight (filter (λ other, rm_id other ≠ rm_id r) (k_in_flight s)) s.

Definition request_stop (r : removal) (s : cstate) : cstate :=
  let c := ci_containers i !! rm_name r in
  cemit (Stop (rm_name r) (c ≫= c_stop_signal) (c ≫= c_stop_grace_period))
    (set_in_flight (k_in_flight s ++ [r]) s).

(** Every dependent it waited for has had its attempt. *)
Definition stop_ready (s : cstate) (r : removal) : bool :=
  match k_waiting s !! rm_name r with
  | Some dependents => bool_decide (dependents = ∅)
  | None => true
  end.

(** The head of the graceful loop, up to its wait: the ladder's first rung,
    the stops that are ready, and the end when none is in flight. *)
Definition loop_head (s : cstate) : cstate :=
  if escalated s then set_phase PDraining s
  else
    let ready := filter (λ r, stop_ready s r = true) (k_queued s) in
    let s := set_queued (filter (λ r, stop_ready s r ≠ true) (k_queued s)) s in
    let s := foldl (λ s r, request_stop r s) s ready in
    set_phase (if bool_decide (length (k_in_flight s) = 0) then PDraining else PStopping) s.

Definition find_removal (name : string) (l : list removal) : option removal :=
  snd <$> list_find (λ r, rm_name r = name) l.

(** A stop's own milestone, once, while its removal is under way. *)
Definition stop_succeeded (name : string) (s : cstate) : option cstate :=
  match k_phase s, find_removal name (k_in_flight s) with
  | (PStopping | PDraining), Some r =>
      if decide (name ∈ k_stopped s) then None
      else
        let s := set_stopped ({[name]} ∪ k_stopped s) s in
        Some (if rm_narrate r && rm_started r then cemit (CPost (ContainerStopped name)) s else s)
  | _, _ => None
  end.

Definition stop_answered (name : string) (answer : result () string) (s : cstate)
    : option cstate :=
  match k_phase s, find_removal name (k_in_flight s) with
  | PStopping, Some r =>
      let s := forget r (report r answer s) in
      Some (loop_head (set_waiting ((λ dependents, dependents ∖ {[name]}) <$> k_waiting s) s))
  | PDraining, Some r => Some (forget r (report r answer s))
  | _, _ => None
  end.

(** [until_interrupted(wait_for(escalate_at), next)] losing its race. *)
Definition escalation_seen (s : cstate) : option cstate :=
  match k_phase s with
  | PStopping => if escalated s then Some (set_phase PDraining s) else None
  | _ => None
  end.

Definition cleanup_done (s : cstate) : cstate :=
  set_phase PDone (if k_abandoned s then set_failed true s else s).

Definition network_stage (sigints : option nat) (s : cstate) : cstate :=
  match owns_network i with
  | Some network =>
      if k_abandoned s then cleanup_done s
      else set_phase (PNetwork sigints)
        (cemit (RemoveNetwork network) (cemit (CPost RemovingNetwork) s))
  | None => cleanup_done s
  end.

(** The stops in flight are dropped: what is left goes out at once. *)
Definition drained (s : cstate) : option cstate :=
  match k_phase s with
  | PDraining =>
      let left := k_in_flight s ++ k_queued s in
      Some
        (if bool_decide (length left = 0) then network_stage None s
         else
           let s := cemit (CPost (Notice (ended_run (last_signal (k_interrupts s)) +:+
             " during cleanup; force-removing what's left. Press Ctrl+C to stop cleaning up."))) s in
           let s := set_queued [] (set_in_flight left s) in
           set_phase (PForcing (i_interrupts (k_interrupts s)))
             (foldl (λ s r, cemit (ForceRemove (rm_name r)) s) s left))
  | _ => None
  end.

Definition forced_answered (name : string) (answer : result () string) (s : cstate)
    : option cstate :=
  match k_phase s, find_removal name (k_in_flight s) with
  | PForcing sigints, Some r =>
      let s := forget r (report r answer s) in
      Some (if bool_decide (length (k_in_flight s) = 0) then network_stage (Some sigints) s else s)
  | _, _ => None
  end.

Definition network_removal_answered (answer : result () string) (s : cstate) : option cstate :=
  match k_phase s with
  | PNetwork _ =>
      Some (cleanup_done
        match answer with
        | Ok _ => cemit (CPost NetworkRemoved) (set_network_removed true s)
        | Err message => set_refusals (k_refusals s ++ [message]) (set_failed true s)
        end)
  | _ => None
  end.

(** The abandon rung without an escalation is reached in two steps: whatever
    escalates, then a [SIGINT]. *)
Definition rung_seen (s : cstate) : option cstate :=
  match k_phase s with
  | PNetwork None =>
      if escalated s then Some (set_phase (PNetwork (Some (i_interrupts (k_interrupts s)))) s)
      else None
  | _ => None
  end.

Definition abandon_seen (s : cstate) : option cstate :=
  match k_phase s with
  | PForcing sigints =>
      if bool_decide (S sigints ≤ i_interrupts (k_interrupts s))
      then Some (network_stage (Some sigints) (set_abandoned true s)) else None
  | PNetwork (Some sigints) =>
      if bool_decide (S sigints ≤ i_interrupts (k_interrupts s))
      then Some (cleanup_done (set_abandoned true s)) else None
  | _ => None
  end.

Definition chandle (e : cevent) (s : cstate) : option cstate :=
  match e with
  | StopSucceeded name => stop_succeeded name s
  | StopAnswered name answer => stop_answered name answer s
  | EscalationSeen => escalation_seen s
  | Drained => drained s
  | ForcedAnswered name answer => forced_answered name answer s
  | NetworkRemovalAnswered answer => network_removal_answered answer s
  | RungSeen => rung_seen s
  | AbandonSeen => abandon_seen s
  | CSignalled signal => Some (set_interrupts (record_signal signal (k_interrupts s)) s)
  end.

Definition cstep (s : cstate) (e : cevent) : option cstate :=
  chandle e (set_log (CIn e :: k_log s) s).

Fixpoint crun (s : cstate) (events : list cevent) : option cstate :=
  match events with
  | [] => Some s
  | e :: events => cstep s e ≫= λ s, crun s events
  end.

Definition narrates_cleanup : bool :=
  bool_decide (ci_created i ≠ ∅) || bool_decide (owns_network i ≠ None).

(** Cleanup's first state, its loop's head already run. *)
Definition cleanup_start (interrupts : Interrupts) : cstate :=
  let waiting :=
    match dependents_to_stop_first (ci_graph i) (created_names i) with
    | Ok waiting => waiting
    | Err _ => ∅
    end in
  let log := if narrates_cleanup then [COut (CPost (CleanupStarting (cleanup_cause i)))] else [] in
  loop_head (mk_cstate PStopping waiting (removals i) [] ∅ ∅ [] false false false interrupts log).

(** ** What cleanup ends by saying, and the task's result *)

Definition left_behind (s : cstate) : LeftBehind :=
  mk_left_behind (filter (λ p, p.2 ∉ k_removed s) (to_remove i))
    (if k_network_removed s then None else owns_network i).

Definition closing_events (s : cstate) : list CleanupEvent :=
  (if narrates_cleanup then [CleanupFinished] else []) ++
  (if k_failed s then
     [ErrorMessage (failure_message (left_behind s) (k_abandoned s) (k_refusals s))]
   else if bool_decide (interrupted_by (ci_result i) ≠ None) then [Notice "Cleanup complete."]
   else []).

(** Without cleanup: what was kept, and how to look inside each container.
    [running] is the daemon's answer for each of the investigable ones. *)
Definition kept : LeftBehind := mk_left_behind (to_remove i) (owns_network i).

Definition investigable : list (string * string) :=
  let names := sort_strings (map_to_list (ci_created i)).*1 in
  omap (λ name,
      if bool_decide (name = ci_root i) || is_narrated (ci_containers i) name
      then pair name <$> ci_created i !! name else None) names.

Definition kept_notices (running : list bool) : list CleanupEvent :=
  if lb_is_empty kept then []
  else Notice ("Left in place (--no-cleanup): " +:+ lb_list kept +:+ ". Remove with: " +:+
      lb_command kept) ::
    imap (λ index p, Notice (investigation p.1 p.2 (default false (running !! index)))) investigable.

Definition final_result (cleanup_failed : bool) : result () error :=
  match reported_result (ci_result i) with
  | Ok _ => if cleanup_failed then Err (CleanupFailed (ci_task i) (ci_run_id i)) else Ok tt
  | r => r
  end.

Definition final_events (cleanup_failed : bool) : list CleanupEvent :=
  let cleanup_failure :=
    match final_result cleanup_failed with Err e => err_is as_cleanup_failed e | Ok _ => false end in
  match (if cleanup_failure then None else ran_to (ci_result i)) with
  | Some code => [TaskFinished (ci_task i) code]
  | None =>
      if bool_decide (interrupted_by (ci_result i) = None) && negb (stdout_closed (ci_result i))
      then [TaskFailed (ci_task i)] else []
  end.
End machine.
