(* ===== verification/CleanupOrder.v ===== *)
(** * CleanupOrder: cleanup reaches everything, in order

    For every sequence of [Cleanup]'s events, signals included: when a
    container may be stopped, that nothing registered is passed over, what the
    report of what is left behind lists, and how the ladder ends. *)

From S2P Require Import Prelude Text Collections Values Config DependencyGraph Outcome Cleanup.
From stdpp Require Import options.

(** ** The removals *)

Section removals_facts.
Context (i : cleanup_input).

Lemma elem_of_created_names n : n ∈ created_names i ↔ is_Some (ci_created i !! n).
Proof.
  unfold created_names. rewrite elem_of_app, !list_elem_of_filter, elem_of_sort_strings.
  transitivity (n ∈ (map_to_list (ci_created i)).*1); [destruct (decide (n = ci_root i)); tauto|].
  rewrite list_elem_of_fmap. split.
  - intros ([n' id] & -> & H%elem_of_map_to_list). eauto.
  - intros [id H]. exists (n, id). split; [done|]. by apply elem_of_map_to_list.
Qed.

Lemma created_names_NoDup : NoDup (created_names i).
Proof.
  assert (NoDup (sort_strings (map_to_list (ci_created i)).*1)) as H.
  { unfold sort_strings. rewrite merge_sort_Permutation. apply NoDup_fst_map_to_list. }
  unfold created_names. apply NoDup_app. split; [by apply NoDup_filter|].
  split; [|by apply NoDup_filter]. intros n [E _]%list_elem_of_filter [E' _]%list_elem_of_filter. done.
Qed.

Lemma removal_of_Some n r : removal_of i n = Some r → rm_name r = n ∧ ci_created i !! n = Some (rm_id r).
Proof. unfold removal_of. destruct (ci_created i !! n); [|done]. by intros [= <-]. Qed.

Lemma removals_names : rm_name <$> removals i = created_names i.
Proof.
  unfold removals. assert (∀ n, n ∈ created_names i → is_Some (ci_created i !! n)) as H.
  { intros n. by rewrite elem_of_created_names. }
  induction (created_names i) as [|n l IH]; csimpl; [done|].
  destruct (H n) as [id E]; [by left|]. unfold removal_of at 1. rewrite E. csimpl.
  f_equal. apply IH. intros n' Hn'. apply H. by right.
Qed.

Lemma removals_elem r : r ∈ removals i → ci_created i !! rm_name r = Some (rm_id r).
Proof.
  unfold removals. rewrite list_elem_of_omap. intros (n & _ & E). by destruct (removal_of_Some _ _ E) as [-> ?].
Qed.

Lemma removals_same_name r r' : r ∈ removals i → r' ∈ removals i → rm_name r = rm_name r' → r = r'.
Proof.
  unfold removals. rewrite !list_elem_of_omap. intros (n & _ & E) (n' & _ & E') Hn.
  destruct (removal_of_Some _ _ E) as [? _]. destruct (removal_of_Some _ _ E') as [? _].
  assert (n = n') as -> by congruence. congruence.
Qed.

Lemma to_remove_elem n id : (n, id) ∈ to_remove i ↔ ci_created i !! n = Some id.
Proof.
  unfold to_remove. rewrite list_elem_of_fmap. split.
  - intros (r & [= -> ->] & Hr). by apply removals_elem.
  - intros H. assert (n ∈ created_names i) as Hn by (rewrite elem_of_created_names; eauto).
    rewrite <-removals_names in Hn. apply list_elem_of_fmap in Hn as (r & -> & Hr).
    exists r. split; [|done]. f_equal. pose proof (removals_elem r Hr). congruence.
Qed.

Lemma to_remove_names : (to_remove i).*1 = created_names i.
Proof. unfold to_remove. by rewrite <-list_fmap_compose, <-removals_names. Qed.
End removals_facts.

Lemma find_removal_Some n l r : find_removal n l = Some r → r ∈ l ∧ rm_name r = n.
Proof.
  unfold find_removal. destruct (list_find _ l) as [[k r']|] eqn:E; simpl; [|done].
  intros [= ->]. apply list_find_Some in E as (E & ? & _). split; [by eapply list_elem_of_lookup_2|done].
Qed.

Lemma find_removal_elem n l : n ∈ rm_name <$> l → is_Some (find_removal n l).
Proof.
  intros (r & -> & Hr)%list_elem_of_fmap. unfold find_removal.
  destruct (list_find_elem_of (λ r', rm_name r' = rm_name r) l r Hr) as [[k r'] ->]; [done|].
  by eexists.
Qed.

(** ** The order, on the log *)

Definition stop_attempted (log : list centry) (n : string) : Prop :=
  ∃ answer, CIn (StopAnswered n answer) ∈ log.

Definition attempted (log : list centry) (n : string) : Prop :=
  stop_attempted log n ∨ ∃ answer, CIn (ForcedAnswered n answer) ∈ log.

Definition confirmed (log : list centry) (n : string) : Prop :=
  CIn (StopAnswered n (Ok tt)) ∈ log ∨ CIn (ForcedAnswered n (Ok tt)) ∈ log.

Definition in_order (i : cleanup_input) (a : caction) (log : list centry) : Prop :=
  match a with
  | Stop n _ _ =>
      (∀ s g, COut (Stop n s g) ∉ log) ∧ is_Some (ci_created i !! n) ∧
      ∀ d, is_Some (ci_created i !! d) → tc (succ (ci_graph i)) d n → stop_attempted log d
  | ForceRemove n => is_Some (ci_created i !! n) ∧ ¬ attempted log n
  | _ => True
  end.

Fixpoint in_order_log (i : cleanup_input) (log : list centry) : Prop :=
  match log with
  | [] => True
  | COut a :: log => in_order i a log ∧ in_order_log i log
  | CIn _ :: log => in_order_log i log
  end.

Lemma in_order_split i log newer older a :
  in_order_log i log → log = newer ++ COut a :: older → in_order i a older.
Proof.
  intros H ->. induction newer as [|[e|b] newer IH]; simpl in H; [apply H|by apply IH|].
  apply IH, H.
Qed.

(** The events of the two logs are the same. *)
Definition same_events (log log' : list centry) : Prop := ∀ e, CIn e ∈ log' ↔ CIn e ∈ log.

Lemma same_events_out a log : same_events log (COut a :: log).
Proof. intros e. rewrite elem_of_cons. naive_solver. Qed.

Lemma same_events_refl log : same_events log log.
Proof. by intros e. Qed.

Lemma same_events_trans l1 l2 l3 : same_events l1 l2 → same_events l2 l3 → same_events l1 l3.
Proof. intros H1 H2 e. by rewrite (H2 e), (H1 e). Qed.

Lemma attempted_same log log' n : same_events log log' → attempted log' n ↔ attempted log n.
Proof. unfold same_events. intros H. unfold attempted, stop_attempted. by setoid_rewrite H. Qed.
Lemma stop_attempted_same log log' n :
  same_events log log' → stop_attempted log' n ↔ stop_attempted log n.
Proof. unfold same_events. intros H. unfold stop_attempted. by setoid_rewrite H. Qed.
Lemma confirmed_same log log' n : same_events log log' → confirmed log' n ↔ confirmed log n.
Proof. unfold same_events. intros H. unfold confirmed. by rewrite !H. Qed.

(** ** The invariant *)

Section invariant.
Context (i : cleanup_input).

Definition pending (s : cstate) : list removal := k_queued s ++ k_in_flight s.

Record Core (s : cstate) : Prop := {
  core_known : ∀ r, r ∈ pending s → r ∈ removals i;
  core_nodup : NoDup (rm_name <$> pending s);
  core_split : ∀ n, is_Some (ci_created i !! n) →
    (n ∈ rm_name <$> pending s ↔ ¬ attempted (k_log s) n) ∧
    (n ∈ rm_name <$> pending s ∨ attempted (k_log s) n);
  core_fresh : ∀ n sg g, COut (Stop n sg g) ∈ k_log s → n ∉ rm_name <$> k_queued s;
  core_waiting : ∀ n, is_Some (ci_created i !! n) → ∃ w, k_waiting s !! n = Some w ∧
    ∀ d, is_Some (ci_created i !! d) → tc (succ (ci_graph i)) d n →
      d ∈ w ∨ stop_attempted (k_log s) d;
  core_order : in_order_log i (k_log s);
  core_removed : ∀ n id, ci_created i !! n = Some id →
    (id ∈ k_removed s ↔ confirmed (k_log s) n);
  core_failed : k_failed s = true ↔
    k_refusals s ≠ [] ∨ k_phase s = PDone ∧ k_abandoned s = true;
  core_confirmed : k_refusals s = [] → ∀ n, attempted (k_log s) n → confirmed (k_log s) n;
}.

(** What is waited for is still to be attempted: the loop's own property. *)
Definition Waits (s : cstate) : Prop :=
  ∀ n w d, k_waiting s !! n = Some w → d ∈ w →
    d ∈ rm_name <$> pending s ∧ tc (succ (ci_graph i)) d n.

Definition phase_holds (s : cstate) : Prop :=
  match k_phase s with
  | PStopping => Waits s ∧ k_in_flight s ≠ [] ∧ k_abandoned s = false
  | PDraining => (escalated i s = true ∨ pending s = []) ∧ k_abandoned s = false
  | PForcing _ => k_queued s = [] ∧ k_in_flight s ≠ [] ∧ k_abandoned s = false ∧ escalated i s = true
  | PNetwork sigints => pending s = [] ∧ k_abandoned s = false ∧ is_Some (owns_network i) ∧
      (sigints ≠ None → escalated i s = true)
  | PDone => (k_abandoned s = false → pending s = []) ∧
      (k_abandoned s = true → escalated i s = true) ∧
      (k_abandoned s = false → k_refusals s = [] → is_Some (owns_network i) →
        k_network_removed s = true)
  end.

(** *** Requesting stops *)

Lemma request_stops l s :
  NoDup (rm_name <$> l) → in_order_log i (k_log s) →
  (∀ r, r ∈ l → r ∈ removals i ∧ (∀ sg g, COut (Stop (rm_name r) sg g) ∉ k_log s) ∧
    ∀ d, is_Some (ci_created i !! d) → tc (succ (ci_graph i)) d (rm_name r) →
      stop_attempted (k_log s) d) →
  let s' := foldl (λ s r, request_stop i r s) s l in
  in_order_log i (k_log s') ∧ same_events (k_log s) (k_log s') ∧
  (∀ n sg g, COut (Stop n sg g) ∈ k_log s' → COut (Stop n sg g) ∈ k_log s ∨ n ∈ rm_name <$> l) ∧
  k_in_flight s' = k_in_flight s ++ l ∧ k_queued s' = k_queued s ∧ k_waiting s' = k_waiting s ∧
  k_removed s' = k_removed s ∧ k_refusals s' = k_refusals s ∧ k_failed s' = k_failed s ∧
  k_abandoned s' = k_abandoned s ∧ k_interrupts s' = k_interrupts s ∧ k_phase s' = k_phase s ∧
  (∀ n, COut (ForceRemove n) ∈ k_log s' ↔ COut (ForceRemove n) ∈ k_log s).
Proof.
  revert s. induction l as [|r l IH]; intros s Hnd Hord Hl; csimpl in *.
  { split_and!; try done; [auto|by rewrite app_nil_r]. }
  apply NoDup_cons in Hnd as [Hr Hnd].
  destruct (Hl r) as (Hrm & Hfresh & Hdeps); [by left|].
  destruct (IH (request_stop i r s)) as (H1 & H2 & H3 & H4 & H5 & H6 & H7 & H8 & H9 & H10 & H11 & H12 & H13).
  - done.
  - simpl. split; [|done]. split_and!; [done| |done].
    by rewrite (removals_elem i r Hrm).
  - intros r' Hr'. destruct (Hl r') as (H1 & H2 & H3); [by right|]. split; [done|]. split.
    + simpl. intros sg g [[= E _ _]|]%elem_of_cons; [|by eapply H2].
      apply Hr. rewrite <-E. by apply list_elem_of_fmap_2.
    + intros d Hd Hdep. simpl. rewrite stop_attempted_same by apply same_events_out. by apply H3.
  - split_and!; try done.
    + eapply same_events_trans; [|exact H2]. apply same_events_out.
    + intros n sg g [[[= -> _ _]|H]%elem_of_cons|H]%H3; [right; by left|by left|right; by right].
    + rewrite H4. simpl. by rewrite <-(assoc_L (++)).
    + intros n. rewrite H13. simpl. rewrite elem_of_cons. split; [by intros [[=]|]|by right].
Qed.

(** ** Acyclic graphs *)

Hypothesis Hacyclic : ∀ n, is_Some (ci_created i !! n) → ¬ tc (succ (ci_graph i)) n n.

(** Of the containers still waiting, one waits for none of the others. *)
Lemma some_ready (m : gmap string (gset string)) (l : list string) :
  l ≠ [] → (∀ n, n ∈ l → is_Some (ci_created i !! n)) →
  (∀ n w d, n ∈ l → m !! n = Some w → d ∈ w → d ∈ l ∧ tc (succ (ci_graph i)) d n) →
  (∀ n, n ∈ l → is_Some (m !! n)) →
  ∃ n, n ∈ l ∧ m !! n = Some ∅.
Proof using Hacyclic.
  intros Hl Hcr Hm Hsome.
  assert (∀ k path n, length l < k + length path → NoDup path → path ⊆ l → n ∈ l →
    (∀ p, p ∈ path → tc (succ (ci_graph i)) n p) → ∃ n, n ∈ l ∧ m !! n = Some ∅) as Hwalk.
  { induction k as [|k IH]; intros path n Hlen Hnd Hsub Hn Hp.
    { pose proof (submseteq_length _ _ (NoDup_submseteq _ _ Hnd Hsub)). lia. }
    destruct (Hsome n Hn) as [w Hw]. destruct (decide (w = ∅)) as [->|Hne]; [by exists n|].
    apply set_choose_L in Hne as [d Hd]. destruct (Hm n w d Hn Hw Hd) as [Hdl Hdn].
    apply (IH (n :: path) d); [simpl; lia| | |done|].
    - constructor; [|done]. intros Hin. by apply (Hacyclic n (Hcr n Hn)), Hp.
    - intros p [->|Hin]%elem_of_cons; [done|by apply Hsub].
    - intros p [->|Hin]%elem_of_cons; [done|]. eapply tc_transitive; [exact Hdn|by apply Hp]. }
  destruct l as [|n l]; [done|].
  apply (Hwalk (S (S (length l))) [] n); [simpl; lia|constructor|set_solver|by left|set_solver].
Qed.

(** *** The head of the graceful loop *)

Lemma filter_split (P : removal → Prop) `{∀ r, Decision (P r)} (l : list removal) :
  filter (λ r, ¬ P r) l ++ filter P l ≡ₚ l.
Proof.
  induction l as [|r l IH]; [done|]. rewrite !filter_cons.
  destruct (decide (P r)); destruct (decide (¬ P r)); try done; simpl.
  - by rewrite <-Permutation_middle, IH.
  - by rewrite IH.
Qed.

Lemma stop_ready_empty s r w :
  stop_ready s r = true → k_waiting s !! rm_name r = Some w → w = ∅.
Proof. unfold stop_ready. intros H Hw. rewrite Hw in H. by bool_to_prop. Qed.

Lemma stop_not_ready s r : stop_ready s r ≠ true → k_waiting s !! rm_name r ≠ Some ∅.
Proof.
  unfold stop_ready. intros H E. rewrite E in H. by rewrite bool_decide_eq_true_2 in H.
Qed.

(** The graceful loop only ends with stops left when it was escalated. *)
Lemma loop_head_spec s :
  Core s → Waits s → k_abandoned s = false → k_phase s ≠ PDone →
  Core (loop_head i s) ∧ phase_holds (loop_head i s) ∧ k_phase (loop_head i s) ≠ PDone.
Proof using Hacyclic.
  intros [H1 H2 H3 H4 H5 H6 H7 H8 H9] Hw Ha Hd. unfold loop_head.
  assert (k_failed s = true ↔ k_refusals s ≠ []) as Hf.
  { rewrite H8, Ha. split; [by intros [|[_ [=]]]|by left]. }
  destruct (escalated i s) eqn:Eesc.
  { split_and!; [constructor; simpl; try done|..]; simpl; auto.
    - rewrite Hf. split; [by left|by intros [|[]]].
    - split; [|done]. left. exact Eesc. }
  set (ready := filter (λ r, stop_ready s r = true) (k_queued s)).
  set (rest := filter (λ r, stop_ready s r ≠ true) (k_queued s)).
  assert (rest ++ ready ≡ₚ k_queued s) as Hperm by apply filter_split.
  assert (∀ r, r ∈ ready → r ∈ k_queued s ∧ stop_ready s r = true) as Hready.
  { intros r. unfold ready. rewrite list_elem_of_filter. tauto. }
  destruct (request_stops ready (set_queued rest s)) as
    (R1 & R2 & R3 & R4 & R5 & R6 & R7 & R8 & R9 & R10 & R11 & R12 & R13); [|done|..].
  { unfold pending in H2. rewrite fmap_app, <-Hperm, fmap_app in H2.
    apply NoDup_app in H2 as (H2 & _ & _). by apply NoDup_app in H2 as (_ & _ & H2). }
  { intros r [Hr Hst]%Hready. split; [apply H1; apply elem_of_app; by left|]. split.
    - intros sg g Hin%H4. apply Hin. by apply list_elem_of_fmap_2.
    - intros d Hdc Hdep. destruct (H5 (rm_name r)) as (w & Hwr & Hall).
      { rewrite (removals_elem i r); [by eexists|]. apply H1, elem_of_app. by left. }
      destruct (Hall d Hdc Hdep) as [Hin|]; [|done].
      rewrite (stop_ready_empty s r w Hst Hwr) in Hin. set_solver. }
  set (s2 := foldl _ _ ready) in *. simpl in *.
  assert (pending s2 ≡ₚ pending s) as Hpend.
  { unfold pending. rewrite R4, R5, <-Hperm, (Permutation_app_comm (k_in_flight s)).
    by rewrite (assoc_L (++)). }
  assert (∀ n, n ∈ rm_name <$> pending s2 ↔ n ∈ rm_name <$> pending s) as Hnames.
  { intros n. by rewrite Hpend. }
  split_and!.
  - constructor; unfold set_phase; simpl; try done.
    + intros r. change (r ∈ pending s2 → r ∈ removals i). rewrite Hpend. apply H1.
    + change (NoDup (rm_name <$> pending s2)). by rewrite Hpend.
    + intros n Hn. change ((n ∈ rm_name <$> pending s2 ↔ ¬ attempted (k_log s2) n) ∧
        (n ∈ rm_name <$> pending s2 ∨ attempted (k_log s2) n)).
      rewrite Hnames, (attempted_same _ _ n R2). by apply H3.
    + intros n sg g [Hin|Hin]%R3; rewrite R5.
      * apply H4 in Hin. intros Hin'. apply Hin. rewrite <-Hperm, fmap_app, elem_of_app. by left.
      * intros Hin'. unfold pending in H2. rewrite fmap_app, <-Hperm, fmap_app in H2.
        apply NoDup_app in H2 as (H2 & _ & _). apply NoDup_app in H2 as (_ & H2 & _). by apply (H2 n).
    + intros n Hn. destruct (H5 n Hn) as (w & Hwn & Hall). exists w. rewrite R6. split; [done|].
      intros d Hdc Hdep. rewrite (stop_attempted_same _ _ d R2). by apply Hall.
    + intros n id Hn. rewrite R7, (confirmed_same _ _ n R2). by apply H7.
    + rewrite R9, R8, R10, Ha, Hf. split; [by left|by intros [|[_ [=]]]].
    + rewrite R8. intros Hre n. rewrite (attempted_same _ _ n R2), (confirmed_same _ _ n R2). by apply H9.
  - unfold phase_holds. cbn [set_phase k_phase]. case_bool_decide as Hl.
    + split; [|by simpl; rewrite R10]. right. apply nil_length_inv in Hl.
      change (pending (set_phase PDraining s2)) with (pending s2).
      assert (ready = [] ∧ k_in_flight s = []) as [Er Ef].
      { rewrite R4 in Hl. apply app_eq_nil in Hl. tauto. }
      unfold pending. rewrite R5, Hl, app_nil_r.
      destruct (decide (rest = [])) as [|Hne]; [done|]. exfalso.
      rewrite Er, app_nil_r in Hperm.
      destruct (some_ready (k_waiting s) (rm_name <$> rest)) as (n & Hn & Hmn).
      * by destruct rest.
      * intros n (r & -> & Hr)%list_elem_of_fmap. rewrite (removals_elem i r); [by eexists|].
        apply H1, elem_of_app. left. by rewrite <-Hperm.
      * intros n w d Hn Hwn Hdw. destruct (Hw n w d Hwn Hdw) as [Hd1 Hd2]. split; [|done].
        unfold pending in Hd1. rewrite Ef, app_nil_r, <-Hperm in Hd1. done.
      * intros n (r & -> & Hr)%list_elem_of_fmap. destruct (H5 (rm_name r)) as (w & -> & _); [|by eexists].
        rewrite (removals_elem i r); [by eexists|]. apply H1, elem_of_app. left. by rewrite <-Hperm.
      * apply list_elem_of_fmap in Hn as (r & -> & Hr). unfold rest in Hr.
        apply list_elem_of_filter in Hr as [Hr _]. by apply (stop_not_ready s r).
    + split_and!.
      * intros n w d. change (k_waiting s2 !! n = Some w → d ∈ w →
          d ∈ rm_name <$> pending s2 ∧ tc (succ (ci_graph i)) d n). rewrite R6, Hnames. apply Hw.
      * intros E. apply Hl. simpl in E. by rewrite E.
      * by simpl; rewrite R10.
  - cbn [set_phase k_phase]. by case_bool_decide.
Qed.

(** *** Answers *)

Hypothesis Hids : ∀ n n' id,
  ci_created i !! n = Some id → ci_created i !! n' = Some id → n = n'.

Definition is_answer (e : cevent) : option string :=
  match e with StopAnswered n _ | ForcedAnswered n _ => Some n | _ => None end.

Definition log_cevent (e : cevent) (s : cstate) : cstate := set_log (CIn e :: k_log s) s.

Lemma answers_cons e log n :
  is_answer e = None →
  (attempted (CIn e :: log) n ↔ attempted log n) ∧
  (stop_attempted (CIn e :: log) n ↔ stop_attempted log n) ∧
  (confirmed (CIn e :: log) n ↔ confirmed log n).
Proof.
  intros He.
  assert (∀ e', is_answer e' ≠ None → CIn e' ∈ CIn e :: log → CIn e' ∈ log) as Hin.
  { intros e' He' [[= ->]|]%elem_of_cons; done. }
  split_and!.
  - split.
    + intros [[a H]|[a H]]; apply Hin in H; [|done| |done]; [left|right]; by exists a.
    + intros [[a H]|[a H]]; [left|right]; exists a; by right.
  - split; intros [a H]; exists a; [by apply Hin in H|by right].
  - split.
    + intros [H|H]; apply Hin in H; [|done| |done]; [by left|by right].
    + intros [H|H]; [left|right]; by right.
Qed.

Lemma Core_log_event e s : is_answer e = None → Core s → Core (log_cevent e s).
Proof.
  intros He [H1 H2 H3 H4 H5 H6 H7 H8 H9]. constructor; simpl; try done.
  - intros n Hn. destruct (answers_cons e (k_log s) n He) as (-> & _ & _). by apply H3.
  - intros n sg g [[=]|Hin]%elem_of_cons. by eapply H4.
  - intros n Hn. destruct (H5 n Hn) as (w & ? & Hall). exists w. split; [done|].
    intros d. destruct (answers_cons e (k_log s) d He) as (_ & -> & _). apply Hall.
  - intros n id Hn. destruct (answers_cons e (k_log s) n He) as (_ & _ & ->). by apply H7.
  - intros Hre n. destruct (answers_cons e (k_log s) n He) as (-> & _ & ->). by apply H9.
Qed.

Lemma report_frame r o s :
  k_queued (report r o s) = k_queued s ∧ k_in_flight (report r o s) = k_in_flight s ∧
  k_waiting (report r o s) = k_waiting s ∧ k_phase (report r o s) = k_phase s ∧
  k_abandoned (report r o s) = k_abandoned s ∧ k_interrupts (report r o s) = k_interrupts s ∧
  same_events (k_log s) (k_log (report r o s)) ∧
  (∀ a, COut a ∈ k_log (report r o s) → COut a ∈ k_log s ∨ ∃ e, a = CPost e) ∧
  (in_order_log i (k_log s) → in_order_log i (k_log (report r o s))).
Proof.
  unfold report. destruct o; [destruct (rm_narrate r)|]; simpl; split_and!; try done; auto;
    try apply same_events_out.
  intros a' [[= ->]|]%elem_of_cons; eauto.
Qed.

Lemma forget_names r s :
  (∀ r, r ∈ k_in_flight s → r ∈ removals i) → r ∈ k_in_flight s →
  ∀ r', r' ∈ k_in_flight (forget r s) ↔ r' ∈ k_in_flight s ∧ rm_name r' ≠ rm_name r.
Proof using Hids.
  intros Hk Hr r'. unfold forget. simpl. rewrite list_elem_of_filter.
  split; intros [Ha Hb].
  - split; [done|]. intros E. apply Ha. f_equal. by apply (removals_same_name i); auto.
  - split; [|done]. intros E. apply Hb. apply (Hids _ _ (rm_id r')); [by apply removals_elem, Hk|].
    rewrite E. by apply removals_elem, Hk.
Qed.

Lemma NoDup_fmap_filter (P : removal → Prop) `{∀ r, Decision (P r)} (l : list removal) :
  NoDup (rm_name <$> l) → NoDup (rm_name <$> filter P l).
Proof.
  induction l as [|r l IH]; [done|]. csimpl. intros [Hr Hnd]%NoDup_cons. rewrite filter_cons.
  destruct (decide (P r)); [|by apply IH]. csimpl. constructor; [|by apply IH].
  intros (r' & E & Hr')%list_elem_of_fmap. apply list_elem_of_filter in Hr' as [_ Hr'].
  apply Hr. rewrite E. by apply list_elem_of_fmap_2.
Qed.

(** The answer for a container in flight: confirmed or refused, and no longer
    pending. *)
Lemma Core_answer e n answer r s :
  e = StopAnswered n answer ∨ e = ForcedAnswered n answer →
  Core s → k_phase s ≠ PDone → find_removal n (k_in_flight s) = Some r →
  let s' := forget r (report r answer (log_cevent e s)) in
  Core s' ∧ (∀ n', n' ∈ rm_name <$> pending s' ↔ n' ∈ rm_name <$> pending s ∧ n' ≠ n) ∧
  k_queued s' = k_queued s ∧ k_phase s' = k_phase s ∧ k_abandoned s' = k_abandoned s ∧
  k_interrupts s' = k_interrupts s ∧ k_waiting s' = k_waiting s ∧
  (∀ d, stop_attempted (k_log s) d → stop_attempted (k_log s') d) ∧
  (e = StopAnswered n answer → stop_attempted (k_log s') n).
Proof using Hids.
  intros He [H1 H2 H3 H4 H5 H6 H7 H8 H9] Hph Hfind s'.
  apply find_removal_Some in Hfind as [Hr <-].
  destruct (report_frame r answer (log_cevent e s)) as (F1 & F2 & F3 & F4 & F5 & F6 & F7 & F8 & F9).
  set (s1 := report r answer (log_cevent e s)) in *. simpl in F1, F2, F3, F4, F5, F6, F7.
  assert (∀ r', r' ∈ k_in_flight s → r' ∈ removals i) as Hk.
  { intros r' Hr'. apply H1, elem_of_app. by right. }
  pose proof (removals_elem i r (Hk r Hr)) as Hid.
  assert (∀ r', r' ∈ k_in_flight s' ↔ r' ∈ k_in_flight s ∧ rm_name r' ≠ rm_name r) as Hfl.
  { intros r'. unfold s'. rewrite forget_names; rewrite F2; done. }
  assert (rm_name r ∉ rm_name <$> k_queued s) as Hnq.
  { unfold pending in H2. rewrite fmap_app in H2. apply NoDup_app in H2 as (_ & H2 & _).
    intros Hin. apply (H2 _ Hin). by apply list_elem_of_fmap_2. }
  assert (∀ n', n' ∈ rm_name <$> pending s' ↔ n' ∈ rm_name <$> pending s ∧ n' ≠ rm_name r) as Hnames.
  { intros n'. unfold pending. change (k_queued s') with (k_queued s1). rewrite F1.
    rewrite !fmap_app, !elem_of_app, !(list_elem_of_fmap rm_name (k_in_flight _)). split.
    - intros [Hq|(r' & -> & [Hr' Hne]%Hfl)]; [|by eauto].
      split; [by left|]. by intros ->.
    - intros [[Hq|(r' & -> & Hr')] Hne]; [by left|]. right. exists r'. split; [done|]. by apply Hfl. }
  assert (∀ n', attempted (k_log s') n' ↔ attempted (k_log s) n' ∨ n' = rm_name r) as Hatt.
  { intros n'. change (k_log s') with (k_log s1). rewrite (attempted_same _ _ n' F7).
    unfold attempted, stop_attempted. split.
    - intros [[a Ha]|[a Ha]]; apply elem_of_cons in Ha as [Ha|Ha]; try (left; eauto; fail);
        right; destruct He as [->| ->]; congruence.
    - intros [[[a Ha]|[a Ha]]| ->]; [left; exists a; by right|right; exists a; by right|].
      destruct He as [->| ->]; [left|right]; exists answer; by left. }
  assert (∀ d, stop_attempted (k_log s) d → stop_attempted (k_log s') d) as Hst.
  { intros d [a Ha]. exists a. apply F7. by right. }
  assert (∀ n' id', ci_created i !! n' = Some id' →
    (id' ∈ k_removed s' ↔ confirmed (k_log s') n')) as Hrem.
  { intros n' id' Hn'. change (k_removed s') with (k_removed s1). change (k_log s') with (k_log s1).
    rewrite (confirmed_same _ _ n' F7).
    assert (id' ∈ k_removed s1 ↔ id' ∈ k_removed s ∨ answer = Ok tt ∧ n' = rm_name r) as ->.
    { unfold s1, report. destruct answer as [[]|m].
      - assert (id' = rm_id r ↔ n' = rm_name r) as Hiff.
        { split; [intros ->; by apply (Hids _ _ (rm_id r))|intros ->; congruence]. }
        destruct (rm_narrate r); simpl; rewrite elem_of_union, elem_of_singleton; tauto.
      - simpl. split; [by left|by intros [|[[=] _]]]. }
    rewrite (H7 n' id' Hn'). unfold confirmed. split.
    - intros [[Hc|Hc]|[-> ->]]; [left; by right|right; by right|].
      destruct He as [->| ->]; [left|right]; by left.
    - intros [Hc|Hc]; apply elem_of_cons in Hc as [Hc|Hc]; [right|left; by left|right|left; by right];
        destruct He as [->| ->]; simplify_eq; done. }
  split; [|split_and!; try done].
  - constructor; try done.
    + intros r' Hr'. apply H1. unfold pending in *. change (k_queued s') with (k_queued s1) in Hr'.
      rewrite F1 in Hr'. apply elem_of_app in Hr' as [?|[Hr' _]%Hfl]; apply elem_of_app; auto.
    + unfold pending, s', forget. simpl. rewrite F1, F2.
      unfold pending in H2. rewrite fmap_app in H2 |- *. apply NoDup_app in H2 as (N1 & N2 & N3).
      apply NoDup_app. split; [done|]. split.
      * intros n' Hn' (r' & -> & Hr')%list_elem_of_fmap. apply (N2 _ Hn').
        apply list_elem_of_fmap_2. by apply list_elem_of_filter in Hr' as [_ ?].
      * by apply NoDup_fmap_filter.
    + intros n' Hn'. rewrite Hnames, Hatt. destruct (H3 n' Hn') as [H3a H3b].
      destruct (decide (n' = rm_name r)) as [->|Hne]; split; tauto.
    + intros n' sg g Hin. change (k_queued s') with (k_queued s1). rewrite F1.
      apply F8 in Hin as [Hin|[? [=]]]. apply elem_of_cons in Hin as [[=]|Hin]. by eapply H4.
    + intros n' Hn'. destruct (H5 n' Hn') as (w & Hw & Hall). exists w.
      change (k_waiting s') with (k_waiting s1). rewrite F3. split; [done|].
      intros d Hd Hdep. destruct (Hall d Hd Hdep); auto.
    + apply F9. exact H6.
    + change (k_failed s') with (k_failed s1). change (k_refusals s') with (k_refusals s1).
      change (k_phase s') with (k_phase s1). change (k_abandoned s') with (k_abandoned s1).
      rewrite F4, F5. unfold s1, report. destruct answer as [[]|m].
      * destruct (rm_narrate r); exact H8.
      * simpl. split; [|done]. intros _. left. by destruct (k_refusals s).
    + change (k_refusals s') with (k_refusals s1). change (k_log s') with (k_log s1).
      intros Hre n' Hn'. rewrite (confirmed_same _ _ n' F7).
      unfold s1, report in Hre. destruct answer as [[]|m]; [|simpl in Hre; by destruct (k_refusals s)].
      assert (k_refusals s = []) as Hre' by (revert Hre; by destruct (rm_narrate r)).
      apply Hatt in Hn' as [[Hc|Hc]%(H9 Hre')| ->]; [left; by right|right; by right|].
      destruct He as [->| ->]; [left|right]; by left.
  - intros ->. exists answer. change (k_log s') with (k_log s1).
    apply F7. by left.
Qed.

Lemma Core_frame s s' :
  k_queued s' = k_queued s → k_in_flight s' = k_in_flight s → k_waiting s' = k_waiting s →
  k_removed s' = k_removed s → (k_refusals s' = [] → k_refusals s = []) →
  same_events (k_log s) (k_log s') →
  (∀ n sg g, COut (Stop n sg g) ∈ k_log s' → COut (Stop n sg g) ∈ k_log s) →
  in_order_log i (k_log s') →
  (k_failed s' = true ↔ k_refusals s' ≠ [] ∨ k_phase s' = PDone ∧ k_abandoned s' = true) →
  Core s → Core s'.
Proof.
  intros E1 E2 E3 E4 E9 E5 E6 E7 E8 [H1 H2 H3 H4 H5 H6 H7 H8 H9].
  assert (pending s' = pending s) as Ep by (unfold pending; by rewrite E1, E2).
  constructor; rewrite ?Ep; try done.
  - intros n Hn. rewrite (attempted_same _ _ n E5). by apply H3.
  - intros n sg g Hin%E6. rewrite E1. by eapply H4.
  - intros n Hn. rewrite E3. destruct (H5 n Hn) as (w & ? & Hall). exists w. split; [done|].
    intros d. rewrite (stop_attempted_same _ _ d E5). apply Hall.
  - intros n id Hn. rewrite E4, (confirmed_same _ _ n E5). by apply H7.
  - intros Hre n. rewrite (attempted_same _ _ n E5), (confirmed_same _ _ n E5). by apply H9, E9.
Qed.

(** *** The stages after the loop *)

Definition CInv (s : cstate) : Prop := Core s ∧ phase_holds s.

Lemma not_done_failed s :
  Core s → k_phase s ≠ PDone → k_failed s = true ↔ k_refusals s ≠ [].
Proof. intros Hc Hp. rewrite (core_failed _ Hc). split; [by intros [|[? _]]|by left]. Qed.

Lemma cleanup_done_inv s :
  Core s → k_phase s ≠ PDone → (k_abandoned s = false → pending s = []) →
  (k_abandoned s = true → escalated i s = true) →
  (k_abandoned s = false → k_refusals s = [] → is_Some (owns_network i) →
    k_network_removed s = true) → CInv (cleanup_done s).
Proof.
  intros Hc Hp H1 H2 H3. pose proof (not_done_failed s Hc Hp) as Hf. unfold cleanup_done. split.
  - destruct (k_abandoned s) eqn:Ea; apply (Core_frame s); try done;
      try apply same_events_refl; simpl; try exact (core_order _ Hc); rewrite Ea; [tauto|].
    rewrite Hf. split; [by left|by intros [|[_ [=]]]].
  - unfold phase_holds. destruct (k_abandoned s) eqn:Ea; simpl; rewrite Ea; auto.
Qed.

Lemma network_stage_inv sigints s :
  Core s → k_phase s ≠ PDone → (k_abandoned s = false → pending s = []) →
  (k_abandoned s = true → escalated i s = true) → (sigints ≠ None → escalated i s = true) →
  CInv (network_stage i sigints s).
Proof.
  intros Hc Hp H1 H2 H3. unfold network_stage. destruct (owns_network i) as [network|] eqn:En.
  2: { apply cleanup_done_inv; try done. rewrite En. by intros _ _ []. }
  destruct (k_abandoned s) eqn:Ea; [by apply cleanup_done_inv; rewrite ?Ea|].
  split; [|unfold phase_holds; simpl; rewrite En; split_and!; [by apply H1|done|by eexists|exact H3]].
  apply (Core_frame s); simpl; try done.
  - eapply same_events_trans; apply same_events_out.
  - intros n sg g. rewrite !elem_of_cons. intros [[=]|[[=]|]]; done.
  - split_and!; try done. apply core_order. exact Hc.
  - rewrite Ea, (not_done_failed s Hc Hp). intuition congruence.
Qed.

(** *** Every event *)

Lemma force_removes l s :
  (∀ r, r ∈ l → is_Some (ci_created i !! rm_name r) ∧ ¬ attempted (k_log s) (rm_name r)) →
  in_order_log i (k_log s) →
  let s' := foldl (λ s r, cemit (ForceRemove (rm_name r)) s) s l in
  in_order_log i (k_log s') ∧ same_events (k_log s) (k_log s') ∧
  (∀ n sg g, COut (Stop n sg g) ∈ k_log s' → COut (Stop n sg g) ∈ k_log s) ∧
  k_in_flight s' = k_in_flight s ∧ k_queued s' = k_queued s ∧ k_waiting s' = k_waiting s ∧
  k_removed s' = k_removed s ∧ k_refusals s' = k_refusals s ∧ k_failed s' = k_failed s ∧
  k_abandoned s' = k_abandoned s ∧ k_interrupts s' = k_interrupts s.
Proof.
  revert s. induction l as [|r l IH]; intros s Hl Hord; csimpl; [by split_and!|].
  destruct (IH (cemit (ForceRemove (rm_name r)) s)) as (H1 & H2 & H3 & Hrest).
  - intros r' Hr'. simpl. rewrite attempted_same by apply same_events_out. apply Hl. by right.
  - simpl. split; [apply Hl; by left|done].
  - split_and!; try apply Hrest; [done| |].
    + eapply same_events_trans; [apply same_events_out|exact H2].
    + intros n sg g [[=]|]%H3%elem_of_cons. done.
Qed.

Lemma log_event_holds e s : phase_holds s → phase_holds (log_cevent e s).
Proof. done. Qed.

Lemma cstep_CInv s e s' : CInv s → cstep i s e = Some s' → CInv s'.
Proof using Hacyclic Hids.
  intros [Hc Hp] H. unfold cstep in H. change (set_log _ s) with (log_cevent e s) in H.
  assert (is_answer e = None → Core (log_cevent e s)) as Hlog by (intros; by apply Core_log_event).
  unfold phase_holds in Hp. destruct e; simpl in H.
  - specialize (Hlog eq_refl). unfold stop_succeeded in H. simpl in H.
    assert (∀ b v, CInv (if b : bool
        then cemit (CPost (ContainerStopped container)) (set_stopped v (log_cevent (StopSucceeded container) s))
        else set_stopped v (log_cevent (StopSucceeded container) s))) as Hs.
    { intros b v. split; [|by destruct b].
      destruct b; apply (Core_frame (log_cevent (StopSucceeded container) s)); try done;
        try apply same_events_refl; try apply Hc; try exact (core_failed _ Hlog).
      - apply same_events_out.
      - by intros n sg g [[=]|]%elem_of_cons.
      - simpl. split; [done|apply Hc]. }
    destruct (k_phase s) eqn:Eph; try done;
      destruct (find_removal container (k_in_flight s)) as [r|]; try done;
      (destruct (decide _); [done|]); injection H as <-; apply Hs.
  - unfold stop_answered in H. simpl in H.
    destruct (k_phase s) eqn:Eph; try done;
      destruct (find_removal container (k_in_flight s)) as [r|] eqn:Ef; try done; injection H as <-.
    + destruct Hp as (Hw & Hne & Ha).
      destruct (Core_answer (StopAnswered container answer) container answer r s) as
        (C1 & C2 & C3 & C4 & C5 & C6 & C7 & C8 & C9); [by left|done|by rewrite Eph|done|].
      set (s1 := forget r _) in *.
      assert (Core (set_waiting ((λ dependents, dependents ∖ {[container]}) <$> k_waiting s1) s1)) as Hc1.
      { destruct C1 as [D1 D2 D3 D4 D5 D6 D7 D8 D9]. constructor; try done.
        intros n Hn. destruct (D5 n Hn) as (w & Hwn & Hall). exists (w ∖ {[container]}).
        cbn [set_waiting k_waiting]. rewrite lookup_fmap, Hwn. split; [done|]. intros d Hd Hdep.
        destruct (decide (d = container)) as [->|Hne']; [right; by apply C9|].
        destruct (Hall d Hd Hdep); [left; set_solver|by right]. }
      destruct (loop_head_spec _ Hc1) as (L1 & L2 & _).
      * intros n w d. cbn [set_waiting k_waiting]. rewrite lookup_fmap, C7.
        destruct (k_waiting s !! n) as [w0|] eqn:Ew; simpl; [|done]. intros [= <-] Hd.
        apply elem_of_difference in Hd as [Hd Hdc]. rewrite elem_of_singleton in Hdc.
        destruct (Hw n w0 d Ew Hd) as [Hd1 Hd2]. split; [|done].
        change (d ∈ rm_name <$> pending s1). by apply C2.
      * change (k_abandoned s1 = false). congruence.
      * change (k_phase s1 ≠ PDone). by rewrite C4, Eph.
      * by split.
    + destruct Hp as [He Ha].
      destruct (Core_answer (StopAnswered container answer) container answer r s) as
        (C1 & C2 & C3 & C4 & C5 & C6 & _); [by left|done|by rewrite Eph|done|].
      split; [done|]. unfold phase_holds. rewrite C4, Eph, C5. split; [|done].
      destruct He as [He|He]; [left; unfold escalated; by rewrite C6|].
      unfold pending in He. apply app_eq_nil in He as [_ He]. by rewrite He in Ef.
  - specialize (Hlog eq_refl). unfold escalation_seen in H. simpl in H.
    destruct (k_phase s) eqn:Eph; try done. destruct (escalated i _) eqn:Ee; [|done]. injection H as <-.
    destruct Hp as (_ & _ & Ha). split; [|split; [left; exact Ee|done]].
    apply (Core_frame (log_cevent EscalationSeen s)); try done; try apply same_events_refl; [apply Hc|].
    rewrite (not_done_failed _ Hlog) by (simpl; by rewrite Eph). simpl.
    split; [by left|by intros [|[]]].
  - specialize (Hlog eq_refl). unfold drained in H. simpl in H.
    destruct (k_phase s) eqn:Eph; try done. injection H as <-. destruct Hp as [He Ha].
    case_bool_decide as Hl.
    + apply nil_length_inv in Hl. apply network_stage_inv; [done|simpl; by rewrite Eph|..].
      * intros _. unfold pending. simpl. apply app_eq_nil in Hl as [-> ->]. done.
      * simpl. congruence.
      * done.
    + destruct He as [He|He].
      2: { exfalso. apply Hl. unfold pending in He. apply app_eq_nil in He as [-> ->]. done. }
      set (left := k_in_flight s ++ k_queued s) in *.
      set (s1 := set_queued [] (set_in_flight left _)).
      assert (left ≡ₚ pending s) as Hperm by apply Permutation_app_comm.
      assert (Core s1) as Hc1.
      { assert (pending s1 ≡ₚ pending (log_cevent Drained s)) as Hp1 by exact Hperm.
        destruct Hlog as [D1 D2 D3 D4 D5 D6 D7 D8 D9]. constructor; try done.
        - intros r. rewrite Hp1. apply D1.
        - by rewrite Hp1.
        - intros n Hn. rewrite Hp1. change (k_log s1) with
            (COut (CPost (Notice (ended_run (last_signal (k_interrupts s)) +:+
             " during cleanup; force-removing what's left. Press Ctrl+C to stop cleaning up."))) ::
             k_log (log_cevent Drained s)).
          rewrite (attempted_same _ _ n (same_events_out _ _)). by apply D3.
        - intros n sg g _. apply not_elem_of_nil.
        - intros n Hn. destruct (D5 n Hn) as (w & Hwn & Hall). exists w. split; [done|].
          intros d Hd Hdep. destruct (Hall d Hd Hdep) as [|[a Hin]]; [by left|right].
          exists a. simpl. by right.
        - intros n id Hn. etrans; [exact (D7 n id Hn)|]. symmetry. apply confirmed_same.
          exact (same_events_out _ _).
        - intros Hre n Hn. apply (confirmed_same (k_log (log_cevent Drained s)));
            [exact (same_events_out _ _)|]. apply D9; [exact Hre|].
          refine (proj1 (attempted_same _ (k_log s1) n _) Hn). exact (same_events_out _ _). }
      destruct (force_removes left s1) as (F1 & F2 & F3 & F4 & F5 & F6 & F7 & F8 & F9 & F10 & F11).
      { intros r Hr. assert (r ∈ pending s1) as Hr1 by (unfold pending; simpl; done).
        assert (is_Some (ci_created i !! rm_name r)) as Hs1.
        { rewrite (removals_elem i r); [by eexists|]. by apply (core_known _ Hc1). }
        split; [done|]. apply (proj1 (core_split _ Hc1 _ Hs1)). by apply list_elem_of_fmap_2. }
      { apply Hc1. }
      split.
      * apply (Core_frame s1); try done; simpl; rewrite ?F8, ?F9, ?F10; [done|].
        etrans; [exact (not_done_failed _ Hlog ltac:(simpl; by rewrite Eph))|].
        split; [by left|by intros [|[]]].
      * unfold phase_holds. simpl. rewrite F4, F5, F10. split_and!; [done| |done|].
        -- simpl. intros E. apply Hl. by rewrite E.
        -- unfold escalated. simpl. by rewrite F11.
  - unfold forced_answered in H. simpl in H.
    destruct (k_phase s) as [| |sigints| |] eqn:Eph; try done;
      destruct (find_removal container (k_in_flight s)) as [r|] eqn:Ef; try done; injection H as <-.
    destruct Hp as (Hq & Hne & Ha & He).
    destruct (Core_answer (ForcedAnswered container answer) container answer r s) as
      (C1 & C2 & C3 & C4 & C5 & C6 & _); [by right|done|by rewrite Eph|done|].
    set (s1 := forget r _) in *. case_bool_decide as Hl.
    + apply network_stage_inv; [done|by rewrite C4, Eph|..].
      * intros _. unfold pending. rewrite C3, Hq. exact (nil_length_inv (k_in_flight s1) Hl).
      * intros _. unfold escalated. by rewrite C6.
      * intros _. unfold escalated. by rewrite C6.
    + split; [done|]. unfold phase_holds. rewrite C4, Eph, C3, C5.
      split_and!; [done| |done|unfold escalated; by rewrite C6]. intros E. apply Hl.
      exact (f_equal length E).
  - specialize (Hlog eq_refl). unfold network_removal_answered in H. simpl in H.
    destruct (k_phase s) as [| | |sigints|] eqn:Eph; try done. injection H as <-.
    destruct Hp as (Hpe & Ha & Hn & _).
    pose proof (not_done_failed _ Hlog) as Hf. simpl in Hf. rewrite Eph in Hf. specialize (Hf ltac:(done)).
    destruct answer as [[]|m]; apply cleanup_done_inv; simpl; try (by rewrite Eph); try done;
      try (rewrite Ha; done); try (intros _ Hre; by destruct (k_refusals s)).
    + apply (Core_frame (log_cevent (NetworkRemovalAnswered (Ok tt)) s)); try done; simpl.
      * apply same_events_out.
      * by intros n sg g [[=]|]%elem_of_cons.
      * split; [done|]. apply Hc.
      * rewrite Hf, Eph. split; [by left|by intros [|[]]].
    + apply (Core_frame (log_cevent (NetworkRemovalAnswered (Err m)) s)); try done; simpl;
        [by destruct (k_refusals s)|apply Hc|].
      split; [|done]. intros _. left. by destruct (k_refusals s).
  - specialize (Hlog eq_refl). unfold rung_seen in H. simpl in H.
    destruct (k_phase s) as [| | |[]|] eqn:Eph; try done. destruct (escalated i _) eqn:Ee; [|done].
    injection H as <-. destruct Hp as (Hpe & Ha & Hn & _). split; [|by split_and!].
    apply (Core_frame (log_cevent RungSeen s)); try done; try apply same_events_refl; [apply Hc|].
    rewrite (not_done_failed _ Hlog) by (simpl; by rewrite Eph). simpl. split; [by left|by intros [|[]]].
  - specialize (Hlog eq_refl). unfold abandon_seen in H. simpl in H.
    assert (k_phase s ≠ PDone → Core (set_abandoned true (log_cevent AbandonSeen s))) as Hcab.
    { intros Hnd. apply (Core_frame (log_cevent AbandonSeen s)); try done;
        try apply same_events_refl; [apply Hc|].
      etrans; [exact (not_done_failed _ Hlog Hnd)|]. simpl. split; [by left|by intros [|[]]]. }
    destruct (k_phase s) as [| |sigints|[sigints|]|] eqn:Eph; try done;
      (case_bool_decide; [|done]); injection H as <-; specialize (Hcab ltac:(done)).
    + destruct Hp as (Hq & Hne & Ha & He). apply network_stage_inv; simpl; try done. by rewrite Eph.
    + destruct Hp as (Hpe & Ha & Hn & He). apply cleanup_done_inv; simpl; try done; [by rewrite Eph|].
      intros _. by apply He.
  - specialize (Hlog eq_refl). injection H as <-. split.
    + apply (Core_frame (log_cevent (CSignalled signal) s)); try done; try apply same_events_refl;
        [apply Hc|]. exact (core_failed _ Hlog).
    + set (s1 := set_interrupts _ _).
      assert (escalated i s = true → escalated i s1 = true) as He.
      { unfold escalated. simpl. intros He. bool_to_prop. apply bool_decide_eq_true. simpl. lia. }
      unfold phase_holds. change (k_phase s1) with (k_phase s). destruct (k_phase s).
      * exact Hp.
      * destruct Hp as [[Hp|Hp] Ha]; (split; [|exact Ha]); [left; by apply He|by right].
      * destruct Hp as (H1 & H2 & H3 & H4). split_and!; auto.
      * destruct Hp as (H1 & H2 & H3 & H4). split_and!; auto.
      * destruct Hp as (H1 & H2 & H3). split_and!; auto.
Qed.

Lemma crun_CInv s events s' : CInv s → crun i s events = Some s' → CInv s'.
Proof using Hacyclic Hids.
  revert s. induction events as [|e events IH]; intros s Hs H; simpl in H; [by simplify_eq|].
  destruct (cstep i s e) as [s1|] eqn:E; [|done]. eapply IH; [|done]. by eapply cstep_CInv.
Qed.

Lemma cleanup_start_CInv interrupts : CInv (cleanup_start i interrupts).
Proof using Hacyclic Hids.
  unfold cleanup_start. destruct (dependents_first (ci_graph i) (created_names i)) as (m & Em & Hdom & Hm).
  rewrite Em. set (log := if narrates_cleanup i then _ else _).
  assert (∀ n, ¬ attempted log n) as Hatt.
  { intros n. unfold log. destruct (narrates_cleanup i); intros [[a Ha]|[a Ha]];
      repeat (apply elem_of_cons in Ha as [[=]|Ha]); by apply not_elem_of_nil in Ha. }
  assert (∀ n, ¬ confirmed log n) as Hconf.
  { intros n [Hc|Hc]; apply (Hatt n); [left|right]; eauto. eexists; done. }
  assert (∀ n sg g, COut (Stop n sg g) ∉ log) as Hfresh.
  { intros n sg g Ha. unfold log in Ha. destruct (narrates_cleanup i);
      repeat (apply elem_of_cons in Ha as [[=]|Ha]); by apply not_elem_of_nil in Ha. }
  destruct (loop_head_spec (mk_cstate PStopping m (removals i) [] ∅ ∅ [] false false false interrupts log))
    as (H1 & H2 & _); [|..|by split].
  - constructor; simpl; unfold pending; simpl.
    + intros r. by rewrite app_nil_r.
    + rewrite app_nil_r, removals_names. apply created_names_NoDup.
    + intros n Hn. rewrite app_nil_r, removals_names.
      pose proof (proj2 (elem_of_created_names i n) Hn). pose proof (Hatt n). tauto.
    + intros n sg g Hin. by destruct (Hfresh n sg g).
    + intros n Hn%elem_of_created_names. destruct (proj2 (Hdom n) Hn) as [w Hw]. exists w.
      split; [done|]. intros d Hd%elem_of_created_names Hdep. left. by apply (Hm n w Hw).
    + unfold log. by destruct (narrates_cleanup i).
    + intros n id _. split; [set_solver|]. intros Hc. by destruct (Hconf n).
    + split; [done|]. by intros [|[]].
    + intros _ n Hn. by destruct (Hatt n).
  - intros n w d Hw Hd. apply (Hm n w Hw) in Hd as [Hd Hdep]. split; [|done].
    unfold pending. simpl. by rewrite app_nil_r, removals_names.
  - done.
  - done.
Qed.
End invariant.
