(* ===== verification/CleanupSpec.v ===== *)
(** * CleanupSpec: what cleanup promises

    The properties of [Cleanup]'s machine, from the invariant of
    [CleanupOrder], and of the result a task ends with. *)

From S2P Require Import Prelude Text Collections Values Config DependencyGraph Outcome Cleanup.
From S2P Require Import CleanupOrder.
From stdpp Require Import options.

(** ** Inputs the engine makes

    The graph is the one the run walked, and the daemon gives no two
    containers the same id. *)
Record cleanup_ok (i : cleanup_input) : Prop := {
  co_graph : ∃ extra, build_dependency_graph (ci_containers i) (ci_root i) extra = Ok (ci_graph i);
  co_ids : ∀ n n' id, ci_created i !! n = Some id → ci_created i !! n' = Some id → n = n';
}.

Lemma cleanup_ok_acyclic i n : cleanup_ok i → ¬ tc (succ (ci_graph i)) n n.
Proof.
  intros [[extra Hg] _] Hn.
  pose proof (build_spec (ci_containers i) (ci_root i) extra) as H. rewrite Hg in H.
  destruct H as [Hinv _].
  assert (∀ a b, succ (ci_graph i) a b → edge (ci_containers i) (ci_root i) extra a b) as Hedge.
  { intros a b Hab. unfold succ, successors in Hab.
    destruct (ci_graph i !! a) as [ds|] eqn:E; simpl in Hab; [|by apply not_elem_of_nil in Hab].
    destruct (Hinv a ds E) as ((c & Hc & ->) & _). by exists c. }
  assert (∃ b, succ (ci_graph i) n b) as [b Hb] by (inversion Hn; subst; eauto).
  unfold succ, successors in Hb.
  destruct (ci_graph i !! n) as [ds|] eqn:E; simpl in Hb; [|by apply not_elem_of_nil in Hb].
  destruct (Hinv n ds E) as (_ & _ & _ & Hacc).
  apply (Acc_no_cycle _ _ _ n Hacc). revert Hn. generalize n at 1 3. clear -Hedge.
  induction 1 as [a b Hab|a b c Hab _ IH]; [by apply tc_once, Hedge|].
  eapply tc_l; [by apply Hedge|done].
Qed.

Lemma cleanup_inv i interrupts events s :
  cleanup_ok i → crun i (cleanup_start i interrupts) events = Some s → CInv i s.
Proof.
  intros Hok. apply crun_CInv.
  - intros n _. by apply cleanup_ok_acyclic.
  - apply (co_ids i Hok).
  - apply cleanup_start_CInv; [|apply (co_ids i Hok)]. intros n _. by apply cleanup_ok_acyclic.
Qed.

Definition cleanup_signal (e : cevent) : bool :=
  match e with CSignalled _ => true | _ => false end.

(** ** The measure *)

Section measure.
Context (i : cleanup_input).

Definition unstopped (s : cstate) : nat :=
  length (filter (λ r, rm_name r ∉ k_stopped s) (k_in_flight s)).

Definition cleanup_measure (s : cstate) : nat :=
  match k_phase s with
  | PStopping => 4 + 2 * length (pending s) + length (filter (λ r, rm_name r ∉ k_stopped s) (pending s))
  | PDraining => 3 + 2 * length (pending s) + length (filter (λ r, rm_name r ∉ k_stopped s) (pending s))
  | PForcing _ => 3 + length (k_in_flight s)
  | PNetwork None => 2
  | PNetwork (Some _) => 1
  | PDone => 0
  end.

Lemma network_stage_measure sigints s :
  cleanup_measure (network_stage i sigints s) ≤ 2.
Proof.
  unfold network_stage, cleanup_done. destruct (owns_network i); [destruct (k_abandoned s)|];
    simpl; try (unfold cleanup_measure; simpl; lia).
  unfold cleanup_measure. simpl. destruct sigints; lia.
Qed.

Lemma filter_lt (P : removal → Prop) `{∀ r, Decision (P r)} (l : list removal) r :
  r ∈ l → ¬ P r → length (filter P l) < length l.
Proof.
  intros Hr HP. induction l as [|r' l IH]; [by apply not_elem_of_nil in Hr|].
  rewrite filter_cons. apply elem_of_cons in Hr as [<-|Hr].
  - rewrite decide_False by done. simpl. pose proof (length_filter P l). lia.
  - specialize (IH Hr). destruct (decide (P r')); simpl; lia.
Qed.

Lemma filter_filter_le (P Q : removal → Prop) `{∀ r, Decision (P r), ∀ r, Decision (Q r)}
    (l : list removal) :
  length (filter P (filter Q l)) ≤ length (filter P l).
Proof.
  induction l as [|r l IH]; [done|]. rewrite (filter_cons Q), (filter_cons P).
  destruct (decide (Q r)); destruct (decide (P r)); rewrite ?filter_cons, ?decide_True, ?decide_False by done;
    simpl; lia.
Qed.

(** An answer shortens what is pending. *)
Lemma forget_lt r o s :
  r ∈ k_in_flight s →
  let s' := forget r (report r o s) in
  length (k_in_flight s') < length (k_in_flight s) ∧
  length (filter (λ r, rm_name r ∉ k_stopped s') (pending s')) ≤
    length (filter (λ r, rm_name r ∉ k_stopped s) (pending s)) ∧
  k_queued s' = k_queued s ∧ k_phase s' = k_phase s.
Proof using i.
  intros Hr s'. destruct (report_frame i r o s) as (F1 & F2 & _ & F4 & _).
  assert (k_stopped s' = k_stopped s) as Es.
  { unfold s', forget, report. destruct o; [destruct (rm_narrate r)|]; done. }
  assert (k_in_flight s' = filter (λ other, rm_id other ≠ rm_id r) (k_in_flight s)) as Ef.
  { unfold s', forget. simpl. by rewrite F2. }
  assert (k_queued s' = k_queued s) as Eq by exact F1.
  split_and!; [| |done|exact F4].
  - rewrite Ef. apply (filter_lt _ _ r); [done|]. tauto.
  - rewrite Es. unfold pending. rewrite Eq, Ef, !filter_app, !length_app.
    pose proof (filter_filter_le (λ r, rm_name r ∉ k_stopped s) (λ other, rm_id other ≠ rm_id r)
      (k_in_flight s)). lia.
Qed.

Lemma request_stop_fold l s :
  pending (foldl (λ s r, request_stop i r s) s l) = pending s ++ l ∧
  k_stopped (foldl (λ s r, request_stop i r s) s l) = k_stopped s.
Proof.
  revert s. induction l as [|r l IH]; intros s; simpl; [by rewrite app_nil_r|].
  destruct (IH (request_stop i r s)) as [-> ->]. split; [|done].
  unfold pending. simpl. by rewrite <-!(assoc_L (++)).
Qed.

Lemma loop_head_measure s :
  cleanup_measure (loop_head i s) ≤
    4 + 2 * length (pending s) + length (filter (λ r, rm_name r ∉ k_stopped s) (pending s)).
Proof.
  unfold loop_head. destruct (escalated i s).
  { unfold cleanup_measure. simpl. change (pending (set_phase PDraining s)) with (pending s). lia. }
  set (ready := filter (λ r, stop_ready s r = true) (k_queued s)).
  set (rest := filter (λ r, stop_ready s r ≠ true) (k_queued s)).
  set (s2 := foldl _ _ ready).
  destruct (request_stop_fold ready (set_queued rest s)) as [Ep Es]. fold s2 in Ep, Es.
  assert (pending s2 ≡ₚ pending s) as Hp.
  { rewrite Ep. unfold pending. simpl. rewrite <-(assoc_L (++)), (Permutation_app_comm _ ready).
    rewrite (assoc_L (++)). f_equiv. apply (filter_split (λ r, stop_ready s r = true)). }
  assert (∀ ph, cleanup_measure (set_phase ph s2) ≤
    match ph with PStopping => 4 | PDraining => 3 | _ => 0 end + 2 * length (pending s2) +
    length (filter (λ r, rm_name r ∉ k_stopped s2) (pending s2)) ∨
    match ph with PStopping | PDraining => False | _ => True end) as Hph.
  { intros ph. destruct ph; try (by right); left; apply Nat.le_refl. }
  assert (length (filter (λ r, rm_name r ∉ k_stopped s2) (pending s2)) =
    length (filter (λ r, rm_name r ∉ k_stopped s) (pending s))) as El.
  { rewrite Es. simpl. by rewrite Hp. }
  assert (length (pending s2) = length (pending s)) as El2 by by rewrite Hp.
  case_bool_decide; [destruct (Hph PDraining)|destruct (Hph PStopping)]; try done; lia.
Qed.
End measure.

(** ** Steps, progress and calm runs *)

Section steps.
Context (i : cleanup_input).
#[local] Notation cmeasure := (cleanup_measure).

Lemma cstep_measure s e s' :
  cstep i s e = Some s' → cmeasure s' + (if cleanup_signal e then 0 else 1) ≤ cmeasure s.
Proof.
  intros H. unfold cstep in H. change (set_log _ s) with (log_cevent e s) in H.
  destruct e; simpl in H; cbn [cleanup_signal].
  - unfold stop_succeeded in H. simpl in H.
    destruct (find_removal container (k_in_flight s)) as [r|] eqn:Ef; [|by destruct (k_phase s)].
    apply find_removal_Some in Ef as [Hr <-].
    assert (∀ b s1, k_phase s1 = k_phase s → pending s1 = pending s →
      k_stopped s1 = {[rm_name r]} ∪ k_stopped s → rm_name r ∉ k_stopped s →
      (k_phase s = PStopping ∨ k_phase s = PDraining) →
      cmeasure (if b : bool then cemit (CPost (ContainerStopped (rm_name r))) s1 else s1) + 1 ≤ cmeasure s) as Hgen.
    { intros b s1 E1 E2 E3 Hnot Hph.
      assert (length (filter (λ r', rm_name r' ∉ {[rm_name r]} ∪ k_stopped s) (pending s)) <
        length (filter (λ r', rm_name r' ∉ k_stopped s) (pending s))) as Hlt.
      { assert (r ∈ pending s) as Hrp by (apply elem_of_app; by right). clear -Hrp Hnot.
        assert (∀ l : list removal, length (filter (λ r', rm_name r' ∉ {[rm_name r]} ∪ k_stopped s) l) ≤
          length (filter (λ r', rm_name r' ∉ k_stopped s) l)) as Hle.
        { induction l as [|r' l IH]; [done|]. rewrite !filter_cons.
          destruct (decide (rm_name r' ∉ {[rm_name r]} ∪ k_stopped s)) as [Hn|Hn].
          - rewrite decide_True by set_solver. simpl. lia.
          - destruct (decide _); simpl; lia. }
        induction (pending s) as [|r' l IH]; [by apply not_elem_of_nil in Hrp|].
        rewrite !filter_cons. apply elem_of_cons in Hrp as [<-|Hrp].
        - rewrite decide_False by set_solver. rewrite decide_True by done. simpl.
          specialize (Hle l). lia.
        - specialize (IH Hrp).
          destruct (decide (rm_name r' ∉ {[rm_name r]} ∪ k_stopped s)) as [Hn|Hn].
          + rewrite decide_True by set_solver. simpl. lia.
          + destruct (decide _); simpl; lia. }
      assert (cmeasure (if b then cemit (CPost (ContainerStopped (rm_name r))) s1 else s1) = cmeasure s1)
        as -> by by destruct b.
      unfold cleanup_measure. rewrite E1, E2, E3. destruct Hph as [-> | ->]; lia. }
    destruct (k_phase s) eqn:Eph; try done; (destruct (decide _); [done|]); injection H as <-;
      apply Hgen; try done; auto.
  - unfold stop_answered in H. simpl in H.
    destruct (find_removal container (k_in_flight s)) as [r|] eqn:Ef; [|by destruct (k_phase s)].
    apply find_removal_Some in Ef as [Hr <-].
    destruct (forget_lt i r answer (log_cevent (StopAnswered (rm_name r) answer) s) Hr)
      as (L1 & L2 & L3 & L4).
    change (pending (log_cevent _ s)) with (pending s) in L2.
    change (k_stopped (log_cevent _ s)) with (k_stopped s) in L2.
    set (s1 := forget r _) in *. clearbody s1. simpl in L1, L3, L4.
    assert (length (pending s1) < length (pending s)) as Hp.
    { unfold pending. rewrite L3, !length_app. lia. }
    destruct (k_phase s) eqn:Eph; try done; injection H as <-.
    + set (s2 := set_waiting _ s1). pose proof (loop_head_measure i s2) as Hm.
      change (pending s2) with (pending s1) in Hm. change (k_stopped s2) with (k_stopped s1) in Hm.
      unfold cleanup_measure at 2. rewrite Eph. lia.
    + unfold cleanup_measure. rewrite L4, Eph. lia.
  - unfold escalation_seen in H. simpl in H. destruct (k_phase s) eqn:Eph; try done.
    destruct (escalated i _); [|done]. injection H as <-. unfold cleanup_measure. rewrite Eph.
    change (pending (set_phase PDraining _)) with (pending s).
    change (k_stopped (set_phase PDraining _)) with (k_stopped s). simpl. lia.
  - unfold drained in H. simpl in H. destruct (k_phase s) eqn:Eph; try done. injection H as <-.
    unfold cleanup_measure at 2. rewrite Eph. case_bool_decide as Hl.
    + pose proof (network_stage_measure i None (log_cevent Drained s)). lia.
    + set (s1 := set_queued [] _).
      assert (∀ l s, k_in_flight (foldl (λ s r, cemit (ForceRemove (rm_name r)) s) s l) = k_in_flight s) as Hfl.
      { clear. induction l as [|r l IH]; intros s; [done|]. simpl. by rewrite IH. }
      unfold cleanup_measure. simpl. rewrite Hfl. unfold s1, pending. simpl.
      rewrite !length_app in *. lia.
  - unfold forced_answered in H. simpl in H.
    destruct (k_phase s) as [| |sigints| |] eqn:Eph; try done.
    destruct (find_removal container (k_in_flight s)) as [r|] eqn:Ef; [|done].
    apply find_removal_Some in Ef as [Hr <-]. injection H as <-.
    destruct (forget_lt i r answer (log_cevent (ForcedAnswered (rm_name r) answer) s) Hr)
      as (L1 & _ & _ & L4). set (s1 := forget r _) in *. clearbody s1. simpl in L1, L4.
    unfold cleanup_measure at 2. rewrite Eph. case_bool_decide as Hl.
    + pose proof (network_stage_measure i (Some sigints) s1). lia.
    + unfold cleanup_measure. rewrite L4, Eph. lia.
  - unfold network_removal_answered in H. simpl in H.
    destruct (k_phase s) as [| | |sigints|] eqn:Eph; try done. injection H as <-.
    unfold cleanup_measure, cleanup_done. simpl. rewrite Eph. destruct sigints; lia.
  - unfold rung_seen in H. simpl in H. destruct (k_phase s) as [| | |[]|] eqn:Eph; try done.
    destruct (escalated i _); [|done]. injection H as <-. unfold cleanup_measure. simpl. rewrite Eph. lia.
  - unfold abandon_seen in H. simpl in H. destruct (k_phase s) as [| |sigints|[sigints|]|] eqn:Eph; try done;
      (case_bool_decide; [|done]); injection H as <-; unfold cleanup_measure at 2; rewrite Eph.
    + pose proof (network_stage_measure i (Some sigints)
        (set_abandoned true (log_cevent AbandonSeen s))). lia.
    + unfold cleanup_measure, cleanup_done. simpl. lia.
  - injection H as <-. apply Nat.eq_le_incl. rewrite Nat.add_0_r. reflexivity.
Qed.

Lemma crun_measure s events s' :
  crun i s events = Some s' →
  length (filter (λ e, cleanup_signal e = false) events) + cmeasure s' ≤ cmeasure s.
Proof.
  revert s. induction events as [|e events IH]; intros s H; simpl in H.
  { simplify_eq. simpl. lia. }
  destruct (cstep i s e) as [s1|] eqn:E; [|done]. apply cstep_measure in E. specialize (IH s1 H).
  rewrite filter_cons. destruct (cleanup_signal e) eqn:He.
  - rewrite decide_False by congruence. lia.
  - rewrite decide_True by done. simpl. lia.
Qed.

Lemma cleanup_progress s :
  CInv i s → k_phase s ≠ PDone →
  ∃ e s', cleanup_signal e = false ∧ cstep i s e = Some s'.
Proof.
  intros [Hc Hp] Hd. unfold phase_holds in Hp. destruct (k_phase s) as [| |sigints|sigints|] eqn:Eph; try done.
  - destruct Hp as (_ & Hne & _). destruct (k_in_flight s) as [|r l] eqn:El; [done|].
    destruct (find_removal_elem (rm_name r) (k_in_flight s)) as [r' Hr']; [rewrite El; by left|].
    exists (StopAnswered (rm_name r) (Ok tt)). eexists. split; [done|]. unfold cstep. simpl.
    unfold stop_answered. simpl. by rewrite Eph, Hr'.
  - exists Drained. eexists. split; [done|]. unfold cstep. simpl. unfold drained. simpl. by rewrite Eph.
  - destruct Hp as (_ & Hne & _). destruct (k_in_flight s) as [|r l] eqn:El; [done|].
    destruct (find_removal_elem (rm_name r) (k_in_flight s)) as [r' Hr']; [rewrite El; by left|].
    exists (ForcedAnswered (rm_name r) (Ok tt)). eexists. split; [done|]. unfold cstep. simpl.
    unfold forced_answered. simpl. by rewrite Eph, Hr'.
  - exists (NetworkRemovalAnswered (Ok tt)). eexists. split; [done|]. unfold cstep. simpl.
    unfold network_removal_answered. simpl. by rewrite Eph.
Qed.

(** No signal since the run ended: nothing is forced or abandoned. *)
Definition forced_entry (en : centry) : bool :=
  match en with COut (ForceRemove _) | CIn (ForcedAnswered _ _) => true | _ => false end.

Definition quiet (log : list centry) : Prop := Forall (λ en, forced_entry en = false) log.

Definition calm (s : cstate) : Prop :=
  escalated i s = false ∧ k_abandoned s = false ∧
  match k_phase s with PForcing _ => False | PNetwork sigints => sigints = None | _ => True end ∧
  quiet (k_log s).

Lemma quiet_report r o s : quiet (k_log s) → quiet (k_log (report r o s)).
Proof.
  intros H. unfold report. destruct o; [destruct (rm_narrate r)|]; simpl; [by constructor|done|done].
Qed.

Lemma calm_loop_head s :
  escalated i s = false → k_abandoned s = false → quiet (k_log s) → calm (loop_head i s).
Proof.
  intros He Ha Hq. unfold loop_head. rewrite He.
  set (ready := filter (λ r, stop_ready s r = true) (k_queued s)).
  assert (∀ l s1, escalated i s1 = false → k_abandoned s1 = false → quiet (k_log s1) →
    let s2 := foldl (λ s r, request_stop i r s) s1 l in
    escalated i s2 = false ∧ k_abandoned s2 = false ∧ quiet (k_log s2)) as Hfold.
  { clear. induction l as [|r l IH]; intros s1 H1 H2 H3; [done|]. apply IH; [done|done|]. by constructor. }
  destruct (Hfold ready (set_queued (filter (λ r, stop_ready s r ≠ true) (k_queued s)) s)) as (H1 & H2 & H3);
    [done..|].
  split_and!; [exact H1|exact H2| |exact H3]. cbn [set_phase k_phase]. by case_bool_decide.
Qed.

Lemma calm_network_stage s :
  escalated i s = false → k_abandoned s = false → quiet (k_log s) → calm (network_stage i None s).
Proof.
  intros He Ha Hq. unfold network_stage, cleanup_done. rewrite Ha.
  destruct (owns_network i); split_and!; try done. by repeat constructor.
Qed.

Lemma calm_step s e s' :
  CInv i s → cleanup_signal e = false → calm s → cstep i s e = Some s' → calm s'.
Proof.
  intros [Hc Hp] He (C1 & C2 & C3 & C4) H. unfold cstep in H.
  change (set_log _ s) with (log_cevent e s) in H.
  assert (forced_entry (CIn e) = false → quiet (k_log (log_cevent e s))) as Hq by (by constructor).
  unfold phase_holds in Hp. destruct e; try done; simpl in H, Hq.
  - specialize (Hq eq_refl). unfold stop_succeeded in H. simpl in H.
    destruct (k_phase s) eqn:Eph; try done; destruct (find_removal _ _); try done;
      (destruct (decide _); [done|]); injection H as <-;
      (destruct (_ && _); unfold calm; simpl; rewrite Eph; split_and!; try done; by constructor).
  - specialize (Hq eq_refl). unfold stop_answered in H. simpl in H.
    destruct (find_removal container (k_in_flight s)) as [r|]; [|by destruct (k_phase s)].
    destruct (report_frame i r answer (log_cevent (StopAnswered container answer) s))
      as (_ & _ & _ & F4 & F5 & F6 & _).
    pose proof (quiet_report r answer (log_cevent (StopAnswered container answer) s) Hq) as Hq1.
    set (s1 := report r answer _) in *. clearbody s1. simpl in F4, F5, F6.
    assert (escalated i s1 = false) as C1' by (unfold escalated; by rewrite F6).
    destruct (k_phase s) eqn:Eph; try done; injection H as <-.
    + apply calm_loop_head; [exact C1'|simpl; congruence|done].
    + unfold calm. change (k_phase (forget r s1)) with (k_phase s1). rewrite F4.
      split_and!; [exact C1'|simpl; congruence|done|done].
  - unfold escalation_seen in H. simpl in H. destruct (k_phase s); try done.
    change (escalated i (log_cevent EscalationSeen s)) with (escalated i s) in H. by rewrite C1 in H.
  - specialize (Hq eq_refl). unfold drained in H. simpl in H. destruct (k_phase s) eqn:Eph; try done.
    injection H as <-. destruct Hp as [[Hp|Hp] _]; [by rewrite C1 in Hp|].
    unfold pending in Hp. apply app_eq_nil in Hp as [-> ->].
    by apply calm_network_stage.
  - unfold forced_answered in H. simpl in H. by destruct (k_phase s).
  - specialize (Hq eq_refl). unfold network_removal_answered, cleanup_done in H. simpl in H.
    destruct (k_phase s); try done. injection H as <-.
    destruct answer as [[]|m]; unfold calm; simpl; rewrite C2; simpl;
      (split_and!; [exact C1|exact C2|done|]); [by constructor|exact Hq].
  - unfold rung_seen in H. simpl in H. destruct (k_phase s) as [| | |[]|]; try done.
    change (escalated i (log_cevent RungSeen s)) with (escalated i s) in H. by rewrite C1 in H.
  - unfold abandon_seen in H. simpl in H. destruct (k_phase s) as [| | |[]|]; done.
Qed.

Lemma calm_run events : ∀ s s', CInv i s → calm s → cleanup_ok i →
  Forall (λ e, cleanup_signal e = false) events → crun i s events = Some s' → calm s'.
Proof.
  induction events as [|e events IH]; intros s s' Hi Hs Hok Hev H; simpl in H; [by simplify_eq|].
  destruct (cstep i s e) as [s1|] eqn:E; [|done]. apply Forall_cons in Hev as [He Hev].
  eapply IH; [| |done|done|done].
  - eapply cstep_CInv; [intros n _; by apply cleanup_ok_acyclic|apply (co_ids i Hok)|done|done].
  - by eapply calm_step.
Qed.

Lemma calm_start interrupts :
  i_count interrupts ≤ ci_baseline i → calm (cleanup_start i interrupts).
Proof.
  intros Hint. unfold cleanup_start. apply calm_loop_head; [|done|].
  - unfold escalated, escalate_at. simpl. apply bool_decide_eq_false. lia.
  - simpl. destruct (narrates_cleanup i); by repeat constructor.
Qed.
End steps.

(** ** Properties *)


(** When cleanup is done. *)
Lemma cleanup_complete i interrupts events s :
  cleanup_ok i → crun i (cleanup_start i interrupts) events = Some s → k_phase s = PDone →
  (k_abandoned s = false → ∀ n, is_Some (ci_created i !! n) → attempted (k_log s) n) ∧
  (k_abandoned s = true → ci_baseline i < i_count (k_interrupts s)) ∧
  (∀ n id, (n, id) ∈ lb_containers (left_behind i s) ↔
    ci_created i !! n = Some id ∧ ¬ confirmed (k_log s) n) ∧
  (k_failed s = true ↔ k_refusals s ≠ [] ∨ k_abandoned s = true) ∧
  (k_failed s = false → lb_is_empty (left_behind i s) = true).
Proof.
  intros Hok Hrun Hd. destruct (cleanup_inv _ _ _ _ Hok Hrun) as [Hc Hp].
  unfold phase_holds in Hp. rewrite Hd in Hp. destruct Hp as (P1 & P2 & P3).
  assert (k_abandoned s = false → ∀ n, is_Some (ci_created i !! n) → attempted (k_log s) n) as Hall.
  { intros Ha n Hn. destruct (proj2 (core_split _ _ Hc n Hn)) as [Hin|]; [|done].
    rewrite (P1 Ha) in Hin. by apply not_elem_of_nil in Hin. }
  assert (∀ n id, (n, id) ∈ lb_containers (left_behind i s) ↔
    ci_created i !! n = Some id ∧ ¬ confirmed (k_log s) n) as Hleft.
  { intros n id. unfold left_behind. simpl. rewrite list_elem_of_filter, to_remove_elem. simpl.
    pose proof (core_removed _ _ Hc n id) as H. tauto. }
  assert (k_failed s = true ↔ k_refusals s ≠ [] ∨ k_abandoned s = true) as Hf.
  { rewrite (core_failed _ _ Hc), Hd. tauto. }
  split_and!; try done.
  - intros Ha. specialize (P2 Ha). unfold escalated, escalate_at in P2. bool_to_prop. lia.
  - intros Hnf. assert (k_abandoned s = false ∧ k_refusals s = []) as [Ha Hr].
    { assert (¬ (k_refusals s ≠ [] ∨ k_abandoned s = true)) as Hno by (rewrite <-Hf, Hnf; done).
      split; [by destruct (k_abandoned s); [destruct Hno; right|]|].
      destruct (k_refusals s); [done|]. destruct Hno. by left. }
    unfold lb_is_empty. apply andb_true_intro. split; apply bool_decide_eq_true.
    + destruct (lb_containers (left_behind i s)) as [|[n id] l] eqn:El; [done|].
      destruct (proj1 (Hleft n id)) as [H1 H2]; [by left|].
      destruct H2. apply (core_confirmed _ _ Hc Hr). apply Hall; [done|]. by eexists.
    + unfold left_behind. simpl. destruct (k_network_removed s) eqn:En; [done|].
      destruct (owns_network i) as [network|] eqn:Eo; [|done].
      by specialize (P3 Ha Hr ltac:(eauto)).
Qed.

(** Cleanup ends.  It takes at most as many steps, signals apart, as a number
    fixed when it starts, and until it is done an answer of the daemon always
    takes it on: the graceful loop never waits for a stop it has not asked
    for.  And without a signal since the run ended, it neither forces nor
    abandons anything. *)
Theorem cleanup_ends_spec i interrupts events s :
  cleanup_ok i → crun i (cleanup_start i interrupts) events = Some s →
  length (filter (λ e, cleanup_signal e = false) events) ≤
    cleanup_measure (cleanup_start i interrupts) ∧
  (k_phase s ≠ PDone → ∃ e s', cleanup_signal e = false ∧ cstep i s e = Some s') ∧
  (i_count interrupts ≤ ci_baseline i → Forall (λ e, cleanup_signal e = false) events →
    k_abandoned s = false ∧ ∀ n, COut (ForceRemove n) ∉ k_log s).
Proof.
  intros Hok Hrun. split_and!.
  - apply crun_measure in Hrun. lia.
  - apply cleanup_progress. by apply (cleanup_inv i interrupts events).
  - intros Hint Hev. destruct (calm_run i events (cleanup_start i interrupts) s) as (_ & Ha & _ & Hq);
      try done; [|by apply calm_start|].
    { by apply (cleanup_inv i interrupts []). }
    split; [done|]. intros n Hin. unfold quiet in Hq. rewrite Forall_forall in Hq.
    by specialize (Hq _ Hin).
Qed.

(** C4: Cleanup ends, and when it is done nothing was passed over and the report is
    exact.  It takes at most as many steps, signals apart, as a number fixed when it
    starts, and until it is done an answer of the daemon always takes it on; without a
    signal since the run ended it neither forces nor abandons anything.  At the end,
    unless a further signal made it abandon, every container the run created has had its
    removal answered; what it lists as left behind is exactly the created containers
    whose removal was not confirmed; it counts as failed exactly when the daemon refused
    something or it was abandoned, and one that did not fail leaves nothing behind,
    network included. *)
Theorem cleanup_complete_spec i interrupts events s :
  cleanup_ok i → crun i (cleanup_start i interrupts) events = Some s →
  (length (filter (λ e, cleanup_signal e = false) events) ≤
     cleanup_measure (cleanup_start i interrupts) ∧
   (k_phase s ≠ PDone → ∃ e s', cleanup_signal e = false ∧ cstep i s e = Some s') ∧
   (i_count interrupts ≤ ci_baseline i → Forall (λ e, cleanup_signal e = false) events →
     k_abandoned s = false ∧ ∀ n, COut (ForceRemove n) ∉ k_log s)) ∧
  (k_phase s = PDone →
    (k_abandoned s = false → ∀ n, is_Some (ci_created i !! n) → attempted (k_log s) n) ∧
    (k_abandoned s = true → ci_baseline i < i_count (k_interrupts s)) ∧
    (∀ n id, (n, id) ∈ lb_containers (left_behind i s) ↔
      ci_created i !! n = Some id ∧ ¬ confirmed (k_log s) n) ∧
    (k_failed s = true ↔ k_refusals s ≠ [] ∨ k_abandoned s = true) ∧
    (k_failed s = false → lb_is_empty (left_behind i s) = true)).
Proof.
  intros Hok Hrun. split; [by eapply cleanup_ends_spec|]. intros Hdone. by eapply cleanup_complete.
Qed.

(** An error ends in one leaf. *)
Lemma exited_not_cleanup e code :
  downcast as_exited e = Some code → downcast as_cleanup_failed e = None.
Proof. induction e; simpl; naive_solver. Qed.

Lemma exited_already_reported e code : downcast as_exited e = Some code → already_reported e = true.
Proof. intros H. unfold already_reported. by rewrite (err_is_Some as_exited e code H). Qed.

Lemma not_reported_wrap e : already_reported e = false → for_error (FailureReported e) = for_error e.
Proof.
  unfold already_reported. intros H. bool_to_prop. unfold for_error. simpl.
  destruct (downcast as_reported e) as [r|] eqn:E; [|done].
  apply (err_is_Some as_reported) in E. congruence.
Qed.

(** What a task ends with.  A cleanup failure replaces only a success, and
    then the task counts as failed; any other failure keeps its exit code, has
    been reported by the time it is returned, by the engine's own line before
    cleanup if nothing else had, and the task's last line is its own exit
    code whenever its container ran to an end, and none after a signal or a
    gone reader. *)
Theorem final_result_spec i cleanup_failed :
  match ci_result i with
  | Ok _ =>
      final_result i cleanup_failed =
        (if cleanup_failed then Err (CleanupFailed (ci_task i) (ci_run_id i)) else Ok tt) ∧
      final_events i cleanup_failed =
        [if cleanup_failed then TaskFailed (ci_task i) else TaskFinished (ci_task i) 0]
  | Err e =>
      ∃ e', final_result i cleanup_failed = Err e' ∧ for_error e' = for_error e ∧
        already_reported e' = true ∧
        failure_report i =
          (if already_reported e then []
           else [ErrorReported e (ci_cleanup_after_failure i && is_not_ready e)]) ∧
        final_events i cleanup_failed =
          match downcast as_exited e with
          | Some code => [TaskFinished (ci_task i) code]
          | None =>
              if err_is as_interrupted e || err_is as_stdout_closed e then []
              else [TaskFailed (ci_task i)]
          end
  end.
Proof.
  unfold final_events, final_result, failure_report, reported_result, interrupted_by, stdout_closed.
  destruct (ci_result i) as [[]|e].
  { destruct cleanup_failed; done. }
  assert ((if bool_decide (downcast as_interrupted e = None) && negb (err_is as_stdout_closed e)
      then [TaskFailed (ci_task i)] else []) =
    (if err_is as_interrupted e || err_is as_stdout_closed e then [] else [TaskFailed (ci_task i)]))
    as Hl.
  { unfold err_is at 2. destruct (downcast as_interrupted e); simpl; [done|].
    by destruct (err_is as_stdout_closed e). }
  unfold ran_to. destruct (downcast as_exited e) as [code|] eqn:Ex.
  - pose proof (exited_already_reported e code Ex) as Hr. rewrite Hr. simpl.
    exists e. split_and!; try done. unfold err_is at 1. by rewrite (exited_not_cleanup e code Ex).
  - simpl. destruct (already_reported e) eqn:Ea; simpl.
    + exists e. split_and!; try done. destruct (err_is as_cleanup_failed e); exact Hl.
    + exists (FailureReported e). split_and!; [done|by apply not_reported_wrap|done|done|].
      destruct (err_is as_cleanup_failed (FailureReported e)); exact Hl.
Qed.

(** C7: What a task ends with, and what a run that fails exits with.  A cleanup
    failure replaces only a success, and then the task counts as failed; any
    other failure keeps its exit code, has been reported by the time it is
    returned, by the engine's own line before cleanup if nothing else had, and
    the task's last line is its own exit code whenever its container ran to an
    end, and none after a signal or a gone reader.  The exit code is always a
    [u8]: a task's own exit keeps its low eight bits, a signal exits [128] plus
    its number, in that order of precedence and also under the wrapper of a
    failure already reported; any failure that exits something other than
    [125] has been reported by then, so that [main] only ever prints an
    [Error:] line for a run that exits [125]; and a context added to an error
    changes neither answer. *)
Theorem task_exit_spec i cleanup_failed :
  match ci_result i with
  | Ok _ =>
      final_result i cleanup_failed =
        (if cleanup_failed then Err (CleanupFailed (ci_task i) (ci_run_id i)) else Ok tt) ∧
      final_events i cleanup_failed =
        [if cleanup_failed then TaskFailed (ci_task i) else TaskFinished (ci_task i) 0]
  | Err e =>
      ∃ e', final_result i cleanup_failed = Err e' ∧ for_error e' = for_error e ∧
        already_reported e' = true ∧
        failure_report i =
          (if already_reported e then []
           else [ErrorReported e (ci_cleanup_after_failure i && is_not_ready e)]) ∧
        final_events i cleanup_failed =
          match downcast as_exited e with
          | Some code => [TaskFinished (ci_task i) code]
          | None =>
              if err_is as_interrupted e || err_is as_stdout_closed e then []
              else [TaskFailed (ci_task i)]
          end
  end ∧
  ∀ e,
  (0 ≤ for_error e < 256)%Z ∧
  (∀ code, downcast as_exited e = Some code → downcast as_reported e = None →
    for_error e = code `mod` 256)%Z ∧
  (∀ signal, downcast as_interrupted e = Some signal → downcast as_exited e = None →
    downcast as_reported e = None →
    for_error e = 128 + number signal)%Z ∧
  (for_error e ≠ RATECT_FAILED → already_reported e = true) ∧
  (∀ message, for_error (Context message e) = for_error e ∧
    already_reported (Context message e) = already_reported e) ∧
  (∀ inner, downcast as_reported inner = None → for_error (FailureReported inner) = for_error inner).
Proof. split; [apply final_result_spec|intros e; exact (for_error_spec e)]. Qed.

(** ** Examples *)

(** A database and the application that depends on it, both created. *)
Definition example_input : cleanup_input :=
  mk_cleanup_input "build" "run-1" "app" {[ "app" := ["db"]; "db" := [] ]}
    {[ "app" := mk_container None (Some "alpine") None None None None None None None
         None None (Some ["db"]) None None None None None None None
         None None None None None None None None None None None None None
         None None None None None None None None None None None None None;
       "db" := container_default ]}
    {[ "app" := "id-app"; "db" := "id-db" ]} {[ "app"; "db" ]} (Some "net") false
    true true true (Ok tt) 0.

(** The engine's signalled failure under a context, and a container's code. *)
Lemma task_exit_spec_witness :
  final_result example_input true = Err (CleanupFailed "build" "run-1") ∧
  for_error (Context "running" (TaskInterrupted Terminate)) = 143%Z ∧
  for_error (ContainerExitedNonZero 259) = 3%Z.
Proof.
  destruct (task_exit_spec example_input true) as [[Hresult _] Hexit]. split; [exact Hresult|]. split.
  - apply (proj1 (proj2 (proj2 (Hexit (Context "running" (TaskInterrupted Terminate))))) Terminate); vm_compute; reflexivity.
  - apply (proj1 (proj2 (Hexit (ContainerExitedNonZero 259))) 259%Z); vm_compute; reflexivity.
Defined.

Lemma example_ok : cleanup_ok example_input.
Proof.
  constructor.
  - exists None. vm_compute. reflexivity.
  - intros n n' id. simpl. rewrite !lookup_insert_Some, !lookup_singleton_Some.
    intros [[<- <-]|[_ [<- <-]]] [[<- E]|[_ [<- E]]]; by try discriminate E.
Qed.

(** The application's stop is refused, the database's is force-removed after
    a signal. *)
Definition example_cleanup : list cevent :=
  [ StopAnswered "app" (Err "busy"); CSignalled Interrupt; EscalationSeen; Drained;
    ForcedAnswered "db" (Ok tt); NetworkRemovalAnswered (Ok tt) ].

Definition example_done (events : list cevent) : cstate :=
  default (cleanup_start example_input interrupts_new)
    (crun example_input (cleanup_start example_input interrupts_new) events).

Lemma example_crun events :
  crun example_input (cleanup_start example_input interrupts_new) events ≠ None →
  crun example_input (cleanup_start example_input interrupts_new) events = Some (example_done events).
Proof. unfold example_done. by destruct (crun _ _ events). Qed.


Lemma cleanup_complete_spec_witness :
  lb_containers (left_behind example_input (example_done example_cleanup)) = [("app", "id-app")] ∧
  (k_failed (example_done example_cleanup) = true ↔
    k_refusals (example_done example_cleanup) ≠ [] ∨ k_abandoned (example_done example_cleanup) = true) ∧
  length (filter (λ e, cleanup_signal e = false) example_cleanup) = 5 ∧
  length (filter (λ e, cleanup_signal e = false) example_cleanup) ≤
    cleanup_measure (cleanup_start example_input interrupts_new).
Proof.
  split; [vm_compute; reflexivity|].
  assert (k_phase (example_done example_cleanup) = PDone) as Hdone by (vm_compute; reflexivity).
  assert (crun example_input (cleanup_start example_input interrupts_new) example_cleanup =
    Some (example_done example_cleanup)) as Hrun by (apply example_crun; vm_compute; discriminate).
  destruct (cleanup_complete_spec example_input interrupts_new example_cleanup _ example_ok Hrun) as [Hends Hc].
  split; [exact (proj1 (proj2 (proj2 (proj2 (Hc Hdone)))))|].
  split; [vm_compute; reflexivity|exact (proj1 Hends)].
Defined.
