(* ===== verification/Dockerignore.v ===== *)
(** * Dockerignore: which files a build context leaves out

    The crate [dockerignore] ([dockerignore/src/lib.rs] and [pattern.rs]) and
    its one use, the selection of a build context's entries in
    [build_context_tar] ([ratect-core/src/docker.rs]).  The [path_clean] and
    [regex] crates are interfaces.  No char of a model string is the byte
    order mark [read_ignore_file] drops, so that step is not written out. *)

From S2P Require Import Prelude Text Collections Regex.
From stdpp Require Import options.

Definition star : ascii := "*".

(** ** [path_clean]: Go's lexical [path.Clean] *)

(** The components a cleaned path may be made of: none empty or [.], and [..]
    only at the front of a relative one. *)
Definition name_component (c : string) : Prop :=
  c ≠ EmptyString ∧ c ≠ "." ∧ c ≠ ".." ∧ slash ∉ chars c.

Definition clean_relative (s : string) : Prop :=
  ∃ ups names, s = join "/" (replicate ups ".." ++ names) ∧ Forall name_component names
    ∧ (ups = 0 → names ≠ []).

Class PathClean := { clean : string → string }.

(** What the source relies on: a cleaned path is [.], rooted, or its
    components in order, and such a path is left as it is; a rooted one keeps its
    root, and no [..] after it. *)
Class PathCleanLaws `{PathClean} : Prop := {
  clean_shape s : clean s = "." ∨ starts_with "/" (clean s) = true ∨ clean_relative (clean s);
  clean_relative_id s : clean_relative s → clean s = s;
  clean_rooted s : starts_with "/" s = true →
    ∃ names, Forall name_component names ∧ clean s = "/" +:+ join "/" names;
  clean_rooted_id names : Forall name_component names →
    clean ("/" +:+ join "/" names) = "/" +:+ join "/" names;
}.

(** ** [lib.rs] *)

Inductive Error :=
| InvalidPattern (pattern : string)
| EmptyExclusion.
#[global] Instance Error_eq_dec : EqDecision Error.
Proof. solve_decision. Defined.

Section dockerignore.
Context `{PathClean, RegexCrate}.

(** One line of the file: the pattern it holds, if any. *)
Definition read_line (line : string) : option string :=
  if starts_with "#" line then None
  else
    let pattern := trim line in
    if bool_decide (pattern = EmptyString) then None
    else
      let invert := starts_with "!" pattern in
      let pattern := if invert then trim (default EmptyString (strip_prefix "!" pattern)) else pattern in
      let pattern :=
        if bool_decide (pattern = EmptyString) then pattern
        else
          let pattern := clean pattern in
          if bool_decide (1 < String.length pattern) && starts_with "/" pattern
          then default pattern (strip_prefix "/" pattern) else pattern in
      Some (if invert then "!" +:+ pattern else pattern).

Definition read_ignore_file (content : string) : list string := omap read_line (buf_lines content).

(** ** [pattern.rs] *)

Inductive MatchType :=
| Exact
| Prefix
| Suffix
| Regexp (re : regex).

Record Pattern := mk_pattern {
  cleaned_pattern : string;
  exclusion : bool;
  match_type : MatchType;
}.

(** [Pattern::matches]. *)
Definition matches (p : Pattern) (path : string) : bool :=
  match match_type p with
  | Exact => bool_decide (path = cleaned_pattern p)
  | Prefix =>
      starts_with
        (of_chars (take (String.length (cleaned_pattern p) - 2) (chars (cleaned_pattern p)))) path
  | Suffix =>
      let suffix := of_chars (drop 2 (chars (cleaned_pattern p))) in
      if ends_with suffix path then true
      else starts_with "/" suffix && bool_decide (path = of_chars (drop 1 (chars suffix)))
  | Regexp re => is_match re path
  end.

Definition should_escape (c : ascii) : bool := bool_decide (c ∈ chars ".+()|{}$").

Inductive Kind := KExact | KPrefix | KSuffix | KRegexp.
#[local] Instance Kind_eq_dec : EqDecision Kind.
Proof. solve_decision. Defined.

(** The branch of [**], its slash already read; [at_end] when the pattern
    ends there. *)
Definition double_star (reg_str : string) (kind : Kind) (first at_end : bool) : string * Kind :=
  let '(reg_str, kind) :=
    if at_end then
      if decide (kind = KExact) then (reg_str, KPrefix) else (reg_str +:+ ".*", KRegexp)
    else (reg_str +:+ "(.*/)?", KRegexp) in
  (reg_str, if first then KSuffix else kind).

(** The [while] loop of [compile] over the chars left. *)
Fixpoint compile_loop (reg_str : string) (kind : Kind) (first : bool) (l : list ascii)
    : string * Kind :=
  match l with
  | [] => (reg_str, kind)
  | ch :: l1 =>
      if decide (ch = star) then
        match l1 with
        | c2 :: l2 =>
            if decide (c2 = star) then
              match l2 with
              | c3 :: l3 =>
                  if decide (c3 = slash) then
                    let '(reg_str, kind) := double_star reg_str kind first (bool_decide (l3 = [])) in
                    compile_loop reg_str kind false l3
                  else
                    let '(reg_str, kind) := double_star reg_str kind first false in
                    compile_loop reg_str kind false l2
              | [] => double_star reg_str kind first true
              end
            else compile_loop (reg_str +:+ "[^/]*") KRegexp false l1
        | [] => (reg_str +:+ "[^/]*", KRegexp)
        end
      else if decide (ch = "?"%char) then compile_loop (reg_str +:+ "[^/]") KRegexp false l1
      else if should_escape ch then
        compile_loop (reg_str +:+ String backslash (String ch EmptyString)) kind false l1
      else if decide (ch = backslash) then
        match l1 with
        | c2 :: l2 =>
            compile_loop (reg_str +:+ String backslash (String c2 EmptyString)) KRegexp false l2
        | [] => (reg_str +:+ String backslash EmptyString, kind)
        end
      else if bool_decide (ch ∈ chars "[]") then
        compile_loop (reg_str +:+ String ch EmptyString) KRegexp false l1
      else compile_loop (reg_str +:+ String ch EmptyString) kind false l1
  end.

Definition compile (cleaned_pattern : string) : result MatchType Error :=
  let '(reg_str, kind) := compile_loop "^" KExact true (chars cleaned_pattern) in
  match kind with
  | KExact => Ok Exact
  | KPrefix => Ok Prefix
  | KSuffix => Ok Suffix
  | KRegexp => ok_or (Regexp <$> regex_new (reg_str +:+ "$")) (InvalidPattern cleaned_pattern)
  end.

Record PatternMatcher := mk_pattern_matcher {
  patterns : list Pattern;
  exclusions : bool;
}.

(** One pattern of the loop of [PatternMatcher::new]. *)
Definition add_pattern (pm : PatternMatcher) (raw : string) : result PatternMatcher Error :=
  let trimmed := trim raw in
  if bool_decide (trimmed = EmptyString) then Ok pm
  else
    let cleaned := clean trimmed in
    let exclusion := starts_with "!" cleaned in
    if exclusion && bool_decide (String.length cleaned = 1) then Err EmptyExclusion
    else
      let cleaned := if exclusion then of_chars (drop 1 (chars cleaned)) else cleaned in
      let? match_type := compile cleaned in
      Ok (mk_pattern_matcher (patterns pm ++ [mk_pattern cleaned exclusion match_type])
        (exclusions pm || exclusion)).

Definition pattern_matcher_new (raws : list string) : result PatternMatcher Error :=
  try_fold add_pattern raws (mk_pattern_matcher [] false).

Definition pattern_count (pm : PatternMatcher) : nat := length (patterns pm).
Definition no_patterns (pm : PatternMatcher) : bool := bool_decide (patterns pm = []).

Definition parent_of (path : string) : string :=
  match rsplit_once slash path with
  | Some (dir, _) => if bool_decide (dir = EmptyString) then "/" else clean dir
  | None => "."
  end.

Definition parent_dirs (file : string) : list string :=
  let parent_path := parent_of file in
  if bool_decide (parent_path = ".") then [] else split slash parent_path.

(** Whether one pattern matches the file or one of its parents, the parents
    asked in order. *)
Definition covers (file : string) (p : Pattern) : bool :=
  let dirs := parent_dirs file in
  matches p file || existsb (λ i, matches p (join "/" (take (S i) dirs))) (seq 0 (length dirs)).

Definition matches_or_parent_matches (pm : PatternMatcher) (file : string) : bool :=
  let file := clean file in
  if bool_decide (file = ".") then false
  else
    foldl (λ matched p,
        if negb (eqb (exclusion p) matched) then matched
        else if covers file p then negb (exclusion p) else matched)
      false (patterns pm).

(** ** [build_context_tar]'s selection *)

(** The relative paths that go into the build context, of those found on
    disk; [ignore_file] is the text of the [.dockerignore], if there is
    one. *)
Definition context_entries (ignore_file : option string) (dockerfile : string)
    (found : list string) : result (list string) Error :=
  let patterns := match ignore_file with Some content => read_ignore_file content | None => [] end in
  let? matcher := pattern_matcher_new patterns in
  Ok (filter (λ relative_path,
      bool_decide (relative_path = dockerfile) || bool_decide (relative_path = ".dockerignore")
      || negb (matches_or_parent_matches matcher relative_path) = true) found).
End dockerignore.

(** ** Paths and their parents *)

Lemma clean_relative_split s :
  clean_relative s → ∃ ups names, split slash s = replicate ups ".." ++ names
    ∧ Forall name_component names ∧ (ups = 0 → names ≠ []).
Proof.
  intros (ups & names & -> & Hn & Hu). exists ups, names. split; [|done].
  apply split_join.
  - destruct ups; [|done]. simpl. auto.
  - apply Forall_app. split.
    + apply Forall_replicate. exact (bool_decide_eq_true_1 (slash ∉ chars "..") eq_refl).
    + eapply Forall_weaken; [exact Hn|]. by intros x (_ & _ & _ & ?).
Qed.

Lemma clean_relative_parent d rest :
  clean_relative (d +:+ String slash rest) → slash ∉ chars rest → clean_relative d.
Proof.
  intros H Hr. apply clean_relative_split in H as (ups & names & E & Hn & Hu).
  rewrite split_app, (split_free _ rest) in E by done.
  assert (d = join "/" (split slash d)) as Ed by (symmetry; apply join_split).
  destruct names as [|t names _] using rev_ind.
  - destruct ups as [|ups]; [by destruct Hu|]. rewrite app_nil_r, replicate_S_end in E.
    apply app_inj_tail in E as [E _]. exists ups, []. rewrite app_nil_r, <-E.
    split; [done|]. split; [done|]. intros ->. by apply split_nonempty in E.
  - rewrite (assoc_L (++)) in E. apply app_inj_tail in E as [E _].
    apply Forall_app in Hn as [Hn _]. exists ups, names. rewrite <-E.
    split; [done|]. split; [done|]. intros -> ->. by apply split_nonempty in E.
Qed.

Lemma clean_relative_nonempty s : clean_relative s → s ≠ "" ∧ s ≠ ".".
Proof.
  intros (ups & names & E & Hn & Hu)%clean_relative_split.
  split; intros ->; vm_compute in E; (destruct ups as [|ups]; [|discriminate E]);
    simpl in E; subst names; by apply Forall_cons in Hn as [(? & ? & ?) _].
Qed.

Lemma clean_relative_not_rooted s : clean_relative s → starts_with "/" s = false.
Proof.
  intros Hs. destruct (starts_with "/" s) eqn:E; [|done].
  apply starts_with_true in E as [t ->]. apply clean_relative_split in Hs as (ups & names & E & Hn & _).
  change ("/" +:+ t) with ("" +:+ String slash t) in E. rewrite split_app in E.
  destruct ups; [|done]. simpl in E. subst names. by apply Forall_cons in Hn as [(? & _) _].
Qed.
