(* ===== verification/LexicalClean.v ===== *)
(** * LexicalClean: a [path_clean] that meets its interface

    Go's lexical [path.Clean], the function the crate documents: components
    resolved from the left on a stack. *)

From S2P Require Import Prelude Text Collections Regex Dockerignore.
From stdpp Require Import options.

Definition push_component (rooted : bool) (stack : list string) (c : string) : list string :=
  if bool_decide (c = "" ∨ c = ".") then stack
  else if decide (c = "..") then
    match stack with
    | top :: rest => if decide (top = "..") then c :: stack else rest
    | [] => if rooted then [] else [c]
    end
  else c :: stack.

Definition lexical_clean (s : string) : string :=
  let rooted := starts_with "/" s in
  let out := reverse (foldl (push_component rooted) [] (split slash s)) in
  if rooted then "/" +:+ join "/" out
  else if bool_decide (out = []) then "." else join "/" out.

Definition lexical_path_clean : PathClean := {| clean := lexical_clean |}.

(** The stack of a relative path, top first. *)
Definition stack_ok (stack : list string) : Prop :=
  ∃ ups names, stack = names ++ replicate ups ".." ∧ Forall name_component names.

Lemma push_component_ok stack c :
  slash ∉ chars c → stack_ok stack → stack_ok (push_component false stack c).
Proof.
  intros Hc (ups & names & -> & Hn). unfold push_component.
  case_bool_decide as Hcd; [by exists ups, names|].
  destruct (decide (c = "..")) as [->|Hup].
  - destruct names as [|n names]; simpl.
    + destruct ups as [|ups]; simpl; [by exists 1, []|]. by exists (S (S ups)), [].
    + apply Forall_cons in Hn as [(? & ? & ? & ?) Hn]. rewrite decide_False by done.
      by exists ups, names.
  - exists ups, (c :: names). split; [done|]. constructor; [|done]. unfold name_component. tauto.
Qed.

Lemma foldl_push_ok l stack :
  Forall (λ c, slash ∉ chars c) l → stack_ok stack → stack_ok (foldl (push_component false) stack l).
Proof.
  intros H. revert stack. induction H as [|c l Hc H IH]; intros stack Hs; [done|].
  apply IH. by apply push_component_ok.
Qed.

Lemma push_names names stack :
  Forall name_component names →
  foldl (push_component false) stack names = reverse names ++ stack.
Proof.
  intros H. revert stack. induction H as [|c l (H1 & H2 & H3 & _) H IH]; intros stack; [done|].
  simpl. unfold push_component at 2. rewrite bool_decide_false by tauto.
  rewrite decide_False by done. rewrite IH, reverse_cons. by rewrite <-(assoc_L (++)).
Qed.

Lemma push_ups ups k :
  foldl (push_component false) (replicate k "..") (replicate ups "..") = replicate (ups + k) "..".
Proof.
  revert k. induction ups as [|ups IH]; intros k; [done|]. simpl.
  replace (push_component false (replicate k "..") "..") with (replicate (S k) "..")
    by (by destruct k).
  rewrite IH. by rewrite Nat.add_succ_r.
Qed.

Lemma foldl_push_rooted l stack :
  Forall (λ c, slash ∉ chars c) l → Forall name_component stack →
  Forall name_component (foldl (push_component true) stack l).
Proof.
  intros H. revert stack. induction H as [|c l Hc H IH]; intros stack Hs; [done|].
  apply IH. unfold push_component. case_bool_decide as Hcd; [done|].
  destruct (decide (c = "..")) as [->|Hup].
  - destruct stack as [|top stack]; [done|]. apply Forall_cons in Hs as [(_ & _ & Hup & _) Hs].
    by rewrite decide_False.
  - constructor; [|done]. unfold name_component. tauto.
Qed.

Lemma push_names_rooted names stack :
  Forall name_component names →
  foldl (push_component true) stack names = reverse names ++ stack.
Proof.
  intros H. revert stack. induction H as [|c l (H1 & H2 & H3 & _) H IH]; intros stack; [done|].
  simpl. unfold push_component at 2. rewrite bool_decide_false by tauto.
  rewrite decide_False by done. rewrite IH, reverse_cons. by rewrite <-(assoc_L (++)).
Qed.

Lemma rooted_split names :
  Forall name_component names →
  foldl (push_component true) [] (split slash ("/" +:+ join "/" names)) = reverse names.
Proof.
  intros H. change ("/" +:+ join "/" names) with (EmptyString +:+ String slash (join "/" names)).
  rewrite split_app. change (split slash EmptyString) with [EmptyString]. rewrite foldl_app. simpl.
  destruct names as [|n names]; [done|].
  rewrite (split_join slash) by (done || (eapply Forall_weaken; [exact H|]; by intros ? (_ & _ & _ & ?))).
  rewrite push_names_rooted by done. by rewrite app_nil_r.
Qed.

#[export] Instance lexical_path_clean_laws : @PathCleanLaws lexical_path_clean.
Proof.
  split; simpl.
  - intros s. unfold lexical_clean. destruct (starts_with "/" s) eqn:Er.
    { right. left. apply starts_with_true. by eexists. }
    case_bool_decide as Hout; [by left|]. right. right.
    destruct (foldl_push_ok (split slash s) []) as (ups & names & E & Hn).
    { apply split_parts. } { by exists 0, []. }
    exists ups, (reverse names). rewrite E. rewrite reverse_app, reverse_replicate.
    split; [done|]. split; [by apply Forall_reverse|]. intros ->. rewrite E in Hout. simpl in Hout.
    rewrite app_nil_r in Hout. done.
  - intros s Hs. pose proof (clean_relative_split s Hs) as (ups & names & E & Hn & Hu).
    pose proof (clean_relative_not_rooted s Hs) as Er. unfold lexical_clean. rewrite Er, E, foldl_app.
    change (foldl (push_component false) [] (replicate ups ".."))
      with (foldl (push_component false) (replicate 0 "..") (replicate ups "..")).
    rewrite push_ups, push_names by done. rewrite Nat.add_0_r, reverse_app, reverse_involutive.
    rewrite reverse_replicate, <-E, bool_decide_false by apply split_nonempty.
    apply (join_split slash).
  - intros s Hs. unfold lexical_clean. rewrite Hs. eexists. split; [|done].
    apply Forall_reverse, foldl_push_rooted; [apply split_parts|done].
  - intros names Hn. unfold lexical_clean.
    assert (starts_with "/" ("/" +:+ join "/" names) = true) as -> by (apply starts_with_true; by eexists).
    rewrite rooted_split by done. by rewrite reverse_involutive.
Qed.
