(* ===== verification/Paths.v ===== *)
(** * Paths: the operations of [std::path] the source uses

    A path is the string it is written as.  Rust compares, hashes and walks
    paths by their components, so an operation that returns a part of a path
    returns its components joined: the same path, whatever the writer put
    between them. *)

From S2P Require Import Prelude Text Regex Dockerignore.
From stdpp Require Import options.

(** [Path::components]: whether it is rooted, and its components; a [.] only
    counts at the start. *)
Definition components (s : string) : bool * list string :=
  let rooted := starts_with "/" s in
  let parts := filter (.≠ EmptyString) (split "/" s) in
  (rooted,
   match parts with
   | first :: rest =>
       if negb rooted && bool_decide (first = ".") then first :: filter (.≠ ".") rest
       else filter (.≠ ".") parts
   | [] => []
   end).

(** The path with given components. *)
Definition of_components (p : bool * list string) : string :=
  (if p.1 then "/" else EmptyString) +:+ join "/" p.2.

(** [Path::starts_with] *)
Definition path_starts_with (path base : string) : bool :=
  bool_decide ((components path).1 = (components base).1) &&
  bool_decide ((components base).2 `prefix_of` (components path).2).

(** [Path::join] *)
Definition path_join (path segment : string) : string :=
  if starts_with "/" segment then segment
  else if bool_decide (path = EmptyString) || ends_with "/" path then path +:+ segment
  else path +:+ "/" +:+ segment.

(** [Path::parent]: none for the root and the empty path. *)
Definition path_parent (path : string) : option string :=
  match (components path).2 with
  | [] => None
  | parts => Some (of_components ((components path).1, removelast parts))
  end.

(** [Path::file_name]: the last component, if it is a name. *)
Definition file_name (path : string) : option string :=
  name ← last (components path).2;
  if bool_decide (name = ".." ∨ name = ".") then None else Some name.

(** [Path::extension]: what follows the last [.] of the file name, unless it
    starts it. *)
Definition extension (path : string) : option string :=
  name ← file_name path;
  '(before, after) ← rsplit_once "." name;
  if bool_decide (before = EmptyString) then None else Some after.

Definition is_relative (path : string) : bool := negb (starts_with "/" path).

(** ** Rooted paths by their components *)

Definition path_component (c : string) : Prop :=
  c ≠ EmptyString ∧ c ≠ "." ∧ slash ∉ chars c.

Lemma name_path_component c : name_component c → path_component c.
Proof. intros (? & ? & _ & ?). done. Qed.

Lemma names_path_components l : Forall name_component l → Forall path_component l.
Proof. intros H. eapply Forall_weaken; [exact H|]. apply name_path_component. Qed.

Lemma components_rooted s :
  starts_with "/" s = true →
  components s = (true, filter (.≠ ".") (filter (.≠ EmptyString) (split "/" s))).
Proof. unfold components. intros ->. simpl. by destruct (filter _ (split "/" s)). Qed.

Lemma components_parts s : starts_with "/" s = true → Forall path_component (components s).2.
Proof.
  intros H. rewrite components_rooted by done. simpl. apply Forall_forall. intros c.
  rewrite !list_elem_of_filter. intros (Hdot & Hne & Hin). split; [done|]. split; [done|].
  by apply (proj1 (Forall_forall _ _) (split_parts slash s)).
Qed.

Lemma filter_all {A} (P : A → Prop) `{!∀ x, Decision (P x)} (l : list A) : Forall P l → filter P l = l.
Proof. induction 1; [done|]. rewrite filter_cons_True by done. by f_equal. Qed.

Lemma of_components_rooted parts : starts_with "/" (of_components (true, parts)) = true.
Proof. apply starts_with_true. by eexists. Qed.

Lemma components_of parts :
  Forall path_component parts → components (of_components (true, parts)) = (true, parts).
Proof.
  intros H. rewrite components_rooted by apply of_components_rooted. f_equal.
  unfold of_components. cbn [fst snd].
  change ("/" +:+ join "/" parts) with (EmptyString +:+ String "/" (join "/" parts)).
  rewrite split_app. change (split "/" EmptyString) with [EmptyString]. cbn [app].
  rewrite filter_cons_False by (intros Hn; by apply Hn). destruct parts as [|p parts]; [done|].
  rewrite (split_join slash) by
    (done || (eapply Forall_weaken; [exact H|]; by intros ? (_ & _ & ?))).
  rewrite (filter_all (.≠ EmptyString)) by (eapply Forall_weaken; [exact H|]; by intros ? (? & ? & ?)).
  rewrite filter_all by (eapply Forall_weaken; [exact H|]; by intros ? (? & ? & ?)). done.
Qed.

(** What [fs::canonicalize] and a rooted cleaned path are: a root and the
    components after it, nothing else. *)
Definition canonical (p : string) : Prop := of_components (true, (components p).2) = p.
#[global] Instance canonical_dec p : Decision (canonical p).
Proof. unfold canonical. apply _. Defined.

Lemma canonical_rooted p : canonical p → starts_with "/" p = true.
Proof. intros <-. apply of_components_rooted. Qed.

Lemma canonical_of parts : Forall path_component parts → canonical (of_components (true, parts)).
Proof. intros H. unfold canonical. by rewrite components_of. Qed.

Lemma canonical_components p : canonical p → components p = (true, (components p).2).
Proof. intros H. by rewrite (components_rooted p (canonical_rooted _ H)). Qed.

Lemma canonical_parts p : canonical p → Forall path_component (components p).2.
Proof. intros H. by apply components_parts, canonical_rooted. Qed.

Lemma canonical_eq p q : canonical p → canonical q → (components p).2 = (components q).2 → p = q.
Proof. unfold canonical. intros Hp Hq H. congruence. Qed.

Lemma path_component_text seg :
  path_component seg → starts_with "/" seg = false ∧ ends_with "/" seg = false.
Proof.
  intros (_ & _ & Hs). split; apply not_true_iff_false.
  - intros [t ->]%starts_with_true. apply Hs. rewrite chars_app. by left.
  - intros [t ->]%ends_with_true. apply Hs. rewrite chars_app, elem_of_app. right. by left.
Qed.

Lemma join_snoc items s :
  items ≠ [] → join "/" (items ++ [s]) = join "/" items +:+ "/" +:+ s.
Proof.
  induction items as [|x items IH]; intros H; [done|].
  destruct items as [|y items]; [done|]. change ((x :: y :: items) ++ [s]) with (x :: ((y :: items) ++ [s])).
  rewrite join_cons by by destruct items. rewrite IH by done. rewrite (join_cons _ x) by done.
  by rewrite !string_app_assoc.
Qed.

Lemma of_components_end parts :
  Forall path_component parts → parts ≠ [] → ends_with "/" (of_components (true, parts)) = false.
Proof.
  intros H Hne. destruct (exists_last Hne) as (init & s & ->).
  apply Forall_app in H as [_ [Hs _]%Forall_cons]. apply not_true_iff_false.
  intros [t Ht]%ends_with_true. destruct Hs as (Hs & _ & Hslash).
  destruct (exists_last (l := chars s)) as (l & c & Hl).
  { intros Hnil. apply Hs. by rewrite <-(of_chars_chars s), Hnil. }
  assert (∃ u, of_components (true, init ++ [s]) = u +:+ s) as [u Hu].
  { unfold of_components. cbn [fst snd]. destruct init as [|x init]; [by exists "/"|].
    rewrite join_snoc by done. exists ("/" +:+ join "/" (x :: init) +:+ "/").
    by rewrite !string_app_assoc. }
  rewrite Hu in Ht. apply (f_equal chars) in Ht. rewrite !chars_app, Hl, app_assoc in Ht.
  change (chars "/") with [slash] in Ht. apply app_inj_tail in Ht as [_ ->].
  apply Hslash. rewrite Hl, elem_of_app. right. by left.
Qed.

Lemma path_join_of parts seg :
  Forall path_component parts → path_component seg →
  path_join (of_components (true, parts)) seg = of_components (true, parts ++ [seg]).
Proof.
  intros Hparts Hseg. unfold path_join. rewrite (proj1 (path_component_text _ Hseg)).
  destruct (decide (parts = [])) as [->|Hne]; [done|].
  rewrite of_components_end, orb_false_r by done.
  rewrite bool_decide_false by done. unfold of_components. cbn [fst snd].
  rewrite join_snoc by done. by rewrite !string_app_assoc.
Qed.

Lemma path_parent_of parts seg :
  Forall path_component (parts ++ [seg]) →
  path_parent (of_components (true, parts ++ [seg])) = Some (of_components (true, parts)).
Proof.
  intros H. unfold path_parent. rewrite components_of by done. cbn [fst snd].
  destruct (parts ++ [seg]) eqn:E; [by destruct parts|]. by rewrite <-E, removelast_last.
Qed.

Lemma path_join_below p seg :
  canonical p → path_component seg →
  canonical (path_join p seg) ∧ components (path_join p seg) = (true, (components p).2 ++ [seg]) ∧
  path_parent (path_join p seg) = Some p.
Proof.
  intros Hp Hseg. pose proof (canonical_parts p Hp) as Hparts.
  assert (path_join p seg = of_components (true, (components p).2 ++ [seg])) as ->.
  { rewrite <-path_join_of by done. by rewrite Hp. }
  assert (Forall path_component ((components p).2 ++ [seg])) as Hall.
  { apply Forall_app. auto. }
  split; [by apply canonical_of|]. rewrite components_of by done. split; [done|].
  rewrite path_parent_of by done. by rewrite Hp.
Qed.

Lemma components_join_relative p segs :
  canonical p → Forall path_component segs → segs ≠ [] →
  components (path_join p (of_components (false, segs))) = (true, (components p).2 ++ segs).
Proof.
  intros Hp Hs Hne.
  assert (path_join p (of_components (false, segs)) = of_components (true, (components p).2 ++ segs)) as ->.
  { unfold path_join, of_components. cbn [fst snd].
    change (EmptyString +:+ join "/" segs) with (join "/" segs).
    assert (starts_with "/" (join "/" segs) = false) as ->.
    { destruct segs as [|s segs]; [done|]. apply Forall_cons in Hs as [Hs _].
      pose proof (path_component_text _ Hs) as [Hst _]. destruct Hs as (Hs & _ & _).
      apply not_true_iff_false. intros [t Ht]%starts_with_true.
      apply not_true_iff_false in Hst. apply Hst. destruct s as [|c s]; [done|].
      destruct segs; simpl in Ht; injection Ht as -> _; by apply starts_with_true; eexists. }
    pose proof Hp as Htext. unfold canonical, of_components in Htext. cbn [fst snd] in Htext.
    destruct (decide ((components p).2 = [])) as [Hnil|Hcons].
    - rewrite Hnil in *. by rewrite <-Htext.
    - pose proof (of_components_end _ (canonical_parts p Hp) Hcons) as He.
      unfold of_components in He. cbn [fst snd] in He. rewrite Htext in He. rewrite He, orb_false_r.
      rewrite bool_decide_false by (by intros ->).
      assert (∀ a b, a ≠ [] → b ≠ [] → join "/" (a ++ b) = join "/" a +:+ "/" +:+ join "/" b) as Hj.
      { clear. intros a b. induction a as [|x a IH]; intros Ha Hb; [done|].
        destruct a as [|y a].
        - change ([x] ++ b) with (x :: b). by rewrite join_cons.
        - change ((x :: y :: a) ++ b) with (x :: ((y :: a) ++ b)).
          rewrite join_cons by by destruct a. rewrite IH by done. rewrite (join_cons _ x) by done.
          by rewrite !string_app_assoc. }
      rewrite Hj by done. rewrite !string_app_assoc, Htext. done. }
  apply components_of. apply Forall_app. split; [by apply canonical_parts|done].
Qed.
Lemma components_of_relative segs :
  Forall path_component segs → components (of_components (false, segs)) = (false, segs).
Proof.
  intros Hs. unfold of_components, components. cbn [fst snd].
  change (EmptyString +:+ join "/" segs) with (join "/" segs).
  destruct segs as [|s segs]; [done|].
  assert (starts_with "/" (join "/" (s :: segs)) = false) as ->.
  { apply Forall_cons in Hs as [Hs _]. pose proof (path_component_text _ Hs) as [Hst _].
    destruct Hs as (Hs & _ & _). apply not_true_iff_false. intros [t Ht]%starts_with_true.
    apply not_true_iff_false in Hst. apply Hst. destruct s as [|c s]; [done|].
    destruct segs; simpl in Ht; injection Ht as -> _; by apply starts_with_true; eexists. }
  rewrite (split_join slash) by (done || (eapply Forall_weaken; [exact Hs|]; by intros ? (_ & _ & ?))).
  rewrite (filter_all (.≠ EmptyString)) by (eapply Forall_weaken; [exact Hs|]; by intros ? (? & ? & ?)).
  cbn [negb andb]. pose proof Hs as Hs'. apply Forall_cons in Hs' as [(_ & Hd & _) Hs'].
  rewrite bool_decide_false by done.
  rewrite (filter_all (.≠ ".")) by (eapply Forall_weaken; [exact Hs|]; by intros ? (? & ? & ?)). done.
Qed.

(** A rooted path cleaned: canonical, with no [..]. *)
Lemma clean_canonical `{PathCleanLaws} s :
  starts_with "/" s = true → canonical (clean s) ∧ ".." ∉ (components (clean s)).2.
Proof.
  intros (names & Hn & ->)%clean_rooted. change ("/" +:+ join "/" names) with (of_components (true, names)).
  pose proof (names_path_components _ Hn) as Hp. split; [by apply canonical_of|].
  rewrite components_of by done. simpl. intros Hin. apply (proj1 (Forall_forall _ _) Hn) in Hin as (_ & _ & ? & _). done.
Qed.

Lemma clean_clean `{PathCleanLaws} s : starts_with "/" s = true → clean (clean s) = clean s.
Proof. intros (names & Hn & ->)%clean_rooted. by apply clean_rooted_id. Qed.

Definition below (p : string) (segs : list string) : string := foldl path_join p segs.

Lemma below_spec p segs :
  canonical p → Forall path_component segs →
  canonical (below p segs) ∧ components (below p segs) = (true, (components p).2 ++ segs).
Proof.
  intros Hp Hsegs. revert p Hp. induction Hsegs as [|s segs Hs Hsegs IH]; intros p Hp.
  - split; [done|]. rewrite app_nil_r. by apply canonical_components.
  - change (below p (s :: segs)) with (below (path_join p s) segs).
    destruct (path_join_below p s Hp Hs) as (Hc & Hcomp & _).
    destruct (IH _ Hc) as [? ->]. split; [done|]. rewrite Hcomp. cbn [snd]. by rewrite <-app_assoc.
Qed.

Lemma below_parent p segs :
  canonical p → Forall path_component segs → segs ≠ [] →
  path_parent (below p segs) = Some (below p (removelast segs)).
Proof.
  intros Hp Hsegs Hne. destruct (exists_last Hne) as (init & s & ->).
  rewrite removelast_last. apply Forall_app in Hsegs as [Hinit [Hs _]%Forall_cons].
  destruct (below_spec p init Hp Hinit) as [Hc _].
  destruct (path_join_below _ s Hc Hs) as (_ & _ & Hpar). unfold below in *.
  rewrite foldl_app. exact Hpar.
Qed.
