(* ===== verification/IncludeTrust.v ===== *)
(** * IncludeTrust: what an included bundle may reach

    [ratect-core/src/include_trust.rs], with [Remote] of [git_include.rs] and
    [printable] of [ui.rs], which its messages and one stored name are made
    with.  A [Boundary] holds the checkout a bundle's files must stay in and
    what the bundle was granted; the checks here say which file may be read
    and which host path may be used.  The host is an interface; refusals are
    values of [trust_error], their texts left out. *)

From S2P Require Import Prelude Text Collections Regex Dockerignore Paths.
From stdpp Require Import options.

(** ** Names in messages *)

Definition hex_digit (n : N) : ascii :=
  if (n <? 10)%N then ascii_of_N (48 + n) else ascii_of_N (87 + n).

(** [char::escape_debug] of a control character. *)
Definition escape_debug (c : ascii) : list ascii :=
  if bool_decide (code c = 0%N) then chars "\0"
  else if bool_decide (code c = 9%N) then chars "\t"
  else if bool_decide (code c = 13%N) then chars "\r"
  else if bool_decide (code c = 10%N) then chars "\n"
  else
    let high := (code c / 16)%N in
    chars "\u{" ++ (if bool_decide (high = 0%N) then [] else [hex_digit high])
      ++ [hex_digit (code c mod 16)] ++ chars "}".

Definition escape_controls (value : string) (escaped : ascii → bool) : string :=
  of_chars (chars value ≫= λ c, if is_control c && escaped c then escape_debug c else [c]).

Definition printable (value : string) : string := escape_controls value (λ _, true).

(** [{:?}] of a text: quoted, with the quotes, backslashes and chars that do not
    print escaped. *)
Definition debug_char (c : ascii) : list ascii :=
  if bool_decide (code c = 34%N) || bool_decide (code c = 92%N) then ["\"%char; c]
  else if is_control c || bool_decide (code c = 160%N) || bool_decide (code c = 173%N) then escape_debug c
  else [c].

Definition debug_quoted (s : string) : string :=
  String "034" (of_chars (chars s ≫= debug_char)) +:+ String "034" EmptyString.

(** ** Remotes *)

Notation Remote := string (only parsing).

(** A URL without what precedes its last [@]. *)
Definition redacted (remote : Remote) : string :=
  match find_str "://" remote with
  | None => remote
  | Some scheme_end =>
      let head := of_chars (take (scheme_end + 3) (chars remote)) in
      let rest := of_chars (drop (scheme_end + 3) (chars remote)) in
      match rsplit_once "@" rest with
      | Some (_, host) => head +:+ "***@" +:+ host
      | None => remote
      end
  end.

Definition display_remote (remote : Remote) : string := printable (redacted remote).

Definition hides_credentials (remote : Remote) : bool :=
  match find_str "://" remote with
  | None => false
  | Some scheme_end => contains_char "@" (of_chars (drop (scheme_end + 3) (chars remote)))
  end.

Definition describe_include (remote : Remote) (git_ref : string) : string :=
  "'" +:+ display_remote remote +:+ "' at '" +:+ printable git_ref +:+ "'".

(** ** Grants *)

Record Grants := mk_grants { g_host_paths : bool; g_nested_git : option bool }.

Record Trust := mk_trust { t_host_paths : bool; t_nested_git : bool }.
#[global] Instance Trust_eq_dec : EqDecision Trust.
Proof. solve_decision. Defined.

Definition trust_none : Trust := mk_trust false false.

Record BundleId := mk_bundle_id { bi_remote : Remote; bi_git_ref : string }.
#[global] Instance BundleId_eq_dec : EqDecision BundleId.
Proof. solve_decision. Defined.

Record Bundle := mk_bundle { bu_id : BundleId; bu_trust : Trust }.
#[global] Instance Bundle_eq_dec : EqDecision Bundle.
Proof. solve_decision. Defined.

(** What an entry asks for counts only in a file outside every bundle. *)
Definition granted (declaring : option Bundle) (id : BundleId) (asked : Grants) : Bundle :=
  let owner_declared := match declaring with None => true | Some _ => false end in
  mk_bundle id (mk_trust (g_host_paths asked && owner_declared)
                         (default false (g_nested_git asked) && owner_declared)).

Record Boundary := mk_boundary { bo_repo_dir : string; bo_bundle : Bundle }.
#[global] Instance Boundary_eq_dec : EqDecision Boundary.
Proof. solve_decision. Defined.

Inductive HostPathField := VolumesField | BuildDirectoryField | BuildSecretsField | BuildSshField.
#[global] Instance HostPathField_eq_dec : EqDecision HostPathField.
Proof. solve_decision. Defined.

Definition field_name (field : HostPathField) : string :=
  match field with
  | VolumesField => "volumes"
  | BuildDirectoryField => "build_directory"
  | BuildSecretsField => "build_secrets"
  | BuildSshField => "build_ssh"
  end.

Inductive Escape := Lexical | ViaSymlink (real : string).

Inductive trust_error :=
| EscapesRepository (file : string) (bundle : BundleId)
| EscapesViaSymlink (file : string) (bundle : BundleId)
| FileUnresolved (file : string) (bundle : BundleId)
| CheckoutUnresolved (bundle : BundleId)
| PathUnresolved (path : string) (bundle : BundleId)
| PathEscapes (path project_dir : string) (field : HostPathField) (escape : Escape) (bundle : BundleId)
| NativeIncludeField (field : string) (repo : Remote)
| NestedGitInclude (declaring : BundleId) (repo : Remote)
| GrantsLost (fields : list string) (repo : Remote).

(** ** The host's files *)

(** [Path::canonicalize] *)
Inductive canonical_answer := RealPath (path : string) | NotFound | Unresolvable.

(** What is asked of the host in a state [W] of the world: the current
    directory, the home directory of the user's [/etc/passwd] entry, and the
    files. *)
Class FileTree (W : Type) := {
  current_dir : W → option string;
  home_directory : W → option string;
  canonicalize : W → string → canonical_answer;
  is_file : W → string → bool;
  exists_at : W → string → bool;
}.

(** What the standard library and the user's account say of them: both
    directories are absolute. *)
Class FileTreeLaws (W : Type) `{!FileTree W} : Prop := {
  current_dir_rooted w d : current_dir w = Some d → starts_with "/" d = true;
  home_directory_rooted w d : home_directory w = Some d → starts_with "/" d = true;
}.

(** [absolute_path] of [ratect-core/src/config.rs]. *)
Definition absolute_path `{!PathClean, FileTree W} (w : W) (path : string) : option string :=
  cwd ← current_dir w; Some (clean (path_join cwd path)).

(** The loop of [real_path_as_far_as_it_exists]; [missing_tail] is kept with
    the component pushed last in front. *)
Fixpoint real_path_loop `{FileTree W} (fuel : nat) (w : W) (path existing : string)
    (missing_tail : list string) : option string :=
  match fuel with
  | 0 => None
  | S fuel =>
      match canonicalize w existing with
      | RealPath canonical => Some (foldl path_join canonical missing_tail)
      | Unresolvable => None
      | NotFound =>
          match path_parent existing, file_name existing with
          | Some parent, Some name => real_path_loop fuel w path parent (name :: missing_tail)
          | _, _ => Some path
          end
      end
  end.

Definition real_path_as_far_as_it_exists `{FileTree W} (w : W) (path : string) : option string :=
  real_path_loop (S (length (components path).2)) w path path [].

(** ** Containment *)

Definition walk (s : string) : list string :=
  (if (components s).1 then ["/"] else []) ++ (components s).2.

Fixpoint relative_parts (root path : list string) : list string :=
  match root, path with
  | r :: root', p :: path' =>
      if bool_decide (r = p) then relative_parts root' path' else replicate (length root) ".." ++ path
  | _, _ => replicate (length root) ".." ++ path
  end.

Definition relative_to (root path : string) : string :=
  foldl path_join EmptyString (relative_parts (walk root) (walk path)).

Section boundary.
Context `{!PathClean, FileTree W}.

Definition check_contains (b : Boundary) (resolved : string) : result () trust_error :=
  let resolved := clean resolved in
  ensure (path_starts_with resolved (bo_repo_dir b)) (EscapesRepository resolved (bu_id (bo_bundle b))).

Definition describe (b : Boundary) (path : string) : string :=
  "'" +:+ printable (relative_to (bo_repo_dir b) (clean path)) +:+ "' from the bundle "
    +:+ describe_include (bi_remote (bu_id (bo_bundle b))) (bi_git_ref (bu_id (bo_bundle b))).

Definition describe_origin (origin : string) (boundary : option Boundary) : string :=
  match boundary with
  | Some b => describe b origin
  | None => debug_quoted origin
  end.

Definition check_contains_canonical (w : W) (b : Boundary) (resolved : string) : result () trust_error :=
  match canonicalize w resolved with
  | RealPath canonical_resolved =>
      match canonicalize w (bo_repo_dir b) with
      | RealPath canonical_root =>
          ensure (path_starts_with canonical_resolved canonical_root)
            (EscapesViaSymlink resolved (bu_id (bo_bundle b)))
      | _ => Err (CheckoutUnresolved (bu_id (bo_bundle b)))
      end
  | _ => Err (FileUnresolved resolved (bu_id (bo_bundle b)))
  end.

Definition boundary_contains (w : W) (boundary : option Boundary) (resolved : string)
    : result () trust_error :=
  match boundary with
  | None => Ok tt
  | Some b =>
      let? _ := check_contains b resolved in
      check_contains_canonical w b resolved
  end.

Definition describe_in_checkout (b : Boundary) (path : string) : option string :=
  if bool_decide (components path = components (bo_repo_dir b))
  then Some ("the checkout of the bundle "
    +:+ describe_include (bi_remote (bu_id (bo_bundle b))) (bi_git_ref (bu_id (bo_bundle b))))
  else if path_starts_with path (bo_repo_dir b) then Some (describe b path)
  else None.

Definition real_path (w : W) (b : Boundary) (path : string) : result string trust_error :=
  ok_or (real_path_as_far_as_it_exists w path) (PathUnresolved path (bu_id (bo_bundle b))).

Definition check_path_allowed (w : W) (b : Boundary) (resolved project_dir : string)
    (field : HostPathField) : result () trust_error :=
  let resolved := clean resolved in
  if t_host_paths (bu_trust (bo_bundle b)) then Ok tt
  else if negb (path_starts_with resolved (bo_repo_dir b) || path_starts_with resolved project_dir)
  then Err (PathEscapes resolved project_dir field Lexical (bu_id (bo_bundle b)))
  else
    let? real := real_path w b resolved in
    let? repo := real_path w b (bo_repo_dir b) in
    if path_starts_with real repo then Ok tt
    else
      let? project := real_path w b project_dir in
      ensure (path_starts_with real project)
        (PathEscapes resolved project_dir field (ViaSymlink real) (bu_id (bo_bundle b))).
End boundary.

(** ** Which file may declare a Git include *)

Inductive ConfigFormat := Compat | Native.
#[global] Instance ConfigFormat_eq_dec : EqDecision ConfigFormat.
Proof. solve_decision. Defined.

Definition restricting (declaring : option Bundle) (format : ConfigFormat) : option Bundle :=
  match format with Native => declaring | Compat => None end.

Inductive BatectFile := YamlRootProject | OwnedFile | BundleFile | BundleOfYamlRootProject.
#[global] Instance BatectFile_eq_dec : EqDecision BatectFile.
Proof. solve_decision. Defined.

Definition batect_file_of (in_bundle root_is_batect : bool) : BatectFile :=
  match in_bundle, root_is_batect with
  | false, true => YamlRootProject
  | false, false => OwnedFile
  | true, false => BundleFile
  | true, true => BundleOfYamlRootProject
  end.

Definition REVIEWED_FIELD : string := "reviewed_ratect_version".

Definition check_dialect (asked : Grants) (reviews : bool) (batect_file : option BatectFile)
    (repo : Remote) : result () trust_error :=
  match batect_file with
  | None => Ok tt
  | Some _ =>
      match g_nested_git asked with
      | Some _ => Err (NativeIncludeField "allow_nested_git_includes" repo)
      | None => ensure (negb reviews) (NativeIncludeField REVIEWED_FIELD repo)
      end
  end.

Definition refusing_nested_git (restricted : option Bundle) : option Bundle :=
  declaring ← restricted;
  if t_nested_git (bu_trust declaring) then None else Some declaring.

Definition check_may_declare_git (restricted : option Bundle) (repo : Remote)
    : result () trust_error :=
  match refusing_nested_git restricted with
  | None => Ok tt
  | Some declaring => Err (NestedGitInclude (bu_id declaring) repo)
  end.

Definition refuse_read {E} (check : result () E) : bool := negb (is_ok check).

(** ** Grants that arrive too late *)

Notation EffectiveGrants := (gmap string (option Trust)).

Definition record_grant (file : string) (trust : option Trust) (g : EffectiveGrants) : EffectiveGrants :=
  match g !! file with Some _ => g | None => <[file := trust]> g end.

Definition lost_fields (wanted effective : Trust) : list string :=
  (if t_host_paths wanted && negb (t_host_paths effective) then ["allow_host_paths"] else [])
  ++ (if t_nested_git wanted && negb (t_nested_git effective)
      then ["allow_nested_git_includes"] else []).

Definition check_grant (g : EffectiveGrants) (file : string) (wanted : Trust) (repo : Remote)
    : result () trust_error :=
  match g !! file with
  | Some None => Ok tt
  | Some (Some effective) =>
      match lost_fields wanted effective with
      | [] => Ok tt
      | lost => Err (GrantsLost lost repo)
      end
  | None =>
      match lost_fields wanted trust_none with
      | [] => Ok tt
      | lost => Err (GrantsLost lost repo)
      end
  end.
