(* ===== verification/WrittenFor.v ===== *)
(** * WrittenFor: the release a configuration was written for

    [ratect-core/src/written_for.rs]: versions, the table of breaking changes,
    the refusal of a project or a bundle that predates one, and the detectors
    that say whether a change touches the files.  A TOML document is the tree
    the [toml] crate reads; reading one from disk is an interface.  Of a
    refusal the texts of its opening and remedy are left out. *)

From S2P Require Import Prelude Text Collections Regex Dockerignore Paths IncludeTrust.
From S2P Require Expressions.
From stdpp Require Import options.

(** ** TOML documents *)

(** [toml::Value]; what is neither text nor nested is kept apart only from
    those. *)
Inductive Value :=
| TomlString (s : string)
| TomlArray (l : list Value)
| TomlTable (t : list (string * Value))
| TomlScalar.
Notation Table := (list (string * Value)).

Fixpoint table_get (t : Table) (key : string) : option Value :=
  match t with
  | [] => None
  | (k, v) :: t => if decide (k = key) then Some v else table_get t key
  end.

Definition as_str (v : Value) : option string :=
  match v with TomlString s => Some s | _ => None end.
Definition as_array (v : Value) : option (list Value) :=
  match v with TomlArray l => Some l | _ => None end.
Definition as_table (v : Value) : option Table :=
  match v with TomlTable t => Some t | _ => None end.
Definition value_get (v : Value) (key : string) : option Value := t ← as_table v; table_get t key.

(** What is asked of the files and of the [toml] crate. *)
Class TomlFiles (W : Type) := {
  read_to_string : W → string → option string;
  parse_toml : string → option Table;
}.

Record TomlFile := mk_toml_file { tf_name : string; tf_document : Table }.
Record Hit := mk_hit { h_field : string; h_file : string }.
#[global] Instance Hit_eq_dec : EqDecision Hit.
Proof. solve_decision. Defined.

(** ** Versions *)

Record Version := mk_version { v_major : N; v_minor : N; v_patch : N }.
#[global] Instance Version_eq_dec : EqDecision Version.
Proof. solve_decision. Defined.

Definition release_line (v : Version) : N * N := (v_major v, v_minor v).

(** [>] on pairs of [u64]. *)
Definition line_gt (a b : N * N) : bool :=
  (b.1 <? a.1)%N || ((a.1 =? b.1)%N && (b.2 <? a.2)%N).

Definition version_number (part : string) : option N :=
  if forallb is_ascii_digit (chars part) then parse_unsigned u64_max part else None.

Definition version_from_str (text : string) : option Version :=
  release ← match split_once "-" text with
            | Some (release, pre) => if bool_decide (pre = EmptyString) then None else Some release
            | None => Some text
            end;
  match split "." release with
  | [major; minor; patch] =>
      major ← version_number major;
      minor ← version_number minor;
      patch ← version_number patch;
      Some (mk_version major minor patch)
  | _ => None
  end.

Definition version_show (v : Version) : string :=
  show_N (v_major v) +:+ "." +:+ show_N (v_minor v) +:+ "." +:+ show_N (v_patch v).

Definition FIELD : string := "ratect_version".
Definition FIRST_NATIVE_RELEASE : Version := mk_version 0 3 0.

(** ** Detectors *)

Definition includes_of (file : TomlFile) : list Value :=
  default [] (table_get (tf_document file) "include" ≫= as_array).

Definition hits_of_files (found : list Value → bool) (files : list TomlFile) : list Hit :=
  (λ file, mk_hit "include" (tf_name file)) <$>
    filter (λ file, found (includes_of file) = true) files.

Definition is_git_entry (entry : Value) : bool :=
  bool_decide ((value_get entry "type" ≫= as_str) = Some "git").

Definition declares_git_include (files : list TomlFile) : list Hit :=
  hits_of_files (existsb is_git_entry) files.

Definition local_path (entry : Value) : option string :=
  match entry with
  | TomlString path => Some path
  | TomlTable table =>
      match as_str <$> table_get table "type" with
      | None | Some (Some "file") => table_get table "path" ≫= as_str
      | Some _ => None
      end
  | _ => None
  end.

Definition from_home (path : string) : bool :=
  match components path with
  | (false, first :: _) => bool_decide (first = "~")
  | _ => false
  end.

Definition includes_from_home_directory (files : list TomlFile) : list Hit :=
  hits_of_files (λ entries, existsb from_home (omap local_path entries)) files.

Definition table_of (v : option Value) : Table := default [] (v ≫= as_table).
Definition array_of (v : option Value) : list Value := default [] (v ≫= as_array).

(** [push]: the text of a field, if it is one. *)
Definition pushed (field : string) (v : option Value) : list (string * string) :=
  match v ≫= as_str with Some text => [(field, text)] | None => [] end.

Definition volume_local (volume : Value) : option string :=
  match volume with
  | TomlString entry => head (split ":" entry)
  | TomlTable object =>
      match as_str <$> table_get object "type" with
      | None | Some (Some "local") => table_get object "local" ≫= as_str
      | Some _ => None
      end
  | _ => None
  end.

Definition container_expressions (name : string) (c : Value) : list (string * string) :=
  let field rest := "containers." +:+ name +:+ "." +:+ rest in
  pushed (field "image") (value_get c "image")
  ++ pushed (field "build_directory") (value_get c "build_directory")
  ++ (array_of (value_get c "volumes") ≫= λ volume,
        match volume_local volume with Some local => [(field "volumes", local)] | None => [] end)
  ++ (table_of (value_get c "environment") ≫= λ '(key, v), pushed (field ("environment." +:+ key)) (Some v))
  ++ (table_of (value_get c "build_args") ≫= λ '(key, v), pushed (field ("build_args." +:+ key)) (Some v))
  ++ (table_of (value_get c "build_secrets") ≫= λ '(key, secret),
        pushed (field ("build_secrets." +:+ key +:+ ".path")) (value_get secret "path"))
  ++ (array_of (value_get c "build_ssh") ≫= λ agent,
        array_of (value_get agent "paths") ≫= λ path, pushed (field "build_ssh.paths") (Some path))
  ++ pushed (field "identity.home") (value_get c "identity" ≫= λ identity, value_get identity "home").

Definition task_expressions (name : string) (task : Value) : list (string * string) :=
  (table_of (value_get task "run" ≫= λ run, value_get run "environment") ≫= λ '(key, v),
     pushed ("tasks." +:+ name +:+ ".run.environment." +:+ key) (Some v))
  ++ (table_of (value_get task "customise") ≫= λ '(container, customisation),
        table_of (value_get customisation "environment") ≫= λ '(key, v),
          pushed ("tasks." +:+ name +:+ ".customise." +:+ container +:+ ".environment." +:+ key) (Some v)).

Definition expressions (document : Table) : list (string * string) :=
  (table_of (table_get document "containers") ≫= λ '(name, c), container_expressions name c)
  ++ (table_of (table_get document "tasks") ≫= λ '(name, task), task_expressions name task).

(** [Vec::dedup] *)
Fixpoint dedup_hits (l : list Hit) : list Hit :=
  match l with
  | x :: ((y :: _) as l') => if decide (x = y) then dedup_hits l' else x :: dedup_hits l'
  | l => l
  end.

Definition expression_hits (files : list TomlFile) (uses : string → bool) : list Hit :=
  dedup_hits (files ≫= λ file,
    (λ p : string * string, mk_hit p.1 (tf_name file)) <$>
      filter (λ p, uses p.2 = true) (expressions (tf_document file))).

Definition expressions_with_a_backslash (files : list TomlFile) : list Hit :=
  expression_hits files (contains_char "\").

(** [reference_before_0_12]: the reference read at the head of [l], which is
    the text from [start]. *)
Definition old_name_start (c : ascii) : bool := is_ascii_alphabetic c || bool_decide (c = "_"%char).
Definition old_name_char (sigil c : ascii) : bool :=
  is_ascii_alphanumeric c || bool_decide (c = "_"%char)
  || (bool_decide (sigil = "<"%char) && bool_decide (c = "."%char)).

Fixpoint take_while (p : ascii → bool) (l : list ascii) : list ascii :=
  match l with
  | c :: l => if p c then c :: take_while p l else []
  | [] => []
  end.

(** [split_once(":-")] *)
Fixpoint split_default (l : list ascii) : option (list ascii * list ascii) :=
  match l with
  | ":"%char :: "-"%char :: rest => Some ([], rest)
  | c :: l => '(before, after) ← split_default l; Some (c :: before, after)
  | [] => None
  end.

Definition reference_before_0_12 (l : list ascii) (start : nat) : option Expressions.Token :=
  match l with
  | sigil :: rest =>
      if negb (bool_decide (sigil = "$"%char) || bool_decide (sigil = "<"%char)) then None
      else
        match rest with
        | [] => None
        | "{"%char :: body =>
            '(inner, _) ← split_once_l "}" body;
            let '(name, default) :=
              match split_default inner with
              | Some (name, default) =>
                  if bool_decide (sigil = "$"%char) then (name, Some (of_chars default)) else (inner, None)
              | None => (inner, None)
              end in
            match name with
            | c :: _ =>
                if old_name_start c && forallb (old_name_char sigil) name
                then Some (Expressions.mk_token start (length inner + 3) sigil (of_chars name) default)
                else None
            | [] => None
            end
        | first :: _ =>
            if old_name_start first then
              let name := take_while (old_name_char sigil) rest in
              Some (Expressions.mk_token start (length name + 1) sigil (of_chars name) None)
            else None
        end
  | [] => None
  end.

(** The loop of [references_before_0_12]: [skip] chars of [l] belong to the
    reference found last. *)
Fixpoint old_references (l : list ascii) (start skip : nat) : list Expressions.Token :=
  match l with
  | [] => []
  | _ :: l' =>
      match skip with
      | S skip => old_references l' (S start) skip
      | 0 =>
          match reference_before_0_12 l start with
          | Some token => token :: old_references l' (S start) (Expressions.len token - 1)
          | None => old_references l' (S start) 0
          end
      end
  end.

Definition references_before_0_12 (value : string) : list Expressions.Token :=
  old_references (chars value) 0 0.

Definition expressions_read_differently (files : list TomlFile) : list Hit :=
  expression_hits files (λ value,
    match Expressions.references value with
    | Ok now => negb (bool_decide (now = references_before_0_12 value))
    | Err _ => false
    end).

(** ** The table of changes *)

Inductive Check :=
| FailsTheLoad
| Detected (detect : list TomlFile → list Hit)
| NotChecked.

Record BreakingChange := mk_change { ch_version : string; ch_summary : string; ch_check : Check }.

Definition BREAKING_CHANGES : list BreakingChange := [
  mk_change "0.12.0"
    ("a '\' in an expression escapes the character after it and is dropped, and a trailing "
     +:+ "'\' fails the load")
    (Detected expressions_with_a_backslash);
  mk_change "0.12.0"
    ("every '$' or '<' in an expression starts a reference, so a malformed one ('$$', 'a < "
     +:+ "b', '${X:default}') fails the load, and an unbraced name ends at '.' or '-' (write "
     +:+ "'<{batect.project_directory}')")
    (Detected expressions_read_differently);
  mk_change "0.12.0"
    ("a task or config variable name Batect refuses fails the load: a task name is letters, "
     +:+ "digits, ':', '-', '.' and '_', starting and ending with a letter or digit; a config "
     +:+ "variable name is letters, digits, '-', '.' and '_', starting with a letter and not "
     +:+ "with 'batect'")
    FailsTheLoad;
  mk_change "0.12.0"
    ("'project_name' and every container name must be a Docker image-name component, or the "
     +:+ "load fails: lowercase letters and digits, joined by a single '.', one or two '_', or "
     +:+ "any number of '-'")
    FailsTheLoad;
  mk_change "0.12.0"
    ("an included file that sets 'forbid_telemetry' to true fails the load; only the root "
     +:+ "file may")
    FailsTheLoad;
  mk_change "0.12.0"
    ("a string 'volumes' or 'devices' entry with an empty options segment ('a:b:') fails "
     +:+ "the load")
    FailsTheLoad;
  mk_change "0.12.0"
    ("a local include's 'path' whose first component is '~' is looked for in the home "
     +:+ "directory, not in a '~' directory beside the file declaring it")
    (Detected includes_from_home_directory);
  mk_change "0.12.0"
    ("a 'command', 'entrypoint', 'run.command', 'run.entrypoint' or setup command that "
     +:+ "can't be split into arguments (an unbalanced quote, a trailing '\') fails the load, "
     +:+ "even where no task runs it")
    FailsTheLoad;
  mk_change "0.12.0"
    ("a Git bundle is refused until the 'ratect_version' of the file its include names, or "
     +:+ "the include's 'reviewed_ratect_version', covers every change since; the root's "
     +:+ "'ratect_version' doesn't cover a bundle")
    (Detected declares_git_include);
  mk_change "0.13.0"
    ("'run_as_current_user' in a TOML file, or inherited through 'extends' from a YAML file "
     +:+ "and enabled, fails the load; use 'identity' instead")
    FailsTheLoad ].

Definition newer_than (declared : Version) (row : BreakingChange) : bool :=
  match version_from_str (ch_version row) with
  | Some version => line_gt (release_line version) (release_line declared)
  | None => false
  end.

Definition changes_since (declared : Version) (table : list BreakingChange) : list BreakingChange :=
  filter (λ row, newer_than declared row = true) table.

(** ** Refusals *)

Inductive WrittenFor := Declared (v : Version) | Unmarked | YamlRoot.
#[global] Instance WrittenFor_eq_dec : EqDecision WrittenFor.
Proof. solve_decision. Defined.

Inductive Scope := ProjectScope | BundleScope (bundle : BundleId).

Definition covers (scope : Scope) (bundle : option BundleId) : bool :=
  match scope, bundle with
  | ProjectScope, None => true
  | BundleScope scope, Some bundle =>
      bool_decide (bi_remote scope = bi_remote bundle) && bool_decide (bi_git_ref scope = bi_git_ref bundle)
  | _, _ => false
  end.

Inductive Outcome :=
| Loads | DoesNotLoad | NoneFound | Found (hits : list Hit) | Unknown | OutcomeNotChecked.

Definition rules_out (o : Outcome) : bool :=
  match o with Loads | NoneFound => true | _ => false end.

Record Assessment := mk_assessment { as_outcomes : list Outcome; as_load_error : option string }.

Record Refusal := mk_refusal {
  rf_rows : list BreakingChange;
  rf_running : Version;
  rf_scope : Scope;
  rf_fallback : option (string * string);
  rf_assessment : option Assessment;
}.

Inductive written_error :=
| InvalidVersion (file : string)
| InvalidReviewed (declared_in : string) (bundle : BundleId)
| NeedsLater (declared running : Version)
| ReviewedLater (reviewed running : Version)
| Refused (refusal : Refusal).

Section files.
Context `{!PathClean, !FileTree W, !TomlFiles W}.

Definition read (w : W) (root : string) : result (option WrittenFor) written_error :=
  let is_yaml :=
    match extension root with
    | Some ext => bool_decide (to_ascii_lowercase ext = "yml") || bool_decide (to_ascii_lowercase ext = "yaml")
    | None => false
    end in
  if is_yaml then Ok (if is_file w root then Some YamlRoot else None)
  else
    match read_to_string w root ≫= parse_toml with
    | None => Ok None
    | Some table =>
        match table_get table FIELD with
        | None => Ok (Some Unmarked)
        | Some value =>
            let? version := ok_or (as_str value ≫= version_from_str) (InvalidVersion root) in
            Ok (Some (Declared version))
        end
    end.

Definition check_against (w : W) (root : option string) (written_for : WrittenFor) (running : Version)
    (table : list BreakingChange) : result () written_error :=
  let declared := match written_for with Declared v => v | _ => FIRST_NATIVE_RELEASE end in
  if line_gt (release_line declared) (release_line running) then Err (NeedsLater declared running)
  else
    match changes_since declared table with
    | [] => Ok tt
    | rows =>
        Err (Refused (mk_refusal rows running ProjectScope
          ((λ root, let root := default root (absolute_path w root) in (debug_quoted root, root)) <$> root)
          None))
    end.

Definition check (w : W) (root : string) (running : Version) : result () written_error :=
  let? written_for := read w root in
  match written_for with
  | None | Some YamlRoot => Ok tt
  | Some written_for => check_against w (Some root) written_for running BREAKING_CHANGES
  end.

Definition check_yaml_root_against (w : W) (toml_files : list string) (running : Version)
    (table : list BreakingChange) : result () written_error :=
  match toml_files with
  | [] => Ok tt
  | _ => check_against w None YamlRoot running table
  end.

Definition check_yaml_root (w : W) (root : string) (toml_files : list string) (running : Version)
    : result () written_error :=
  let? written_for := read w root in
  if bool_decide (written_for = Some YamlRoot)
  then check_yaml_root_against w toml_files running BREAKING_CHANGES
  else Ok tt.
End files.

Record BundleEntry := mk_bundle_entry {
  be_entry_file : string;
  be_declared_in : string;
  be_declared_in_batect : option BatectFile;
  be_written_for : WrittenFor;
  be_first_toml : option string;
  be_reviewed : option Version;
  be_bundle : BundleId;
  be_entry_path : string;
}.

(** The later of what the entry file declares and what its include was
    reviewed for. *)
Definition effective_version (declared reviewed : option Version) : Version :=
  match declared, reviewed with
  | Some d, Some r => if line_gt (release_line d) (release_line r) then d else r
  | Some v, None | None, Some v => v
  | None, None => FIRST_NATIVE_RELEASE
  end.

Definition check_bundle (entry : BundleEntry) (running : Version) (table : list BreakingChange)
    : result () written_error :=
  let declared := match be_written_for entry with Declared v => Some v | _ => None end in
  let later v := line_gt (release_line v) (release_line running) in
  let? _ := match declared with
            | Some v => ensure (negb (later v)) (NeedsLater v running)
            | None => Ok tt
            end in
  let? _ := match be_reviewed entry with
            | Some v => ensure (negb (later v)) (ReviewedLater v running)
            | None => Ok tt
            end in
  if bool_decide (be_written_for entry = YamlRoot) && bool_decide (be_first_toml entry = None) then Ok tt
  else
    match changes_since (effective_version declared (be_reviewed entry)) table with
    | [] => Ok tt
    | rows =>
        Err (Refused (mk_refusal rows running (BundleScope (be_bundle entry))
          (if bool_decide (be_written_for entry = YamlRoot) then None
           else Some (be_entry_file entry, be_entry_path entry)) None))
    end.

(** ** What a refusal's rows touch *)

Inductive Readable := Every (files : list TomlFile) | Only (files : list TomlFile).

Definition readable_files (r : Readable) : list TomlFile := match r with Every f | Only f => f end.

Definition row_outcome (load_error : option string) (readable : Readable) (row : BreakingChange)
    : Outcome :=
  match ch_check row with
  | NotChecked => OutcomeNotChecked
  | FailsTheLoad => match load_error with None => Loads | Some _ => DoesNotLoad end
  | Detected detect =>
      match detect (readable_files readable) with
      | [] => match readable with Every _ => NoneFound | Only _ => Unknown end
      | hits => Found hits
      end
  end.

Definition with_outcomes (r : Refusal) (load_error : option string) (readable : Readable) : Refusal :=
  mk_refusal (rf_rows r) (rf_running r) (rf_scope r) (rf_fallback r)
    (Some (mk_assessment (row_outcome load_error readable <$> rf_rows r) load_error)).

(** [trial] is what the trial load gives: the documents of its files a scope
    covers, with whether they are all, or its error. *)
Definition assess `{!TomlFiles W} (w : W) (r : Refusal)
    (trial : result (Scope → option (list TomlFile * bool)) string) : Refusal :=
  match trial with
  | Ok project =>
      match project (rf_scope r) with
      | Some (files, true) => with_outcomes r None (Every files)
      | Some (files, false) => with_outcomes r None (Only files)
      | None => with_outcomes r None (Only [])
      end
  | Err error =>
      let fallback := omap (λ '(name, path),
        document ← read_to_string w path ≫= parse_toml; Some (mk_toml_file name document))
        (match rf_fallback r with Some f => [f] | None => [] end) in
      with_outcomes r (Some error) (Only fallback)
  end.
