(* ===== verification/WrittenForSpec.v ===== *)
(** * WrittenForSpec: what is refused for its version, and what the rows touch *)

From S2P Require Import Prelude Text Collections Regex Dockerignore Paths IncludeTrust WrittenFor.
From S2P Require Expressions.
From stdpp Require Import options.

(** ** Versions *)

Definition line_le (a b : N * N) : Prop := line_gt a b = false.

Lemma line_gt_lex a b : line_gt a b = true ↔ (b.1 < a.1)%N ∨ a.1 = b.1 ∧ (b.2 < a.2)%N.
Proof. unfold line_gt. rewrite orb_true_iff, andb_true_iff, !N.ltb_lt, N.eqb_eq. done. Qed.

Lemma line_gt_trans a b c : line_gt a b = true → line_le c b → line_gt a c = true.
Proof.
  unfold line_le. rewrite <-not_true_iff_false, !line_gt_lex. intros H1 H2. lia.
Qed.

Lemma version_roundtrip v :
  (v_major v ≤ u64_max)%N → (v_minor v ≤ u64_max)%N → (v_patch v ≤ u64_max)%N →
  version_from_str (version_show v) = Some v.
Proof.
  intros H1 H2 H3. destruct v as [major minor patch]. simpl in *.
  assert (∀ n, (n ≤ u64_max)%N → version_number (show_N n) = Some n) as Hn.
  { intros n Hn. unfold version_number. rewrite (proj2 (forallb_forall _ _)).
    - by rewrite parse_show_N.
    - intros c Hc. apply list_elem_of_In in Hc. by eapply show_N_digits. }
  assert (∀ c n, (c = "-" ∨ c = ".")%char → c ∉ chars (show_N n)) as Hc.
  { intros c n Hc. apply show_N_not_elem. by destruct Hc as [->| ->]. }
  unfold version_from_str, version_show. simpl.
  set (text := join (String "." EmptyString) [show_N major; show_N minor; show_N patch]).
  assert ("-"%char ∉ chars text) as Hdash.
  { unfold text, join. rewrite !chars_app, !elem_of_app. simpl.
    rewrite list_elem_of_singleton. pose proof (λ n, Hc "-"%char n (or_introl eq_refl)) as Hd.
    intros [?|[?|[?|[?|?]]]]; [by eapply Hd|done|by eapply Hd|done|by eapply Hd]. }
  change (show_N major +:+ "." +:+ show_N minor +:+ "." +:+ show_N patch) with text.
  rewrite (proj2 (split_once_None "-" text) Hdash). simpl.
  unfold text. rewrite split_join; [by rewrite !Hn| |].
  - done.
  - repeat constructor; apply Hc; by right.
Qed.

(** ** What a bundle is judged by *)

(** The releases a bundle says it was written or reviewed for. *)
Definition claims (entry : BundleEntry) : list Version :=
  match be_written_for entry with Declared v => [v] | _ => [] end ++ option_list (be_reviewed entry).

Definition claims_or_first (entry : BundleEntry) : list Version :=
  match claims entry with [] => [FIRST_NATIVE_RELEASE] | l => l end.

(** [row] changed something after everything the bundle was reviewed for. *)
Definition predates (entry : BundleEntry) (row : BreakingChange) : Prop :=
  ∃ version, version_from_str (ch_version row) = Some version ∧
    ∀ claim, claim ∈ claims_or_first entry → line_gt (release_line version) (release_line claim) = true.

Definition yaml_alone (entry : BundleEntry) : Prop :=
  be_written_for entry = YamlRoot ∧ be_first_toml entry = None.

Definition not_later (running v : Version) : Prop := line_le (release_line v) (release_line running).

(** The include with its [reviewed_ratect_version] set. *)
Definition with_reviewed (entry : BundleEntry) (v : Version) : BundleEntry :=
  mk_bundle_entry (be_entry_file entry) (be_declared_in entry) (be_declared_in_batect entry)
    (be_written_for entry) (be_first_toml entry) (Some v) (be_bundle entry) (be_entry_path entry).

Lemma effective_version_predates entry row :
  newer_than (effective_version
    (match be_written_for entry with Declared v => Some v | _ => None end) (be_reviewed entry)) row = true
  ↔ predates entry row.
Proof.
  unfold newer_than, predates, claims_or_first, claims, effective_version.
  destruct (version_from_str (ch_version row)) as [version|]; [|naive_solver].
  destruct (be_written_for entry) as [d| |], (be_reviewed entry) as [r|]; simpl;
    try (setoid_rewrite list_elem_of_singleton; naive_solver).
  setoid_rewrite elem_of_cons. setoid_rewrite list_elem_of_singleton.
  destruct (line_gt (release_line d) (release_line r)) eqn:E; split.
  - intros H. exists version. split; [done|]. intros c [->| ->]; [done|].
    rewrite line_gt_lex in *. lia.
  - intros (? & [= <-] & H). by apply H; left.
  - intros H. exists version. split; [done|]. intros c [->| ->]; [|done].
    by eapply line_gt_trans.
  - intros (? & [= <-] & H). by apply H; right.
Qed.

Lemma elem_of_changes_since v table row :
  row ∈ changes_since v table ↔ row ∈ table ∧ newer_than v row = true.
Proof. unfold changes_since. rewrite list_elem_of_filter. naive_solver. Qed.

Lemma ensure_later {B} v running (e : written_error) (k : () → result B written_error) :
  result_bind (ensure (negb (line_gt (release_line v) (release_line running))) e) k
  = if line_gt (release_line v) (release_line running) then Err e else k ().
Proof. unfold ensure. by destruct (line_gt _ _). Qed.

(** The last test of [check_bundle], once no claim is later than the binary. *)
Lemma check_bundle_rows entry running table :
  (∀ v, v ∈ claims entry → not_later running v) →
  check_bundle entry running table =
    if bool_decide (be_written_for entry = YamlRoot) && bool_decide (be_first_toml entry = None) then Ok tt
    else
      match changes_since (effective_version
              (match be_written_for entry with Declared v => Some v | _ => None end)
              (be_reviewed entry)) table with
      | [] => Ok tt
      | rows =>
          Err (Refused (mk_refusal rows running (BundleScope (be_bundle entry))
            (if bool_decide (be_written_for entry = YamlRoot) then None
             else Some (be_entry_file entry, be_entry_path entry)) None))
      end.
Proof.
  unfold check_bundle, claims, not_later, line_le. intros H.
  destruct (be_written_for entry) as [d| |], (be_reviewed entry) as [r|]; simpl in *;
    rewrite ?ensure_later, ?(H d), ?(H r) by set_solver; done.
Qed.

Lemma check_bundle_later entry running table v :
  v ∈ claims entry → ¬ not_later running v →
  (∃ d, check_bundle entry running table = Err (NeedsLater d running) ∧
     be_written_for entry = Declared d ∧ ¬ not_later running d) ∨
  (∃ r, check_bundle entry running table = Err (ReviewedLater r running) ∧
     be_reviewed entry = Some r ∧ ¬ not_later running r ∧
     ∀ d, be_written_for entry = Declared d → not_later running d).
Proof.
  unfold check_bundle, claims, not_later, line_le. intros Hv Hl.
  destruct (be_written_for entry) as [d| |], (be_reviewed entry) as [r|]; simpl in *;
    rewrite ?ensure_later;
    repeat match goal with |- context [line_gt ?a ?b] => destruct (line_gt a b) eqn:? end;
    first [by left; eexists; split_and!; [done..|congruence]
          |right; eexists; split_and!; [done..|congruence|]; intros ? [= <-]; congruence
          |right; eexists; split_and!; [done..|congruence|]; intros ? ?; congruence
          |exfalso; set_solver].
Qed.

(** What each result of judging a bundle means. *)
Definition bundle_result_ok (entry : BundleEntry) (running : Version) (table : list BreakingChange)
    (r : result () written_error) : Prop :=
  match r with
  | Ok _ =>
      (∀ v, v ∈ claims entry → not_later running v) ∧
      (yaml_alone entry ∨ ∀ row, row ∈ table → ¬ predates entry row)
  | Err (NeedsLater d now) =>
      now = running ∧ be_written_for entry = Declared d ∧ ¬ not_later running d
  | Err (ReviewedLater r now) =>
      now = running ∧ be_reviewed entry = Some r ∧ ¬ not_later running r ∧
      ∀ d, be_written_for entry = Declared d → not_later running d
  | Err (Refused r) =>
      (∀ v, v ∈ claims entry → not_later running v) ∧ ¬ yaml_alone entry ∧
      rf_rows r ≠ [] ∧ rf_rows r `sublist_of` table ∧
      (∀ row, row ∈ rf_rows r ↔ row ∈ table ∧ predates entry row) ∧
      rf_running r = running ∧ rf_scope r = BundleScope (be_bundle entry) ∧ rf_assessment r = None
  | Err _ => False
  end.

#[global] Instance not_later_dec running v : Decision (not_later running v).
Proof. unfold not_later, line_le. apply _. Defined.

Lemma claims_decide entry running :
  (∀ v, v ∈ claims entry → not_later running v) ∨ ∃ v, v ∈ claims entry ∧ ¬ not_later running v.
Proof.
  destruct (decide (Forall (not_later running) (claims entry))) as [H|H].
  - left. by apply Forall_forall.
  - right. apply not_Forall_Exists, Exists_exists in H; [done|apply _].
Qed.

Lemma changes_since_sublist v table : changes_since v table `sublist_of` table.
Proof.
  unfold changes_since. induction table as [|row table IH]; [done|].
  rewrite filter_cons. case_decide; by constructor.
Qed.

Lemma yaml_alone_bool entry :
  bool_decide (be_written_for entry = YamlRoot) && bool_decide (be_first_toml entry = None) = true
  ↔ yaml_alone entry.
Proof. unfold yaml_alone. by rewrite andb_true_iff, !bool_decide_eq_true. Qed.

Lemma check_bundle_result entry running table :
  bundle_result_ok entry running table (check_bundle entry running table).
Proof.
  destruct (claims_decide entry running) as [Hc|(v & Hv & Hl)].
  - rewrite check_bundle_rows by done.
    destruct (bool_decide _ && bool_decide _) eqn:E.
    + apply yaml_alone_bool in E. simpl. eauto.
    + pose proof (elem_of_changes_since (effective_version
        (match be_written_for entry with Declared v => Some v | _ => None end) (be_reviewed entry)) table)
        as Hrow.
      pose proof (changes_since_sublist (effective_version
        (match be_written_for entry with Declared v => Some v | _ => None end) (be_reviewed entry)) table)
        as Hsub.
      setoid_rewrite effective_version_predates in Hrow.
      destruct (changes_since _ table) as [|row rows].
      * simpl. split; [done|]. right. intros row Hr Hp. by apply (not_elem_of_nil row), Hrow.
      * simpl. split_and!; try done. intros Ha. apply yaml_alone_bool in Ha. congruence.
  - by destruct (check_bundle_later entry running table v Hv Hl)
      as [(d & -> & ? & ?)|(r & -> & ? & ? & ?)].
Qed.

(** Judging a Git bundle says what it means on every result: it is accepted
    only when no release it was written or reviewed for is later than the
    running one and either it is YAML throughout or no row of the table is newer
    than all of them (0.3.0 when it says none); a refusal lists, in the table's
    order, exactly the rows newer than every such release; and setting
    [reviewed_ratect_version] to the running release accepts it whenever the
    table holds nothing the running release does not. *)
Theorem check_bundle_spec entry running table :
  bundle_result_ok entry running table (check_bundle entry running table) ∧
  ((∀ d, be_written_for entry = Declared d → not_later running d) →
   (∀ row version, row ∈ table → version_from_str (ch_version row) = Some version →
      not_later running version) →
   check_bundle (with_reviewed entry running) running table = Ok tt).
Proof.
  split; [apply check_bundle_result|]. intros Hd Ht.
  assert (∀ v, v ∈ claims (with_reviewed entry running) → not_later running v) as Hc.
  { unfold claims. simpl. intros v. rewrite elem_of_app, list_elem_of_singleton.
    intros [Hv| ->]; [|unfold not_later, line_le; rewrite <-not_true_iff_false, line_gt_lex; lia].
    destruct (be_written_for entry) eqn:E; [|by apply not_elem_of_nil in Hv..].
    apply list_elem_of_singleton in Hv as ->. by apply Hd. }
  rewrite check_bundle_rows by done. destruct (bool_decide _ && bool_decide _); [done|].
  destruct (changes_since _ table) as [|row rows] eqn:E; [done|].
  assert (row ∈ row :: rows) as Hr by left. rewrite <-E in Hr.
  apply elem_of_changes_since in Hr as [Hr (version & Hv & Hp)%effective_version_predates].
  exfalso. specialize (Ht _ _ Hr Hv). specialize (Hp running). unfold not_later, line_le in Ht.
  rewrite Hp in Ht; [done|]. unfold claims_or_first, claims. simpl.
  destruct (be_written_for entry); simpl; set_solver.
Qed.

(** ** What the detectors find *)

Lemma elem_of_dedup_hits h l : h ∈ dedup_hits l ↔ h ∈ l.
Proof.
  induction l as [|x [|y l] IH]; [done..|]. 
  change (h ∈ (if decide (x = y) then dedup_hits (y :: l) else x :: dedup_hits (y :: l)) ↔ h ∈ x :: y :: l).
  destruct (decide (x = y)) as [->|]; rewrite ?(elem_of_cons (dedup_hits _)), IH, !elem_of_cons; tauto.
Qed.

(** An expression of [file] at a field, and what it is asked. *)
Definition expression_at (file : TomlFile) (field value : string) : Prop :=
  (field, value) ∈ expressions (tf_document file).

Lemma elem_of_expression_hits files uses h :
  h ∈ expression_hits files uses ↔
  ∃ file value, file ∈ files ∧ tf_name file = h_file h ∧
    expression_at file (h_field h) value ∧ uses value = true.
Proof.
  unfold expression_hits, expression_at. rewrite elem_of_dedup_hits, list_elem_of_bind.
  setoid_rewrite list_elem_of_fmap. setoid_rewrite list_elem_of_filter. split.
  - intros (file & ([field value] & -> & Hu & Hin) & Hf). by exists file, value.
  - intros (file & value & Hf & Hn & Hin & Hu). exists file. split; [|done].
    exists (h_field h, value). split; [|done]. destruct h; simpl in *. by subst.
Qed.

Lemma elem_of_hits_of_files files found h :
  h ∈ hits_of_files found files ↔
  h_field h = "include" ∧ ∃ file, file ∈ files ∧ tf_name file = h_file h ∧ found (includes_of file) = true.
Proof.
  unfold hits_of_files. rewrite list_elem_of_fmap. setoid_rewrite list_elem_of_filter. split.
  - intros (file & -> & Hfound & Hin). eauto.
  - intros (Hi & file & Hin & Hn & Hfound). exists file. destruct h; simpl in *. by subst.
Qed.

(** A change a detector looks for, in the files it was handed. *)
Definition detects (detect : list TomlFile → list Hit) (uses : TomlFile → string → Prop) : Prop :=
  ∀ files h, h ∈ detect files ↔ ∃ file, file ∈ files ∧ tf_name file = h_file h ∧ uses file (h_field h).

Lemma detects_nil detect uses files :
  detects detect uses → detect files = [] → ∀ file field, file ∈ files → ¬ uses file field.
Proof.
  intros Hd E file field Hf Hu. apply (not_elem_of_nil (mk_hit field (tf_name file))).
  rewrite <-E. apply Hd. eauto.
Qed.

(** An expression the escapes of 0.12.0 read anew. *)
Definition uses_backslash (file : TomlFile) (field : string) : Prop :=
  ∃ value, expression_at file field value ∧ "\"%char ∈ chars value.

(** An expression that loads and whose references are not those it had. *)
Definition uses_new_reading (file : TomlFile) (field : string) : Prop :=
  ∃ value now, expression_at file field value ∧ Expressions.references value = Ok now ∧
    now ≠ references_before_0_12 value.

Definition uses_home_include (file : TomlFile) (field : string) : Prop :=
  field = "include" ∧ ∃ entry path, entry ∈ includes_of file ∧ local_path entry = Some path ∧
    from_home path = true.

Definition uses_git_include (file : TomlFile) (field : string) : Prop :=
  field = "include" ∧ ∃ entry, entry ∈ includes_of file ∧
    (value_get entry "type" ≫= as_str) = Some "git".

Lemma existsb_elem {A} (p : A → bool) l : existsb p l = true ↔ ∃ x, x ∈ l ∧ p x = true.
Proof. rewrite existsb_exists. by setoid_rewrite list_elem_of_In. Qed.

Lemma contains_char_chars c s : contains_char c s = true ↔ c ∈ chars s.
Proof. unfold contains_char. by rewrite bool_decide_eq_true. Qed.

Lemma backslash_detects : detects expressions_with_a_backslash uses_backslash.
Proof.
  intros files h. unfold expressions_with_a_backslash, uses_backslash.
  rewrite elem_of_expression_hits. setoid_rewrite contains_char_chars. naive_solver.
Qed.

Lemma new_reading_detects : detects expressions_read_differently uses_new_reading.
Proof.
  intros files h. unfold expressions_read_differently, uses_new_reading.
  rewrite elem_of_expression_hits. split.
  - intros (file & value & ? & ? & ? & H). destruct (Expressions.references value) as [now|] eqn:E; [|done].
    rewrite negb_true_iff, bool_decide_eq_false in H. eauto 10.
  - intros (file & ? & ? & value & now & ? & E & ?). exists file, value. rewrite E.
    by rewrite negb_true_iff, bool_decide_eq_false.
Qed.

Lemma home_include_detects : detects includes_from_home_directory uses_home_include.
Proof.
  intros files h. unfold includes_from_home_directory, uses_home_include.
  rewrite elem_of_hits_of_files. setoid_rewrite existsb_elem. setoid_rewrite list_elem_of_omap.
  naive_solver.
Qed.

Lemma git_include_detects : detects declares_git_include uses_git_include.
Proof.
  intros files h. unfold declares_git_include, uses_git_include.
  rewrite elem_of_hits_of_files. setoid_rewrite existsb_elem. unfold is_git_entry.
  setoid_rewrite bool_decide_eq_true. naive_solver.
Qed.

(** What a row of the table means for a file in scope; [None] for a row the
    trial load itself answers. *)
Definition touches : list (option (TomlFile → string → Prop)) :=
  [Some uses_backslash; Some uses_new_reading; None; None; None; None; Some uses_home_include; None;
   Some uses_git_include; None].

Definition row_means (row : BreakingChange) (uses : option (TomlFile → string → Prop)) : Prop :=
  match ch_check row, uses with
  | Detected detect, Some uses => detects detect uses
  | FailsTheLoad, None => True
  | _, _ => False
  end.

Lemma table_means : Forall2 row_means BREAKING_CHANGES touches.
Proof.
  unfold BREAKING_CHANGES, touches.
  repeat first [apply Forall2_nil_2 | apply Forall2_cons_2;
    [first [exact I|exact backslash_detects|exact new_reading_detects|exact home_include_detects
           |exact git_include_detects]|]].
Qed.

Notation trial_load := (result (Scope → option (list TomlFile * bool)) string).

(** What an outcome says: [judged] are the documents a detector was handed. *)
Definition outcome_ok (trial : trial_load) (scope : Scope) (judged : list TomlFile)
    (uses : option (TomlFile → string → Prop)) (o : Outcome) : Prop :=
  match o, uses with
  | Loads, None => ∃ project, trial = Ok project
  | DoesNotLoad, None => ∃ e, trial = Err e
  | NoneFound, Some uses =>
      ∃ project, trial = Ok project ∧ project scope = Some (judged, true) ∧
        ∀ file field, file ∈ judged → ¬ uses file field
  | Found hits, Some uses =>
      hits ≠ [] ∧
      ∀ h, h ∈ hits ↔ ∃ file, file ∈ judged ∧ tf_name file = h_file h ∧ uses file (h_field h)
  | Unknown, Some uses =>
      (∀ file field, file ∈ judged → ¬ uses file field) ∧
      ∀ project, trial = Ok project → project scope ≠ Some (judged, true)
  | _, _ => False
  end.

(** How the files a detector is handed come from the trial load. *)
Definition readable_of (trial : trial_load) (scope : Scope) (load_error : option string)
    (readable : Readable) : Prop :=
  match trial with
  | Ok project =>
      load_error = None ∧
      readable = match project scope with
                 | Some (files, true) => Every files
                 | Some (files, false) => Only files
                 | None => Only []
                 end
  | Err e => load_error = Some e ∧ ∃ files, readable = Only files
  end.

Lemma row_outcome_ok trial scope row uses load_error readable :
  row_means row uses → readable_of trial scope load_error readable →
  outcome_ok trial scope (readable_files readable) uses (row_outcome load_error readable row).
Proof.
  unfold row_means, row_outcome, readable_of. intros Hm Ht.
  destruct (ch_check row) as [|detect|], uses as [u|]; try done.
  - destruct trial; destruct Ht as [-> _]; simpl; eauto.
  - destruct (detect (readable_files readable)) as [|hit hits] eqn:E.
    + pose proof (detects_nil _ _ _ Hm E) as Hn. destruct trial as [project|e].
      * destruct Ht as [-> ->]. destruct (project scope) as [[files [|]]|] eqn:Ep; simpl in *; [by eauto|..];
          (split; [done|]); intros ? [= <-]; congruence.
      * destruct Ht as [-> [files ->]]. by split.
    + simpl. split; [done|]. intros h. rewrite <-E. apply Hm.
Qed.

(** The refusal [assess] gives, with the files it judged. *)
Lemma assess_with_outcomes `{!TomlFiles W} (w : W) r trial :
  ∃ load_error readable,
    assess w r trial = with_outcomes r load_error readable ∧
    readable_of trial (rf_scope r) load_error readable ∧
    (∀ e, trial = Err e → ∀ file, file ∈ readable_files readable → ∃ path,
       rf_fallback r = Some (tf_name file, path) ∧
       (read_to_string w path ≫= parse_toml) = Some (tf_document file)).
Proof.
  unfold assess, readable_of. destruct trial as [project|e].
  - exists None. destruct (project (rf_scope r)) as [[files [|]]|]; eexists; by split_and!.
  - eexists (Some e), _. split; [done|]. split; [eauto|]. intros _ _ file.
    simpl. rewrite list_elem_of_omap. intros ([name path] & Hin & Hf).
    destruct (rf_fallback r) as [f|]; [|by apply not_elem_of_nil in Hin].
    apply list_elem_of_singleton in Hin as <-. exists path.
    destruct (read_to_string w path ≫= parse_toml) as [document|] eqn:E; [|done].
    cbn [mbind option_bind] in Hf. by injection Hf as <-.
Qed.

(** Assessing a refusal keeps its rows and gives each an outcome that holds
    of the files its scope covers: a row the load answers is ruled out only when
    the trial load succeeded; a detected change is ruled out only when every file
    in scope was read and no expression or include in any of them is one the
    change altered (escapes, references, [~] includes, Git includes), and is
    reported at exactly the fields that hold one; files short of all of them
    leave it unknown. *)
Theorem assess_spec `{!TomlFiles W} (w : W) (r : Refusal) (trial : trial_load) :
  rf_rows r `sublist_of` BREAKING_CHANGES →
  ∃ outcomes load_error judged,
    assess w r trial = mk_refusal (rf_rows r) (rf_running r) (rf_scope r) (rf_fallback r)
      (Some (mk_assessment outcomes load_error)) ∧
    Forall2 (λ row o, ∃ uses, (row, uses) ∈ zip BREAKING_CHANGES touches ∧
      outcome_ok trial (rf_scope r) judged uses o) (rf_rows r) outcomes ∧
    match trial with
    | Ok project => load_error = None ∧
        ∀ files every, project (rf_scope r) = Some (files, every) → judged = files
    | Err e => load_error = Some e ∧
        ∀ file, file ∈ judged → ∃ path, rf_fallback r = Some (tf_name file, path) ∧
          (read_to_string w path ≫= parse_toml) = Some (tf_document file)
    end.
Proof.
  intros Hsub. destruct (assess_with_outcomes w r trial) as (load_error & readable & -> & Hr & Hf).
  exists (row_outcome load_error readable <$> rf_rows r), load_error, (readable_files readable).
  split; [done|]. split.
  - apply Forall2_fmap_r, Forall_Forall2_diag, Forall_forall. intros row Hrow.
    assert (row ∈ BREAKING_CHANGES) as [i Hi]%list_elem_of_lookup
      by (by eapply elem_of_submseteq; [|apply sublist_submseteq]).
    destruct (Forall2_lookup_l _ _ _ _ _ table_means Hi) as (uses & Hu & Hm).
    exists uses. split; [|by apply row_outcome_ok].
    apply list_elem_of_lookup. exists i. by apply lookup_zip_Some.
  - destruct trial as [project|e]; simpl in Hr; destruct Hr as [-> Hr]; (split; [done|]).
    + intros files every Ep. rewrite Ep in Hr. subst. by destruct every.
    + by apply (Hf e).
Qed.


(** ** At work *)

(** No file can be read. *)
#[local] Instance no_files : TomlFiles unit :=
  { read_to_string := λ _ _, None; parse_toml := λ _, None }.

Definition old_bundle : BundleEntry :=
  mk_bundle_entry "ratect-bundle.toml" "ratect.toml" None (Declared (mk_version 0 12 4))
    (Some "ratect-bundle.toml") None (mk_bundle_id "https://example.com/tools.git" "v1") "/cache/b/ratect-bundle.toml".

(** 0.13 turns a bundle written for 0.12 away for the one change since, which
    a trial load that succeeds rules out; reviewing it is enough.
    An earlier binary refuses it outright. *)
Example old_bundle_refused :
  (match check_bundle old_bundle (mk_version 0 13 0) BREAKING_CHANGES with
   | Err (Refused r) =>
       ch_version <$> rf_rows r = ["0.13.0"] ∧
       (as_outcomes <$> rf_assessment (assess tt r (Ok (λ _, Some ([], true))))) = Some [Loads]
   | _ => False
   end) ∧
  check_bundle (with_reviewed old_bundle (mk_version 0 13 0)) (mk_version 0 13 0) BREAKING_CHANGES = Ok tt ∧
  check_bundle old_bundle (mk_version 0 11 0) BREAKING_CHANGES
  = Err (NeedsLater (mk_version 0 12 4) (mk_version 0 11 0)).
Proof. split; [vm_compute; by split|]. split; vm_compute; reflexivity. Qed.

Definition escaping_file : TomlFile :=
  mk_toml_file "ratect.toml" [("containers", TomlTable [("app", TomlTable [("image", TomlString "a\b")])])].

Definition escape_refusal : Refusal :=
  mk_refusal (take 1 BREAKING_CHANGES) (mk_version 0 13 0) ProjectScope None None.

