(* ===== verification/Includes.v ===== *)
(** * Includes: the files a configuration is made of

    [load_from_file_impl] of [ratect-core/src/config.rs] and what it calls: the
    breadth-first walk over [include] entries, local and in Git bundles, the
    checks on each file before it is read, and the merge of the files' names;
    and the walk shell completion makes over the same entries.  Reading and
    parsing one file, and cloning a repository into the cache, are an
    interface; a refusal is a value of [load_error]. *)

From S2P Require Import Prelude Text Collections Values Config Regex Dockerignore Paths IncludeTrust WrittenFor.
From S2P Require ExternalChecks.
From stdpp Require Import options.

(** ** A file as parsed *)

Inductive IncludeEntry :=
| FileInclude (path : string)
| GitInclude (repo : Remote) (git_ref : string) (path : option string) (allow_host_paths : bool)
    (allow_nested_git_includes : option bool) (reviewed_ratect_version : option string).

Definition include_repo (include : IncludeEntry) : option Remote :=
  match include with
  | GitInclude repo _ _ _ _ _ => Some repo
  | FileInclude _ => None
  end.

Record ConfigFile := mk_config_file {
  cf_project_name : option string;
  cf_containers : index_map Container;
  cf_tasks : index_map Task;
  cf_config_variables : option (index_map ConfigVariable);
  cf_include : list IncludeEntry;
  cf_forbid_telemetry : option bool;
  cf_ratect_version : option string;
}.

(** ** Names read as map keys *)

Definition edge (c : option ascii) : bool :=
  match c with Some c => is_ascii_alphanumeric c | None => false end.

Definition task_name_check (name : string) : bool :=
  edge (head (chars name)) && edge (last (chars name)) &&
  forallb (λ c, is_ascii_alphanumeric c || bool_decide (c ∈ ["."; "_"; ":"; "-"]%char)) (chars name).

Definition config_variable_name_check (name : string) : bool :=
  let reserved := bool_decide (to_ascii_lowercase (of_chars (take 6 (chars name))) = "batect") in
  negb reserved &&
  match head (chars name) with Some c => is_ascii_alphabetic c | None => false end &&
  forallb (λ c, is_ascii_alphanumeric c || bool_decide (c ∈ ["."; "_"; "-"]%char)) (chars name).

Definition container_name_check (name : string) : bool := ExternalChecks.is_name_component name.

(** ** Formats *)

Inductive FileFormat := TomlFormat | YamlFormat.
#[global] Instance FileFormat_eq_dec : EqDecision FileFormat.
Proof. solve_decision. Defined.

(** [named_config_file_format], [config_file_format]: none for an extension
    that is neither. *)
Definition config_file_format (path : string) : option FileFormat :=
  ext ← extension path;
  let ext := to_ascii_lowercase ext in
  if bool_decide (ext = "toml") then Some TomlFormat
  else if bool_decide (ext = "yml") || bool_decide (ext = "yaml") then Some YamlFormat
  else None.

Definition reads_as_batect (format : ConfigFormat) (path : string) : bool :=
  match format with
  | Compat => true
  | Native => bool_decide (config_file_format path = Some YamlFormat)
  end.

Definition bundle_candidates (format : ConfigFormat) : list string :=
  match format with
  | Compat => ["batect-bundle.yml"]
  | Native => ["ratect-bundle.toml"; "batect-bundle.yml"]
  end.

Inductive load_error :=
| NoCurrentDirectory
| NoHomeDirectory (path : string)
| UnknownFormat (file : string)
| NotParsed (file : string)
| MisplacedVersion (file : string)
| InvalidIncludePath (path : string)
| IncludeNotAFile (file : string)
| IncludeMissing (file : string)
| NoBundleFile (candidates : list string)
| TrustRefused (e : trust_error)
| CloneFailed (repo : Remote) (git_ref : string) (candidates : list string)
| NestedCloneFailed (repo : Remote) (git_ref : string) (declaring : BundleId)
| VersionRefused (e : written_error)
| IncludedProjectName (file : string)
| IncludedForbidTelemetry (file : string)
| NoProjectName (root : string)
| NoDirectoryName (root : string)
| InferredNameInvalid (name : string)
| DefinedTwice (kind name : string) (files : list string).

(** What is asked of the files and of the clone cache: [parse_yaml_config_file],
    [parse_toml_config_file] and [GitIncludeCache::ensure_cached], which may
    change the world; [cached_working_copy] does not. *)
Class ConfigSource (W : Type) := {
  parse_yaml_config_file : W → string → option ConfigFile;
  parse_toml_config_file : W → string → option ConfigFile;
  ensure_cached : W → Remote → string → W * option string;
  cached_working_copy : W → Remote → string → option string;
}.

Record LoadedFile := mk_loaded_file {
  lf_path : string;
  lf_file : ConfigFile;
  lf_boundary : option Boundary;
}.

(** A Git include of a YAML entry file, judged once the load is done. *)
Record YamlBundleEntry := mk_yaml_bundle_entry {
  yb_entry : string;
  yb_boundary : Boundary;
  yb_entry_file : string;
  yb_declared_in : string;
  yb_declared_in_batect : option BatectFile;
  yb_reviewed : option Version;
}.

(** ** TOML files a bundle reaches *)

(** The breadth-first search of [first_toml_reached]. *)
Fixpoint visit_targets (targets : list string) (seen : gset string) (queue : list string)
    : option string + (gset string * list string) :=
  match targets with
  | [] => inr (seen, queue)
  | target :: targets =>
      if bool_decide (config_file_format target = Some TomlFormat) then inl (Some target)
      else if bool_decide (target ∈ seen) then visit_targets targets seen queue
      else visit_targets targets ({[target]} ∪ seen) (queue ++ [target])
  end.

Fixpoint toml_search (fuel : nat) (local_includes : gmap string (list string)) (seen : gset string)
    (queue : list string) : option string :=
  match fuel, queue with
  | S fuel, file :: queue =>
      match visit_targets (default [] (local_includes !! file)) seen queue with
      | inl found => found
      | inr (seen, queue) => toml_search fuel local_includes seen queue
      end
  | _, _ => None
  end.

(** Every target is queued once at most. *)
Definition first_toml_reached (entry : string) (local_includes : gmap string (list string))
    : option string :=
  toml_search (S (length (mjoin (map_to_list local_includes).*2))) local_includes {[entry]} [entry].

Section load.
Context `{!PathClean, !FileTree W, !TomlFiles W, !ConfigSource W}.

Definition parse (format : ConfigFormat) (w : W) (path : string) : result ConfigFile load_error :=
  match format with
  | Compat => ok_or (parse_yaml_config_file w path) (NotParsed path)
  | Native =>
      let? file_format := ok_or (config_file_format path) (UnknownFormat path) in
      match file_format with
      | TomlFormat => ok_or (parse_toml_config_file w path) (NotParsed path)
      | YamlFormat => ok_or (parse_yaml_config_file w path) (NotParsed path)
      end
  end.

(** ** Paths of includes *)

Definition expand_home_directory (w : W) (path : string) : result (option string) load_error :=
  match components path with
  | (false, first :: rest) =>
      if bool_decide (first = "~") then
        let? home := ok_or (home_directory w) (NoHomeDirectory path) in
        Ok (Some (path_join home (of_components (false, rest))))
      else Ok None
  | _ => Ok None
  end.

Definition local_include_target (w : W) (base_dir path : string) : result string load_error :=
  let? expanded := expand_home_directory w path in
  Ok (default (path_join base_dir path) expanded).

Definition absolute (w : W) (path : string) : result string load_error :=
  ok_or (absolute_path w path) NoCurrentDirectory.

Definition trust {A} (r : result A trust_error) : result A load_error := map_err TrustRefused r.

Definition check_boundary (boundary : option Boundary) (resolved : string) : result () load_error :=
  match boundary with
  | Some b => trust (check_contains b resolved)
  | None => Ok tt
  end.

Definition include_file_at (w : W) (target as_written : string) (boundary : option Boundary)
    : result string load_error :=
  let? _ := ensure (negb (contains_char "000" as_written)) (InvalidIncludePath as_written) in
  let? resolved := absolute w target in
  let? _ := check_boundary boundary resolved in
  if is_file w resolved then Ok resolved
  else if exists_at w resolved then Err (IncludeNotAFile resolved)
  else Err (IncludeMissing resolved).

Definition resolve_file_include (w : W) (base_dir path : string) (boundary : option Boundary)
    : result string load_error :=
  let? target := local_include_target w base_dir path in
  include_file_at w target path boundary.

Fixpoint first_candidate (w : W) (base_dir : string) (candidates : list string)
    (boundary : option Boundary) : result (option string) load_error :=
  match candidates with
  | [] => Ok None
  | candidate :: candidates =>
      let? resolved := absolute w (path_join base_dir candidate) in
      let? _ := check_boundary boundary resolved in
      if is_file w resolved then Ok (Some resolved)
      else first_candidate w base_dir candidates boundary
  end.

Definition resolve_include_target (w : W) (base_dir : string) (candidates : list string)
    (boundary : option Boundary) : result string load_error :=
  match candidates with
  | [only] => include_file_at w (path_join base_dir only) only boundary
  | _ =>
      let? found := first_candidate w base_dir candidates boundary in
      ok_or found (NoBundleFile candidates)
  end.

(** ** One include entry *)

Record LoadState := mk_load_state {
  ls_world : W;
  ls_seen : gset string;
  ls_grants : EffectiveGrants;
  ls_clones : gmap (string * string) string;
  ls_queue : list (string * option Boundary * IncludeEntry);
  ls_bundle_includes : gmap string (list string);
  ls_yaml_entries : list YamlBundleEntry;
  ls_loaded : list LoadedFile;
}.

Definition reject_misplaced_ratect_version (path : string) (file : ConfigFile) (format : ConfigFormat)
    (may_declare : bool) : result () load_error :=
  match cf_ratect_version file with
  | None => Ok tt
  | Some _ =>
      let yaml := match format with
                  | Compat => true
                  | Native => bool_decide (config_file_format path = Some YamlFormat)
                  end in
      ensure (negb yaml && may_declare) (MisplacedVersion path)
  end.

(** [git_repo_paths]: a repository is asked for once in a load. *)
Definition clone_once (w : W) (clones : gmap (string * string) string) (repo : Remote) (git_ref : string)
    (candidates : list string) (restricted : option Bundle)
    : result (W * gmap (string * string) string * string) load_error :=
  match clones !! (repo, git_ref) with
  | Some dir => Ok (w, clones, dir)
  | None =>
      match ensure_cached w repo git_ref with
      | (w, Some dir) => Ok (w, <[(repo, git_ref) := dir]> clones, dir)
      | (_, None) =>
          Err match restricted with
              | None => CloneFailed repo git_ref candidates
              | Some declaring => NestedCloneFailed repo git_ref (bu_id declaring)
              end
      end
  end.

(** Where a file declaring an entry sits, if it is Batect-format. *)
Definition declared_in_batect (format : ConfigFormat) (root declaring_file : string)
    (boundary : option Boundary) : option BatectFile :=
  if reads_as_batect format declaring_file
  then Some (batect_file_of (match boundary with Some _ => true | None => false end)
                            (reads_as_batect format root))
  else None.

(** What an entry resolves to: the state with the clone it may have needed,
    the file, and the boundary the file is read under. *)
Definition resolve_entry (format : ConfigFormat) (root : string) (st : LoadState)
    (declaring_file : string) (boundary : option Boundary) (include : IncludeEntry)
    : result (LoadState * string * option Boundary) load_error :=
  let w := ls_world st in
  let containing_dir := default EmptyString (path_parent declaring_file) in
  match include with
  | FileInclude path =>
      let? resolved := resolve_file_include w containing_dir path boundary in
      let includes :=
        match boundary with
        | Some _ => <[declaring_file :=
            default [] (ls_bundle_includes st !! declaring_file) ++ [resolved]]> (ls_bundle_includes st)
        | None => ls_bundle_includes st
        end in
      Ok (mk_load_state w (ls_seen st) (ls_grants st) (ls_clones st) (ls_queue st) includes
            (ls_yaml_entries st) (ls_loaded st), resolved, boundary)
  | GitInclude repo git_ref path allow_host_paths allow_nested reviewed =>
      let asked := mk_grants allow_host_paths allow_nested in
      let declaring := bo_bundle <$> boundary in
      let? _ := trust (check_dialect asked (match reviewed with Some _ => true | None => false end)
                         (declared_in_batect format root declaring_file boundary) repo) in
      let restricted := restricting declaring format in
      let? _ := trust (check_may_declare_git restricted repo) in
      let candidates := match path with Some path => [path] | None => bundle_candidates format end in
      let? (w, clones, repo_dir) := clone_once w (ls_clones st) repo git_ref candidates restricted in
      let new_boundary :=
        mk_boundary repo_dir (granted declaring (mk_bundle_id repo git_ref) asked) in
      let? resolved := resolve_include_target w repo_dir candidates (Some new_boundary) in
      Ok (mk_load_state w (ls_seen st) (ls_grants st) clones (ls_queue st) (ls_bundle_includes st)
            (ls_yaml_entries st) (ls_loaded st), resolved, Some new_boundary)
  end.

Definition check_bundle_entry (w : W) (resolved : string) (boundary : Boundary) (declared_in : string)
    (batect : option BatectFile) (reviewed : option string) (running : Version)
    : result (option YamlBundleEntry) load_error :=
  let? reviewed :=
    match reviewed with
    | None => Ok None
    | Some text =>
        let? v := ok_or (version_from_str text)
          (VersionRefused (InvalidReviewed declared_in (bu_id (bo_bundle boundary)))) in
        Ok (Some v)
    end in
  let entry_file := describe boundary resolved in
  let? written_for := map_err VersionRefused (read w resolved) in
  match written_for with
  | Some YamlRoot =>
      Ok (Some (mk_yaml_bundle_entry resolved boundary entry_file declared_in batect reviewed))
  | Some written_for =>
      let? _ := map_err VersionRefused
        (check_bundle (mk_bundle_entry entry_file declared_in batect written_for None reviewed
                         (bu_id (bo_bundle boundary)) resolved) running BREAKING_CHANGES) in
      Ok None
  | None => Ok None
  end.

Definition check_yaml_bundle_entry (e : YamlBundleEntry) (local_includes : gmap string (list string))
    (running : Version) : result () load_error :=
  let first_toml := describe (yb_boundary e) <$> first_toml_reached (yb_entry e) local_includes in
  map_err VersionRefused
    (check_bundle (mk_bundle_entry (yb_entry_file e) (yb_declared_in e) (yb_declared_in_batect e) YamlRoot
                     first_toml (yb_reviewed e) (bu_id (bo_bundle (yb_boundary e))) (yb_entry e))
       running BREAKING_CHANGES).

(** The written-for check of an entry as it is reached. *)
Definition judge_entry (format : ConfigFormat) (root : string) (running : option Version) (w : W)
    (declaring_file : string) (declaring : option Boundary) (include : IncludeEntry)
    (resolved : string) (boundary : option Boundary) : result (list YamlBundleEntry) load_error :=
  match running, include, boundary with
  | Some running, GitInclude _ _ _ _ _ reviewed, Some entry_boundary =>
      let? found := check_bundle_entry w resolved entry_boundary
        (describe_origin declaring_file declaring)
        (declared_in_batect format root declaring_file declaring) reviewed running in
      Ok (match found with Some e => [e] | None => [] end)
  | _, _, _ => Ok []
  end.

Definition is_git (include : IncludeEntry) : bool :=
  match include with GitInclude _ _ _ _ _ _ => true | FileInclude _ => false end.

(** One round of the loop of [load_from_file_impl]. *)
Definition load_entry (format : ConfigFormat) (root : string) (running : option Version)
    (st : LoadState) (declaring_file : string) (declaring : option Boundary) (include : IncludeEntry)
    : result LoadState load_error :=
  let? (st, resolved, boundary) := resolve_entry format root st declaring_file declaring include in
  let w := ls_world st in
  let? _ := trust (boundary_contains w boundary resolved) in
  let? yaml := judge_entry format root running w declaring_file declaring include resolved boundary in
  let yaml_entries := ls_yaml_entries st ++ yaml in
  let effective := bu_trust ∘ bo_bundle <$> boundary in
  if bool_decide (resolved ∈ ls_seen st) then
    let repo := match include_repo include with
                | Some repo => Some repo
                | None => (λ b, bi_remote (bu_id (bo_bundle b))) <$> boundary
                end in
    let? _ := match repo, effective with
              | Some repo, Some wanted => trust (check_grant (ls_grants st) resolved wanted repo)
              | _, _ => Ok tt
              end in
    Ok (mk_load_state w (ls_seen st) (ls_grants st) (ls_clones st) (ls_queue st)
          (ls_bundle_includes st) yaml_entries (ls_loaded st))
  else
    let? file := parse format w resolved in
    let? _ := reject_misplaced_ratect_version resolved file format (is_git include) in
    let? _ := ensure (match cf_project_name file with None => true | Some _ => false end)
                (IncludedProjectName resolved) in
    let? _ := ensure (negb (bool_decide (cf_forbid_telemetry file = Some true)))
                (IncludedForbidTelemetry resolved) in
    Ok (mk_load_state w ({[resolved]} ∪ ls_seen st) (record_grant resolved effective (ls_grants st))
          (ls_clones st) (ls_queue st ++ ((λ i, (resolved, boundary, i)) <$> cf_include file))
          (ls_bundle_includes st) yaml_entries
          (ls_loaded st ++ [mk_loaded_file resolved file boundary])).

Definition with_queue (queue : list (string * option Boundary * IncludeEntry)) (st : LoadState) : LoadState :=
  mk_load_state (ls_world st) (ls_seen st) (ls_grants st) (ls_clones st) queue
    (ls_bundle_includes st) (ls_yaml_entries st) (ls_loaded st).

(** The [while let] over the queue: none when the rounds run out. *)
Fixpoint load_loop (fuel : nat) (format : ConfigFormat) (root : string) (running : option Version)
    (st : LoadState) : option (result LoadState load_error) :=
  match ls_queue st with
  | [] => Some (Ok st)
  | (declaring_file, declaring, include) :: queue =>
      match fuel with
      | 0 => None
      | S fuel =>
          match load_entry format root running (with_queue queue st) declaring_file declaring include with
          | Ok st => load_loop fuel format root running st
          | Err e => Some (Err e)
          end
      end
  end.

(** ** The merge *)

Notation defined_in := (index_map (list (string * option Boundary))).

Record Merged := mk_merged {
  mg_containers : index_map Container;
  mg_base_paths : gmap string string;
  mg_boundaries : gmap string Boundary;
  mg_origins : gmap string string;
  mg_tasks : index_map Task;
  mg_config_variables : index_map ConfigVariable;
  mg_container_files : defined_in;
  mg_task_files : defined_in;
  mg_config_variable_files : defined_in;
}.

(** [entry(name).or_default().push(..)] *)
Definition push_file (name : string) (f : LoadedFile) (m : defined_in)
    : defined_in * list (string * option Boundary) :=
  let files := default [] (im_get m name) ++ [(lf_path f, lf_boundary f)] in
  (im_insert name files m, files).

Definition merge_container (f : LoadedFile) (mg : Merged) (p : string * Container) : Merged :=
  let '(name, container) := p in
  let '(container_files, files) := push_file name f (mg_container_files mg) in
  if bool_decide (length files = 1) then
    mk_merged (im_insert name container (mg_containers mg))
      (<[name := default EmptyString (path_parent (lf_path f))]> (mg_base_paths mg))
      (match lf_boundary f with
       | Some b => <[name := b]> (mg_boundaries mg)
       | None => mg_boundaries mg
       end)
      (<[name := lf_path f]> (mg_origins mg))
      (mg_tasks mg) (mg_config_variables mg) container_files (mg_task_files mg)
      (mg_config_variable_files mg)
  else
    mk_merged (mg_containers mg) (mg_base_paths mg) (mg_boundaries mg) (mg_origins mg) (mg_tasks mg)
      (mg_config_variables mg) container_files (mg_task_files mg) (mg_config_variable_files mg).

Definition merge_task (f : LoadedFile) (mg : Merged) (p : string * Task) : Merged :=
  let '(name, task) := p in
  let '(task_files, files) := push_file name f (mg_task_files mg) in
  mk_merged (mg_containers mg) (mg_base_paths mg) (mg_boundaries mg) (mg_origins mg)
    (if bool_decide (length files = 1) then im_insert name task (mg_tasks mg) else mg_tasks mg)
    (mg_config_variables mg) (mg_container_files mg) task_files (mg_config_variable_files mg).

Definition merge_config_variable (f : LoadedFile) (mg : Merged) (p : string * ConfigVariable) : Merged :=
  let '(name, var) := p in
  let '(variable_files, files) := push_file name f (mg_config_variable_files mg) in
  mk_merged (mg_containers mg) (mg_base_paths mg) (mg_boundaries mg) (mg_origins mg) (mg_tasks mg)
    (if bool_decide (length files = 1) then im_insert name var (mg_config_variables mg)
     else mg_config_variables mg)
    (mg_container_files mg) (mg_task_files mg) variable_files.

Definition merge_file (mg : Merged) (f : LoadedFile) : Merged :=
  let mg := foldl (merge_container f) mg (cf_containers (lf_file f)) in
  let mg := foldl (merge_task f) mg (cf_tasks (lf_file f)) in
  foldl (merge_config_variable f) mg (default [] (cf_config_variables (lf_file f))).

Definition merge_files (loaded : list LoadedFile) : Merged :=
  foldl merge_file (mk_merged [] ∅ ∅ ∅ [] [] [] [] []) loaded.

Definition find_duplicate (kind : string) (m : defined_in) : result () load_error :=
  match list_find (λ p, 1 < length p.2) m with
  | Some (_, (name, files)) => Err (DefinedTwice kind name files.*1)
  | None => Ok tt
  end.

(** ** The load *)

Definition infer_project_name (root_path : string) : result string load_error :=
  let? directory := ok_or (path_parent root_path ≫= file_name) (NoDirectoryName root_path) in
  let name := to_lowercase directory in
  let? _ := ensure (ExternalChecks.is_name_component name) (InferredNameInvalid name) in
  Ok name.

Definition project_name (format : ConfigFormat) (root_path : string) (declared : option string)
    : result string load_error :=
  match declared with
  | Some name => Ok name
  | None =>
      match format with
      | Compat => infer_project_name root_path
      | Native => Err (NoProjectName root_path)
      end
  end.

Record LoadedConfig := mk_loaded_config {
  lc_config : Config;
  lc_container_base_paths : gmap string string;
  lc_container_boundaries : gmap string Boundary;
  lc_container_origins : gmap string string;
  lc_format : ConfigFormat;
  lc_files : list LoadedFile;
  lc_git_clones : gmap (string * string) string;
}.

(** What follows the loop. *)
Definition finish_load (format : ConfigFormat) (running : option Version) (root_path : string)
    (root_file : ConfigFile) (st : LoadState) : result LoadedConfig load_error :=
  let? _ := match running with
            | Some running =>
                try_fold (λ _ e, check_yaml_bundle_entry e (ls_bundle_includes st) running)
                  (ls_yaml_entries st) tt
            | None => Ok tt
            end in
  let? name := project_name format root_path (cf_project_name root_file) in
  let mg := merge_files (ls_loaded st) in
  let? _ := find_duplicate "task" (mg_task_files mg) in
  let? _ := find_duplicate "container" (mg_container_files mg) in
  let? _ := find_duplicate "config variable" (mg_config_variable_files mg) in
  Ok (mk_loaded_config
        (mk_config name (mg_containers mg) (mg_tasks mg)
           (match mg_config_variables mg with [] => None | vars => Some vars end)
           (cf_forbid_telemetry root_file))
        (mg_base_paths mg) (mg_boundaries mg) (mg_origins mg) format (ls_loaded st) (ls_clones st)).

(** The state before the loop. *)
Definition initial_state (w : W) (root_path : string) (root_file : ConfigFile) : LoadState :=
  mk_load_state w {[root_path]} ∅ ∅ ((λ i, (root_path, None, i)) <$> cf_include root_file) ∅ []
    [mk_loaded_file root_path root_file None].

Definition load_from_file_impl (fuel : nat) (w : W) (path : string) (format : ConfigFormat)
    (running : option Version) : option (result LoadedConfig load_error) :=
  match
    (let? root_path := absolute w path in
     let? root_file := parse format w path in
     let? _ := reject_misplaced_ratect_version path root_file format true in
     Ok (root_path, root_file))
  with
  | Err e => Some (Err e)
  | Ok (root_path, root_file) =>
      r ← load_loop fuel format root_path running (initial_state w root_path root_file);
      Some (let? st := r in finish_load format running root_path root_file st)
  end.
End load.
