(* ===== verification/IncludesSpec.v ===== *)
(** * IncludesSpec: which files a load reads, and under what trust

    The theorems about [Includes]: every file read is the target of an entry of
    a file read before it and lies in the checkout its boundary names, every
    entry is followed, a grant counts only where an owned file wrote it, and
    the walk ends. *)

From S2P Require Import Prelude Text Collections Values Config Regex Dockerignore Paths IncludeTrust WrittenFor Includes.
From S2P Require LexicalClean.
From stdpp Require Import options.

Section spec.
Context {W : Type} {PC : PathClean} {FT : FileTree W} {TF : TomlFiles W} {CS : ConfigSource W}.
Context (format : ConfigFormat) (running : option Version).

Notation clones := (gmap (string * string) string).
Notation includes f := (cf_include (lf_file f)).

(** A boundary under which Git includes may be declared. *)
Definition nested_allowed (b : option Boundary) : Prop :=
  match b with None => True | Some b => t_nested_git (bu_trust (bo_bundle b)) = true end.

(** The boundary a Git include of [g] establishes at a checkout. *)
Definition boundary_of (g : LoadedFile) (dir : string) (repo : Remote) (git_ref : string)
    (allow_host_paths : bool) (allow_nested : option bool) : Boundary :=
  mk_boundary dir (granted (bo_bundle <$> lf_boundary g) (mk_bundle_id repo git_ref)
                     (mk_grants allow_host_paths allow_nested)).

(** Where an entry of [g] leads, in a state of the world. *)
Inductive leads_to (cs : clones) (w : W) (g : LoadedFile) : IncludeEntry → string → option Boundary → Prop :=
| leads_file path target :
    resolve_file_include w (default EmptyString (path_parent (lf_path g))) path (lf_boundary g) = Ok target →
    leads_to cs w g (FileInclude path) target (lf_boundary g)
| leads_git repo git_ref path host_paths nested reviewed dir target :
    cs !! (repo, git_ref) = Some dir →
    (format = Native → nested_allowed (lf_boundary g)) →
    (reads_as_batect format (lf_path g) = true → nested = None ∧ reviewed = None) →
    resolve_include_target w dir
      (match path with Some path => [path] | None => bundle_candidates format end)
      (Some (boundary_of g dir repo git_ref host_paths nested)) = Ok target →
    leads_to cs w g (GitInclude repo git_ref path host_paths nested reviewed) target
      (Some (boundary_of g dir repo git_ref host_paths nested)).

(** [f] was read because an entry of a file of [files] led to it. *)
Definition admitted (files : list LoadedFile) (cs : clones) (f : LoadedFile) : Prop :=
  ∃ g i w, g ∈ files ∧ i ∈ includes g ∧
    leads_to cs w g i (lf_path f) (lf_boundary f) ∧
    boundary_contains w (lf_boundary f) (lf_path f) = Ok tt ∧
    parse format w (lf_path f) = Ok (lf_file f) ∧
    cf_project_name (lf_file f) = None ∧ cf_forbid_telemetry (lf_file f) ≠ Some true.

(** What a file under a boundary was granted. *)
Definition trust_of (b : option Boundary) : option Trust := bu_trust ∘ bo_bundle <$> b.

(** Nothing [wanted] grants is missing from what a file was read under. *)
Definition grants_kept (wanted : option Boundary) (read : option Trust) : Prop :=
  match wanted, read with
  | Some wanted, Some read => lost_fields (bu_trust (bo_bundle wanted)) read = []
  | _, _ => True
  end.

Definition followed (files : list LoadedFile) (cs : clones) (g : LoadedFile) (i : IncludeEntry) : Prop :=
  ∃ w f b, f ∈ files ∧ leads_to cs w g i (lf_path f) b ∧
    boundary_contains w b (lf_path f) = Ok tt ∧ grants_kept b (trust_of (lf_boundary f)).

(** The bundle of [b] is one a file of [files] includes. *)
Definition declared (files : list LoadedFile) (cs : clones) (b : Boundary) : Prop :=
  ∃ g repo git_ref path host_paths nested reviewed, g ∈ files ∧
    GitInclude repo git_ref path host_paths nested reviewed ∈ includes g ∧
    cs !! (repo, git_ref) = Some (bo_repo_dir b) ∧
    b = boundary_of g (bo_repo_dir b) repo git_ref host_paths nested.

(** A checkout asked for: its repository is one a file that may name it
    includes, and its directory what the cache answered. *)
Definition cloned (files : list LoadedFile) (repo : Remote) (git_ref dir : string) : Prop :=
  ∃ g path host_paths nested reviewed w w', g ∈ files ∧
    GitInclude repo git_ref path host_paths nested reviewed ∈ includes g ∧
    (format = Native → nested_allowed (lf_boundary g)) ∧
    ensure_cached w repo git_ref = (w', Some dir).

Record load_inv (root : LoadedFile) (st : @LoadState W) : Prop := {
  inv_root : ∃ rest, ls_loaded st = root :: rest ∧
    ∀ f, f ∈ rest → admitted (ls_loaded st) (ls_clones st) f;
  inv_nodup : NoDup (lf_path <$> ls_loaded st);
  inv_seen p : p ∈ ls_seen st ↔ p ∈ lf_path <$> ls_loaded st;
  inv_queue p b i : (p, b, i) ∈ ls_queue st →
    ∃ g, g ∈ ls_loaded st ∧ p = lf_path g ∧ b = lf_boundary g ∧ i ∈ includes g;
  inv_followed g i : g ∈ ls_loaded st → i ∈ includes g →
    (lf_path g, lf_boundary g, i) ∈ ls_queue st ∨ followed (ls_loaded st) (ls_clones st) g i;
  inv_declared f b : f ∈ ls_loaded st → lf_boundary f = Some b →
    declared (ls_loaded st) (ls_clones st) b;
  inv_cloned repo git_ref dir : ls_clones st !! (repo, git_ref) = Some dir →
    cloned (ls_loaded st) repo git_ref dir;
  inv_grants f : f ∈ ls_loaded st →
    ls_grants st !! lf_path f = if decide (lf_path f = lf_path root) then None else Some (trust_of (lf_boundary f));
  inv_granted p : is_Some (ls_grants st !! p) → p ∈ ls_seen st;
}.

(** ** What grows as the walk goes on *)

Lemma leads_to_mono cs cs' w g i target b :
  cs ⊆ cs' → leads_to cs w g i target b → leads_to cs' w g i target b.
Proof.
  intros Hcs [path t Ht|repo git_ref path hp nested reviewed dir t Hdir Hn Hd Ht]; [by constructor|].
  apply leads_git; try done. by eapply lookup_weaken.
Qed.

Lemma admitted_mono files files' cs cs' f :
  files ⊆ files' → cs ⊆ cs' → admitted files cs f → admitted files' cs' f.
Proof.
  intros Hf Hcs (g & i & w & Hg & Hi & Hl & Hrest). exists g, i, w.
  split; [by apply Hf|]. split; [done|]. split; [by eapply leads_to_mono|done].
Qed.

Lemma followed_mono files files' cs cs' g i :
  files ⊆ files' → cs ⊆ cs' → followed files cs g i → followed files' cs' g i.
Proof.
  intros Hf Hcs (w & f & b & Hin & Hl & Hrest). exists w, f, b.
  split; [by apply Hf|]. split; [by eapply leads_to_mono|done].
Qed.

Lemma declared_mono files files' cs cs' b :
  files ⊆ files' → cs ⊆ cs' → declared files cs b → declared files' cs' b.
Proof.
  intros Hf Hcs (g & repo & git_ref & path & hp & nested & reviewed & Hg & Hi & Hdir & Hb).
  exists g, repo, git_ref, path, hp, nested, reviewed. split; [by apply Hf|].
  split; [done|]. split; [by eapply lookup_weaken|done].
Qed.

Lemma cloned_mono files files' repo git_ref dir :
  files ⊆ files' → cloned files repo git_ref dir → cloned files' repo git_ref dir.
Proof.
  intros Hf (g & path & hp & nested & reviewed & w & w' & Hg & Hrest).
  exists g, path, hp, nested, reviewed, w, w'. split; [by apply Hf|done].
Qed.

(** ** Resolving an entry *)

Lemma trust_Ok {A} (r : result A trust_error) a : trust r = Ok a ↔ r = Ok a.
Proof. destruct r; simpl; naive_solver. Qed.

Lemma check_dialect_Ok asked reviews batect repo u :
  check_dialect asked reviews batect repo = Ok u →
  is_Some batect → g_nested_git asked = None ∧ reviews = false.
Proof.
  unfold check_dialect. intros H [b ->]. destruct (g_nested_git asked); [done|].
  apply ensure_Ok in H. by destruct reviews.
Qed.

Lemma check_may_declare_Ok declaring repo u :
  check_may_declare_git (restricting (bo_bundle <$> declaring) format) repo = Ok u →
  format = Native → nested_allowed declaring.
Proof.
  unfold check_may_declare_git. intros H ->. destruct declaring as [b|]; [|done]. simpl in *.
  by destruct (t_nested_git _).
Qed.

Lemma clone_once_spec w cs repo git_ref candidates restricted w' cs' dir :
  clone_once w cs repo git_ref candidates restricted = Ok (w', cs', dir) →
  cs ⊆ cs' ∧ cs' !! (repo, git_ref) = Some dir ∧
  (∀ key d, cs' !! key = Some d → cs !! key = Some d ∨
     key = (repo, git_ref) ∧ d = dir ∧ ensure_cached w repo git_ref = (w', Some dir)).
Proof.
  unfold clone_once. destruct (cs !! (repo, git_ref)) as [d|] eqn:Hc.
  - intros [= <- <- <-]. auto.
  - destruct (ensure_cached w repo git_ref) as [w1 [d|]] eqn:He; [|done]. intros [= <- <- <-].
    split; [by apply insert_subseteq|]. split; [by rewrite lookup_insert_eq|].
    intros key d'. rewrite lookup_insert_Some. naive_solver.
Qed.

(** The parts of the state [resolve_entry] leaves alone. *)
Definition same_walk (st st' : @LoadState W) : Prop :=
  ls_seen st' = ls_seen st ∧ ls_grants st' = ls_grants st ∧ ls_queue st' = ls_queue st ∧
  ls_yaml_entries st' = ls_yaml_entries st ∧ ls_loaded st' = ls_loaded st.

Lemma resolve_entry_spec root_path st g i st' target b :
  resolve_entry format root_path st (lf_path g) (lf_boundary g) i = Ok (st', target, b) →
  same_walk st st' ∧ ls_clones st ⊆ ls_clones st' ∧
  leads_to (ls_clones st') (ls_world st') g i target b ∧
  (∀ repo git_ref dir, ls_clones st' !! (repo, git_ref) = Some dir →
     ls_clones st !! (repo, git_ref) = Some dir ∨
     (i ∈ includes g → g ∈ ls_loaded st → cloned (ls_loaded st) repo git_ref dir)).
Proof.
  unfold resolve_entry. destruct i as [path|repo git_ref path hp nested reviewed]; intros H.
  - apply result_bind_Ok in H as (t & Ht & [= <- <- <-]). repeat split; try done.
    + by constructor.
    + auto.
  - apply result_bind_Ok in H as (? & Hdialect & H). apply trust_Ok in Hdialect.
    apply result_bind_Ok in H as (? & Hmay & H). apply trust_Ok in Hmay.
    apply result_bind_Ok in H as ([[w cs] dir] & Hclone & H).
    apply result_bind_Ok in H as (t & Ht & [= <- <- <-]).
    pose proof (check_may_declare_Ok _ _ _ Hmay) as Hnested.
    apply clone_once_spec in Hclone as (Hsub & Hdir & Hnew). repeat split; try done.
    + apply leads_git; try done. intros Hbatect. eapply check_dialect_Ok in Hdialect as [Hnone Hrev].
      * simpl in Hnone. subst. by destruct reviewed.
      * unfold declared_in_batect. rewrite Hbatect. eauto.
    + intros repo' git_ref' dir' H'. destruct (Hnew _ _ H') as [?|([= -> ->] & -> & He)]; [by left|].
      right. intros Hi Hg. unfold cloned. by exists g, path, hp, nested, reviewed, (ls_world st), w.
Qed.

(** ** One round *)

Lemma check_grant_Ok grants file wanted repo read u :
  grants !! file = Some read → check_grant grants file wanted repo = Ok u →
  match read with Some read => lost_fields wanted read = [] | None => True end.
Proof.
  unfold check_grant. intros ->. destruct read as [read|]; [|done].
  by destruct (lost_fields wanted read).
Qed.

(** What a round does with the file an entry leads to. *)
Inductive round (root_path : string) (g : LoadedFile) (i : IncludeEntry) (st st' : @LoadState W) : Prop :=
| round_seen target b :
    leads_to (ls_clones st') (ls_world st') g i target b →
    boundary_contains (ls_world st') b target = Ok tt →
    target ∈ ls_seen st →
    (∀ read, ls_grants st !! target = Some read → grants_kept b read) →
    ls_seen st' = ls_seen st → ls_grants st' = ls_grants st → ls_queue st' = ls_queue st →
    ls_loaded st' = ls_loaded st → round root_path g i st st'
| round_loads f :
    leads_to (ls_clones st') (ls_world st') g i (lf_path f) (lf_boundary f) →
    boundary_contains (ls_world st') (lf_boundary f) (lf_path f) = Ok tt →
    lf_path f ∉ ls_seen st →
    parse format (ls_world st') (lf_path f) = Ok (lf_file f) →
    cf_project_name (lf_file f) = None → cf_forbid_telemetry (lf_file f) ≠ Some true →
    ls_seen st' = {[lf_path f]} ∪ ls_seen st →
    ls_grants st' = record_grant (lf_path f) (trust_of (lf_boundary f)) (ls_grants st) →
    ls_queue st' = ls_queue st ++ ((λ i, (lf_path f, lf_boundary f, i)) <$> includes f) →
    ls_loaded st' = ls_loaded st ++ [f] → round root_path g i st st'.

Lemma load_entry_round root_path st g i st' :
  load_entry format root_path running st (lf_path g) (lf_boundary g) i = Ok st' →
  round root_path g i st st' ∧ ls_clones st ⊆ ls_clones st' ∧
  (∀ repo git_ref dir, ls_clones st' !! (repo, git_ref) = Some dir →
     ls_clones st !! (repo, git_ref) = Some dir ∨
     (i ∈ includes g → g ∈ ls_loaded st → cloned (ls_loaded st) repo git_ref dir)).
Proof.
  unfold load_entry. intros H. apply result_bind_Ok in H as ([[st1 target] b] & Hres & H).
  apply resolve_entry_spec in Hres as ((Hseen & Hgrants & Hqueue & _ & Hloaded) & Hsub & Hleads & Hnew).
  apply result_bind_Ok in H as ([] & Hcont & H). apply trust_Ok in Hcont.
  apply result_bind_Ok in H as (yaml & _ & H). case_bool_decide as Hin.
  - apply result_bind_Ok in H as ([] & Hgrant & [= <-]). simpl. split; [|done].
    eapply round_seen; simpl; try done; [by rewrite <-Hseen|].
    intros read Hread. destruct b as [b|]; [|done]. destruct read as [read|]; [|done].
    rewrite <-Hgrants in Hread. unfold grants_kept. simpl.
    assert (∃ repo, trust (check_grant (ls_grants st1) target (bu_trust (bo_bundle b)) repo) = Ok tt) as [repo Hc].
    { destruct (include_repo i); simpl in Hgrant; eauto. }
    apply trust_Ok in Hc. by apply (check_grant_Ok _ _ _ _ _ _ Hread) in Hc.
  - apply result_bind_Ok in H as (file & Hparse & H).
    apply result_bind_Ok in H as ([] & _ & H).
    apply result_bind_Ok in H as ([] & Hname & H). apply ensure_Ok in Hname.
    apply result_bind_Ok in H as ([] & Htele & [= <-]). apply ensure_Ok in Htele. simpl.
    split; [|done]. apply (round_loads _ _ _ _ _ (mk_loaded_file target file b)); simpl; try done.
    + by rewrite <-Hseen.
    + by destruct (cf_project_name file).
    + by bool_to_prop.
    + by rewrite Hseen.
    + by rewrite Hgrants.
    + by rewrite Hqueue.
    + by rewrite Hloaded.
Qed.

(** ** The invariant of the walk *)

Lemma declared_leads cs w g i target b files :
  g ∈ files → i ∈ includes g → (∀ b', lf_boundary g = Some b' → declared files cs b') →
  leads_to cs w g i target (Some b) → declared files cs b.
Proof.
  intros Hg Hi Hown Hl. remember (Some b) as ob eqn:Hob.
  destruct Hl as [path t Ht|repo git_ref path hp nested reviewed dir t Hdir Hn Hd Ht]; [by apply Hown|].
  injection Hob as <-. by exists g, repo, git_ref, path, hp, nested, reviewed.
Qed.

Lemma path_unique (files : list LoadedFile) f f' :
  NoDup (lf_path <$> files) → f ∈ files → f' ∈ files → lf_path f = lf_path f' → f = f'.
Proof.
  intros Hnd [i Hi]%list_elem_of_lookup [j Hj]%list_elem_of_lookup Heq.
  assert (i = j) as ->.
  { eapply (NoDup_lookup _ _ _ (lf_path f) Hnd); rewrite list_lookup_fmap.
    - by rewrite Hi.
    - rewrite Hj. simpl. by rewrite Heq. }
  congruence.
Qed.

Lemma load_inv_initial w root_path root_file :
  load_inv (mk_loaded_file root_path root_file None) (initial_state w root_path root_file).
Proof.
  split; simpl.
  - exists []. split; [done|]. intros f Hf. by apply not_elem_of_nil in Hf.
  - apply NoDup_singleton.
  - intros p. set_solver.
  - intros p b i Hin. apply list_elem_of_fmap in Hin as (i' & [= -> -> ->] & Hi).
    exists (mk_loaded_file root_path root_file None). split; [constructor|done].
  - intros g i Hg Hi. apply list_elem_of_singleton in Hg as ->. left.
    apply list_elem_of_fmap. by exists i.
  - intros f b Hf. by apply list_elem_of_singleton in Hf as ->.
  - intros repo git_ref dir H. by rewrite lookup_empty in H.
  - intros f Hf. apply list_elem_of_singleton in Hf as ->. by rewrite decide_True.
  - intros p H. rewrite lookup_empty in H. by destruct H.
Qed.

Lemma record_grant_spec p t grants q :
  record_grant p t grants !! q =
    if decide (q = p) then (match grants !! p with Some read => Some read | None => Some t end)
    else grants !! q.
Proof.
  unfold record_grant. destruct (grants !! p) eqn:E; destruct (decide (q = p)) as [->|Hne]; try done.
  - by rewrite lookup_insert_eq.
  - by rewrite lookup_insert_ne.
Qed.

(** An entry just followed leaves the queue without it. *)
Lemma followed_kept root st queue g i files cs :
  load_inv root st → ls_queue st = (lf_path g, lf_boundary g, i) :: queue → g ∈ ls_loaded st →
  ls_loaded st ⊆ files → ls_clones st ⊆ cs → followed files cs g i →
  ∀ g' i', g' ∈ ls_loaded st → i' ∈ includes g' →
    (lf_path g', lf_boundary g', i') ∈ queue ∨ followed files cs g' i'.
Proof.
  intros Hinv Hqueue Hg Hfiles Hcs Hf g' i' Hg' Hi'.
  destruct (inv_followed _ _ Hinv g' i' Hg' Hi') as [Hin|Hin].
  - rewrite Hqueue in Hin. apply elem_of_cons in Hin as [[= Hp Hb ->]|Hin]; [|by left].
    right. by rewrite (path_unique _ g' g (inv_nodup _ _ Hinv) Hg' Hg Hp).
  - right. by eapply followed_mono.
Qed.

Lemma load_entry_inv root st queue g i st' :
  load_inv root st → lf_boundary root = None →
  ls_queue st = (lf_path g, lf_boundary g, i) :: queue → g ∈ ls_loaded st → i ∈ includes g →
  load_entry format (lf_path root) running (with_queue queue st) (lf_path g) (lf_boundary g) i = Ok st' →
  load_inv root st'.
Proof.
  intros Hinv Hroot Hqueue Hg Hi H. apply load_entry_round in H as (Hround & Hsub & Hnew).
  simpl in Hsub, Hnew.
  assert (∀ files, ls_loaded st ⊆ files → ∀ repo git_ref dir, ls_clones st' !! (repo, git_ref) = Some dir →
    cloned files repo git_ref dir) as Hcloned.
  { intros files Hfiles repo git_ref dir Hdir. eapply cloned_mono; [exact Hfiles|].
    destruct (Hnew _ _ _ Hdir) as [Hold|Hold]; [by apply (inv_cloned _ _ Hinv)|by apply Hold]. }
  destruct Hround as [target b Hl Hcont Hin Hgrants Eseen Egrants Equeue Eloaded
    |f Hl Hcont Hin Hparse Hname Htele Eseen Egrants Equeue Eloaded]; simpl in *.
  - assert (followed (ls_loaded st) (ls_clones st') g i) as Hfollowed.
    { apply (inv_seen _ _ Hinv) in Hin. apply list_elem_of_fmap in Hin as (f & -> & Hf).
      exists (ls_world st'), f, b. do 3 (split; [done|]).
      pose proof (inv_grants _ _ Hinv f Hf) as Hread. case_decide as Hr; [|by apply Hgrants].
      destruct (inv_root _ _ Hinv) as (rest & Hfiles & _).
      rewrite (path_unique _ f root (inv_nodup _ _ Hinv) Hf), Hroot; [by destruct b| |done].
      rewrite Hfiles. by left. }
    split; rewrite ?Eloaded, ?Eseen, ?Egrants, ?Equeue; try apply Hinv.
    + destruct (inv_root _ _ Hinv) as (rest & Hfiles & Hadm). exists rest. split; [done|]. intros f Hf. eapply admitted_mono; [done|exact Hsub|by apply Hadm].
    + intros p ob i' Hin'. apply (inv_queue _ _ Hinv). rewrite Hqueue. by right.
    + by eapply followed_kept.
    + intros f ob Hf Hb. eapply declared_mono; [done|exact Hsub|by eapply (inv_declared _ _ Hinv)].
    + by apply Hcloned.
  - assert (ls_loaded st ⊆ ls_loaded st ++ [f]) as Hfiles' by set_solver.
    assert (declared_all : ∀ b, lf_boundary f = Some b → declared (ls_loaded st) (ls_clones st') b).
    { intros b Hb. rewrite Hb in Hl. eapply declared_leads; [exact Hg|exact Hi| |exact Hl].
      intros b' Hb'. eapply declared_mono; [done|exact Hsub|by eapply (inv_declared _ _ Hinv)]. }
    assert (followed (ls_loaded st ++ [f]) (ls_clones st') g i) as Hfollowed.
    { exists (ls_world st'), f, (lf_boundary f). split; [set_solver|]. do 2 (split; [done|]).
      destruct (lf_boundary f) as [b|]; [|done]. simpl. unfold lost_fields.
      by destruct (bu_trust _) as [[] []]. }
    split; rewrite ?Eloaded, ?Eseen, ?Egrants, ?Equeue.
    + destruct (inv_root _ _ Hinv) as (rest & Hfiles & Hadm). exists (rest ++ [f]).
      split; [by rewrite Hfiles|]. intros f' [Hf'|Hf']%elem_of_app.
      * eapply admitted_mono; [exact Hfiles'|exact Hsub|by apply Hadm].
      * apply list_elem_of_singleton in Hf' as ->. exists g, i, (ls_world st'). split; [set_solver|done].
    + rewrite fmap_app. apply NoDup_app. split; [apply (inv_nodup _ _ Hinv)|].
      split; [|apply NoDup_singleton]. intros p Hp Hpf. apply list_elem_of_singleton in Hpf as ->.
      apply Hin. by apply (inv_seen _ _ Hinv).
    + intros p. rewrite fmap_app, elem_of_app, elem_of_union, (inv_seen _ _ Hinv). simpl. set_solver.
    + intros p ob i' [Hin'|Hin']%elem_of_app.
      * destruct (inv_queue _ _ Hinv p ob i') as (g' & Hg' & Hrest); [rewrite Hqueue; by right|].
        exists g'. split; [set_solver|done].
      * apply list_elem_of_fmap in Hin' as (i'' & [= -> -> ->] & Hi''). exists f. split; [set_solver|done].
    + intros g' i' [Hg'|Hg']%elem_of_app Hi'.
      * destruct (followed_kept root st queue g i _ _ Hinv Hqueue Hg Hfiles' Hsub Hfollowed g' i' Hg' Hi') as [?|?];
          [left; apply elem_of_app; by left|by right].
      * apply list_elem_of_singleton in Hg' as ->. left. apply elem_of_app. right.
        apply list_elem_of_fmap. by exists i'.
    + intros f' b [Hf'|Hf']%elem_of_app Hb.
      * eapply declared_mono; [exact Hfiles'|exact Hsub|by eapply (inv_declared _ _ Hinv)].
      * apply list_elem_of_singleton in Hf' as ->.
        by apply (declared_mono (ls_loaded st) _ (ls_clones st')); [..|apply declared_all].
    + by apply Hcloned.
    + intros f' [Hf'|Hf']%elem_of_app; rewrite record_grant_spec.
      * rewrite decide_False; [by apply (inv_grants _ _ Hinv)|]. intros Heq. apply Hin.
        apply (inv_seen _ _ Hinv). rewrite <-Heq. apply list_elem_of_fmap. by exists f'.
      * apply list_elem_of_singleton in Hf' as ->. rewrite decide_True by done.
        assert (lf_path f ≠ lf_path root) as Hne.
        { intros Heq. apply Hin. apply (inv_seen _ _ Hinv). rewrite Heq.
          destruct (inv_root _ _ Hinv) as (rest & -> & _). by left. }
        rewrite decide_False by done.
        destruct (ls_grants st !! lf_path f) as [read|] eqn:Hread; [|done].
        destruct Hin. apply (inv_granted _ _ Hinv). by exists read.
    + intros p. rewrite record_grant_spec. case_decide as Hp; [set_solver|].
      intros Hsome. apply (inv_granted _ _ Hinv) in Hsome. set_solver.
Qed.

Lemma load_loop_inv root fuel st st' :
  load_inv root st → lf_boundary root = None →
  load_loop fuel format (lf_path root) running st = Some (Ok st') →
  load_inv root st' ∧ ls_queue st' = [].
Proof.
  intros Hinv Hroot. revert st Hinv. induction fuel as [|fuel IH]; intros st Hinv; simpl.
  - destruct (ls_queue st) as [|[[p b] i] queue] eqn:Hq; [|done]. by intros [= <-].
  - destruct (ls_queue st) as [|[[p b] i] queue] eqn:Hq; [by intros [= <-]|].
    destruct (inv_queue _ _ Hinv p b i) as (g & Hg & -> & -> & Hi); [rewrite Hq; by left|].
    destruct (load_entry _ _ _ _ _ _ _) as [st1|e] eqn:He; [|done].
    apply IH. by eapply load_entry_inv.
Qed.

(** ** The walk ends *)

(** An entry as the queue holds it, seen as one of a file. *)
Definition some_file (path : string) (b : option Boundary) : LoadedFile :=
  mk_loaded_file path (mk_config_file None [] [] None [] None None) b.

Lemma load_loop_terminates root_path (universe : gset string) st :
  (∀ w p f, parse format w p = Ok f → p ∈ universe) →
  ∃ fuel r, load_loop fuel format root_path running st = Some r.
Proof.
  intros Hfinite.
  cut (∀ n q st, size (universe ∖ ls_seen st) < n → length (ls_queue st) = q →
    ∃ fuel r, load_loop fuel format root_path running st = Some r).
  { intros H. by eapply (H (S (size (universe ∖ ls_seen st)))); [lia|]. }
  clear st. induction n as [|n IHn]; [lia|]. induction q as [|q IHq]; intros st Hn Hq.
  { exists 0, (Ok st). destruct st as [? ? ? ? [|] ? ? ?]; done. }
  destruct (ls_queue st) as [|[[p b] i] queue] eqn:E; [done|].
  destruct (load_entry format root_path running (with_queue queue st) p b i) as [st'|e] eqn:He.
  2:{ exists 1, (Err e). simpl. by rewrite E, He. }
  assert (∃ fuel r, load_loop fuel format root_path running st' = Some r) as (fuel & r & Hr).
  { destruct (load_entry_round root_path (with_queue queue st) (some_file p b) i st' He)
      as [[target b' _ _ _ _ Eseen _ Equeue _|f _ _ Hin Hparse _ _ Eseen _ _ _] _]; simpl in *.
    - apply IHq; [by rewrite Eseen|]. rewrite Equeue. by injection Hq.
    - eapply IHn; [|done]. apply Hfinite in Hparse. rewrite Eseen.
      enough (size (universe ∖ ({[lf_path f]} ∪ ls_seen st)) < size (universe ∖ ls_seen st)) by lia.
      apply subset_size. set_solver. }
  exists (S fuel), r. simpl. by rewrite E, He.
Qed.

(** ** The merge *)

(** The definitions of a name, in the order of the files. *)
Definition definitions {V} (get : ConfigFile → index_map V) (files : list LoadedFile) (name : string)
    : list (LoadedFile * V) :=
  files ≫= λ f, (λ p, (f, p.2)) <$> filter (λ p, p.1 = name) (get (lf_file f)).

Notation file_of p := (lf_path (p.1), lf_boundary (p.1)).
Notation defined_in := (index_map (list (string * option Boundary))).

(** What the maps of a merge say of a name with given definitions so far. *)
Definition names_as {V} (name : string) (defs : list (LoadedFile * V)) (m : index_map V) (files : defined_in) : Prop :=
  default [] (im_get files name) = (λ p, file_of p) <$> defs ∧
  im_get m name = snd <$> head defs.

Lemma push_name {V} name defs (m : index_map V) files f n (v : V) :
  names_as name defs m files →
  names_as name (defs ++ (if decide (n = name) then [(f, v)] else []))
    (if bool_decide (length (push_file n f files).2 = 1) then im_insert n v m else m) (push_file n f files).1.
Proof.
  intros [Hfiles Hm]. unfold push_file, names_as. simpl. rewrite im_get_insert.
  rewrite length_app, Nat.add_1_r. destruct (decide (n = name)) as [->|Hne].
  - simpl. rewrite Hfiles, fmap_app. split; [done|]. rewrite length_fmap.
    destruct defs as [|d defs]; simpl; [|done]. rewrite im_get_insert. by rewrite decide_True.
  - rewrite app_nil_r. split; [done|]. case_bool_decide; [|done]. rewrite im_get_insert.
    by rewrite decide_False.
Qed.

Definition containers_as (name : string) (defs : list (LoadedFile * Container)) (mg : Merged) : Prop :=
  names_as name defs (mg_containers mg) (mg_container_files mg) ∧
  mg_origins mg !! name = lf_path ∘ fst <$> head defs ∧
  mg_base_paths mg !! name = (λ p, default EmptyString (path_parent (lf_path p.1))) <$> head defs ∧
  mg_boundaries mg !! name = head defs ≫= λ p, lf_boundary p.1.

Lemma lookup_insert_dec {V} (m : gmap string V) n v name :
  <[n := v]> m !! name = if decide (n = name) then Some v else m !! name.
Proof. destruct (decide (n = name)) as [->|]; [apply lookup_insert_eq|by apply lookup_insert_ne]. Qed.

Lemma merge_container_as name defs mg f n c :
  containers_as name defs mg →
  containers_as name (defs ++ (if decide (n = name) then [(f, c)] else [])) (merge_container f mg (n, c)).
Proof.
  intros (Hn & Ho & Hb & Hbo). pose proof (push_name name defs _ _ f n c Hn) as Hn'.
  unfold merge_container. destruct (push_file n f (mg_container_files mg)) as [files' fs] eqn:Hpush.
  simpl in Hn'. unfold containers_as. case_bool_decide as Hlen; simpl; split; try exact Hn'.
  - rewrite !lookup_insert_dec. destruct (decide (n = name)) as [->|Hne]; rewrite ?app_nil_r.
    + assert (defs = []) as ->.
      { unfold push_file in Hpush. injection Hpush as _ <-. rewrite (proj1 Hn), length_app, length_fmap in Hlen.
        simpl in Hlen. destruct defs; [done|]. simpl in Hlen. lia. }
      simpl. do 2 (split; [done|]). destruct (lf_boundary f); simpl; [by rewrite lookup_insert_eq|].
      by rewrite Hbo.
    + do 2 (split; [done|]). destruct (lf_boundary f); [by rewrite lookup_insert_ne|done].
  - destruct (decide (n = name)) as [->|Hne]; rewrite ?app_nil_r; [|done].
    destruct defs as [|d defs]; [|done].
    destruct Hlen. unfold push_file in Hpush. injection Hpush as _ <-. by rewrite (proj1 Hn).
Qed.

Lemma definitions_snoc {V} (get : ConfigFile → index_map V) files f name :
  definitions get (files ++ [f]) name =
    definitions get files name ++ ((λ p, (f, p.2)) <$> filter (λ p, p.1 = name) (get (lf_file f))).
Proof. unfold definitions. rewrite bind_app. simpl. by rewrite app_nil_r. Qed.

(** A fold over one file's entries, each of which adds its own definition. *)
Lemma merge_entries {V} (P : list (LoadedFile * V) → Merged → Prop) (step : Merged → string * V → Merged)
    (f : LoadedFile) name (entries : index_map V) defs mg :
  (∀ defs mg n v, P defs mg → P (defs ++ (if decide (n = name) then [(f, v)] else [])) (step mg (n, v))) →
  P defs mg →
  P (defs ++ ((λ p, (f, p.2)) <$> filter (λ p, p.1 = name) entries)) (foldl step mg entries).
Proof.
  intros Hstep. revert defs mg. induction entries as [|[n v] entries IH]; intros defs mg HP; simpl.
  - by rewrite app_nil_r.
  - rewrite filter_cons. simpl. pose proof (IH _ _ (Hstep _ _ n v HP)) as HIH.
    destruct (decide (n = name)); rewrite ?app_nil_r, <-?app_assoc in HIH; done.
Qed.

(** Merging a file's other entries leaves a name of one kind alone. *)
Lemma merge_others {V} (P : Merged → Prop) (step : Merged → V → Merged) (entries : list V) mg :
  (∀ mg v, P mg → P (step mg v)) → P mg → P (foldl step mg entries).
Proof. intros Hstep. revert mg. induction entries as [|v entries IH]; intros mg HP; [done|]. by apply IH, Hstep. Qed.

Definition merged_as (name : string) (files : list LoadedFile) (mg : Merged) : Prop :=
  containers_as name (definitions cf_containers files name) mg ∧
  names_as name (definitions cf_tasks files name) (mg_tasks mg) (mg_task_files mg) ∧
  names_as name (definitions (default [] ∘ cf_config_variables) files name)
    (mg_config_variables mg) (mg_config_variable_files mg).

Lemma merge_file_as name files mg f :
  merged_as name files mg → merged_as name (files ++ [f]) (merge_file mg f).
Proof.
  intros (Hc & Ht & Hv). unfold merge_file, merged_as. rewrite !definitions_snoc.
  set (mg1 := foldl (merge_container f) mg _). set (mg2 := foldl (merge_task f) mg1 _).
  assert (containers_as name (definitions cf_containers files name ++
    ((λ p, (f, p.2)) <$> filter (λ p, p.1 = name) (cf_containers (lf_file f)))) mg1) as Hc1.
  { apply (merge_entries (containers_as name)); [|done]. intros. by apply merge_container_as. }
  assert (mg_tasks mg1 = mg_tasks mg ∧ mg_task_files mg1 = mg_task_files mg ∧
    mg_config_variables mg1 = mg_config_variables mg ∧
    mg_config_variable_files mg1 = mg_config_variable_files mg) as (Et & Etf & Ev & Evf).
  { apply (merge_others (λ m, mg_tasks m = mg_tasks mg ∧ mg_task_files m = mg_task_files mg ∧
      mg_config_variables m = mg_config_variables mg ∧
      mg_config_variable_files m = mg_config_variable_files mg)); [|done].
    intros m [n c]. unfold merge_container. destruct (push_file _ _ _). by case_bool_decide. }
  assert (names_as name (definitions cf_tasks files name ++
    ((λ p, (f, p.2)) <$> filter (λ p, p.1 = name) (cf_tasks (lf_file f)))) (mg_tasks mg2) (mg_task_files mg2)) as Ht2.
  { apply (merge_entries (λ defs m, names_as name defs (mg_tasks m) (mg_task_files m))); [|by rewrite Et, Etf].
    intros defs m n v Hm. pose proof (push_name name defs _ _ f n v Hm) as Hp. unfold merge_task.
    by destruct (push_file _ _ _). }
  assert (containers_as name (definitions cf_containers files name ++
    ((λ p, (f, p.2)) <$> filter (λ p, p.1 = name) (cf_containers (lf_file f)))) mg2 ∧
    mg_config_variables mg2 = mg_config_variables mg ∧
    mg_config_variable_files mg2 = mg_config_variable_files mg) as (Hc2 & Ev2 & Evf2).
  { apply (merge_others (λ m, containers_as name _ m ∧ mg_config_variables m = mg_config_variables mg ∧
      mg_config_variable_files m = mg_config_variable_files mg)); [|done].
    intros m [n t]. unfold merge_task. by destruct (push_file _ _ _). }
  split; [|split].
  - apply (merge_others (containers_as name _)); [|done].
    intros m [n v]. unfold merge_config_variable. by destruct (push_file _ _ _).
  - apply (merge_others (λ m, names_as name _ (mg_tasks m) (mg_task_files m))); [|done].
    intros m [n v]. unfold merge_config_variable. by destruct (push_file _ _ _).
  - apply (merge_entries (λ defs m, names_as name defs (mg_config_variables m) (mg_config_variable_files m)));
      [|by rewrite Ev2, Evf2].
    intros defs m n v Hm. pose proof (push_name name defs _ _ f n v Hm) as Hp. unfold merge_config_variable.
    by destruct (push_file _ _ _).
Qed.

Lemma merge_files_as name files : merged_as name files (merge_files files).
Proof.
  unfold merge_files. induction files as [|f files IH] using rev_ind.
  - by repeat split.
  - rewrite foldl_app. by apply merge_file_as.
Qed.

Lemma find_duplicate_Ok kind m u :
  find_duplicate kind m = Ok u → ∀ name files, im_get m name = Some files → length files ≤ 1.
Proof.
  unfold find_duplicate. destruct (list_find _ m) as [[k [n fs]]|] eqn:E; [done|]. intros _ name files H.
  apply im_get_Some_elem in H. apply list_find_None in E.
  apply (proj1 (Forall_forall _ _) E) in H. simpl in H. lia.
Qed.

(** A name as a load leaves it: undefined, or defined once. *)
Definition defined_once {V} (defs : list (LoadedFile * V)) (m : index_map V) (name : string) : Prop :=
  (defs = [] ∧ im_get m name = None) ∨ ∃ f v, defs = [(f, v)] ∧ im_get m name = Some v.

Lemma names_once {V} kind name defs (m : index_map V) files u :
  names_as name defs m files → find_duplicate kind files = Ok u → defined_once defs m name.
Proof.
  intros [Hfiles Hm] Hdup. destruct defs as [|[f v] [|d defs]]; [by left|by right; exists f, v|].
  exfalso. destruct (im_get files name) as [fs|] eqn:E; [|done]. simpl in Hfiles. subst fs.
  pose proof (find_duplicate_Ok _ _ _ Hdup _ _ E) as Hlen. simpl in Hlen. lia.
Qed.

Lemma finish_load_fields root_path root_file (st : @LoadState W) lc :
  finish_load format running root_path root_file st = Ok lc →
  let mg := merge_files (ls_loaded st) in
  lc_files lc = ls_loaded st ∧ lc_git_clones lc = ls_clones st ∧
  cfg_containers (lc_config lc) = mg_containers mg ∧ cfg_tasks (lc_config lc) = mg_tasks mg ∧
  default [] (cfg_config_variables (lc_config lc)) = mg_config_variables mg ∧
  lc_container_base_paths lc = mg_base_paths mg ∧ lc_container_boundaries lc = mg_boundaries mg ∧
  lc_container_origins lc = mg_origins mg ∧ lc_format lc = format ∧
  find_duplicate "task" (mg_task_files mg) = Ok tt ∧
  find_duplicate "container" (mg_container_files mg) = Ok tt ∧
  find_duplicate "config variable" (mg_config_variable_files mg) = Ok tt.
Proof.
  unfold finish_load. intros H. apply result_bind_Ok in H as (? & _ & H).
  apply result_bind_Ok in H as (? & _ & H).
  apply result_bind_Ok in H as ([] & H1 & H). apply result_bind_Ok in H as ([] & H2 & H).
  apply result_bind_Ok in H as ([] & H3 & [= <-]). repeat split; try done. simpl.
  by destruct (mg_config_variables _).
Qed.

Lemma load_from_file_inv fuel w path lc :
  load_from_file_impl fuel w path format running = Some (Ok lc) →
  ∃ root st, absolute w path = Ok (lf_path root) ∧ parse format w path = Ok (lf_file root) ∧
    lf_boundary root = None ∧ load_inv root st ∧ ls_queue st = [] ∧
    finish_load format running (lf_path root) (lf_file root) st = Ok lc.
Proof.
  unfold load_from_file_impl. intros H.
  destruct (absolute w path) as [root_path|] eqn:Habs; [|done]. cbn [result_bind] in H.
  destruct (parse format w path) as [root_file|] eqn:Hparse; [|done]. cbn [result_bind] in H.
  destruct (reject_misplaced_ratect_version _ _ _ _); [|done]. cbn [result_bind] in H.
  apply bind_Some in H as (r & Hr & [= H]).
  apply result_bind_Ok in H as (st & -> & Hfin).
  set (root := mk_loaded_file root_path root_file None).
  apply (load_loop_inv root) in Hr as [Hinv Hq]; [|apply load_inv_initial|done].
  by exists root, st.
Qed.

(** A file read under a boundary lies in its checkout, by its text and by where
    it really is. *)
Definition in_checkout (b : Boundary) (path : string) : Prop :=
  path_starts_with (clean path) (bo_repo_dir b) = true ∧
  ∃ w real root, canonicalize w path = RealPath real ∧ canonicalize w (bo_repo_dir b) = RealPath root ∧
    path_starts_with real root = true.

Lemma boundary_contains_Ok w b path u :
  boundary_contains w (Some b) path = Ok u → in_checkout b path.
Proof.
  simpl. intros H. apply result_bind_Ok in H as (? & Hlex & H). apply ensure_Ok in Hlex.
  split; [done|]. unfold check_contains_canonical in H.
  destruct (canonicalize w path) as [real| |] eqn:Hp; [|done..].
  destruct (canonicalize w (bo_repo_dir b)) as [root| |] eqn:Hr; [|done..].
  apply ensure_Ok in H. by exists w, real, root.
Qed.

(** What a boundary grants, a file outside every bundle asked for. *)
Definition owner_granted (files : list LoadedFile) (b : Boundary) : Prop :=
  let id := bu_id (bo_bundle b) in
  (t_host_paths (bu_trust (bo_bundle b)) = true →
     ∃ g path nested reviewed, g ∈ files ∧ lf_boundary g = None ∧
       GitInclude (bi_remote id) (bi_git_ref id) path true nested reviewed ∈ includes g) ∧
  (t_nested_git (bu_trust (bo_bundle b)) = true →
     ∃ g path host_paths reviewed, g ∈ files ∧ lf_boundary g = None ∧
       GitInclude (bi_remote id) (bi_git_ref id) path host_paths (Some true) reviewed ∈ includes g).

Lemma declared_owner_granted files cs b : declared files cs b → owner_granted files b.
Proof.
  intros (g & repo & git_ref & path & hp & nested & reviewed & Hg & Hi & _ & Hb).
  rewrite Hb. split; simpl.
  - intros [-> Hown]%andb_prop. exists g, path, nested, reviewed.
    split; [done|]. split; [by destruct (lf_boundary g)|done].
  - intros [Hn Hown]%andb_prop. exists g, path, hp, reviewed. split; [done|].
    split; [by destruct (lf_boundary g)|]. by destruct nested as [[]|].
Qed.

(** A load that succeeds has read the root and, once each, exactly the
    files its include entries lead to: every file read is the target of an
    entry of a file read, parsed from it, with no project name and no telemetry
    setting of its own; every entry of every file read leads to a file read,
    under no more trust than that file has; a file with a boundary lies in that
    bundle's checkout, lexically and once symbolic links are resolved; what a
    boundary grants was asked for by an entry of a file outside every bundle;
    and a repository was cloned only for an entry of a file that may declare
    one: in a native project, one outside every bundle or granted it. *)
Theorem load_from_file_spec fuel w path lc :
  load_from_file_impl fuel w path format running = Some (Ok lc) →
  let files := lc_files lc in
  (∃ root rest, files = root :: rest ∧ absolute w path = Ok (lf_path root) ∧
     parse format w path = Ok (lf_file root) ∧ lf_boundary root = None ∧
     ∀ f, f ∈ rest → admitted files (lc_git_clones lc) f) ∧
  NoDup (lf_path <$> files) ∧
  (∀ g i, g ∈ files → i ∈ includes g → followed files (lc_git_clones lc) g i) ∧
  (∀ f b, f ∈ files → lf_boundary f = Some b → in_checkout b (lf_path f) ∧ owner_granted files b) ∧
  (∀ repo git_ref dir, lc_git_clones lc !! (repo, git_ref) = Some dir → cloned files repo git_ref dir).
Proof.
  intros H files. apply load_from_file_inv in H as (root & st & Habs & Hparse & Hroot & Hinv & Hq & Hfin).
  apply finish_load_fields in Hfin as (Hfiles & Hclones & _). subst files. rewrite Hfiles, Hclones.
  pose proof (inv_root _ _ Hinv) as (rest & Hrest & Hadm).
  split; [by exists root, rest|]. split; [apply (inv_nodup _ _ Hinv)|]. split; [|split].
  - intros g i Hg Hi. destruct (inv_followed _ _ Hinv g i Hg Hi) as [Hin|]; [|done].
    rewrite Hq in Hin. by apply not_elem_of_nil in Hin.
  - intros f b Hf Hb. split; [|by eapply declared_owner_granted, (inv_declared _ _ Hinv)].
    rewrite Hrest in Hf. apply elem_of_cons in Hf as [->|Hf]; [by rewrite Hroot in Hb|].
    destruct (Hadm f Hf) as (g & i & w' & _ & _ & _ & Hc & _). rewrite Hb in Hc.
    by eapply boundary_contains_Ok.
  - apply (inv_cloned _ _ Hinv).
Qed.

(** What a load records of a name. *)
Definition merged_name (lc : LoadedConfig) (name : string) : Prop :=
  defined_once (definitions cf_tasks (lc_files lc) name) (cfg_tasks (lc_config lc)) name ∧
  defined_once (definitions (default [] ∘ cf_config_variables) (lc_files lc) name)
    (default [] (cfg_config_variables (lc_config lc))) name ∧
  let defs := definitions cf_containers (lc_files lc) name in
  defined_once defs (cfg_containers (lc_config lc)) name ∧
  lc_container_origins lc !! name = lf_path ∘ fst <$> head defs ∧
  lc_container_base_paths lc !! name = (λ p, default EmptyString (path_parent (lf_path p.1))) <$> head defs ∧
  lc_container_boundaries lc !! name = head defs ≫= λ p, lf_boundary p.1.

(** The merged configuration has exactly the names the files define. *)
Lemma merged_config fuel w path lc :
  load_from_file_impl fuel w path format running = Some (Ok lc) → ∀ name, merged_name lc name.
Proof.
  intros H name. unfold merged_name. apply load_from_file_inv in H as (root & st & _ & _ & _ & _ & _ & Hfin).
  apply finish_load_fields in Hfin as (-> & _ & -> & -> & -> & -> & -> & -> & _ & Ht & Hc & Hv).
  pose proof (merge_files_as name (ls_loaded st)) as ((Hcn & Ho & Hb & Hbo) & Htn & Hvn).
  split; [by eapply names_once|]. split; [by eapply names_once|]. split; [by eapply names_once|done].
Qed.

Lemma load_loop_more root_path fuel fuel' st r :
  fuel ≤ fuel' → load_loop fuel format root_path running st = Some r →
  load_loop fuel' format root_path running st = Some r.
Proof.
  revert fuel' st. induction fuel as [|fuel IH]; intros fuel' st Hle; simpl.
  - destruct fuel'; simpl; by destruct (ls_queue st) as [|[[? ?] ?] ?].
  - destruct fuel' as [|fuel']; [lia|]. simpl. destruct (ls_queue st) as [|[[p b] i] queue]; [done|].
    destruct (load_entry _ _ _ _ _ _ _); [|done]. apply IH. lia.
Qed.

(** A load ends, include cycles or not: when the files that can be read are
    finitely many, it has a result, the same from some number of rounds on. *)
Theorem load_terminates w path (universe : gset string) :
  (∀ w p f, parse format w p = Ok f → p ∈ universe) →
  ∃ enough r, ∀ fuel, enough ≤ fuel → load_from_file_impl fuel w path format running = Some r.
Proof.
  intros Hfinite. unfold load_from_file_impl.
  destruct (let? root_path := absolute w path in _) as [[root_path root_file]|e]; [|by exists 0, (Err e)].
  destruct (load_loop_terminates root_path universe (initial_state w root_path root_file) Hfinite)
    as (enough & r & Hr).
  eexists enough, _. intros fuel Hle. by rewrite (load_loop_more _ _ _ _ _ Hle Hr).
Qed.

(** C25: a load ends, include cycles or not: when the files that can be read are
    finitely many it has a result, the same from some number of rounds on.  One
    that succeeds has read the root and, once each, exactly the files its include
    entries lead to: every file read is the target of an entry of a file read,
    parsed from it, with no project name and no telemetry setting of its own; every
    entry of every file read leads to a file read, under no more trust than that
    file has; a file with a boundary lies in that bundle's checkout, lexically and
    once symbolic links are resolved; what a boundary grants was asked for by an
    entry of a file outside every bundle; and a repository was cloned only for an
    entry of a file that may declare one: in a native project, one outside every
    bundle or granted it.  The merged configuration has exactly the names the files
    define: a container, task or config variable is in it when one file defines it,
    as that file has it; a name that two definitions claim is refused; and each
    container is recorded with the file that declares it, that file's directory and
    that file's boundary. *)
Theorem load_spec w path (universe : gset string) :
  (∀ w p f, parse format w p = Ok f → p ∈ universe) →
  ∃ enough r,
    (∀ fuel, enough ≤ fuel → load_from_file_impl fuel w path format running = Some r) ∧
    ∀ lc, r = Ok lc →
      let files := lc_files lc in
      (∃ root rest, files = root :: rest ∧ absolute w path = Ok (lf_path root) ∧
         parse format w path = Ok (lf_file root) ∧ lf_boundary root = None ∧
         ∀ f, f ∈ rest → admitted files (lc_git_clones lc) f) ∧
      NoDup (lf_path <$> files) ∧
      (∀ g i, g ∈ files → i ∈ includes g → followed files (lc_git_clones lc) g i) ∧
      (∀ f b, f ∈ files → lf_boundary f = Some b → in_checkout b (lf_path f) ∧ owner_granted files b) ∧
      (∀ repo git_ref dir, lc_git_clones lc !! (repo, git_ref) = Some dir → cloned files repo git_ref dir) ∧
      ∀ name, merged_name lc name.
Proof.
  intros Hu. destruct (load_terminates w path universe Hu) as (enough & r & Hr).
  exists enough, r. split; [exact Hr|]. intros lc ->.
  pose proof (load_from_file_spec enough w path lc (Hr enough (le_n _))) as (Hroot & Hnd & Hf & Hb & Hc).
  split_and!; [done..|]. exact (merged_config enough w path lc (Hr enough (le_n _))).
Qed.
End spec.

(** ** An example

    A root with a local include that includes it back, and a Git include of a
    bundle of two files, which it grants host paths. *)

Definition example_file (project_name : option string) (containers : index_map Container)
    (tasks : index_map Task) (include : list IncludeEntry) : ConfigFile :=
  mk_config_file project_name containers tasks None include None None.

Definition example_root : ConfigFile :=
  example_file (Some "p") [("app", container_default)] []
    [FileInclude "more.toml"; GitInclude "https://host/r" "v1" None true None None].

Definition example_tree : gmap string ConfigFile := list_to_map [
  ("/p/ratect.toml", example_root);
  ("/p/more.toml", example_file None [("db", container_default)] [] [FileInclude "ratect.toml"]);
  ("/c/v1/ratect-bundle.toml", example_file None [] [] [FileInclude "sub/tasks.yml"]);
  ("/c/v1/sub/tasks.yml", example_file None [("lint", container_default)] [] [FileInclude "../ratect-bundle.toml"]);
  ("/c/v1/own.toml", example_file (Some "own") [] []
    [GitInclude "https://host/r" "v1" (Some "own.toml") true None None])].

#[local] Instance example_files : FileTree () := {
  current_dir _ := Some "/p";
  home_directory _ := None;
  canonicalize _ p := RealPath p;
  is_file _ p := bool_decide (is_Some (example_tree !! p));
  exists_at _ p := bool_decide (is_Some (example_tree !! p));
}.
#[local] Instance example_toml : TomlFiles () := {
  read_to_string _ _ := None;
  parse_toml _ := None;
}.
#[local] Instance example_source : ConfigSource () := {
  parse_yaml_config_file _ p := example_tree !! p;
  parse_toml_config_file _ p := example_tree !! p;
  ensure_cached w repo git_ref := (w, Some ("/c/" +:+ git_ref));
  cached_working_copy w repo git_ref := Some ("/c/" +:+ git_ref);
}.
#[local] Existing Instance LexicalClean.lexical_path_clean.

Definition example_load : option (result LoadedConfig load_error) :=
  load_from_file_impl 10 () "/p/ratect.toml" Native None.

Definition example_loaded : LoadedConfig :=
  match example_load with
  | Some (Ok lc) => lc
  | _ => mk_loaded_config (mk_config EmptyString [] [] None None) ∅ ∅ ∅ Native [] ∅
  end.

Lemma example_load_Ok : example_load = Some (Ok example_loaded).
Proof. vm_compute. reflexivity. Qed.

Lemma load_spec_witness :
  lf_path <$> lc_files example_loaded =
    ["/p/ratect.toml"; "/p/more.toml"; "/c/v1/ratect-bundle.toml"; "/c/v1/sub/tasks.yml"] ∧
  ∃ enough r,
    (∀ fuel, enough ≤ fuel → load_from_file_impl fuel () "/p/ratect.toml" Native None = Some r) ∧
    ∀ lc, r = Ok lc → NoDup (lf_path <$> lc_files lc) ∧ merged_name lc "lint".
Proof.
  split; [vm_compute; reflexivity|].
  destruct (load_spec Native None () "/p/ratect.toml" (dom example_tree)) as (enough & r & Hr & Hok).
  - intros [] p f. unfold parse. destruct (config_file_format p) as [[]|]; simpl; [| |done];
      intros H; destruct (example_tree !! p) eqn:E; try discriminate H;
      apply elem_of_dom; rewrite E; eexists; reflexivity.
  - exists enough, r. split; [exact Hr|]. intros lc H.
    destruct (Hok lc H) as (_ & Hnd & _ & _ & _ & Hname). split; [exact Hnd|exact (Hname "lint")].
Defined.


(** A project kept in a clone may include its own root file through Git: the
    root is in no boundary, but it was never recorded as such, so the grant is
    refused as one that arrived too late. *)
Example root_grant_refused :
  load_from_file_impl 10 () "/c/v1/own.toml" Native None =
    Some (Err (TrustRefused (GrantsLost ["allow_host_paths"] "https://host/r"))).
Proof. vm_compute. reflexivity. Qed.
