(* ===== verification/Evaluate.v ===== *)
(** * Evaluate: values judged at load and evaluated for a run

    [check_values], [config_variable_values], [evaluate_container],
    [evaluate_task], [anchor_path] and [LoadedProject::evaluate] of
    [ratect-core/src/config.rs]: what a configuration's values are on this
    machine, each host path resolved against the file that wrote it and kept in
    that file's boundary.  A [HashMap] is walked in the order of its [gmap]. *)

From S2P Require Import Prelude Text Collections Values Config Regex Dockerignore Paths IncludeTrust WrittenFor Includes.
From S2P Require Import CommandLine Extends Validate.
From S2P Require Expressions.
From stdpp Require Import options.

Definition PROJECT_DIRECTORY_VAR : string := "batect.project_directory".

(** ** Provenance *)

Record Provenance := mk_provenance {
  pv_base_paths : gmap string string;
  pv_boundaries : gmap string Boundary;
  pv_batect_shaped : gset string;
  pv_suppliers : gmap string Suppliers;
}.

Record Anchor := mk_anchor {
  an_base_path : string;
  an_boundary : option (Boundary * string);
  an_batect_shaped : bool;
}.

Definition anchor (p : Provenance) (supplier project_directory : string) : Anchor :=
  mk_anchor (default project_directory (pv_base_paths p !! supplier))
    ((λ b, (b, project_directory)) <$> pv_boundaries p !! supplier)
    (bool_decide (supplier ∈ pv_batect_shaped p)).

Definition suppliers_of (p : Provenance) (container : string) : Suppliers :=
  default (suppliers_own container) (pv_suppliers p !! container).

(** ** Errors *)

Inductive value_problem :=
| BadPath (path : string)
| PathError (e : load_error)
| NotEvaluated (field value : string) (e : Expressions.expr_error)
| Deferred (field value : string) (problem : value_problem)
| InvalidVolume (value : string) (problem : value_problem)
| NotAbsolute (field path : string)
| CorruptsPasswd (field path : string)
| NoHomeName (field path : string)
| ParentInHome (path : string)
| InvalidCacheName (name : string)
| InvalidCommand (field : string) (e : command_error)
| DuplicateSshAgent (id : string)
| CurrentUserWithoutHome
| HomeWithoutCurrentUser.

Inductive check_error :=
| ContainerValue (container : string) (problem : value_problem)
| EmptyTask (task : string)
| DependenciesWithoutRun (task : string)
| OwnContainerDependency (task container : string)
| TaskCommand (task field : string) (e : command_error)
| CustomisesMain (task container : string)
| UndeclaredOverride (name : string)
| NoSuchContainer (name : string)
| NoSuchTask (name : string)
| TaskValue (task : string) (problem : value_problem).

(** ** Homes and cache names *)

Definition check_home_directory (field home_directory : string) : result () value_problem :=
  let? _ := ensure (starts_with "/" home_directory) (NotAbsolute field home_directory) in
  let? _ := ensure (negb (contains_char ":" home_directory || existsb is_control (chars home_directory)))
              (CorruptsPasswd field home_directory) in
  ensure (match file_name home_directory with Some _ => true | None => false end)
    (NoHomeName field home_directory).

Definition identity_home_has_a_parent_component (home : string) : bool :=
  bool_decide (".." ∈ (components home).2).

Definition check_identity_home (home : string) : result () value_problem :=
  let? _ := check_home_directory "identity.home" home in
  ensure (negb (identity_home_has_a_parent_component home)) (ParentInHome home).

Definition validate_cache_name (name : string) : result () value_problem :=
  ensure
    (match head (chars name) with Some c => is_ascii_alphanumeric c | None => false end &&
     forallb (λ c, is_ascii_alphanumeric c || bool_decide (c ∈ ["_"; "."; "-"]%char)) (chars name))
    (InvalidCacheName name).

Section evaluate.
Context `{!PathClean, !FileTree W}.

(** ** Host paths *)

Definition resolve_option_path (w : W) (path : string) : result string load_error :=
  let? expanded := expand_home_directory w path in
  Ok (clean (default path expanded)).

Definition project_directory_path (w : W) (base_path : string) : result string load_error :=
  absolute w base_path.

Definition base_path_for (config_file : string) : string := default "." (path_parent config_file).

(** The path a value names, before any boundary is asked. *)
Definition resolve_host_path (w : W) (path : string) (a : Anchor) : result string value_problem :=
  let? _ := ensure (negb (contains_char "000" path)) (BadPath path) in
  let? home_relative := map_err PathError (expand_home_directory w path) in
  match home_relative with
  | Some home_relative => Ok (clean home_relative)
  | None =>
      if is_relative path then
        let? resolved := map_err PathError (absolute w (path_join (an_base_path a) path)) in
        Ok resolved
      else Ok (clean path)
  end.

Definition anchor_path (w : W) (path : string) (a : Anchor) (contained : HostPathField)
    : result string value_problem :=
  let? resolved := resolve_host_path w path a in
  match an_boundary a with
  | None => Ok resolved
  | Some (b, project_dir) =>
      let? _ := map_err (PathError ∘ TrustRefused) (check_path_allowed w b resolved project_dir contained) in
      Ok resolved
  end.

Definition check_literal_path (w : W) (path : string) (a : Anchor) (contained : HostPathField)
    : result () value_problem :=
  match an_boundary a with
  | Some _ =>
      if Expressions.contains_expression path then Ok tt
      else let? _ := anchor_path w path a contained in Ok tt
  | None => Ok tt
  end.

(** ** [check_values] *)

Definition check_volume (w : W) (a : Anchor) (volume : VolumeMount) : result () value_problem :=
  match volume with
  | CacheMount cache => validate_cache_name (cv_name cache)
  | LocalMount local =>
      if local_is_expression local (an_batect_shaped a) then check_literal_path w (lv_local local) a VolumesField
      else
        match an_boundary a with
        | Some _ => let? _ := anchor_path w (lv_local local) a VolumesField in Ok tt
        | None => Ok tt
        end
  | TmpfsMount _ => Ok tt
  end.

Definition check_command_field (p : string * option string) : result () value_problem :=
  match p.2 with
  | None => Ok tt
  | Some command =>
      let? _ := map_err (InvalidCommand p.1) (tokenize_command_line command) in Ok tt
  end.

(** The loop over [build_ssh]: ids met before are in [ids_seen]. *)
Fixpoint check_agents (w : W) (a : Anchor) (ids_seen : list string) (agents : list SshAgent)
    : result () value_problem :=
  match agents with
  | [] => Ok tt
  | agent :: agents =>
      let? _ := ensure (negb (bool_decide (sa_id agent ∈ ids_seen))) (DuplicateSshAgent (sa_id agent)) in
      let? _ := each (λ path, check_literal_path w path a BuildSshField) (sa_paths agent) in
      check_agents w a (sa_id agent :: ids_seen) agents
  end.

Definition check_container_values (w : W) (a : Anchor) (c : Container) : result () value_problem :=
  let? _ := each (check_volume w a) (default [] (c_volumes c)) in
  let? _ := match c_build_directory c with
            | Some path => check_literal_path w path a BuildDirectoryField
            | None => Ok tt
            end in
  let? _ := each (λ secret, match secret with
                              | PathSecret path => check_literal_path w path a BuildSecretsField
                              | EnvironmentSecret _ => Ok tt
                              end) (map_to_list (default ∅ (c_build_secrets c))).*2 in
  let? _ := each check_command_field [("command", c_command c); ("entrypoint", c_entrypoint c)] in
  let? _ := each (λ s, check_command_field ("setup command", Some (sc_command s)))
              (default [] (c_setup_commands c)) in
  let? _ := check_agents w a [] (default [] (c_build_ssh c)) in
  let? _ := match c_run_as_current_user c with
            | None => Ok tt
            | Some run_as =>
                if ru_enabled run_as then
                  let? home := ok_or (ru_home_directory run_as) CurrentUserWithoutHome in
                  check_home_directory "run_as_current_user.home_directory" home
                else ensure (match ru_home_directory run_as with None => true | Some _ => false end)
                       HomeWithoutCurrentUser
            end in
  match c_identity c with
  | Some identity =>
      if Expressions.contains_expression (id_home identity) then Ok tt
      else check_identity_home (id_home identity)
  | None => Ok tt
  end.

Definition check_task_values (p : string * Task) : result () check_error :=
  let '(task_name, task) := p in
  let? _ := match t_run task, default [] (t_prerequisites task) with
            | None, [] => Err (EmptyTask task_name)
            | _, _ => Ok tt
            end in
  let? _ := match t_run task, t_dependencies task with
            | None, Some (_ :: _) => Err (DependenciesWithoutRun task_name)
            | Some run, Some dependencies =>
                ensure (negb (bool_decide (r_container run ∈ dependencies)))
                  (OwnContainerDependency task_name (r_container run))
            | _, _ => Ok tt
            end in
  let? _ := match t_run task with
            | None => Ok tt
            | Some run =>
                each (λ p, match p.2 with
                             | None => Ok tt
                             | Some command =>
                                 let? _ := map_err (TaskCommand task_name p.1) (tokenize_command_line command) in
                                 Ok tt
                             end) [("command", r_command run); ("entrypoint", r_entrypoint run)]
            end in
  match t_run task, t_customise task with
  | Some run, Some customise =>
      ensure (negb (bool_decide (r_container run ∈ customise.*1)))
        (CustomisesMain task_name (r_container run))
  | _, _ => Ok tt
  end.

Definition check_values (w : W) (config : Config) (p : Provenance) (project_directory : string)
    : result () check_error :=
  let? _ := each (λ '(name, c),
      map_err (ContainerValue name) (check_container_values w (anchor p name project_directory) c))
    (cfg_containers config) in
  each check_task_values (cfg_tasks config).

(** ** Config variables *)

Definition config_variable_values (config : Config) (overrides : gmap string string)
    (project_directory : string) : result (gmap string (option string)) check_error :=
  let declared := default [] (cfg_config_variables config) in
  let? _ := each (λ key, ensure (match im_get declared key with Some _ => true | None => false end)
                             (UndeclaredOverride key))
              (sort_strings (elements (dom overrides))) in
  let vars := foldl (λ m '(name, var),
      <[name := match overrides !! name with Some v => Some v | None => cfv_default var end]> m)
    ∅ declared in
  Ok (<[PROJECT_DIRECTORY_VAR := Some project_directory]> vars).

(** ** Evaluation *)

(** [store_or_record]: a value that fails is left as written. *)
Definition store_or_record {A} (written : A) (evaluated : result A value_problem)
    : A * list value_problem :=
  match evaluated with
  | Ok value => (value, [])
  | Err e => (written, [e])
  end.

(** The values of a map, each evaluated in place. *)
Definition store_map {A} (f : string → A → A * list value_problem) (m : gmap string A)
    : gmap string A * list value_problem :=
  (map_imap (λ k v, Some (f k v).1) m, map_to_list m ≫= λ p, (f p.1 p.2).2).

Definition store_list {A} (f : A → A * list value_problem) (l : list A) : list A * list value_problem :=
  ((λ x, (f x).1) <$> l, l ≫= λ x, (f x).2).

(** [Option::iter_mut] *)
Definition store_option {A} (f : A → A * list value_problem) (o : option A)
    : option A * list value_problem :=
  match o with
  | Some x => let '(x, failures) := f x in (Some x, failures)
  | None => (None, [])
  end.

Section values.
Context (host_env : string → option string) (vars : gmap string (option string)).

Definition evaluate_value (field value : string) : result string value_problem :=
  map_err (NotEvaluated field value) (Expressions.interpolate value host_env vars).

Definition evaluate_in (field value : string) : string * list value_problem :=
  store_or_record value (evaluate_value field value).

(** The [resolve] closure of [evaluate_container]. *)
Definition resolve (w : W) (field : string) (contained : HostPathField) (path : string) (a : Anchor)
    : result string value_problem :=
  let? evaluated := evaluate_value field path in
  map_err (Deferred field path) (anchor_path w evaluated a contained).

Definition quoted_field (prefix key : string) : string :=
  "'" +:+ prefix +:+ printable key +:+ "'".

Definition evaluate_volume (w : W) (a : Anchor) (volume : VolumeMount) : VolumeMount * list value_problem :=
  match volume with
  | LocalMount local =>
      let resolved :=
        if local_is_expression local (an_batect_shaped a)
        then resolve w "'volumes'" VolumesField (lv_local local) a
        else map_err (InvalidVolume (lv_local local)) (anchor_path w (lv_local local) a VolumesField) in
      let '(value, failures) := store_or_record (lv_local local) resolved in
      (LocalMount (mk_local_mount value (lv_container local) (lv_options local) (lv_compact local)), failures)
  | CacheMount _ | TmpfsMount _ => (volume, [])
  end.

Definition evaluate_secret (w : W) (a : Anchor) (key : string) (secret : BuildSecret)
    : BuildSecret * list value_problem :=
  match secret with
  | PathSecret path =>
      let '(path, failures) :=
        store_or_record path (resolve w (quoted_field "build_secrets." key) BuildSecretsField path a) in
      (PathSecret path, failures)
  | EnvironmentSecret _ => (secret, [])
  end.

Definition evaluate_agent (w : W) (a : Anchor) (agent : SshAgent) : SshAgent * list value_problem :=
  let field := "'build_ssh' entry '" +:+ printable (sa_id agent) +:+ "'" in
  let '(paths, failures) :=
    store_list (λ path, store_or_record path (resolve w field BuildSshField path a)) (sa_paths agent) in
  (mk_ssh_agent (sa_id agent) paths, failures).

Definition evaluate_home (home : string) : result string value_problem :=
  let? value := evaluate_value "'identity.home'" home in
  let? _ := map_err (Deferred "'identity.home'" home) (check_identity_home value) in
  Ok value.

Definition evaluate_container (w : W) (name : string) (c : Container) (p : Provenance)
    (project_directory : string) : Container * list value_problem :=
  let suppliers := suppliers_of p name in
  let anchor_of supplier := anchor p supplier project_directory in
  let '(image, f1) :=
    if image_is_expression (an_batect_shaped (anchor_of (s_image suppliers)))
    then store_option (evaluate_in "'image'") (c_image c) else (c_image c, []) in
  let '(environment, f2) :=
    store_option (store_map (λ key, evaluate_in (quoted_field "environment." key))) (c_environment c) in
  let '(volumes, f3) :=
    store_option (store_list (evaluate_volume w (anchor_of (s_volumes suppliers)))) (c_volumes c) in
  let build_directory_anchor := anchor_of (s_build_directory suppliers) in
  let build_directory_result :=
    (λ path, resolve w "'build_directory'" BuildDirectoryField path build_directory_anchor)
      <$> c_build_directory c in
  let in_bundle :=
    match build_directory_result, an_boundary build_directory_anchor with
    | Some (Ok resolved), Some (boundary, _) => describe_in_checkout boundary resolved
    | _, _ => c_build_directory_in_bundle c
    end in
  let '(build_directory, f4) :=
    store_option (λ path, store_or_record path
      (default (Ok path) build_directory_result)) (c_build_directory c) in
  let '(build_args, f5) :=
    store_option (store_map (λ key, evaluate_in (quoted_field "build_args." key))) (c_build_args c) in
  let '(build_secrets, f6) :=
    store_option (store_map (evaluate_secret w (anchor_of (s_build_secrets suppliers)))) (c_build_secrets c) in
  let '(build_ssh, f7) :=
    store_option (store_list (evaluate_agent w (anchor_of (s_build_ssh suppliers)))) (c_build_ssh c) in
  let '(identity, f8) :=
    store_option (λ i, let '(home, f) := store_or_record (id_home i) (evaluate_home (id_home i)) in
                       (mk_identity home (id_additional_users i), f)) (c_identity c) in
  (mk_container (c_extends c) image (c_image_pull_policy c) build_directory in_bundle build_args
     (c_dockerfile c) (c_build_target c) build_secrets build_ssh volumes (c_dependencies c) environment
     (c_run_as_current_user c) (c_additional_hostnames c) (c_additional_hosts c) (c_ports c)
     (c_health_check c) (c_setup_commands c) (c_run_to_completion c) (c_external_health_check c)
     (c_reports_readiness_for c) (c_working_directory c) (c_command c) (c_entrypoint c) (c_labels c)
     (c_capabilities_to_add c) (c_capabilities_to_drop c) (c_privileged c) (c_shm_size c) (c_devices c)
     (c_enable_init_process c) (c_log_driver c) (c_log_options c) (c_stop_signal c)
     (c_stop_grace_period c) (c_ulimits c) (c_dns c) (c_dns_search c) (c_dns_options c)
     (c_network_mode c) (c_user c) (c_group c) (c_groups c) identity,
   f1 ++ f2 ++ f3 ++ f4 ++ f5 ++ f6 ++ f7 ++ f8).

Definition evaluate_run (run : TaskRun) : TaskRun * list value_problem :=
  let '(environment, f) :=
    store_option (store_map (λ key, evaluate_in (quoted_field "run.environment." key))) (r_environment run) in
  (mk_task_run (r_container run) (r_command run) environment (r_ports run) (r_working_directory run)
     (r_entrypoint run), f).

Definition evaluate_customisation (p : string * TaskContainerCustomisation)
    : (string * TaskContainerCustomisation) * list value_problem :=
  let '(environment, f) :=
    store_option (store_map (λ key,
      evaluate_in (quoted_field ("customise." +:+ p.1 +:+ ".environment.") key))) (cu_environment p.2) in
  ((p.1, mk_customisation environment (cu_ports p.2) (cu_working_directory p.2)), f).

Definition evaluate_task (t : Task) : Task * list value_problem :=
  let '(run, f1) := store_option evaluate_run (t_run t) in
  let '(customise, f2) := store_option (store_list evaluate_customisation) (t_customise t) in
  (mk_task run (t_prerequisites t) (t_dependencies t) (t_description t) (t_group t) customise, f1 ++ f2).
End values.
End evaluate.
