(* ===== verification/Project.v ===== *)
(** * Project: a configuration loaded, checked and evaluated

    [load_project_impl], [LoadedProject] and [validate_dns_servers] of
    [ratect-core/src/config.rs]: the checks of [Validate], the inheritance of
    [Extends] and the companions of [ExternalChecks], in the order the loader
    runs them on what [Includes] read, and the evaluation of what a command
    uses. *)

From S2P Require Import Prelude Text Collections Values Config Regex Dockerignore Paths IncludeTrust WrittenFor Includes.
From S2P Require Import Extends ExternalChecks Validate Evaluate.
From stdpp Require Import options.

(** ** IP addresses

    [IpAddr::from_str] of the standard library: a parser of part of a text
    returns what it left. *)

(** [read_number(10, Some(3), false)] *)
Definition read_octet (l : list ascii) : option (N * list ascii) :=
  let digits := take_while is_ascii_digit l in
  if bool_decide (length digits = 0) || (3 <? length digits)
     || (bool_decide (head l = Some "0"%char) && (1 <? length digits)) then None
  else
    n ← parse_digits 0 digits;
    if (n <=? 255)%N then Some (n, drop (length digits) l) else None.

Definition read_char (c : ascii) (l : list ascii) : option (list ascii) :=
  match l with
  | d :: l => if decide (d = c) then Some l else None
  | [] => None
  end.

(** [read_ipv4_addr] *)
Definition read_ipv4 (l : list ascii) : option (list ascii) :=
  '(_, l) ← read_octet l;
  l ← read_char "." l;
  '(_, l) ← read_octet l;
  l ← read_char "." l;
  '(_, l) ← read_octet l;
  l ← read_char "." l;
  '(_, l) ← read_octet l;
  Some l.

Definition is_hex_digit (c : ascii) : bool :=
  is_ascii_digit c || in_range 97 102 c || in_range 65 70 c.

(** [read_number(16, Some(4), true)] *)
Definition read_group (l : list ascii) : option (list ascii) :=
  match take_while is_hex_digit l with
  | [] => None
  | digits => if length digits <=? 4 then Some (drop (length digits) l) else None
  end.

Definition separated (i : nat) (l : list ascii) : option (list ascii) :=
  if i =? 0 then Some l else read_char ":" l.

(** [read_groups]: how many of at most [limit] groups were read from the [i]th
    on, and whether the last was an IPv4 address. *)
Fixpoint read_groups (fuel limit i : nat) (l : list ascii) : nat * bool * list ascii :=
  match fuel with
  | 0 => (i, false, l)
  | S fuel =>
      if i =? limit then (limit, false, l)
      else
        match (if S i <? limit then separated i l ≫= read_ipv4 else None) with
        | Some l => (i + 2, true, l)
        | None =>
            match separated i l ≫= read_group with
            | Some l => read_groups fuel limit (S i) l
            | None => (i, false, l)
            end
        end
  end.

(** [read_ipv6_addr] *)
Definition read_ipv6 (l : list ascii) : option (list ascii) :=
  let '(head_size, head_ipv4, l) := read_groups 8 8 0 l in
  if head_size =? 8 then Some l
  else if head_ipv4 then None
  else
    l ← read_char ":" l;
    l ← read_char ":" l;
    let '(_, _, l) := read_groups 8 (8 - (head_size + 1)) 0 l in
    Some l.

(** A text a parser reads whole. *)
Definition parse_with (read : list ascii → option (list ascii)) (s : string) : bool :=
  bool_decide (read (chars s) = Some []).

Definition parses_as_ip (s : string) : bool :=
  match read_ipv4 (chars s) with
  | Some rest => bool_decide (rest = [])
  | None => parse_with read_ipv6 s
  end.

Example addresses :
  parses_as_ip <$> ["8.8.8.8"; "::1"; "fe80::1:2"; "::ffff:1.2.3.4"; "1:2:3:4:5:6:7:8"; "::"] = replicate 6 true ∧
  parses_as_ip <$> ["1.2.3"; "01.2.3.4"; "1.2.3.256"; "1::2::3"; "1:2:3:4:5:6:7:8:9"; "dns.example"; ""; "1.2.3.4 "] =
    replicate 8 false.
Proof. split; vm_compute; reflexivity. Qed.

(** ** The checks of a load *)

Inductive project_error :=
| FileNotFound (file : string)
| FileIsNotAFile (file : string)
| LoadFailed (e : load_error)
| DnsServer (container server : string)
| CheckFailed (e : check_error)
| ValidationFailed (e : validation_error)
| ExtendsFailed (e : extends_error)
| ExternalFailed (e : external_error).

Definition validate_dns_servers (config : Config) : result () project_error :=
  each (λ '(name, c),
      each (λ server, ensure (parses_as_ip server) (DnsServer name server)) (default [] (c_dns c)))
    (cfg_containers config).

Definition allows_extends (format : ConfigFormat) : bool :=
  match format with Native => true | Compat => false end.

Inductive Dialect := BatectCompatible | NativeDialect.

Definition dialect (format : ConfigFormat) : Dialect :=
  match format with Compat => BatectCompatible | Native => NativeDialect end.

Definition is_batect_shaped (format : ConfigFormat) (origin : option string) : bool :=
  match origin with
  | Some origin => reads_as_batect format origin
  | None => bool_decide (format = Compat)
  end.

Definition shaped (lc : LoadedConfig) (name : string) : bool :=
  is_batect_shaped (lc_format lc) (lc_container_origins lc !! name).

Definition provenance (lc : LoadedConfig) : Provenance :=
  mk_provenance (lc_container_base_paths lc) (lc_container_boundaries lc)
    (list_to_set (filter (λ name, shaped lc name = true) (cfg_containers (lc_config lc)).*1)) ∅.

Record LoadedProject := mk_loaded_project {
  lp_config : Config;
  lp_project_directory : string;
  lp_dialect : Dialect;
  lp_provenance : Provenance;
  lp_toml_files : list string;
  lp_toml_sources : list (string * option BundleId);
  lp_other_sources : list (option BundleId);
}.

Definition bundle_of (f : LoadedFile) : option BundleId := bu_id ∘ bo_bundle <$> lf_boundary f.

Definition is_toml (f : LoadedFile) : bool :=
  bool_decide (config_file_format (lf_path f) = Some TomlFormat).

(** The files of a load, those read as TOML and the others. *)
Definition partition_files (format : ConfigFormat) (files : list LoadedFile)
    : list LoadedFile * list LoadedFile :=
  match format with
  | Compat => ([], [])
  | Native => (filter (λ f, is_toml f = true) files, filter (λ f, is_toml f = false) files)
  end.

Definition set_containers (containers : index_map Container) (config : Config) : Config :=
  mk_config (cfg_project_name config) containers (cfg_tasks config) (cfg_config_variables config)
    (cfg_forbid_telemetry config).

Section project.
Context `{!PathClean, !FileTree W, !TomlFiles W, !ConfigSource W}.

Definition check_config_file (w : W) (config_file : string) : result () project_error :=
  let? _ := ensure (exists_at w config_file) (FileNotFound config_file) in
  ensure (is_file w config_file) (FileIsNotAFile config_file).

(** The rules that judge the configuration after inheritance. *)
Definition check_effective (config : Config) (suppliers : gmap string Suppliers)
    : result () validation_error :=
  let? _ := reject_references_to_undeclared_containers external_health_check_container_name config in
  let? _ := reject_conflicting_cache_scopes config in
  let? _ := reject_run_to_completion_conflicts config in
  let? _ := reject_relative_cache_mounts_under_user_mapping config in
  let? _ := reject_customisations_outside_the_task_graph config in
  let? _ := validate_setup_command_targets config in
  let? _ := validate_network_modes config in
  let? _ := validate_identity config in
  let? _ := validate_passthrough_identity config in
  reject_inherited_run_as_current_user config suppliers.

Definition load_project_impl (w : W) (config_file : string) (format : ConfigFormat) (lc : LoadedConfig)
    : result LoadedProject project_error :=
  let config := lc_config lc in
  let? _ := map_err ValidationFailed (reject_incompatible_fields config
              (λ name, is_batect_shaped format (lc_container_origins lc !! name))) in
  let? _ := validate_dns_servers config in
  let? project_directory := map_err LoadFailed (project_directory_path w (base_path_for config_file)) in
  let pv := provenance lc in
  let? _ := map_err CheckFailed (check_values w config pv project_directory) in
  let '(toml, other) := partition_files format (lc_files lc) in
  let? (config, suppliers) :=
    if allows_extends format then
      let? (containers, suppliers) := map_err ExtendsFailed (resolve_extends (cfg_containers config)) in
      Ok (set_containers containers config, suppliers)
    else Ok (config, ∅) in
  let? _ := map_err ValidationFailed (check_effective config suppliers) in
  let? config :=
    if allows_extends format then map_err ExternalFailed (expand_external_health_checks config)
    else Ok config in
  Ok (mk_loaded_project config project_directory (dialect format)
        (mk_provenance (pv_base_paths pv) (pv_boundaries pv) (pv_batect_shaped pv) suppliers)
        ((λ f, describe_origin (lf_path f) (lf_boundary f)) <$> toml)
        ((λ f, (lf_path f, bundle_of f)) <$> toml) (bundle_of <$> other)).

(** [load_project], [load_project_native] and
    [load_project_native_for_trial] *)
Definition load_project_with (fuel : nat) (w : W) (config_file : string) (format : ConfigFormat)
    (running : option Version) : option (result LoadedProject project_error) :=
  match check_config_file w config_file with
  | Err e => Some (Err e)
  | Ok _ =>
      loaded ← load_from_file_impl fuel w config_file format running;
      Some (let? lc := map_err LoadFailed loaded in load_project_impl w config_file format lc)
  end.

(** ** What a refusal's detectors read *)

Definition toml_documents (w : W) (lp : LoadedProject) (scope : Scope) : option (list TomlFile * bool) :=
  let every := negb (existsb (covers scope) (lp_other_sources lp)) in
  documents ← mapM (λ '(name, (path, _)),
      text ← read_to_string w path;
      document ← parse_toml text;
      Some (mk_toml_file name document))
    (filter (λ '(_, (_, bundle)), covers scope bundle = true) (zip (lp_toml_files lp) (lp_toml_sources lp)));
  Some (documents, every).

Definition assess_trial (w : W) (r : Refusal) (trial : result LoadedProject string) : Refusal :=
  assess w r (result_map (λ lp scope, toml_documents w lp scope) trial).

(** ** Evaluating a project *)

Record Evaluated := mk_evaluated {
  ev_containers : gmap string Container;
  ev_tasks : gmap string Task;
}.

Record WholeProjectEvaluation := mk_whole {
  wp_evaluated : Evaluated;
  wp_failures : list check_error;
}.

(** [sort_by_key(|name| (get_index_of(name), name))] and [dedup]: names the map
    does not hold first. *)
Definition index_of {V} (m : index_map V) (name : string) : option nat :=
  fst <$> list_find (λ p, p.1 = name) m.

Definition name_le {V} (m : index_map V) (a b : string) : Prop :=
  match index_of m a, index_of m b with
  | None, Some _ => True
  | Some _, None => False
  | None, None => str_le a b
  | Some i, Some j => i ≤ j
  end.
#[global] Instance name_le_dec {V} (m : index_map V) : RelDecision (name_le m).
Proof. intros a b. unfold name_le. destruct (index_of m a), (index_of m b); apply _. Defined.

Definition in_order {V} (m : index_map V) (names : list string) : list string :=
  dedup (merge_sort (name_le m) names).

(** One loop of [evaluate_each]. *)
Definition evaluate_names {V} (m : index_map V) (missing : string → check_error)
    (failed : string → value_problem → check_error) (evaluate : string → V → V * list value_problem)
    (names : list string) : result (gmap string V * list check_error) check_error :=
  try_fold (λ '(evaluated, failures) name,
      let? x := ok_or (im_get m name) (missing name) in
      let '(x, problems) := evaluate name x in
      Ok (match problems with [] => <[name := x]> evaluated | _ => evaluated end,
          failures ++ (failed name <$> problems)))
    (in_order m names) (∅, []).

Definition evaluate_each (w : W) (lp : LoadedProject) (containers tasks : list string)
    (overrides : gmap string string) (host_env : string → option string)
    : result WholeProjectEvaluation check_error :=
  let? vars := config_variable_values (lp_config lp) overrides (lp_project_directory lp) in
  let? (evaluated_containers, f1) :=
    evaluate_names (cfg_containers (lp_config lp)) NoSuchContainer ContainerValue
      (λ name c, evaluate_container host_env vars w name c (lp_provenance lp) (lp_project_directory lp))
      containers in
  let? (evaluated_tasks, f2) :=
    evaluate_names (cfg_tasks (lp_config lp)) NoSuchTask TaskValue
      (λ _ t, evaluate_task host_env vars t) tasks in
  Ok (mk_whole (mk_evaluated evaluated_containers evaluated_tasks) (f1 ++ f2)).

Definition evaluate (w : W) (lp : LoadedProject) (containers tasks : list string)
    (overrides : gmap string string) (host_env : string → option string)
    : result Evaluated check_error :=
  let? whole := evaluate_each w lp containers tasks overrides host_env in
  match wp_failures whole with
  | first :: _ => Err first
  | [] => Ok (wp_evaluated whole)
  end.

Definition evaluate_whole_project (w : W) (lp : LoadedProject) (overrides : gmap string string)
    (host_env : string → option string) : result WholeProjectEvaluation check_error :=
  evaluate_each w lp (cfg_containers (lp_config lp)).*1 (cfg_tasks (lp_config lp)).*1 overrides host_env.

(** [Config::declared_containers]: the companions of external health checks
    left out. *)
Definition declared_containers (config : Config) : index_map Container :=
  filter (λ p, negb match strip_prefix EXTERNAL_HEALTH_CHECK_PREFIX p.1 ≫= im_get (cfg_containers config) with
                    | Some checked => set (c_external_health_check checked)
                    | None => false
                    end = true) (cfg_containers config).
End project.
