(* ===== verification/EvaluateSpec.v ===== *)
(** * EvaluateSpec: what evaluating a container gives

    The theorems about [Evaluate] and [Project]: an evaluated value is its
    expression's value, an evaluated host path is that value resolved against
    the file that wrote it and inside what that file may reach, and nothing else
    of a container changes. *)

From S2P Require Import Prelude Text Collections Values Config Regex Dockerignore Paths IncludeTrust WrittenFor Includes.
From S2P Require Import Extends Validate Evaluate Project.
From S2P Require Expressions LexicalClean.
From stdpp Require Import options.

(** ** Values stored in place *)

Lemma store_or_record_Ok {A} (written : A) r v :
  store_or_record written r = (v, []) ↔ r = Ok v.
Proof. destruct r; simpl; naive_solver. Qed.

Lemma store_option_Ok {A} (f : A → A * list value_problem) o o' :
  store_option f o = (o', []) ↔ option_Forall2 (λ x x', f x = (x', [])) o o'.
Proof.
  destruct o as [x|]; simpl.
  - destruct (f x) as [y fs] eqn:E. split.
    + intros [= <- ->]. by constructor.
    + inversion 1. simplify_eq. by rewrite E in *; simplify_eq.
  - split; [intros [= <-]; constructor|by inversion 1].
Qed.

Lemma store_list_Ok {A} (f : A → A * list value_problem) l l' :
  store_list f l = (l', []) ↔ Forall2 (λ x x', f x = (x', [])) l l'.
Proof.
  unfold store_list. revert l'. induction l as [|x l IH]; intros l'; csimpl.
  - split; [intros [= <-]; constructor|by inversion 1].
  - destruct (f x) as [y fs] eqn:E. simpl. split.
    + intros [= <- [-> Hf]%app_eq_nil]. constructor; [by rewrite E|]. apply IH. by rewrite Hf.
    + inversion 1 as [|? y' ? l'' Hy Hl]; subst. rewrite E in Hy. injection Hy as -> ->.
      apply IH in Hl. by injection Hl as <- ->.
Qed.

(** Two maps with the same keys and related values. *)
Definition map_values {A} (R : string → A → A → Prop) (m m' : gmap string A) : Prop :=
  ∀ k, option_Forall2 (R k) (m !! k) (m' !! k).

Lemma bind_nil {A B} (f : A → list B) l : l ≫= f = [] ↔ ∀ x, x ∈ l → f x = [].
Proof.
  induction l as [|x l IH]; csimpl; [split; [intros _ ? []%not_elem_of_nil|done]|].
  rewrite app_nil, IH. set_solver.
Qed.

Lemma store_map_Ok {A} (f : string → A → A * list value_problem) m m' :
  store_map f m = (m', []) ↔ map_values (λ k x x', f k x = (x', [])) m m'.
Proof.
  unfold store_map, map_values. split.
  - intros [= <- Hf] k. rewrite map_lookup_imap. destruct (m !! k) as [x|] eqn:E; simpl; [|constructor].
    constructor. assert ((f k x).2 = []) as Hx.
    { apply (proj1 (bind_nil _ _) Hf (k, x)). by apply elem_of_map_to_list. }
    by rewrite <-Hx, <-surjective_pairing.
  - intros H. f_equal.
    + apply map_eq. intros k. rewrite map_lookup_imap. specialize (H k).
      destruct (m !! k) as [x|]; simpl; inversion H as [? ? Hx|]; [by rewrite Hx|done].
    + apply bind_nil. intros [k x] Hin%elem_of_map_to_list. specialize (H k). rewrite Hin in H.
      inversion H as [? ? Hx|]. simpl. by rewrite Hx.
Qed.

Lemma map_err_Ok {A E F} (f : E → F) (r : result A E) a : map_err f r = Ok a ↔ r = Ok a.
Proof. destruct r; simpl; naive_solver. Qed.

Lemma Forall2_equiv {A B} (P Q : A → B → Prop) l l' :
  (∀ x y, P x y ↔ Q x y) → Forall2 P l l' ↔ Forall2 Q l l'.
Proof. intros H. split; intros Hl; eapply Forall2_impl; try done; naive_solver. Qed.

Lemma option_Forall2_equiv {A B} (P Q : A → B → Prop) o o' :
  (∀ x y, P x y ↔ Q x y) → option_Forall2 P o o' ↔ option_Forall2 Q o o'.
Proof. intros H. split; (destruct 1; constructor; naive_solver). Qed.

Lemma map_values_equiv {A} (P Q : string → A → A → Prop) m m' :
  (∀ k x y, P k x y ↔ Q k x y) → map_values P m m' ↔ map_values Q m m'.
Proof.
  intros H. assert (∀ k, option_Forall2 (P k) (m !! k) (m' !! k) ↔ option_Forall2 (Q k) (m !! k) (m' !! k)) as E.
  { intros k. apply option_Forall2_equiv, H. }
  unfold map_values. split; intros Hm k; apply E, Hm.
Qed.

Section spec.
Context {W : Type} {PC : PathClean} {FT : FileTree W}.
Context (w : W) (host_env : string → option string) (vars : gmap string (option string)).
Context (p : Provenance) (project_directory : string).

(** ** What a value becomes *)

Definition value_of (written value : string) : Prop :=
  Expressions.interpolate written host_env vars = Ok value.

(** A path as far as it exists is below another, links resolved. *)
Definition really_within (path root : string) : Prop :=
  ∃ real real_root, real_path_as_far_as_it_exists w path = Some real ∧
    real_path_as_far_as_it_exists w root = Some real_root ∧ path_starts_with real real_root = true.

(** A host path a container of bundle [b] may name: any, when the bundle is
    granted them; else one in its checkout or the project directory, as spelled
    and as it really is. *)
Definition allowed (b : Boundary) (path : string) : Prop :=
  t_host_paths (bu_trust (bo_bundle b)) = true ∨
  (path_starts_with path (bo_repo_dir b) = true ∨ path_starts_with path project_directory = true) ∧
  (really_within path (bo_repo_dir b) ∨ really_within path project_directory).

Lemma real_path_Ok b path real : real_path w b path = Ok real ↔ real_path_as_far_as_it_exists w path = Some real.
Proof. unfold real_path. destruct (real_path_as_far_as_it_exists w path); simpl; split; congruence. Qed.

Lemma check_path_allowed_Ok b path field u :
  check_path_allowed w b path project_directory field = Ok u → allowed b (clean path).
Proof.
  unfold check_path_allowed, allowed. destruct (t_host_paths _); [by left|]. intros H. right.
  destruct (path_starts_with (clean path) (bo_repo_dir b) || _) eqn:Hlex; simpl in H; [|done].
  apply orb_prop in Hlex. split; [done|]. apply result_bind_Ok in H as (real & Hreal & H).
  apply result_bind_Ok in H as (repo & Hrepo & H). apply real_path_Ok in Hreal, Hrepo.
  destruct (path_starts_with real repo) eqn:Hin; [left; by exists real, repo|].
  apply result_bind_Ok in H as (project & Hproject & H). apply real_path_Ok in Hproject.
  apply ensure_Ok in H. right. by exists real, project.
Qed.

(** A written host path and what it becomes: its value, or itself where the
    field is literal, resolved against the supplier's file and, in a bundle,
    among the paths allowed. *)
Definition host_path_of (literal : bool) (supplier written path : string) : Prop :=
  ∃ text, (if literal then text = written else value_of written text) ∧
    resolve_host_path w text (anchor p supplier project_directory) = Ok path ∧
    ∀ b, pv_boundaries p !! supplier = Some b →
      ∃ field, check_path_allowed w b path project_directory field = Ok tt.

Definition volume_of (supplier : string) (volume volume' : VolumeMount) : Prop :=
  match volume with
  | LocalMount m => ∃ path, volume' = LocalMount (mk_local_mount path (lv_container m) (lv_options m) (lv_compact m)) ∧
      host_path_of (negb (local_is_expression m (bool_decide (supplier ∈ pv_batect_shaped p))))
        supplier (lv_local m) path
  | _ => volume' = volume
  end.

Definition secret_of (supplier : string) (secret secret' : BuildSecret) : Prop :=
  match secret with
  | PathSecret written => ∃ path, secret' = PathSecret path ∧ host_path_of false supplier written path
  | EnvironmentSecret _ => secret' = secret
  end.

Definition agent_of (supplier : string) (agent agent' : SshAgent) : Prop :=
  sa_id agent' = sa_id agent ∧ Forall2 (host_path_of false supplier) (sa_paths agent) (sa_paths agent').

Definition identity_of (i i' : Identity) : Prop :=
  id_additional_users i' = id_additional_users i ∧ value_of (id_home i) (id_home i') ∧
  check_identity_home (id_home i') = Ok tt.

(** A container without the fields evaluation touches. *)
Definition without_values (c : Container) : Container :=
  mk_container (c_extends c) None (c_image_pull_policy c) None None None
     (c_dockerfile c) (c_build_target c) None None None (c_dependencies c) None
     (c_run_as_current_user c) (c_additional_hostnames c) (c_additional_hosts c) (c_ports c)
     (c_health_check c) (c_setup_commands c) (c_run_to_completion c) (c_external_health_check c)
     (c_reports_readiness_for c) (c_working_directory c) (c_command c) (c_entrypoint c) (c_labels c)
     (c_capabilities_to_add c) (c_capabilities_to_drop c) (c_privileged c) (c_shm_size c) (c_devices c)
     (c_enable_init_process c) (c_log_driver c) (c_log_options c) (c_stop_signal c)
     (c_stop_grace_period c) (c_ulimits c) (c_dns c) (c_dns_search c) (c_dns_options c)
     (c_network_mode c) (c_user c) (c_group c) (c_groups c) None.

(** [c'] is [c] with every value evaluated. *)
Definition evaluates_to (name : string) (c c' : Container) : Prop :=
  let s := suppliers_of p name in
  without_values c' = without_values c ∧
  (if bool_decide (s_image s ∈ pv_batect_shaped p) then c_image c' = c_image c
   else option_Forall2 value_of (c_image c) (c_image c')) ∧
  option_Forall2 (map_values (λ _, value_of)) (c_environment c) (c_environment c') ∧
  option_Forall2 (Forall2 (volume_of (s_volumes s))) (c_volumes c) (c_volumes c') ∧
  option_Forall2 (host_path_of false (s_build_directory s)) (c_build_directory c) (c_build_directory c') ∧
  c_build_directory_in_bundle c' =
    match c_build_directory c', pv_boundaries p !! s_build_directory s with
    | Some path, Some b => describe_in_checkout b path
    | _, _ => c_build_directory_in_bundle c
    end ∧
  option_Forall2 (map_values (λ _, value_of)) (c_build_args c) (c_build_args c') ∧
  option_Forall2 (map_values (λ _, secret_of (s_build_secrets s))) (c_build_secrets c) (c_build_secrets c') ∧
  option_Forall2 (Forall2 (agent_of (s_build_ssh s))) (c_build_ssh c) (c_build_ssh c') ∧
  option_Forall2 identity_of (c_identity c) (c_identity c').

(** ** Each kind of value *)

Lemma evaluate_in_Ok field written value :
  evaluate_in host_env vars field written = (value, []) ↔ value_of written value.
Proof. unfold evaluate_in, evaluate_value, value_of. by rewrite store_or_record_Ok, map_err_Ok. Qed.

(** The fields a path may be of are not told apart by whether it is allowed. *)
Lemma check_path_allowed_field b path field field' u :
  check_path_allowed w b path project_directory field = Ok u →
  check_path_allowed w b path project_directory field' = Ok tt.
Proof.
  unfold check_path_allowed. destruct (t_host_paths _); [done|]. destruct (negb _); [done|].
  intros H. apply result_bind_Ok in H as (real & -> & H). apply result_bind_Ok in H as (repo & -> & H).
  simpl. destruct (path_starts_with real repo); [done|]. apply result_bind_Ok in H as (project & -> & H).
  apply ensure_Ok in H. simpl. by rewrite H.
Qed.

Lemma anchor_path_Ok text supplier field path :
  anchor_path w text (anchor p supplier project_directory) field = Ok path ↔
  resolve_host_path w text (anchor p supplier project_directory) = Ok path ∧
  ∀ b, pv_boundaries p !! supplier = Some b →
    ∃ field, check_path_allowed w b path project_directory field = Ok tt.
Proof.
  unfold anchor_path. rewrite result_bind_Ok. unfold anchor at 2. cbn [an_boundary].
  split.
  - intros (path' & Hr & H). destruct (pv_boundaries p !! supplier) as [b|]; simpl in H.
    + apply result_bind_Ok in H as ([] & Hc & [= ->]). apply map_err_Ok in Hc.
      split; [done|]. intros b' [= <-]. by exists field.
    + injection H as ->. by split.
  - intros [Hr Hb]. exists path. split; [done|]. destruct (pv_boundaries p !! supplier) as [b|]; simpl; [|done].
    destruct (Hb b eq_refl) as [field' Hc]. by rewrite (check_path_allowed_field _ _ _ field _ Hc).
Qed.

Lemma resolve_Ok field contained written supplier path :
  resolve host_env vars w field contained written (anchor p supplier project_directory) = Ok path ↔
  host_path_of false supplier written path.
Proof.
  unfold resolve, host_path_of, value_of, evaluate_value. rewrite result_bind_Ok.
  setoid_rewrite map_err_Ok. setoid_rewrite anchor_path_Ok. done.
Qed.

Lemma evaluate_volume_Ok supplier volume volume' :
  evaluate_volume host_env vars w (anchor p supplier project_directory) volume = (volume', []) ↔
  volume_of supplier volume volume'.
Proof.
  destruct volume as [m|m|m]; simpl; [|naive_solver..]. unfold local_is_expression.
  change (an_batect_shaped (anchor p supplier project_directory)) with (bool_decide (supplier ∈ pv_batect_shaped p)).
  set (literal := lv_compact m && bool_decide (supplier ∈ pv_batect_shaped p)).
  assert (∀ path, (if negb literal
      then resolve host_env vars w "'volumes'" VolumesField (lv_local m) (anchor p supplier project_directory)
      else map_err (InvalidVolume (lv_local m))
        (anchor_path w (lv_local m) (anchor p supplier project_directory) VolumesField)) = Ok path ↔
    host_path_of (negb (negb literal)) supplier (lv_local m) path) as Hpath.
  { intros path. destruct literal; simpl.
    - rewrite map_err_Ok, anchor_path_Ok. unfold host_path_of. naive_solver.
    - by rewrite resolve_Ok. }
  destruct (store_or_record _ _) as [value fs] eqn:E. split.
  - intros [= <- ->]. apply store_or_record_Ok, Hpath in E. by exists value.
  - intros (path & -> & Hp). apply Hpath, (store_or_record_Ok (lv_local m)) in Hp.
    rewrite E in Hp. by injection Hp as -> ->.
Qed.

Lemma evaluate_secret_Ok supplier key secret secret' :
  evaluate_secret host_env vars w (anchor p supplier project_directory) key secret = (secret', []) ↔
  secret_of supplier secret secret'.
Proof.
  destruct secret as [name|written]; simpl; [naive_solver|].
  destruct (store_or_record _ _) as [value fs] eqn:E. split.
  - intros [= <- ->]. apply store_or_record_Ok, resolve_Ok in E. by exists value.
  - intros (path & -> & Hp).
    apply (resolve_Ok (quoted_field "build_secrets." key) BuildSecretsField), (store_or_record_Ok written) in Hp.
    rewrite E in Hp. by injection Hp as -> ->.
Qed.

Lemma evaluate_agent_Ok supplier agent agent' :
  evaluate_agent host_env vars w (anchor p supplier project_directory) agent = (agent', []) ↔
  agent_of supplier agent agent'.
Proof.
  unfold evaluate_agent, agent_of. set (f := λ path, store_or_record path _).
  assert (∀ l l', store_list f l = (l', []) ↔ Forall2 (host_path_of false supplier) l l') as Hf.
  { intros l l'. rewrite store_list_Ok. apply Forall2_equiv. intros x x'. unfold f.
    by rewrite store_or_record_Ok, resolve_Ok. }
  destruct (store_list f (sa_paths agent)) as [paths fs] eqn:E. split.
  - intros [= <- ->]. split; [done|]. by apply Hf.
  - destruct agent' as [id paths']. simpl. intros [-> Hl]. apply Hf in Hl.
    rewrite E in Hl. by injection Hl as -> ->.
Qed.

Lemma evaluate_home_Ok i i' :
  (let '(home, f) := store_or_record (id_home i) (evaluate_home host_env vars (id_home i)) in
   (mk_identity home (id_additional_users i), f)) = (i', []) ↔ identity_of i i'.
Proof.
  unfold identity_of, value_of. destruct (store_or_record _ _) as [home fs] eqn:E. split.
  - intros [= <- ->]. apply store_or_record_Ok in E. simpl. split; [done|]. unfold evaluate_home in E.
    apply result_bind_Ok in E as (v & Hv & E). apply result_bind_Ok in E as ([] & Hc & [= ->]).
    apply map_err_Ok in Hv, Hc. done.
  - destruct i' as [home' users]. simpl. intros (-> & Hv & Hc).
    assert (evaluate_home host_env vars (id_home i) = Ok home') as Hh.
    { unfold evaluate_home, evaluate_value. rewrite Hv. simpl. by rewrite Hc. }
    apply (store_or_record_Ok (id_home i)) in Hh.
    rewrite E in Hh. by injection Hh as -> ->.
Qed.

Lemma store_option_equiv {A} (f : A → A * list value_problem) (R : A → A → Prop) o o' :
  (∀ x x', f x = (x', []) ↔ R x x') → store_option f o = (o', []) ↔ option_Forall2 R o o'.
Proof. intros H. rewrite store_option_Ok. by apply option_Forall2_equiv. Qed.

Lemma store_strings_equiv (field : string → string) m m' :
  store_map (λ key, evaluate_in host_env vars (field key)) m = (m', []) ↔ map_values (λ _, value_of) m m'.
Proof. rewrite store_map_Ok. apply map_values_equiv. intros k x y. apply evaluate_in_Ok. Qed.

(** The build directory and its name within the bundle. *)
Lemma build_directory_equiv supplier c o' in_bundle f :
  let a := anchor p supplier project_directory in
  let r := (λ path, resolve host_env vars w "'build_directory'" BuildDirectoryField path a) <$> c_build_directory c in
  store_option (λ path, store_or_record path (default (Ok path) r)) (c_build_directory c) = (o', f) →
  in_bundle = match r, an_boundary a with
              | Some (Ok resolved), Some (boundary, _) => describe_in_checkout boundary resolved
              | _, _ => c_build_directory_in_bundle c
              end →
  (∀ o, (o', f) = (o, []) ↔ option_Forall2 (host_path_of false supplier) (c_build_directory c) o) ∧
  (f = [] → in_bundle = match o', pv_boundaries p !! supplier with
                        | Some path, Some b => describe_in_checkout b path
                        | _, _ => c_build_directory_in_bundle c
                        end).
Proof.
  intros a r. unfold r, a, anchor at 2. clear r a. cbn [an_boundary].
  destruct (c_build_directory c) as [written|]; simpl.
  - destruct (resolve _ _ _ _ _ _ _) as [path|e] eqn:E; simpl; intros [= <- <-] ->.
    + split; [|by destruct (pv_boundaries p !! supplier)]. intros o. split.
      * intros [= <-]. constructor. by apply resolve_Ok in E.
      * inversion 1 as [? ? Hp|]; subst.
        apply (resolve_Ok "'build_directory'" BuildDirectoryField) in Hp. congruence.
    + split; [|done]. intros o. split; [done|]. inversion 1 as [? ? Hp|]; subst.
      apply (resolve_Ok "'build_directory'" BuildDirectoryField) in Hp. congruence.
  - intros [= <- <-] ->. split; [|done]. intros o. split; [intros [= <-]; constructor|by inversion 1].
Qed.

Lemma container_eq c c' :
  without_values c' = without_values c → c_image c' = c_image c → c_environment c' = c_environment c →
  c_volumes c' = c_volumes c → c_build_directory c' = c_build_directory c →
  c_build_directory_in_bundle c' = c_build_directory_in_bundle c → c_build_args c' = c_build_args c →
  c_build_secrets c' = c_build_secrets c → c_build_ssh c' = c_build_ssh c →
  c_identity c' = c_identity c → c' = c.
Proof. destruct c, c'. unfold without_values. simpl. intros H **. injection H. intros. subst. reflexivity. Qed.

(** Evaluating a container without a failure is the relation. *)
Lemma evaluate_container_Ok name c c' :
  evaluate_container host_env vars w name c p project_directory = (c', []) ↔ evaluates_to name c c'.
Proof.
  unfold evaluate_container. cbv zeta. set (s := suppliers_of p name).
  destruct (if image_is_expression _ then _ else _) as [image f1] eqn:E1.
  destruct (store_option _ (c_environment c)) as [environment f2] eqn:E2.
  destruct (store_option _ (c_volumes c)) as [volumes f3] eqn:E3.
  destruct (store_option _ (c_build_directory c)) as [build_directory f4] eqn:E4.
  destruct (store_option _ (c_build_args c)) as [build_args f5] eqn:E5.
  destruct (store_option _ (c_build_secrets c)) as [build_secrets f6] eqn:E6.
  destruct (store_option _ (c_build_ssh c)) as [build_ssh f7] eqn:E7.
  destruct (store_option _ (c_identity c)) as [identity f8] eqn:E8.
  destruct (build_directory_equiv _ _ _ _ _ E4 eq_refl) as [H4 H4'].
  set (in_bundle := match _ with Some (Ok _) => _ | _ => _ end) in *. clearbody in_bundle. clear E4.
  assert (∀ o, (image, f1) = (o, []) ↔
    if bool_decide (s_image s ∈ pv_batect_shaped p) then o = c_image c
    else option_Forall2 value_of (c_image c) o) as H1.
  { intros o. rewrite <-E1. unfold image_is_expression.
    change (an_batect_shaped (anchor p (s_image s) project_directory))
      with (bool_decide (s_image s ∈ pv_batect_shaped p)).
    destruct (bool_decide _); simpl; [naive_solver|]. apply store_option_equiv, evaluate_in_Ok. }
  assert (∀ o, (environment, f2) = (o, []) ↔ option_Forall2 (map_values (λ _, value_of)) (c_environment c) o) as H2.
  { intros o. rewrite <-E2. apply store_option_equiv, store_strings_equiv. }
  assert (∀ o, (volumes, f3) = (o, []) ↔ option_Forall2 (Forall2 (volume_of (s_volumes s))) (c_volumes c) o) as H3.
  { intros o. rewrite <-E3. apply store_option_equiv. intros l l'. rewrite store_list_Ok.
    apply Forall2_equiv, evaluate_volume_Ok. }
  assert (∀ o, (build_args, f5) = (o, []) ↔ option_Forall2 (map_values (λ _, value_of)) (c_build_args c) o) as H5.
  { intros o. rewrite <-E5. apply store_option_equiv, store_strings_equiv. }
  assert (∀ o, (build_secrets, f6) = (o, []) ↔
    option_Forall2 (map_values (λ _, secret_of (s_build_secrets s))) (c_build_secrets c) o) as H6.
  { intros o. rewrite <-E6. apply store_option_equiv. intros m m'. rewrite store_map_Ok.
    apply map_values_equiv. intros k x y. apply evaluate_secret_Ok. }
  assert (∀ o, (build_ssh, f7) = (o, []) ↔ option_Forall2 (Forall2 (agent_of (s_build_ssh s))) (c_build_ssh c) o) as H7.
  { intros o. rewrite <-E7. apply store_option_equiv. intros l l'. rewrite store_list_Ok.
    apply Forall2_equiv, evaluate_agent_Ok. }
  assert (∀ o, (identity, f8) = (o, []) ↔ option_Forall2 identity_of (c_identity c) o) as H8.
  { intros o. rewrite <-E8. apply store_option_equiv, evaluate_home_Ok. }
  clear E1 E2 E3 E5 E6 E7 E8. unfold evaluates_to. fold s. split.
  - intros [= <- Hf]. rewrite !app_nil in Hf. destruct Hf as (-> & -> & -> & -> & -> & -> & -> & ->). simpl.
    split; [done|]. split; [by apply H1|]. split; [by apply H2|]. split; [by apply H3|].
    split; [by apply H4|]. split; [by apply H4'|]. split; [by apply H5|]. split; [by apply H6|].
    split; [by apply H7|by apply H8].
  - intros (Hw & R1 & R2 & R3 & R4 & Rb & R5 & R6 & R7 & R8).
    apply H1 in R1. apply H2 in R2. apply H3 in R3. apply H4 in R4. apply H5 in R5. apply H6 in R6. apply H7 in R7. apply H8 in R8.
    injection R1 as -> ->. injection R2 as -> ->. injection R3 as -> ->. injection R4 as -> ->.
    injection R5 as -> ->. injection R6 as -> ->. injection R7 as -> ->. injection R8 as -> ->.
    rewrite (H4' eq_refl), <-Rb. f_equal. by apply container_eq.
Qed.

(** ** Tasks *)

Definition run_of (r r' : TaskRun) : Prop :=
  r_container r' = r_container r ∧ r_command r' = r_command r ∧ r_ports r' = r_ports r ∧
  r_working_directory r' = r_working_directory r ∧ r_entrypoint r' = r_entrypoint r ∧
  option_Forall2 (map_values (λ _, value_of)) (r_environment r) (r_environment r').

Definition customisation_of (q q' : string * TaskContainerCustomisation) : Prop :=
  q'.1 = q.1 ∧ cu_ports q'.2 = cu_ports q.2 ∧ cu_working_directory q'.2 = cu_working_directory q.2 ∧
  option_Forall2 (map_values (λ _, value_of)) (cu_environment q.2) (cu_environment q'.2).

Definition task_evaluates_to (t t' : Task) : Prop :=
  t_prerequisites t' = t_prerequisites t ∧ t_dependencies t' = t_dependencies t ∧
  t_description t' = t_description t ∧ t_group t' = t_group t ∧
  option_Forall2 run_of (t_run t) (t_run t') ∧
  option_Forall2 (Forall2 customisation_of) (t_customise t) (t_customise t').

Lemma environment_Ok (field : string → string) e (e' : option (gmap string string)) f :
  store_option (store_map (λ key, evaluate_in host_env vars (field key))) e = (e', f) →
  ∀ o, (e', f) = (o, []) ↔ option_Forall2 (map_values (λ _, value_of)) e o.
Proof. intros <- o. apply store_option_equiv, store_strings_equiv. Qed.

Lemma evaluate_run_Ok r r' : evaluate_run host_env vars r = (r', []) ↔ run_of r r'.
Proof.
  unfold evaluate_run, run_of. destruct (store_option _ _) as [e f] eqn:E.
  pose proof (environment_Ok _ _ _ _ E) as He. split.
  - intros [= <- ->]. simpl. do 5 (split; [done|]). by apply He.
  - destruct r' as [? ? e' ? ? ?]. simpl. intros (-> & -> & -> & -> & -> & Hr).
    apply He in Hr. by injection Hr as -> ->.
Qed.

Lemma evaluate_customisation_Ok q q' :
  evaluate_customisation host_env vars q = (q', []) ↔ customisation_of q q'.
Proof.
  unfold evaluate_customisation, customisation_of. destruct (store_option _ _) as [e f] eqn:E.
  pose proof (environment_Ok _ _ _ _ E) as He. split.
  - intros [= <- ->]. simpl. do 3 (split; [done|]). by apply He.
  - destruct q' as [n [e' ? ?]]. simpl. intros (-> & -> & -> & Hq).
    apply He in Hq. by injection Hq as -> ->.
Qed.

Lemma evaluate_task_Ok t t' : evaluate_task host_env vars t = (t', []) ↔ task_evaluates_to t t'.
Proof.
  unfold evaluate_task, task_evaluates_to.
  destruct (store_option _ (t_run t)) as [run f1] eqn:E1.
  destruct (store_option _ (t_customise t)) as [customise f2] eqn:E2.
  assert (∀ o, (run, f1) = (o, []) ↔ option_Forall2 run_of (t_run t) o) as H1.
  { intros o. rewrite <-E1. apply store_option_equiv, evaluate_run_Ok. }
  assert (∀ o, (customise, f2) = (o, []) ↔ option_Forall2 (Forall2 customisation_of) (t_customise t) o) as H2.
  { intros o. rewrite <-E2. apply store_option_equiv. intros l l'. rewrite store_list_Ok.
    apply Forall2_equiv, evaluate_customisation_Ok. }
  clear E1 E2. split.
  - intros [= <- [-> ->]%app_nil]. simpl. do 4 (split; [done|]). split; [by apply H1|by apply H2].
  - destruct t' as [run' ? ? ? ? customise']. simpl. intros (-> & -> & -> & -> & R1 & R2).
    apply H1 in R1. apply H2 in R2. injection R1 as -> ->. by injection R2 as -> ->.
Qed.
End spec.

(** ** A project's containers and tasks *)

Section names.
Context {V : Type} (m : index_map V) (missing : string → check_error)
  (failed : string → value_problem → check_error) (evaluate : string → V → V * list value_problem).

Lemma elem_of_in_order names name : name ∈ in_order m names ↔ name ∈ names.
Proof. unfold in_order. rewrite elem_of_dedup. by rewrite merge_sort_Permutation. Qed.

Definition names_inv (done : list string) (st : gmap string V * list check_error) : Prop :=
  (∀ name x', st.1 !! name = Some x' ↔
     name ∈ done ∧ ∃ x, im_get m name = Some x ∧ evaluate name x = (x', [])) ∧
  (∀ name, name ∈ done → is_Some (im_get m name)) ∧
  (∀ e, e ∈ st.2 ↔ ∃ name x problem, name ∈ done ∧ im_get m name = Some x ∧
     problem ∈ (evaluate name x).2 ∧ e = failed name problem).

Lemma evaluate_names_loop names done st :
  names_inv done st →
  match try_fold (λ '(evaluated, failures) name,
      let? x := ok_or (im_get m name) (missing name) in
      let '(x, problems) := evaluate name x in
      Ok (match problems with [] => <[name := x]> evaluated | _ => evaluated end,
          failures ++ (failed name <$> problems))) names st with
  | Ok st' => names_inv (done ++ names) st'
  | Err e => ∃ name, name ∈ names ∧ im_get m name = None ∧ e = missing name
  end.
Proof.
  revert done st. induction names as [|name names IH]; intros dn [evaluated failures] (Hev & Hin & Hf).
  { simpl. rewrite app_nil_r. done. }
  simpl. destruct (im_get m name) as [x|] eqn:Hx; simpl; [|exists name; set_solver].
  destruct (evaluate name x) as [x' problems] eqn:Ex. simpl.
  assert (names_inv (dn ++ [name]) (match problems with [] => <[name := x']> evaluated | _ => evaluated end,
    failures ++ (failed name <$> problems))) as Hinv.
  { split; [|split]; simpl in *.
    - intros n y. setoid_rewrite elem_of_app. setoid_rewrite list_elem_of_singleton.
      destruct problems as [|pb problems].
      + destruct (decide (name = n)) as [<-|Hne].
        * rewrite lookup_insert_eq. split; [intros [= <-]; eauto|].
          intros (_ & z & Hz & Ez). congruence.
        * rewrite lookup_insert_ne, Hev by done. split; [intros [Hd Hz]; split; [by left|done]|].
          by intros [[Hd|Hd] Hz].
      + rewrite Hev. split; [intros [Hd Hz]; split; [by left|done]|]. intros ([?| ->] & z & Hz & Ez); [eauto|]. congruence.
    - intros n [?| ->%list_elem_of_singleton]%elem_of_app; [by apply Hin|by rewrite Hx].
    - intros e. rewrite elem_of_app, Hf, list_elem_of_fmap. setoid_rewrite elem_of_app.
      setoid_rewrite list_elem_of_singleton. split.
      + intros [(n & y & pb & Hn & Hy & Hpb & ->)|(pb & -> & Hpb)].
        * exists n, y, pb. auto.
        * exists name, x, pb. rewrite Ex. auto.
      + intros (n & y & pb & [Hn| ->] & Hy & Hpb & ->); [left; exists n, y, pb; auto|]. right.
        assert (y = x) as -> by congruence. rewrite Ex in Hpb. eauto. }
  apply IH in Hinv. destruct (try_fold _ names _) as [st'|e].
  - by rewrite <-(assoc_L (++)) in Hinv.
  - destruct Hinv as (n & ? & ?). exists n. set_solver.
Qed.

Lemma names_inv_nil : names_inv [] (∅, []).
Proof.
  split; [|split]; simpl.
  - intros n x. rewrite lookup_empty. split; [done|]. intros [[]%not_elem_of_nil _].
  - intros n []%not_elem_of_nil.
  - intros e. split; [intros []%not_elem_of_nil|]. intros (n & x & pb & []%not_elem_of_nil & _).
Qed.

Lemma evaluate_names_spec names :
  match evaluate_names m missing failed evaluate names with
  | Ok st => names_inv names st
  | Err e => ∃ name, name ∈ names ∧ im_get m name = None ∧ e = missing name
  end.
Proof.
  unfold evaluate_names. pose proof (evaluate_names_loop (in_order m names) [] (∅, []) names_inv_nil) as H.
  destruct (try_fold _ _ _) as [st|e].
  - destruct H as (H1 & H2 & H3).
    simpl in *. split; [|split].
    + intros n x'. by rewrite H1, elem_of_in_order.
    + intros n Hn. by apply H2, elem_of_in_order.
    + intros e. rewrite H3. by setoid_rewrite elem_of_in_order.
  - destruct H as (n & Hn & ?).
    exists n. by rewrite elem_of_in_order in Hn.
Qed.
End names.

(** ** Config variables *)

Lemma each_result {A E} (f : A → result () E) l :
  match each f l with
  | Ok _ => ∀ x, x ∈ l → f x = Ok tt
  | Err e => ∃ x, x ∈ l ∧ f x = Err e
  end.
Proof.
  induction l as [|x l IH]; simpl; [intros x []%not_elem_of_nil|].
  destruct (f x) as [[]|e] eqn:Hx; simpl.
  - destruct (each f l) as [u|e]; [|destruct IH as (y & Hy & ?); exists y; split; [by right|done]].
    intros y [->|Hy]%elem_of_cons; auto.
  - exists x. split; [by left|done].
Qed.

(** The value of a declared variable. *)
Definition variable_value (overrides : gmap string string) (name : string) (var : ConfigVariable) : option string :=
  match overrides !! name with Some v => Some v | None => cfv_default var end.

Lemma declared_loop (overrides : gmap string string) declared (acc : gmap string (option string)) name :
  NoDup declared.*1 →
  foldl (λ m '(name, var), <[name := variable_value overrides name var]> m) acc declared !! name =
    match im_get declared name with
    | Some var => Some (variable_value overrides name var)
    | None => acc !! name
    end.
Proof.
  revert acc. induction declared as [|[n var] declared IH]; intros acc Hnd; csimpl in *; [done|].
  apply NoDup_cons in Hnd as [Hn Hnd]. rewrite IH by done. destruct (decide (n = name)) as [->|Hne].
  - rewrite (proj2 (im_get_None declared name)) by done. by rewrite lookup_insert_eq.
  - by rewrite lookup_insert_ne.
Qed.

Lemma config_variable_values_spec config overrides project_directory :
  let declared := default [] (cfg_config_variables config) in
  NoDup declared.*1 →
  match config_variable_values config overrides project_directory with
  | Ok vars =>
      (∀ key, is_Some (overrides !! key) → is_Some (im_get declared key)) ∧
      vars !! PROJECT_DIRECTORY_VAR = Some (Some project_directory) ∧
      ∀ name, name ≠ PROJECT_DIRECTORY_VAR → vars !! name = variable_value overrides name <$> im_get declared name
  | Err e => ∃ key, is_Some (overrides !! key) ∧ im_get declared key = None ∧ e = UndeclaredOverride key
  end.
Proof.
  intros declared Hnd. unfold config_variable_values. fold declared.
  assert (∀ key, key ∈ sort_strings (elements (dom overrides)) ↔ is_Some (overrides !! key)) as Hkeys.
  { intros key. by rewrite elem_of_sort_strings, elem_of_elements, elem_of_dom. }
  match goal with |- context [each ?f ?l] => pose proof (each_result f l) as H; destruct (each f l) as [[]|e] end;
    cbn [result_bind].
  - split; [|split].
    + intros key Hkey%Hkeys. apply H, ensure_Ok in Hkey. by destruct (im_get declared key).
    + by rewrite lookup_insert_eq.
    + intros name Hname. rewrite lookup_insert_ne by done.
      rewrite (declared_loop overrides declared ∅ name Hnd). by destruct (im_get declared name).
  - destruct H as (key & Hkey%Hkeys & He). exists key. split; [done|].
    destruct (im_get declared key); by simplify_eq/=.
Qed.

(** ** The project *)

Section project.
Context {W : Type} {PC : PathClean} {FT : FileTree W}.
Context (w : W) (lp : LoadedProject) (overrides : gmap string string) (host_env : string → option string).

(** Why an evaluation is refused. *)
Definition refused (containers tasks : list string) (e : check_error) : Prop :=
  (∃ key, is_Some (overrides !! key) ∧
     im_get (default [] (cfg_config_variables (lp_config lp))) key = None ∧ e = UndeclaredOverride key) ∨
  (∃ name, name ∈ containers ∧ im_get (cfg_containers (lp_config lp)) name = None ∧ e = NoSuchContainer name) ∨
  (∃ name, name ∈ tasks ∧ im_get (cfg_tasks (lp_config lp)) name = None ∧ e = NoSuchTask name) ∨
  ∃ vars, config_variable_values (lp_config lp) overrides (lp_project_directory lp) = Ok vars ∧
    ((∃ name c problem, name ∈ containers ∧ im_get (cfg_containers (lp_config lp)) name = Some c ∧
        e = ContainerValue name problem ∧
        ∀ c', ¬ evaluates_to w host_env vars (lp_provenance lp) (lp_project_directory lp) name c c') ∨
     (∃ name t problem, name ∈ tasks ∧ im_get (cfg_tasks (lp_config lp)) name = Some t ∧
        e = TaskValue name problem ∧ ∀ t', ¬ task_evaluates_to host_env vars t t')).

(** Evaluating containers and tasks of a project gives each named one, and
    only those, with every value replaced by what it evaluates to under the
    environment and the config variables' overrides and defaults: every host
    path resolved against the file of the container that supplied it and, when
    that file is in a bundle, one its boundary allows, every other field as it
    was. A refusal names an override that is not declared, a name that is not
    declared, or a named container or task that has no such value. *)
Theorem evaluate_spec containers tasks :
  NoDup (default [] (cfg_config_variables (lp_config lp))).*1 →
  match evaluate w lp containers tasks overrides host_env with
  | Ok ev => ∃ vars,
      vars !! PROJECT_DIRECTORY_VAR = Some (Some (lp_project_directory lp)) ∧
      (∀ name, name ≠ PROJECT_DIRECTORY_VAR → vars !! name =
         variable_value overrides name <$> im_get (default [] (cfg_config_variables (lp_config lp))) name) ∧
      (∀ name, name ∈ containers → ∃ c c', im_get (cfg_containers (lp_config lp)) name = Some c ∧
         ev_containers ev !! name = Some c' ∧
         evaluates_to w host_env vars (lp_provenance lp) (lp_project_directory lp) name c c') ∧
      (∀ name, name ∈ tasks → ∃ t t', im_get (cfg_tasks (lp_config lp)) name = Some t ∧
         ev_tasks ev !! name = Some t' ∧ task_evaluates_to host_env vars t t') ∧
      (∀ name, name ∉ containers → ev_containers ev !! name = None) ∧
      (∀ name, name ∉ tasks → ev_tasks ev !! name = None)
  | Err e => refused containers tasks e
  end.
Proof.
  intros Hnd. unfold evaluate, evaluate_each.
  pose proof (config_variable_values_spec (lp_config lp) overrides (lp_project_directory lp) Hnd) as Hvars.
  destruct (config_variable_values _ _ _) as [vars|e] eqn:Ev; cbn [result_bind]; [|by left].
  destruct Hvars as (_ & Hpd & Hv).
  match goal with |- context [evaluate_names ?m ?ms ?fl ?ev containers] =>
    pose proof (evaluate_names_spec m ms fl ev containers) as Hc; destruct (evaluate_names m ms fl ev containers) as [[evc f1]|e]
  end; cbn [result_bind]; [|right; left; exact Hc].
  match goal with |- context [evaluate_names ?m ?ms ?fl ?ev tasks] =>
    pose proof (evaluate_names_spec m ms fl ev tasks) as Ht; destruct (evaluate_names m ms fl ev tasks) as [[evt f2]|e]
  end; cbn [result_bind]; [|right; right; left; exact Ht].
  destruct Hc as (Hc1 & Hc2 & Hc3), Ht as (Ht1 & Ht2 & Ht3). cbn [wp_failures wp_evaluated fst snd] in *.
  destruct (f1 ++ f2) as [|e fs] eqn:Ef.
  - apply app_nil in Ef as [-> ->]. exists vars. split; [done|]. split; [done|].
    split; [|split; [|split]]; simpl.
    + intros name Hname. destruct (Hc2 name Hname) as [c Hc].
      destruct (evaluate_container host_env vars w name c (lp_provenance lp) (lp_project_directory lp)) as [c' [|pb f]] eqn:E.
      * exists c, c'. split; [done|]. split; [apply Hc1; by eauto|by apply evaluate_container_Ok].
      * exfalso. apply (not_elem_of_nil (ContainerValue name pb)), Hc3. exists name, c, pb.
        rewrite E. repeat split; try done. by left.
    + intros name Hname. destruct (Ht2 name Hname) as [t Ht].
      destruct (evaluate_task host_env vars t) as [t' [|pb f]] eqn:E.
      * exists t, t'. split; [done|]. split; [apply Ht1; by eauto|by apply evaluate_task_Ok].
      * exfalso. apply (not_elem_of_nil (TaskValue name pb)), Ht3. exists name, t, pb.
        rewrite E. repeat split; try done. by left.
    + intros name Hname. apply eq_None_not_Some. intros [c' Hc]. by apply Hc1 in Hc as [? _].
    + intros name Hname. apply eq_None_not_Some. intros [t' Ht]. by apply Ht1 in Ht as [? _].
  - right. right. right. exists vars. split; [done|].
    assert (e ∈ f1 ++ f2) as [He|He]%elem_of_app by (rewrite Ef; by left).
    + left. apply Hc3 in He as (name & c & pb & Hname & Hc & Hpb & ->). exists name, c, pb.
      do 3 (split; [done|]). intros c' Hc'%evaluate_container_Ok. rewrite Hc' in Hpb. by apply not_elem_of_nil in Hpb.
    + right. apply Ht3 in He as (name & t & pb & Hname & Ht & Hpb & ->). exists name, t, pb.
      do 3 (split; [done|]). intros t' Ht'%evaluate_task_Ok. rewrite Ht' in Hpb. by apply not_elem_of_nil in Hpb.
Qed.
End project.

(** ** Where a bundle's containers may reach *)

(** The host paths of a container, each with the container that supplied it. *)
Definition host_paths (s : Suppliers) (c : Container) : list (string * string) :=
  (default [] (c_volumes c) ≫= λ v, match v with LocalMount m => [(s_volumes s, lv_local m)] | _ => [] end)
  ++ match c_build_directory c with Some path => [(s_build_directory s, path)] | None => [] end
  ++ ((map_to_list (default ∅ (c_build_secrets c))).*2 ≫= λ secret,
        match secret with PathSecret path => [(s_build_secrets s, path)] | EnvironmentSecret _ => [] end)
  ++ (default [] (c_build_ssh c) ≫= λ agent, pair (s_build_ssh s) <$> sa_paths agent).

Lemma Forall2_default {A} (R : A → A → Prop) o o' :
  option_Forall2 (Forall2 R) o o' → Forall2 R (default [] o) (default [] o').
Proof. by intros [l l' Hl|]; [|constructor]. Qed.

Section contained.
Context {W : Type} {PC : PathClean} {clean_laws : PathCleanLaws} {FT : FileTree W} {tree_laws : FileTreeLaws W}.
Context (w : W) (host_env : string → option string) (vars : gmap string (option string)).
Context (p : Provenance) (project_directory : string).

Lemma path_join_rooted d path : starts_with "/" d = true → starts_with "/" (path_join d path) = true.
Proof.
  intros [t ->]%starts_with_true. unfold path_join.
  destruct (starts_with "/" path) eqn:E; [done|].
  destruct (bool_decide _ || _); apply starts_with_true; by eexists.
Qed.

Lemma resolve_host_path_rooted text a path :
  resolve_host_path w text a = Ok path → ∃ raw, starts_with "/" raw = true ∧ path = clean raw.
Proof using tree_laws.
  unfold resolve_host_path. intros Hr. apply result_bind_Ok in Hr as (? & _ & Hr).
  apply result_bind_Ok in Hr as (expanded & He & Hr). apply map_err_Ok in He.
  destruct expanded as [home_relative|].
  - injection Hr as <-. exists home_relative. split; [|done]. unfold expand_home_directory in He.
    destruct (components text) as [[] [|first rest]]; try done.
    case_bool_decide; [|done]. apply result_bind_Ok in He as (home & Hh & [= <-]).
    destruct (home_directory w) as [h|] eqn:E; simplify_eq/=. apply path_join_rooted.
    by eapply home_directory_rooted.
  - destruct (is_relative text) eqn:Hrel.
    + apply result_bind_Ok in Hr as (resolved & Ha & [= <-]). apply map_err_Ok in Ha.
      unfold absolute, absolute_path in Ha. destruct (current_dir w) as [cwd|] eqn:E; simplify_eq/=.
      eexists. split; [|done]. apply path_join_rooted. by eapply current_dir_rooted.
    + injection Hr as <-. exists text. unfold is_relative in Hrel. by apply negb_false_iff in Hrel.
Qed.

(** A host path as it is used: absolute, with nothing left to interpret, and
    one its supplier's bundle may name. *)
Definition contained (supplier path : string) : Prop :=
  canonical path ∧ ".." ∉ (components path).2 ∧
  ∀ b, pv_boundaries p !! supplier = Some b → allowed w project_directory b path.

Lemma host_path_contained literal supplier written path :
  host_path_of w host_env vars p project_directory literal supplier written path → contained supplier path.
Proof using clean_laws tree_laws.
  intros (text & _ & Hr & Hb). apply resolve_host_path_rooted in Hr as (raw & Hraw & ->).
  destruct (clean_canonical raw Hraw) as [Hc Hup]. split; [done|]. split; [done|].
  intros b [field Hf]%Hb. apply check_path_allowed_Ok in Hf. by rewrite clean_clean in Hf.
Qed.


(** Whatever an expression evaluates to, every host path of an evaluated
    container (volumes, build directory, build secrets, SSH agents) is absolute
    and free of [..], and one that a file of a bundle supplied, itself or through
    [extends], is in the bundle's checkout or in the project directory, as it is
    spelled and once symbolic links are resolved as far as it exists, unless the
    bundle was granted host paths. *)
Theorem host_paths_contained name c c' supplier path :
  evaluate_container host_env vars w name c p project_directory = (c', []) →
  (supplier, path) ∈ host_paths (suppliers_of p name) c' →
  contained supplier path.
Proof using clean_laws tree_laws.
  intros (_ & _ & _ & Hv & Hd & _ & _ & Hs & Ha & _)%evaluate_container_Ok Hin.
  unfold host_paths in Hin. rewrite !elem_of_app in Hin. destruct Hin as [Hin|[Hin|[Hin|Hin]]].
  - apply list_elem_of_bind in Hin as (v' & Hin & Hv').
    apply Forall2_default in Hv.
    apply list_elem_of_lookup in Hv' as [k Hk].
    destruct (Forall2_lookup_r _ _ _ _ _ Hv Hk) as (v & _ & Hvv).
    destruct v as [m|m|m]; simpl in Hvv; [|subst v'; by apply not_elem_of_nil in Hin..].
    destruct Hvv as (path' & -> & Hp). apply list_elem_of_singleton in Hin as [= -> ->].
    by eapply host_path_contained.
  - destruct Hd as [written path' Hp|]; [|by apply not_elem_of_nil in Hin].
    apply list_elem_of_singleton in Hin as [= -> ->]. by eapply host_path_contained.
  - apply list_elem_of_bind in Hin as (secret' & Hin & Hs').
    apply list_elem_of_fmap in Hs' as ([k s'] & -> & Hk%elem_of_map_to_list).
    destruct Hs as [m m' Hm|]; simpl in Hk, Hin; [|by rewrite lookup_empty in Hk].
    specialize (Hm k). rewrite Hk in Hm. inversion Hm as [secret ? Hss|]; subst.
    destruct secret as [n|written]; simpl in Hss; [subst s'; by apply not_elem_of_nil in Hin|].
    destruct Hss as (path' & -> & Hp). apply list_elem_of_singleton in Hin as [= -> ->].
    by eapply host_path_contained.
  - apply list_elem_of_bind in Hin as (agent' & Hin & Ha').
    apply list_elem_of_fmap in Hin as (path' & [= -> ->] & Hin).
    apply Forall2_default in Ha.
    apply list_elem_of_lookup in Ha' as [k Hk].
    destruct (Forall2_lookup_r _ _ _ _ _ Ha Hk) as (agent & _ & _ & Hpaths).
    apply list_elem_of_lookup in Hin as [j Hj].
    destruct (Forall2_lookup_r _ _ _ _ _ Hpaths Hj) as (written & _ & Hp).
    by eapply host_path_contained.
Qed.
End contained.

Section evaluation.
Context {W : Type} {PC : PathClean} {clean_laws : PathCleanLaws} {FT : FileTree W} {tree_laws : FileTreeLaws W}.
Context (w : W) (lp : LoadedProject) (overrides : gmap string string) (host_env : string → option string).

(** C26: Evaluating containers and tasks of a project gives each named one, and
    only those, with every value replaced by what it evaluates to under the
    environment and the config variables' overrides and defaults: every host
    path resolved against the file of the container that supplied it, every
    other field as it was.  Whatever an expression evaluates to, every host path
    of the result (volumes, build directory, build secrets, SSH agents) is
    absolute and free of [..], and one that a file of a bundle supplied, itself
    or through [extends], is in the bundle's checkout or in the project
    directory, as it is spelled and once symbolic links are resolved as far as
    it exists, unless the bundle was granted host paths.  A refusal names an
    override that is not declared, a name that is not declared, or a named
    container or task that has no such value. *)
Theorem evaluation_spec containers tasks :
  NoDup (default [] (cfg_config_variables (lp_config lp))).*1 →
  match evaluate w lp containers tasks overrides host_env with
  | Ok ev =>
      (∃ vars,
        vars !! PROJECT_DIRECTORY_VAR = Some (Some (lp_project_directory lp)) ∧
        (∀ name, name ≠ PROJECT_DIRECTORY_VAR → vars !! name =
           variable_value overrides name <$> im_get (default [] (cfg_config_variables (lp_config lp))) name) ∧
        (∀ name, name ∈ containers → ∃ c c', im_get (cfg_containers (lp_config lp)) name = Some c ∧
           ev_containers ev !! name = Some c' ∧
           evaluates_to w host_env vars (lp_provenance lp) (lp_project_directory lp) name c c') ∧
        (∀ name, name ∈ tasks → ∃ t t', im_get (cfg_tasks (lp_config lp)) name = Some t ∧
           ev_tasks ev !! name = Some t' ∧ task_evaluates_to host_env vars t t') ∧
        (∀ name, name ∉ containers → ev_containers ev !! name = None) ∧
        (∀ name, name ∉ tasks → ev_tasks ev !! name = None)) ∧
      ∀ name c' supplier path, ev_containers ev !! name = Some c' →
        (supplier, path) ∈ host_paths (suppliers_of (lp_provenance lp) name) c' →
        contained w (lp_provenance lp) (lp_project_directory lp) supplier path
  | Err e => refused w lp overrides host_env containers tasks e
  end.
Proof using clean_laws tree_laws.
  intros Hnd. pose proof (evaluate_spec w lp overrides host_env containers tasks Hnd) as He.
  destruct (evaluate _ _ _ _ _ _) as [ev|e]; [|exact He]. split; [exact He|].
  destruct He as (vars & _ & _ & Hc & _ & Hnot & _). intros name c' supplier path Hev Hpath.
  destruct (decide (name ∈ containers)) as [Hin|Hout]; [|by rewrite (Hnot name Hout) in Hev].
  destruct (Hc name Hin) as (c & c2 & _ & Hc2 & Hto). rewrite Hev in Hc2. injection Hc2 as <-.
  eapply (host_paths_contained w host_env vars); [|exact Hpath]. by apply evaluate_container_Ok.
Qed.
End evaluation.

(** ** An example

    A container of a bundle that was granted nothing. *)

#[local] Existing Instance LexicalClean.lexical_path_clean.
#[local] Existing Instance LexicalClean.lexical_path_clean_laws.

#[local] Instance example_tree : FileTree () := {
  current_dir _ := Some "/p";
  home_directory _ := Some "/home/u";
  canonicalize _ path := RealPath path;
  is_file _ _ := true;
  exists_at _ _ := true;
}.
#[local] Instance example_tree_laws : FileTreeLaws ().
Proof. split; intros [] d [= <-]; reflexivity. Qed.

Definition example_boundary : Boundary :=
  mk_boundary "/c/v1" (mk_bundle (mk_bundle_id "https://host/r" "v1") trust_none).

Definition example_provenance : Provenance :=
  mk_provenance {["app" := "/c/v1"]} {["app" := example_boundary]} ∅ ∅.

Definition with_volume (path : string) : Container :=
  mk_container
    None None None (Some "image") None None None None None None
    (Some [LocalMount (mk_local_mount path "/data" None false)]) None
    (Some {["TOKEN" := "$TOKEN"]}) None None None None None None None None None None None None None None
    None None None None None None None None None None None None None None None None None None.

Definition example_container : Container := with_volume "<{batect.project_directory}/out".

Definition example_env (name : string) : option string :=
  if bool_decide (name = "TOKEN") then Some "t" else None.

Definition example_project : LoadedProject :=
  mk_loaded_project (mk_config "p" [("app", example_container)] [] None None) "/p" NativeDialect
    example_provenance [] [] [].

Definition example_evaluated : Container :=
  (evaluate_container example_env {[PROJECT_DIRECTORY_VAR := Some "/p"]} () "app" example_container
     example_provenance "/p").1.

Lemma evaluation_spec_witness :
  host_paths (suppliers_of example_provenance "app") example_evaluated =
    [("app", "/p/out"); ("app", "/c/v1/image")] ∧
  ∃ ev, evaluate () example_project ["app"] [] ∅ example_env = Ok ev ∧
    ev_containers ev !! "app" = Some example_evaluated ∧
    contained () example_provenance "/p" "app" "/p/out" ∧
    ∃ vars c c', im_get (cfg_containers (lp_config example_project)) "app" = Some c ∧
      ev_containers ev !! "app" = Some c' ∧
      evaluates_to () example_env vars example_provenance "/p" "app" c c'.
Proof.
  split; [vm_compute; reflexivity|].
  pose proof (evaluation_spec () example_project ∅ example_env ["app"] [] (NoDup_nil_2)) as H.
  assert (∃ ev, evaluate () example_project ["app"] [] ∅ example_env = Ok ev ∧
    ev_containers ev !! "app" = Some example_evaluated) as (ev & E & Happ).
  { eexists. split; [vm_compute; reflexivity|vm_compute; reflexivity]. }
  rewrite E in H. exists ev. split; [exact E|]. split; [exact Happ|]. destruct H as [(vars & _ & _ & Hc & _) Hpaths].
  split.
  - apply (Hpaths "app" example_evaluated "app" "/p/out" Happ). vm_compute. left.
  - destruct (Hc "app" ltac:(left)) as (c & c' & Hcc). exists vars, c, c'. exact Hcc.
Defined.

(** A literal host path is judged at load as it is written, and evaluated with
    its escapes read: one may pass the load and be refused in a run. *)
Example escaped_path_judged_late :
  check_container_values () (anchor example_provenance "app" "/p") (with_volume "\../../etc") = Ok tt ∧
  (evaluate_container example_env ∅ () "app" (with_volume "\../../etc") example_provenance "/p").2 =
    [Deferred "'volumes'" "\../../etc" (PathError (TrustRefused
       (PathEscapes "/etc" "/p" VolumesField Lexical (mk_bundle_id "https://host/r" "v1"))))].
Proof. split; vm_compute; reflexivity. Qed.
