(* ===== verification/DockerignoreSpec.v ===== *)
(** * DockerignoreSpec: what a [.dockerignore] pattern and a list of them mean

    The theorems about [Dockerignore]: a glob is compiled to a test of its
    language, whichever fast path it takes; and a list of patterns decides
    each file by the last one that covers it. *)

From S2P Require Import Prelude Text Collections Regex Dockerignore LexicalClean.
From stdpp Require Import options.

(** ** Globs *)

Inductive glob_token :=
| GLit (c : ascii)
| GEscaped (c : ascii)
| GStar
| GAny
| GDouble (slash_read : bool).

Definition token_text (t : glob_token) : list ascii :=
  match t with
  | GLit c => [c]
  | GEscaped c => [backslash; c]
  | GStar => [star]
  | GAny => ["?"%char]
  | GDouble true => [star; star; slash]
  | GDouble false => [star; star]
  end.

Definition glob_text (ts : list glob_token) : list ascii := concat (token_text <$> ts).

(** The chars that stand for themselves; a bare [^] would anchor. *)
Definition plain (c : ascii) : bool := negb (bool_decide (c ∈ chars "*?[]\^")).

(** No token's text runs into the next one's. *)
Definition follows_ok (t : glob_token) (ts : list glob_token) : bool :=
  match t, ts with
  | GStar, (GStar | GDouble _) :: _ => false
  | GDouble false, GLit c :: _ => bool_decide (c ≠ slash)
  | _, _ => true
  end.

Definition token_ok (t : glob_token) : bool :=
  match t with
  | GLit c => plain c
  | GEscaped c => escapable c
  | _ => true
  end.

Fixpoint glob_ok (ts : list glob_token) : bool :=
  match ts with
  | [] => true
  | t :: ts => token_ok t && follows_ok t ts && glob_ok ts
  end.

(** Its language: [*] and [?] stay within a component, [**] is any number of
    whole components, or anything at the end. *)
Fixpoint glob_atoms (ts : list glob_token) : list atom :=
  match ts with
  | [] => []
  | t :: ts =>
      match t with
      | GLit c | GEscaped c => Lit c
      | GStar => NoSlashString
      | GAny => NoSlashChar
      | GDouble _ => if bool_decide (ts = []) then AnyString else Directories
      end :: glob_atoms ts
  end.

Definition literal (t : glob_token) : option ascii := match t with GLit c => Some c | _ => None end.
Definition literals (ts : list glob_token) : option (list ascii) := mapM literal ts.

(** A leading [**] glued to a literal name is a plain suffix of the path. *)
Definition glob_lang (ts : list glob_token) (w : list ascii) : Prop :=
  match ts with
  | GDouble false :: (GLit _ :: _) as rest =>
      match literals rest with
      | Some cs => ∃ u, w = u ++ cs
      | None => lang (glob_atoms ts) w
      end
  | _ => lang (glob_atoms ts) w
  end.

(** ** The compiler's loop on a glob *)

Section compile.
Context `{PathClean, RegexCrate}.

(** The kind the loop ends with. *)
Fixpoint kind_after (kind : Kind) (first : bool) (ts : list glob_token) : Kind :=
  match ts with
  | [] => kind
  | t :: ts =>
      let next := match t with
                  | GLit _ => kind
                  | GDouble _ =>
                      if bool_decide (ts = []) then
                        match kind with KExact => KPrefix | _ => KRegexp end
                      else KRegexp
                  | _ => KRegexp
                  end in
      kind_after (match t with GDouble _ => if first then KSuffix else next | _ => next end) false ts
  end.

Lemma glob_text_nil ts : glob_text ts = [] ↔ ts = [].
Proof. split; [|by intros ->]. by destruct ts as [|[| | | |[]] ts]. Qed.

Lemma glob_text_slash ts l :
  glob_text ts = slash :: l → ∃ ts', ts = GLit slash :: ts'.
Proof.
  destruct ts as [|[c| | | |[]] ts]; try discriminate; intros [= ? ?]; simplify_eq; eauto.
Qed.

Lemma plain_cases c :
  plain c = true →
  c ≠ star ∧ c ≠ "?"%char ∧ c ≠ backslash ∧ c ∉ chars "[]" ∧
  (should_escape c = true → escapable c = true) ∧ (should_escape c = false → metachar c = false).
Proof.
  unfold plain, should_escape, escapable, metachar, star, backslash.
  intros Hp%negb_true_iff%bool_decide_eq_false. simpl in *.
  rewrite !not_elem_of_cons in Hp. rewrite !orb_true_iff, !bool_decide_eq_true, !bool_decide_eq_false.
  rewrite !elem_of_cons, elem_of_nil. repeat split; try tauto.
Qed.

Lemma compile_loop_plain reg k first c l :
  plain c = true → c ≠ star →
  ∃ t, compile_loop reg k first (c :: l) = compile_loop (reg +:+ t) k false l ∧
    renders_atom (Lit c) t.
Proof.
  intros (Hs & Hq & Hb & Hk & He & Hm)%plain_cases _. simpl.
  rewrite (decide_False (P := c = star)), (decide_False (P := c = "?"%char)) by done.
  destruct (should_escape c) eqn:E.
  - eexists. split; [reflexivity|]. right. auto.
  - rewrite decide_False, bool_decide_false by done.
    eexists. split; [reflexivity|]. left. auto.
Qed.

Lemma compile_loop_double reg k first b ts :
  follows_ok (GDouble b) ts = true →
  compile_loop reg k first (token_text (GDouble b) ++ glob_text ts) =
  let '(reg, k) := double_star reg k first (bool_decide (ts = [])) in
  compile_loop reg k false (glob_text ts).
Proof.
  intros Hf.
  assert (bool_decide (glob_text ts = []) = bool_decide (ts = [])) as E
    by (apply bool_decide_ext, glob_text_nil).
  destruct b; simpl.
  - by rewrite E.
  - destruct (glob_text ts) as [|c l] eqn:El.
    + apply glob_text_nil in El as ->. simpl. by destruct (double_star _ _ _ _).
    + rewrite decide_False.
      * by rewrite <-E.
      * intros ->. destruct (glob_text_slash _ _ El) as [ts' ->]. simpl in Hf.
        done.
Qed.

Lemma compile_loop_spec ts :
  glob_ok ts = true → ∀ reg k first, ∃ t,
    compile_loop reg k first (glob_text ts) = (reg +:+ t, kind_after k first ts) ∧
    (kind_after k first ts = KRegexp → renders (glob_atoms ts) t).
Proof.
  induction ts as [|t ts IH]; intros Hok reg k first.
  { exists "". rewrite string_app_nil_r. split; [done|]. constructor. }
  simpl in Hok. bool_to_prop. specialize (IH ltac:(done)).
  assert (∀ a u k', renders_atom a u →
    glob_atoms (t :: ts) = a :: glob_atoms ts →
    compile_loop reg k first (glob_text (t :: ts)) = compile_loop (reg +:+ u) k' false (glob_text ts) →
    kind_after k first (t :: ts) = kind_after k' false ts → ∃ v,
    compile_loop reg k first (glob_text (t :: ts)) = (reg +:+ v, kind_after k first (t :: ts)) ∧
    (kind_after k first (t :: ts) = KRegexp → renders (glob_atoms (t :: ts)) v)) as Hstep.
  { intros a u k' Hu Ha Hl Hk. destruct (IH (reg +:+ u) k' false) as (v & Ev & Hv).
    exists (u +:+ v). rewrite Hl, Ev, Hk, string_app_assoc. split; [done|].
    intros Hr. rewrite Ha. constructor; auto. }
  destruct t as [c|c| | |b].
  - destruct (plain_cases c) as [Hs _]; [done|].
    destruct (compile_loop_plain reg k first c (glob_text ts)) as (u & Hl & Hu); [done..|].
    by apply (Hstep (Lit c) u k).
  - apply (Hstep (Lit c) (String backslash (String c EmptyString)) KRegexp); [|done..].
    right. split; done.
  - apply (Hstep NoSlashString "[^/]*" KRegexp); [done..| |done].
    change (glob_text (GStar :: ts)) with (star :: glob_text ts).
    destruct (glob_text ts) as [|c l] eqn:El; [done|]. cbn [compile_loop].
    rewrite decide_True, (decide_False (P := c = star)); [done| |done].
    intros ->. destruct ts as [|[c'| | | |[]] ts]; try discriminate.
    assert (c' = star) as -> by (by injection El). by match goal with
      H : glob_ok (GLit star :: _) = true |- _ => vm_compute in H end.
  - by apply (Hstep NoSlashChar "[^/]" KRegexp).
  - change (glob_text (GDouble b :: ts)) with (token_text (GDouble b) ++ glob_text ts).
    rewrite compile_loop_double by done. unfold double_star.
    case_bool_decide as Ets; simpl.
    + subst ts. simpl. destruct (decide (k = KExact)) as [->|Hk]; simpl.
      * exists "". rewrite string_app_nil_r. split; [done|]. by destruct first.
      * exists ".*". split; [by destruct first, k|]. intros _. by apply renders_one.
    + destruct (IH (reg +:+ "(.*/)?") (if first then KSuffix else KRegexp) false) as (v & Ev & Hv).
      exists ("(.*/)?" +:+ v). rewrite bool_decide_false by done. rewrite string_app_assoc.
      split; [done|]. intros Hr. constructor; auto. done.
Qed.

(** Which globs take a fast path. *)
Lemma kind_after_false ts k :
  match kind_after k false ts with
  | KExact => k = KExact ∧ ∃ cs, ts = GLit <$> cs
  | KSuffix => k = KSuffix ∧ ∃ cs, ts = GLit <$> cs
  | KPrefix => (k = KPrefix ∧ ∃ cs, ts = GLit <$> cs) ∨
      (k = KExact ∧ ∃ cs b, ts = (GLit <$> cs) ++ [GDouble b])
  | KRegexp => True
  end.
Proof.
  revert k. induction ts as [|t ts IH]; intros k; simpl.
  { destruct k; auto; try (split; [done|by exists []]). left. split; [done|by exists []]. }
  destruct t as [c| | | |b]; simpl.
  - specialize (IH k). destruct (kind_after k false ts); [..|done].
    + destruct IH as (-> & cs & ->). split; [done|]. by exists (c :: cs).
    + destruct IH as [(-> & cs & ->)|(-> & cs & b & ->)].
      * left. split; [done|]. by exists (c :: cs).
      * right. split; [done|]. by exists (c :: cs), b.
    + destruct IH as (-> & cs & ->). split; [done|]. by exists (c :: cs).
  - specialize (IH KRegexp). destruct (kind_after KRegexp false ts); naive_solver.
  - specialize (IH KRegexp). destruct (kind_after KRegexp false ts); naive_solver.
  - specialize (IH KRegexp). destruct (kind_after KRegexp false ts); naive_solver.
  - case_bool_decide as E.
    + subst ts. destruct k; simpl; auto. right. split; [done|]. by exists [], b.
    + specialize (IH KRegexp). destruct (kind_after KRegexp false ts); naive_solver.
Qed.

Lemma kind_after_start ts :
  match kind_after KExact true ts with
  | KExact => ∃ cs, ts = GLit <$> cs
  | KPrefix => ∃ c cs b, ts = (GLit <$> c :: cs) ++ [GDouble b]
  | KSuffix => ∃ b cs, ts = GDouble b :: (GLit <$> cs)
  | KRegexp => ¬ ∃ b cs, ts = GDouble b :: (GLit <$> cs)
  end.
Proof.
  destruct ts as [|t ts]; [by exists []|]. destruct t as [c| | | |b]; simpl.
  - pose proof (kind_after_false ts KExact) as Hk.
    destruct (kind_after KExact false ts); [..|naive_solver].
    + destruct Hk as (_ & cs & ->). by exists (c :: cs).
    + destruct Hk as [[? _]|(_ & cs & b & ->)]; [done|]. by exists c, cs, b.
    + by destruct Hk.
  - pose proof (kind_after_false ts KRegexp) as Hk.
    destruct (kind_after KRegexp false ts); naive_solver.
  - pose proof (kind_after_false ts KRegexp) as Hk.
    destruct (kind_after KRegexp false ts); naive_solver.
  - pose proof (kind_after_false ts KRegexp) as Hk.
    destruct (kind_after KRegexp false ts); naive_solver.
  - pose proof (kind_after_false ts KSuffix) as Hk.
    destruct (kind_after KSuffix false ts) eqn:E; [naive_solver..|].
    intros (b' & cs & [= <- ->]). revert E. clear Hk.
    induction cs as [|c cs IH]; [done|]. simpl. done.
Qed.

Lemma glob_text_literals cs : glob_text (GLit <$> cs) = cs.
Proof. unfold glob_text. induction cs as [|c cs IH]; csimpl; [done|]. by rewrite IH. Qed.

Lemma glob_text_app ts us : glob_text (ts ++ us) = glob_text ts ++ glob_text us.
Proof. unfold glob_text. by rewrite fmap_app, concat_app. Qed.

Lemma glob_atoms_literals cs : glob_atoms (GLit <$> cs) = Lit <$> cs.
Proof. induction cs as [|c cs IH]; csimpl; [done|]. by rewrite IH. Qed.

Lemma glob_atoms_prefix cs b :
  glob_atoms ((GLit <$> cs) ++ [GDouble b]) = (Lit <$> cs) ++ [AnyString].
Proof. induction cs as [|c cs IH]; csimpl; [done|]. by rewrite IH. Qed.

Lemma literals_Some cs : literals (GLit <$> cs) = Some cs.
Proof. by apply mapM_fmap_Some. Qed.

Lemma ends_with_chars p w : ends_with (of_chars p) w = true ↔ ∃ u, chars w = u ++ p.
Proof.
  rewrite ends_with_true. split.
  - intros [t ->]. exists (chars t). by rewrite chars_app, chars_of_chars.
  - intros [u E]. exists (of_chars u). by rewrite <-of_chars_app, <-E, of_chars_chars.
Qed.

Lemma starts_with_chars p w : starts_with (of_chars p) w = true ↔ ∃ u, chars w = p ++ u.
Proof.
  rewrite starts_with_true. split.
  - intros [t ->]. exists (chars t). by rewrite chars_app, chars_of_chars.
  - intros [u E]. exists (of_chars u). by rewrite <-of_chars_app, <-E, of_chars_chars.
Qed.

Lemma string_eq_chars s t : s = t ↔ chars s = chars t.
Proof.
  split; [by intros ->|]. intros E. by rewrite <-(of_chars_chars s), E, of_chars_chars.
Qed.

(** The three fast paths against the language. *)
Lemma matches_prefix cs excl path :
  newline ∉ chars path →
  matches (mk_pattern (of_chars (cs ++ [star; star])) excl Prefix) path = true ↔
  lang ((Lit <$> cs) ++ [AnyString]) (chars path).
Proof.
  intros Hn. unfold matches. cbn [match_type cleaned_pattern].
  rewrite <-length_chars, chars_of_chars, length_app. simpl.
  replace (length cs + 2 - 2) with (length cs) by lia.
  rewrite take_app_length, starts_with_chars, lang_app. split.
  - intros [u E]. exists cs, u. rewrite lang_lit, lang_cons. split; [done|]. split; [done|].
    exists u, []. rewrite app_nil_r, lang_nil. split; [done|]. split; [|done].
    simpl. rewrite E in Hn. set_solver.
  - intros (? & v & E & ->%lang_lit & _). by exists v.
Qed.

Lemma matches_suffix_name cs excl path :
  newline ∉ chars path → cs ≠ [] →
  matches (mk_pattern (of_chars (star :: star :: slash :: cs)) excl Suffix) path = true ↔
  lang (Directories :: (Lit <$> cs)) (chars path).
Proof.
  intros Hn Hcs. unfold matches. cbn [match_type cleaned_pattern].
  rewrite chars_of_chars. cbn [drop]. rewrite lang_cons. setoid_rewrite lang_lit.
  rewrite chars_of_chars. cbn [drop].
  assert (path = of_chars cs ↔ chars path = cs) as Hp
    by (rewrite string_eq_chars, chars_of_chars; done).
  destruct (ends_with _ path) eqn:E.
  - split; [|done]. intros _. apply ends_with_chars in E as [u E].
    exists (u ++ [slash]), cs. rewrite <-(assoc_L (++)). split; [done|]. split; [|done].
    right. exists u. split; [done|]. rewrite E in Hn. set_solver.
  - rewrite (proj2 (starts_with_true "/" _)) by (by exists (of_chars cs)).
    rewrite andb_true_l, bool_decide_eq_true, Hp.
    split; [intros Ep; exists [], cs; split; [done|]; split; [by left|done]|].
    intros (u & v & Ew & [->|(u' & -> & _)] & ->); [done|]. exfalso.
    assert (ends_with (of_chars (slash :: cs)) path = true) as E'; [|by rewrite E' in E].
    apply ends_with_chars. exists u'. by rewrite Ew, <-(assoc_L (++)).
Qed.

Lemma matches_suffix_loose cs excl path :
  matches (mk_pattern (of_chars (star :: star :: cs)) excl Suffix) path = true ↔
  (∃ u, chars path = u ++ cs) ∨ ∃ cs', cs = slash :: cs' ∧ chars path = cs'.
Proof.
  unfold matches. cbn [match_type cleaned_pattern]. rewrite chars_of_chars.
  change (drop 2 (star :: star :: cs)) with cs.
  rewrite chars_of_chars. destruct (ends_with _ path) eqn:E.
  - split; [|done]. intros _. left. by apply ends_with_chars.
  - assert (¬ ∃ u, chars path = u ++ cs) as Hn
      by (rewrite <-ends_with_chars, E; done).
    destruct cs as [|c cs]; [split; [done|]; naive_solver|].
    change (drop 1 (c :: cs)) with cs.
    rewrite andb_true_iff, bool_decide_eq_true, string_eq_chars, chars_of_chars.
    change "/" with (of_chars [slash]). rewrite starts_with_chars, chars_of_chars. split.
    + intros [[u [= -> ->]] ->]. right. eauto.
    + intros [?|(cs' & [= -> ->] & ->)]; [done|]. split; [by exists cs'|done].
Qed.
End compile.

Lemma literals_inv ts cs : literals ts = Some cs → ts = GLit <$> cs.
Proof.
  unfold literals. rewrite mapM_Some. induction 1 as [|t c ts cs Ht _ IH]; [done|].
  destruct t; by simplify_eq/=.
Qed.

Lemma glob_lang_atoms ts w :
  (¬ ∃ b cs, ts = GDouble b :: (GLit <$> cs)) → glob_lang ts w ↔ lang (glob_atoms ts) w.
Proof.
  intros Hn. destruct ts as [|[| | | |[]] ts]; try done. destruct ts as [|[] ts]; try done.
  unfold glob_lang. destruct (literals _) as [cs|] eqn:E; [|done].
  apply literals_inv in E. exfalso. apply Hn. exists false, cs. by rewrite E.
Qed.

Section patterns.
Context `{!PathClean, !RegexCrate} {laws : RegexLaws}.

(** A pattern means what it says, whichever of its four tests it is
    compiled to.  Every glob of plain and escaped chars, [*], [?] and [**]
    compiles, and the compiled test accepts exactly the newline-free paths of
    the glob's language: [*] and [?] stay within one path component, [**] is
    any number of whole components in front of something and anything at the
    end, so the three tests that avoid a regular expression are optimisations
    of it.  The one glob they do not agree with is a leading [**] glued to a
    literal name, which is any path ending in that name. *)
Theorem compile_spec ts :
  glob_ok ts = true → last ts ≠ Some (GDouble true) →
  ∃ mt, compile (of_chars (glob_text ts)) = Ok mt ∧
    ∀ excl path, newline ∉ chars path →
      (matches (mk_pattern (of_chars (glob_text ts)) excl mt) path = true ↔
       glob_lang ts (chars path)).
Proof using laws.
  intros Hok Hlast. unfold compile. rewrite chars_of_chars.
  destruct (compile_loop_spec ts Hok "^" KExact true) as (t & -> & Hr).
  pose proof (kind_after_start ts) as Hk. destruct (kind_after KExact true ts).
  - destruct Hk as [cs ->]. exists Exact. split; [done|]. intros excl path Hn.
    rewrite glob_lang_atoms by (intros (? & ? & E); by destruct cs).
    rewrite glob_text_literals, glob_atoms_literals, lang_lit. unfold matches. simpl.
    by rewrite bool_decide_eq_true, string_eq_chars, chars_of_chars.
  - destruct Hk as (c & cs & b & ->). exists Prefix. split; [done|]. intros excl path Hn.
    rewrite glob_lang_atoms by (by intros (? & ? & E)).
    rewrite last_snoc in Hlast. destruct b; [done|].
    rewrite glob_text_app, glob_text_literals, glob_atoms_prefix. by apply matches_prefix.
  - destruct Hk as (b & cs & ->). exists Suffix. split; [done|]. intros excl path Hn.
    change (glob_text (GDouble b :: (GLit <$> cs)))
      with (token_text (GDouble b) ++ glob_text (GLit <$> cs)). rewrite glob_text_literals.
    destruct cs as [|c cs], b; [done| | |].
    + cbn [token_text app]. rewrite matches_suffix_loose. simpl. rewrite lang_cons. setoid_rewrite lang_nil.
      split; [|left; exists (chars path); by rewrite app_nil_r].
      intros _. exists (chars path), []. by rewrite app_nil_r.
    + cbn [token_text app]. rewrite matches_suffix_name by done.
      simpl. by rewrite glob_atoms_literals.
    + cbn [token_text app]. rewrite matches_suffix_loose.
      change (glob_lang (GDouble false :: (GLit <$> c :: cs)) (chars path))
        with (match literals (GLit <$> c :: cs) with
              | Some cs => ∃ u, chars path = u ++ cs
              | None => lang (glob_atoms (GDouble false :: (GLit <$> c :: cs))) (chars path)
              end).
      rewrite literals_Some. split; [|by left]. intros [?|(cs' & [= -> ->] & _)]; [done|].
      simpl in Hok. by bool_to_prop.
  - destruct (regex_new_anchored (glob_atoms ts) t) as (re & Ere & Hre); [auto|].
    rewrite <-string_app_assoc, Ere. exists (Regexp re). split; [done|]. intros excl path _.
    rewrite glob_lang_atoms by done. apply Hre.
Qed.
End patterns.

Section ignored.
Context `{!RegexCrate}.

Definition covered (file : string) (p : Pattern) : Prop :=
  matches p file = true ∨ ∃ d rest, file = d +:+ "/" +:+ rest ∧ matches p d = true.

(** The last of [patterns] that covers [file] says to leave it out. *)
Definition ignored (patterns : list Pattern) (file : string) : Prop :=
  ∃ before p after, patterns = before ++ p :: after ∧ exclusion p = false ∧
    covered file p ∧ ∀ q, q ∈ after → covered file q → exclusion q = false.

Lemma ignored_snoc patterns p file :
  ignored (patterns ++ [p]) file ↔
  (covered file p ∧ exclusion p = false) ∨
  ((exclusion p = true → ¬ covered file p) ∧ ignored patterns file).
Proof.
  split.
  - intros (before & q & after & E & Hq & Hc & Ha).
    destruct after as [|r after _] using rev_ind.
    + apply app_inj_tail in E as [-> ->]. by left.
    + rewrite app_comm_cons, (assoc_L (++)) in E. apply app_inj_tail in E as [-> ->].
      right. split.
      * intros He Hr. rewrite (Ha r) in He; [done|set_solver|done].
      * exists before, q, after. split; [done|]. split; [done|]. split; [done|].
        intros r' Hr'. apply Ha. set_solver.
  - intros [[Hc Hp]|[Hp (before & q & after & -> & Hq & Hc & Ha)]].
    + exists patterns, p, []. split; [done|]. split; [done|]. split; [done|]. set_solver.
    + exists before, q, (after ++ [p]). rewrite <-(assoc_L (++)). split; [done|].
      split; [done|]. split; [done|]. intros r [Hr| ->%list_elem_of_singleton]%elem_of_app Hcr.
      * by apply Ha.
      * destruct (exclusion p); [by destruct Hp|done].
Qed.

End ignored.

Section matcher.
Context `{!PathClean, !RegexCrate} {clean_laws : PathCleanLaws}.

(** The parents of a cleaned relative path: what is before one of its
    slashes. *)
Lemma parent_dirs_spec file :
  clean_relative file → split slash file = parent_dirs file ++ [default "" (last (split slash file))].
Proof using clean_laws.
  intros Hc. unfold parent_dirs, parent_of.
  destruct (rsplit_once slash file) as [[d rest]|] eqn:E.
  - apply rsplit_once_Some in E as [-> Hr]. pose proof (clean_relative_parent _ _ Hc Hr) as Hd.
    pose proof (clean_relative_nonempty _ Hd) as [Hd1 Hd2].
    rewrite (bool_decide_false (d = "")) by done. rewrite clean_relative_id by done.
    rewrite bool_decide_false by done. rewrite split_app, (split_free _ rest) by done.
    by rewrite last_snoc.
  - apply rsplit_once_None in E. by rewrite split_free by done.
Qed.

Lemma covers_spec file p : clean_relative file → covers file p = true ↔ covered file p.
Proof using clean_laws.
  intros Hc. unfold covers, covered. rewrite orb_true_iff. apply or_iff_compat_l.
  pose proof (parent_dirs_spec file Hc) as E. rewrite existsb_exists. split.
  - intros (i & [_ Hi]%in_seq & Hm). simpl in Hi.
    exists (join "/" (take (S i) (parent_dirs file))).
    exists (join "/" (drop (S i) (split slash file))). split; [|done].
    rewrite <-(join_split slash file) at 1. rewrite <-(take_drop (S i) (split slash file)) at 1.
    rewrite E, take_app_le by lia.
    set (l := take (S i) (parent_dirs file)). set (k := drop _ _).
    assert (l ≠ []) as Hl by (subst l; by destruct (parent_dirs file); [simpl in Hi; lia|]).
    assert (k ≠ []) as Hk by (subst k; rewrite drop_app_le by lia; by destruct (drop _ _)).
    clearbody l k. clear -Hl Hk. change (String slash "") with "/".
    induction l as [|x l IH]; [done|].
    destruct (decide (l = [])) as [->|Hl'].
    { simpl app. by rewrite (join_cons _ x k). }
    simpl app. rewrite join_cons by (by destruct l). rewrite (join_cons _ x l), IH by done.
    by rewrite !string_app_assoc.
  - intros (d & rest & Ef & Hm). change ("/" +:+ rest) with (String slash rest) in Ef.
    assert (length (split slash d) ≤ length (parent_dirs file)) as Hle.
    { pose proof (f_equal length E) as El. rewrite Ef, split_app, !length_app in El.
      pose proof (split_nonempty slash rest). destruct (split slash rest); [done|]. rewrite <-Ef in El.
      simpl in El. lia. }
    exists (pred (length (split slash d))).
    pose proof (split_nonempty slash d) as Hd. assert (0 < length (split slash d)) as Hd'
      by (destruct (split slash d); [done|simpl; lia]).
    rewrite in_seq. split; [lia|].
    replace (S (pred (length (split slash d)))) with (length (split slash d)) by lia.
    assert (take (length (split slash d)) (parent_dirs file) = split slash d) as ->.
    { rewrite <-(take_app_le _ [default "" (last (split slash file))]) by done.
      rewrite <-E, Ef, split_app. by rewrite take_app_length. }
    change "/" with (String slash ""). by rewrite join_split.
Qed.

Lemma matched_spec ps file :
  clean_relative file →
  foldl (λ matched p,
      if negb (eqb (exclusion p) matched) then matched
      else if covers file p then negb (exclusion p) else matched) false ps = true
  ↔ ignored ps file.
Proof using clean_laws.
  intros Hc. induction ps as [|p ps IH] using rev_ind.
  - split; [done|]. intros ([] & ? & ? & ? & _); done.
  - rewrite foldl_snoc, ignored_snoc, <-IH, <-covers_spec by done.
    destruct (foldl _ false ps), (exclusion p), (covers file p); simpl; clear; naive_solver.
Qed.
End matcher.

(** ** The list *)

Section entries.
Context `{!PathClean, !RegexCrate} {clean_laws : PathCleanLaws}.

(** The pattern a line of the list is read as. *)
Definition reads_as (raw : string) (p : Pattern) : Prop :=
  let cleaned := clean (trim raw) in
  exclusion p = starts_with "!" cleaned ∧
  cleaned_pattern p = (if exclusion p then of_chars (drop 1 (chars cleaned)) else cleaned) ∧
  compile (cleaned_pattern p) = Ok (match_type p).

Definition blank (raw : string) : Prop := trim raw = "".
#[local] Instance blank_dec raw : Decision (blank raw).
Proof. unfold blank. apply _. Defined.

Lemma add_patterns_Ok raws pm pm' :
  try_fold add_pattern raws pm = Ok pm' →
  ∃ ps, patterns pm' = patterns pm ++ ps ∧ Forall2 reads_as (filter (λ raw, ¬ blank raw) raws) ps.
Proof.
  revert pm. induction raws as [|raw raws IH]; intros pm E; simpl in E.
  { injection E as <-. exists []. by rewrite app_nil_r. }
  apply result_bind_Ok in E as (pm1 & E1 & E). destruct (IH _ E) as (ps & Eps & Hps).
  unfold add_pattern in E1. rewrite filter_cons. case_bool_decide as Hb.
  { injection E1 as <-. rewrite decide_False by (intros Hn; by apply Hn). by exists ps. }
  rewrite decide_True by done. destruct (_ && _); [done|].
  apply result_bind_Ok in E1 as (mt & Emt & [= <-]). simpl in Eps. rewrite <-(assoc_L (++)) in Eps.
  eexists. split; [exact Eps|]. constructor; [|done]. by repeat split.
Qed.

(** What a build context holds.  The patterns are those of the
    [.dockerignore], one for each line that holds one, in order; a file found
    under the build directory goes in, in the order they were found, exactly
    when it is the Dockerfile or the [.dockerignore] itself, or the last
    pattern that covers it (that matches it, or one of its parent
    directories) is a [!] exclusion, or none covers it. *)
Theorem context_entries_spec ignore_file dockerfile found entries :
  context_entries ignore_file dockerfile found = Ok entries →
  ∃ ps,
    Forall2 reads_as
      (filter (λ raw, ¬ blank raw)
        (default [] (read_ignore_file <$> ignore_file))) ps ∧
    sublist entries found ∧
    ∀ path, clean_relative (clean path) →
      (path ∈ entries ↔ path ∈ found ∧
        (path = dockerfile ∨ path = ".dockerignore" ∨ ¬ ignored ps (clean path))).
Proof using clean_laws.
  unfold context_entries. intros (pm & Epm & [= <-])%result_bind_Ok.
  destruct (add_patterns_Ok _ _ _ Epm) as (ps & Eps & Hps). simpl in Eps. exists ps.
  split; [by destruct ignore_file|]. split; [apply sublist_filter|]. intros path Hc.
  rewrite list_elem_of_filter, <-(matched_spec ps _ Hc).
  unfold matches_or_parent_matches.
  rewrite Eps, (bool_decide_false (clean path = ".")) by (by apply clean_relative_nonempty).
  rewrite !orb_true_iff, !bool_decide_eq_true, negb_true_iff, not_true_iff_false. clear. tauto.
Qed.
End entries.

Section build_context.
Context `{!PathClean, !RegexCrate} {laws : RegexLaws} {clean_laws : PathCleanLaws}.

End build_context.

