(* ===== verification/Passwd.v ===== *)
(** * Passwd: the identity files a container gets

    The pure half of [ratect-core/src/user.rs]: the files Ratect generates for
    [run_as_current_user], and its edits of an image's own [/etc/passwd] and
    [/etc/group] for an [identity].  A file is its bytes, each an [ascii], and
    so are the names and homes written into it; a position is an index into
    them.  Looking up the host's own user and the owner of a host path is the
    operating system's. *)

From S2P Require Import Prelude Text Collections Config.
From stdpp Require Import options.

Definition newline : ascii := "010".
Definition colon : ascii := ":".
Definition hash : ascii := "#".

Record CurrentUser := mk_current_user {
  cu_uid : N;
  cu_gid : N;
  cu_username : string;
  cu_groupname : string;
}.

(** ** The generated files *)

Definition generate_passwd_file (user : CurrentUser) (home_directory : string) : string :=
  if (cu_uid user =? 0)%N then "root:x:0:0:root:" +:+ home_directory +:+ ":/bin/sh"
  else "root:x:0:0:root:/root:/bin/sh
" +:+ cu_username user +:+ ":x:" +:+ show_N (cu_uid user) +:+ ":" +:+ show_N (cu_gid user) +:+ ":"
    +:+ cu_username user +:+ ":" +:+ home_directory +:+ ":/bin/sh".

Definition generate_shadow_file (user : CurrentUser) : string :=
  if (cu_uid user =? 0)%N then "root:*:19500:0:99999:7:::"
  else "root:*:19500:0:99999:7:::
" +:+ cu_username user +:+ ":*:19500:0:99999:7:::".

Definition generate_group_file (user : CurrentUser) : string :=
  let root_group := "root:x:0:root" in
  if (cu_gid user =? 0)%N then root_group
  else root_group +:+ "
" +:+ cu_groupname user +:+ ":x:" +:+ show_N (cu_gid user) +:+ ":" +:+ cu_username user.

(** ** Reading an entry *)

Record DirectoryOwner := mk_owner { do_uid : N; do_gid : N }.

Record PasswdEdit := mk_passwd_edit {
  pe_contents : list ascii;
  pe_home_owner : option DirectoryOwner;
}.

Record PasswdEntry := mk_passwd_entry {
  e_name : list ascii;
  e_uid : option N;
  e_gid : option N;
  e_home : nat * nat;
  e_separators_needed : nat;
}.

Definition PASSWD_HOME_FIELD : nat := 5.

(** [u8::is_ascii_whitespace]. *)
Definition ascii_space (b : ascii) : bool := bool_decide (code b ∈ [9; 10; 12; 13; 32]%N).

(** [position(|byte| !byte.is_ascii_whitespace())], with the byte. *)
Fixpoint find_text (l : list ascii) : option (nat * ascii) :=
  match l with
  | [] => None
  | b :: l => if ascii_space b then prod_map S id <$> find_text l else Some (0, b)
  end.

(** Where the entry of [line] is, without the spaces around it. *)
Definition entry_range (line : list ascii) : option (nat * nat) :=
  '(start, first) ← find_text line;
  '(from_end, _) ← find_text (reverse line);
  if decide (first = hash) then None else Some (start, length line - from_end).

Definition slice (l : list ascii) (from to : nat) : list ascii := take (to - from) (drop from l).

(** [parse::<u32>]: bytes that are no UTF-8 are no digits either. *)
Definition parse_id (field : option (list ascii)) : option N :=
  f ← field; parse_unsigned u32_max (of_chars f).

Definition parse_passwd_entry (line : list ascii) : option PasswdEntry :=
  '(start, stop) ← entry_range line;
  let fields := splitn_l 7 colon (slice line start stop) in
  let '(home, separators_needed) :=
    match fields !! PASSWD_HOME_FIELD with
    | Some home =>
        let before := sum_list_with (λ field, length field + 1) (take PASSWD_HOME_FIELD fields) in
        ((start + before, start + before + length home), 0)
    | None => ((stop, stop), PASSWD_HOME_FIELD + 1 - length fields)
    end in
  name ← fields !! 0;
  Some (mk_passwd_entry name (parse_id (fields !! 2)) (parse_id (fields !! 3)) home
    separators_needed).

(** [split_inclusive]: the lines, each with its newline. *)
Fixpoint split_inclusive (l : list ascii) : list (list ascii) :=
  match l with
  | [] => []
  | b :: l =>
      if decide (b = newline) then [b] :: split_inclusive l
      else match split_inclusive l with
           | [] => [[b]]
           | line :: lines => (b :: line) :: lines
           end
  end.

(** The first entry [selected] accepts, with where its line starts. *)
Fixpoint first_entry_from (selected : PasswdEntry → bool) (position : nat)
    (lines : list (list ascii)) : option (nat * PasswdEntry) :=
  match lines with
  | [] => None
  | line :: lines =>
      match parse_passwd_entry line with
      | Some entry =>
          if selected entry then Some (position, entry)
          else first_entry_from selected (position + length line) lines
      | None => first_entry_from selected (position + length line) lines
      end
  end.
Definition first_passwd_entry (passwd : list ascii) (selected : PasswdEntry → bool)
    : option (nat * PasswdEntry) :=
  first_entry_from selected 0 (split_inclusive passwd).

(** ** Writing one *)

Definition with_passwd_home (passwd : list ascii) (position : nat) (entry : PasswdEntry)
    (home : list ascii) : list ascii :=
  take (position + (e_home entry).1) passwd ++ replicate (e_separators_needed entry) colon ++ home
  ++ drop (position + (e_home entry).2) passwd.

Definition with_line_appended (file line : list ascii) : list ascii :=
  file ++ (if bool_decide (file ≠ [] ∧ last file ≠ Some newline) then [newline] else []) ++ line
  ++ [newline].

Definition passwd_line (name : string) (uid gid : N) (home : string) : string :=
  name +:+ ":*:" +:+ show_N uid +:+ ":" +:+ show_N gid +:+ "::" +:+ home +:+ ":/bin/sh".

Definition with_passwd_entry_appended (passwd : list ascii) (name : string) (uid gid : N)
    (home : string) : list ascii :=
  with_line_appended passwd (chars (passwd_line name uid gid home)).

(** ** The running user *)

Definition split_configured_user (configured_user : string) : string * string :=
  default (configured_user, EmptyString) (split_once colon configured_user).

Definition configured_uid (user : string) : option N :=
  if bool_decide (user = EmptyString) then Some 0%N else parse_unsigned u32_max user.

Definition is_root_user (user : string) : bool :=
  let '(user, _) := split_configured_user user in
  bool_decide (user = "root") || bool_decide (configured_uid user = Some 0%N).

Definition user_selected (user : string) (uid : option N) (entry : PasswdEntry) : bool :=
  match uid with
  | Some uid => bool_decide (e_uid entry = Some uid)
  | None => bool_decide (e_name entry = chars user)
  end.

Definition or_else {A} (a b : option A) : option A :=
  match a with Some _ => a | None => b end.

Definition edit_passwd_home (passwd : list ascii) (configured_user home : string) : PasswdEdit :=
  let '(user, group) := split_configured_user configured_user in
  let uid := configured_uid user in
  let group := parse_unsigned u32_max group in
  match first_passwd_entry passwd (user_selected user uid) with
  | Some (position, entry) =>
      mk_passwd_edit (with_passwd_home passwd position entry (chars home))
        (Some (mk_owner (default 0 (e_uid entry)) (default 0 (or_else group (e_gid entry)))))%N
  | None =>
      match uid with
      | None => mk_passwd_edit passwd None
      | Some uid =>
          let gid := default 0%N group in
          let name := if (uid =? 0)%N then "root" else show_N uid in
          mk_passwd_edit (with_passwd_entry_appended passwd name uid gid home)
            (Some (mk_owner uid gid))
      end
  end.

Definition edit_passwd_for_host_user (passwd : list ascii) (user : CurrentUser) (home : string)
    : list ascii :=
  match first_passwd_entry passwd (λ entry, bool_decide (e_uid entry = Some (cu_uid user))) with
  | Some (position, entry) => with_passwd_home passwd position entry (chars home)
  | None =>
      let name_taken := bool_decide (is_Some (first_passwd_entry passwd
        (λ entry, bool_decide (e_name entry = chars (cu_username user))))) in
      let name := if name_taken then show_N (cu_uid user) else cu_username user in
      with_passwd_entry_appended passwd name (cu_uid user) (cu_gid user) home
  end.

(** ** Groups *)

Definition group_entry_taken (group : list ascii) (name : string) (gid : N) : bool :=
  existsb (λ line,
      match entry_range line with
      | None => false
      | Some (start, stop) =>
          let fields := split_l colon (slice line start stop) in
          bool_decide (fields !! 0 = Some (chars name))
          || bool_decide (parse_id (fields !! 2) = Some gid)
      end)
    (split_inclusive group).

Definition group_line (name : string) (gid : N) : string := name +:+ ":x:" +:+ show_N gid +:+ ":".

Definition edit_group_for_host_user (group : list ascii) (user : CurrentUser)
    : option (list ascii) :=
  if group_entry_taken group (cu_groupname user) (cu_gid user) then None
  else Some (with_line_appended group (chars (group_line (cu_groupname user) (cu_gid user)))).

(** ** Additional users *)

Inductive user_clash :=
| UidTaken (name : string) (uid : N) (by_entry : list ascii)
| NameTaken (name : string).

Definition add_user (passwd : list ascii) (contents : list ascii) (user : AdditionalUser)
    : result (list ascii) user_clash :=
  match first_passwd_entry passwd (λ entry, bool_decide (e_uid entry = Some (au_uid user))) with
  | Some (_, entry) => Err (UidTaken (au_name user) (au_uid user) (e_name entry))
  | None =>
      let? _ := ensure (bool_decide (first_passwd_entry passwd
                  (λ entry, bool_decide (e_name entry = chars (au_name user))) = None))
                (NameTaken (au_name user)) in
      Ok (with_passwd_entry_appended contents (au_name user) (au_uid user) (au_gid user)
        "/nonexistent")
  end.

Definition with_additional_users (passwd : list ascii) (users : list AdditionalUser)
    : result (list ascii) user_clash :=
  try_fold (add_user passwd) users passwd.

Definition with_additional_groups (group : list ascii) (users : list AdditionalUser)
    : list ascii :=
  foldl (λ contents user,
      if group_entry_taken contents (au_name user) (au_gid user) then contents
      else with_line_appended contents (chars (group_line (au_name user) (au_gid user))))
    group users.

(** ** The identity files as lists of accounts

    An [/etc/passwd] is read as the accounts on its lines; the byte-level
    edits of [Passwd] refine the obvious operations on that list. *)

Record account := mk_account {
  a_name : list ascii;
  a_uid : option N;
  a_gid : option N;
  a_home : list ascii;
}.

Definition entry_account (line : list ascii) (e : PasswdEntry) : account :=
  mk_account (e_name e) (e_uid e) (e_gid e) (slice line (e_home e).1 (e_home e).2).

Definition line_account (line : list ascii) : option account :=
  entry_account line <$> parse_passwd_entry line.

Definition accounts (passwd : list ascii) : list account :=
  omap line_account (split_inclusive passwd).

Definition set_home (home : list ascii) (a : account) : account :=
  mk_account (a_name a) (a_uid a) (a_gid a) home.

(** *** Lines *)

Definition full_line (line : list ascii) : Prop := ∃ body, line = body ++ [newline] ∧ newline ∉ body.
Definition last_line (line : list ascii) : Prop := line ≠ [] ∧ newline ∉ line.
Definition a_line (line : list ascii) : Prop := full_line line ∨ last_line line.

(** All lines end with a newline, but maybe the last. *)
Inductive lines_ok : list (list ascii) → Prop :=
| lines_nil : lines_ok []
| lines_last line : last_line line → lines_ok [line]
| lines_cons line lines : full_line line → lines_ok lines → lines_ok (line :: lines).

Lemma split_inclusive_app body l :
  newline ∉ body → split_inclusive (body ++ newline :: l) = (body ++ [newline]) :: split_inclusive l.
Proof.
  induction body as [|b body IH]; intros H; [done|]. apply not_elem_of_cons in H as [Hb H].
  simpl. rewrite decide_False by done. by rewrite IH.
Qed.

Lemma split_inclusive_free l : newline ∉ l → l ≠ [] → split_inclusive l = [l].
Proof.
  induction l as [|b l IH]; intros H Hl; [done|]. apply not_elem_of_cons in H as [Hb H].
  simpl. rewrite decide_False by done. destruct l as [|b' l]; [done|]. by rewrite IH.
Qed.

Lemma split_inclusive_concat lines : lines_ok lines → split_inclusive (concat lines) = lines.
Proof.
  induction 1 as [|line [Hn Hl]|line lines (body & -> & Hb) _ IH]; simpl; [done|..].
  - rewrite app_nil_r. by apply split_inclusive_free.
  - rewrite <-(assoc_L (++)). simpl. by rewrite split_inclusive_app, IH.
Qed.

Lemma concat_split_inclusive l : concat (split_inclusive l) = l.
Proof.
  induction l as [|b l IH]; [done|]. simpl. destruct (decide (b = newline)) as [->|].
  - simpl. by rewrite IH.
  - destruct (split_inclusive l) as [|line lines]; simpl in *; by rewrite <-IH.
Qed.

Lemma split_inclusive_ok l : lines_ok (split_inclusive l).
Proof.
  induction l as [|b l IH]; [constructor|]. simpl. destruct (decide (b = newline)) as [->|Hb].
  - constructor; [|done]. exists []. split; [done|apply not_elem_of_nil].
  - inversion IH as [|line [Hn Hl] E|line lines (body & -> & Hf) Hls E].
    + constructor. split; [done|]. rewrite list_elem_of_singleton. congruence.
    + constructor. split; [done|]. rewrite not_elem_of_cons. split; [congruence|done].
    + constructor; [|done]. exists (b :: body). split; [done|].
      rewrite not_elem_of_cons. split; [congruence|done].
Qed.

Lemma lines_ok_elem lines line : lines_ok lines → line ∈ lines → a_line line.
Proof.
  induction 1 as [|l Hl|l ls Hl _ IH]; intros Hin.
  - by apply not_elem_of_nil in Hin.
  - apply list_elem_of_singleton in Hin as ->. by right.
  - apply elem_of_cons in Hin as [->|Hin]; [by left|auto].
Qed.

Lemma lines_ok_replace before line line' after :
  lines_ok (before ++ line :: after) → (full_line line → full_line line') →
  (last_line line → last_line line') → lines_ok (before ++ line' :: after).
Proof.
  intros H Hf Hl. induction before as [|b before IH]; simpl in *.
  - inversion H; constructor; auto.
  - inversion H; simplify_eq; [by destruct before|constructor; auto].
Qed.

(** *** Entries *)

Definition spaces (l : list ascii) : Prop := Forall (λ b, ascii_space b = true) l.

(** What is left of an entry's line without its spaces. *)
Definition bare (text : list ascii) : Prop :=
  ∃ b z, head text = Some b ∧ ascii_space b = false ∧ b ≠ hash ∧
    last text = Some z ∧ ascii_space z = false.

Lemma find_text_spaces pre b l :
  spaces pre → ascii_space b = false → find_text (pre ++ b :: l) = Some (length pre, b).
Proof.
  intros H Hb. induction H as [|c pre Hc _ IH]; simpl; [by rewrite Hb|]. by rewrite Hc, IH.
Qed.

Lemma find_text_inv l i b :
  find_text l = Some (i, b) →
  ∃ pre rest, l = pre ++ b :: rest ∧ i = length pre ∧ spaces pre ∧ ascii_space b = false.
Proof.
  revert i. induction l as [|c l IH]; intros i H; simpl in H; [done|].
  destruct (ascii_space c) eqn:Hc.
  - apply fmap_Some in H as ([j b'] & H & [= -> ->]).
    destruct (IH _ H) as (pre & rest & -> & -> & Hp & Hb). exists (c :: pre), rest.
    repeat split; [|done]. by constructor.
  - injection H as <- <-. exists [], l. repeat split; [constructor|done].
Qed.

Lemma bare_cons b text z rest :
  b :: text = rest ++ [z] → ascii_space b = false → b ≠ hash → ascii_space z = false →
  bare (b :: text).
Proof.
  intros E Hb Hh Hz. exists b, z. repeat split; [done..| |done]. by rewrite E, last_snoc.
Qed.

Lemma entry_range_intro pre text post :
  spaces pre → bare text → spaces post →
  entry_range (pre ++ text ++ post) = Some (length pre, length pre + length text).
Proof.
  intros Hpre (first & z & Hf & Hfs & Hh & Hz & Hzs) Hpost. unfold entry_range.
  destruct text as [|b text]; [done|]. injection Hf as ->. simpl app.
  rewrite find_text_spaces by done. simpl.
  apply last_Some in Hz as [rest E]. change (first :: text ++ post) with ((first :: text) ++ post).
  assert (reverse (pre ++ (first :: text) ++ post) = reverse post ++ z :: (reverse rest ++ reverse pre))
    as -> by (by rewrite E, !reverse_app, <-!(assoc_L (++))).
  rewrite find_text_spaces by (done || by apply Forall_reverse). simpl.
  rewrite decide_False by done. do 2 f_equal. rewrite length_reverse, !length_app. simpl. rewrite ?length_app. lia.
Qed.

Lemma entry_range_inv line i j :
  entry_range line = Some (i, j) →
  ∃ pre text post, line = pre ++ text ++ post ∧ spaces pre ∧ bare text ∧ spaces post ∧
    i = length pre ∧ j = length pre + length text.
Proof.
  unfold entry_range. intros ([i' b] & E1 & ([k z] & E2 & E3)%bind_Some)%bind_Some.
  destruct (decide (b = hash)) as [|Hh]; [done|]. injection E3 as -> <-.
  apply find_text_inv in E1 as (pre & rest & -> & -> & Hp & Hb).
  apply find_text_inv in E2 as (post & rest' & E & -> & Hpo & Hz).
  apply (f_equal reverse) in E. rewrite reverse_involutive, reverse_app, reverse_cons in E.
  rewrite <-(assoc_L (++)) in E.
  assert (∃ text, b :: rest = text ++ reverse post ∧ ∃ r, text = r ++ [z]) as (text & Et & r & Er).
  { destruct (app_eq_inv pre (b :: rest) (reverse rest') ([z] ++ reverse post)) as
      [(k & Ek1 & Ek2)|(k & Ek1 & Ek2)]; [by rewrite E|..].
    - destruct k as [|c k].
      + exists [z]. split; [by symmetry|by exists []].
      + exfalso. injection Ek2 as <- Ek2. rewrite Ek1 in Hp. apply Forall_app in Hp as [_ Hp].
        apply Forall_cons in Hp as [Hp _]. congruence.
    - exists (k ++ [z]). rewrite <-(assoc_L (++)). split; [done|by exists k]. }
  destruct text as [|b' text]; [by destruct r|]. injection Et as <- ->.
  exists pre, (b :: text), (reverse post). split; [done|]. split; [done|].
  split; [by eapply bare_cons|]. split; [by apply Forall_reverse|]. split; [done|].
  rewrite !length_app. simpl. rewrite length_app, length_reverse. lia.
Qed.

(** *** Fields *)

(** Fields, each with its separator. *)
Definition cells (fs : list (list ascii)) : list ascii := concat ((λ f, f ++ [colon]) <$> fs).

Definition free (fs : list (list ascii)) : Prop := Forall (λ f, colon ∉ f) fs.

Lemma cells_cons f fs l : cells (f :: fs) ++ l = f ++ colon :: (cells fs ++ l).
Proof. unfold cells. csimpl. by rewrite <-!(assoc_L (++)). Qed.

Lemma cells_app fs gs : cells (fs ++ gs) = cells fs ++ cells gs.
Proof. unfold cells. by rewrite fmap_app, concat_app. Qed.

Lemma cells_empty k : cells (replicate k []) = replicate k colon.
Proof. induction k as [|k IH]; [done|]. simpl. rewrite <-IH. done. Qed.

Lemma splitn_shape n l :
  ∃ fs x, splitn_l (S n) colon l = fs ++ [x] ∧ free fs ∧ l = cells fs ++ x ∧ length fs ≤ n
    ∧ (length fs < n → colon ∉ x).
Proof.
  revert l. induction n as [|n IH]; intros l.
  { exists [], l. repeat split; [constructor|simpl; lia..]. }
  cbn [splitn_l]. destruct (split_once_l colon l) as [[h t]|] eqn:E.
  - apply split_once_l_Some in E as [-> Hh]. destruct (IH t) as (fs & x & E & Hfs & -> & Hl & Hx).
    exists (h :: fs), x. cbn [splitn_l] in E. rewrite E, cells_cons.
    split; [done|]. split; [by constructor|]. split; [done|]. simpl. split; [lia|].
    intros ?. apply Hx. lia.
  - apply split_once_l_None in E. exists [], l. repeat split; [constructor|simpl; lia|done].
Qed.

Lemma splitn_build n fs x :
  free fs → length fs ≤ n → (length fs < n → colon ∉ x) →
  splitn_l (S n) colon (cells fs ++ x) = fs ++ [x].
Proof.
  intros Hfs. revert n. induction Hfs as [|f fs Hf _ IH]; intros n Hl Hx; simpl in Hl.
  - simpl. destruct n as [|n]; [done|]. rewrite (proj2 (split_once_l_None _ _)); [done|].
    apply Hx. simpl. lia.
  - destruct n as [|n]; [lia|]. rewrite cells_cons. cbn [splitn_l].
    rewrite (proj2 (split_once_l_Some colon _ f (cells fs ++ x))) by done.
    assert (splitn_l (S n) colon (cells fs ++ x) = fs ++ [x]) as E
      by (apply IH; [lia|]; intros ?; apply Hx; simpl; lia).
    cbn [splitn_l] in E. by rewrite E.
Qed.

Lemma cells_length fs : length (cells fs) = sum_list_with (λ f, length f + 1) fs.
Proof.
  induction fs as [|f fs IH]; [done|]. unfold cells in *. csimpl. rewrite !length_app, IH. done.
Qed.

(** The text of an entry that has a home, with what follows it. *)
Definition entry_full (text : list ascii) (fs : list (list ascii)) (home tail : list ascii) : Prop :=
  text = cells fs ++ home ++ tail ∧ free fs ∧ colon ∉ home ∧ length fs = 5 ∧
  (tail = [] ∨ ∃ t, tail = colon :: t).

Lemma text_shape text :
  (∃ fs x, text = cells fs ++ x ∧ free fs ∧ colon ∉ x ∧ length fs ≤ 4
    ∧ splitn_l 7 colon text = fs ++ [x]) ∨
  (∃ fs home tail, entry_full text fs home tail ∧
    splitn_l 7 colon text = fs ++ [home] ++ match tail with [] => [] | _ :: t => [t] end).
Proof.
  destruct (splitn_shape 6 text) as (fs & x & E & Hfs & Et & Hl & Hx).
  destruct (decide (length fs ≤ 4)) as [Hs|Hs].
  { left. exists fs, x. repeat split; [done..| |done|done]. apply Hx. lia. }
  right. destruct (decide (length fs = 5)) as [H5|H5].
  - exists fs, x, []. split; [|by rewrite E]. unfold entry_full. rewrite app_nil_r.
    split; [done|]. split; [done|]. split; [apply Hx; lia|]. split; [done|by left].
  - destruct fs as [|home fs _] using rev_ind; [by destruct Hs; simpl; lia|].
    apply Forall_app in Hfs as [Hfs Hh]. apply Forall_cons in Hh as [Hh _].
    rewrite length_app in Hl, Hs, H5. simpl in Hl, Hs, H5. exists fs, home, (colon :: x). split.
    + split; [|split; [exact Hfs|]; split; [exact Hh|]; split; [lia|]; right; by exists x].
      rewrite Et, cells_app, <-(assoc_L (++)). f_equal. unfold cells. simpl.
      by rewrite app_nil_r, <-(assoc_L (++)).
    + by rewrite E, <-(assoc_L (++)).
Qed.

(** *** An entry's home *)

#[local] Arguments splitn_l : simpl never.

Lemma slice_app (pre text post : list ascii) :
  slice (pre ++ text ++ post) (length pre) (length pre + length text) = text.
Proof.
  unfold slice. rewrite drop_app_length. replace (_ - _) with (length text) by lia.
  by rewrite take_app_length.
Qed.

Lemma slice_home pre fs home tail post :
  slice (pre ++ (cells fs ++ home ++ tail) ++ post) (length (pre ++ cells fs))
    (length (pre ++ cells fs) + length home) = home.
Proof.
  rewrite <-(slice_app (pre ++ cells fs) home (tail ++ post)) at 3. by rewrite <-!(assoc_L (++)).
Qed.

Lemma parse_full pre text post fs home tail :
  spaces pre → bare text → spaces post → entry_full text fs home tail →
  parse_passwd_entry (pre ++ text ++ post) =
    Some (mk_passwd_entry (default [] (fs !! 0)) (parse_id (fs !! 2)) (parse_id (fs !! 3))
      (length (pre ++ cells fs), length (pre ++ cells fs) + length home) 0).
Proof.
  intros Hpre Ht Hpost (Et & Hfs & Hh & Hl & Htail). unfold parse_passwd_entry.
  rewrite entry_range_intro by done. simpl. rewrite slice_app.
  assert (∃ rest, splitn_l 7 colon text = fs ++ home :: rest) as [rest E].
  { destruct Htail as [->|[t ->]].
    - exists []. rewrite Et, app_nil_r. apply splitn_build; [done|lia|done].
    - exists [t]. change (home :: [t]) with ([home] ++ [t]). rewrite (assoc_L (++)), Et.
      rewrite <-(splitn_build 6 (fs ++ [home]) t).
      + rewrite cells_app. f_equal. unfold cells at 3. simpl. by rewrite app_nil_r, <-!(assoc_L (++)).
      + apply Forall_app. split; [done|]. by constructor.
      + rewrite length_app. simpl. lia.
      + rewrite length_app. simpl. lia. }
  rewrite E. unfold PASSWD_HOME_FIELD.
  rewrite (lookup_app_r fs (home :: rest) 5), Hl by lia. cbn [lookup list_lookup Nat.sub].
  rewrite take_app_length' by done. rewrite !lookup_app_l by lia.
  destruct fs as [|f fs]; [done|]. rewrite length_app, cells_length. simpl. done.
Qed.

Lemma parse_short pre text post fs x :
  spaces pre → bare text → spaces post → text = cells fs ++ x → free fs → colon ∉ x →
  length fs ≤ 4 →
  parse_passwd_entry (pre ++ text ++ post) =
    Some (mk_passwd_entry (default [] ((fs ++ [x]) !! 0)) (parse_id ((fs ++ [x]) !! 2))
      (parse_id ((fs ++ [x]) !! 3))
      (length (pre ++ text), length (pre ++ text)) (5 - length fs)).
Proof.
  intros Hpre Ht Hpost Et Hfs Hx Hl. unfold parse_passwd_entry.
  rewrite entry_range_intro by done. simpl. rewrite slice_app, Et.
  rewrite splitn_build by (done || lia). rewrite (lookup_ge_None_2 (fs ++ [x]))
    by (rewrite length_app; unfold PASSWD_HOME_FIELD; simpl; lia).
  rewrite <-Et. rewrite !length_app. unfold PASSWD_HOME_FIELD. simpl.
  replace (6 - (length fs + 1)) with (5 - length fs) by lia.
  by destruct fs.
Qed.

(** What a home may be: not empty, within one field of one line, and not lost
    to the trimming of a line it ends. *)
Definition home_ok (home : list ascii) : Prop :=
  colon ∉ home ∧ newline ∉ home ∧ ∃ z, last home = Some z ∧ ascii_space z = false.

Definition line_with_home (line : list ascii) (e : PasswdEntry) (home : list ascii) : list ascii :=
  take (e_home e).1 line ++ replicate (e_separators_needed e) colon ++ home ++ drop (e_home e).2 line.

Lemma bare_extend text text' :
  bare text → (∀ b, head text = Some b → head text' = Some b) →
  (∃ z, last text' = Some z ∧ ascii_space z = false) → bare text'.
Proof.
  intros (b & z & Hb & ? & ? & _) Hh (z' & ? & ?). exists b, z'. by repeat split; auto.
Qed.

Lemma last_app_Some (l k : list ascii) z : last k = Some z → last (l ++ k) = Some z.
Proof. intros H. by rewrite last_app, H. Qed.

Lemma line_with_home_spec line e home :
  parse_passwd_entry line = Some e → home_ok home →
  line_account (line_with_home line e home) = Some (set_home home (entry_account line e)) ∧
  ∃ pre old new post, line = pre ++ old ++ post ∧ line_with_home line e home = pre ++ new ++ post ∧
    bare old ∧ spaces post ∧ ∀ b, b ∈ new → b ∈ old ∨ b = colon ∨ b ∈ home.
Proof.
  intros He (Hc & Hn & z & Hz & Hzs). pose proof He as He'. unfold parse_passwd_entry in He'.
  apply bind_Some in He' as ([i j] & Hr & _).
  apply entry_range_inv in Hr as (pre & text & post & -> & Hpre & Ht & Hpost & _).
  destruct (text_shape text) as [(fs & x & Et & Hfs & Hx & Hl & _)|(fs & old & tail & Hf & _)].
  - rewrite (parse_short pre text post fs x) in He by done. injection He as <-.
    unfold line_with_home, entry_account, line_account. cbn [e_home e_separators_needed fst snd].
    rewrite (assoc_L (++) pre), take_app_length, drop_app_length.
    set (fs' := fs ++ [x] ++ replicate (4 - length fs) []).
    assert (text ++ replicate (5 - length fs) colon = cells fs') as Ec.
    { unfold fs'. rewrite !cells_app, cells_empty, Et, <-(assoc_L (++)). f_equal.
      unfold cells. simpl. rewrite app_nil_r, <-(assoc_L (++)). f_equal.
      by replace (5 - length fs) with (S (4 - length fs)) by lia. }
    assert ((pre ++ text) ++ replicate (5 - length fs) colon ++ home ++ post
      = pre ++ (cells fs' ++ home ++ []) ++ post) as E.
    { by rewrite <-Ec, app_nil_r, <-!(assoc_L (++)). }
    rewrite E. split.
    + rewrite (parse_full pre (cells fs' ++ home ++ []) post fs' home []).
      * cbn [fmap option_fmap option_map]. unfold set_home, entry_account.
        cbn [e_home fst snd e_name e_uid e_gid a_name a_uid a_gid]. rewrite slice_home. do 2 f_equal;
          unfold fs'; by destruct fs as [|? [|? [|? [|? [|]]]]].
      * done.
      * eapply bare_extend; [exact Ht| |].
        -- intros b Hb. rewrite <-Ec. by destruct text.
        -- exists z. split; [|done]. rewrite app_nil_r. by apply last_app_Some.
      * done.
      * repeat split; [|done| |by left].
        -- unfold fs'. apply Forall_app. split; [done|]. constructor; [done|].
           apply Forall_replicate, not_elem_of_nil.
        -- unfold fs'. rewrite !length_app, length_replicate. simpl. lia.
    + exists pre, text, (cells fs' ++ home ++ []), post. rewrite <-(assoc_L (++)).
      split; [done|]. split; [done|]. split; [done|]. split; [done|]. intros b.
      rewrite app_nil_r, <-Ec, !elem_of_app, elem_of_replicate. tauto.
  - rewrite (parse_full pre text post fs old tail) in He by done. injection He as <-.
    destruct Hf as (Et & Hfs & Ho & Hl & Htail).
    unfold line_with_home, entry_account, line_account. cbn [e_home e_separators_needed fst snd].
    assert (pre ++ text ++ post = (pre ++ cells fs) ++ old ++ tail ++ post) as El
      by (by rewrite Et, <-!(assoc_L (++))).
    rewrite El, take_app_length, <-length_app, (assoc_L (++) (pre ++ cells fs) old), drop_app_length.
    assert ((pre ++ cells fs) ++ replicate 0 colon ++ home ++ tail ++ post
      = pre ++ (cells fs ++ home ++ tail) ++ post) as E by (by rewrite <-!(assoc_L (++))).
    rewrite E. split.
    + rewrite (parse_full pre (cells fs ++ home ++ tail) post fs home tail).
      * cbn [fmap option_fmap option_map]. unfold set_home, entry_account. simpl.
        by rewrite slice_home.
      * done.
      * eapply bare_extend; [exact Ht| |].
        -- intros b. rewrite Et. by destruct fs as [|[|? ?] fs]; [simpl in Hl; lia|..].
        -- destruct Htail as [->|[t ->]].
           ++ exists z. split; [|done]. rewrite app_nil_r. by apply last_app_Some.
           ++ destruct Ht as (_ & z' & _ & _ & _ & Hz' & ?). exists z'. split; [|done].
              rewrite Et, (assoc_L (++)), last_app_cons in Hz'.
              by rewrite (assoc_L (++)), last_app_cons.
      * done.
      * by repeat split.
    + exists pre, text, (cells fs ++ home ++ tail), post. rewrite Et, <-!(assoc_L (++)).
      split; [done|]. split; [done|]. split; [by rewrite <-Et|]. split; [done|]. intros b.
      rewrite !elem_of_app. tauto.
Qed.

Lemma e_home_bound line e :
  parse_passwd_entry line = Some e → (e_home e).1 ≤ length line ∧ (e_home e).2 ≤ length line.
Proof.
  intros He. pose proof He as He'. unfold parse_passwd_entry in He'.
  apply bind_Some in He' as ([i j] & Hr & _).
  apply entry_range_inv in Hr as (pre & text & post & -> & Hpre & Ht & Hpost & _).
  destruct (text_shape text) as [(fs & x & Et & Hfs & Hx & Hl & _)|(fs & old & tail & Hf & _)].
  - rewrite (parse_short pre text post fs x) in He by done. injection He as <-. simpl.
    rewrite !length_app. lia.
  - rewrite (parse_full pre text post fs old tail) in He by done. injection He as <-. simpl.
    destruct Hf as (-> & _). rewrite !length_app. lia.
Qed.

(** *** Files *)

Lemma first_entry_from_Some selected position lines p e :
  first_entry_from selected position lines = Some (p, e) →
  ∃ before line after, lines = before ++ line :: after ∧ p = position + length (concat before) ∧
    parse_passwd_entry line = Some e ∧ selected e = true ∧
    ∀ l e', l ∈ before → parse_passwd_entry l = Some e' → selected e' = false.
Proof.
  revert position. induction lines as [|line lines IH]; intros position H; simpl in H; [done|].
  assert (∀ b, parse_passwd_entry line = b → (∀ e', b = Some e' → selected e' = false) →
    first_entry_from selected (position + length line) lines = Some (p, e) →
    ∃ before l after, line :: lines = before ++ l :: after ∧ p = position + length (concat before) ∧
      parse_passwd_entry l = Some e ∧ selected e = true ∧
      ∀ l e', l ∈ before → parse_passwd_entry l = Some e' → selected e' = false) as Hskip.
  { intros b Eb Hb Hf. destruct (IH _ Hf) as (before & l & after & -> & -> & He & Hs & Hn).
    exists (line :: before), l, after. simpl. rewrite length_app, Nat.add_assoc. repeat split; [done..|].
    intros l' e' [->|Hin]%elem_of_cons; [|exact (Hn l' e' Hin)]. rewrite Eb. apply Hb. }
  destruct (parse_passwd_entry line) as [e1|] eqn:E; [|by apply (Hskip None)].
  destruct (selected e1) eqn:Es; [|apply (Hskip (Some e1)); [done| |done]; by intros e' [= <-]].
  injection H as <- <-. exists [], line, lines. simpl. rewrite Nat.add_0_r.
  repeat split; [done..|]. intros l e' []%not_elem_of_nil.
Qed.

Lemma first_entry_from_None selected position lines :
  first_entry_from selected position lines = None →
  ∀ l e, l ∈ lines → parse_passwd_entry l = Some e → selected e = false.
Proof.
  revert position. induction lines as [|line lines IH]; intros position H l e Hin He; simpl in H.
  { by apply not_elem_of_nil in Hin. }
  apply elem_of_cons in Hin as [->|Hin].
  - rewrite He in H. by destruct (selected e).
  - destruct (parse_passwd_entry line) as [e1|]; [destruct (selected e1); [done|]|];
      by eapply IH.
Qed.

Lemma with_passwd_home_concat before line after e home :
  parse_passwd_entry line = Some e →
  with_passwd_home (concat (before ++ line :: after)) (length (concat before)) e home =
  concat (before ++ line_with_home line e home :: after).
Proof.
  intros He. destruct (e_home_bound _ _ He) as [H1 H2]. unfold with_passwd_home, line_with_home.
  rewrite !concat_app. simpl. rewrite take_app_add, drop_app_add.
  rewrite take_app_le, drop_app_le by done. by rewrite <-!(assoc_L (++)).
Qed.

(** A line's newline stays its own when its home is changed. *)
Lemma line_with_home_line line e home :
  parse_passwd_entry line = Some e → home_ok home →
  (full_line line → full_line (line_with_home line e home)) ∧
  (last_line line → last_line (line_with_home line e home)).
Proof.
  intros He Hh. destruct (line_with_home_spec line e home He Hh)
    as (Ha & pre & old & new & post & El & E' & Hb & Hpost & Hnew). rewrite E' in Ha |- *.
  destruct Hh as (_ & Hhn & _).
  assert (newline ∉ old → newline ∉ new) as Hold.
  { intros Ho Hin. destruct (Hnew _ Hin) as [?|[?|?]]; [done| |done]. discriminate. }
  split.
  - intros (body & Eb & Hbody). destruct Hb as (_ & z & _ & _ & _ & [r ->]%last_Some & Hz).
    destruct post as [|p post _] using rev_ind.
    + exfalso. rewrite app_nil_r, (assoc_L (++)) in El. rewrite El in Eb.
      apply app_inj_tail in Eb as [_ ->]. by vm_compute in Hz.
    + rewrite !(assoc_L (++)) in El. rewrite El in Eb. apply app_inj_tail in Eb as [<- ->].
      exists (pre ++ new ++ post). rewrite <-!(assoc_L (++)). split; [done|].
      rewrite !not_elem_of_app in *. destruct Hbody as [[[? ?] ?] ?]. split; [done|].
      split; [|done]. by apply Hold.
  - intros [Hn Hl]. rewrite El, !not_elem_of_app in Hl. destruct Hl as (? & ? & ?).
    split; [|rewrite !not_elem_of_app; auto]. intros E. by rewrite E in Ha.
Qed.

(** *** A new last line *)

Lemma slice_app_le (l k : list ascii) i j : j ≤ length l → slice (l ++ k) i j = slice l i j.
Proof.
  intros Hj. unfold slice. destruct (decide (i ≤ length l)).
  - rewrite drop_app_le, take_app_le; [done| |done]. rewrite length_drop. lia.
  - by replace (j - i) with 0 by lia.
Qed.

Lemma find_text_newline l : find_text (l ++ [newline]) = find_text l.
Proof.
  induction l as [|b l IH]; [done|]. simpl. by rewrite IH.
Qed.

Lemma entry_range_newline l : entry_range (l ++ [newline]) = entry_range l.
Proof.
  unfold entry_range. rewrite find_text_newline, reverse_app. simpl.
  destruct (find_text l) as [[i b]|]; [|done]. simpl.
  destruct (find_text (reverse l)) as [[k z]|]; [|done]. simpl. rewrite length_app. simpl.
  by replace (length l + 1 - S k) with (length l - k) by lia.
Qed.

Lemma line_account_newline l : line_account (l ++ [newline]) = line_account l.
Proof.
  unfold line_account.
  assert (parse_passwd_entry (l ++ [newline]) = parse_passwd_entry l) as E.
  { unfold parse_passwd_entry. rewrite entry_range_newline.
    destruct (entry_range l) as [[i j]|] eqn:Er; [|done]. simpl.
    rewrite slice_app_le; [done|]. apply entry_range_inv in Er as (? & ? & ? & -> & _ & _ & _ & _ & ->).
    rewrite !length_app. lia. }
  rewrite E. destruct (parse_passwd_entry l) as [e|] eqn:Ee; [|done]. simpl. f_equal.
  unfold entry_account. by rewrite slice_app_le by apply (e_home_bound _ _ Ee).
Qed.

Lemma full_lines_ok lines : Forall full_line lines → lines_ok lines.
Proof. induction 1; by constructor. Qed.

Lemma lines_ok_inv lines :
  lines_ok lines → Forall full_line lines ∨
    ∃ before line, lines = before ++ [line] ∧ Forall full_line before ∧ last_line line.
Proof.
  induction 1 as [|line Hl|line lines Hl _ IH]; [by left; constructor|right; by exists [], line|].
  destruct IH as [IH|(before & l & -> & Hb & Hll)]; [left; by constructor|].
  right. exists (line :: before), l. split; [done|]. split; [by constructor|done].
Qed.

Lemma full_last_newline lines :
  Forall full_line lines → concat lines = [] ∨ last (concat lines) = Some newline.
Proof.
  destruct lines as [|line lines _] using rev_ind; [by left|].
  rewrite Forall_app, concat_app. intros [_ H]. apply Forall_cons in H as [(body & -> & _) _].
  right. simpl. rewrite app_nil_r, (assoc_L (++)). apply last_snoc.
Qed.

Lemma accounts_concat lines : lines_ok lines → accounts (concat lines) = omap line_account lines.
Proof. intros H. unfold accounts. by rewrite split_inclusive_concat. Qed.

Lemma with_line_appended_spec file line :
  newline ∉ line →
  accounts (with_line_appended file line) = accounts file ++ omap line_account [line] ∧
  file `prefix_of` with_line_appended file line.
Proof.
  intros Hn. split; [|by eexists]. unfold with_line_appended.
  rewrite <-(concat_split_inclusive file). pose proof (split_inclusive_ok file) as Hok.
  set (lines := split_inclusive file) in *. clearbody lines. clear file.
  assert (full_line (line ++ [newline])) as Hline by (by exists line).
  rewrite (accounts_concat lines) by done.
  destruct (lines_ok_inv _ Hok) as [Hf|(before & l & -> & Hf & Hl & Hln)].
  - rewrite bool_decide_false by (destruct (full_last_newline _ Hf); tauto). simpl.
    assert (concat lines ++ line ++ [newline] = concat (lines ++ [line ++ [newline]])) as ->
      by (rewrite concat_app; simpl; by rewrite app_nil_r).
    rewrite accounts_concat, omap_app; [|apply full_lines_ok, Forall_app; by repeat constructor].
    simpl. by rewrite line_account_newline.
  - rewrite bool_decide_true.
    2:{ rewrite concat_app. simpl. rewrite app_nil_r. split; [by destruct (concat before), l|].
        intros E. destruct l as [|c l _] using rev_ind; [done|].
        rewrite (assoc_L (++)), last_snoc in E. injection E as ->. apply Hln. set_solver. }
    assert (concat (before ++ [l]) ++ [newline] ++ line ++ [newline]
      = concat (before ++ [l ++ [newline]; line ++ [newline]])) as ->.
    { rewrite !concat_app. simpl. by rewrite !app_nil_r, <-!(assoc_L (++)). }
    rewrite accounts_concat, !omap_app.
    + simpl. rewrite !line_account_newline. destruct (line_account l); simpl;
        by rewrite <-?(assoc_L (++)).
    + apply full_lines_ok, Forall_app. split; [done|]. repeat constructor; [by exists l|done].
Qed.

(** What a name may be: not empty, within its field, and not a comment. *)
Definition name_ok (name : list ascii) : Prop :=
  colon ∉ name ∧ newline ∉ name ∧ ∃ b, head name = Some b ∧ ascii_space b = false ∧ b ≠ hash.

Lemma passwd_line_account name uid gid home :
  name_ok (chars name) → (uid ≤ u32_max)%N → (gid ≤ u32_max)%N →
  colon ∉ chars home →
  line_account (chars (passwd_line name uid gid home)) =
    Some (mk_account (chars name) (Some uid) (Some gid) (chars home)).
Proof.
  intros (Hc & Hn & b & Hb & Hbs & Hbh) Hu Hg Hh.
  set (fs := [chars name; ["*"%char]; chars (show_N uid); chars (show_N gid); []]).
  assert (chars (passwd_line name uid gid home)
    = [] ++ (cells fs ++ chars home ++ chars ":/bin/sh") ++ []) as E.
  { unfold passwd_line, fs, cells. rewrite !chars_app. simpl. rewrite !app_nil_r.
    repeat (rewrite <-!(assoc_L (++)); simpl). done. }
  rewrite E. unfold line_account.
  rewrite (parse_full [] _ [] fs (chars home) (chars ":/bin/sh")).
  - cbn [fmap option_fmap option_map]. unfold entry_account. cbn [e_home fst snd e_name e_uid e_gid].
    rewrite slice_home. unfold fs. simpl. unfold parse_id. simpl.
    by rewrite !of_chars_chars, !parse_show_N.
  - constructor.
  - unfold fs. destruct (chars name) as [|b' n] eqn:En; [done|]. injection Hb as ->.
    exists b, "h"%char. split; [done|]. split; [done|]. split; [done|]. split; [|done].
    by apply last_app_Some, last_app_Some.
  - constructor.
  - split; [done|]. split; [|split; [done|split; [done|by right; eexists]]].
    unfold fs, free. repeat constructor; [done| |by apply show_N_not_elem..|].
    + by intros ?%list_elem_of_singleton.
    + apply not_elem_of_nil.
Qed.

Lemma passwd_line_newline name uid gid home :
  name_ok (chars name) → newline ∉ chars home → newline ∉ chars (passwd_line name uid gid home).
Proof.
  intros (_ & Hn & _) Hh. unfold passwd_line. rewrite !chars_app, !not_elem_of_app.
  assert (∀ s, bool_decide (newline ∉ chars s) = true → newline ∉ chars s) as Hs
    by (intros s; apply bool_decide_eq_true_1).
  repeat split; (done || (by apply show_N_not_elem) || (apply Hs; vm_compute; reflexivity)).
Qed.

(** *** The edits *)

Lemma list_find_app_cons {A} (P : A → Prop) `{!∀ x, Decision (P x)} l a k :
  (∀ b, b ∈ l → ¬ P b) → P a → list_find P (l ++ a :: k) = Some (length l, a).
Proof.
  intros Hl Ha. induction l as [|b l IH]; simpl; [by rewrite decide_True|].
  rewrite decide_False by (apply Hl; left). rewrite IH; [done|]. intros c Hc. apply Hl. by right.
Qed.

(** An entry chosen by its name and uid. *)
Definition entry_selected (select : list ascii → option N → bool) (e : PasswdEntry) : bool :=
  select (e_name e) (e_uid e).

Definition account_selected (select : list ascii → option N → bool) (a : account) : Prop :=
  select (a_name a) (a_uid a) = true.
#[local] Instance account_selected_dec select a : Decision (account_selected select a).
Proof. unfold account_selected. apply _. Defined.

Lemma elem_of_line_accounts (lines : list (list ascii)) (a : account) :
  a ∈ omap line_account lines →
  ∃ line e, line ∈ lines ∧ parse_passwd_entry line = Some e ∧ a = entry_account line e.
Proof.
  rewrite list_elem_of_omap. intros (line & Hl & (e & He & ->)%fmap_Some). eauto.
Qed.

Lemma first_passwd_entry_None passwd select :
  first_passwd_entry passwd (entry_selected select) = None →
  list_find (account_selected select) (accounts passwd) = None.
Proof.
  intros H. rewrite list_find_None, Forall_forall.
  intros a (line & e & Hl & He & ->)%elem_of_line_accounts.
  unfold account_selected. simpl.
  pose proof (first_entry_from_None _ _ _ H line e Hl He) as Hs. unfold entry_selected in Hs.
  by rewrite Hs.
Qed.

Lemma with_passwd_home_accounts passwd select p e home :
  first_passwd_entry passwd (entry_selected select) = Some (p, e) → home_ok home →
  ∃ i a, list_find (account_selected select) (accounts passwd) = Some (i, a) ∧
    e_uid e = a_uid a ∧ e_gid e = a_gid a ∧
    accounts (with_passwd_home passwd p e home) = <[i := set_home home a]> (accounts passwd) ∧
    ∃ k, ∀ j, j ≠ k →
      split_inclusive (with_passwd_home passwd p e home) !! j = split_inclusive passwd !! j.
Proof.
  intros H Hh. destruct (first_entry_from_Some _ _ _ _ _ H)
    as (before & line & after & E & -> & He & Hs & Hb).
  pose proof (split_inclusive_ok passwd) as Hok. rewrite E in Hok.
  destruct (line_with_home_line line e home He Hh) as [Hf Hl].
  assert (accounts passwd = omap line_account before ++ entry_account line e :: omap line_account after)
    as Ea.
  { unfold accounts. rewrite E, omap_app. simpl. unfold line_account at 2. by rewrite He. }
  assert (split_inclusive (with_passwd_home passwd (0 + length (concat before)) e home)
    = before ++ line_with_home line e home :: after) as Es.
  { rewrite <-(concat_split_inclusive passwd), E, with_passwd_home_concat by done.
    by eapply split_inclusive_concat, lines_ok_replace. }
  exists (length (omap line_account before)), (entry_account line e). rewrite Ea. split; [|split; [done|split; [done|split]]].
  - apply list_find_app_cons; [|exact Hs].
    intros a (l & e' & Hin & He' & ->)%elem_of_line_accounts Ha. unfold account_selected in Ha.
    simpl in Ha. pose proof (Hb l e' Hin He') as Hb'. unfold entry_selected in Hb'. congruence.
  - unfold accounts. rewrite Es, omap_app, <-(Nat.add_0_r (length (omap line_account before))), insert_app_r.
    simpl. by rewrite (proj1 (line_with_home_spec line e home He Hh)).
  - exists (length before). intros j Hj. rewrite Es, E.
    destruct (decide (j < length before)); [by rewrite !lookup_app_l|].
    rewrite !lookup_app_r by lia. by destruct (j - length before) eqn:Ej; [lia|].
Qed.

Lemma name_ok_root : name_ok (chars "root").
Proof.
  split; [|split; [|by exists "r"%char]]; apply (bool_decide_eq_true_1 _); vm_compute; reflexivity.
Qed.

Lemma name_ok_number n : name_ok (chars (show_N n)).
Proof.
  split; [by apply show_N_not_elem|]. split; [by apply show_N_not_elem|].
  destruct (chars (show_N n)) as [|b l] eqn:E.
  { exfalso. apply (show_N_nonempty n). by rewrite <-(of_chars_chars (show_N n)), E. }
  exists b. split; [done|]. assert (is_ascii_digit b = true) as Hb
    by (apply (show_N_digits n); rewrite E; left).
  split; [|by intros ->]. unfold ascii_space. apply bool_decide_eq_false. intros Hin.
  unfold is_ascii_digit, in_range in Hb. bool_to_prop. rewrite !elem_of_cons, elem_of_nil in Hin. lia.
Qed.

(** *** The running user's home *)

Definition selects_user (user : string) (uid : option N) (name : list ascii) (entry_uid : option N)
    : bool :=
  match uid with
  | Some uid => bool_decide (entry_uid = Some uid)
  | None => bool_decide (name = chars user)
  end.

Lemma configured_uid_bound user uid : configured_uid user = Some uid → (uid ≤ u32_max)%N.
Proof.
  unfold configured_uid. case_bool_decide; [intros [= <-]; by vm_compute|].
  by intros [_ ?]%parse_unsigned_Some.
Qed.

Lemma parsed_gid_bound group : (default 0 (parse_unsigned u32_max group) ≤ u32_max)%N.
Proof.
  destruct (parse_unsigned u32_max group) eqn:E; [|by vm_compute].
  by apply parse_unsigned_Some in E as [_ ?].
Qed.

(** Giving the running user a home changes that one account and nothing
    else.  Read as the accounts on its lines, the edited file is the image's
    with the first account of the configured user (by uid when the text is
    one, by name otherwise) given the home, every other line kept byte for
    byte; or, for a uid with no account, the image's file as it was with a
    well-formed account appended; or, for a name with none, the file
    unchanged.  The owner reported is that account's, an id it lacks being 0
    and a numeric configured group winning. *)
Theorem edit_passwd_home_spec passwd configured_user home :
  home_ok (chars home) →
  let '(user, group) := split_configured_user configured_user in
  let uid := configured_uid user in
  let gid := parse_unsigned u32_max group in
  let edit := edit_passwd_home passwd configured_user home in
  match list_find (account_selected (selects_user user uid)) (accounts passwd), uid with
  | Some (i, a), _ =>
      accounts (pe_contents edit) = <[i := set_home (chars home) a]> (accounts passwd) ∧
      pe_home_owner edit =
        Some (mk_owner (default 0 (a_uid a)) (default 0 (or_else gid (a_gid a))))%N ∧
      ∃ k, ∀ j, j ≠ k →
        split_inclusive (pe_contents edit) !! j = split_inclusive passwd !! j
  | None, Some uid =>
      accounts (pe_contents edit) = accounts passwd ++
        [mk_account (chars (if (uid =? 0)%N then "root" else show_N uid)) (Some uid)
          (Some (default 0%N gid)) (chars home)] ∧
      pe_home_owner edit = Some (mk_owner uid (default 0%N gid)) ∧
      passwd `prefix_of` pe_contents edit
  | None, None => pe_contents edit = passwd ∧ pe_home_owner edit = None
  end.
Proof.
  intros Hh. unfold edit_passwd_home.
  destruct (split_configured_user configured_user) as [user group]. cbv zeta.
  change (user_selected user (configured_uid user))
    with (entry_selected (selects_user user (configured_uid user))).
  destruct (first_passwd_entry _ _) as [[p e]|] eqn:E.
  - destruct (with_passwd_home_accounts _ _ _ _ _ E Hh) as (i & a & -> & Eu & Eg & Ea & Ek).
    simpl. by rewrite Eu, Eg.
  - rewrite (first_passwd_entry_None _ _ E). destruct (configured_uid user) as [uid|] eqn:Eu; [|done].
    simpl. destruct Hh as (Hc & Hn & _).
    set (name := if (uid =? 0)%N then "root" else show_N uid).
    assert (name_ok (chars name)) as Hname
      by (unfold name; destruct (uid =? 0)%N; [apply name_ok_root|apply name_ok_number]).
    unfold with_passwd_entry_appended.
    destruct (with_line_appended_spec passwd
      (chars (passwd_line name uid (default 0%N (parse_unsigned u32_max group)) home))) as [Ea Hp].
    { by apply passwd_line_newline. }
    rewrite Ea. simpl. rewrite passwd_line_account;
      [done|done|by eapply configured_uid_bound|apply parsed_gid_bound|done].
Qed.

(** *** The host user and the additional users *)

Definition resolve_uid (uid : N) (accs : list account) : option account :=
  snd <$> list_find (λ a, a_uid a = Some uid) accs.
Definition resolve_name (name : list ascii) (accs : list account) : option account :=
  snd <$> list_find (λ a, a_name a = name) accs.

Definition user_account (user : AdditionalUser) : account :=
  mk_account (chars (au_name user)) (Some (au_uid user)) (Some (au_gid user)) (chars "/nonexistent").

Definition user_ok (user : AdditionalUser) : Prop :=
  name_ok (chars (au_name user)) ∧ (au_uid user ≤ u32_max)%N ∧ (au_gid user ≤ u32_max)%N.

Lemma find_app {A} (P : A → Prop) `{!∀ x, Decision (P x)} l k :
  snd <$> list_find P (l ++ k) =
  match snd <$> list_find P l with Some a => Some a | None => snd <$> list_find P k end.
Proof.
  induction l as [|a l IH]; simpl; [done|]. destruct (decide (P a)); [done|].
  destruct (list_find P (l ++ k)) as [[]|], (list_find P l) as [[]|]; done.
Qed.

Lemma find_insert {A} (P : A → Prop) `{!∀ x, Decision (P x)} l i a b :
  l !! i = Some a → (P a ↔ P b) →
  snd <$> list_find P (<[i := b]> l) =
  match list_find P l with
  | Some (j, c) => Some (if decide (i = j) then b else c)
  | None => None
  end.
Proof.
  revert i. induction l as [|c l IH]; intros i Hi Hab; [done|]. destruct i as [|i]; simpl in *.
  - injection Hi as ->. destruct (decide (P a)), (decide (P b)); [done|tauto|tauto|].
    by destruct (list_find P l) as [[]|].
  - destruct (decide (P c)); [done|]. specialize (IH i Hi Hab).
    destruct (list_find P (<[i:=b]> l)) as [[]|], (list_find P l) as [[j c']|]; simpl in *;
      simplify_eq; [|done]. f_equal. by destruct (decide (i = j)), (decide (S i = S j)); simplify_eq.
Qed.

(** The file after the host user's edit, as accounts. *)
Lemma edit_passwd_for_host_user_accounts passwd user home :
  home_ok (chars home) → name_ok (chars (cu_username user)) →
  (cu_uid user ≤ u32_max)%N → (cu_gid user ≤ u32_max)%N →
  let edited := accounts (edit_passwd_for_host_user passwd user home) in
  (∃ a, resolve_uid (cu_uid user) edited = Some a ∧ a_home a = chars home ∧
    ∀ b, resolve_uid (cu_uid user) (accounts passwd) = Some b → a = set_home (chars home) b) ∧
  ∀ uid b, uid ≠ cu_uid user → resolve_uid uid (accounts passwd) = Some b → resolve_uid uid edited = Some b.
Proof.
  intros Hh Hname Hu Hg. cbv zeta. unfold edit_passwd_for_host_user.
  set (select := λ (_ : list ascii) (uid : option N), bool_decide (uid = Some (cu_uid user))).
  change (λ entry, bool_decide (e_uid entry = Some (cu_uid user))) with (entry_selected select).
  assert (∀ accs, list_find (account_selected select) accs = list_find (λ a, a_uid a = Some (cu_uid user)) accs) as Hsel.
  { intros accs. induction accs as [|a accs IH]; [done|]. simpl. rewrite IH.
    destruct (decide (account_selected select a)) as [Ha|Ha], (decide (a_uid a = Some (cu_uid user)));
      [done|..|done]; unfold account_selected, select in Ha; by rewrite bool_decide_eq_true in Ha. }
  destruct (first_passwd_entry _ (entry_selected select)) as [[p e]|] eqn:E.
  - destruct (with_passwd_home_accounts _ _ _ _ _ E Hh) as (i & a & Ef & _ & _ & Ea & _).
    rewrite Hsel in Ef. rewrite Ea. pose proof Ef as Hi. apply list_find_Some in Hi as (Hi & Hau & _).
    unfold resolve_uid. split.
    + exists (set_home (chars home) a).
      rewrite (find_insert (λ a, a_uid a = Some (cu_uid user)) (accounts passwd) i a) by done.
      rewrite Ef, decide_True by done. split; [done|]. split; [done|]. by intros b [= <-].
    + intros uid b Hne Hb.
      rewrite (find_insert (λ a, a_uid a = Some uid) (accounts passwd) i a) by done.
      destruct (list_find (λ a, a_uid a = Some uid) (accounts passwd)) as [[j c]|] eqn:Ej; [|done].
      simpl in Hb. rewrite decide_False; [done|]. intros ->.
      apply list_find_Some in Ej as (Ej & Ec & _). congruence.
  - pose proof (first_passwd_entry_None _ _ E) as En. rewrite Hsel in En.
    set (name := if bool_decide _ then show_N (cu_uid user) else cu_username user).
    assert (name_ok (chars name)) as Hn
      by (unfold name; case_bool_decide; [apply name_ok_number|done]).
    unfold with_passwd_entry_appended. destruct Hh as (Hc & Hnl & _).
    destruct (with_line_appended_spec passwd (chars (passwd_line name (cu_uid user) (cu_gid user) home)))
      as [Ea _]; [by apply passwd_line_newline|].
    rewrite Ea. cbn [omap list_omap]. rewrite passwd_line_account by done.
    unfold resolve_uid. split.
    + eexists. rewrite find_app, En. simpl. rewrite decide_True by done. split; [done|]. split; [done|].
      by intros b.
    + intros uid b _ Hb. by rewrite find_app, Hb.
Qed.

Lemma add_users_accounts edited users contents :
  Forall user_ok users →
  match try_fold (add_user edited) users contents with
  | Ok contents' =>
      accounts contents' = accounts contents ++ (user_account <$> users) ∧
      ∀ u, u ∈ users → resolve_uid (au_uid u) (accounts edited) = None ∧
        resolve_name (chars (au_name u)) (accounts edited) = None
  | Err _ => ∃ u a, u ∈ users ∧ a ∈ accounts edited ∧
      (a_uid a = Some (au_uid u) ∨ a_name a = chars (au_name u))
  end.
Proof.
  intros Hok. revert contents. induction Hok as [|u users (Hn & Hu & Hg) _ IH]; intros contents; simpl.
  { split; [by rewrite app_nil_r|]. by intros u []%not_elem_of_nil. }
  unfold add_user at 1.
  set (by_uid := λ (_ : list ascii) (uid : option N), bool_decide (uid = Some (au_uid u))).
  set (by_name := λ (name : list ascii) (_ : option N), bool_decide (name = chars (au_name u))).
  change (λ entry, bool_decide (e_uid entry = Some (au_uid u))) with (entry_selected by_uid).
  change (λ entry, bool_decide (e_name entry = chars (au_name u))) with (entry_selected by_name).
  destruct (first_passwd_entry edited (entry_selected by_uid)) as [[p e]|] eqn:Eu; simpl.
  { destruct (first_entry_from_Some _ _ _ _ _ Eu) as (before & line & after & E & _ & He & Hs & _).
    exists u, (entry_account line e). split; [by left|]. split.
    - unfold accounts. rewrite E. apply list_elem_of_omap. exists line. split; [set_solver|].
      unfold line_account. by rewrite He.
    - left. by apply bool_decide_eq_true in Hs. }
  destruct (first_passwd_entry edited (entry_selected by_name)) as [[p e]|] eqn:En; simpl.
  { destruct (first_entry_from_Some _ _ _ _ _ En) as (before & line & after & E & _ & He & Hs & _).
    exists u, (entry_account line e). split; [by left|]. split.
    - unfold accounts. rewrite E. apply list_elem_of_omap. exists line. split; [set_solver|].
      unfold line_account. by rewrite He.
    - right. by apply bool_decide_eq_true in Hs. }
  specialize (IH (with_passwd_entry_appended contents (au_name u) (au_uid u) (au_gid u) "/nonexistent")).
  destruct (try_fold _ users _) as [contents'|e].
  - destruct IH as [Ea Hall]. split.
    + rewrite Ea. unfold with_passwd_entry_appended.
      destruct (with_line_appended_spec contents
        (chars (passwd_line (au_name u) (au_uid u) (au_gid u) "/nonexistent"))) as [Eb _].
      { apply passwd_line_newline; [done|]. apply (bool_decide_eq_true_1 _). vm_compute. reflexivity. }
      rewrite Eb. cbn [omap list_omap]. rewrite passwd_line_account; [|done..|].
      * by rewrite <-(assoc_L (++)).
      * apply (bool_decide_eq_true_1 _). vm_compute. reflexivity.
    + intros v [->|Hv]%elem_of_cons; [|by apply Hall]. split.
      * apply first_passwd_entry_None in Eu. unfold resolve_uid. rewrite fmap_None, list_find_None.
        rewrite list_find_None in Eu. eapply Forall_weaken; [exact Eu|]. intros a Ha Hau. apply Ha.
        by apply bool_decide_eq_true.
      * apply first_passwd_entry_None in En. unfold resolve_name. rewrite fmap_None, list_find_None.
        rewrite list_find_None in En. eapply Forall_weaken; [exact En|]. intros a Ha Han. apply Ha.
        by apply bool_decide_eq_true.
  - destruct IH as (v & a & Hv & Ha & Hc). exists v, a. split; [by right|done].
Qed.

Lemma resolve_users users u :
  NoDup (au_uid <$> users) → NoDup (au_name <$> users) → u ∈ users →
  resolve_uid (au_uid u) (user_account <$> users) = Some (user_account u) ∧
  resolve_name (chars (au_name u)) (user_account <$> users) = Some (user_account u).
Proof.
  unfold resolve_uid, resolve_name. induction users as [|v users IH]; intros Hu Hn Hin.
  { by apply not_elem_of_nil in Hin. }
  csimpl in Hu. csimpl in Hn. csimpl.
  apply NoDup_cons in Hu as [Hu Hus]. apply NoDup_cons in Hn as [Hn Hns].
  apply elem_of_cons in Hin as [->|Hin]; [by rewrite !decide_True|].
  destruct (IH Hus Hns Hin) as [IH1 IH2]. rewrite !decide_False.
  - destruct (list_find (λ a, a_uid a = _) _) as [[]|], (list_find (λ a, a_name a = _) _) as [[]|];
      done.
  - intros E. apply (f_equal of_chars) in E. rewrite !of_chars_chars in E. apply Hn. rewrite E. apply list_elem_of_fmap. by exists u.
  - intros [= E]. apply Hu. rewrite E. apply list_elem_of_fmap. by exists u.
Qed.

(** Adopting the host user makes the image's [/etc/passwd] agree with it.
    In the file a container gets, the host user's uid resolves to an account
    with the home asked for (the image's own first account of that uid, its
    name and gid kept, when it has one); each additional user's uid and name
    resolve to that user; and every other uid the image resolved resolves to
    the same account.  The file is refused exactly when an additional user's
    uid or name is one the image's file, with the host user in it, already
    has. *)
Theorem adopt_host_user_spec passwd user home users :
  home_ok (chars home) → name_ok (chars (cu_username user)) →
  (cu_uid user ≤ u32_max)%N → (cu_gid user ≤ u32_max)%N →
  Forall user_ok users → NoDup (au_uid <$> users) → NoDup (au_name <$> users) →
  let edited := edit_passwd_for_host_user passwd user home in
  match with_additional_users edited users with
  | Ok contents =>
      (∃ a, resolve_uid (cu_uid user) (accounts contents) = Some a ∧ a_home a = chars home ∧
        ∀ b, resolve_uid (cu_uid user) (accounts passwd) = Some b → a = set_home (chars home) b) ∧
      (∀ u, u ∈ users → resolve_uid (au_uid u) (accounts contents) = Some (user_account u) ∧
        resolve_name (chars (au_name u)) (accounts contents) = Some (user_account u)) ∧
      ∀ uid b, uid ≠ cu_uid user → resolve_uid uid (accounts passwd) = Some b →
        resolve_uid uid (accounts contents) = Some b
  | Err _ => ∃ u a, u ∈ users ∧ a ∈ accounts edited ∧
      (a_uid a = Some (au_uid u) ∨ a_name a = chars (au_name u))
  end.
Proof.
  intros Hh Hn Hu Hg Hok Huids Hnames. cbv zeta.
  destruct (edit_passwd_for_host_user_accounts passwd user home Hh Hn Hu Hg)
    as [(a & Ha & Hah & Hab) Hothers].
  unfold with_additional_users. set (edited := edit_passwd_for_host_user passwd user home) in *.
  pose proof (add_users_accounts edited users edited Hok) as H.
  destruct (try_fold _ _ _) as [contents|e]; [|done]. destruct H as [Ec Hnone]. rewrite Ec.
  unfold resolve_uid, resolve_name in *. setoid_rewrite find_app. split; [|split].
  - exists a. by rewrite Ha.
  - intros u Hin. destruct (Hnone u Hin) as [-> ->]. by apply resolve_users.
  - intros uid b Hne Hb. by rewrite (Hothers uid b Hne Hb).
Qed.


