(* ===== verification/Labels.v ===== *)
(** * Labels: what Ratect writes on everything it creates

    [ratect-core/src/labels.rs] and [resource_names.rs]: the ownership labels
    of a run's containers and network, and the names they are created under.
    The random bytes a name's suffix is drawn from are given. *)

From S2P Require Import Prelude Text.
From stdpp Require Import options.

(** ** Labels *)

Definition NAMESPACE : string := "eu.orican.ratect".
Definition PROJECT : string := "eu.orican.ratect.project".
Definition TASK : string := "eu.orican.ratect.task".
Definition RUN : string := "eu.orican.ratect.run".
Definition CONTAINER : string := "eu.orican.ratect.container".
Definition ROLE : string := "eu.orican.ratect.role".
Definition VERSION : string := "eu.orican.ratect.version".

Definition ALL : list string := [PROJECT; TASK; RUN; CONTAINER; ROLE; VERSION].

Inductive ContainerRole := TaskRole | DependencyRole.
#[global] Instance ContainerRole_eq_dec : EqDecision ContainerRole.
Proof. solve_decision. Defined.

Definition role_as_str (r : ContainerRole) : string :=
  match r with TaskRole => "task" | DependencyRole => "dependency" end.

Record RunLabels := mk_run_labels {
  rl_project : string;
  rl_task : string;
  rl_run_id : string;
  rl_version : option string;
}.

Definition shared_labels (l : RunLabels) : gmap string string :=
  let labels := list_to_map [(PROJECT, rl_project l); (TASK, rl_task l); (RUN, rl_run_id l)] in
  match rl_version l with
  | Some version => <[VERSION := version]> labels
  | None => labels
  end.

Definition for_network (l : RunLabels) : gmap string string := shared_labels l.

Definition for_container (l : RunLabels) (container : string) (role : ContainerRole)
    (configured : option (gmap string string)) : gmap string string :=
  <[ROLE := role_as_str role]> (<[CONTAINER := container]>
    (shared_labels l ∪ default ∅ configured)).

(** What a run writes under its own keys; a version is written when there is one. *)
Definition own_label (l : RunLabels) (container : string) (role : ContainerRole) (key : string)
    : option string :=
  if decide (key = PROJECT) then Some (rl_project l)
  else if decide (key = TASK) then Some (rl_task l)
  else if decide (key = RUN) then Some (rl_run_id l)
  else if decide (key = CONTAINER) then Some container
  else if decide (key = ROLE) then Some (role_as_str role)
  else if decide (key = VERSION) then rl_version l
  else None.

Lemma shared_labels_lookup l key :
  shared_labels l !! key =
    if decide (key = PROJECT) then Some (rl_project l)
    else if decide (key = TASK) then Some (rl_task l)
    else if decide (key = RUN) then Some (rl_run_id l)
    else if decide (key = VERSION) then rl_version l
    else None.
Proof.
  unfold shared_labels. destruct (rl_version l) as [v|]; cbn [list_to_map foldr uncurry fst snd];
    rewrite !lookup_insert, lookup_empty; repeat case_decide; subst; done.
Qed.

(** Ratect's own keys win; every other label is the configured one. *)
Lemma for_container_lookup l container role configured key :
  for_container l container role configured !! key =
    match own_label l container role key with
    | Some v => Some v
    | None => configured ≫= lookup key
    end.
Proof.
  unfold for_container, own_label. rewrite !lookup_insert, lookup_union, shared_labels_lookup.
  assert ((default ∅ configured : gmap string string) !! key = configured ≫= lookup key) as ->
    by (destruct configured; simpl; [done|apply lookup_empty]).
  repeat case_decide; subst; try done; try by rewrite union_Some_l.
  - destruct (rl_version l); [by rewrite union_Some_l|by rewrite (left_id_L None (∪))].
  - by rewrite (left_id_L None (∪)).
Qed.

(** ** Names *)

Definition ALPHABET : list ascii := chars "abcdefghijklmnopqrstuvwxyz0123456789".
Definition LIMIT : N := (255 / 36) * 36.

(** One [Uuid]: bytes 6 and 8 and those that would favour a char are skipped. *)
Definition push_byte (suffix : list ascii) (p : nat * N) : list ascii :=
  let '(index, byte) := p in
  if negb (index =? 6) && negb (index =? 8) && (byte <? LIMIT)%N && (length suffix <? 6)
  then suffix ++ [nth (N.to_nat (byte mod 36)) ALPHABET "a"%char] else suffix.

Definition push_uuid (suffix : list ascii) (bytes : list N) : list ascii :=
  foldl push_byte suffix (zip (seq 0 (length bytes)) bytes).

(** The loop over the [uuids] drawn; [None] asks for another one. *)
Fixpoint generate_suffix (suffix : list ascii) (uuids : list (list N)) : option string :=
  if length suffix <? 6 then
    match uuids with
    | [] => None
    | bytes :: uuids => generate_suffix (push_uuid suffix bytes) uuids
    end
  else Some (of_chars suffix).

Record ResourceNames := mk_resource_names { rn_project : string; rn_suffix : string }.

Definition resource_name (n : ResourceNames) (part : string) : string :=
  rn_project n +:+ "-" +:+ part +:+ "-" +:+ rn_suffix n.
Definition container_name (n : ResourceNames) (container : string) : string := resource_name n container.
Definition network_name (n : ResourceNames) : string := resource_name n "network".

Lemma push_byte_ok suffix p :
  length suffix ≤ 6 → Forall (.∈ ALPHABET) suffix →
  length (push_byte suffix p) ≤ 6 ∧ Forall (.∈ ALPHABET) (push_byte suffix p).
Proof.
  intros Hl Hs. destruct p as [index byte]. unfold push_byte. case_match; [|done]. bool_to_prop.
  rewrite length_app. split; [simpl; lia|]. apply Forall_app. split; [done|].
  apply Forall_singleton, list_elem_of_In, nth_In. change (length ALPHABET) with 36.
  pose proof (N.mod_lt byte 36). lia.
Qed.

Lemma push_uuid_ok bytes suffix :
  length suffix ≤ 6 → Forall (.∈ ALPHABET) suffix →
  length (push_uuid suffix bytes) ≤ 6 ∧ Forall (.∈ ALPHABET) (push_uuid suffix bytes).
Proof.
  unfold push_uuid. generalize (zip (seq 0 (length bytes)) bytes). intros l.
  revert suffix. induction l as [|p l IH]; intros suffix Hl Hs; [done|].
  simpl. apply IH; by apply push_byte_ok.
Qed.

(** A suffix is six chars of the alphabet. *)
Lemma generate_suffix_ok uuids suffix s :
  length suffix ≤ 6 → Forall (.∈ ALPHABET) suffix → generate_suffix suffix uuids = Some s →
  length (chars s) = 6 ∧ Forall (.∈ ALPHABET) (chars s).
Proof.
  revert suffix. induction uuids as [|bytes uuids IH]; intros suffix Hl Hs; simpl;
    destruct (length suffix <? 6) eqn:E; try done; bool_to_prop.
  - intros [= <-]. rewrite chars_of_chars. split; [lia|done].
  - intros H. by eapply (IH (push_uuid suffix bytes)); [apply push_uuid_ok|apply push_uuid_ok|].
  - intros [= <-]. rewrite chars_of_chars. split; [lia|done].
Qed.
