(* ===== verification/Resources.v ===== *)
(** * Resources: what previous runs left behind, and how it is removed

    [find] and [remove] of [ratect-core/src/resources.rs] against an interface
    of the daemon's inventory, whose laws are what the daemon documents of
    listing and removing.  A failing daemon, and one that lists more than it was
    asked for, are values of the interface too. *)

From S2P Require Import Prelude Text Labels.
From stdpp Require Import options.

(** ** The code *)

Record LabelledResource := mk_resource {
  lr_id : string;
  lr_name : string;
  lr_labels : gmap string string;
  lr_created : option Z;
  lr_state : option string;
}.

Definition filters := list (string * option string).

(** The daemon: its state, and what each request answers and leaves. *)
Class ResourceInventory (D E : Type) := {
  list_containers : D → filters → result (list LabelledResource) E;
  list_networks : D → filters → result (list LabelledResource) E;
  remove_network : D → string → D * result () E;
  stop_and_remove_container : D → string → option string → option N → D * result () E;
}.

Record Leftover := mk_leftover {
  lo_resource : LabelledResource;
  lo_task : string;
  lo_run : string;
  lo_age_seconds : Z;
  lo_is_network : bool;
}.

Definition is_network (r : LabelledResource) : bool :=
  match lr_state r with None => true | Some _ => false end.

Definition leftover_new (r : LabelledResource) (now : Z) : Leftover :=
  let label key := default "unknown" (lr_labels r !! key) in
  mk_leftover r (label TASK) (label RUN)
    (match lr_created r with Some created => i64_wrap (now - created) | None => 0%Z end)
    (is_network r).

Definition describe (l : Leftover) : string :=
  if lo_is_network l then "network " +:+ lr_name (lo_resource l)
  else
    let container := default (lr_name (lo_resource l)) (lr_labels (lo_resource l) !! CONTAINER) in
    match lr_state (lo_resource l) with
    | Some state => "container " +:+ container +:+ " (" +:+ state +:+ ")"
    | None => "container " +:+ container
    end.

Section code.
Context {D E : Type} `{!ResourceInventory D E}.

Definition old_enough (older_than : option N) (l : Leftover) : bool :=
  match older_than with
  | Some older_than => (i64_wrap (Z.of_N (as_secs older_than)) <=? lo_age_seconds l)%Z
  | None => true
  end.

Definition find (docker : D) (project : option string) (older_than : option N) (now : Z)
    : result (list Leftover) E :=
  let filters := [(PROJECT, project)] in
  let? containers := list_containers docker filters in
  let? networks := list_networks docker filters in
  Ok (filter (λ l, old_enough older_than l = true)
        ((λ r, leftover_new r now) <$>
          filter (λ r, is_Some (lr_labels r !! PROJECT)) (containers ++ networks))).

(** One round of the loop; [progress] is the log of what it was called with. *)
Definition remove_one (st : D * nat * list (Leftover * result () E)) (l : Leftover)
    : D * nat * list (Leftover * result () E) :=
  let '(docker, removed, progress) := st in
  let '(docker, result) :=
    if lo_is_network l then remove_network docker (lr_id (lo_resource l))
    else stop_and_remove_container docker (lr_id (lo_resource l)) None None in
  (docker, if is_ok result then S removed else removed, progress ++ [(l, result)]).

Definition remove (docker : D) (leftovers : list Leftover)
    : D * nat * list (Leftover * result () E) :=
  let networks := filter (λ l, lo_is_network l = true) leftovers in
  let containers := filter (λ l, lo_is_network l = false) leftovers in
  foldl remove_one (docker, 0, []) (containers ++ networks).
End code.

(** ** What is assumed of the daemon *)

Definition carries (r : LabelledResource) (f : string * option string) : Prop :=
  match f with
  | (key, Some value) => lr_labels r !! key = Some value
  | (key, None) => is_Some (lr_labels r !! key)
  end.

(** [same r id network]: the resource a removal names, a container and a
    network being named apart. *)
Definition named (r : LabelledResource) (id : string) (network : bool) : Prop :=
  lr_id r = id ∧ is_network r = network.

Class InventoryLaws (D E : Type) `{!ResourceInventory D E} := {
  resources : D → list LabelledResource;
  containers_listed : ∀ d fs l, list_containers d fs = Ok l →
    ∀ r, r ∈ l ↔ r ∈ resources d ∧ is_network r = false ∧ Forall (carries r) fs;
  networks_listed : ∀ d fs l, list_networks d fs = Ok l →
    ∀ r, r ∈ l ↔ r ∈ resources d ∧ is_network r = true ∧ Forall (carries r) fs;
  ids_unique : ∀ d r r', r ∈ resources d → r' ∈ resources d →
    lr_id r = lr_id r' → is_network r = is_network r' → r = r';
  network_removed : ∀ d id d' res, remove_network d id = (d', res) →
    (∀ r, r ∈ resources d' → r ∈ resources d) ∧
    (∀ r, r ∈ resources d → ¬ named r id true → r ∈ resources d') ∧
    (res = Ok tt → ∀ r, r ∈ resources d' → ¬ named r id true);
  container_removed : ∀ d id signal period d' res,
    stop_and_remove_container d id signal period = (d', res) →
    (∀ r, r ∈ resources d' → r ∈ resources d) ∧
    (∀ r, r ∈ resources d → ¬ named r id false → r ∈ resources d') ∧
    (res = Ok tt → ∀ r, r ∈ resources d' → ¬ named r id false);
}.

(** ** Lemmas *)

Section laws.
Context {D E : Type} `{!ResourceInventory D E}.

(** The loop calls [progress] once for each leftover, in order. *)
Lemma remove_loop_progress (l : list Leftover) (d : D) n (log : list (Leftover * result () E)) :
  let '(d', n', log') := foldl remove_one (d, n, log) l in
  log'.*1 = log.*1 ++ l ∧
  n' + length (filter (λ p, is_ok p.2 = true) log) = n + length (filter (λ p, is_ok p.2 = true) log').
Proof.
  revert d n log. induction l as [|x l IH]; intros d n log; simpl; [by rewrite app_nil_r|].
  destruct (if lo_is_network x then _ else _) as [d1 res].
  specialize (IH d1 (if is_ok res then S n else n) (log ++ [(x, res)])).
  destruct (foldl remove_one _ l) as [[d' n'] log'] eqn:Hf. destruct IH as [Hlog Hn].
  split; [by rewrite Hlog, fmap_app, <-app_assoc|].
  rewrite filter_app, length_app in Hn.
  destruct (is_ok res) eqn:Hok.
  - rewrite filter_cons_True in Hn by done. simpl in Hn. lia.
  - rewrite filter_cons_False in Hn by (simpl; congruence). simpl in Hn. lia.
Qed.

Context `{!InventoryLaws D E}.

Definition target (l : Leftover) (r : LabelledResource) : Prop :=
  named r (lr_id (lo_resource l)) (lo_is_network l).

Lemma remove_one_resources d n log l d' n' (log' : list (Leftover * result () E)) :
  remove_one (d, n, log) l = (d', n', log') →
  ∃ res, log' = log ++ [(l, res)] ∧
    (∀ r, r ∈ resources d' → r ∈ resources d) ∧
    (∀ r, r ∈ resources d → ¬ target l r → r ∈ resources d') ∧
    (res = Ok tt → ∀ r, r ∈ resources d' → ¬ target l r).
Proof.
  unfold remove_one, target. destruct (lo_is_network l).
  - destruct (remove_network d _) as [d1 res] eqn:E1. intros [= <- _ <-].
    exists res. split; [done|]. by apply network_removed.
  - destruct (stop_and_remove_container d _ _ _) as [d1 res] eqn:E1. intros [= <- _ <-].
    exists res. split; [done|]. by eapply container_removed.
Qed.

Lemma remove_loop_resources (l : list Leftover) d n (log : list (Leftover * result () E)) :
  let '(d', _, log') := foldl remove_one (d, n, log) l in
  ∃ tail, log' = log ++ tail ∧
    (∀ r, r ∈ resources d' → r ∈ resources d) ∧
    (∀ r, r ∈ resources d → (∀ x, x ∈ l → ¬ target x r) → r ∈ resources d') ∧
    (∀ x, (x, Ok tt) ∈ tail → ∀ r, r ∈ resources d' → ¬ target x r).
Proof.
  revert d n log. induction l as [|x l IH]; intros d n log; cbn [foldl].
  { exists []. rewrite app_nil_r. split; [done|]. split; [done|]. split; [done|].
    by intros ? ?%not_elem_of_nil. }
  destruct (remove_one (d, n, log) x) as [[d1 n1] log1] eqn:H1.
  apply remove_one_resources in H1 as (res & -> & Hsub1 & Hkeep1 & Hgone1).
  specialize (IH d1 n1 (log ++ [(x, res)])).
  destruct (foldl remove_one _ l) as [[d' n'] log']. destruct IH as (tail & -> & Hsub & Hkeep & Hgone).
  exists ((x, res) :: tail). split; [by rewrite <-app_assoc|]. split; [by auto|]. split.
  - intros r Hr Hno. apply Hkeep; [apply Hkeep1; [done|apply Hno; by left]|].
    intros y Hy. apply Hno. by right.
  - intros y [[= -> <-]|Hy]%elem_of_cons r Hr; [|by eapply Hgone]. by apply Hgone1; [|apply Hsub].
Qed.

Lemma leftover_found d project older_than now ls :
  find d project older_than now = Ok ls →
  ∀ l, l ∈ ls ↔ ∃ r, r ∈ resources d ∧ is_Some (lr_labels r !! PROJECT) ∧ carries r (PROJECT, project) ∧
    l = leftover_new r now ∧ old_enough older_than l = true.
Proof.
  unfold find. intros H. apply result_bind_Ok in H as (cs & Hcs & H).
  apply result_bind_Ok in H as (ns & Hns & H). injection H as <-. intros l.
  rewrite list_elem_of_filter, list_elem_of_fmap. setoid_rewrite list_elem_of_filter.
  setoid_rewrite elem_of_app. setoid_rewrite (containers_listed d _ cs Hcs).
  setoid_rewrite (networks_listed d _ ns Hns). setoid_rewrite Forall_singleton.
  split.
  - intros (Hold & r & -> & Hp & Hr). exists r. naive_solver.
  - intros (r & Hr & Hp & Hc & -> & Hold). split; [done|]. exists r. split; [done|]. split; [done|].
    destruct (is_network r) eqn:Hn; naive_solver.
Qed.
End laws.

(** ** Properties *)

(** A resource [find] is asked for: the project's, and as old as asked. *)
Definition wanted (project : option string) (older_than : option N) (now : Z) (r : LabelledResource)
    : Prop :=
  is_Some (lr_labels r !! PROJECT) ∧ carries r (PROJECT, project) ∧
  match older_than with
  | Some older_than => (Z.of_N (as_secs older_than) ≤ now - default now (lr_created r))%Z
  | None => True
  end.

Definition times_fit (older_than : option N) (now : Z) (r : LabelledResource) : Prop :=
  (- 2 ^ 63 ≤ now - default now (lr_created r) < 2 ^ 63)%Z ∧
  match older_than with Some older_than => (Z.of_N (as_secs older_than) < 2 ^ 63)%Z | None => True end.

Lemma old_enough_wanted older_than now r :
  times_fit older_than now r →
  old_enough older_than (leftover_new r now) = true ↔
    match older_than with
    | Some older_than => (Z.of_N (as_secs older_than) ≤ now - default now (lr_created r))%Z
    | None => True
    end.
Proof.
  intros [Hnow Hold]. unfold old_enough. destruct older_than as [o|]; [|done].
  rewrite (i64_wrap_id (Z.of_N _)) by lia. unfold leftover_new. simpl.
  destruct (lr_created r) as [c|]; simpl in *.
  - rewrite i64_wrap_id by done. lia.
  - rewrite Z.sub_diag. lia.
Qed.

(** C11: [ratect resources clean].  Whatever the daemon lists, nothing without
    Ratect's project label is asked to be removed; every leftover found is
    attempted once and reported once, containers before networks and each in
    the order listed, a failure stopping none of the others, and the count is
    of the removals that succeeded.  With a daemon that does what it documents,
    the resources attempted are exactly those of the project that are old
    enough, one reported as removed is gone, and every other resource of the
    daemon is still there. *)
Theorem clean_spec {D E : Type} `{!ResourceInventory D E} (d : D) project older_than now ls d' n log :
  find d project older_than now = Ok ls → remove d ls = (d', n, log) →
  (∀ l, l ∈ ls → is_Some (lr_labels (lo_resource l) !! PROJECT)) ∧
  log.*1 = filter (λ l, lo_is_network l = false) ls ++ filter (λ l, lo_is_network l = true) ls ∧
  n = length (filter (λ p, is_ok p.2 = true) log) ∧
  ∀ `{!InventoryLaws D E},
    (∀ r, r ∈ resources d → times_fit older_than now r) →
    (∀ r, r ∈ resources d → wanted project older_than now r →
       ∃ res, (leftover_new r now, res) ∈ log ∧ (res = Ok tt → r ∉ resources d')) ∧
    (∀ r, r ∈ resources d → ¬ wanted project older_than now r → r ∈ resources d') ∧
    (∀ r, r ∈ resources d' → r ∈ resources d).
Proof.
  intros Hfind Hrem. unfold remove in Hrem.
  set (order := filter (λ l, lo_is_network l = false) ls ++ filter (λ l, lo_is_network l = true) ls) in *.
  pose proof (remove_loop_progress order d 0 []) as Hp. rewrite Hrem in Hp. destruct Hp as [Hlog Hn].
  split; [|split; [exact Hlog|split; [simpl in Hn; lia|]]].
  { unfold find in Hfind. apply result_bind_Ok in Hfind as (cs & _ & Hfind).
    apply result_bind_Ok in Hfind as (ns & _ & Hfind). injection Hfind as <-.
    intros l (_ & (r & -> & [Hl _]%list_elem_of_filter)%list_elem_of_fmap)%list_elem_of_filter. done. }
  intros laws Hfit. pose proof (leftover_found _ _ _ _ _ Hfind) as Hls.
  pose proof (remove_loop_resources order d 0 []) as Hr. rewrite Hrem in Hr.
  destruct Hr as (tail & -> & Hsub & Hkeep & Hgone). simpl in *.
  assert (∀ l, l ∈ order ↔ l ∈ ls) as Horder.
  { intros l. unfold order. rewrite elem_of_app, !list_elem_of_filter.
    destruct (lo_is_network l); naive_solver. }
  split; [|split; [|done]].
  - intros r Hr (Hlab & Hcar & Hold).
    assert (leftover_new r now ∈ order) as Hin.
    { apply Horder, Hls. exists r. rewrite old_enough_wanted by by apply Hfit. done. }
    rewrite <-Hlog in Hin. apply list_elem_of_fmap in Hin as ([l res] & Heq & Hin). simpl in Heq. subst l.
    exists res. split; [done|]. intros -> Hr'. by apply (Hgone _ Hin r Hr').
  - intros r Hr Hno. apply Hkeep; [done|].
    intros x (r' & Hr' & Hlab & Hcar & -> & Hold)%Horder%Hls [Hid Hnet]. simpl in *. apply Hno.
    assert (r = r') as -> by by eapply ids_unique. split; [done|]. split; [done|].
    by apply old_enough_wanted in Hold; [|by apply Hfit].
Qed.

(** *** A daemon *)

#[local] Notation example_daemon := (gmap (string * bool) LabelledResource).
#[local] Instance carries_dec r f : Decision (carries r f).
Proof. destruct f as [key [value|]]; unfold carries; apply _. Defined.

#[local] Instance times_fit_dec o now r : Decision (times_fit o now r).
Proof. unfold times_fit. destruct o; apply _. Defined.

Definition example_resources (d : example_daemon) : list LabelledResource :=
  omap (λ p, if decide (p.1 = (lr_id p.2, is_network p.2)) then Some p.2 else None) (map_to_list d).

#[local] Instance example_inventory : ResourceInventory example_daemon () := {
  list_containers d fs :=
    Ok (filter (λ r, is_network r = false ∧ Forall (carries r) fs) (example_resources d));
  list_networks d fs :=
    Ok (filter (λ r, is_network r = true ∧ Forall (carries r) fs) (example_resources d));
  remove_network d id := (delete (id, true) d, Ok tt);
  stop_and_remove_container d id _ _ := (delete (id, false) d, Ok tt);
}.

Lemma example_resources_elem d r :
  r ∈ example_resources d ↔ d !! (lr_id r, is_network r) = Some r.
Proof.
  unfold example_resources. rewrite list_elem_of_omap. split.
  - intros ([k r'] & Hin%elem_of_map_to_list & H). simpl in H. case_decide; [|done].
    injection H as <-. by subst.
  - intros H. exists ((lr_id r, is_network r), r). split; [by apply elem_of_map_to_list|].
    simpl. by rewrite decide_True.
Qed.

Lemma example_removed d id network r :
  r ∈ example_resources (delete (id, network) d) ↔
    r ∈ example_resources d ∧ ¬ named r id network.
Proof.
  rewrite !example_resources_elem, lookup_delete_Some. unfold named. split.
  - intros [Hne Hr]. split; [done|]. intros [H1 H2]. apply Hne. by rewrite H1, H2.
  - intros [Hr Hne]. split; [|done]. intros [= H1 H2]. by apply Hne.
Qed.

#[local] Instance example_laws : InventoryLaws example_daemon ().
Proof.
  refine {| resources := example_resources |}.
  - intros d fs l [= <-] r. rewrite list_elem_of_filter. naive_solver.
  - intros d fs l [= <-] r. rewrite list_elem_of_filter. naive_solver.
  - intros d r r' Hr Hr' Hid Hnet. apply example_resources_elem in Hr, Hr'.
    rewrite Hid, Hnet, Hr' in Hr. by injection Hr.
  - intros d id d' res [= <- <-]. setoid_rewrite example_removed. naive_solver.
  - intros d id signal period d' res [= <- <-]. setoid_rewrite example_removed. naive_solver.
Defined.

Definition example_container (id : string) (labels : list (string * string)) (created : Z) : LabelledResource :=
  mk_resource id id (list_to_map labels) (Some created) (Some "exited").
Definition example_network : LabelledResource := mk_resource "n" "n" {[PROJECT := "p"]} (Some 0%Z) None.
Definition example_state : example_daemon := list_to_map
  [(("a", false), example_container "a" [(PROJECT, "p")] 0);
   (("b", false), example_container "b" [] 0);
   (("c", false), example_container "c" [(PROJECT, "p")] 95);
   (("n", true), example_network)].

Example clean_spec_witness :
  find example_state (Some "p") (Some (10 * NANOS_PER_SEC)%N) 100 =
    Ok [leftover_new (example_container "a" [(PROJECT, "p")] 0) 100; leftover_new example_network 100] ∧
  ∃ d' n log, remove example_state
      [leftover_new (example_container "a" [(PROJECT, "p")] 0) 100; leftover_new example_network 100] =
    (d', n, log) ∧ example_container "b" [] 0 ∈ example_resources d'.
Proof.
  assert (find example_state (Some "p") (Some (10 * NANOS_PER_SEC)%N) 100 =
    Ok [leftover_new (example_container "a" [(PROJECT, "p")] 0) 100; leftover_new example_network 100])
    as Hf by (vm_compute; reflexivity).
  split; [exact Hf|].
  destruct (remove _ _) as [[d' n] log] eqn:Hr.
  pose proof (clean_spec example_state (Some "p") (Some (10 * NANOS_PER_SEC)%N) 100 _ _ _ _ Hf Hr)
    as (_ & _ & _ & H).
  assert (∀ r, r ∈ example_resources example_state → times_fit (Some (10 * NANOS_PER_SEC)%N) 100 r) as Hfit.
  { apply Forall_forall, (bool_decide_unpack _). vm_compute. exact I. }
  assert (example_container "b" [] 0 ∈ example_resources example_state) as Hb
    by (apply example_resources_elem; vm_compute; reflexivity).
  assert (example_container "b" [] 0 ∈ example_resources d') as Hb'.
  { apply (proj1 (proj2 (H example_laws Hfit))); [exact Hb|]. intros [[? Hp] _]. by vm_compute in Hp. }
  exists d', n, log. split; [reflexivity|exact Hb'].
Defined.
