(* ===== verification/Proxy.v ===== *)
(** * Proxy: the proxy environment a run passes on

    [ratect-core/src/proxy.rs]: the proxy variables found in the host's
    environment, a URL that names the host itself rewritten to a name a
    container can reach it by, and the proxies of the Docker CLI's
    [config.json].  The [url] crate and the JSON reader are interfaces. *)

From S2P Require Import Prelude Text Collections.
From stdpp Require Import options.

(** ** The [url] crate, as far as it is used *)

Class UrlCrate := {
  Url : Type;
  url_parse : string → option Url;
  scheme : Url → string;
  host_str : Url → option string;
  port_or_known_default : Url → option N;
  set_host : Url → string → option Url;
  url_show : Url → string;
}.

(** An [http] or [https] URL has a port, written or the scheme's own, and takes
    any host name. *)
Class UrlLaws `{UrlCrate} := {
  known_port : ∀ u, scheme u = "http" ∨ scheme u = "https" → is_Some (port_or_known_default u);
  takes_host : ∀ u h, scheme u = "http" ∨ scheme u = "https" → is_Some (set_host u h);
}.

(** ** Rewriting one value *)

Definition PROXY_VARIABLE_NAMES_NEEDING_PREPROCESSING : list string :=
  ["http_proxy"; "https_proxy"; "ftp_proxy"].
Definition NO_PROXY_VARIABLE_NAME : string := "no_proxy".
Definition HOST_GATEWAY_ADDRESS : string := "host-gateway".

Record HostGateway := mk_host_gateway { hg_name : string; hg_address : string }.

Definition extra_host (g : HostGateway) : string := hg_name g +:+ ":" +:+ hg_address g.

Definition docker_host_name : option string := Some "host.docker.internal".

Record Preprocessed := mk_preprocessed { pp_value : string; pp_rewritten_port : option N }.

Definition unchanged (value : string) : Preprocessed := mk_preprocessed value None.

Section preprocess.
Context `{UrlCrate}.

Definition refers_to_local_machine (u : Url) : bool :=
  bool_decide (host_str u ∈ [Some "localhost"; Some "127.0.0.1"; Some "::1"; Some "[::1]"]).

Definition preprocess_proxy_value (value : string) (docker_host_name : option string) : Preprocessed :=
  match docker_host_name with
  | None => unchanged value
  | Some docker_host_name =>
      match url_parse value with
      | None => unchanged value
      | Some parsed =>
          if negb (bool_decide (scheme parsed = "http")) && negb (bool_decide (scheme parsed = "https"))
          then unchanged value
          else if negb (refers_to_local_machine parsed) then unchanged value
          else
            let rewritten_port := port_or_known_default parsed in
            match set_host parsed docker_host_name with
            | Some parsed => mk_preprocessed (url_show parsed) rewritten_port
            | None => unchanged value
            end
      end
  end.
End preprocess.

(** ** The variables of a run *)

(** Names are ASCII, where [str::to_uppercase] is [to_ascii_uppercase]. *)
Definition case_or_other_case (host_env : string → option string) (name : string) : option string :=
  match host_env name with
  | Some v => Some v
  | None =>
      match host_env (to_ascii_uppercase name) with
      | Some v => Some v
      | None => host_env (to_ascii_lowercase name)
      end
  end.

Record ProxyEnvironment := mk_proxy_environment {
  pe_variables : gmap string string;
  pe_rewritten_ports : gset N;
}.

Definition host_gateway (p : ProxyEnvironment) : option HostGateway :=
  if decide (pe_rewritten_ports p = ∅) then None
  else name ← docker_host_name; Some (mk_host_gateway name HOST_GATEWAY_ADDRESS).

Section variables.
Context `{UrlCrate}.

Definition add_variable (host_env : string → option string) (p : ProxyEnvironment) (name : string)
    : ProxyEnvironment :=
  match case_or_other_case host_env name with
  | None => p
  | Some value =>
      let '(value, ports) :=
        if decide (name ∈ PROXY_VARIABLE_NAMES_NEEDING_PREPROCESSING) then
          let preprocessed := preprocess_proxy_value value docker_host_name in
          (pp_value preprocessed,
           match pp_rewritten_port preprocessed with
           | Some port => {[port]} ∪ pe_rewritten_ports p
           | None => pe_rewritten_ports p
           end)
        else (value, pe_rewritten_ports p) in
      mk_proxy_environment
        (<[to_ascii_uppercase name := value]> (<[name := value]> (pe_variables p))) ports
  end.

Definition append_entries (extra_entries : string) (variables : gmap string string) (key : string)
    : gmap string string :=
  let combined :=
    match variables !! key with
    | Some existing =>
        if decide (existing = EmptyString) then extra_entries else existing +:+ "," +:+ extra_entries
    | None => extra_entries
    end in
  <[key := combined]> variables.

Definition proxy_environment_variables (host_env : string → option string)
    (extra_no_proxy_entries : gset string) : ProxyEnvironment :=
  let found := foldl (add_variable host_env) (mk_proxy_environment ∅ ∅)
                 (PROXY_VARIABLE_NAMES_NEEDING_PREPROCESSING ++ [NO_PROXY_VARIABLE_NAME]) in
  if bool_decide (pe_variables found = ∅) || bool_decide (extra_no_proxy_entries = ∅) then found
  else
    let extra_entries := join "," (sort_strings (elements extra_no_proxy_entries)) in
    mk_proxy_environment
      (foldl (append_entries extra_entries) (pe_variables found) [NO_PROXY_VARIABLE_NAME; "NO_PROXY"])
      (pe_rewritten_ports found).

(** [TaskEngine::proxy_environment] *)
Definition proxy_environment (propagate_proxy_environment_variables : bool)
    (host_env : string → option string) (extra_no_proxy_entries : gset string)
    : option ProxyEnvironment :=
  if propagate_proxy_environment_variables then
    let proxy := proxy_environment_variables host_env extra_no_proxy_entries in
    if bool_decide (pe_variables proxy = ∅) then None else Some proxy
  else None.
End variables.

(** ** The Docker CLI's proxies *)

Record ConfigFileProxies := mk_config_file_proxies {
  cf_http_proxy : option string;
  cf_https_proxy : option string;
  cf_ftp_proxy : option string;
  cf_no_proxy : option string;
  cf_all_proxy : option string;
}.

(** [entry(name).or_insert_with(value)] *)
Definition or_insert (key value : string) (m : gmap string string) : gmap string string :=
  match m !! key with Some _ => m | None => <[key := value]> m end.

Definition fill_variable (build_args : gmap string string) (p : string * option string)
    : gmap string string :=
  match p.2 with
  | Some value =>
      if decide (value = EmptyString) then build_args
      else or_insert (to_ascii_lowercase p.1) value (or_insert p.1 value build_args)
  | None => build_args
  end.

(** [read] is [serde_json::from_str] at the [proxies] of the file. *)
Definition fill_config_file_proxies (read : string → option (gmap string ConfigFileProxies))
    (config_json daemon_host : string) (build_args : gmap string string) : gmap string string :=
  match read config_json with
  | None => build_args
  | Some proxies =>
      match (match proxies !! daemon_host with Some e => Some e | None => proxies !! "default" end) with
      | None => build_args
      | Some entry =>
          foldl fill_variable build_args
            [("HTTP_PROXY", cf_http_proxy entry); ("HTTPS_PROXY", cf_https_proxy entry);
             ("FTP_PROXY", cf_ftp_proxy entry); ("NO_PROXY", cf_no_proxy entry);
             ("ALL_PROXY", cf_all_proxy entry)]
      end
  end.

(** ** Which ports listen on loopback only *)

Inductive IpAddr := V4 (octets : list N) | V6 (octets : list N).
#[global] Instance IpAddr_eq_dec : EqDecision IpAddr.
Proof. solve_decision. Defined.

Definition loopback_v6 : list N := [0; 0; 0; 0; 0; 0; 0; 0; 0; 0; 0; 0; 0; 0; 0; 1]%N.

Definition is_loopback (a : IpAddr) : bool :=
  match a with
  | V4 octets => bool_decide (head octets = Some 127%N)
  | V6 octets => bool_decide (octets = loopback_v6)
  end.

(** [Ipv6Addr::to_ipv4_mapped] *)
Definition to_ipv4_mapped (octets : list N) : option (list N) :=
  if decide (take 12 octets = replicate 10 0%N ++ [255; 255]%N) then Some (drop 12 octets) else None.

Definition hex_value (c : ascii) : option N :=
  if is_ascii_digit c then Some (code c - 48)%N
  else if in_range 65 70 c then Some (code c - 55)%N
  else if in_range 97 102 c then Some (code c - 87)%N
  else None.

Fixpoint hex_digits (max acc : N) (l : list ascii) : option N :=
  match l with
  | [] => Some acc
  | c :: l =>
      d ← hex_value c;
      let acc := (acc * 16 + d)%N in
      if (acc <=? max)%N then hex_digits max acc l else None
  end.

(** [from_str_radix(_, 16)] of an unsigned type *)
Definition from_hex (max : N) (l : list ascii) : option N :=
  match l with
  | [] => None
  | c :: l' =>
      if decide (c = "+"%char) then match l' with [] => None | _ => hex_digits max 0 l' end
      else hex_digits max 0 l
  end.

(** [u32::to_le_bytes] *)
Definition to_le_bytes (n : N) : list N :=
  [n mod 256; n / 256 mod 256; n / 65536 mod 256; n / 16777216 mod 256]%N.

Fixpoint groups_of_8 (l : list ascii) : list (list ascii) :=
  match l with
  | a :: b :: c :: d :: e :: f :: g :: h :: l => [a; b; c; d; e; f; g; h] :: groups_of_8 l
  | [] => []
  | _ => [l]
  end.

Definition parse_proc_address (hex : list ascii) : option IpAddr :=
  if decide (length hex = 8) then
    n ← from_hex u32_max hex; Some (V4 (to_le_bytes n))
  else if decide (length hex = 32) then
    words ← mapM (from_hex u32_max) (groups_of_8 hex);
    let address := words ≫= to_le_bytes in
    Some match to_ipv4_mapped address with Some mapped => V4 mapped | None => V6 address end
  else None.

Definition TCP_LISTEN : string := "0A".

(** [str::split_whitespace] *)
Fixpoint words_l (current : list ascii) (l : list ascii) : list (list ascii) :=
  match l with
  | [] => match current with [] => [] | _ => [current] end
  | c :: l =>
      if is_whitespace c then match current with [] => words_l [] l | _ => current :: words_l [] l end
      else words_l (current ++ [c]) l
  end.
Definition split_whitespace (s : string) : list string := of_chars <$> words_l [] (chars s).

Definition listening_socket (line : string) : option (IpAddr * N) :=
  match split_whitespace line with
  | _ :: local :: _ :: state :: _ =>
      if decide (state = TCP_LISTEN) then
        '(address, port) ← split_once ":" local;
        address ← parse_proc_address (chars address);
        port ← from_hex u16_max (chars port);
        Some (address, port)
      else None
  | _ => None
  end.

(** Whether the sockets on one port, in order, are there and all on loopback. *)
Definition all_loopback (on_this_port : list (IpAddr * N)) : bool :=
  match on_this_port with
  | [] => false
  | (address, _) :: others => is_loopback address && forallb (λ p, is_loopback p.1) others
  end.

Definition loopback_only_ports_in (tables : list string) (ports : gset N) : gset N :=
  let listening := omap listening_socket (tables ≫= buf_lines) in
  filter (λ port, all_loopback (filter (λ p, p.2 = port) listening) = true) ports.

Example listening_socket_example :
  listening_socket "   0: 0100007F:0277 00000000:0000 0A 00000000:00000000" = Some (V4 [127; 0; 0; 1]%N, 631%N).
Proof. by vm_compute. Qed.

Example mapped_example :
  parse_proc_address (chars "0000000000000000FFFF00000100007F") = Some (V4 [127; 0; 0; 1]%N).
Proof. by vm_compute. Qed.

(** ** What the proxy environment of a run is *)

(** *** The variables *)

Definition proxy_names : list string :=
  PROXY_VARIABLE_NAMES_NEEDING_PREPROCESSING ++ [NO_PROXY_VARIABLE_NAME].

Section variables.
Context `{UrlCrate}.
#[local] Set Default Proof Using "Type".

(** What one variable found on the host is passed on as. *)
Definition passed_on (host_env : string → option string) (name : string) : option string :=
  (λ value, if decide (name ∈ PROXY_VARIABLE_NAMES_NEEDING_PREPROCESSING)
            then pp_value (preprocess_proxy_value value docker_host_name) else value)
    <$> case_or_other_case host_env name.

Definition spelled (name k : string) : Prop := k = name ∨ k = to_ascii_uppercase name.
#[local] Instance spelled_dec name k : Decision (spelled name k).
Proof. unfold spelled. apply _. Defined.

Lemma add_variable_lookup host_env p name k :
  pe_variables (add_variable host_env p name) !! k =
    if decide (spelled name k) then
      match passed_on host_env name with Some v => Some v | None => pe_variables p !! k end
    else pe_variables p !! k.
Proof.
  unfold add_variable, passed_on.
  destruct (case_or_other_case host_env name) as [value|]; simpl; [|by case_decide].
  destruct (decide (name ∈ _)); simpl; rewrite !lookup_insert; unfold spelled;
    repeat case_decide; naive_solver.
Qed.

Definition rewritten_port (host_env : string → option string) (name : string) : option N :=
  value ← case_or_other_case host_env name;
  if decide (name ∈ PROXY_VARIABLE_NAMES_NEEDING_PREPROCESSING)
  then pp_rewritten_port (preprocess_proxy_value value docker_host_name) else None.

Lemma add_variable_ports host_env p name port :
  port ∈ pe_rewritten_ports (add_variable host_env p name) ↔
    rewritten_port host_env name = Some port ∨ port ∈ pe_rewritten_ports p.
Proof.
  unfold add_variable, rewritten_port. destruct (case_or_other_case host_env name) as [value|]; simpl;
    [|naive_solver]. case_decide; simpl; [|naive_solver].
  destruct (pp_rewritten_port _); set_solver.
Qed.

Definition found (host_env : string → option string) : ProxyEnvironment :=
  foldl (add_variable host_env) (mk_proxy_environment ∅ ∅) proxy_names.

Lemma found_ports host_env port :
  port ∈ pe_rewritten_ports (found host_env) ↔
    ∃ name, name ∈ proxy_names ∧ rewritten_port host_env name = Some port.
Proof.
  unfold found. assert (∀ names p, port ∈ pe_rewritten_ports (foldl (add_variable host_env) p names) ↔
    (∃ name, name ∈ names ∧ rewritten_port host_env name = Some port) ∨ port ∈ pe_rewritten_ports p) as Hl.
  { induction names as [|n names IH]; intros p; simpl; [set_solver|].
    rewrite IH, add_variable_ports. setoid_rewrite elem_of_cons. naive_solver. }
  rewrite Hl. split; [by intros [?|?%elem_of_empty]|by left].
Qed.

(** The variable a key spells, and its value. *)
Definition spells (k : string) : option string := list_find (λ name, spelled name k) proxy_names ≫= λ p, Some p.2.

Lemma spelled_names k name name' :
  name ∈ proxy_names → name' ∈ proxy_names → spelled name k → spelled name' k → name = name'.
Proof.
  assert (Forall (λ name, Forall (λ name', name = name' ∨ (name ≠ name' ∧
    name ≠ to_ascii_uppercase name' ∧ to_ascii_uppercase name ≠ name' ∧
    to_ascii_uppercase name ≠ to_ascii_uppercase name')) proxy_names) proxy_names) as Hall
    by (apply (bool_decide_unpack _); vm_compute; exact I).
  intros Hn Hn' Hs Hs'. rewrite Forall_forall in Hall. specialize (Hall name Hn). simpl in Hall.
  rewrite Forall_forall in Hall. destruct (Hall name' Hn') as [?|(?&?&?&?)]; [done|].
  exfalso. destruct Hs, Hs'; congruence.
Qed.

Lemma spells_Some k name : spells k = Some name ↔ name ∈ proxy_names ∧ spelled name k.
Proof.
  unfold spells. split.
  - destruct (list_find _ _) as [[i n]|] eqn:E; simpl; [|done]. intros [= ->].
    apply list_find_Some in E as (? & ? & _). split; [by eapply list_elem_of_lookup_2|done].
  - intros [Hn Hs]. destruct (list_find (λ name, spelled name k) proxy_names) as [[i n]|] eqn:E; simpl.
    + apply list_find_Some in E as (Hi%list_elem_of_lookup_2 & Hs' & _). f_equal. by eapply spelled_names.
    + apply list_find_None in E. rewrite Forall_forall in E. by destruct (E name).
Qed.

Lemma found_lookup host_env k :
  pe_variables (found host_env) !! k = spells k ≫= passed_on host_env.
Proof.
  assert (∀ names p, NoDup names → (∀ n, n ∈ names → n ∈ proxy_names) →
    pe_variables (foldl (add_variable host_env) p names) !! k =
      match spells k with
      | Some n => if decide (n ∈ names) then
                    match passed_on host_env n with Some v => Some v | None => pe_variables p !! k end
                  else pe_variables p !! k
      | None => pe_variables p !! k
      end) as Hl.
  { induction names as [|n names IH]; intros p Hnd Hin; simpl; [by destruct (spells k)|].
    apply NoDup_cons in Hnd as [Hn Hnd]. rewrite IH by (done || intros; apply Hin; by right).
    rewrite add_variable_lookup. destruct (spells k) as [m|] eqn:Hm.
    - apply spells_Some in Hm as [Hm Hs]. destruct (decide (m = n)) as [->|Hne].
      + rewrite (decide_False (P := n ∈ names)), !decide_True by (done || by left). done.
      + rewrite (decide_False (P := spelled n k))
          by (intros ?; apply Hne; eapply spelled_names; [done| |done|done]; apply Hin; by left).
        destruct (decide (m ∈ names)).
        * by rewrite decide_True by by right.
        * rewrite decide_False; [done|]. by intros [->|?]%elem_of_cons.
    - rewrite decide_False; [done|]. intros Hs.
      assert (spells k = Some n) by (apply spells_Some; split; [apply Hin; by left|done]). congruence. }
  unfold found. rewrite Hl; [|apply (bool_decide_unpack _); vm_compute; exact I|done].
  destruct (spells k) as [n|] eqn:Hn; simpl; [|apply lookup_empty].
  apply spells_Some in Hn as [Hn _]. rewrite decide_True by done. simpl. rewrite lookup_empty.
  by destruct (passed_on host_env n).
Qed.
End variables.

(** *** Rewriting *)

Section rewriting.
Context `{UrlCrate} {laws : UrlLaws}.
#[local] Set Default Proof Using "Type".

(** A value that is the URL of a proxy on the host itself. *)
Definition names_host (value : string) (u : Url) : Prop :=
  url_parse value = Some u ∧ (scheme u = "http" ∨ scheme u = "https") ∧ refers_to_local_machine u = true.

Lemma preprocess_rewrites value u :
  names_host value u →
  ∃ u', set_host u "host.docker.internal" = Some u' ∧
    preprocess_proxy_value value docker_host_name = mk_preprocessed (url_show u') (port_or_known_default u) ∧
    is_Some (port_or_known_default u).
Proof using laws.
  intros (Hparse & Hscheme & Hlocal). unfold preprocess_proxy_value, docker_host_name. rewrite Hparse, Hlocal.
  destruct (takes_host u "host.docker.internal" Hscheme) as [u' Hu']. exists u'. rewrite Hu'.
  destruct Hscheme as [Hs|Hs]; rewrite Hs; (split; [done|]; split; [done|]; apply known_port; auto).
Qed.

Lemma preprocess_keeps value :
  (∀ u, ¬ names_host value u) → preprocess_proxy_value value docker_host_name = unchanged value.
Proof.
  intros Hno. unfold preprocess_proxy_value, docker_host_name.
  destruct (url_parse value) as [u|] eqn:Hu; [|done].
  destruct (negb _ && negb _) eqn:Hs; [done|]. destruct (refers_to_local_machine u) eqn:Hl; [|done].
  exfalso. apply (Hno u). split; [done|]. split; [|done].
  apply andb_false_iff in Hs as [Hs|Hs]; bool_to_prop; auto.
Qed.

Lemma names_host_dec value : (∃ u, names_host value u) ∨ ∀ u, ¬ names_host value u.
Proof.
  unfold names_host. destruct (url_parse value) as [u|] eqn:Hu; [|right; by intros u (? & _)].
  destruct (decide (scheme u = "http" ∨ scheme u = "https")); [|right; by intros u' ([= <-] & ? & _)].
  destruct (refers_to_local_machine u) eqn:Hl; [left; by exists u|right].
  intros u' ([= <-] & _ & ?). congruence.
Qed.

Lemma rewritten_port_Some host_env name :
  is_Some (rewritten_port host_env name) ↔
    name ∈ PROXY_VARIABLE_NAMES_NEEDING_PREPROCESSING ∧
    ∃ value u, case_or_other_case host_env name = Some value ∧ names_host value u.
Proof using laws.
  unfold rewritten_port. destruct (case_or_other_case host_env name) as [value|]; cbn [mbind option_bind].
  2:{ split; [by intros []|by intros (_ & ? & ? & ? & _)]. }
  case_decide as Hn; [|split; [by intros []|by intros [? _]]].
  destruct (names_host_dec value) as [[u Hu]|Hno].
  - destruct (preprocess_rewrites value u Hu) as (u' & _ & -> & Hp). split; [|done].
    intros _. split; [done|]. by exists value, u.
  - rewrite preprocess_keeps by done. split; [by intros []|]. intros (_ & v & u & [= <-] & Hu). by destruct (Hno u).
Qed.
End rewriting.

(** *** Loopback *)

Definition listening (tables : list string) : list (IpAddr * N) :=
  omap listening_socket (tables ≫= buf_lines).

Lemma all_loopback_true l :
  all_loopback l = true ↔ l ≠ [] ∧ ∀ p, p ∈ l → is_loopback p.1 = true.
Proof.
  destruct l as [|[a n] l]; simpl; [naive_solver|].
  rewrite andb_true_iff, forallb_forall. setoid_rewrite elem_of_cons. setoid_rewrite list_elem_of_In.
  naive_solver.
Qed.

Lemma loopback_only_elem tables ports port :
  port ∈ loopback_only_ports_in tables ports ↔
    port ∈ ports ∧ (∃ a, (a, port) ∈ listening tables) ∧
    ∀ a, (a, port) ∈ listening tables → is_loopback a = true.
Proof.
  unfold loopback_only_ports_in. fold (listening tables). rewrite elem_of_filter, all_loopback_true.
  assert (filter (λ p, p.2 = port) (listening tables) ≠ [] ↔ ∃ a, (a, port) ∈ listening tables) as Hex.
  { split.
    - destruct (filter _ (listening tables)) as [|[a n] l] eqn:E; [done|]. intros _. exists a.
      assert ((a, n) ∈ filter (λ p, p.2 = port) (listening tables)) as Hin by (rewrite E; by left).
      apply list_elem_of_filter in Hin as [Hn Hin]. simpl in Hn. by subst.
    - intros [a Ha] Hnil. assert ((a, port) ∈ filter (λ p, p.2 = port) (listening tables)) as Hin
        by by apply list_elem_of_filter. rewrite Hnil in Hin. by apply not_elem_of_nil in Hin. }
  rewrite Hex. setoid_rewrite list_elem_of_filter. split.
  - intros [[Ha Hall] Hp]. split; [done|]. split; [done|]. intros a Hin. by apply (Hall (a, port)).
  - intros (Hp & Ha & Hall). split; [|done]. split; [done|]. intros [a n] [Hn Hin]. simpl in *. subst. by apply Hall.
Qed.

(** *** Properties *)

(** The entries a run's own containers add to [no_proxy]. *)
Definition extended (extra : gset string) (value : option string) : string :=
  let entries := join "," (sort_strings (elements extra)) in
  match value with
  | Some existing => if decide (existing = EmptyString) then entries else existing +:+ "," +:+ entries
  | None => entries
  end.

Section environment.
Context `{UrlCrate}.
#[local] Set Default Proof Using "Type".

Lemma append_entries_lookup entries m key k :
  append_entries entries m key !! k =
    if decide (key = k) then
      Some match m !! key with
           | Some existing =>
               if decide (existing = EmptyString) then entries else existing +:+ "," +:+ entries
           | None => entries
           end
    else m !! k.
Proof. unfold append_entries. by rewrite lookup_insert. Qed.

Lemma spells_no_proxy k :
  spells k = Some NO_PROXY_VARIABLE_NAME ↔ k = NO_PROXY_VARIABLE_NAME ∨ k = "NO_PROXY".
Proof.
  rewrite spells_Some. unfold spelled. split; [by intros [_ ?]|]. intros Hk. split; [|done].
  apply (bool_decide_unpack _). vm_compute. exact I.
Qed.

Lemma environment_lookup host_env extra k :
  let p := proxy_environment_variables host_env extra in
  pe_rewritten_ports p = pe_rewritten_ports (found host_env) ∧
  pe_variables p !! k =
    match spells k with
    | Some name =>
        if decide (name = NO_PROXY_VARIABLE_NAME ∧ extra ≠ ∅ ∧ pe_variables (found host_env) ≠ ∅)
        then Some (extended extra (passed_on host_env name)) else passed_on host_env name
    | None => None
    end.
Proof.
  unfold proxy_environment_variables. fold proxy_names. fold (found host_env). cbv zeta.
  destruct (bool_decide (pe_variables (found host_env) = ∅)) eqn:Hf; bool_to_prop; cbn [orb].
  { split; [done|]. rewrite found_lookup. destruct (spells k); cbn [mbind option_bind]; [|done].
    rewrite decide_False; [done|]. naive_solver. }
  destruct (bool_decide (extra = ∅)) eqn:He; bool_to_prop.
  { split; [done|]. rewrite found_lookup. destruct (spells k); cbn [mbind option_bind]; [|done].
    rewrite decide_False; [done|]. naive_solver. }
  split; [done|]. cbn [pe_variables foldl].
  assert (∀ k', k' = NO_PROXY_VARIABLE_NAME ∨ k' = "NO_PROXY" →
    pe_variables (found host_env) !! k' = passed_on host_env NO_PROXY_VARIABLE_NAME) as Hno.
  { intros k' Hk'%spells_no_proxy. by rewrite found_lookup, Hk'. }
  rewrite !append_entries_lookup.
  rewrite (decide_False (P := NO_PROXY_VARIABLE_NAME = "NO_PROXY")) by done.
  rewrite (Hno NO_PROXY_VARIABLE_NAME) by by left. rewrite (Hno "NO_PROXY") by by right.
  unfold extended.
  destruct (decide (spells k = Some NO_PROXY_VARIABLE_NAME)) as [Hk|Hk].
  - rewrite Hk, (decide_True (P := _ ∧ _)) by done. by apply spells_no_proxy in Hk as [->| ->].
  - assert (k ≠ NO_PROXY_VARIABLE_NAME ∧ k ≠ "NO_PROXY") as [Hk1 Hk2]
      by (split; intros ->; apply Hk, spells_no_proxy; auto).
    rewrite !(decide_False (P := _ = k)), found_lookup by done.
    destruct (spells k) as [name|]; [|done]. cbn [mbind option_bind]. rewrite decide_False; [done|].
    intros [-> _]. done.
Qed.
End environment.

Section property.
Context `{UrlCrate}.
#[local] Set Default Proof Using "Type".

Lemma found_empty host_env :
  pe_variables (found host_env) = ∅ ↔ ∀ name, name ∈ proxy_names → case_or_other_case host_env name = None.
Proof.
  rewrite map_empty. setoid_rewrite found_lookup. split.
  - intros Hall name Hn. specialize (Hall name).
    assert (spells name = Some name) as Hs by (apply spells_Some; split; [done|by left]).
    rewrite Hs in Hall. cbn [mbind option_bind] in Hall. unfold passed_on in Hall.
    by destruct (case_or_other_case host_env name).
  - intros Hall k. destruct (spells k) as [name|] eqn:Hk; [|done]. cbn [mbind option_bind].
    apply spells_Some in Hk as [Hn _]. unfold passed_on. by rewrite Hall.
Qed.

Lemma environment_empty host_env extra :
  pe_variables (proxy_environment_variables host_env extra) = ∅ ↔ pe_variables (found host_env) = ∅.
Proof.
  unfold proxy_environment_variables. fold proxy_names. fold (found host_env). cbv zeta.
  destruct (bool_decide (pe_variables (found host_env) = ∅)) eqn:Hf; bool_to_prop; cbn [orb]; [done|].
  destruct (bool_decide (extra = ∅)); [done|]. split; [|done]. cbn [pe_variables foldl]. intros He.
  exfalso. apply (f_equal (lookup "NO_PROXY")) in He. revert He.
  rewrite append_entries_lookup, lookup_empty, decide_True by done. done.
Qed.

Lemma gateway_iff `{!UrlLaws} host_env extra g :
  host_gateway (proxy_environment_variables host_env extra) = Some g ↔
    g = mk_host_gateway "host.docker.internal" "host-gateway" ∧
    ∃ name value u, name ∈ PROXY_VARIABLE_NAMES_NEEDING_PREPROCESSING ∧
      case_or_other_case host_env name = Some value ∧ names_host value u.
Proof.
  unfold host_gateway. rewrite (proj1 (environment_lookup host_env extra EmptyString)).
  assert (pe_rewritten_ports (found host_env) = ∅ ↔
    ¬ ∃ name value u, name ∈ PROXY_VARIABLE_NAMES_NEEDING_PREPROCESSING ∧
      case_or_other_case host_env name = Some value ∧ names_host value u) as Hempty.
  { split.
    - intros He (name & value & u & Hn & Hv & Hu).
      destruct (proj2 (rewritten_port_Some host_env name)) as [port Hp]; [by eauto|].
      assert (port ∈ pe_rewritten_ports (found host_env)) as Hin.
      { apply found_ports. exists name. split; [|done]. apply elem_of_app. by left. }
      rewrite He in Hin. by apply elem_of_empty in Hin.
    - intros Hno. apply set_eq. intros port. rewrite found_ports. split; [|by intros ?%elem_of_empty].
      intros (name & _ & Hp). exfalso. apply Hno.
      destruct (proj1 (rewritten_port_Some host_env name)) as (Hn & value & u & ? & ?); [by eexists|].
      by exists name, value, u. }
  case_decide as He.
  - split; [done|]. intros [_ Hex]. by apply Hempty in He.
  - cbn. split.
    + intros [= <-]. split; [done|].
      apply set_choose_L in He as [port (name & _ & Hp)%found_ports].
      destruct (proj1 (rewritten_port_Some host_env name)) as (Hn & value & u & ? & ?); [by eexists|].
      by exists name, value, u.
    + by intros [-> _].
Qed.
End property.


(** *** A run behind a proxy on the host *)

#[local] Instance example_url : UrlCrate := {
  Url := string * string * N;
  url_parse s := rest ← strip_prefix "http://" s; '(host, port) ← split_once ":" rest;
                 port ← parse_unsigned u16_max port; Some ("http", host, port);
  scheme u := u.1.1;
  host_str u := Some u.1.2;
  port_or_known_default u := Some u.2;
  set_host u host := Some (u.1.1, host, u.2);
  url_show u := u.1.1 +:+ "://" +:+ u.1.2 +:+ ":" +:+ show_N u.2;
}.
#[local] Instance example_url_laws : UrlLaws.
Proof. split; by intros; eexists. Defined.

Definition example_env (name : string) : option string :=
  if decide (name = "HTTP_PROXY") then Some "http://localhost:3128" else None.

