(* ===== verification/ContainerSpec.v ===== *)
(** * ContainerSpec: what a container is created with, and an image built with

    [ratect-core/src/container_spec.rs]: the configuration of a container, laid
    under a task's [run] or a dependency's [customise] and joined with what the
    run adds, as one specification.  The order a set of capabilities is
    iterated in, and the host's files, are given. *)

From S2P Require Import Prelude Text Collections Values Config Passwd Labels Proxy.
From stdpp Require Import options.

(** ** Networks *)

Inductive ContainerNetwork :=
| TaskNetwork (name : string)
| HostNetwork
| NoNetwork
| NetworkOf (id : string).

Definition shares_namespace (n : ContainerNetwork) : bool :=
  match n with NetworkOf _ => true | _ => false end.

Inductive spec_error :=
| TargetNotCreated (target : string)
| SocketAndFiles (id socket : string)
| SeveralSockets (id : string) (sockets : nat)
| SecretNotAFile (id path : string)
| SecretMissing (id path : string)
| SecretUnreadable (id path : string).

Definition resolve_network (network_mode : option NetworkMode) (task_network : string)
    (dependency_ids : gmap string string) : result ContainerNetwork spec_error :=
  match network_mode with
  | None => Ok (TaskNetwork task_network)
  | Some HostMode => Ok HostNetwork
  | Some NoneMode => Ok NoNetwork
  | Some (ContainerMode target) =>
      let? id := ok_or (dependency_ids !! target) (TargetNotCreated target) in
      Ok (NetworkOf id)
  end.

(** ** The specification *)

Definition port_triple : Type := N * N * string.

Record NetworkOptions := mk_network_options {
  no_additional_hostnames : option (list string);
  no_additional_hosts : option (gmap string string);
  no_proxy_host_gateway : option HostGateway;
  no_ports : option (list port_triple);
}.

Record ContainerOptions := mk_container_options {
  co_working_directory : option string;
  co_entrypoint : option string;
  co_capabilities_to_add : option (list string);
  co_capabilities_to_drop : option (list string);
  co_privileged : option bool;
  co_shm_size : option Z;
  co_devices : option (list (string * string * option string));
  co_enable_init_process : bool;
  co_log_driver : option string;
  co_log_options : option (gmap string string);
  co_tmpfs : option (list (string * string));
  co_ulimits : option (list (string * Z * Z));
  co_groups : option (list string);
  co_dns : option (list string);
  co_dns_search : option (list string);
  co_dns_options : option (list string);
}.

Record HealthCheckOptions := mk_health_check_options {
  ho_command : option string;
  ho_interval : option N;
  ho_retries : option N;
  ho_start_period : option N;
  ho_timeout : option N;
}.

(** [docker.rs]'s [UserMapping] *)
Record UserMapping := mk_user_mapping {
  um_user : CurrentUser;
  um_home_directory : string;
  um_cache_directories : list string;
}.

Record IdentityPlan := mk_identity_plan {
  ip_home : string;
  ip_host_user : option CurrentUser;
  ip_additional_users : list AdditionalUser;
}.

Inductive BindSource := HostSource (path : string) | VolumeSource (name : string).

Record BindMount := mk_bind_mount {
  bm_source : BindSource;
  bm_container : string;
  bm_options : option string;
}.

Definition host_path (b : BindMount) : option string :=
  match bm_source b with HostSource path => Some path | VolumeSource _ => None end.

Definition to_bind_string (b : BindMount) : string :=
  let source := match bm_source b with HostSource path | VolumeSource path => path end in
  match bm_options b with
  | Some options => source +:+ ":" +:+ bm_container b +:+ ":" +:+ options
  | None => source +:+ ":" +:+ bm_container b
  end.

Definition is_read_only (options : option string) : bool :=
  match options with
  | Some o => existsb (λ flag, bool_decide (trim flag = "ro")) (split "," o)
  | None => false
  end.

Record SharedContainerSpec := mk_shared_spec {
  sh_name : string;
  sh_docker_name : string;
  sh_image : string;
  sh_command : option string;
  sh_volumes : option (list BindMount);
  sh_environment : option (gmap string string);
  sh_network : ContainerNetwork;
  sh_runs_as_host_user : bool;
  sh_process_user : option string;
  sh_user_mapping : option UserMapping;
  sh_identity : option IdentityPlan;
  sh_network_options : NetworkOptions;
  sh_health_check : option HealthCheckOptions;
  sh_options : ContainerOptions;
}.

Record ContainerSpec := mk_container_spec {
  cs_shared : SharedContainerSpec;
  cs_role : ContainerRole;
  cs_labels : gmap string string;
  cs_interactive : bool;
  cs_additional_args : list string;
}.

Inductive Overlay := Run (run : TaskRun) | Customise (customisation : option TaskContainerCustomisation).

Record ContainerSpecInputs := mk_spec_inputs {
  in_name : string;
  in_docker_name : string;
  in_container_config : Container;
  in_overlay : Overlay;
  in_image : string;
  in_network : ContainerNetwork;
  in_interactive : bool;
  in_additional_args : list string;
  in_user_mapping : option UserMapping;
  in_identity_host_user : option CurrentUser;
  in_volumes : option (list BindMount);
  in_term_var : option (gmap string string);
  in_proxy : option ProxyEnvironment;
  in_publish_ports : bool;
  in_role : ContainerRole;
  in_run_labels : RunLabels;
}.

(** ** Its parts *)

(** [extend]: the later entries win. *)
Definition extend (merged : gmap string string) (entries : option (gmap string string)) : gmap string string :=
  default ∅ entries ∪ merged.

Definition merged_environment (term_var proxy_vars container_env overlay_env : option (gmap string string))
    : option (gmap string string) :=
  match term_var, proxy_vars, container_env, overlay_env with
  | None, None, None, None => None
  | _, _, _, _ => Some (extend (extend (extend (default ∅ term_var) proxy_vars) container_env) overlay_env)
  end.

Definition push_new {A} `{EqDecision A} (merged : list A) (x : A) : list A :=
  if decide (x ∈ merged) then merged else merged ++ [x].

Definition merged_ports (container_ports overlay_ports : option (list PortMapping)) : list port_triple :=
  foldl push_new [] ((default [] container_ports ++ default [] overlay_ports) ≫= port_mapping_expand).

Definition health_check_options (container : Container) : option HealthCheckOptions :=
  (λ h, mk_health_check_options (hc_command h) (hc_interval h) (hc_retries h) (hc_start_period h)
          (hc_timeout h)) <$> c_health_check container.

Definition device_triples (devices : option (list DeviceMapping))
    : option (list (string * string * option string)) :=
  match devices with
  | Some devices => Some ((λ d, (dm_local d, dm_container d, dm_options d)) <$> devices)
  | None => None
  end.

Definition process_user (container : Container) (host_user : option CurrentUser) : option string :=
  match host_user with
  | Some user => Some (show_N (cu_uid user) +:+ ":" +:+ show_N (cu_gid user))
  | None =>
      user ← c_user container;
      Some match c_group container with
           | Some group => user +:+ ":" +:+ group
           | None => user
           end
  end.

Definition ulimit_triples (ulimits : option (list Ulimit)) : option (list (string * Z * Z)) :=
  match ulimits with
  | Some ulimits => Some ((λ u, (ulimit_as_str (ul_name u), ul_soft u, ul_hard u)) <$> ulimits)
  | None => None
  end.

Definition tmpfs_mounts (volumes : option (list VolumeMount)) : option (list (string * string)) :=
  volumes ← volumes;
  match omap (λ v, match v with
                   | TmpfsMount t => Some (tv_container t, default EmptyString (tv_options t))
                   | LocalMount _ | CacheMount _ => None
                   end) volumes with
  | [] => None
  | mounts => Some mounts
  end.

(** ** A container *)

(** What the overlay overrides: command, entrypoint, working directory,
    environment and ports. *)
Definition overrides (o : Overlay)
    : option string * option string * option string * option (gmap string string) * option (list PortMapping) :=
  match o with
  | Run run => (r_command run, r_entrypoint run, r_working_directory run, r_environment run, r_ports run)
  | Customise None => (None, None, None, None, None)
  | Customise (Some c) => (None, None, cu_working_directory c, cu_environment c, cu_ports c)
  end.

Section derive.
(** The order a [HashSet] is iterated in. *)
Context (iter_capabilities : gset Capability → list Capability).

Definition capability_names (capabilities : option (gset Capability)) : option (list string) :=
  match capabilities with
  | Some capabilities => Some (capability_as_str <$> iter_capabilities capabilities)
  | None => None
  end.

Definition derive_spec (i : ContainerSpecInputs) : ContainerSpec :=
  let c := in_container_config i in
  let '(command_override, entrypoint_override, working_directory_override, environment_override,
        ports_override) := overrides (in_overlay i) in
  let command := or_else command_override (c_command c) in
  let working_directory := or_else working_directory_override (c_working_directory c) in
  let entrypoint := or_else entrypoint_override (c_entrypoint c) in
  let proxy_vars := pe_variables <$> in_proxy i in
  let environment := merged_environment (in_term_var i) proxy_vars (c_environment c) environment_override in
  let identity := (λ identity, mk_identity_plan (id_home identity) (in_identity_host_user i)
                                 (id_additional_users identity)) <$> c_identity c in
  let environment :=
    match identity with
    | Some identity => Some (or_insert "HOME" (ip_home identity) (default ∅ environment))
    | None => environment
    end in
  let expanded_ports := merged_ports (c_ports c) ports_override in
  let network_options :=
    mk_network_options (c_additional_hostnames c) (c_additional_hosts c)
      (if shares_namespace (in_network i) then None else in_proxy i ≫= host_gateway)
      (if in_publish_ports i && negb (bool_decide (expanded_ports = [])) then Some expanded_ports else None) in
  let container_options :=
    mk_container_options working_directory entrypoint
      (capability_names (c_capabilities_to_add c)) (capability_names (c_capabilities_to_drop c))
      (c_privileged c) (c_shm_size c) (device_triples (c_devices c))
      (default false (c_enable_init_process c)) (c_log_driver c) (c_log_options c)
      (tmpfs_mounts (c_volumes c)) (ulimit_triples (c_ulimits c)) (c_groups c)
      (c_dns c) (c_dns_search c) (c_dns_options c) in
  let labels := for_container (in_run_labels i) (in_name i) (in_role i) (c_labels c) in
  let host_user := or_else (um_user <$> in_user_mapping i) (identity ≫= ip_host_user) in
  mk_container_spec
    (mk_shared_spec (in_name i) (in_docker_name i) (in_image i) command (in_volumes i) environment
       (in_network i) (bool_decide (is_Some host_user)) (process_user c host_user) (in_user_mapping i)
       identity network_options (health_check_options c) container_options)
    (in_role i) labels (in_interactive i) (in_additional_args i).
End derive.

(** ** A build *)

Inductive BuildSecretSource := SecretEnvironment (name : string) | SecretFile (path : string).
Inductive SshAgentSource := HostAgent | AgentSocket (path : string) | AgentKeys (paths : list string).

Record BuildKitOptions := mk_buildkit_options {
  bk_secrets : gmap string BuildSecretSource;
  bk_ssh_agents : gmap string SshAgentSource;
}.

Record BuildSpec := mk_build_spec {
  bs_build_directory : string;
  bs_dockerfile : string;
  bs_build_args : option (gmap string string);
  bs_target : option string;
  bs_buildkit : option BuildKitOptions;
  bs_tag : string;
  bs_force_pull : bool;
  bs_proxy_host_gateway : option HostGateway;
  bs_config_file_proxies : bool;
}.

(** What the host says of a file: [fs::metadata], its type followed through links. *)
Inductive file_answer := RegularFile | UnixSocket | OtherFile | FileMissing | FileUnreadable.

Section build.
Context (metadata : string → file_answer).

Definition is_socket (path : string) : bool :=
  match metadata path with UnixSocket => true | _ => false end.

Definition classify_ssh_agent_paths (id : string) (paths : list string) : result SshAgentSource spec_error :=
  match paths with
  | [] => Ok HostAgent
  | _ =>
      let paths := foldl push_new [] paths in
      match filter (λ path, is_socket path = true) paths, paths with
      | [], _ => Ok (AgentKeys paths)
      | [socket], [_] => Ok (AgentSocket socket)
      | [socket], _ => Err (SocketAndFiles id socket)
      | sockets, _ => Err (SeveralSockets id (length sockets))
      end
  end.

Definition check_secret_file (id path : string) : result () spec_error :=
  match metadata path with
  | RegularFile => Ok tt
  | UnixSocket | OtherFile => Err (SecretNotAFile id path)
  | FileMissing => Err (SecretMissing id path)
  | FileUnreadable => Err (SecretUnreadable id path)
  end.

(** The entries of a map in the order of their keys. *)
Definition sorted_entries {V} (m : gmap string V) : list (string * V) :=
  omap (λ k, pair k <$> m !! k) (sort_strings (elements (dom m))).

Definition secret_source (id : string) (secret : BuildSecret) : result BuildSecretSource spec_error :=
  match secret with
  | EnvironmentSecret name => Ok (SecretEnvironment name)
  | PathSecret path => let? _ := check_secret_file id path in Ok (SecretFile path)
  end.

Definition buildkit_options (container : Container) : result (option BuildKitOptions) spec_error :=
  match c_build_secrets container, c_build_ssh container with
  | None, None => Ok None
  | secrets, ssh =>
      let? ssh_agents :=
        try_fold (λ agents agent,
          let? source := classify_ssh_agent_paths (sa_id agent) (sa_paths agent) in
          Ok (<[sa_id agent := source]> agents)) (default [] ssh) ∅ in
      let? secret_sources :=
        try_fold (λ sources '(id, secret),
          let? source := secret_source id secret in
          Ok (<[id := source]> sources)) (sorted_entries (default ∅ secrets)) ∅ in
      Ok (Some (mk_buildkit_options secret_sources ssh_agents))
  end.

Definition derive_build_spec (container_config : Container) (build_directory dockerfile tag : string)
    (proxy : option ProxyEnvironment) (config_file_proxies : bool) : result BuildSpec spec_error :=
  let proxy_vars := pe_variables <$> proxy in
  let build_args := merged_environment None proxy_vars (c_build_args container_config) None in
  let? buildkit := buildkit_options container_config in
  Ok (mk_build_spec build_directory dockerfile build_args (c_build_target container_config) buildkit tag
        (bool_decide (default IfNotPresent (c_image_pull_policy container_config) = Always))
        (proxy ≫= host_gateway) config_file_proxies).
End build.
