(* ===== verification/HostMounts.v ===== *)
(** * HostMounts: the directories made on the host before a container is created

    [ensure_host_volume_directories_exist] of [ratect-core/src/docker.rs] and
    what it calls.  The host's file system is an interface: what it answers, and
    what a request leaves of it.  The requests made are recorded in order. *)

From S2P Require Import Prelude Text Io Regex Values Config Dockerignore Paths ContainerSpec.
From stdpp Require Import options.

(** ** Container paths *)

Definition is_special_docker_desktop_path (path : string) : bool :=
  path_starts_with path "/run/host-services" || path_starts_with path "/run/guest-services".

Definition container_path_segments `{PathClean} (path : string) : list string :=
  filter (λ c, c ≠ "." ∧ c ≠ "..") (components (clean path)).2.

(** ** The host *)

Inductive io_error := PermissionDenied | OtherIo.

(** [fs::symlink_metadata] *)
Inductive entry_answer := EntryFound | EntryNotFound | EntryUnknown.

Class HostFs (F : Type) := {
  path_exists : F → string → bool;
  is_dir : F → string → bool;
  canonicalize : F → string → option string;
  symlink_metadata : F → string → entry_answer;
  fs_create_dir_all : F → string → F * result () io_error;
  fs_create_new : F → string → F * result () io_error;
}.

Inductive request := MakeDirs (path : string) | MakeFile (path : string).

Inductive mount_error :=
| HostDirectoryFailed (path : string)
| MountPointFailed (container path : string).

Notation action F A := (Io.action F request mount_error A) (only parsing).

Section host.
Context {F : Type} `{!HostFs F, !PathClean}.

Definition create_dir_all (path : string) : action F (result () io_error) := λ f,
  let '(f, answer) := fs_create_dir_all f path in (f, [MakeDirs path], Ok answer).
Definition create_new (path : string) : action F (result () io_error) := λ f,
  let '(f, answer) := fs_create_new f path in (f, [MakeFile path], Ok answer).

(** ** The mounts' own sources *)

(** One round of the loop of [create_missing_host_sources]. *)
Definition missing_source (path : string) : action F () :=
  if is_special_docker_desktop_path path then act_ret tt
  else
    do! exists_ := act_read (λ f, path_exists f path) in
    if exists_ then act_ret tt
    else
      do! made := create_dir_all path in
      match made with Ok _ => act_ret tt | Err _ => act_fail (HostDirectoryFailed path) end.

Definition create_missing_host_sources (binds : list BindMount) : action F () :=
  act_each missing_source (omap host_path binds).

(** ** Mount points inside them *)

Record MountPoint := mk_mount_point {
  mp_container : string;
  mp_segments : list string;
  mp_host_source : option string;
}.

Definition mount_points (binds : list BindMount) (tmpfs : list (string * string)) : list MountPoint :=
  (λ p : string * option string, mk_mount_point p.1 (container_path_segments p.1) p.2) <$>
    (((λ b, (bm_container b, host_path b)) <$> binds) ++ ((λ p, (p.1, None)) <$> tmpfs)).

Definition encloses (mount parent : MountPoint) : Prop :=
  length (mp_segments parent) < length (mp_segments mount) ∧
  mp_segments parent `prefix_of` mp_segments mount.

(** [max_by_key]: of several at the maximum, the last. *)
Definition longer (best : option MountPoint) (m : MountPoint) : option MountPoint :=
  match best with
  | Some b => if length (mp_segments b) <=? length (mp_segments m) then Some m else best
  | None => Some m
  end.

Definition closest_parent (mounts : list MountPoint) (mount : MountPoint) : option MountPoint :=
  foldl longer None
    (filter (λ parent, (length (mp_segments parent) <? length (mp_segments mount)) = true ∧
                       mp_segments parent `prefix_of` mp_segments mount) mounts).

(** The loop of [missing_mount_point], [resolved] being what was reached so far. *)
Fixpoint follow (f : F) (root resolved : string) (relative : list string) : option string :=
  match relative with
  | [] => None
  | segment :: rest =>
      let next := path_join resolved segment in
      match symlink_metadata f next with
      | EntryFound =>
          match rest with
          | [] => None
          | _ =>
              real ← canonicalize f next;
              if negb (path_starts_with real root) || negb (is_dir f real) then None
              else follow f root real rest
          end
      | EntryNotFound => Some (foldl path_join resolved relative)
      | EntryUnknown => None
      end
  end.

Definition missing_mount_point (f : F) (parent_source : string) (relative : list string) : option string :=
  root ← canonicalize f parent_source;
  follow f root root relative.

(** What is created at [path]: an empty file for a source that is one. *)
Definition create_mount_point (source_is_a_file : bool) (path : string) : action F (result () io_error) :=
  if source_is_a_file then
    do! parent := (match path_parent path with
                   | Some parent => create_dir_all parent
                   | None => act_ret (Ok tt)
                   end) in
    match parent with Ok _ => create_new path | Err e => act_ret (Err e) end
  else create_dir_all path.

(** One round of the loop of [create_nested_mount_points]. *)
Definition nested_mount_point (mounts : list MountPoint) (mount : MountPoint) : action F () :=
  match closest_parent mounts mount with
  | None => act_ret tt
  | Some parent =>
      do! f := act_read id in
      match (source ← mp_host_source parent; if is_dir f source then Some source else None) with
      | None => act_ret tt
      | Some parent_source =>
          if match mp_host_source mount with
             | Some source => is_special_docker_desktop_path source
             | None => false
             end
          then act_ret tt
          else
            match missing_mount_point f parent_source
                    (drop (length (mp_segments parent)) (mp_segments mount)) with
            | None => act_ret tt
            | Some path =>
                let source_is_a_file :=
                  match mp_host_source mount with
                  | Some source => path_exists f source && negb (is_dir f source)
                  | None => false
                  end in
                do! created := create_mount_point source_is_a_file path in
                match created with
                | Ok _ | Err PermissionDenied => act_ret tt
                | Err OtherIo => act_fail (MountPointFailed (mp_container mount) path)
                end
            end
      end
  end.

Definition create_nested_mount_points (binds : list BindMount) (tmpfs : list (string * string))
    : action F () :=
  let mounts := mount_points binds tmpfs in act_each (nested_mount_point mounts) mounts.

Definition ensure_host_volume_directories_exist (binds : list BindMount) (tmpfs : list (string * string))
    : action F () :=
  do! _ := create_missing_host_sources binds in create_nested_mount_points binds tmpfs.
End host.

(** ** What is made on the host, and where *)

(** *** Requests in order *)

Section requests.
Context {F : Type} `{!HostFs F, !PathClean}.
#[local] Set Default Proof Using "Type".

Definition apply_request (f : F) (r : request) : F :=
  match r with
  | MakeDirs path => (fs_create_dir_all f path).1
  | MakeFile path => (fs_create_new f path).1
  end.
#[local] Notation run_requests := (Io.run_requests apply_request).
#[local] Notation justified := (Io.justified apply_request).

Lemma justified_dirs (P : F → request → Prop) path f :
  P f (MakeDirs path) → justified P (create_dir_all path) f.
Proof.
  intros HP f' asked a. unfold create_dir_all. destruct (fs_create_dir_all f path) as [f1 ans] eqn:E.
  intros [= <- <- <-]. split; [simpl; by rewrite E|].
  intros [|x pre] r post Heq; [|by destruct pre]. injection Heq as <- Hpost. by exists [].
Qed.

(** Two requests decided on at once. *)
Lemma justified_point (P : F → request → Prop) is_file path f :
  (is_file = false → P f (MakeDirs path)) →
  (is_file = true → P f (MakeFile path) ∧ ∀ parent, path_parent path = Some parent → P f (MakeDirs parent)) →
  justified P (create_mount_point is_file path) f.
Proof.
  intros Hd Hf. destruct is_file; [|by apply justified_dirs; auto].
  destruct (Hf eq_refl) as [HF Hpar]. clear Hd Hf.
  intros f' asked a. unfold create_mount_point, act_bind, create_dir_all, create_new.
  destruct (path_parent path) as [parent|].
  - destruct (fs_create_dir_all f parent) as [f1 ans] eqn:E. destruct ans as [u|e].
    + destruct (fs_create_new f1 path) as [f2 ans2] eqn:E2. intros [= <- <- <-].
      split; [simpl; by rewrite E; simpl; rewrite E2|].
      intros [|x pre] r post Heq; [injection Heq as <- _|injection Heq as <- Hpre].
      * exists []. split; [done|by apply Hpar].
      * destruct pre as [|y pre]; [|by destruct pre]. injection Hpre as <- <-.
        exists []. split; [apply prefix_nil|done].
    + intros [= <- <- <-]. split; [simpl; by rewrite E|].
      intros [|x pre] r post Heq; [injection Heq as <- _|by destruct pre].
      exists []. split; [done|by apply Hpar].
  - cbn. destruct (fs_create_new f path) as [f2 ans2] eqn:E2. intros [= <- <- <-].
    split; [simpl; by rewrite E2|].
    intros [|x pre] r post Heq; [|by destruct pre]. injection Heq as <- Hpost. by exists [].
Qed.
End requests.

#[local] Notation run_requests := (Io.run_requests apply_request).
#[local] Notation justified := (Io.justified apply_request).

(** *** Where a mount point is made *)

Class HostFsLaws (F : Type) `{!HostFs F} := {
  canonicalize_canonical : ∀ f p q, canonicalize f p = Some q → canonical q;
  create_dir_all_exists : ∀ f p f', fs_create_dir_all f p = (f', Ok tt) → path_exists f' p = true;
  create_dir_all_keeps : ∀ f p f' r q, fs_create_dir_all f p = (f', r) →
    path_exists f q = true → path_exists f' q = true;
  create_new_keeps : ∀ f p f' r q, fs_create_new f p = (f', r) →
    path_exists f q = true → path_exists f' q = true;
}.

Section point.
Context {F : Type} `{!HostFs F, !HostFsLaws F, !PathClean}.
#[local] Set Default Proof Using "Type*".

(** [resolved] is a directory of the host at or below [root], by its real path,
    whose entry for the first of [rest] is not there. *)
Definition free_below (f : F) (root resolved : string) (rest : list string) : Prop :=
  (resolved = root ∨ is_dir f resolved = true) ∧ path_starts_with resolved root = true ∧
  ∃ segment others, rest = segment :: others ∧
    symlink_metadata f (path_join resolved segment) = EntryNotFound.

Lemma starts_with_self p : path_starts_with p p = true.
Proof. unfold path_starts_with. by rewrite !bool_decide_true. Qed.

Lemma follow_spec f root relative resolved path :
  canonical resolved → path_starts_with resolved root = true → (resolved = root ∨ is_dir f resolved = true) →
  follow f root resolved relative = Some path →
  ∃ resolved' passed rest, relative = passed ++ rest ∧ canonical resolved' ∧
    free_below f root resolved' rest ∧ path = below resolved' rest.
Proof.
  revert resolved. induction relative as [|segment relative IH]; intros resolved Hc Hin Hdir; simpl; [done|].
  destruct (symlink_metadata f _) eqn:Hs; [|intros [= <-]|done].
  - destruct relative as [|s' relative]; [done|]. intros Hf.
    destruct (canonicalize f _) as [real|] eqn:Hreal; [|done]. cbn [mbind option_bind] in Hf.
    destruct (path_starts_with real root) eqn:Hst; [|done].
    destruct (is_dir f real) eqn:Hd; [|done]. cbn [negb orb] in Hf.
    destruct (IH real) as (r & passed & rest & Heq & ? & ? & ->); [| |by right| |].
    + by eapply canonicalize_canonical.
    + done.
    + exact Hf.
    + exists r, (segment :: passed), rest. by rewrite Heq.
  - exists resolved, [], (segment :: relative). split; [done|]. split; [done|]. split; [|done].
    split; [done|]. split; [done|]. by exists segment, relative.
Qed.

Lemma segments_ok path : Forall name_component (container_path_segments path).
Proof.
  unfold container_path_segments, components. apply Forall_forall. intros c.
  rewrite list_elem_of_filter. cbn [snd]. intros [[Hd Hdd] Hc].
  assert (c ∈ filter (.≠ EmptyString) (split "/" (clean path))) as Hc'.
  { destruct (filter (.≠ EmptyString) (split "/" (clean path))) as [|x l]; [done|].
    case_match; [apply elem_of_cons in Hc as [->|Hc]; [by left|right]|];
      by apply list_elem_of_filter in Hc as [_ ?]. }
  apply list_elem_of_filter in Hc' as [Hne Hin]. split; [done|]. split; [done|]. split; [done|].
  pose proof (split_parts "/" (clean path)) as Hp. rewrite Forall_forall in Hp. by apply Hp.
Qed.

Lemma longer_max l best :
  match foldl longer best l with
  | Some m => (m ∈ l ∨ best = Some m) ∧
      (∀ x, x ∈ l ∨ best = Some x → length (mp_segments x) ≤ length (mp_segments m))
  | None => l = [] ∧ best = None
  end.
Proof.
  revert best. induction l as [|x l IH]; intros best; simpl.
  { destruct best as [b|]; [|done]. split; [by right|]. intros x [[]%not_elem_of_nil|[= ->]]. done. }
  specialize (IH (longer best x)). destruct (foldl longer _ l) as [m|].
  - destruct IH as [Hm Hmax]. setoid_rewrite elem_of_cons. unfold longer in *.
    destruct best as [b|]; [destruct (length (mp_segments b) <=? _) eqn:E; bool_to_prop|].
    + split; [naive_solver|]. intros y [[->|?]|[= ->]]; [apply Hmax; by right|apply Hmax; by left|].
      etrans; [exact E|]. apply Hmax. by right.
    + split; [naive_solver|]. intros y [[->|?]|[= ->]]; [|apply Hmax; by left|apply Hmax; by right].
      etrans; [apply Nat.lt_le_incl, E|]. apply Hmax. by right.
    + split; [naive_solver|]. intros y [[->|?]|?]; [apply Hmax; by right|apply Hmax; by left|done].
  - destruct IH as [-> Hl]. unfold longer in Hl. by destruct best; [destruct (_ <=? _)|].
Qed.

Lemma closest_parent_spec mounts mount parent :
  closest_parent mounts mount = Some parent →
  parent ∈ mounts ∧ encloses mount parent ∧
  ∀ p, p ∈ mounts → encloses mount p → length (mp_segments p) ≤ length (mp_segments parent).
Proof.
  unfold closest_parent. intros Hp. set (l := filter _ mounts) in Hp.
  pose proof (longer_max l None) as Hl. rewrite Hp in Hl. destruct Hl as [[Hin|[=]] Hmax].
  assert (∀ p, p ∈ l ↔ p ∈ mounts ∧ encloses mount p) as Hel.
  { intros p. unfold l, encloses. rewrite list_elem_of_filter, Nat.ltb_lt. tauto. }
  apply Hel in Hin as [Hin Henc]. split; [done|]. split; [done|].
  intros p Hp1 Hp2. apply Hmax. left. by apply Hel.
Qed.
End point.

(** *** What is made *)

Section made.
Context {F : Type} `{!HostFs F, !PathClean}.
#[local] Set Default Proof Using "Type".

(** The missing source of a mount. *)
Definition source_made (binds : list BindMount) (f : F) (r : request) : Prop :=
  ∃ b path, b ∈ binds ∧ host_path b = Some path ∧ r = MakeDirs path ∧
    is_special_docker_desktop_path path = false ∧ path_exists f path = false.

Definition source_is_file (f : F) (mount : MountPoint) : bool :=
  match mp_host_source mount with
  | Some source => path_exists f source && negb (is_dir f source)
  | None => false
  end.

(** A mount point inside the host directory of the closest mount around it. *)
Definition point_made (mounts : list MountPoint) (f : F) (r : request) : Prop :=
  ∃ mount parent source root resolved passed rest,
    mount ∈ mounts ∧ parent ∈ mounts ∧ encloses mount parent ∧
    (∀ p, p ∈ mounts → encloses mount p → length (mp_segments p) ≤ length (mp_segments parent)) ∧
    mp_host_source parent = Some source ∧ is_dir f source = true ∧ canonicalize f source = Some root ∧
    mp_segments mount = mp_segments parent ++ passed ++ rest ∧
    free_below f root resolved rest ∧ path_starts_with (below resolved rest) root = true ∧
    if source_is_file f mount
    then r = MakeFile (below resolved rest) ∨ r = MakeDirs (below resolved (removelast rest))
    else r = MakeDirs (below resolved rest).

Lemma sources_justified binds f :
  justified (source_made binds) (create_missing_host_sources binds) f.
Proof.
  unfold create_missing_host_sources. apply justified_each. intros path f1 Hp.
  apply list_elem_of_omap in Hp as (b & Hb & Hpath). unfold missing_source.
  destruct (is_special_docker_desktop_path path) eqn:Hs; [apply justified_ret|].
  apply justified_bind; [apply justified_read|]. intros f2 asked ex [= <- <- <-].
  destruct (path_exists f1 path) eqn:He; [apply justified_ret|].
  apply justified_bind; [apply justified_dirs; by exists b, path|].
  intros f3 asked3 [[]|e] _; [apply justified_ret|apply justified_fail].
Qed.

Lemma path_starts_below root resolved rest :
  canonical resolved → Forall name_component rest → path_starts_with resolved root = true →
  path_starts_with (below resolved rest) root = true.
Proof.
  intros Hc Hrest. unfold path_starts_with. destruct (below_spec resolved rest Hc (names_path_components _ Hrest)) as [_ ->].
  rewrite !andb_true_iff, !bool_decide_eq_true. cbn [fst snd].
  rewrite (canonical_components resolved Hc). cbn [fst snd].
  intros [? Hp]. split; [done|]. by apply prefix_app_r.
Qed.

Context `{!HostFsLaws F}.

Lemma nested_justified binds tmpfs mount f :
  mount ∈ mount_points binds tmpfs →
  justified (point_made (mount_points binds tmpfs)) (nested_mount_point (mount_points binds tmpfs) mount) f.
Proof using HostFsLaws0.
  intros Hmount. unfold nested_mount_point.
  destruct (closest_parent _ mount) as [parent|] eqn:Hpar; [|apply justified_ret].
  destruct (closest_parent_spec _ _ _ Hpar) as (Hparent & Henc & Hmax).
  apply justified_bind; [apply justified_read|]. intros f2 asked f1 [= <- <- <-].
  destruct (mp_host_source parent) as [source|] eqn:Hsource; [|apply justified_ret].
  cbn [mbind option_bind]. destruct (is_dir f source) eqn:Hdir; [|apply justified_ret].
  destruct (match mp_host_source mount with Some _ => _ | None => _ end); [apply justified_ret|].
  destruct (missing_mount_point f source _) as [path|] eqn:Hmiss; [|apply justified_ret].
  apply bind_Some in Hmiss as (root & Hroot & Hfollow).
  pose proof (canonicalize_canonical _ _ _ Hroot) as Hcanon.
  apply follow_spec in Hfollow as (resolved & passed & rest & Hrel & Hc & Hfree & ->);
    [|done|apply starts_with_self|by left].
  assert (mp_segments mount = mp_segments parent ++ passed ++ rest) as Hsegs.
  { rewrite <-Hrel. destruct Henc as [_ [k Hk]]. rewrite Hk, drop_app_length. done. }
  assert (Forall name_component rest) as Hrest.
  { assert (Forall name_component (mp_segments mount)) as Hall.
    { unfold mount_points in Hmount. apply list_elem_of_fmap in Hmount as (p & -> & _). apply segments_ok. }
    rewrite Hsegs in Hall. by apply Forall_app in Hall as [_ [_ ?]%Forall_app]. }
  assert (∀ r, (if source_is_file f mount
      then r = MakeFile (below resolved rest) ∨ r = MakeDirs (below resolved (removelast rest))
      else r = MakeDirs (below resolved rest)) → point_made (mount_points binds tmpfs) f r) as Hmade.
  { intros r Hr. exists mount, parent, source, root, resolved, passed, rest.
    pose proof Hfree as (_ & Hst & _). repeat (split; [done|]). split; [by apply path_starts_below|done]. }
  fold (source_is_file f mount). apply justified_bind.
  - apply justified_point; intros Hf; rewrite Hf in Hmade; [by apply Hmade|].
    split; [apply Hmade; by left|]. intros q. rewrite below_parent; [|done|by apply names_path_components|].
    + intros [= <-]. apply Hmade. by right.
    + destruct Hfree as (_ & _ & s & k & -> & _). done.
  - intros f3 asked3 [u|[]] _; [apply justified_ret..|apply justified_fail].
Qed.

Lemma exists_kept f l q : path_exists f q = true → path_exists (run_requests f l) q = true.
Proof using HostFsLaws0.
  revert f. induction l as [|[p|p] l IH]; intros f Hq; simpl; [done| |]; apply IH.
  - destruct (fs_create_dir_all f p) eqn:E. by eapply create_dir_all_keeps.
  - destruct (fs_create_new f p) eqn:E. by eapply create_new_keeps.
Qed.

Lemma missing_source_exists path f f' asked :
  missing_source path f = (f', asked, Ok tt) → is_special_docker_desktop_path path = false →
  path_exists f' path = true.
Proof using HostFsLaws0.
  intros Hrun Hs. unfold missing_source in Hrun. rewrite Hs in Hrun. revert Hrun.
  unfold act_bind, act_read, create_dir_all, act_ret, act_fail.
  destruct (path_exists f path) eqn:He; [by intros [= <- _]|].
  destruct (fs_create_dir_all f path) as [f1 [[]|e]] eqn:E; [|done].
  intros [= <- _]. by eapply create_dir_all_exists.
Qed.

Lemma sources_exist paths f f' asked :
  act_each missing_source paths f = (f', asked, Ok tt) →
  ∀ path, path ∈ paths → is_special_docker_desktop_path path = false → path_exists f' path = true.
Proof using HostFsLaws0.
  assert (∀ paths f f' asked u, act_each missing_source paths f = (f', asked, Ok u) →
    f' = run_requests f asked) as Hruns.
  { intros ps g g' k u Hrun.
    assert (justified (λ _ _, True) (act_each missing_source ps) g) as Hj.
    { apply justified_each. intros q g1 _. unfold missing_source. case_match; [apply justified_ret|].
      apply justified_bind; [apply justified_read|]. intros g2 k2 ex _. destruct ex; [apply justified_ret|].
      apply justified_bind; [by apply justified_dirs|].
      intros g3 k3 [[]|e] _; [apply justified_ret|apply justified_fail]. }
    by apply (Hj _ _ _ Hrun). }
  revert f f' asked. induction paths as [|x paths IH]; intros f f' asked Hrun path; [by intros ?%not_elem_of_nil|].
  simpl in Hrun. unfold act_bind in Hrun. destruct (missing_source x f) as [[f1 k1] [[]|e]] eqn:E1; [|done].
  destruct (act_each missing_source paths f1) as [[f2 k2] r2] eqn:E2. injection Hrun as <- <- ->.
  intros [->|Hin]%elem_of_cons Hs; [|by eapply IH].
  rewrite (Hruns _ _ _ _ _ E2). apply exists_kept. by eapply missing_source_exists.
Qed.
End made.

(** *** Properties *)

(** C9: What [ensure_host_volume_directories_exist] makes on the host.  Every
    request it makes, whether it then succeeds or fails, is for the missing
    source of a host mount, or for a mount point inside the closest mount around
    it, that one being a host directory: at or below that directory's real path,
    under a directory reached without leaving it, and not there yet, an empty
    file only where a file is mounted.  Once it succeeds every host mount's
    source exists, Docker Desktop's own paths apart. *)
Theorem ensure_host_directories_spec {F : Type} `{!HostFs F, !PathClean, !HostFsLaws F} binds tmpfs
    (f f' : F) asked res :
  ensure_host_volume_directories_exist binds tmpfs f = (f', asked, res) →
  f' = run_requests f asked ∧
  (∀ pre r post, asked = pre ++ r :: post → ∃ pre0, pre0 `prefix_of` pre ∧
     (source_made binds (run_requests f pre0) r ∨
      point_made (mount_points binds tmpfs) (run_requests f pre0) r)) ∧
  (res = Ok tt → ∀ b path, b ∈ binds → host_path b = Some path →
     is_special_docker_desktop_path path = false → path_exists f' path = true).
Proof.
  intros Hrun. set (P := λ f r, source_made binds f r ∨ point_made (mount_points binds tmpfs) f r).
  assert (∀ f, justified P (create_nested_mount_points binds tmpfs) f) as Hnested.
  { intros g. unfold create_nested_mount_points. apply justified_each. intros mount g1 Hm.
    apply (justified_weaken _ (point_made (mount_points binds tmpfs))); [by right|].
    by apply nested_justified. }
  assert (justified P (ensure_host_volume_directories_exist binds tmpfs) f) as Hj.
  { apply justified_bind; [|done]. apply (justified_weaken _ (source_made binds)); [by left|].
    apply sources_justified. }
  destruct (Hj _ _ _ Hrun) as [Hf' Hasked]. split; [done|]. split; [exact Hasked|].
  intros -> b path Hb Hpath Hs. unfold ensure_host_volume_directories_exist, act_bind in Hrun.
  destruct (create_missing_host_sources binds f) as [[f1 k1] [[]|e]] eqn:E1; [|done].
  destruct (create_nested_mount_points binds tmpfs f1) as [[f2 k2] r2] eqn:E2. injection Hrun as <- <- ->.
  destruct (Hnested _ _ _ _ E2) as [-> _]. apply exists_kept.
  apply (sources_exist _ _ _ _ E1); [|done]. apply list_elem_of_omap. by exists b.
Qed.

(** *** A host *)


(** Every entry is a directory, none a link. *)
#[local] Instance example_host : HostFs (list string) := {
  path_exists f p := bool_decide (p ∈ f);
  is_dir f p := bool_decide (p ∈ f);
  canonicalize f p := if decide (canonical p ∧ p ∈ f) then Some p else None;
  symlink_metadata f p := if decide (p ∈ f) then EntryFound else EntryNotFound;
  fs_create_dir_all f p := (p :: f, Ok tt);
  fs_create_new f p := (p :: f, Ok tt);
}.

#[local] Instance example_host_laws : HostFsLaws (list string).
Proof.
  split; simpl.
  - intros f p q. case_decide as Hc; [|done]. intros [= <-]. apply Hc.
  - intros f p f' [= <-]. apply bool_decide_eq_true. by left.
  - intros f p f' r q [= <- _]. rewrite !bool_decide_eq_true. by right.
  - intros f p f' r q [= <- _]. rewrite !bool_decide_eq_true. by right.
Defined.

#[local] Instance example_clean : PathClean := {| clean s := s |}.

Definition example_binds : list BindMount :=
  [mk_bind_mount (HostSource "/src") "/code" None; mk_bind_mount (VolumeSource "cache") "/code/target" None;
   mk_bind_mount (HostSource "/home/data") "/data" (Some "ro")].

Example ensure_host_directories_spec_witness :
  ∃ f', ensure_host_volume_directories_exist example_binds [] ["/src"] =
      (f', [MakeDirs "/home/data"; MakeDirs "/src/target"], Ok tt) ∧
    path_exists f' "/home/data" = true.
Proof.
  destruct (ensure_host_volume_directories_exist example_binds [] ["/src"]) as [[f' asked] res] eqn:Hrun.
  pose proof (ensure_host_directories_spec _ _ _ _ _ _ Hrun) as (_ & _ & Hex).
  assert (res = Ok tt) as Hres by (transitivity ((f', asked, res).2); [reflexivity|rewrite <-Hrun; vm_compute; reflexivity]).
  assert (asked = [MakeDirs "/home/data"; MakeDirs "/src/target"]) as Hasked
    by (transitivity ((f', asked, res).1.2); [reflexivity|rewrite <-Hrun; vm_compute; reflexivity]).
  exists f'. rewrite Hres, Hasked. split; [reflexivity|].
  refine (Hex Hres (mk_bind_mount (HostSource "/home/data") "/data" (Some "ro")) "/home/data" _ _ _);
    [|reflexivity|vm_compute; reflexivity]. by right; right; left.
Defined.
