(* ===== verification/ContainerRequest.v ===== *)
(** * ContainerRequest: the request a container is created by

    [container_config] of [ratect-core/src/docker.rs] and the builders of its
    parts.  The records are the fields of Docker's API that the code fills in. *)

From S2P Require Import Prelude Text Collections Values Config Passwd Labels Proxy CommandLine.
From S2P Require Import ContainerSpec Dockerignore Paths HostMounts.
From stdpp Require Import options.

(** ** Docker's types *)

Record PortBinding := mk_port_binding { pb_host_ip : option string; pb_host_port : option string }.
#[global] Instance PortBinding_eq_dec : EqDecision PortBinding.
Proof. solve_decision. Defined.

Notation PortMap := (gmap string (option (list PortBinding))).

Record DeviceRequest := mk_device_request {
  dr_path_on_host : option string;
  dr_path_in_container : option string;
  dr_cgroup_permissions : option string;
}.

Record ResourcesUlimits := mk_resources_ulimits {
  ru_name : option string;
  ru_soft : option Z;
  ru_hard : option Z;
}.

Record LogConfig := mk_log_config { lc_typ : option string; lc_config : option (gmap string string) }.

Record HealthConfig := mk_health_config {
  hcf_test : option (list string);
  hcf_interval : option Z;
  hcf_timeout : option Z;
  hcf_retries : option Z;
  hcf_start_period : option Z;
  hcf_start_interval : option Z;
}.

(** The one endpoint of a container on the task's network, and its aliases. *)
Record NetworkingConfig := mk_networking_config { nc_endpoints : gmap string (list string) }.

Record HostConfig := mk_host_config {
  hc_binds : option (list string);
  hc_extra_hosts : option (list string);
  hc_port_bindings : option PortMap;
  hc_cap_add : option (list string);
  hc_cap_drop : option (list string);
  hc_privileged : option bool;
  hc_shm_size : option Z;
  hc_devices : option (list DeviceRequest);
  hc_init : option bool;
  hc_log_config : option LogConfig;
  hc_tmpfs : option (gmap string string);
  hc_ulimits : option (list ResourcesUlimits);
  hc_group_add : option (list string);
  hc_dns : option (list string);
  hc_dns_search : option (list string);
  hc_dns_options : option (list string);
  hc_network_mode : option string;
}.

Record CreateConfig := mk_create_config {
  cc_hostname : option string;
  cc_image : option string;
  cc_cmd : option (list string);
  cc_entrypoint : option (list string);
  cc_env : option (list string);
  cc_exposed_ports : option (list string);
  cc_attach_stdout : option bool;
  cc_attach_stderr : option bool;
  cc_tty : option bool;
  cc_open_stdin : option bool;
  cc_attach_stdin : option bool;
  cc_stdin_once : option bool;
  cc_user : option string;
  cc_healthcheck : option HealthConfig;
  cc_working_dir : option string;
  cc_labels : option (gmap string string);
  cc_host_config : option HostConfig;
  cc_networking_config : option NetworkingConfig;
}.

(** ** The builders *)

Definition env_entry (p : string * string) : string := p.1 +:+ "=" +:+ p.2.

Definition build_env (environment : option (gmap string string)) : option (list string) :=
  match environment with
  | Some environment => Some (sort_strings (env_entry <$> map_to_list environment))
  | None => None
  end.

Definition host_entry (p : string * string) : string := p.1 +:+ ":" +:+ p.2.

Definition build_extra_hosts (additional_hosts : option (gmap string string))
    (host_gateway : option HostGateway) : option (list string) :=
  match additional_hosts, host_gateway with
  | None, None => None
  | _, _ =>
      let hosts : gmap string string :=
        match host_gateway with Some g => {[hg_name g := hg_address g]} | None => ∅ end in
      Some (sort_strings (host_entry <$> map_to_list (extend hosts additional_hosts)))
  end.

Definition build_devices (devices : option (list (string * string * option string)))
    : option (list DeviceRequest) :=
  match devices with
  | Some devices =>
      Some ((λ '(local, container, options),
        mk_device_request (Some local) (Some container) (Some (default "rwm" options))) <$> devices)
  | None => None
  end.

Definition build_network_mode (network : ContainerNetwork) : string :=
  match network with
  | TaskNetwork name => name
  | HostNetwork => "host"
  | NoNetwork => "none"
  | NetworkOf id => "container:" +:+ id
  end.

Definition build_networking_config (network : ContainerNetwork) (name : string)
    (additional_hostnames : option (list string)) : option NetworkingConfig :=
  match network with
  | TaskNetwork network => Some (mk_networking_config {[network := name :: default [] additional_hostnames]})
  | _ => None
  end.

Definition build_hostname (name : string) (network : ContainerNetwork) : option string :=
  if shares_namespace network then None else Some name.

Definition build_ulimits (ulimits : option (list (string * Z * Z))) : option (list ResourcesUlimits) :=
  match ulimits with
  | Some ulimits =>
      Some ((λ '(name, soft, hard), mk_resources_ulimits (Some name) (Some soft) (Some hard)) <$> ulimits)
  | None => None
  end.

(** [collect] into a map: the last of a repeated path wins. *)
Definition build_tmpfs_mounts (tmpfs : option (list (string * string))) : option (gmap string string) :=
  match tmpfs with Some tmpfs => Some (list_to_map (reverse tmpfs)) | None => None end.

Definition build_log_config (log_driver : option string) (log_options : option (gmap string string))
    : option LogConfig :=
  driver ← log_driver; Some (mk_log_config (Some driver) log_options).

(** [i64::try_from(nanos).unwrap_or(i64::MAX)] *)
Definition nanos (d : N) : Z := (Z.of_N d `min` i64_max)%Z.

Definition build_health_config (health_check : option HealthCheckOptions) : option HealthConfig :=
  match health_check with
  | Some h =>
      Some (mk_health_config ((λ command, ["CMD-SHELL"; command]) <$> ho_command h)
              (nanos <$> ho_interval h) (nanos <$> ho_timeout h) (Z.of_N <$> ho_retries h)
              (nanos <$> ho_start_period h) None)
  | None => None
  end.

Definition port_key (container_port : N) (protocol : string) : string :=
  show_N container_port +:+ "/" +:+ protocol.
Definition port_binding (local_port : N) : PortBinding := mk_port_binding None (Some (show_N local_port)).

(** One round of the loop of [build_port_config]. *)
Definition add_port (st : list string * PortMap) (t : port_triple) : list string * PortMap :=
  let '(exposed, bindings) := st in
  let '(local_port, container_port, protocol) := t in
  let key := port_key container_port protocol in
  (push_new exposed key,
   <[key := Some (push_new (default [] (default None (bindings !! key))) (port_binding local_port))]> bindings).

Definition build_port_config (ports : option (list port_triple)) : option (list string * PortMap) :=
  match ports with
  | None | Some [] => None
  | Some ports => Some (foldl add_port ([], ∅) ports)
  end.

(** ** Terminals *)

Inductive ContainerIoStreaming := TaskContainerOnly | Interleaved.
Definition allows_interactive (s : ContainerIoStreaming) : bool :=
  match s with TaskContainerOnly => true | Interleaved => false end.

Definition should_use_tty (interactive stdin_is_tty stdout_is_tty : bool) : bool :=
  interactive && stdin_is_tty && stdout_is_tty.

(** What the process is connected to. *)
Record Terminal := mk_terminal { te_streaming : ContainerIoStreaming; te_stdin : bool; te_stdout : bool }.

Definition task_container_io (t : Terminal) (spec : ContainerSpec) : bool * bool :=
  let interactive := cs_interactive spec && allows_interactive (te_streaming t) in
  (interactive, should_use_tty interactive (te_stdin t) (te_stdout t)).

Definition then_true (b : bool) : option bool := if b then Some true else None.

Record StdinFlags := mk_stdin_flags {
  sf_tty : option bool;
  sf_open_stdin : option bool;
  sf_attach_stdin : option bool;
  sf_stdin_once : option bool;
}.

Definition stdin_flags (interactive use_tty : bool) : StdinFlags :=
  mk_stdin_flags (then_true use_tty) (then_true interactive) (then_true interactive) (then_true interactive).

(** ** The daemon's place *)

Inductive DaemonClass := Rootless | UsernsRemap | Desktop | RootfulLinux.
#[global] Instance DaemonClass_eq_dec : EqDecision DaemonClass.
Proof. solve_decision. Defined.
Definition is_remapped (c : DaemonClass) : bool :=
  match c with Rootless | UsernsRemap => true | Desktop | RootfulLinux => false end.

Inductive Transport := LocalSocket | NetworkTransport.
#[global] Instance Transport_eq_dec : EqDecision Transport.
Proof. solve_decision. Defined.

Definition transport_of_host (host : string) : Transport :=
  if starts_with "unix://" host || starts_with "npipe://" host then LocalSocket else NetworkTransport.

Definition classify (security_options : list string) (host_os : string) (transport : Transport)
    : DaemonClass :=
  let reports entry := bool_decide (entry ∈ security_options) in
  if reports "name=rootless" then Rootless
  else if reports "name=userns" then UsernsRemap
  else if bool_decide (host_os ∈ ["macos"; "windows"]) && bool_decide (transport = LocalSocket) then Desktop
  else RootfulLinux.

Definition creates_host_directories (shared : SharedContainerSpec) (transport : Transport) : bool :=
  sh_runs_as_host_user shared
  && (match sh_user_mapping shared with Some _ => true | None => false end
      || bool_decide (transport = LocalSocket)).

(** ** The request *)

Inductive create_error := HostNotPrepared (e : mount_error) | BadCommand (e : command_error).

Definition create_request (t : Terminal) (spec : ContainerSpec) : result CreateConfig command_error :=
  let shared := cs_shared spec in
  let options := sh_options shared in
  let network_options := sh_network_options shared in
  let? cmd := build_cmd (sh_command shared) (cs_additional_args spec) in
  let? entrypoint := match co_entrypoint options with
                     | Some e => let? argv := tokenize_command_line e in Ok (Some argv)
                     | None => Ok None
                     end in
  let port_config := build_port_config (no_ports network_options) in
  let is_task_container := bool_decide (cs_role spec = TaskRole) in
  let '(interactive, use_tty) := task_container_io t spec in
  let stdin := stdin_flags interactive use_tty in
  let host_config :=
    mk_host_config
      (match sh_volumes shared with Some binds => Some (to_bind_string <$> binds) | None => None end)
      (build_extra_hosts (no_additional_hosts network_options) (no_proxy_host_gateway network_options))
      (snd <$> port_config)
      (co_capabilities_to_add options) (co_capabilities_to_drop options) (co_privileged options)
      (co_shm_size options) (build_devices (co_devices options)) (Some (co_enable_init_process options))
      (build_log_config (co_log_driver options) (co_log_options options))
      (build_tmpfs_mounts (co_tmpfs options)) (build_ulimits (co_ulimits options)) (co_groups options)
      (co_dns options) (co_dns_search options) (co_dns_options options)
      (Some (build_network_mode (sh_network shared))) in
  Ok (mk_create_config
        (build_hostname (sh_name shared) (sh_network shared)) (Some (sh_image shared)) cmd entrypoint
        (build_env (sh_environment shared)) (fst <$> port_config)
        (then_true is_task_container) (then_true is_task_container)
        (sf_tty stdin) (sf_open_stdin stdin) (sf_attach_stdin stdin) (sf_stdin_once stdin)
        (sh_process_user shared) (build_health_config (sh_health_check shared))
        (co_working_directory options) (Some (cs_labels spec)) (Some host_config)
        (build_networking_config (sh_network shared) (sh_name shared)
           (no_additional_hostnames network_options))).

Definition container_config {F : Type} `{!HostFs F, !PathClean} (transport : Transport) (t : Terminal)
    (spec : ContainerSpec) (f : F) : F * list request * result CreateConfig create_error :=
  let shared := cs_shared spec in
  let '(f, asked, prepared) :=
    if creates_host_directories shared transport then
      ensure_host_volume_directories_exist (default [] (sh_volumes shared))
        (default [] (co_tmpfs (sh_options shared))) f
    else (f, [], Ok tt) in
  (f, asked,
   let? _ := map_err HostNotPrepared prepared in
   map_err BadCommand (create_request t spec)).
