(* ===== verification/ContainerFiles.v ===== *)
(** * ContainerFiles: the files of a created container

    The archive calls of [ratect-core/src/docker.rs]: what is uploaded into a
    container that was created and not started, what is read from it, and
    [create_container]'s preparation of one that runs as the host user.  An
    archive is the entries the [tar] crate writes into it or reads from it; the
    daemon's archive API is an interface, whose state changes with every call
    (the first one makes the mounts' destinations).  Uploads and warnings are
    recorded in order. *)

From S2P Require Import Prelude Text Config Values Passwd ContainerSpec Dockerignore Paths IncludeTrust Io.
From S2P Require Import ContainerRequest.
From stdpp Require Import options.

(** ** Data *)

Record CreatedContainerFacts := mk_facts {
  cf_user : string;
  cf_mount_destinations : list string;
  cf_tmpfs_destinations : list string;
}.

Inductive ContainerPathKind := KindDirectory | KindRegularFile | KindSymbolicLink | KindOther.
#[global] Instance ContainerPathKind_eq_dec : EqDecision ContainerPathKind.
Proof. solve_decision. Defined.

Record ContainerPathStat := mk_stat { st_kind : ContainerPathKind; st_size : N }.

(** [from_go_file_mode]: [file_mode] is a [u32], [size] an [i64]. *)
Definition from_go_file_mode (file_mode : N) (size : Z) : ContainerPathStat :=
  let has bits := negb (N.land file_mode bits =? 0)%N in
  let kind :=
    if has (N.shiftl 1 31) then KindDirectory
    else if has (N.shiftl 1 27) then KindSymbolicLink
    else if has (N.lor (N.shiftl 1 26) (N.lor (N.shiftl 1 25) (N.lor (N.shiftl 1 24)
           (N.lor (N.shiftl 1 21) (N.shiftl 1 19))))) then KindOther
    else KindRegularFile in
  mk_stat kind (if (size <? 0)%Z then 0%N else Z.to_N size).

Record ContainerFile := mk_file {
  fi_contents : list ascii;
  fi_mode : N;
  fi_uid : N;
  fi_gid : N;
}.
#[global] Instance ContainerFile_eq_dec : EqDecision ContainerFile.
Proof. solve_decision. Defined.

Record DirectoryOwnership := mk_ownership { ow_uid : N; ow_mode : N }.

(** ** Archives *)

Inductive EntryType := RegularEntry | DirectoryEntry.
#[global] Instance EntryType_eq_dec : EqDecision EntryType.
Proof. solve_decision. Defined.

(** An entry as it is written. *)
Record TarEntry := mk_entry {
  te_path : string;
  te_type : EntryType;
  te_mode : N;
  te_uid : N;
  te_gid : N;
  te_contents : list ascii;
}.
#[global] Instance TarEntry_eq_dec : EqDecision TarEntry.
Proof. solve_decision. Defined.

(** An entry as it is read: its header's numbers may not be ones, and its
    contents may break off. *)
Record ReadEntry := mk_read_entry {
  re_is_file : bool;
  re_mode : option N;
  re_uid : option N;
  re_gid : option N;
  re_contents : option (list ascii);
}.

(** The [tar] crate: the first entry of an archive that may be incomplete, and
    the paths [append_data] takes and those [Header::set_path] takes. *)
Class TarCrate := {
  first_entry : list ascii → option ReadEntry;
  path_allowed : string → bool;
  header_path_allowed : string → bool;
}.

Inductive file_error :=
| NoFileName (path : string)
| NotAbsolutePath (path : string)
| BadEntryPath (path : string)
| BadArchive (path : string)
| DaemonFailed (what path : string).

Section archives.
Context `{!TarCrate}.

Definition parse_container_file_tar (archive : list ascii) : option ContainerFile :=
  entry ← first_entry archive;
  if negb (re_is_file entry) then None
  else
    contents ← re_contents entry;
    mode ← re_mode entry;
    uid ← re_uid entry;
    gid ← re_gid entry;
    Some (mk_file contents mode uid gid).

Definition first_entry_ownership (archive : list ascii) : option DirectoryOwnership :=
  entry ← first_entry archive;
  uid ← re_uid entry;
  mode ← re_mode entry;
  Some (mk_ownership uid (N.land mode 4095)).

Definition append (entry : TarEntry) : result TarEntry file_error :=
  let? _ := ensure (path_allowed (te_path entry)) (BadEntryPath (te_path entry)) in
  Ok entry.

Definition build_container_file_tar (path : string) (file : ContainerFile)
    : result (list TarEntry) file_error :=
  let? leaf_name := ok_or (file_name path) (NoFileName path) in
  let? entry := append (mk_entry leaf_name RegularEntry (fi_mode file) (fi_uid file) (fi_gid file)
                          (fi_contents file)) in
  Ok [entry].

(** The entries of [relative]'s directories: [passed] were there already. *)
Fixpoint new_directories (passed rest : list string) (owner : DirectoryOwner)
    : result (list TarEntry) file_error :=
  match rest with
  | [] => Ok []
  | component :: rest =>
      let path := of_components (false, passed ++ [component]) in
      let '(uid, gid) := match rest with [] => (do_uid owner, do_gid owner) | _ => (0, 0)%N end in
      let? entry := append (mk_entry path DirectoryEntry 493 uid gid []) in
      let? entries := new_directories (passed ++ [component]) rest owner in
      Ok (entry :: entries)
  end.

Definition build_new_directories_tar (relative : string) (owner : DirectoryOwner)
    : result (list TarEntry) file_error :=
  new_directories [] (components relative).2 owner.

Definition append_tar_file (name contents : string) (mode : N) : result TarEntry file_error :=
  append (mk_entry name RegularEntry mode 0 0 (chars contents)).

Definition build_user_mapping_tar (mapping : UserMapping) : result (list TarEntry) file_error :=
  let user := um_user mapping in
  let? passwd := append_tar_file "passwd" (generate_passwd_file user (um_home_directory mapping)) 420 in
  let? shadow := append_tar_file "shadow" (generate_shadow_file user) 416 in
  let? group := append_tar_file "group" (generate_group_file user) 420 in
  Ok [passwd; shadow; group].

Definition build_owned_directory_tar (path : string) (uid gid : N) : result (list TarEntry) file_error :=
  let? _ := ensure (starts_with "/" path) (NotAbsolutePath path) in
  let? leaf_name := ok_or (file_name path) (NoFileName path) in
  let? _ := ensure (header_path_allowed (leaf_name +:+ "/")) (BadEntryPath path) in
  Ok [mk_entry (leaf_name +:+ "/") DirectoryEntry 493 uid gid []].

Definition build_directory_ownership_tar (path : string) (owner : DirectoryOwner) (mode : N)
    : result (list TarEntry) file_error :=
  let? _ := ensure (starts_with "/" path) (NotAbsolutePath path) in
  let? entry := append (mk_entry (of_components (false, (components path).2)) DirectoryEntry mode
                          (do_uid owner) (do_gid owner) []) in
  Ok [entry].
End archives.

Definition owned_directory_parent (path : string) : string :=
  match path_parent path with
  | Some parent => if bool_decide (parent = EmptyString) then "/" else parent
  | None => "/"
  end.

(** ** The daemon's calls *)

(** What [get_container_archive_info] answers. *)
Inductive info_answer := InfoFound (file_mode : N) (size : Z) | InfoNotFound | InfoFailed.

(** The daemon: what each call leaves of it and answers.  A download is the
    chunks that arrive and whether it then fails. *)
Class ArchiveApi (D : Type) := {
  get_container_archive_info : D → string → string → D * info_answer;
  download_from_container : D → string → string → D * (list (list ascii) * bool);
  upload_to_container : D → string → string → list TarEntry → D * bool;
  inspect_container : D → string → D * option CreatedContainerFacts;
  daemon_class_of : D → D * option DaemonClass;
  request_create : D → string → CreateConfig → D * option string;
}.

Inductive request :=
| Uploaded (container_id into : string) (entries : list TarEntry)
| Warned (name image_user : string) (class : DaemonClass).
#[global] Instance request_eq_dec : EqDecision request.
Proof. solve_decision. Defined.

Notation act D A := (Io.action D request file_error A) (only parsing).

Section calls.
Context {D : Type} `{!TarCrate, !ArchiveApi D}.

(** A call that changes nothing Ratect asked it to. *)
Definition act_call {E A} (call : D → D * result A E) : Io.action D request E A := λ d,
  let '(d, a) := call d in (d, [], a).

Definition upload (container_id into path : string) (entries : list TarEntry) : act D () :=
  act_ask (Uploaded container_id into entries) (λ d,
    let '(d, ok) := upload_to_container d container_id into entries in
    (d, ensure ok (DaemonFailed "upload" path))).

Definition created_container_facts (container_id : string) : act D CreatedContainerFacts :=
  act_call (λ d, let '(d, facts) := inspect_container d container_id in
                 (d, ok_or facts (DaemonFailed "inspect" container_id))).

Definition daemon_class : act D DaemonClass :=
  act_call (λ d, let '(d, class) := daemon_class_of d in (d, ok_or class (DaemonFailed "info" EmptyString))).

Definition stat_container_path (container_id path : string) : act D (option ContainerPathStat) :=
  act_call (λ d,
    let '(d, answer) := get_container_archive_info d container_id path in
    (d, match answer with
        | InfoFound file_mode size => Ok (Some (from_go_file_mode file_mode size))
        | InfoNotFound => Ok None
        | InfoFailed => Err (DaemonFailed "check" path)
        end)).

Definition read_container_file (container_id path : string) : act D ContainerFile :=
  act_call (λ d,
    let '(d, (chunks, failed)) := download_from_container d container_id path in
    (d, if failed : bool then Err (DaemonFailed "read" path)
        else ok_or (parse_container_file_tar (mjoin chunks)) (BadArchive path))).

(** The archive is read as it arrives, until it holds an entry. *)
Fixpoint ownership_of (archive : list ascii) (chunks : list (list ascii)) (failed : bool) (path : string)
    : result DirectoryOwnership file_error :=
  match chunks with
  | [] => Err (if failed then DaemonFailed "read" path else BadArchive path)
  | chunk :: chunks =>
      match first_entry_ownership (archive ++ chunk) with
      | Some ownership => Ok ownership
      | None => ownership_of (archive ++ chunk) chunks failed path
      end
  end.

Definition container_directory_ownership (container_id path : string) : act D DirectoryOwnership :=
  act_call (λ d,
    let '(d, (chunks, failed)) := download_from_container d container_id path in
    (d, ownership_of [] chunks failed path)).

Definition set_container_directory_ownership (container_id path : string) (owner : DirectoryOwner) (mode : N)
    : act D () :=
  do! tar := act_lift (build_directory_ownership_tar path owner mode) in
  upload container_id "/" path tar.

Definition write_container_file (container_id path : string) (file : ContainerFile) : act D () :=
  do! tar := act_lift (build_container_file_tar path file) in
  upload container_id (owned_directory_parent path) path tar.

Definition create_container_directories (container_id into relative : string) (owner : DirectoryOwner)
    : act D () :=
  do! tar := act_lift (build_new_directories_tar relative owner) in
  upload container_id into relative tar.

(** ** [run_as_current_user] *)

Definition take_ownership (container_id : string) (user : CurrentUser) (directory : string) : act D () :=
  do! tar := act_lift (build_owned_directory_tar directory (cu_uid user) (cu_gid user)) in
  upload container_id (owned_directory_parent directory) directory tar.

Definition apply_user_mapping (container_id : string) (mapping : UserMapping) : act D () :=
  do! passwd_tar := act_lift (build_user_mapping_tar mapping) in
  do! _ := upload container_id "/etc" "/etc" passwd_tar in
  act_each (take_ownership container_id (um_user mapping))
    (um_home_directory mapping :: um_cache_directories mapping).

(** ** [create_container] *)

(** A failed create: the container it left, if it got that far. *)
Inductive create_container_error :=
| BeforeCreation (e : create_error)
| CreateRefused (name : string)
| PreparationFailed (created name : string) (e : file_error).

Definition created (e : create_container_error) : option string :=
  match e with PreparationFailed id _ _ => Some id | BeforeCreation _ | CreateRefused _ => None end.

Definition map_act_err {A E F} (f : E → F) (m : Io.action D request E A) : Io.action D request F A := λ d,
  let '(d, asked, a) := m d in (d, asked, map_err f a).

(** [config] is what [container_config] made of the spec. *)
Definition create_container (spec : ContainerSpec) (config : result CreateConfig create_error)
    : Io.action D request create_container_error string :=
  let shared := cs_shared spec in
  do! config := act_lift (map_err BeforeCreation config) in
  do! id := act_call (λ d,
    let '(d, id) := request_create d (sh_docker_name shared) config in
    (d, ok_or id (CreateRefused (sh_name shared)))) in
  do! _ := match sh_user_mapping shared with
           | Some mapping =>
               map_act_err (PreparationFailed id (sh_name shared)) (apply_user_mapping id mapping)
           | None => act_ret tt
           end in
  act_ret id.
End calls.
