(* ===== verification/Identity.v ===== *)
(** * Identity: what a container's [identity] does to it once it is created

    [ratect-core/src/identity.rs].  Each function asks the daemon through the
    calls of [ContainerFiles]; the uploads it makes are recorded in order. *)

From S2P Require Import Prelude Text Collections Config Values Passwd ContainerSpec Dockerignore Paths Io.
From S2P Require Import ContainerRequest ContainerFiles.
From stdpp Require Import options.

Definition PASSWD_PATH : string := "/etc/passwd".
Definition GROUP_PATH : string := "/etc/group".
Definition MAX_IDENTITY_FILE_SIZE : N := 1048576.

Inductive identity_error :=
| FileCall (e : file_error)
| NoHostUser
| MountedOver (path mount : string)
| IsSymbolicLink (path : string)
| NotARegularFile (path : string)
| TooLarge (path : string)
| Clash (e : user_clash)
| HomeUnderFile (home path : string)
| HiddenByTmpfs (home tmpfs : string).

(** [failed_to_apply] *)
Inductive apply_error := FailedToApply (name : string) (e : identity_error).

(** What the warning is about; its text is left out. *)
Definition image_user_warning (name image_user : string) (class : DaemonClass)
    : option (string * string * DaemonClass) :=
  if is_remapped class && negb (is_root_user image_user) then Some (name, image_user, class) else None.

(** ** Paths in a container *)

(** [Path::ancestors], the path itself first. *)
Fixpoint ancestors_of (fuel : nat) (path : string) : list string :=
  path :: match fuel, path_parent path with
          | S fuel, Some parent => ancestors_of fuel parent
          | _, _ => []
          end.
Definition ancestors (path : string) : list string := ancestors_of (length (components path).2) path.

Definition same_path (a b : string) : bool := bool_decide (components a = components b).

(** The order of [Path]s, for rooted ones: by their components. *)
Fixpoint components_le (a b : list string) : bool :=
  match a, b with
  | [], _ => true
  | _, [] => false
  | x :: a, y :: b => if decide (x = y) then components_le a b else bool_decide (str_le x y)
  end.
Definition path_le (a b : string) : Prop := components_le (components a).2 (components b).2 = true.
#[global] Instance path_le_dec : RelDecision path_le.
Proof. intros a b. unfold path_le. apply _. Defined.

(** Of equal neighbours the first stays. *)
Fixpoint dedup_paths (l : list string) : list string :=
  match l with
  | x :: ((y :: _) as l') => if same_path x y then x :: drop 1 (dedup_paths l') else x :: dedup_paths l'
  | l => l
  end.

(** A [BTreeSet] of paths, in order. *)
Definition path_set (l : list string) : list string := dedup_paths (merge_sort path_le l).

(** [max_by_key]: of several at the maximum, the last. *)
Definition deepest (best : option (string * string)) (m : string * string) : option (string * string) :=
  match best with
  | Some b => if length (components b.2).2 <=? length (components m.2).2 then Some m else best
  | None => Some m
  end.

(** The host's user, as [current_user] finds it. *)
Class HostUser (D : Type) := { current_user : D → option CurrentUser }.

Section identity.
Context {D : Type} `{!TarCrate, !ArchiveApi D, !PathClean}.
#[local] Notation act A := (Io.action D request identity_error A%type).

Definition call {A} (m : Io.action D request file_error A) : act A := map_act_err FileCall m.

Definition host_user `{!HostUser D} (name : string) : Io.action D request apply_error (option CurrentUser) :=
  map_act_err (FailedToApply name)
    (do! class := call daemon_class in
     match class with
     | RootfulLinux =>
         do! user := act_read current_user in
         do! user := act_lift (ok_or user NoHostUser) in
         act_ret (Some user)
     | _ => act_ret None
     end).

(** ** The identity files *)

Definition mounted_over (facts : CreatedContainerFacts) (path : string) : option string :=
  head (filter (λ destination,
      (same_path (clean destination) path || same_path (clean destination) "/etc") = true)
    (cf_mount_destinations facts ++ cf_tmpfs_destinations facts)).

Definition read_identity_file (container_id : string) (facts : CreatedContainerFacts) (path : string)
    : act ContainerFile :=
  match mounted_over facts path with
  | Some mount => act_fail (MountedOver path mount)
  | None =>
      do! stat := call (stat_container_path container_id path) in
      match stat with
      | None => act_ret (mk_file [] 420 0 0)
      | Some stat =>
          do! _ := match st_kind stat with
                   | KindRegularFile => act_ret tt
                   | KindSymbolicLink => act_fail (IsSymbolicLink path)
                   | KindDirectory | KindOther => act_fail (NotARegularFile path)
                   end in
          do! _ := act_ensure (st_size stat <=? MAX_IDENTITY_FILE_SIZE)%N (TooLarge path) in
          call (read_container_file container_id path)
      end
  end.

Definition with_contents (file : ContainerFile) (contents : list ascii) : ContainerFile :=
  mk_file contents (fi_mode file) (fi_uid file) (fi_gid file).

Definition write_group_if_changed (container_id : string) (group : ContainerFile) (contents : list ascii)
    : act () :=
  if bool_decide (contents = fi_contents group) then act_ret tt
  else call (write_container_file container_id GROUP_PATH (with_contents group contents)).

(** ** Ownership *)

(** The directory at [path] is given to [owner] if it is root's. *)
Definition claim_if_roots (container_id path : string) (owner : DirectoryOwner) : act () :=
  do! ownership := call (container_directory_ownership container_id path) in
  if (ow_uid ownership =? 0)%N
  then call (set_container_directory_ownership container_id path owner (ow_mode ownership))
  else act_ret tt.

Definition claim_cache (container_id : string) (owner : DirectoryOwner) (mount : BindMount) : act () :=
  match bm_source mount with
  | HostSource _ => act_ret tt
  | VolumeSource _ =>
      if is_read_only (bm_options mount) then act_ret tt
      else claim_if_roots container_id (clean (bm_container mount)) owner
  end.

Definition claim_caches (spec : ContainerSpec) (container_id : string) (owner : DirectoryOwner) : act () :=
  if (do_uid owner =? 0)%N then act_ret tt
  else act_each (claim_cache container_id owner) (default [] (sh_volumes (cs_shared spec))).

Definition in_a_mount (facts : CreatedContainerFacts) (directory : string) : bool :=
  existsb (λ mount, path_starts_with directory (clean mount))
    (cf_mount_destinations facts ++ cf_tmpfs_destinations facts).

(** The directories from [home] to each mount below it. *)
Definition on_the_way (facts : CreatedContainerFacts) (home : string) : list string :=
  path_set (filter (λ directory, path_starts_with directory home = true)
    (cf_mount_destinations facts ≫= λ mount, drop 1 (ancestors mount))).

Definition hand_over (container_id : string) (owner : DirectoryOwner) (facts : CreatedContainerFacts)
    (directory : string) : act () :=
  if in_a_mount facts directory then act_ret tt
  else
    do! stat := call (stat_container_path container_id directory) in
    match stat with
    | Some stat =>
        if bool_decide (st_kind stat = KindDirectory) then claim_if_roots container_id directory owner
        else act_ret tt
    | None => act_ret tt
    end.

Definition hand_over_directories_made_for_mounts (container_id home : string) (owner : DirectoryOwner)
    (facts : CreatedContainerFacts) : act () :=
  if (do_uid owner =? 0)%N then act_ret tt
  else act_each (hand_over container_id owner facts) (on_the_way facts home).

(** ** The home *)

(** What the walk from the top down to [home] finds. *)
Inductive home_found := HomeIsDirectory | HomeIsLink | HomeMissing (into : string).

Fixpoint find_home (container_id home into : string) (ancestors : list string) : act home_found :=
  match ancestors with
  | [] => act_ret (HomeMissing into)
  | path :: ancestors =>
      do! stat := call (stat_container_path container_id path) in
      match stat with
      | None => act_ret (HomeMissing into)
      | Some stat =>
          match st_kind stat with
          | KindDirectory =>
              if same_path path home then act_ret HomeIsDirectory
              else find_home container_id home path ancestors
          | KindSymbolicLink =>
              if same_path path home then act_ret HomeIsLink
              else find_home container_id home path ancestors
          | KindRegularFile | KindOther => act_fail (HomeUnderFile home path)
          end
      end
  end.

Definition deepest_tmpfs (facts : CreatedContainerFacts) (home : string) : option (string * string) :=
  foldl deepest None
    (filter (λ p : string * string, path_starts_with home p.2 = true)
      ((λ tmpfs, (tmpfs, clean tmpfs)) <$> cf_tmpfs_destinations facts)).

(** A tmpfs over the home hides what is made there, unless it is the home or a
    deeper mount is on top. *)
Definition check_tmpfs (facts : CreatedContainerFacts) (home : string) : result () identity_error :=
  match deepest_tmpfs facts home with
  | None => Ok tt
  | Some (tmpfs, cleaned) =>
      ensure (same_path cleaned home
              || existsb (λ mount, path_starts_with home mount && path_starts_with mount cleaned)
                   (cf_mount_destinations facts))
        (HiddenByTmpfs home tmpfs)
  end.

Definition prepare_home (container_id home : string) (owner : DirectoryOwner) (facts : CreatedContainerFacts)
    : act () :=
  do! found := find_home container_id home "/" (drop 1 (reverse (ancestors home))) in
  match found with
  | HomeIsDirectory => hand_over_directories_made_for_mounts container_id home owner facts
  | HomeIsLink => act_ret tt
  | HomeMissing into =>
      do! _ := act_lift (check_tmpfs facts home) in
      let relative := of_components (false, drop (length (components into).2) (components home).2) in
      call (create_container_directories container_id into relative owner)
  end.

(** ** Applying *)

Definition adopt_host_user (spec : ContainerSpec) (container_id : string) (identity : IdentityPlan)
    (user : CurrentUser) (facts : CreatedContainerFacts) (passwd : ContainerFile) : act () :=
  do! group := read_identity_file container_id facts GROUP_PATH in
  do! contents := act_lift (map_err Clash (with_additional_users
      (edit_passwd_for_host_user (fi_contents passwd) user (ip_home identity))
      (ip_additional_users identity))) in
  do! _ := call (write_container_file container_id PASSWD_PATH (with_contents passwd contents)) in
  let contents := with_additional_groups
      (default (fi_contents group) (edit_group_for_host_user (fi_contents group) user))
      (ip_additional_users identity) in
  do! _ := write_group_if_changed container_id group contents in
  let owner := mk_owner (cu_uid user) (cu_gid user) in
  do! _ := prepare_home container_id (ip_home identity) owner facts in
  claim_caches spec container_id owner.

Definition warn (warning : option (string * string * DaemonClass)) : act () := λ d,
  (d, match warning with Some (name, user, class) => [Warned name user class] | None => [] end, Ok tt).

Definition apply_plan (spec : ContainerSpec) (container_id : string) (identity : IdentityPlan) : act () :=
  do! facts := call (created_container_facts container_id) in
  do! _ := match ip_host_user identity with
           | Some _ => act_ret tt
           | None =>
               do! class := call daemon_class in
               warn (image_user_warning (sh_name (cs_shared spec)) (cf_user facts) class)
           end in
  do! passwd := read_identity_file container_id facts PASSWD_PATH in
  match ip_host_user identity with
  | Some user => adopt_host_user spec container_id identity user facts passwd
  | None =>
      let edit := edit_passwd_home (fi_contents passwd) (cf_user facts) (ip_home identity) in
      match pe_home_owner edit with
      | None => act_ret tt
      | Some owner =>
          do! contents := act_lift (map_err Clash
              (with_additional_users (pe_contents edit) (ip_additional_users identity))) in
          do! group := match ip_additional_users identity with
                       | [] => act_ret None
                       | _ => do! file := read_identity_file container_id facts GROUP_PATH in act_ret (Some file)
                       end in
          do! _ := call (write_container_file container_id PASSWD_PATH (with_contents passwd contents)) in
          do! _ := match group with
                   | Some group =>
                       write_group_if_changed container_id group
                         (with_additional_groups (fi_contents group) (ip_additional_users identity))
                   | None => act_ret tt
                   end in
          prepare_home container_id (ip_home identity) owner facts
      end
  end.

Definition apply (spec : ContainerSpec) (container_id : string) : Io.action D request apply_error () :=
  match sh_identity (cs_shared spec) with
  | None => act_ret tt
  | Some identity =>
      map_act_err (FailedToApply (sh_name (cs_shared spec))) (apply_plan spec container_id identity)
  end.
End identity.
