(* ===== verification/IdentitySpec.v ===== *)
(** * IdentitySpec: what applying an identity leaves of a container's files *)

From S2P Require Import Prelude Text Collections Config Values Passwd ContainerSpec Dockerignore Paths Io.
From S2P Require Import ContainerRequest ContainerFiles Identity LexicalClean Labels.
From stdpp Require Import options.

(** ** The files of a container *)

Inductive node := NodeDir (uid mode : N) | NodeFile (f : ContainerFile) | NodeLink | NodeOther.

Definition node_kind (n : node) : ContainerPathKind :=
  match n with
  | NodeDir _ _ => KindDirectory
  | NodeFile _ => KindRegularFile
  | NodeLink => KindSymbolicLink
  | NodeOther => KindOther
  end.

(** What extracting an entry puts in its place. *)
Definition node_of (e : TarEntry) : node :=
  match te_type e with
  | DirectoryEntry => NodeDir (te_uid e) (te_mode e)
  | RegularEntry => NodeFile (mk_file (te_contents e) (te_mode e) (te_uid e) (te_gid e))
  end.

(** The files as the daemon has them.  [locate] is where a path is, the symbolic
    links in its directories followed; [node_at], what is at such a place;
    [settled], that the destinations of the mounts have been made. *)
Class ContainerView (D : Type) := {
  locate : D → string → string → string;
  node_at : D → string → string → option node;
  settled : D → string → Prop;
}.

Section view.
Context {D : Type} `{!ContainerView D}.

Definition at_path (d : D) (id p : string) : option node := node_at d id (locate d id p).

(** A look makes what mounts need the first time, and changes nothing then. *)
Definition looked (d d' : D) (id : string) : Prop :=
  settled d' id ∧ (∀ p, locate d' id p = locate d id p) ∧
  (∀ l n, node_at d id l = Some n → node_at d' id l = Some n) ∧
  (∀ l, node_at d' id l = Some NodeLink → node_at d id l = Some NodeLink) ∧
  (settled d id → ∀ l, node_at d' id l = node_at d id l).

Definition untouched (d d' : D) (id : string) : Prop :=
  (settled d id → settled d' id) ∧ (∀ p, locate d' id p = locate d id p) ∧
  ∀ l, node_at d' id l = node_at d id l.
End view.

(** What the daemon documents of its archive calls: a look says what is there; an
    upload changes the places of its entries alone, to what they hold if it
    succeeds, and moves no path unless it replaces a symbolic link; nothing is
    below what is not there. *)
Class ArchiveLaws (D : Type) `{!TarCrate, !ArchiveApi D, !ContainerView D} : Prop := {
  locate_path (d : D) id p q : components p = components q → locate d id p = locate d id q;
  nothing_below (d : D) id p q : path_starts_with q p = true →
    at_path d id p = None → at_path d id q = None;
  info_looks (d : D) id p d' a : get_container_archive_info d id p = (d', a) →
    looked d d' id ∧
    match a with
    | InfoFound m s => ∃ n, at_path d' id p = Some n ∧ node_kind n = st_kind (from_go_file_mode m s)
    | InfoNotFound => at_path d' id p = None
    | InfoFailed => True
    end;
  download_looks (d : D) id p d' chunks failed :
    download_from_container d id p = (d', (chunks, failed)) →
    looked d d' id ∧
    (∀ o, ownership_of [] chunks failed p = Ok o → ∀ n, at_path d' id p = Some n →
       node_kind n = KindDirectory → n = NodeDir (ow_uid o) (ow_mode o)) ∧
    (∀ f, failed = false → parse_container_file_tar (mjoin chunks) = Some f →
       at_path d' id p = Some (NodeFile f));
  inspect_untouched (d : D) id d' a : inspect_container d id = (d', a) → untouched d d' id;
  class_untouched (d : D) id d' a : daemon_class_of d = (d', a) → untouched d d' id;
  upload_settles (d : D) id into es d' ok : upload_to_container d id into es = (d', ok) →
    settled d id → settled d' id;
  upload_elsewhere (d : D) id into es d' ok : upload_to_container d id into es = (d', ok) →
    ∀ l, (∀ e, e ∈ es → l ≠ locate d id (path_join into (te_path e))) → node_at d' id l = node_at d id l;
  upload_moves (d : D) id into es d' ok : upload_to_container d id into es = (d', ok) →
    (∀ e, e ∈ es → at_path d id (path_join into (te_path e)) ≠ Some NodeLink) →
    ∀ p, locate d' id p = locate d id p;
  upload_places (d : D) id into es d' ok l : upload_to_container d id into es = (d', ok) →
    (∃ e, e ∈ es ∧ l = locate d id (path_join into (te_path e))) →
    (ok = false ∧ node_at d' id l = node_at d id l) ∨
    ∃ e, e ∈ es ∧ l = locate d id (path_join into (te_path e)) ∧ node_at d' id l = Some (node_of e);
}.

Lemma append_one {TC : TarCrate} entry tar :
  (let? entry := append entry in Ok [entry]) = Ok tar → tar = [entry].
Proof. unfold append. destruct (path_allowed (te_path entry)); simpl; congruence. Qed.

Lemma call_Ok {D A} (m : Io.action D request file_error A) d d' asked a :
  call m d = (d', asked, Ok a) → m d = (d', asked, Ok a).
Proof.
  unfold call, map_act_err. destruct (m d) as [[d1 asked1] [a1|e]]; intros H; [|done].
  by injection H as <- <- <-.
Qed.

(** ** What may change *)

Section spec.
Context {D : Type} {TC : TarCrate} {AA : ArchiveApi D} {CV : ContainerView D} {AL : ArchiveLaws D}.
Context {PC : PathClean}.
Context (id : string) (loc : string → string).
Context (spec : ContainerSpec) (facts : CreatedContainerFacts) (home : string) (owner : DirectoryOwner).
#[local] Set Default Proof Using "All".

Definition same_attributes (n n' : node) : Prop :=
  match n, n' with
  | NodeFile f, NodeFile f' => fi_mode f' = fi_mode f ∧ fi_uid f' = fi_uid f ∧ fi_gid f' = fi_gid f
  | _, _ => False
  end.

(** A directory between the home and a mount below it, in no mount itself. *)
Definition handed_over (l : string) : Prop :=
  ∃ directory, l = loc directory ∧ directory ∈ on_the_way facts home ∧ in_a_mount facts directory = false.

(** The container runs as the host's user. *)
Definition adopts : Prop := ∃ plan user, sh_identity (cs_shared spec) = Some plan ∧ ip_host_user plan = Some user.

(** The destination of a writable cache volume of such a container. *)
Definition claimed (l : string) : Prop :=
  adopts ∧ ∃ mount, mount ∈ default [] (sh_volumes (cs_shared spec)) ∧ host_path mount = None ∧
    is_read_only (bm_options mount) = false ∧ l = loc (clean (bm_container mount)).

(** Root's, and given to [owner] with its mode. *)
Definition given (n n' : node) : Prop :=
  ∃ mode, n = NodeDir 0 mode ∧ n' = NodeDir (do_uid owner) mode.

Definition change (l : string) (n n' : node) : Prop :=
  n' = n ∨
  (l = loc PASSWD_PATH ∨ l = loc GROUP_PATH) ∧ same_attributes n n' ∨
  do_uid owner ≠ 0%N ∧ handed_over l ∧ given n n' ∨
  do_uid owner ≠ 0%N ∧ claimed l ∧ (node_kind n = KindDirectory → given n n').

Definition good (d : D) : Prop := ∀ p, locate d id p = loc p.

Definition evolves (d d' : D) : Prop :=
  (settled d id → settled d' id) ∧
  (∀ l, node_at d' id l = Some NodeLink → node_at d id l = Some NodeLink) ∧
  ∀ l n, node_at d id l = Some n → ∃ n', node_at d' id l = Some n' ∧ change l n n'.

Definition keeps {R E A} (m : Io.action D R E A) (d : D) : Prop :=
  ∀ d' asked a, m d = (d', asked, a) → good d' ∧ evolves d d'.

Lemma change_trans l n n' n'' : change l n n' → change l n' n'' → change l n n''.
Proof.
  unfold change, given, same_attributes. intros H1 H2.
  destruct H1 as [->|[[Hl H1]|[(Ho & Hh & mode & -> & ->)|(Ho & Hc & H1)]]]; [done|..].
  - destruct H2 as [->|[[_ H2]|[(_ & _ & mode & -> & ->)|(? & Hc & H2)]]]; [by eauto|..].
    + right. left. split; [done|]. destruct n, n', n''; try done. naive_solver congruence.
    + by destruct n.
    + right. right. right. split_and!; [done..|]. by destruct n, n'.
  - destruct H2 as [->|[[_ H2]|[(_ & _ & mode' & [= Hz _] & ->)|(_ & _ & H2)]]].
    + right. right. left. eauto 6.
    + done.
    + done.
    + destruct (H2 eq_refl) as (? & [= Hz _] & ->). done.
  - right. right. right. split_and!; [done..|]. intros Hk. destruct (H1 Hk) as (mode & -> & ->).
    destruct H2 as [->|[[_ H2]|[(_ & _ & mode' & [= Hz _] & ->)|(_ & _ & H2)]]]; [by eauto|done|done|].
    destruct (H2 eq_refl) as (? & [= Hz _] & ->). done.
Qed.

Lemma evolves_refl d : evolves d d.
Proof. split; [done|]. split; [done|]. intros l n Hn. exists n. split; [done|by left]. Qed.

Lemma evolves_trans d1 d2 d3 : evolves d1 d2 → evolves d2 d3 → evolves d1 d3.
Proof.
  intros (Hs1 & Hl1 & H1) (Hs2 & Hl2 & H2). split; [auto|]. split; [auto|].
  intros l n Hn. destruct (H1 _ _ Hn) as (n1 & Hn1 & Hc1). destruct (H2 _ _ Hn1) as (n2 & Hn2 & Hc2).
  exists n2. split; [done|by eapply change_trans].
Qed.

Lemma looked_evolves d d' : good d → looked d d' id → good d' ∧ evolves d d'.
Proof.
  intros Hg (Hs & Hl & Hk & Hlk & _). split; [by intros p; rewrite Hl|].
  split; [done|]. split; [done|]. intros l n Hn. exists n. split; [auto|by left].
Qed.

Lemma untouched_evolves d d' : good d → untouched d d' id → good d' ∧ evolves d d'.
Proof.
  intros Hg (Hs & Hl & Hk). split; [by intros p; rewrite Hl|].
  split; [done|]. split; [by intros l; rewrite Hk|]. intros l n Hn. exists n. by rewrite Hk; split; [|left].
Qed.

Lemma keeps_ret {R E A} (a : A) d : good d → keeps (act_ret (R := R) (E := E) a) d.
Proof. intros Hg d' asked a' [= <- <- <-]. split; [done|apply evolves_refl]. Qed.

Lemma keeps_lift {R E A} (r : result A E) d : good d → keeps (act_lift (R := R) r) d.
Proof. intros Hg d' asked a' [= <- <- <-]. split; [done|apply evolves_refl]. Qed.

Lemma keeps_bind {R E A B} (m : Io.action D R E A) (k : A → Io.action D R E B) d :
  keeps m d →
  (∀ d1 asked a, m d = (d1, asked, Ok a) → good d1 → evolves d d1 → keeps (k a) d1) →
  keeps (act_bind m k) d.
Proof.
  intros Hm Hk d' asked b. unfold act_bind. destruct (m d) as [[d1 asked1] [a|e]] eqn:E1.
  - destruct (k a d1) as [[d2 asked2] b2] eqn:E2. intros [= <- <- <-].
    destruct (Hm _ _ _ E1) as [Hg1 He1]. destruct (Hk _ _ _ eq_refl Hg1 He1 _ _ _ E2) as [Hg2 He2].
    split; [done|by eapply evolves_trans].
  - intros [= <- <- <-]. by eapply Hm.
Qed.

Lemma keeps_each {R E A} (body : A → Io.action D R E ()) l d :
  good d → (∀ x d1, x ∈ l → good d1 → evolves d d1 → keeps (body x) d1) → keeps (act_each body l) d.
Proof.
  revert d. induction l as [|x l IH]; intros d Hg Hb; [by apply keeps_ret|].
  apply keeps_bind; [apply Hb; [by left|done|apply evolves_refl]|]. intros d1 asked [] _ Hg1 He1.
  apply IH; [done|]. intros y d2 Hy Hg2 He2. apply Hb; [by right|done|by eapply evolves_trans].
Qed.

Lemma keeps_map_err {E F A} (f : E → F) (m : Io.action D request E A) d :
  keeps m d → keeps (map_act_err f m) d.
Proof.
  intros Hm d' asked a. unfold map_act_err. destruct (m d) as [[d1 asked1] a1] eqn:E1.
  intros [= <- <- <-]. by eapply Hm.
Qed.

(** ** Calls *)

Lemma keeps_call {A} (m : Io.action D request file_error A) d : keeps m d → keeps (call m) d.
Proof. apply keeps_map_err. Qed.

Lemma stat_keeps p d : good d → keeps (stat_container_path id p) d.
Proof.
  intros Hg d' asked a. unfold stat_container_path, act_call.
  destruct (get_container_archive_info d id p) as [d1 ans] eqn:E1. intros [= <- <- <-].
  apply looked_evolves; [done|]. by apply info_looks in E1 as [? _].
Qed.

Lemma stat_found p d d' asked r :
  stat_container_path id p d = (d', asked, Ok r) →
  looked d d' id ∧
  match r with
  | Some st => ∃ n, at_path d' id p = Some n ∧ node_kind n = st_kind st
  | None => at_path d' id p = None
  end.
Proof.
  unfold stat_container_path, act_call.
  destruct (get_container_archive_info d id p) as [d1 ans] eqn:E1. apply info_looks in E1 as [Hl Ha].
  intros [= <- _ Hr]. split; [done|]. by destruct ans; injection Hr as <- || idtac.
Qed.

Lemma facts_keep d : good d → keeps (created_container_facts id) d.
Proof.
  intros Hg d' asked a. unfold created_container_facts, act_call.
  destruct (inspect_container d id) as [d1 ans] eqn:E1. intros [= <- <- <-].
  apply untouched_evolves; [done|]. by apply inspect_untouched in E1.
Qed.

Lemma class_keeps d : good d → keeps daemon_class d.
Proof.
  intros Hg d' asked a. unfold daemon_class, act_call.
  destruct (daemon_class_of d) as [d1 ans] eqn:E1. intros [= <- <- <-].
  apply untouched_evolves; [done|]. by eapply class_untouched in E1.
Qed.

Lemma download_keeps {A} p (f : list (list ascii) → bool → result A file_error) d :
  good d →
  keeps (act_call (λ d,
    let '(d, (chunks, failed)) := download_from_container d id p in (d, f chunks failed))) d.
Proof.
  intros Hg d' asked a. unfold act_call.
  destruct (download_from_container d id p) as [d1 [chunks failed]] eqn:E1. intros [= <- <- <-].
  apply looked_evolves; [done|]. by apply download_looks in E1 as [? _].
Qed.

(** An upload keeps everything when what it replaces may change so. *)
Lemma upload_keeps into path es d :
  good d →
  (∀ e, e ∈ es → let l := loc (path_join into (te_path e)) in
     node_at d id l ≠ Some NodeLink ∧ ∀ n, node_at d id l = Some n → change l n (node_of e)) →
  keeps (upload id into path es) d.
Proof.
  intros Hg He d' asked a. unfold upload, act_ask.
  destruct (upload_to_container d id into es) as [d1 ok] eqn:E1. intros [= <- <- <-].
  assert (∀ p, locate d1 id p = locate d id p) as Hloc.
  { eapply upload_moves; [done|]. intros e Hin. unfold at_path. rewrite Hg. by apply He. }
  split; [intros p; by rewrite Hloc|]. split; [by eapply upload_settles|].
  assert (∀ l, node_at d1 id l = node_at d id l ∨ ∃ e, e ∈ es ∧ l = loc (path_join into (te_path e)) ∧
    node_at d1 id l = Some (node_of e)) as Hn.
  { intros l. destruct (decide (Exists (λ e, l = loc (path_join into (te_path e))) es)) as [Hin|Hout].
    - apply Exists_exists in Hin as (e & Hin & Hl).
      destruct (upload_places d id into es d1 ok l E1) as [[_ ?]|(e' & ? & ? & ?)].
      { exists e. by rewrite Hg. }
      { by left. }
      right. exists e'. rewrite <-Hg. done.
    - left. eapply upload_elsewhere; [done|]. intros e Hin Hl. apply Hout, Exists_exists.
      exists e. by rewrite <-Hg. }
  split.
  - intros l Hl. destruct (Hn l) as [<-|(e & _ & _ & Hd)]; [done|].
    rewrite Hd in Hl. unfold node_of in Hl. by destruct (te_type e).
  - intros l n Hnd. destruct (Hn l) as [->|(e & Hin & -> & ->)].
    + exists n. split; [done|by left].
    + exists (node_of e). split; [done|]. by apply He.
Qed.

Lemma looked_settled d d' : looked d d' id → settled d' id.
Proof. by intros [? _]. Qed.


(** ** Ownership *)

(** The place of [p] can go to [owner]: it is no link, and if it is a directory it
    is root's. *)
Definition claimable (d : D) (p : string) : Prop :=
  at_path d id p ≠ Some NodeLink ∧
  ∀ n mode, at_path d id p = Some n → (node_kind n = KindDirectory → n = NodeDir 0 mode) →
    change (loc p) n (NodeDir (do_uid owner) mode).

Lemma set_ownership_keeps p mode d :
  good d → claimable d p → (∀ n, at_path d id p = Some n → node_kind n = KindDirectory → n = NodeDir 0 mode) →
  keeps (set_container_directory_ownership id p owner mode) d.
Proof.
  intros Hg [Hnl Hc] Hn. unfold set_container_directory_ownership, build_directory_ownership_tar.
  apply keeps_bind; [by apply keeps_lift|]. intros d1 asked1 tar Htar Hg1 _.
  injection Htar as <- _ Htar. apply result_bind_Ok in Htar as ([] & Hp%ensure_Ok & Htar).
  unfold append in Htar. apply result_bind_Ok in Htar as (e & He & [= <-]).
  apply result_bind_Ok in He as (? & _ & [= <-]).
  apply upload_keeps; [done|]. intros e ->%list_elem_of_singleton.
  assert (loc (path_join "/" (of_components (false, (components p).2))) = loc p) as Hl.
  { rewrite <-!Hg. apply locate_path. pose proof (components_parts p Hp) as Hparts.
    rewrite (components_rooted p Hp) in Hparts |- *. cbn [snd] in *.
    set (parts := filter _ _) in *. clearbody parts.
    destruct (decide (parts = [])) as [->|Hcons]; [done|].
    by rewrite components_join_relative. }
  match goal with |- let l := ?x in _ =>
    change x with (loc (path_join "/" (of_components (false, (components p).2)))) end.
  rewrite Hl. intros l. subst l. unfold at_path in *. rewrite Hg in *.
  split; [done|]. intros n Hnode. apply Hc; [done|]. by apply Hn.
Qed.

Lemma claim_keeps p d :
  good d → settled d id → claimable d p → keeps (claim_if_roots id p owner) d.
Proof.
  intros Hg Hs Hc. unfold claim_if_roots. apply keeps_bind.
  { apply keeps_call. unfold container_directory_ownership.
    by apply (download_keeps p (λ chunks failed, ownership_of [] chunks failed p)). }
  intros d1 asked o Hdown%call_Ok Hg1 _.
  unfold container_directory_ownership, act_call in Hdown.
  destruct (download_from_container d id p) as [d2 [chunks failed]] eqn:E.
  injection Hdown as -> _ Ho. apply download_looks in E as ((Hs1 & Hloc & _ & _ & Hsame) & Hown & _).
  assert (at_path d1 id p = at_path d id p) as Hat.
  { unfold at_path. by rewrite Hloc, Hsame. }
  destruct (ow_uid o =? 0)%N eqn:Hu; [|by apply keeps_ret].
  apply N.eqb_eq in Hu. apply keeps_call, set_ownership_keeps; [done|..].
  - unfold claimable. by rewrite Hat.
  - intros n Hn Hk. rewrite <-Hu. by apply Hown.
Qed.

(** The destinations of the cache volumes are not symbolic links. *)
Definition volumes_ok (d : D) : Prop :=
  ∀ mount, mount ∈ default [] (sh_volumes (cs_shared spec)) → host_path mount = None →
    is_read_only (bm_options mount) = false → at_path d id (clean (bm_container mount)) ≠ Some NodeLink.

Lemma no_link_evolves d d' p :
  good d → good d' → evolves d d' → at_path d id p ≠ Some NodeLink → at_path d' id p ≠ Some NodeLink.
Proof. unfold at_path. intros Hg Hg' (_ & Hl & _) H. rewrite Hg'. rewrite Hg in H. auto. Qed.

Lemma volumes_ok_evolves d d' : good d → good d' → evolves d d' → volumes_ok d → volumes_ok d'.
Proof. intros ??? Hv mount ???. apply (no_link_evolves d d'); [done..|]. by apply Hv. Qed.

Lemma claim_caches_keeps d :
  adopts → good d → settled d id → volumes_ok d → keeps (claim_caches spec id owner) d.
Proof.
  intros Ha Hg Hs Hv. unfold claim_caches. destruct (do_uid owner =? 0)%N eqn:Ho; [by apply keeps_ret|].
  apply N.eqb_neq in Ho. apply keeps_each; [done|]. intros mount d1 Hm Hg1 He1.
  unfold claim_cache. destruct (bm_source mount) as [path|name] eqn:Es; [by apply keeps_ret|].
  destruct (is_read_only (bm_options mount)) eqn:Er; [by apply keeps_ret|].
  assert (host_path mount = None) as Hh by (unfold host_path; by rewrite Es).
  apply claim_keeps; [done|by apply He1|]. split.
  - apply (no_link_evolves d d1); [done..|]. by apply Hv.
  - intros n mode Hn Hk. right. right. right. split; [done|].
    split; [split; [done|]; by exists mount|]. intros Hd. exists mode. split; [by apply Hk|done].
Qed.

Lemma hand_over_keeps d directory :
  good d → do_uid owner ≠ 0%N → directory ∈ on_the_way facts home → 
  keeps (hand_over id owner facts directory) d.
Proof.
  intros Hg Ho Hin. unfold hand_over. destruct (in_a_mount facts directory) eqn:Em; [by apply keeps_ret|].
  apply keeps_bind; [by apply keeps_call, stat_keeps|]. intros d1 asked [st|] Hst%call_Ok Hg1 _; [|by apply keeps_ret].
  apply stat_found in Hst as [Hlk (n & Hn & Hk)].
  case_bool_decide as Hd; [|by apply keeps_ret].
  apply claim_keeps; [done|by apply looked_settled in Hlk|]. rewrite Hd in Hk. split.
  - rewrite Hn. by intros [= ->].
  - intros n' mode [= <-]%(eq_trans (eq_sym Hn)) Hroot. right. right. left.
    split; [done|]. split; [by exists directory|]. exists mode. split; [by apply Hroot|done].
Qed.

Lemma hand_over_all_keeps d :
  good d → keeps (hand_over_directories_made_for_mounts id home owner facts) d.
Proof.
  intros Hg. unfold hand_over_directories_made_for_mounts.
  destruct (do_uid owner =? 0)%N eqn:Ho; [by apply keeps_ret|]. apply N.eqb_neq in Ho.
  apply keeps_each; [done|]. intros directory d1 Hin Hg1 _. by apply hand_over_keeps.
Qed.

(** ** The home *)

Lemma ancestors_of_spec fuel p :
  starts_with "/" p = true → fuel = length (components p).2 →
  ∀ i q, ancestors_of fuel p !! i = Some q →
    components q = (true, take (fuel - i) (components p).2) ∧ (canonical q ∨ i = 0 ∧ q = p) ∧ i ≤ fuel.
Proof.
  revert p. induction fuel as [|fuel IH]; intros p Hp Hf i q Hq.
  - simpl in Hq. destruct i as [|i]; [|done]. injection Hq as <-.
    rewrite Nat.sub_diag. split; [|split; [by right|done]].
    rewrite (components_rooted p Hp) in Hf |- *. simpl in *. symmetry in Hf. apply length_zero_iff_nil in Hf.
    by rewrite Hf.
  - pose proof (components_parts p Hp) as Hparts.
    simpl in Hq. destruct i as [|i].
    + injection Hq as <-. rewrite Nat.sub_0_r, Hf, firstn_all. split; [|split; [by right|lia]].
      by rewrite (components_rooted p Hp).
    + unfold path_parent in Hq. destruct (components p) as [b parts] eqn:Ec. simpl in Hf, Hparts.
      assert (b = true) as -> by (rewrite (components_rooted p Hp) in Ec; by injection Ec as <- _).
      destruct parts as [|x parts']; [done|]. cbn [snd fst] in Hq. set (parts := x :: parts') in *.
      destruct (exists_last (l := parts)) as (init & z & Ei); [done|].
      rewrite Ei in Hq, Hf, Hparts. rewrite removelast_last in Hq.
      apply Forall_app in Hparts as [Hinit _]. rewrite length_app in Hf. simpl in Hf.
      assert (fuel = length init) as -> by lia.
      destruct (IH (of_components (true, init))) with (i := i) (q := q) as (H1 & H2 & H3).
      * apply of_components_rooted.
      * by rewrite components_of.
      * done.
      * rewrite components_of in H1 by done. cbn [snd] in *. split.
        -- rewrite H1. f_equal. rewrite Ei. replace (S (length init) - S i) with (length init - i) by lia.
           by rewrite take_app_le by lia.
        -- split; [|lia]. destruct H2 as [?|[_ ->]]; left; [done|by apply canonical_of].
Qed.

Lemma ancestors_of_length fuel p :
  starts_with "/" p = true → fuel = length (components p).2 → length (ancestors_of fuel p) = S fuel.
Proof.
  revert p. induction fuel as [|fuel IH]; intros p Hp Hf; [done|].
  pose proof (components_parts p Hp) as Hparts. simpl. unfold path_parent.
  rewrite (components_rooted p Hp) in *. cbn [fst snd] in *.
  set (parts := filter _ _) in *. clearbody parts. destruct parts as [|x parts']; [done|].
  set (parts := x :: parts') in *. destruct (exists_last (l := parts)) as (init & z & Ei); [done|].
  rewrite Ei in Hf, Hparts |- *. rewrite removelast_last. apply Forall_app in Hparts as [Hinit _].
  rewrite length_app in Hf. simpl in Hf. f_equal. apply IH; [apply of_components_rooted|].
  rewrite components_of by done. cbn [snd]. lia.
Qed.

(** The paths still to look at: from the one below [into] down to the home. *)
Definition way_down (into : string) (ps : list string) : Prop :=
  ∃ k, canonical into ∧ (components into).2 = take k (components home).2 ∧
    k + length ps = length (components home).2 ∧ (ps = [] → (components home).2 = []) ∧
    ∀ i p, ps !! i = Some p → components p = (true, take (S (k + i)) (components home).2) ∧
      (canonical p ∨ S i = length ps).

Lemma way_down_start :
  starts_with "/" home = true → way_down "/" (drop 1 (reverse (ancestors home))).
Proof.
  intros Hh. exists 0. set (n := length (components home).2).
  pose proof (ancestors_of_length n home Hh eq_refl) as Hlen.
  pose proof (ancestors_of_spec n home Hh eq_refl) as Hanc. fold (ancestors home) in *.
  assert (length (drop 1 (reverse (ancestors home))) = n) as Hd.
  { rewrite length_drop, length_reverse. unfold ancestors. fold n. rewrite Hlen. lia. }
  split; [done|]. split; [done|]. split; [by rewrite Hd|]. split.
  { intros Hz. rewrite Hz in Hd. by apply length_zero_iff_nil. }
  intros i p Hp. rewrite Hd. pose proof (lookup_lt_Some _ _ _ Hp) as Hi. rewrite Hd in Hi.
  rewrite lookup_drop in Hp. unfold ancestors in Hp. fold n in Hp.
  rewrite reverse_lookup in Hp by (rewrite Hlen; lia). rewrite Hlen in Hp.
  destruct (Hanc _ _ Hp) as (Hc & Hcan & _).
  split; [rewrite Hc; f_equal; f_equal; lia|]. destruct Hcan as [?|[Hz _]]; [by left|right; lia].
Qed.

Definition missing_from (d : D) (into : string) : Prop :=
  ∃ k, canonical into ∧ (components into).2 = take k (components home).2 ∧
    (k < length (components home).2 ∨ (components home).2 = []) ∧
    ∀ p j, k < j → j ≤ length (components home).2 → components p = (true, take j (components home).2) →
      at_path d id p = None.

Lemma find_home_keeps into ps d : good d → keeps (find_home id home into ps) d.
Proof.
  revert into d. induction ps as [|p ps IH]; intros into d Hg; simpl; [by apply keeps_ret|].
  apply keeps_bind; [by apply keeps_call, stat_keeps|]. intros d1 asked [st|] _ Hg1 _; [|by apply keeps_ret].
  destruct (st_kind st), (same_path p home); try (by apply keeps_ret); try (by apply IH);
    intros d' asked' a [= <- <- <-]; (split; [done|apply evolves_refl]).
Qed.

Lemma same_path_spec a b : same_path a b = true ↔ components a = components b.
Proof. apply bool_decide_eq_true. Qed.

Lemma find_home_found into ps d d' asked found :
  starts_with "/" home = true → good d → way_down into ps →
  find_home id home into ps d = (d', asked, Ok found) →
  match found with
  | HomeIsDirectory | HomeIsLink => is_Some (at_path d' id home)
  | HomeMissing into => missing_from d' into
  end.
Proof.
  intros Hh. revert into d asked. induction ps as [|p ps IH]; intros into d asked Hg Hw; cbn [find_home].
  - intros [= <- _ <-]. destruct Hw as (k & Hcan & Hc & Hlen & Hz & _). exists k. cbn [length] in Hlen.
    split_and!; [done..|right; by apply Hz|]. intros q j Hk Hj _. lia.
  - intros (d1 & a1 & st & a2 & Hst%call_Ok & Hrun & ->)%act_bind_Ok.
    pose proof (stat_keeps p d Hg _ _ _ Hst) as [Hg1 _].
    apply stat_found in Hst as [Hlk Hst].
    destruct Hw as (k & Hcan & Hc & Hlen & _ & Hps). cbn [length] in Hlen.
    destruct (Hps 0 p eq_refl) as [Hcp Hcanp]. rewrite Nat.add_0_r in Hcp.
    destruct st as [st|].
    + destruct Hst as (n & Hn & Hk).
      assert (same_path p home = true → is_Some (at_path d1 id home)) as Hsame.
      { intros Heq%same_path_spec. exists n. rewrite <-Hn. unfold at_path. f_equal. by apply locate_path. }
      assert (same_path p home = false → way_down p ps) as Hnext.
      { intros Hne. exists (S k). split.
        - destruct Hcanp as [?|Hlast]; [done|]. apply not_true_iff_false in Hne. exfalso. apply Hne.
          apply same_path_spec. rewrite Hcp, firstn_all2 by (simpl in Hlast; lia).
          by rewrite (components_rooted home Hh).
        - split; [by rewrite Hcp|]. split; [lia|]. split.
          { intros ->. exfalso. apply not_true_iff_false in Hne. apply Hne, same_path_spec.
            rewrite Hcp, firstn_all2 by (cbn [length] in Hlen; lia). by rewrite (components_rooted home Hh). }
          intros i q Hq.
          destruct (Hps (S i) q Hq) as [-> Hq']. split; [f_equal; f_equal; lia|].
          destruct Hq'; [by left|right; simpl in *; lia]. }
      destruct (st_kind st), (same_path p home) eqn:Es; try done;
        try (injection Hrun as <- _ <-; by apply Hsame); by eapply IH; eauto.
    + injection Hrun as <- _ <-. exists k. split_and!; [done..|left; lia|].
      intros q j Hkj Hj Hq. eapply (nothing_below _ _ p); [|exact Hst].
      unfold path_starts_with. rewrite Hcp, Hq. cbn [fst snd].
      rewrite !bool_decide_true; [done| |done].
      exists (take (j - S k) (drop (S k) (components home).2)).
      rewrite take_take_drop. f_equal. lia.
Qed.

Lemma new_directories_spec passed rest es :
  new_directories passed rest owner = Ok es →
  (∀ e, e ∈ es → te_type e = DirectoryEntry ∧ ∃ j, j < length rest ∧
     te_path e = of_components (false, passed ++ take (S j) rest)) ∧
  (rest ≠ [] → ∃ e, e ∈ es ∧ te_path e = of_components (false, passed ++ rest) ∧
     node_of e = NodeDir (do_uid owner) 493).
Proof.
  revert passed es. induction rest as [|c rest IH]; intros passed es; cbn [new_directories].
  - intros [= <-]. split; [by intros e ?%not_elem_of_nil|done].
  - set (uid := match rest with [] => (do_uid owner, do_gid owner) | _ => (0, 0)%N end).
    destruct uid as [u g] eqn:Eu. intros (entry & Ha & Hrest)%result_bind_Ok.
    unfold append in Ha. apply result_bind_Ok in Ha as (? & _ & [= <-]).
    apply result_bind_Ok in Hrest as (entries & Hn & [= <-]).
    apply IH in Hn as [H1 H2]. split.
    + intros e [->|He]%elem_of_cons; [split; [done|]; exists 0; split; [simpl; lia|done]|].
      destruct (H1 e He) as [? (j & Hj & Hp)]. split; [done|]. exists (S j). split; [simpl; lia|].
      rewrite Hp, <-app_assoc. done.
    + intros _. destruct rest as [|c' rest].
      * injection Eu as <- <-. eexists. split; [by left|]. done.
      * destruct H2 as (e & He & Hp & Hno); [done|]. exists e. split; [by right|].
        split; [by rewrite Hp, <-app_assoc|done].
Qed.

Lemma new_directories_missing into es d :
  starts_with "/" home = true → good d → missing_from d into →
  build_new_directories_tar
    (of_components (false, drop (length (components into).2) (components home).2)) owner = Ok es →
  (∀ e, e ∈ es → node_at d id (loc (path_join into (te_path e))) = None) ∧
  ((components home).2 ≠ [] → ∃ e, e ∈ es ∧ loc (path_join into (te_path e)) = loc home).
Proof.
  intros Hh Hg (k & Hcan & Hc & Hk & Hmiss) Htar. unfold build_new_directories_tar in Htar.
  pose proof (components_parts home Hh) as Hparts.
  assert (components home = (true, (components home).2)) as Hroot by by rewrite (components_rooted home Hh).
  set (H := (components home).2) in *. clearbody H.
  assert (drop (length (components into).2) H = drop k H) as Hd.
  { rewrite Hc, length_take. destruct Hk as [Hk| ->]; [by rewrite Nat.min_l by lia|by rewrite !drop_nil]. }
  rewrite Hd in Htar. assert (Forall path_component (drop k H)) as Hrest by by apply Forall_drop.
  rewrite components_of_relative in Htar by done. cbn [snd] in Htar.
  assert (∀ j, j < length (drop k H) →
    components (path_join into (of_components (false, [] ++ take (S j) (drop k H)))) = (true, take (k + S j) H)) as Hplace.
  { intros j Hj. rewrite app_nil_l. assert (take (S j) (drop k H) ≠ []) as Hne.
    { clear -Hj. destruct (drop k H); simpl in *; [lia|done]. }
    rewrite components_join_relative; [|done|by apply Forall_take|done].
    by rewrite Hc, take_take_drop. }
  apply new_directories_spec in Htar as [Hall Hlast]. rewrite length_drop in *. split.
  - intros e He. destruct (Hall e He) as [_ (j & Hj & Hp)]. rewrite <-Hg.
    apply (Hmiss _ (k + S j)); [lia|lia|]. rewrite Hp. by apply Hplace.
  - intros Hne. destruct Hk as [Hk|]; [|done]. destruct Hlast as (e & He & Hp & _).
    { intros Hz. apply (f_equal length) in Hz. rewrite length_drop in Hz. simpl in Hz. lia. }
    exists e. split; [done|]. rewrite <-!Hg. apply locate_path. rewrite Hp, Hroot.
    specialize (Hplace (length H - k - 1)).
    rewrite firstn_all2 in Hplace by (rewrite length_drop; lia). rewrite Hplace by lia.
    by rewrite firstn_all2 by lia.
Qed.

Lemma prepare_home_keeps d :
  starts_with "/" home = true → good d → keeps (prepare_home id home owner facts) d.
Proof.
  intros Hh Hg. unfold prepare_home.
  apply keeps_bind; [by apply find_home_keeps|]. intros d1 asked found Hf Hg1 _.
  apply find_home_found in Hf; [|done|done|by apply way_down_start].
  destruct found as [| |into]; [by apply hand_over_all_keeps|by apply keeps_ret|].
  apply keeps_bind; [by apply keeps_lift|]. intros d2 asked2 [] Hc Hg2 _.
  apply act_lift_Ok in Hc as (-> & _ & _).
  apply keeps_call, keeps_bind; [by apply keeps_lift|]. intros d2 asked3 tar Ht Hg3 _.
  apply act_lift_Ok in Ht as (-> & _ & Ht). apply (new_directories_missing into tar d1) in Ht as [Ht _]; [|done..].
  apply upload_keeps; [done|]. intros e He. cbv zeta. by rewrite (Ht e He).
Qed.

Lemma prepare_home_made d d' asked :
  starts_with "/" home = true → good d → (components home).2 ≠ [] →
  prepare_home id home owner facts d = (d', asked, Ok tt) → is_Some (at_path d' id home).
Proof.
  intros Hh Hg Hne. unfold prepare_home. intros (d1 & a1 & found & a2 & Hf & Hrun & ->)%act_bind_Ok.
  pose proof (find_home_keeps _ _ d Hg _ _ _ Hf) as [Hg1 _].
  apply find_home_found in Hf; [|done|done|by apply way_down_start].
  destruct found as [| |into].
  - pose proof (hand_over_all_keeps d1 Hg1 _ _ _ Hrun) as [Hg' (_ & _ & He)].
    destruct Hf as [n Hn]. unfold at_path in *. rewrite Hg1 in Hn. rewrite Hg'.
    destruct (He _ _ Hn) as (n' & -> & _). by eexists.
  - by injection Hrun as <- _.
  - apply act_bind_Ok in Hrun as (d2 & a3 & [] & a4 & (-> & _ & _)%act_lift_Ok & Hrun%call_Ok & _).
    apply act_bind_Ok in Hrun as (d2 & a5 & tar & a6 & (-> & _ & Ht)%act_lift_Ok & Hrun & _).
    apply (new_directories_missing into tar d1) in Ht as [Hnone Hhome]; [|done..]. destruct (Hhome Hne) as (e & He & Hl).
    unfold upload, act_ask in Hrun. destruct (upload_to_container d1 id into tar) as [d2 ok] eqn:Eu.
    injection Hrun as <- _ Hok. destruct ok; [|done].
    pose proof (upload_places d1 id into tar d2 true (loc home) Eu) as [[? _]|(e' & _ & _ & Hn)]; [|done|].
    { exists e. by rewrite Hg1. }
    unfold at_path. rewrite (upload_moves d1 id into tar d2 true Eu), Hg1; [by eexists|].
    intros e0 He0. unfold at_path. rewrite Hg1. by rewrite Hnone.
Qed.
(** ** The identity files *)

Definition identity_file (path : string) : Prop := path = PASSWD_PATH ∨ path = GROUP_PATH.

(** What is known of an identity file once it was read. *)
Definition file_known (d : D) (path : string) (file : ContainerFile) : Prop :=
  settled d id ∧
  match at_path d id path with
  | None => same_attributes (NodeFile (mk_file [] 420 0 0)) (NodeFile file)
  | Some n => same_attributes n (NodeFile file)
  end.

Lemma file_known_looked d d' path file :
  looked d d' id → file_known d path file → file_known d' path file.
Proof.
  intros (Hs' & Hl & _ & _ & Hsame) [Hs Hn]. split; [done|]. unfold at_path in *. by rewrite Hl, Hsame.
Qed.

Lemma read_file_keeps path d : good d → keeps (read_identity_file id facts path) d.
Proof.
  intros Hg. unfold read_identity_file. destruct (mounted_over facts path).
  { intros d' asked a [= <- <- <-]. split; [done|apply evolves_refl]. }
  apply keeps_bind; [by apply keeps_call, stat_keeps|]. intros d1 asked [st|] _ Hg1 _; [|by apply keeps_ret].
  apply keeps_bind; [destruct (st_kind st); intros d2 asked2 a [= <- <- <-]; (split; [done|apply evolves_refl])|].
  intros d2 asked2 [] _ Hg2 _. apply keeps_bind; [by apply keeps_lift|]. intros d3 asked3 [] _ Hg3 _.
  apply keeps_call. unfold read_container_file.
  by apply (download_keeps path (λ chunks failed,
    if failed : bool then Err (DaemonFailed "read" path)
    else ok_or (parse_container_file_tar (mjoin chunks)) (BadArchive path))).
Qed.

Lemma looked_trans d1 d2 d3 : looked d1 d2 id → looked d2 d3 id → looked d1 d3 id.
Proof.
  intros (Hs1 & Hl1 & Hk1 & Hn1 & He1) (Hs2 & Hl2 & Hk2 & Hn2 & He2).
  split; [done|]. split; [intros; by rewrite Hl2|]. split; [auto|]. split; [auto|].
  intros Hs l. rewrite He2, He1; done.
Qed.

Lemma read_file_known path d d' asked file :
  read_identity_file id facts path d = (d', asked, Ok file) →
  looked d d' id ∧ file_known d' path file.
Proof.
  unfold read_identity_file. destruct (mounted_over facts path); [done|].
  intros (d1 & a1 & st & a2 & Hst%call_Ok & Hrun & _)%act_bind_Ok.
  apply stat_found in Hst as [Hl Hst]. destruct st as [st|].
  - destruct Hst as (n & Hn & Hk).
    apply act_bind_Ok in Hrun as (d2 & a3 & [] & a4 & Hkind & Hrun & _).
    assert (d2 = d1) as -> by by destruct (st_kind st); injection Hkind.
    apply act_bind_Ok in Hrun as (d2 & a5 & [] & a6 & (-> & _ & _)%act_lift_Ok & Hrun%call_Ok & _).
    unfold read_container_file, act_call in Hrun.
    destruct (download_from_container d1 id path) as [d2 [chunks failed]] eqn:E.
    injection Hrun as <- _ Hf. apply download_looks in E as (Hl2 & _ & Hfile).
    destruct failed; [done|]. destruct (parse_container_file_tar _) as [f|] eqn:Ep; [|done].
    injection Hf as ->. split; [by eapply looked_trans|]. split; [by apply looked_settled in Hl2|].
    by rewrite (Hfile file).
  - injection Hrun as <- _ <-. split; [done|]. split; [by apply looked_settled in Hl|]. by rewrite Hst.
Qed.

Lemma known_contents d path file contents :
  file_known d path file → file_known d path (with_contents file contents).
Proof. intros [Hs Hn]. split; [done|]. by destruct (at_path d id path) as [[]|]. Qed.

Lemma file_tar path file tar :
  identity_file path → build_container_file_tar path file = Ok tar →
  ∃ entry, tar = [entry] ∧ node_of entry = NodeFile file ∧
    path_join (owned_directory_parent path) (te_path entry) = path.
Proof.
  intros Hp Ht. unfold build_container_file_tar in Ht.
  apply result_bind_Ok in Ht as (leaf & Hl & Ht%append_one). subst tar. eexists. split; [done|].
  split; [by destruct file|]. by destruct Hp as [-> | ->]; injection Hl as <-.
Qed.

Lemma write_file_keeps path file d :
  identity_file path → good d → file_known d path file → keeps (write_container_file id path file) d.
Proof.
  intros Hp Hg [Hs Hn]. unfold write_container_file.
  apply keeps_bind; [by apply keeps_lift|]. intros d1 asked tar Ht Hg1 _.
  apply act_lift_Ok in Ht as (-> & _ & Ht). apply file_tar in Ht as (e & -> & He & Hj); [|done].
  apply upload_keeps; [done|]. intros e' ->%list_elem_of_singleton. rewrite Hj, He. cbv zeta.
  unfold at_path in Hn. rewrite Hg in Hn. split.
  - intros Hl. by rewrite Hl in Hn.
  - intros n Hl. rewrite Hl in Hn. right. left. split; [|done].
    by destruct Hp as [-> | ->]; [left|right].
Qed.

Lemma write_file_known path file path' file' d d' asked a :
  identity_file path → good d → file_known d path file → file_known d path' file' →
  write_container_file id path file d = (d', asked, a) → file_known d' path' file'.
Proof.
  intros Hp Hg Hk [Hs' Hn'] Hrun. pose proof (write_file_keeps path file d Hp Hg Hk _ _ _ Hrun) as [Hg' [Hse _]].
  split; [by apply Hse|]. destruct Hk as [Hs Hn].
  unfold write_container_file, act_bind, act_lift in Hrun.
  destruct (build_container_file_tar path file) as [tar|e] eqn:Ht; [|by injection Hrun as <- _ _].
  apply file_tar in Ht as (e & -> & He & Hj); [|done]. unfold upload, act_ask in Hrun.
  destruct (upload_to_container d id _ [e]) as [d1 ok] eqn:Eu. injection Hrun as <- _ _.
  unfold at_path in *. rewrite Hg in Hn, Hn'. rewrite Hg'.
  destruct (decide (loc path' = loc path)) as [Heq|Hne].
  - rewrite Heq in *. destruct (upload_places d id _ [e] d1 ok (loc path) Eu) as [[_ ->]|(e' & Hin & _ & ->)].
    + exists e. split; [by left|]. by rewrite Hg, Hj.
    + done.
    + apply list_elem_of_singleton in Hin as ->. rewrite He.
      destruct (node_at d id (loc path)) as [n|]; [|naive_solver congruence].
      destruct n; try done. simpl in *. naive_solver congruence.
  - rewrite (upload_elsewhere d id _ [e] d1 ok Eu); [done|].
    intros e' ->%list_elem_of_singleton. by rewrite Hj, Hg.
Qed.

Lemma write_group_keeps group contents d :
  good d → file_known d GROUP_PATH group → keeps (write_group_if_changed id group contents) d.
Proof.
  intros Hg Hk. unfold write_group_if_changed. case_bool_decide; [by apply keeps_ret|].
  apply keeps_call, write_file_keeps; [by right|done|by apply known_contents].
Qed.
(** ** Applying *)

(** [m] keeps what [keeps] does, and if it succeeds the home is there. *)
Definition makes_home {R E A} (m : Io.action D R E A) (d : D) : Prop :=
  ∀ d' asked a, m d = (d', asked, a) → good d' ∧ evolves d d' ∧
    ∀ x, a = Ok x → (components home).2 ≠ [] → is_Some (at_path d' id home).

Lemma makes_home_bind {R E A B} (m : Io.action D R E A) (k : A → Io.action D R E B) d :
  keeps m d →
  (∀ d1 asked a, m d = (d1, asked, Ok a) → good d1 → evolves d d1 → makes_home (k a) d1) →
  makes_home (act_bind m k) d.
Proof.
  intros Hm Hk d' asked b. unfold act_bind. destruct (m d) as [[d1 asked1] [a|e]] eqn:E1.
  - destruct (k a d1) as [[d2 asked2] b2] eqn:E2. intros [= <- <- <-].
    destruct (Hm _ _ _ E1) as [Hg1 He1]. destruct (Hk _ _ _ eq_refl Hg1 He1 _ _ _ E2) as (Hg2 & He2 & Hh).
    split; [done|]. split; [by eapply evolves_trans|done].
  - intros [= <- <- <-]. destruct (Hm _ _ _ E1) as [Hg1 He1]. by split_and!.
Qed.

Lemma exists_evolves d d' p :
  good d → good d' → evolves d d' → is_Some (at_path d id p) → is_Some (at_path d' id p).
Proof.
  unfold at_path. intros Hg Hg' (_ & _ & He) [n Hn]. rewrite Hg in Hn. rewrite Hg'.
  destruct (He _ _ Hn) as (n' & -> & _). by eexists.
Qed.

Lemma prepare_home_makes d :
  starts_with "/" home = true → good d → makes_home (prepare_home id home owner facts) d.
Proof.
  intros Hh Hg d' asked a Hrun. destruct (prepare_home_keeps d Hh Hg _ _ _ Hrun) as [Hg' He].
  split; [done|]. split; [done|]. intros [] -> Hne. by apply (prepare_home_made d d' asked).
Qed.

Lemma makes_home_then {R E A B} (m : Io.action D R E A) (k : A → Io.action D R E B) d :
  makes_home m d →
  (∀ d1 asked a, m d = (d1, asked, Ok a) → good d1 → evolves d d1 → keeps (k a) d1) →
  makes_home (act_bind m k) d.
Proof.
  intros Hm Hk d' asked b. unfold act_bind. destruct (m d) as [[d1 asked1] [a|e]] eqn:E1.
  - destruct (k a d1) as [[d2 asked2] b2] eqn:E2. intros [= <- <- <-].
    destruct (Hm _ _ _ E1) as (Hg1 & He1 & Hh). destruct (Hk _ _ _ eq_refl Hg1 He1 _ _ _ E2) as (Hg2 & He2).
    split; [done|]. split; [by eapply evolves_trans|]. intros x -> Hne.
    by apply (exists_evolves d1); [..|eapply Hh].
  - intros [= <- <- <-]. destruct (Hm _ _ _ E1) as (Hg1 & He1 & _). by split_and!.
Qed.

Lemma adopt_makes_home identity user passwd d :
  adopts → ip_home identity = home → starts_with "/" home = true →
  owner = mk_owner (cu_uid user) (cu_gid user) → good d → volumes_ok d → file_known d PASSWD_PATH passwd →
  makes_home (adopt_host_user spec id identity user facts passwd) d.
Proof.
  intros Ha Hhome Hrooted Howner Hg Hv Hk. unfold adopt_host_user. rewrite Hhome, <-Howner.
  apply makes_home_bind; [by apply read_file_keeps|]. intros d1 asked1 group Hr Hg1 He1.
  apply read_file_known in Hr as [Hl Hgroup]. apply (file_known_looked _ _ _ _ Hl) in Hk.
  apply makes_home_bind; [by apply keeps_lift|]. intros d2 asked2 contents Hc Hg2 _.
  apply act_lift_Ok in Hc as (-> & _ & _). apply (known_contents _ _ _ contents) in Hk.
  apply makes_home_bind; [apply keeps_call, write_file_keeps; [by left|done|done]|].
  intros d2 asked3 [] Hw%call_Ok Hg3 He3.
  apply (write_file_known _ _ GROUP_PATH group) in Hw; [|by left|done..].
  apply makes_home_bind; [by apply write_group_keeps|]. intros d3 asked4 [] _ Hg4 He4.
  apply makes_home_then; [by apply prepare_home_makes|]. intros d4 asked5 [] _ Hg5 He5.
  apply claim_caches_keeps; [done..| |].
  - apply He5, He4, Hw.
  - apply (volumes_ok_evolves d d4); [done..| |done].
    repeat (eapply evolves_trans; [eassumption|]). apply evolves_refl.
Qed.

Lemma image_user_makes_home identity passwd contents d :
  ip_home identity = home → starts_with "/" home = true → good d → file_known d PASSWD_PATH passwd →
  makes_home
    (do! group := match ip_additional_users identity with
                  | [] => act_ret None
                  | _ => do! file := read_identity_file id facts GROUP_PATH in act_ret (Some file)
                  end in
     do! _ := call (write_container_file id PASSWD_PATH (with_contents passwd contents)) in
     do! _ := match group with
              | Some group =>
                  write_group_if_changed id group
                    (with_additional_groups (fi_contents group) (ip_additional_users identity))
              | None => act_ret tt
              end in
     prepare_home id (ip_home identity) owner facts) d.
Proof.
  intros Hhome Hrooted Hg Hk. rewrite Hhome. apply makes_home_bind.
  { destruct (ip_additional_users identity); [by apply keeps_ret|].
    apply keeps_bind; [by apply read_file_keeps|]. intros. by apply keeps_ret. }
  intros d1 asked1 group Hread Hg1 He1.
  assert (file_known d1 PASSWD_PATH passwd ∧ ∀ g, group = Some g → file_known d1 GROUP_PATH g) as [Hk1 Hgroup].
  { destruct (ip_additional_users identity); [by injection Hread as <- _ <-|].
    apply act_bind_Ok in Hread as (d2 & a1 & file & a2 & Hr & [= <- _ <-] & _).
    apply read_file_known in Hr as [Hl Hf]. split; [by eapply file_known_looked|]. by intros g [= <-]. }
  apply (known_contents _ _ _ contents) in Hk1.
  apply makes_home_bind; [apply keeps_call, write_file_keeps; [by left|done|done]|].
  intros d2 asked3 [] Hw%call_Ok Hg3 He3. apply makes_home_bind.
  { destruct group as [g|]; [|by apply keeps_ret]. apply write_group_keeps; [done|].
    by eapply write_file_known in Hw; [..|by apply Hgroup]; [|left|..]. }
  intros d3 asked4 [] _ Hg4 He4. by apply prepare_home_makes.
Qed.
End spec.

(** ** The whole of it *)

Section apply.
Context {D : Type} {TC : TarCrate} {AA : ArchiveApi D} {CV : ContainerView D} {AL : ArchiveLaws D}.
Context {PC : PathClean}.
#[local] Set Default Proof Using "All".

Definition is_warning (r : request) : Prop := match r with Warned _ _ _ => True | Uploaded _ _ _ => False end.

Lemma asks_act_call {A E} P (f : D → D * result A E) : asks P (act_call f).
Proof. intros d d' asked a. unfold act_call. destruct (f d) as [d1 a1]. by intros [= <- <- <-]. Qed.

Lemma asks_map_err {A E F} P (f : E → F) (m : Io.action D request E A) : asks P m → asks P (map_act_err f m).
Proof.
  intros Hm d d' asked a. unfold map_act_err. destruct (m d) as [[d1 asked1] a1] eqn:E1.
  intros [= <- <- <-]. by eapply Hm.
Qed.

Lemma read_file_asks id facts path : asks is_warning (read_identity_file id facts path).
Proof.
  unfold read_identity_file. destruct (mounted_over facts path); [apply asks_fail|].
  apply asks_bind; [by apply asks_map_err, asks_act_call|]. intros _ _ _ [st|] _; [|apply asks_ret].
  apply asks_bind; [destruct (st_kind st); (apply asks_ret || apply asks_fail)|]. intros _ _ _ [] _.
  apply asks_bind; [apply asks_ensure|]. intros _ _ _ [] _. by apply asks_map_err, asks_act_call.
Qed.

Lemma warn_keeps id loc spec facts home owner warning d :
  good id loc d → keeps id loc spec facts home owner (warn warning) d.
Proof. intros Hg d' asked a [= <- <- <-]. split; [done|apply evolves_refl]. Qed.

Lemma facts_found id d d' asked facts :
  created_container_facts id d = (d', asked, Ok facts) → (inspect_container d id).2 = Some facts.
Proof.
  unfold created_container_facts, act_call. destruct (inspect_container d id) as [d1 [f|]]; [|done].
  by intros [= _ _ ->].
Qed.

Lemma adopts_makes_home id spec plan user facts d :
  sh_identity (cs_shared spec) = Some plan → ip_host_user plan = Some user →
  starts_with "/" (ip_home plan) = true → volumes_ok id spec d →
  facts = default (mk_facts EmptyString [] []) (inspect_container d id).2 →
  makes_home id (locate d id) spec facts (ip_home plan) (mk_owner (cu_uid user) (cu_gid user))
    (apply_plan spec id plan) d.
Proof.
  intros Hplan Hu Hh Hv Hfacts. set (loc := locate d id). assert (good id loc d) as Hg by done.
  unfold apply_plan. rewrite Hu. apply makes_home_bind; [by apply keeps_call, facts_keep|].
  intros d1 asked1 facts1 Hf%call_Ok Hg1 He1. apply facts_found in Hf. rewrite Hf in Hfacts. simpl in Hfacts.
  subst facts1. apply makes_home_bind; [by apply keeps_ret|]. intros d2 asked2 [] [= <- _] Hg2 _.
  apply makes_home_bind; [by apply read_file_keeps|]. intros d3 asked3 passwd Hp Hg3 He3.
  apply (read_file_known id loc spec facts (ip_home plan) (mk_owner (cu_uid user) (cu_gid user))) in Hp as [_ Hp].
  apply adopt_makes_home; [by exists plan, user|done|done|done|done| |done].
  apply (volumes_ok_evolves id loc spec facts (ip_home plan) (mk_owner (cu_uid user) (cu_gid user)) d);
    [done..| |done]. by eapply evolves_trans.
Qed.

Lemma image_plan_run id spec plan (d d' : D) asked r :
  ip_host_user plan = None → starts_with "/" (ip_home plan) = true →
  apply_plan spec id plan d = (d', asked, r) →
  let facts := default (mk_facts EmptyString [] []) (inspect_container d id).2 in
  ∃ owner, evolves id (locate d id) spec facts (ip_home plan) owner d d' ∧
    (r = Ok tt → ((components (ip_home plan)).2 ≠ [] → is_Some (at_path d' id (ip_home plan))) ∨
       Forall is_warning asked).
Proof.
  intros Hu Hh E. set (loc := locate d id). set (o := mk_owner 0 0). assert (good id loc d) as Hg by done.
  intros facts. unfold apply_plan in E. rewrite Hu in E.
  assert (∀ facts owner, keeps id loc spec facts (ip_home plan) owner
    (call (created_container_facts id)) d) as Hfacts by (intros; by apply keeps_call, facts_keep).
  apply act_bind_run in E as [(e & E1 & ->)|(d1 & a1 & facts1 & b1 & E1 & E & ->)].
  { exists o. by destruct (Hfacts facts o _ _ _ E1). }
  assert (facts1 = facts) as -> by (apply call_Ok, facts_found in E1; subst facts; by rewrite E1).
  assert (Forall is_warning a1) as Ha1 by by exact (asks_map_err is_warning FileCall _ (asks_act_call _ _) _ _ _ _ E1).
  specialize (λ owner, Hfacts facts owner _ _ _ E1) as Hgo1. clear Hfacts E1.
  apply act_bind_run in E as [(e & E2 & ->)|(d2 & a2 & [] & b2 & E2 & E & ->)].
  { exists o. destruct (Hgo1 o) as [Hg1 He1]. split; [|done]. eapply evolves_trans; [exact He1|].
    apply act_bind_run in E2 as [(e' & E2 & _)|(d2 & a2 & class & b2 & _ & E2 & _)]; [|done].
    by destruct (keeps_call id loc spec facts (ip_home plan) o _ _ (class_keeps id loc spec facts (ip_home plan) o d1 Hg1) _ _ _ E2). }
  assert (∀ owner, good id loc d2 ∧ evolves id loc spec facts (ip_home plan) owner d1 d2) as Hgo2.
  { intros owner. eapply (keeps_bind id loc spec facts (ip_home plan) owner); [|..|exact E2].
    - apply keeps_call, class_keeps, (Hgo1 owner).
    - intros ? ? class _ Hg2 _. by apply warn_keeps. }
  assert (Forall is_warning a2) as Ha2.
  { eapply (asks_bind is_warning); [..|exact E2].
    - apply asks_map_err, asks_act_call.
    - intros _ _ _ class _ w w' asked a [= _ <- _]. by destruct (image_user_warning _ _ _) as [[[]]|]; repeat constructor. }
  clear E2.
  assert (∀ owner, evolves id loc spec facts (ip_home plan) owner d d2) as He2.
  { intros owner. eapply evolves_trans; [apply (Hgo1 owner)|apply (Hgo2 owner)]. }
  assert (good id loc d2) as Hg2 by apply (Hgo2 o).
  apply act_bind_run in E as [(e & E3 & ->)|(d3 & a3 & passwd & b3 & E3 & E & ->)].
  { exists o. split; [|done]. eapply evolves_trans; [apply He2|]. by destruct (read_file_keeps id loc spec facts (ip_home plan) o _ _ Hg2 _ _ _ E3). }
  assert (Forall is_warning a3) as Ha3 by exact (read_file_asks id facts PASSWD_PATH _ _ _ _ E3).
  pose proof (λ owner, proj1 (read_file_keeps id loc spec facts (ip_home plan) owner PASSWD_PATH d2 Hg2 _ _ _ E3)) as Hg3.
  pose proof (λ owner, proj2 (read_file_keeps id loc spec facts (ip_home plan) owner PASSWD_PATH d2 Hg2 _ _ _ E3)) as He3.
  apply (read_file_known id loc spec facts (ip_home plan) o) in E3 as [_ Hp].
  destruct (pe_home_owner _) as [owner|].
  - apply act_bind_run in E as [(e & E4 & ->)|(d4 & a4 & contents & b4 & E4 & E & ->)].
    { assert (d' = d3) as -> by by injection E4.
      exists o. split; [|done]. eapply evolves_trans; [apply He2|apply He3]. }
    apply act_lift_Ok in E4 as (-> & _ & _).
    destruct (image_user_makes_home id loc spec facts (ip_home plan) owner plan passwd contents d3
      eq_refl Hh (Hg3 owner) Hp _ _ _ E) as (_ & He & Hm).
    exists owner. split; [eapply evolves_trans; [apply He2|]; by eapply evolves_trans|].
    intros ->. left. by apply (Hm tt).
  - injection E as <- <- <-. exists o. split; [eapply evolves_trans; [apply He2|apply He3]|].
    intros _. right. by rewrite !Forall_app.
Qed.

End apply.

(** ** A daemon with these laws *)

Module Small.

(** The directories and files by their components; what is there, its parent is. *)
Definition closed (m : gmap (list string) node) : Prop :=
  ∀ j k, j `prefix_of` k → is_Some (m !! k) → is_Some (m !! j).

Definition daemon : Type := { m : gmap (list string) node | closed m }.

Definition place (p : string) : string :=
  if (components p).1 then of_components (components p) else EmptyString.

Definition at_place (d : daemon) (l : string) : option node :=
  if bool_decide (canonical l) then `d !! (components l).2 else None.

#[local] Instance view : ContainerView daemon :=
  {| locate _ _ := place; node_at d _ := at_place d; settled _ _ := True |}.

(** An archive is an owner and a mode from 0400 to 0777, a byte each, of a directory. *)
#[local] Instance tar : TarCrate := {|
  first_entry archive :=
    match archive with
    | [uid; mode] => Some (mk_read_entry false (Some (256 + N_of_ascii mode)%N) (Some (N_of_ascii uid)) None None)
    | _ => None
    end;
  path_allowed _ := true;
  header_path_allowed _ := true |}.

Definition info (n : option node) : info_answer :=
  match n with
  | Some (NodeDir _ _) => InfoFound (N.shiftl 1 31) 0
  | Some (NodeFile f) => InfoFound 0 (Z.of_nat (length (fi_contents f)))
  | Some NodeLink => InfoFound (N.shiftl 1 27) 0
  | Some NodeOther => InfoFound (N.shiftl 1 25) 0
  | None => InfoNotFound
  end.

Definition download (n : option node) : list (list ascii) * bool :=
  match n with
  | Some (NodeDir uid mode) =>
      if ((uid <? 256) && (256 <=? mode) && (mode <? 512))%N
      then ([[ascii_of_N uid; ascii_of_N (mode - 256)]], false) else ([], true)
  | _ => ([], true)
  end.

Lemma closed_insert (m : gmap (list string) node) k n :
  closed m → (k ≠ [] → is_Some (m !! removelast k)) → closed (<[k := n]> m).
Proof.
  intros Hm Hk i j Hp. destruct (decide (j = k)) as [->|Hne].
  - intros _. destruct (decide (i = k)) as [->|Hi]; [rewrite lookup_insert_eq; by eexists|].
    rewrite lookup_insert_ne by done. destruct (decide (k = [])) as [->|Hz].
    { by apply prefix_nil_inv in Hp. }
    apply (Hm _ (removelast k)); [|by apply Hk]. destruct Hp as [t ->].
    destruct t as [|t ts _] using rev_ind; [by rewrite app_nil_r in Hi|].
    rewrite app_assoc, removelast_last. by exists ts.
  - rewrite lookup_insert_ne by done. intros Hj. destruct (decide (i = k)) as [->|Hi].
    + rewrite lookup_insert_eq. by eexists.
    + rewrite lookup_insert_ne by done. by eapply Hm.
Qed.

(** Archives of one entry are taken, below what is there. *)
Definition put (d : daemon) (into : string) (es : list TarEntry) : daemon * bool :=
  match es with
  | [e] =>
      let '(rooted, k) := components (path_join into (te_path e)) in
      match decide (rooted = true ∧ (k ≠ [] → is_Some (`d !! removelast k))) with
      | left H => (exist closed (<[k := node_of e]> (`d)) (closed_insert _ _ _ (proj2_sig d) (proj2 H)), true)
      | right _ => (d, false)
      end
  | _ => (d, false)
  end.

#[local] Instance api : ArchiveApi daemon := {|
  get_container_archive_info d _ p := (d, info (at_place d (place p)));
  download_from_container d _ p := (d, download (at_place d (place p)));
  upload_to_container d _ into es := put d into es;
  inspect_container d _ := (d, Some (mk_facts "app" [] []));
  daemon_class_of d := (d, Some RootfulLinux);
  request_create d _ _ := (d, None) |}.

Lemma place_parts p : (components p).1 = true →
  Forall path_component (components p).2 ∧ place p = of_components (true, (components p).2) ∧
  components (place p) = (true, (components p).2).
Proof.
  unfold place. intros E. rewrite E. assert (starts_with "/" p = true) as Hp by done.
  pose proof (components_parts p Hp). rewrite (components_rooted p Hp) in *. cbn [fst snd] in *.
  split_and!; [done..|by rewrite components_of].
Qed.

Lemma at_place_spec d p : at_place d (place p) = if (components p).1 then `d !! (components p).2 else None.
Proof.
  unfold at_place. destruct (components p).1 eqn:E.
  - destruct (place_parts p E) as (_ & Hp & Hc).
    rewrite bool_decide_true by (unfold canonical; by rewrite Hc, Hp).
    by rewrite Hc.
  - unfold place. by rewrite E.
Qed.

(** Another place has other components. *)
Lemma at_place_insert (d : daemon) k n (H : closed (<[k := n]> (`d))) l :
  of_components (true, k) ≠ l → at_place (exist closed (<[k := n]> (`d)) H) l = at_place d l.
Proof.
  intros Hne. unfold at_place. case_bool_decide as Hl; [|done]. cbn [proj1_sig].
  rewrite lookup_insert_ne; [done|]. intros ->. by apply Hne.
Qed.

Lemma put_spec d into es d' ok :
  put d into es = (d', ok) →
  (ok = false ∧ d' = d) ∨
  ∃ e, es = [e] ∧ ok = true ∧ at_place d' (place (path_join into (te_path e))) = Some (node_of e) ∧
    ∀ l, l ≠ place (path_join into (te_path e)) → at_place d' l = at_place d l.
Proof.
  unfold put. destruct es as [|e [|]]; [by intros [= <- <-]; left| |by intros [= <- <-]; left].
  destruct (components (path_join into (te_path e))) as [rooted k] eqn:E.
  destruct (decide _) as [H|]; intros [= <- <-]; [right|by left]. exists e. split; [done|]. split; [done|].
  pose proof (proj1 H) as ->. split.
  - rewrite at_place_spec, E. apply lookup_insert_eq.
  - intros l Hl. apply at_place_insert. intros <-. apply Hl. unfold place. by rewrite E.
Qed.

#[local] Instance laws : ArchiveLaws daemon.
Proof.
  split.
  - intros d id p q H. unfold locate, view, place. by rewrite H.
  - intros d id p q Hq. unfold at_path, node_at, locate, view. rewrite !at_place_spec.
    unfold path_starts_with in Hq. apply andb_true_iff in Hq as [Hr%bool_decide_eq_true Hp%bool_decide_eq_true].
    rewrite Hr. destruct (components p).1; [|done]. intros Hn. apply eq_None_not_Some. intros Hs.
    apply (proj2_sig d _ _ Hp) in Hs. rewrite Hn in Hs. by destruct Hs.
  - intros d id p d' a [= <- <-]. split; [done|]. unfold at_path, node_at, locate, view.
    destruct (at_place d (place p)) as [[]|]; simpl; try done; by eexists.
  - intros d id p d' chunks failed [= <- Hd]. split; [done|].
    unfold at_path, node_at, locate, view.
    destruct (at_place d (place p)) as [[uid mode|f| |]|]; simpl in Hd;
      try (injection Hd as <- <-; by split; intros; simplify_eq).
    destruct ((uid <? 256) && (256 <=? mode) && (mode <? 512))%N eqn:Hb; injection Hd as <- <-.
    + rewrite !andb_true_iff in Hb. destruct Hb as [[Hu%N.ltb_lt Hl%N.leb_le] Hm%N.ltb_lt].
      assert (first_entry_ownership [ascii_of_N uid; ascii_of_N (mode - 256)] = Some (mk_ownership uid mode)) as Ho.
      { unfold first_entry_ownership, first_entry, tar. cbn -[N.add N.land N.sub].
        rewrite !N_ascii_embedding by lia. replace (256 + (mode - 256))%N with mode by lia.
        do 2 f_equal. change 4095%N with (N.ones 12). rewrite N.land_ones. apply N.mod_small.
        change (2 ^ 12)%N with 4096%N. lia. }
      split; [|done]. intros o. cbn [ownership_of app]. rewrite Ho. intros [= <-] n [= <-] _. done.
    + split; [|done]. intros o. done.
  - by intros d id d' a [= <- <-].
  - by intros d id d' a [= <- <-].
  - done.
  - intros d id into es d' ok [[_ ->]|(e & -> & _ & _ & H)]%put_spec l Hl; [done|].
    apply H, Hl. by left.
  - done.
  - intros d id into es d' ok l [[-> ->]|(e & -> & _ & H & _)]%put_spec (e' & He & ->); [by left|right].
    apply list_elem_of_singleton in He as ->. exists e. by split; [left|].
Qed.
Lemma empty_closed : closed ∅.
Proof. intros j k _ [? H]. by rewrite lookup_empty in H. Qed.

Definition with_directory (d : daemon) (path : string) : daemon :=
  (put d "/" [mk_entry path DirectoryEntry 493 0 0 []]).1.

Definition start : daemon := foldl with_directory (exist closed ∅ empty_closed) [EmptyString; "etc"; "home"; "cache"].

Definition plan : IdentityPlan := mk_identity_plan "/home/me" (Some (mk_current_user 100 200 "me" "us")) [].

Definition spec : ContainerSpec :=
  mk_container_spec
    (mk_shared_spec "app" "p-app" "sha256:1" None (Some [mk_bind_mount (VolumeSource "v") "/cache/" None]) None
       (TaskNetwork "net") false None None (Some plan) (mk_network_options None None None None) None
       (mk_container_options None None None None None None None false None None None None None None None None))
    TaskRole ∅ false [].

#[local] Existing Instance lexical_path_clean.

End Small.
