(* ===== verification/Caches.v ===== *)
(** * Caches: what a cache mount becomes, and how caches are listed and removed

    [ratect-core/src/cache.rs], and [resolve_volumes] of [engine.rs], which is
    what calls it for a run.  The host's files and the daemon's volumes are an
    interface.  What is asked of them, and what is reported while caches are
    removed, are recorded in order.  A [session] is the world and the project's
    cache key once it was needed ([OnceLock] in a [CacheStore], the engine's memo
    in a run). *)

From S2P Require Import Prelude Text Collections Config Values ContainerSpec Dockerignore Paths Io.
From stdpp Require Import options.

(** ** Data *)

Inductive CacheType := Volume | Directory.
#[global] Instance CacheType_eq_dec : EqDecision CacheType.
Proof. solve_decision. Defined.

#[global] Instance BindSource_eq_dec : EqDecision BindSource.
Proof. solve_decision. Defined.
#[global] Instance BindMount_eq_dec : EqDecision BindMount.
Proof. solve_decision. Defined.

Record CacheOptions := mk_cache_options { op_cache_type : CacheType; op_project_directory : string }.

Record RemovedCache := mk_removed { rc_name : string; rc_storage : string }.
#[global] Instance RemovedCache_eq_dec : EqDecision RemovedCache.
Proof. solve_decision. Defined.

Inductive CleanEvent :=
| Removing (cache : RemovedCache)
| Removed (cache : RemovedCache)
| NoCacheDirectory (path : string)
| SkippedLink (path : string).

Inductive CacheRefusal := SharedNotNamed (name : string) | SharedSweepNotNamed.

Record CacheSelection := mk_selection {
  sl_owned : list string;
  sl_shared : list string;
  sl_scope : option CacheScope;
}.

(** Its [docker] is the world; the key it resolved is the session's. *)
Inductive CacheStore :=
| VolumeStore (project_directory : string)
| DirectoryStore (project_directory : string) (shared_root : option string).

(** ** The host and the daemon *)

(** [fs::read], as the text [String::from_utf8_lossy] makes of it. *)
Inductive read_answer := ReadText (contents : string) | ReadMissing | ReadFailed.

Inductive entry_kind := EntryLink | EntryDir | EntryFile.

(** A listing may fail, at an entry too, and so may looking at what an entry is. *)
Class CacheHost (W : Type) := {
  read_text : W → string → read_answer;
  is_symlink : W → string → bool;
  is_directory : W → string → bool;
  read_dir : W → string → option (list (option (string * option entry_kind)));
  make_dirs : W → string → W * bool;
  write_text : W → string → string → W * bool;
  remove_dir_all : W → string → W * bool;
  list_volumes : W → option (list string);
  remove_volume : W → string → W * bool;
  new_uuid : W → W * string;
  home_directory : W → option string;
}.

Record session (W : Type) := mk_session { se_world : W; se_key : option string }.
#[global] Arguments mk_session {W}.
#[global] Arguments se_world {W}.
#[global] Arguments se_key {W}.

Inductive request :=
| MakeDirs (path : string)
| WriteKey (path contents : string)
| RemoveVolume (name : string)
| RemoveDir (path : string)
| Report (event : CleanEvent).

Inductive cache_error :=
| KeyUnreadable (path : string)
| KeyLinkToNothing (path : string)
| NoKeyLine (path : string)
| ManyKeyLines (path : string)
| CreateFailed (path : string)
| KeyUnwritable (path : string)
| NoHomeDirectory
| ListVolumesFailed
| RemoveVolumeFailed (name : string)
| ReadDirFailed (path : string)
| ReadEntryFailed (path : string)
| InspectFailed (path : string)
| RemoveDirFailed (path : string)
| NoCacheOptions.

(** ** Names *)

Definition cache_directory (project_directory : string) : string :=
  path_join (path_join project_directory ".batect") "caches".

Definition cache_volume_name (project_cache_key name : string) : string :=
  "batect-cache-" +:+ project_cache_key +:+ "-" +:+ name.

Definition shared_cache_volume_name (name : string) : string := "ratect-shared-cache-" +:+ name.

(** ** The key file *)

Definition key_line (line : string) : bool :=
  negb (bool_decide (line = EmptyString)) && negb (starts_with "#" line).

Definition read_project_cache_key (key_path contents : string) : result string cache_error :=
  match filter (λ line, key_line line = true) (trim <$> buf_lines contents) with
  | [key] => Ok key
  | [] => Err (NoKeyLine key_path)
  | _ => Err (ManyKeyLines key_path)
  end.

Definition key_file (key : string) : string :=
  "# This file was autogenerated to track which Docker volumes are associated with this project."
  +:+ String "010" EmptyString +:+
  "# Do not modify it, and do not commit it to source control."
  +:+ String "010" EmptyString +:+ key +:+ String "010" EmptyString.

Section caches.
Context {W : Type} `{!CacheHost W}.
#[local] Notation act A := (Io.action (session W) request cache_error A%type).

Definition look {A} (f : W → A) : act A := act_read (λ s, f (se_world s)).

Definition ask (r : request) (f : W → W * bool) (e : cache_error) : act () :=
  act_ask r (λ s, let '(w, ok) := f (se_world s) in (mk_session w (se_key s), ensure ok e)).

Definition report (event : CleanEvent) : act () := act_ask (Report event) (λ s, (s, Ok tt)).

Definition fresh_key : act string := λ s,
  let '(w, key) := new_uuid (se_world s) in (mk_session w (se_key s), [], Ok key).

Definition project_cache_key (project_directory : string) : act string :=
  let key_path := path_join (cache_directory project_directory) "key" in
  do! contents := look (λ w, read_text w key_path) in
  match contents with
  | ReadText contents => act_lift (read_project_cache_key key_path contents)
  | ReadFailed => act_fail (KeyUnreadable key_path)
  | ReadMissing =>
      do! link := look (λ w, is_symlink w key_path) in
      do! _ := act_ensure (negb link) (KeyLinkToNothing key_path) in
      do! key := fresh_key in
      let parent := default EmptyString (path_parent key_path) in
      do! _ := ask (MakeDirs parent) (λ w, make_dirs w parent) (CreateFailed parent) in
      do! _ := ask (WriteKey key_path (key_file key)) (λ w, write_text w key_path (key_file key))
                 (KeyUnwritable key_path) in
      act_ret key
  end.

(** The key, the first call that needs it resolving it. *)
Definition resolved_key (project_directory : string) : act string :=
  do! known := act_read se_key in
  match known with
  | Some key => act_ret key
  | None =>
      do! key := project_cache_key project_directory in
      λ s, (mk_session (se_world s) (Some key), [], Ok key)
  end.

(** ** What a mount becomes *)

Definition shared_cache_root : act string :=
  do! home := look home_directory in
  do! home := act_lift (ok_or home NoHomeDirectory) in
  act_ret (path_join (path_join home ".ratect") "caches").

Definition shared_cache_directory (name : string) : act string :=
  do! root := shared_cache_root in act_ret (path_join root name).

Definition resolve_cache_mount (options : CacheOptions) (project_cache_key : act string)
    (mount : CacheVolumeMount) : act BindMount :=
  let shared := bool_decide (cache_scope mount = Shared) in
  do! source :=
    match op_cache_type options with
    | Volume =>
        if shared then act_ret (VolumeSource (shared_cache_volume_name (cv_name mount)))
        else do! key := project_cache_key in act_ret (VolumeSource (cache_volume_name key (cv_name mount)))
    | Directory =>
        do! dir := (if shared then shared_cache_directory (cv_name mount)
                    else act_ret (path_join (cache_directory (op_project_directory options)) (cv_name mount))) in
        do! _ := ask (MakeDirs dir) (λ w, make_dirs w dir) (CreateFailed dir) in
        act_ret (HostSource dir)
    end in
  act_ret (mk_bind_mount source (cv_container mount) (cv_options mount)).

(** One round of [resolve_volumes]' loop; [cache_options] is there when a mount
    needs it. *)
Definition resolve_volume (cache_options : option CacheOptions) (volume : VolumeMount)
    : act (option BindMount) :=
  match volume with
  | LocalMount local =>
      act_ret (Some (mk_bind_mount (HostSource (lv_local local)) (lv_container local) (lv_options local)))
  | CacheMount cache =>
      do! options := act_lift (ok_or cache_options NoCacheOptions) in
      do! bind := resolve_cache_mount options (resolved_key (op_project_directory options)) cache in
      act_ret (Some bind)
  | TmpfsMount _ => act_ret None
  end.

Fixpoint resolve_each (cache_options : option CacheOptions) (resolved : list BindMount)
    (volumes : list VolumeMount) : act (list BindMount) :=
  match volumes with
  | [] => act_ret resolved
  | volume :: volumes =>
      do! bind := resolve_volume cache_options volume in
      resolve_each cache_options (match bind with Some bind => push_new resolved bind | None => resolved end)
        volumes
  end.

Definition resolve_volumes (cache_options : option CacheOptions) (volumes : option (list VolumeMount))
    : act (option (list BindMount)) :=
  match volumes with
  | None => act_ret None
  | Some volumes =>
      do! resolved := resolve_each cache_options [] volumes in
      act_ret (match resolved with [] => None | _ => Some resolved end)
  end.

(** ** What matches *)

Definition matching_cache_volumes (existing_volumes : list string) (prefix : string) (only : gset string)
    : list string :=
  filter (λ volume,
    match strip_prefix prefix volume with
    | Some cache_name => bool_decide (only = ∅) || bool_decide (cache_name ∈ only)
    | None => false
    end = true) existing_volumes.

Definition matching_shared_cache_volumes (existing_volumes : list string) (only : gset string) : list string :=
  if bool_decide (only = ∅) then []
  else matching_cache_volumes existing_volumes (shared_cache_volume_name EmptyString) only.

Record CacheDirectoryScan := mk_scan { sc_matched : list string; sc_skipped_links : list string }.

Definition scan_entry (cache_dir : string) (only : gset string) (found : CacheDirectoryScan)
    (entry : option (string * option entry_kind)) : result CacheDirectoryScan cache_error :=
  let? (name, kind) := ok_or entry (ReadEntryFailed cache_dir) in
  if negb (bool_decide (only = ∅) || bool_decide (name ∈ only)) then Ok found
  else
    let? kind := ok_or kind (InspectFailed (path_join cache_dir name)) in
    Ok match kind with
       | EntryLink => mk_scan (sc_matched found) (sc_skipped_links found ++ [path_join cache_dir name])
       | EntryDir => mk_scan (sc_matched found ++ [name]) (sc_skipped_links found)
       | EntryFile => found
       end.

Definition scan_cache_directories (cache_dir : string) (only : gset string)
    : act (option CacheDirectoryScan) :=
  do! is_dir := look (λ w, is_directory w cache_dir) in
  if negb is_dir then act_ret None
  else
    do! entries := look (λ w, read_dir w cache_dir) in
    do! entries := act_lift (ok_or entries (ReadDirFailed cache_dir)) in
    do! found := act_lift (try_fold (scan_entry cache_dir only) entries (mk_scan [] [])) in
    act_ret (Some (mk_scan (sort_strings (sc_matched found)) (sort_strings (sc_skipped_links found)))).

Definition matching_cache_directories (cache_dir : string) (only : gset string) : act (list string) :=
  do! found := scan_cache_directories cache_dir only in
  act_ret (from_option sc_matched [] found).

Definition list_directory_caches (project_directory : string) : act (list string) :=
  matching_cache_directories (cache_directory project_directory) ∅.

(** The order of [(String, CacheScope)]. *)
Definition found_le (a b : string * CacheScope) : Prop :=
  if decide (a.1 = b.1) then a.2 = Project ∨ b.2 = Shared else str_le a.1 b.1.
#[global] Instance found_le_dec : RelDecision found_le.
Proof. intros a b. unfold found_le. destruct (decide (a.1 = b.1)); apply _. Defined.

Definition volume_cache (project_prefix : option string) (volume : string) : option (string * CacheScope) :=
  match project_prefix ≫= λ prefix, strip_prefix prefix volume with
  | Some name => Some (name, Project)
  | None => (λ name, (name, Shared)) <$> strip_prefix (shared_cache_volume_name EmptyString) volume
  end.

Definition existing_volumes : act (list string) :=
  do! existing := look list_volumes in act_lift (ok_or existing ListVolumesFailed).

Definition list_all_volume_caches (project_cache_key : option string) : act (list (string * CacheScope)) :=
  do! existing := existing_volumes in
  let project_prefix := (λ key, cache_volume_name key EmptyString) <$> project_cache_key in
  act_ret (merge_sort found_le (omap (volume_cache project_prefix) existing)).

(** ** Removal *)

Fixpoint remove_caches (remove : RemovedCache → act ()) (caches : list RemovedCache) : act (list RemovedCache) :=
  match caches with
  | [] => act_ret []
  | cache :: caches =>
      do! _ := report (Removing cache) in
      do! _ := remove cache in
      do! _ := report (Removed cache) in
      do! removed := remove_caches remove caches in
      act_ret (cache :: removed)
  end.

Definition remove_cache_volumes (volumes : list string) (prefix : string) : act (list RemovedCache) :=
  remove_caches
    (λ cache, ask (RemoveVolume (rc_storage cache)) (λ w, remove_volume w (rc_storage cache))
                (RemoveVolumeFailed (rc_storage cache)))
    ((λ volume, mk_removed (default volume (strip_prefix prefix volume)) volume) <$> volumes).

Definition remove_cache_directories (root : string) (names : list string) : act (list RemovedCache) :=
  remove_caches
    (λ cache, ask (RemoveDir (rc_storage cache)) (λ w, remove_dir_all w (rc_storage cache))
                (RemoveDirFailed (rc_storage cache)))
    ((λ name, mk_removed name (path_join root name)) <$> names).

Definition clean_volume_caches (project_cache_key : string) (only : gset string) : act (list RemovedCache) :=
  do! existing := existing_volumes in
  let prefix := cache_volume_name project_cache_key EmptyString in
  remove_cache_volumes (matching_cache_volumes existing prefix only) prefix.

Definition clean_shared_volume_caches (only : gset string) : act (list RemovedCache) :=
  do! existing := existing_volumes in
  remove_cache_volumes (matching_shared_cache_volumes existing only) (shared_cache_volume_name EmptyString).

Definition clean_shared_directory_caches (root : string) (only : gset string) : act (list RemovedCache) :=
  if bool_decide (only = ∅) then act_ret []
  else
    do! names := matching_cache_directories root only in
    remove_cache_directories root names.

Definition clean_directory_caches (project_directory : string) (only : gset string)
    : act (list RemovedCache) :=
  let cache_dir := cache_directory project_directory in
  do! found := scan_cache_directories cache_dir only in
  match found with
  | None => do! _ := report (NoCacheDirectory cache_dir) in act_ret []
  | Some found =>
      do! _ := act_each (λ link, report (SkippedLink link)) (sc_skipped_links found) in
      remove_cache_directories cache_dir (sc_matched found)
  end.

(** ** Selections and the store *)

Definition selection_is_empty (selection : CacheSelection) : bool :=
  bool_decide (sl_owned selection = []) && bool_decide (sl_shared selection = []).

Definition actionable (selection : CacheSelection) : list string :=
  match sl_scope selection with
  | Some Shared => sl_shared selection
  | _ => sl_owned selection
  end.

Definition shared_only (selection : CacheSelection) (wanted : gset string) : list string :=
  sort_strings (filter (.∈ wanted) (sl_shared selection)).

Definition store_new (cache_type : CacheType) (project_directory : string) (shared_root : option string)
    : CacheStore :=
  match cache_type with
  | Volume => VolumeStore project_directory
  | Directory => DirectoryStore project_directory shared_root
  end.

Definition of_scope (scope : CacheScope) (found : list (string * CacheScope)) : list string :=
  (filter (λ f : string * CacheScope, f.2 = scope) found).*1.

Definition list_caches (store : CacheStore) (scope : option CacheScope) : act CacheSelection :=
  do! (owned, shared) :=
    match store with
    | VolumeStore project_directory =>
        do! key := match scope with
                   | Some Shared => act_ret None
                   | _ => do! key := resolved_key project_directory in act_ret (Some key)
                   end in
        do! found := list_all_volume_caches key in
        act_ret (of_scope Project found, of_scope Shared found)
    | DirectoryStore project_directory shared_root =>
        do! owned := list_directory_caches project_directory in
        do! shared := match shared_root with
                      | Some root => matching_cache_directories root ∅
                      | None => act_ret []
                      end in
        act_ret (owned, shared)
    end in
  let owned := if bool_decide (scope = Some Shared) then [] else owned in
  let shared := if bool_decide (scope = Some Project) then [] else shared in
  act_ret (mk_selection (sort_strings owned) (sort_strings shared) scope).

Definition remove_project (store : CacheStore) (only : gset string) : act (list RemovedCache) :=
  match store with
  | VolumeStore project_directory =>
      do! key := resolved_key project_directory in clean_volume_caches key only
  | DirectoryStore project_directory _ => clean_directory_caches project_directory only
  end.

Definition remove_shared (store : CacheStore) (only : gset string) : act (list RemovedCache) :=
  match store with
  | VolumeStore _ => clean_shared_volume_caches only
  | DirectoryStore _ (Some root) => clean_shared_directory_caches root only
  | DirectoryStore _ None => act_ret []
  end.

Definition refusal (found : CacheSelection) (only : gset string) : option CacheRefusal :=
  if decide (sl_scope found = Some Shared) then
    if bool_decide (only = ∅) then Some SharedSweepNotNamed else None
  else SharedNotNamed <$> head (shared_only found only).

Definition remove (store : CacheStore) (found : CacheSelection) (only : gset string)
    : act (result (list RemovedCache) CacheRefusal) :=
  match refusal found only with
  | Some refusal => act_ret (Err refusal)
  | None =>
      do! removed := match sl_scope found with
                     | Some Shared => remove_shared store only
                     | _ => remove_project store only
                     end in
      act_ret (Ok removed)
  end.
End caches.
