(* ===== verification/CachesSpec.v ===== *)
(** * CachesSpec: what is removed when caches are cleaned, and what is listed *)

From S2P Require Import Prelude Text Collections Config Values ContainerSpec Dockerignore Paths Io Caches.
From stdpp Require Import options.

Section spec.
Context {W : Type} {CH : CacheHost W}.
#[local] Set Default Proof Using "Type".

Definition is_shared (scope : option CacheScope) : bool := bool_decide (scope = Some Shared).

(** The cache is there, and in the scope: for a volume its name says so, for a
    directory that it is one of the root's, and no link. *)
Definition present (store : CacheStore) (scope : option CacheScope) (s : session W) (cache : RemovedCache) : Prop :=
  let storage := rc_storage cache in
  let in_root root := storage = path_join root (rc_name cache) ∧ is_directory (se_world s) root = true ∧
    ∃ entries, read_dir (se_world s) root = Some entries ∧ Some (rc_name cache, Some EntryDir) ∈ entries in
  match store with
  | VolumeStore _ =>
      (∃ volumes, list_volumes (se_world s) = Some volumes ∧ storage ∈ volumes) ∧
      (if is_shared scope then storage = shared_cache_volume_name (rc_name cache)
       else ∃ key, se_key s = Some key ∧ storage = cache_volume_name key (rc_name cache))
  | DirectoryStore project_directory shared_root =>
      if is_shared scope then ∃ root, shared_root = Some root ∧ in_root root
      else in_root (cache_directory project_directory)
  end.

(** The session what is there is read from: the key has been resolved. *)
Definition at_listing (store : CacheStore) (scope : option CacheScope) (s : session W) : session W :=
  match store with
  | VolumeStore project_directory =>
      if is_shared scope then s else (resolved_key project_directory s).1.1
  | DirectoryStore _ _ => s
  end.

Definition selected (scope : option CacheScope) (only : gset string) (name : string) : Prop :=
  only = ∅ ∧ is_shared scope = false ∨ name ∈ only.

Definition removal_of (store : CacheStore) (storage : string) : request :=
  match store with VolumeStore _ => RemoveVolume storage | DirectoryStore _ _ => RemoveDir storage end.

Definition is_removal (r : request) : Prop :=
  match r with RemoveVolume _ | RemoveDir _ => True | _ => False end.

(** What is asked and reported for a cache that goes. *)
Definition gone (store : CacheStore) (cache : RemovedCache) : list request :=
  [Report (Removing cache); removal_of store (rc_storage cache); Report (Removed cache)].

(** ** Reading *)

Lemma act_read_run {R E A} (f : W → A) (w w' : W) (asked : list R) (r : result A E) :
  act_read f w = (w', asked, r) → w' = w ∧ asked = [] ∧ r = Ok (f w).
Proof. by intros [= -> <- <-]. Qed.

Lemma resolved_key_ok dir (s s1 : session W) asked key :
  resolved_key dir s = (s1, asked, Ok key) →
  se_key s1 = Some key ∧ resolved_key dir s1 = (s1, [], Ok key).
Proof.
  unfold resolved_key. intros (s2 & a1 & known & a2 & [= -> _ <-] & Hk & _)%act_bind_Ok.
  assert (se_key s1 = Some key) as H.
  { destruct (se_key s2) eqn:E; [by injection Hk as <- _ <-|].
    apply act_bind_Ok in Hk as (s3 & a3 & k & a4 & _ & [= <- _ <-] & _). done. }
  split; [done|]. unfold act_bind, act_read. by rewrite H.
Qed.

Lemma ask_quiet (r : request) (f : W → W * bool) e (s s' : session W) asked a :
  ask r f e s = (s', asked, a) → se_key s' = se_key s ∧ asked = [r].
Proof. unfold ask, act_ask. destruct (f (se_world s)) as [w ok]. by intros [= <- <- _]. Qed.

(** Resolving the key removes nothing. *)
Lemma resolved_key_asks dir : asks (λ r, ¬ is_removal r) (resolved_key (CacheHost0 := CH) dir).
Proof.
  unfold resolved_key. apply asks_bind; [apply asks_read|]. intros _ _ _ [key|] _; [apply asks_ret|].
  apply asks_bind; [|by intros _ _ _ key _ s s' asked a [= _ <- _]].
  unfold project_cache_key. apply asks_bind; [apply asks_read|]. intros _ _ _ [contents| |] _;
    [apply asks_lift| |apply asks_fail].
  apply asks_bind; [apply asks_read|]. intros _ _ _ link _.
  apply asks_bind; [apply asks_ensure|]. intros _ _ _ [] _.
  apply asks_bind.
  { intros s s' asked a. unfold fresh_key. destruct (new_uuid (se_world s)). by intros [= _ <- _]. }
  intros _ _ _ key _.
  apply asks_bind; [apply asks_ask; naive_solver|]. intros _ _ _ [] _.
  apply asks_bind; [apply asks_ask; naive_solver|]. intros _ _ _ [] _. apply asks_ret.
Qed.

Lemma existing_volumes_run (s s' : session W) asked r :
  existing_volumes s = (s', asked, r) →
  s' = s ∧ asked = [] ∧ r = ok_or (list_volumes (se_world s)) ListVolumesFailed.
Proof.
  unfold existing_volumes, look, act_bind, act_read, act_lift.
  destruct (ok_or _ _) as [l|e]; by intros [= -> <- <-].
Qed.

(** ** Directories *)

Definition directory_entry (entry : option (string * option entry_kind)) : option string :=
  match entry with Some (name, Some EntryDir) => Some name | _ => None end.

Definition takes (only : gset string) (name : string) : Prop := only = ∅ ∨ name ∈ only.
#[local] Instance takes_dec only name : Decision (takes only name).
Proof. unfold takes. apply _. Defined.

Lemma scan_entries cache_dir only entries acc found :
  try_fold (scan_entry cache_dir only) entries acc = Ok found →
  sc_matched found = sc_matched acc ++ filter (takes only) (omap directory_entry entries).
Proof.
  revert acc. induction entries as [|entry entries IH]; intros acc; simpl.
  { intros [= <-]. by rewrite app_nil_r. }
  intros (acc1 & Hs & Hrest)%result_bind_Ok. apply IH in Hrest as ->.
  unfold scan_entry in Hs. destruct entry as [[name kind]|]; [|done]. cbn [ok_or result_bind] in Hs.
  case_bool_decide as H1; [|case_bool_decide as H2]; cbn [orb negb] in Hs.
  3: { injection Hs as <-. destruct kind as [[]|]; simpl; try done.
       by rewrite filter_cons_False by (intros [?|?]; done). }
  all: destruct kind as [[]|]; cbn in Hs; try done; injection Hs as <-; try done;
    cbn -[filter]; rewrite filter_cons_True by (unfold takes; auto); by rewrite <-app_assoc.
Qed.

Lemma scan_directories_run cache_dir only (s s' : session W) asked r :
  scan_cache_directories cache_dir only s = (s', asked, r) →
  s' = s ∧ asked = [] ∧
  match r with
  | Ok None => is_directory (se_world s) cache_dir = false
  | Ok (Some found) => is_directory (se_world s) cache_dir = true ∧
      ∃ entries, read_dir (se_world s) cache_dir = Some entries ∧
        sc_matched found ≡ₚ filter (takes only) (omap directory_entry entries)
  | Err _ => True
  end.
Proof.
  unfold scan_cache_directories, look, act_bind, act_read, act_lift, act_ret.
  destruct (is_directory (se_world s) cache_dir); simpl; [|by intros [= -> <- <-]].
  destruct (read_dir (se_world s) cache_dir) as [entries|]; simpl; [|by intros [= -> <- <-]].
  destruct (try_fold _ entries _) as [found|e] eqn:E; intros [= -> <- <-]; [|done].
  split_and!; [done..|]. exists entries. split; [done|]. simpl.
  apply scan_entries in E. rewrite E. apply merge_sort_Permutation.
Qed.

Lemma directory_entries (entries : list (option (string * option entry_kind))) only name :
  name ∈ filter (takes only) (omap directory_entry entries) ↔
  takes only name ∧ Some (name, Some EntryDir) ∈ entries.
Proof.
  rewrite list_elem_of_filter, list_elem_of_omap. split.
  - intros [Ht (entry & He & Hn)]. split; [done|]. destruct entry as [[n [[]|]]|]; try done.
    by injection Hn as <-.
  - intros [Ht He]. split; [done|]. by exists (Some (name, Some EntryDir)).
Qed.

(** ** Volumes *)

Lemma matching_volumes_cons volume existing prefix only :
  matching_cache_volumes (volume :: existing) prefix only =
  match strip_prefix prefix volume with
  | Some name => if decide (takes only name) then [volume] else []
  | None => []
  end ++ matching_cache_volumes existing prefix only.
Proof.
  unfold matching_cache_volumes. rewrite filter_cons. destruct (strip_prefix prefix volume) as [name|].
  - unfold takes. destruct (decide (only = ∅)) as [Ho|Ho], (decide (name ∈ only)) as [Hn|Hn];
      rewrite ?(bool_decide_true (only = ∅)), ?(bool_decide_false (only = ∅)),
        ?(bool_decide_true (name ∈ only)), ?(bool_decide_false (name ∈ only)) by done; simpl;
      repeat case_decide; naive_solver.
  - by rewrite decide_False.
Qed.

Lemma matching_volumes existing prefix only :
  (λ volume, mk_removed (default volume (strip_prefix prefix volume)) volume) <$>
    matching_cache_volumes existing prefix only =
  (λ name, mk_removed name (prefix +:+ name)) <$>
    filter (takes only) (omap (strip_prefix prefix) existing).
Proof.
  induction existing as [|volume existing IH]; [done|].
  rewrite matching_volumes_cons, fmap_app, IH. cbn [omap list_omap].
  destruct (strip_prefix prefix volume) as [name|] eqn:E; [|done].
  rewrite filter_cons. destruct (decide (takes only name)); [|done].
  simpl. rewrite E. by apply strip_prefix_Some in E as <-.
Qed.

Lemma of_scope_Project prefix existing :
  of_scope Project (merge_sort found_le (omap (volume_cache (Some prefix)) existing)) ≡ₚ
  omap (strip_prefix prefix) existing.
Proof.
  unfold of_scope. rewrite merge_sort_Permutation. apply reflexive_eq.
  induction existing as [|volume existing IH]; [done|]. cbn [omap list_omap].
  unfold volume_cache at 1. cbn [mbind option_bind].
  destruct (strip_prefix prefix volume) as [name|].
  - rewrite filter_cons_True, fmap_cons by done. by rewrite IH.
  - destruct (strip_prefix _ volume); [|done]. cbn [fmap option_fmap option_map].
    by rewrite filter_cons_False.
Qed.

Lemma of_scope_Shared existing :
  of_scope Shared (merge_sort found_le (omap (volume_cache None) existing)) ≡ₚ
  omap (strip_prefix (shared_cache_volume_name EmptyString)) existing.
Proof.
  unfold of_scope. rewrite merge_sort_Permutation. apply reflexive_eq.
  induction existing as [|volume existing IH]; [done|]. cbn [omap list_omap].
  unfold volume_cache at 1. cbn [mbind option_bind].
  destruct (strip_prefix _ volume) as [name|]; [|done]. cbn [fmap option_fmap option_map].
  rewrite filter_cons_True, fmap_cons by done. by rewrite IH.
Qed.

Lemma named_volume prefix (existing : list string) only name :
  name ∈ filter (takes only) (omap (strip_prefix prefix) existing) ↔
  takes only name ∧ prefix +:+ name ∈ existing.
Proof.
  rewrite list_elem_of_filter, list_elem_of_omap. split.
  - intros [Ht (volume & Hv & ->%strip_prefix_Some)]. done.
  - intros [Ht Hv]. split; [done|]. exists (prefix +:+ name). split; [done|]. by apply strip_prefix_Some.
Qed.

Lemma cache_volume_prefix key name : cache_volume_name key EmptyString +:+ name = cache_volume_name key name.
Proof. unfold cache_volume_name. by rewrite <-!string_app_assoc. Qed.

Lemma shared_volume_prefix name :
  shared_cache_volume_name EmptyString +:+ name = shared_cache_volume_name name.
Proof. unfold shared_cache_volume_name. by rewrite <-!string_app_assoc. Qed.

(** ** Removing *)

(** What became of removing [caches] one by one. *)
Definition removed_in_order (store : CacheStore) (caches : list RemovedCache) (asked : list request)
    (r : result (list RemovedCache) cache_error) : Prop :=
  (r = Ok caches ∧ asked = caches ≫= gone store) ∨
  ∃ n cache e, caches !! n = Some cache ∧ r = Err e ∧
    asked = (take n caches ≫= gone store) ++
            [Report (Removing cache); removal_of store (rc_storage cache)].

Lemma remove_caches_run store f e caches (s s' : session W) asked r :
  remove_caches (λ cache, ask (removal_of store (rc_storage cache)) (f cache) (e cache)) caches s = (s', asked, r) →
  se_key s' = se_key s ∧ removed_in_order store caches asked r.
Proof.
  revert s asked r. induction caches as [|cache caches IH]; intros s asked r; simpl.
  { intros [= <- <- <-]. split; [done|by left]. }
  intros [(? & [=] & _)|(s1 & a1 & [] & a2 & [= <- <-] & Hrun & ->)]%act_bind_run.
  apply act_bind_run in Hrun as [(e1 & Hrem & ->)|(s2 & a3 & [] & a4 & Hrem & Hrun & ->)].
  { apply ask_quiet in Hrem as [Hk ->]. split; [done|]. right. by exists 0, cache, e1. }
  apply ask_quiet in Hrem as [Hk ->].
  apply act_bind_run in Hrun as [(? & [=] & _)|(s3 & a5 & [] & a6 & [= <- <-] & Hrun & ->)].
  apply act_bind_run in Hrun as [(e1 & Hrest & ->)|(s3 & a7 & rest & a8 & Hrest & [= <- <- <-] & ->)].
  - apply IH in Hrest as [Hk' [[? _]|(n & c & e2 & Hn & He & ->)]]; [done|].
    split; [by rewrite Hk', Hk|]. right. by exists (S n), c, e2.
  - apply IH in Hrest as [Hk' [[[= ->] ->]|(n & c & e2 & _ & ? & _)]]; [|done].
    split; [by rewrite Hk', Hk|]. left. split; [done|]. by rewrite app_nil_r.
Qed.

(** The caches to remove, in order, as they are found. *)
Definition found_caches (store : CacheStore) (scope : option CacheScope) (only : gset string) (s : session W)
    (caches : list RemovedCache) : Prop :=
  ∃ names place, caches ≡ₚ (λ name, mk_removed name (place name)) <$> filter (takes only) names ∧
    (∀ name storage, name ∈ names ∧ storage = place name ↔ present store scope s (mk_removed name storage)).

Lemma found_caches_elem store scope only s caches cache :
  found_caches store scope only s caches →
  cache ∈ caches ↔ takes only (rc_name cache) ∧ present store scope s cache.
Proof.
  intros (names & place & -> & Hp). destruct cache as [name storage]. cbn [rc_name].
  rewrite <-Hp, list_elem_of_fmap. split.
  - intros (n & [= -> ->] & [? ?]%list_elem_of_filter). done.
  - intros (? & ? & ->). exists name. split; [done|]. by apply list_elem_of_filter.
Qed.

Lemma volume_caches_found dir scope only (s : session W) existing prefix :
  list_volumes (se_world s) = Some existing →
  (∀ name storage, storage = prefix +:+ name ↔
     if is_shared scope then storage = shared_cache_volume_name name
     else ∃ key, se_key s = Some key ∧ storage = cache_volume_name key name) →
  found_caches (VolumeStore dir) scope only s
    ((λ volume, mk_removed (default volume (strip_prefix prefix volume)) volume) <$>
       matching_cache_volumes existing prefix only).
Proof.
  intros Hl Hp. exists (omap (strip_prefix prefix) existing), (λ n, prefix +:+ n). rewrite matching_volumes.
  split; [done|]. intros name storage. unfold present. cbn [rc_name rc_storage]. rewrite <-Hp, Hl.
  rewrite list_elem_of_omap. split.
  - intros [(volume & Hv & ->%strip_prefix_Some) ->]. split; [by eexists|done].
  - intros [(? & [= <-] & Hv) ->]. split; [|done]. eexists. split; [exact Hv|]. by apply strip_prefix_Some.
Qed.

Lemma directory_caches_found store scope only (s : session W) root entries matched :
  is_directory (se_world s) root = true → read_dir (se_world s) root = Some entries →
  matched ≡ₚ filter (takes only) (omap directory_entry entries) →
  (∀ cache, present store scope s cache ↔ rc_storage cache = path_join root (rc_name cache) ∧
     is_directory (se_world s) root = true ∧
     ∃ entries, read_dir (se_world s) root = Some entries ∧ Some (rc_name cache, Some EntryDir) ∈ entries) →
  found_caches store scope only s ((λ name, mk_removed name (path_join root name)) <$> matched).
Proof.
  intros Hd Hr Hm Hp. exists (omap directory_entry entries), (path_join root). split; [by rewrite Hm|].
  intros name storage. rewrite Hp. cbn [rc_name rc_storage]. rewrite Hr.
  pose proof (directory_entries entries ∅ name) as He. rewrite list_elem_of_filter in He.
  assert (takes ∅ name) by by left. split.
  - intros [Hn ->]. split; [done|]. split; [done|]. eexists. split; [done|]. by apply He.
  - intros (-> & _ & ? & [= <-] & Hn). split; [|done]. by apply He.
Qed.

Lemma found_none store scope only (s : session W) :
  (∀ cache, ¬ present store scope s cache) → found_caches store scope only s [].
Proof. intros H. exists [], (λ n, n). split; [done|]. intros name storage. split; [|by intros ?%H]. set_solver. Qed.

(** What one clean did: nothing but [before] if nothing could be listed, and then
    the caches found went in order. *)
Definition cleaned (store : CacheStore) (scope : option CacheScope) (only : gset string) (s : session W)
    (asked : list request) (r : result (list RemovedCache) cache_error) : Prop :=
  ∃ before, Forall (λ r, ¬ is_removal r) before ∧
    ((∃ e, r = Err e ∧ asked = before) ∨
     ∃ caches after, asked = before ++ after ∧
       found_caches store scope only (at_listing store scope s) caches ∧
       removed_in_order store caches after r).

Lemma remove_shared_cleaned store scope only (s s' : session W) asked r :
  is_shared scope = true → only ≠ ∅ → remove_shared store only s = (s', asked, r) →
  cleaned store scope only s asked r.
Proof.
  intros Hs Ho. unfold remove_shared. destruct store as [dir|dir [root|]].
  - unfold clean_shared_volume_caches. intros [(e & Hl & ->)|(s1 & a1 & existing & a2 & Hl & Hrun & ->)]%act_bind_run;
      apply existing_volumes_run in Hl as (-> & -> & Hl).
    { exists []. split; [done|]. left. by eexists. }
    destruct (list_volumes (se_world s)) as [volumes|] eqn:Hv; [|done]. injection Hl as ->.
    unfold matching_shared_cache_volumes in Hrun. rewrite bool_decide_false in Hrun by done.
    unfold remove_cache_volumes in Hrun.
    apply (remove_caches_run (VolumeStore dir)) in Hrun as [_ Hrun]. exists []. split; [done|]. right.
    eexists _, _. split; [done|]. split; [|exact Hrun]. unfold at_listing. rewrite Hs.
    apply volume_caches_found; [done|]. intros name storage. rewrite Hs. by rewrite shared_volume_prefix.
  - unfold clean_shared_directory_caches. rewrite bool_decide_false by done.
    unfold matching_cache_directories.
    intros [(e & Hl & ->)|(s1 & a1 & names & a2 & Hl & Hrun & ->)]%act_bind_run.
    { apply act_bind_run in Hl as [(e1 & Hl & [= <-])|(s2 & a2 & found & a3 & _ & [=] & _)].
      apply scan_directories_run in Hl as (-> & -> & _). exists []. split; [done|]. left. by eexists. }
    apply act_bind_run in Hl as [(e1 & _ & [=])|(s2 & a3 & found & a4 & Hl & [= <- <- <-] & ->)].
    apply scan_directories_run in Hl as (-> & -> & Hl). unfold remove_cache_directories in Hrun.
    apply (remove_caches_run (DirectoryStore dir (Some root))) in Hrun as [_ Hrun].
    exists []. split; [done|]. right. eexists _, _. split; [done|]. split; [|exact Hrun].
    assert (∀ cache, present (DirectoryStore dir (Some root)) scope s cache ↔
      rc_storage cache = path_join root (rc_name cache) ∧ is_directory (se_world s) root = true ∧
      ∃ entries, read_dir (se_world s) root = Some entries ∧ Some (rc_name cache, Some EntryDir) ∈ entries) as Hp.
    { intros cache. unfold present. rewrite Hs. split; [by intros (? & [= <-] & ?)|]. intros H. by exists root. }
    destruct found as [found|].
    + destruct Hl as (Hd & entries & Hr & Hm). by eapply directory_caches_found.
    + apply found_none. intros cache (_ & Hd & _)%Hp. simpl in Hd. by rewrite Hl in Hd.
  - intros [= <- <- <-]. exists []. split; [done|]. right. exists [], []. split; [done|].
    split; [|by left]. apply found_none. intros cache. unfold present. rewrite Hs. by intros (? & ? & _).
Qed.

Lemma skipped_links links (s s' : session W) asked r :
  act_each (λ link, report (SkippedLink link)) links s = (s', asked, r) →
  s' = s ∧ r = Ok tt ∧ Forall (λ r, ¬ is_removal r) asked.
Proof.
  revert asked. induction links as [|link links IH]; intros asked; [by intros [= -> <- <-]|].
  intros [(e & [=] & _)|(s1 & a1 & [] & a2 & [= <- <-] & Hrun & ->)]%act_bind_run.
  apply IH in Hrun as (-> & -> & Ha). split_and!; [done..|]. constructor; [by intros []|done].
Qed.

Lemma remove_project_cleaned store scope only (s s' : session W) asked r :
  is_shared scope = false → remove_project store only s = (s', asked, r) →
  cleaned store scope only s asked r.
Proof.
  intros Hs. unfold remove_project. destruct store as [dir|dir root].
  - pose proof (resolved_key_asks dir) as Hquiet.
    intros [(e & Hk & ->)|(s1 & a1 & key & a2 & Hk & Hrun & ->)]%act_bind_run.
    { exists asked. split; [by eapply Hquiet|]. left. by eexists. }
    exists a1. split; [by eapply Hquiet|]. unfold clean_volume_caches in Hrun.
    apply act_bind_run in Hrun as [(e & Hl & ->)|(s2 & a3 & existing & a4 & Hl & Hrun & ->)];
      apply existing_volumes_run in Hl as (-> & -> & Hl).
    { left. exists e. by rewrite app_nil_r. }
    destruct (list_volumes (se_world s1)) as [volumes|] eqn:Hv; [|done]. injection Hl as ->.
    unfold remove_cache_volumes in Hrun.
    apply (remove_caches_run (VolumeStore dir)) in Hrun as [_ Hrun]. right.
    eexists _, _. split; [done|]. split; [|exact Hrun]. unfold at_listing. rewrite Hs, Hk.
    apply resolved_key_ok in Hk as [Hk _]. apply volume_caches_found; [done|].
    intros name storage. rewrite Hs, cache_volume_prefix. cbn [fst]. rewrite Hk. split; [by eexists|].
    by intros (? & [= <-] & ?).
  - unfold clean_directory_caches.
    intros [(e & Hl & ->)|(s1 & a1 & found & a2 & Hl & Hrun & ->)]%act_bind_run;
      apply scan_directories_run in Hl as (-> & -> & Hl).
    { exists []. split; [done|]. left. by eexists. }
    assert (∀ cache, present (DirectoryStore dir root) scope s cache ↔
      rc_storage cache = path_join (cache_directory dir) (rc_name cache) ∧
      is_directory (se_world s) (cache_directory dir) = true ∧
      ∃ entries, read_dir (se_world s) (cache_directory dir) = Some entries ∧
        Some (rc_name cache, Some EntryDir) ∈ entries) as Hp.
    { intros cache. unfold present. by rewrite Hs. }
    destruct found as [found|].
    + destruct Hl as (Hd & entries & Hr & Hm).
      apply act_bind_run in Hrun as [(e & Hl & ->)|(s1 & a3 & [] & a4 & Hl & Hrun & ->)];
        apply skipped_links in Hl as (-> & Hok & Hq); [done|].
      unfold remove_cache_directories in Hrun.
      apply (remove_caches_run (DirectoryStore dir root)) in Hrun as [_ Hrun].
      exists a3. split; [done|]. right. eexists _, _. split; [done|]. split; [|exact Hrun].
      by eapply directory_caches_found.
    + injection Hrun as <- <- <-. exists [Report (NoCacheDirectory (cache_directory dir))].
      split; [constructor; [by intros []|done]|]. right. exists [], []. split; [done|]. split; [|by left].
      apply found_none. intros cache (_ & Hd & _)%Hp. simpl in Hd. by rewrite Hl in Hd.
Qed.

Lemma refusal_spec found only :
  match refusal found only with
  | Some SharedSweepNotNamed => is_shared (sl_scope found) = true ∧ only = ∅
  | Some (SharedNotNamed name) => is_shared (sl_scope found) = false ∧ name ∈ only ∧ name ∈ sl_shared found
  | None => if is_shared (sl_scope found) then only ≠ ∅ else ∀ name, name ∈ only → name ∉ sl_shared found
  end.
Proof.
  unfold refusal, is_shared. destruct (decide (sl_scope found = Some Shared)) as [Hs|Hs].
  - rewrite (bool_decide_true (sl_scope found = Some Shared)) by done. by case_bool_decide.
  - rewrite (bool_decide_false (sl_scope found = Some Shared)) by done. unfold shared_only.
    destruct (sort_strings (filter (.∈ only) (sl_shared found))) as [|name names] eqn:E; simpl.
    + intros name Ho Hn. assert (name ∈ sort_strings (filter (.∈ only) (sl_shared found))) as H.
      { unfold sort_strings. rewrite merge_sort_Permutation. by apply list_elem_of_filter. }
      rewrite E in H. by apply not_elem_of_nil in H.
    + assert (name ∈ sort_strings (filter (.∈ only) (sl_shared found))) as H by (rewrite E; by left).
      unfold sort_strings in H. rewrite merge_sort_Permutation in H. by apply list_elem_of_filter in H as [? ?].
Qed.

(** What a clean removes.  It refuses, asking for nothing, exactly when a shared
    cache is named without [--scope shared] or that scope is swept without names.
    Otherwise it removes, one by one and each reported before and after, the caches of
    the scope that are there and selected and nothing else: a project's own by its key or
    under its cache directory, shared ones only when named and in the shared scope, and a
    directory never through a link.  It stops at the first removal that fails, and
    succeeds only when each of those caches was removed. *)
Theorem remove_spec store found only (s s' : session W) asked r :
  remove store found only s = (s', asked, r) →
  let scope := sl_scope found in
  let here cache := selected scope only (rc_name cache) ∧ present store scope (at_listing store scope s) cache in
  (∃ refused, r = Ok (Err refused) ∧ asked = [] ∧ s' = s ∧
     match refused with
     | SharedSweepNotNamed => is_shared scope = true ∧ only = ∅
     | SharedNotNamed name => is_shared scope = false ∧ name ∈ only ∧ name ∈ sl_shared found
     end) ∨
  (if is_shared scope then only ≠ ∅ else ∀ name, name ∈ only → name ∉ sl_shared found) ∧
  ∃ before, Forall (λ r, ¬ is_removal r) before ∧
    ((∃ e, r = Err e ∧ asked = before) ∨
     ∃ caches, (∀ cache, cache ∈ caches ↔ here cache) ∧
       (r = Ok (Ok caches) ∧ asked = before ++ (caches ≫= gone store) ∨
        ∃ n cache e, caches !! n = Some cache ∧ r = Err e ∧
          asked = before ++ (take n caches ≫= gone store) ++
                  [Report (Removing cache); removal_of store (rc_storage cache)])).
Proof.
  intros Hrun scope here. pose proof (refusal_spec found only) as Hr. unfold remove in Hrun.
  destruct (refusal found only) as [refused|].
  { injection Hrun as <- <- <-. left. by exists refused. }
  right. split; [exact Hr|]. fold scope in Hr.
  assert (∃ r1, cleaned store scope only s asked r1 ∧
    r = match r1 with Ok l => Ok (Ok l) | Err e => Err e end) as (r1 & Hc & Hr1).
  { apply act_bind_run in Hrun as [(e & Hrun & ->)|(s1 & a1 & removed & a2 & Hrun & [= <- <- <-] & ->)];
      [exists (Err e)|exists (Ok removed)]; (split; [|done]); rewrite ?app_nil_r; subst scope;
      destruct (sl_scope found) as [[]|];
      ((eapply remove_project_cleaned; [reflexivity|exact Hrun]) ||
       (eapply remove_shared_cleaned; [reflexivity|exact Hr|exact Hrun])). }
  destruct Hc as (before & Hq & Hc). exists before. split; [done|].
  destruct Hc as [(e & -> & ->)|(caches & after & -> & Hf & Hc)]; [left; by eexists|right].
  exists caches. split.
  { intros cache. rewrite (found_caches_elem _ _ _ _ _ _ Hf). subst here. unfold selected, takes.
    destruct (is_shared scope); naive_solver. }
  destruct Hc as [[-> ->]|(n & cache & e & Hn & -> & ->)]; [by left|right].
  exists n, cache, e. by split_and!.
Qed.

(** ** Listing *)

Lemma matching_directories_run root only (s s' : session W) asked names :
  matching_cache_directories root only s = (s', asked, Ok names) →
  s' = s ∧ asked = [] ∧
  ∀ name, name ∈ names ↔ takes only name ∧ is_directory (se_world s) root = true ∧
    ∃ entries, read_dir (se_world s) root = Some entries ∧ Some (name, Some EntryDir) ∈ entries.
Proof.
  unfold matching_cache_directories. intros (s1 & a1 & found & a2 & Hl & [= <- <- <-] & ->)%act_bind_Ok.
  apply scan_directories_run in Hl as (-> & -> & Hl). split_and!; [done..|]. intros name. destruct found as [found|]; simpl.
  - destruct Hl as (Hd & entries & Hr & ->). rewrite directory_entries, Hd, Hr. naive_solver.
  - rewrite Hl. split; [by intros ?%not_elem_of_nil|naive_solver].
Qed.

Lemma list_caches_run store scope (s s1 : session W) asked found :
  list_caches store scope s = (s1, asked, Ok found) →
  s1 = at_listing store scope s ∧ at_listing store scope s1 = s1 ∧ sl_scope found = scope ∧
  Forall (λ r, ¬ is_removal r) asked ∧
  ∀ name, name ∈ actionable found ↔ ∃ storage, present store scope s1 (mk_removed name storage).
Proof.
  unfold list_caches. intros (s2 & a1 & [owned shared] & a2 & Hl & [= -> <- <-] & ->)%act_bind_Ok.
  cbn [sl_scope]. rewrite app_nil_r.
  assert (∀ name, name ∈ actionable (mk_selection
      (sort_strings (if bool_decide (scope = Some Shared) then [] else owned))
      (sort_strings (if bool_decide (scope = Some Project) then [] else shared)) scope) ↔
    name ∈ if is_shared scope then shared else owned) as Hact.
  { intros name. unfold actionable, sort_strings. by destruct scope as [[]|]; simpl; rewrite merge_sort_Permutation. }
  assert (s1 = at_listing store scope s ∧ at_listing store scope s1 = s1 ∧
    Forall (λ r, ¬ is_removal r) a1 ∧
    ∀ name, name ∈ (if is_shared scope then shared else owned) ↔
      ∃ storage, present store scope s1 (mk_removed name storage)) as (? & ? & ? & Hn);
    [|by split_and!; [..|intros name; rewrite Hact]].
  clear Hact. destruct store as [dir|dir root].
  - apply act_bind_Ok in Hl as (s2 & a2 & key & a3 & Hk & Hl & ->).
    apply act_bind_Ok in Hl as (s3 & a4 & all & a5 & Hl & [= -> <- <- <-] & ->).
    apply act_bind_Ok in Hl as (s4 & a6 & existing & a7 & Hl & [= -> <- <-] & ->).
    apply existing_volumes_run in Hl as (-> & -> & Hl).
    destruct (list_volumes (se_world s2)) as [volumes|] eqn:Hv; [|done]. injection Hl as ->.
    rewrite !app_nil_r. unfold at_listing, present. cbn [rc_name rc_storage]. rewrite Hv.
    destruct (is_shared scope) eqn:Hs.
    + assert (s2 = s ∧ a2 = [] ∧ key = None) as (-> & -> & ->).
      { apply bool_decide_eq_true in Hs as ->. by injection Hk as -> <- <-. }
      split_and!; [done..|]. intros name. cbn [fmap option_fmap option_map]. rewrite of_scope_Shared.
      rewrite list_elem_of_omap. split.
      * intros (volume & Hin & ->%strip_prefix_Some). rewrite shared_volume_prefix in Hin.
        eexists. split; [by eexists|done].
      * intros (? & (? & [= <-] & Hin) & ->). eexists. split; [exact Hin|].
        apply strip_prefix_Some. symmetry. apply shared_volume_prefix.
    + assert (∃ k, resolved_key dir s = (s2, a2, Ok k) ∧ key = Some k) as (k & Hk' & ->).
      { destruct scope as [[]|]; [|done|];
          apply act_bind_Ok in Hk as (s3 & a3 & k & a4 & Hk & [= <- <- <-] & ->); exists k;
          by rewrite app_nil_r. }
      rewrite Hk'. cbn [fst]. pose proof (resolved_key_ok _ _ _ _ _ Hk') as [Hkey Hagain].
      rewrite Hagain. split_and!; [done..|by eapply resolved_key_asks|]. intros name.
      cbn [fmap option_fmap option_map]. rewrite of_scope_Project, list_elem_of_omap, Hkey. split.
      * intros (volume & Hin & ->%strip_prefix_Some). rewrite cache_volume_prefix in Hin.
        eexists. split; [by eexists|]. by exists k.
      * intros (? & (? & [= <-] & Hin) & ? & [= <-] & ->). eexists. split; [exact Hin|].
        apply strip_prefix_Some. symmetry. apply cache_volume_prefix.
  - apply act_bind_Ok in Hl as (s2 & a2 & own & a3 & Ho & Hl & ->).
    apply act_bind_Ok in Hl as (s3 & a4 & sh & a5 & Hsh & [= -> <- <- <-] & ->).
    apply matching_directories_run in Ho as (-> & -> & Ho).
    assert (s1 = s ∧ a4 = [] ∧ ∀ name, name ∈ sh ↔ ∃ root', root = Some root' ∧
      is_directory (se_world s) root' = true ∧
      ∃ entries, read_dir (se_world s) root' = Some entries ∧ Some (name, Some EntryDir) ∈ entries)
      as (-> & -> & Hs).
    { destruct root as [root|].
      - apply matching_directories_run in Hsh as (-> & -> & Hs). split_and!; [done..|].
        intros name. rewrite Hs. unfold takes. naive_solver.
      - injection Hsh as -> <- <-. split_and!; [done..|]. intros name.
        split; [by intros ?%not_elem_of_nil|by intros (? & ? & _)]. }
    split_and!; [done..|]. intros name. unfold present. cbn [rc_name rc_storage].
    destruct (is_shared scope); [rewrite Hs|rewrite Ho; unfold takes]; naive_solver.
Qed.

Lemma remove_all_run store found only (s s' : session W) asked removed :
  remove store found only s = (s', asked, Ok (Ok removed)) →
  (is_shared (sl_scope found) = true → only ≠ ∅) ∧
  ∀ cache, cache ∈ removed ↔
    takes only (rc_name cache) ∧ present store (sl_scope found) (at_listing store (sl_scope found) s) cache.
Proof.
  unfold remove. pose proof (refusal_spec found only) as Hr. destruct (refusal found only); [done|].
  intros (s1 & a1 & removed1 & a2 & Hrun & [= <- <- <-] & _)%act_bind_Ok.
  split; [intros Hs; by rewrite Hs in Hr|].
  assert (cleaned store (sl_scope found) only s a1 (Ok removed1)) as (before & _ & [(? & ? & _)|(caches & after & _ & Hf & Hc)]).
  { destruct (sl_scope found) as [[]|]; ((eapply remove_project_cleaned; [reflexivity|exact Hrun]) ||
      (eapply remove_shared_cleaned; [reflexivity|exact Hr|exact Hrun])). }
  { done. }
  destruct Hc as [[[= ->] _]|(? & ? & ? & _ & ? & _)]; [|done].
  intros cache. by apply found_caches_elem.
Qed.

(** The listing a script pipes into a clean is what that clean removes.  Of a
    listing, [-o quiet] prints the caches of its scope; a clean with the same flags that
    names them, or none, and succeeds removes exactly those, while a listing removes
    nothing.  And the volume a cache mount of that scope resolves to is one of them, once
    the daemon has it. *)
Theorem list_then_remove_spec store scope (s s1 : session W) asked1 found only s2 asked2 removed :
  list_caches store scope s = (s1, asked1, Ok found) →
  only = list_to_set (actionable found) ∨ only = ∅ →
  remove store found only s1 = (s2, asked2, Ok (Ok removed)) →
  Forall (λ r, ¬ is_removal r) asked1 ∧
  (∀ name, name ∈ rc_name <$> removed ↔ name ∈ actionable found) ∧
  ∀ dir mount s3 asked3 bind, store = VolumeStore dir →
    bool_decide (cache_scope mount = Shared) = is_shared scope →
    resolve_cache_mount (mk_cache_options Volume dir) (resolved_key dir) mount s1 = (s3, asked3, Ok bind) →
    ∃ volume, bm_source bind = VolumeSource volume ∧
      (∀ volumes, list_volumes (se_world s1) = Some volumes → volume ∈ volumes →
       mk_removed (cv_name mount) volume ∈ removed).
Proof.
  intros Hl Ho Hrun. destruct (list_caches_run _ _ _ _ _ _ Hl) as (_ & Hat & Hs & Hq & Hn).
  apply remove_all_run in Hrun as [_ Hrun]. rewrite Hs, Hat in Hrun. split; [done|].
  assert (∀ name, name ∈ actionable found → takes only name) as Ht.
  { intros name Hin. destruct Ho as [-> | ->]; [right|by left]. by apply elem_of_list_to_set. }
  split.
  { intros name. rewrite list_elem_of_fmap, Hn. split.
    - intros ([n storage] & -> & [_ Hp]%Hrun). by exists storage.
    - intros [storage Hp]. exists (mk_removed name storage). split; [done|]. apply Hrun. split; [|done].
      apply Ht, Hn. by exists storage. }
  intros dir mount s3 asked3 bind -> Hscope Hb. unfold resolve_cache_mount in Hb. rewrite Hscope in Hb.
  apply act_bind_Ok in Hb as (s4 & a4 & source & a5 & Hb & [= -> _ <-] & _). cbn [bm_source op_cache_type] in *.
  assert (∀ volume, (if is_shared scope then volume = shared_cache_volume_name (cv_name mount)
      else ∃ key, se_key s1 = Some key ∧ volume = cache_volume_name key (cv_name mount)) →
    ∀ volumes, list_volumes (se_world s1) = Some volumes → volume ∈ volumes →
    mk_removed (cv_name mount) volume ∈ removed) as Hgo.
  { intros volume Hv volumes Hl' Hin.
    assert (present (VolumeStore dir) scope s1 (mk_removed (cv_name mount) volume)) as Hp by (split; [by eexists|done]).
    apply Hrun. split; [|done]. apply Ht, Hn. by exists volume. }
  unfold at_listing in Hat. destruct (is_shared scope).
  - injection Hb as _ _ <-. eexists. split; [done|]. by apply Hgo.
  - apply act_bind_Ok in Hb as (s5 & a6 & key & a7 & Hk & [= _ _ <-] & _). eexists. split; [done|].
    apply Hgo. exists key. rewrite Hk in Hat. cbn [fst] in Hat. subst s5.
    by destruct (resolved_key_ok _ _ _ _ _ Hk) as [-> _].
Qed.
(** C29: What a clean of caches removes.  It refuses, asking for nothing, exactly when
    a shared cache is named without [--scope shared] or that scope is swept without
    names.  Otherwise it removes, one by one and each reported before and after, the
    caches of the scope that are there and selected and nothing else: a project's own
    by its key or under its cache directory, shared ones only when named and in the
    shared scope, and a directory never through a link.  It stops at the first removal
    that fails, and succeeds only when each of those caches was removed.  And the
    listing a script pipes into it is what it removes: of a listing, [-o quiet] prints
    the caches of its scope; a clean with the same flags that names them, or none, and
    succeeds removes exactly those, while the listing removes nothing; and the volume
    a cache mount of that scope resolves to is one of them, once the daemon has it. *)
Theorem clean_caches_spec store :
  (∀ found only (s s' : session W) asked r,
    remove store found only s = (s', asked, r) →
    let scope := sl_scope found in
    let here cache := selected scope only (rc_name cache) ∧ present store scope (at_listing store scope s) cache in
    (∃ refused, r = Ok (Err refused) ∧ asked = [] ∧ s' = s ∧
       match refused with
       | SharedSweepNotNamed => is_shared scope = true ∧ only = ∅
       | SharedNotNamed name => is_shared scope = false ∧ name ∈ only ∧ name ∈ sl_shared found
       end) ∨
    (if is_shared scope then only ≠ ∅ else ∀ name, name ∈ only → name ∉ sl_shared found) ∧
    ∃ before, Forall (λ r, ¬ is_removal r) before ∧
      ((∃ e, r = Err e ∧ asked = before) ∨
       ∃ caches, (∀ cache, cache ∈ caches ↔ here cache) ∧
         (r = Ok (Ok caches) ∧ asked = before ++ (caches ≫= gone store) ∨
          ∃ n cache e, caches !! n = Some cache ∧ r = Err e ∧
            asked = before ++ (take n caches ≫= gone store) ++
                    [Report (Removing cache); removal_of store (rc_storage cache)]))) ∧
  (∀ scope (s s1 : session W) asked1 found only s2 asked2 removed,
    list_caches store scope s = (s1, asked1, Ok found) →
    only = list_to_set (actionable found) ∨ only = ∅ →
    remove store found only s1 = (s2, asked2, Ok (Ok removed)) →
    Forall (λ r, ¬ is_removal r) asked1 ∧
    (∀ name, name ∈ rc_name <$> removed ↔ name ∈ actionable found) ∧
    ∀ dir mount s3 asked3 bind, store = VolumeStore dir →
      bool_decide (cache_scope mount = Shared) = is_shared scope →
      resolve_cache_mount (mk_cache_options Volume dir) (resolved_key dir) mount s1 = (s3, asked3, Ok bind) →
      ∃ volume, bm_source bind = VolumeSource volume ∧
        (∀ volumes, list_volumes (se_world s1) = Some volumes → volume ∈ volumes →
         mk_removed (cv_name mount) volume ∈ removed)).
Proof. split; [intros found only s s' asked r; apply remove_spec|intros *; apply list_then_remove_spec]. Qed.
End spec.

(** ** The key file *)

Definition key_text (key : string) : Prop :=
  key ≠ EmptyString ∧ (∀ c, c ∈ chars key → is_whitespace c = false) ∧ starts_with "#" key = false.

(** The key that is written is the key that is read back. *)
Theorem key_file_round_trip path key : key_text key → read_project_cache_key path (key_file key) = Ok key.
Proof.
  intros (Hne & Hw & Hh). unfold read_project_cache_key, buf_lines.
  assert (∃ a b, split "010" (key_file key) = [a; b; key; EmptyString] ∧
    key_line (trim (default a (strip_suffix (String "013" EmptyString) a))) = false ∧
    key_line (trim (default b (strip_suffix (String "013" EmptyString) b))) = false) as (a & b & -> & Ha & Hb).
  { unfold key_file.
    set (a := "# This file was autogenerated to track which Docker volumes are associated with this project.").
    set (b := "# Do not modify it, and do not commit it to source control.").
    change (String "010" EmptyString +:+ b +:+ String "010" EmptyString +:+ key +:+ String "010" EmptyString)
      with (String "010" (b +:+ String "010" (key +:+ String "010" EmptyString))).
    exists a, b. rewrite !split_app, (split_free _ key); [split_and!; vm_compute; reflexivity|].
    intros Hin. by apply Hw in Hin. }
  assert (strip_suffix (String "013" EmptyString) key = None) as Hk.
  { apply strip_suffix_None. intros t ->. specialize (Hw "013"%char). rewrite chars_app in Hw.
    discriminate Hw. apply elem_of_app. right. by left. }
  cbn [terminated]. rewrite bool_decide_true by done. cbn [fmap list_fmap]. rewrite Hk. cbn [default].
  rewrite !filter_cons_False by (rewrite ?Ha, ?Hb; done). change (default key None) with key.
  rewrite trim_id by done.
  rewrite filter_cons_True; [done|]. unfold key_line. by rewrite bool_decide_false, Hh.
Qed.

(** ** A host *)

Module Host.

Record world := mk_world { w_key : option string; w_volumes : list string; w_entries : list string }.

#[local] Instance host : CacheHost world := {|
  read_text w _ := from_option ReadText ReadMissing (w_key w);
  is_symlink _ _ := false;
  is_directory _ _ := true;
  read_dir w _ := Some ((λ name, Some (name, Some EntryDir)) <$> w_entries w ++ []);
  make_dirs w _ := (w, true);
  write_text w _ contents := (mk_world (Some contents) (w_volumes w) (w_entries w), true);
  remove_dir_all w _ := (w, true);
  list_volumes w := Some (w_volumes w);
  remove_volume w name := (mk_world (w_key w) (filter (.≠ name) (w_volumes w)) (w_entries w), true);
  new_uuid w := (w, "1b9d6bcd");
  home_directory _ := None |}.

Definition start : session world :=
  mk_session (mk_world (Some "k1") ["batect-cache-k1-gradle"; "batect-cache-k2-gradle"; "ratect-shared-cache-npm";
                                    "batect-cache-k1-npm"; "postgres"] []) None.
Definition store : CacheStore := VolumeStore "/p".

Definition listed : result CacheSelection cache_error := (list_caches store (Some Project) start).2.
Definition found : CacheSelection := mk_selection ["gradle"; "npm"] [] (Some Project).
Definition after_listing : session world := (list_caches store (Some Project) start).1.1.

Example clean_caches_spec_witness :
  listed = Ok found ∧
  let '(s2, asked2, r) := remove store found ∅ after_listing in
  ∃ removed, r = Ok (Ok removed) ∧ ∀ name, name ∈ rc_name <$> removed ↔ name ∈ ["gradle"; "npm"].
Proof.
  split; [vm_compute; reflexivity|].
  destruct (remove store found ∅ after_listing) as [[s2 asked2] r] eqn:E.
  assert (r = (remove store found ∅ after_listing).2) as Hr by (by rewrite E).
  vm_compute in Hr. eexists. split; [exact Hr|]. subst r.
  destruct (list_caches store (Some Project) start) as [[s1 asked1] l] eqn:El.
  assert (l = Ok found) as ->.
  { transitivity (list_caches store (Some Project) start).2; [by rewrite El|vm_compute; reflexivity]. }
  assert (s1 = after_listing) as -> by (unfold after_listing; by rewrite El).
  exact (proj1 (proj2 (proj2 (clean_caches_spec store) (Some Project) start after_listing asked1 found ∅ s2 asked2 _
    El (or_intror eq_refl) E))).
Defined.
End Host.
