(* ===== verification/ImageReference.v ===== *)
(** * ImageReference: the tags a built image can have

    [ratect-core/src/image_reference.rs]: Docker's grammar of image references.
    [reference_captures] reads a text as the pattern [REFERENCE] does: none of
    its four parts holds the char that starts the next, so there is one way to. *)

From S2P Require Import Prelude Text Collections ExternalChecks.
From stdpp Require Import options.

Definition REPOSITORY_NAME_TOTAL_LENGTH_MAX : nat := 255.
Definition DEFAULT_DOMAIN : string := "docker.io".
Definition LEGACY_DEFAULT_DOMAIN : string := "index.docker.io".
Definition OFFICIAL_REPO_PREFIX : string := "library/".

(** ** The pattern *)

Definition is_hex (c : ascii) : bool :=
  is_ascii_digit c || in_range 97 102 c || in_range 65 70 c.

Definition all_chars (p : ascii → bool) (s : string) : bool := forallb p (chars s).

(** [\[a-zA-Z0-9\]|\[a-zA-Z0-9\]\[a-zA-Z0-9-\]*\[a-zA-Z0-9\]] *)
Definition domain_component (s : string) : bool :=
  all_chars (λ c, is_ascii_alphanumeric c || bool_decide (c = "-"%char)) s &&
  match head (chars s), last (chars s) with
  | Some first, Some last => is_ascii_alphanumeric first && is_ascii_alphanumeric last
  | _, _ => false
  end.

Definition named_host (s : string) : bool := forallb domain_component (split "." s).

(** [\[] then hex digits and colons, at least one, then [\]]. *)
Definition bracketed_host (s : string) : bool :=
  match strip_prefix "[" s with
  | Some rest =>
      match strip_suffix "]" rest with
      | Some inner =>
          negb (bool_decide (inner = EmptyString)) &&
          all_chars (λ c, is_hex c || bool_decide (c = ":"%char)) inner
      | None => false
      end
  | None => false
  end.

Definition host (s : string) : bool := named_host s || bracketed_host s.

Definition port (s : string) : bool :=
  negb (bool_decide (s = EmptyString)) && all_chars is_ascii_digit s.

(** A host, and a port after its last colon, if it has one. *)
Definition domain (s : string) : bool :=
  host s ||
  match rsplit_once ":" s with
  | Some (before, after) => host before && port after
  | None => false
  end.

Definition repository_path (s : string) : bool := forallb is_name_component (split "/" s).

Definition word_char (c : ascii) : bool := is_ascii_alphanumeric c || bool_decide (c = "_"%char).

Definition tag_text (s : string) : bool :=
  match chars s with
  | first :: rest =>
      word_char first && (length rest <=? 127) &&
      forallb (λ c, word_char c || bool_decide (c = "."%char) || bool_decide (c = "-"%char)) rest
  | [] => false
  end.

(** Runs of letters and digits that start with a letter, joined by one of
    [-_+.]: whether the next char starts a run. *)
Fixpoint algorithm_from (starts : bool) (l : list ascii) : bool :=
  match l with
  | [] => negb starts
  | c :: l =>
      if starts then is_ascii_alphabetic c && algorithm_from false l
      else if is_ascii_alphanumeric c then algorithm_from false l
      else bool_decide (c ∈ chars "-_+.") && algorithm_from true l
  end.

Definition digest_text (s : string) : bool :=
  match split_once ":" s with
  | Some (algorithm, encoded) =>
      algorithm_from true (chars algorithm) && all_chars is_hex encoded && (32 <=? String.length encoded)
  | None => false
  end.

Record ReferenceParts := mk_reference {
  rf_domain : option string;
  rf_path : string;
  rf_tag : option string;
  rf_digest : option string;
}.

(** The path and what follows it. *)
Definition remainder_parts (s : string) : option (string * option string * option string) :=
  let '(before, digest) := match split_once "@" s with Some (b, d) => (b, Some d) | None => (s, None) end in
  let '(path, tag) := match split_once ":" before with Some (p, t) => (p, Some t) | None => (before, None) end in
  if repository_path path && from_option tag_text true tag && from_option digest_text true digest
  then Some (path, tag, digest) else None.

Definition reference_captures (s : string) : option ReferenceParts :=
  match split_once "/" s with
  | Some (before, after) =>
      if domain before then
        '(path, tag, digest) ← remainder_parts after;
        Some (mk_reference (Some before) path tag digest)
      else '(path, tag, digest) ← remainder_parts s; Some (mk_reference None path tag digest)
  | None => '(path, tag, digest) ← remainder_parts s; Some (mk_reference None path tag digest)
  end.

Definition is_image_id (s : string) : bool :=
  (String.length s =? 64) && all_chars (λ c, is_ascii_digit c || in_range 97 102 c) s.

(** ** Checking *)

Inductive reference_error :=
| LooksLikeAnId (value : string)
| NameNotLowercase (name : string)
| RepositoryNotLowercase
| InvalidFormat
| NameTooLong
| InvalidDigestFormat
| UnsupportedAlgorithm
| InvalidDigestLength
| HasDigest.

Definition split_docker_domain (name : string) : string * string :=
  let '(domain, remote) :=
    match split_once "/" name with
    | None => (DEFAULT_DOMAIN, name)
    | Some (head, tail) =>
        if bool_decide (head = LEGACY_DEFAULT_DOMAIN) then (DEFAULT_DOMAIN, tail)
        else if bool_decide (head = "localhost") || contains_char "." head || contains_char ":" head ||
                negb (bool_decide (to_lowercase head = head)) then (head, tail)
        else (DEFAULT_DOMAIN, name)
    end in
  if bool_decide (domain = DEFAULT_DOMAIN) && negb (contains_char "/" remote)
  then (domain, OFFICIAL_REPO_PREFIX +:+ remote)
  else (domain, remote).

Definition check_digest (digest : string) : result () reference_error :=
  let '(algorithm, encoded) := default (EmptyString, EmptyString) (split_once ":" digest) in
  let? length :=
    if bool_decide (algorithm = "sha256") then Ok 64
    else if bool_decide (algorithm = "sha384") then Ok 96
    else if bool_decide (algorithm = "sha512") then Ok 128
    else if existsb is_ascii_uppercase (chars algorithm) then Err InvalidDigestFormat
    else Err UnsupportedAlgorithm in
  let? _ := ensure (String.length encoded =? length) InvalidDigestLength in
  ensure (negb (existsb is_ascii_uppercase (chars encoded))) InvalidDigestFormat.

Definition parse (reference : string) : result () reference_error :=
  match reference_captures reference with
  | None =>
      let lowercase := to_lowercase reference in
      if negb (bool_decide (lowercase = reference)) && bool_decide (is_Some (reference_captures lowercase))
      then Err RepositoryNotLowercase
      else Err InvalidFormat
  | Some captures =>
      let? _ := ensure (String.length (rf_path captures) <=? REPOSITORY_NAME_TOTAL_LENGTH_MAX) NameTooLong in
      match rf_digest captures with
      | Some digest => let? _ := check_digest digest in Err HasDigest
      | None => Ok tt
      end
  end.

Definition check (value : string) : result () reference_error :=
  let? _ := ensure (negb (is_image_id value)) (LooksLikeAnId value) in
  let '(domain, remainder) := split_docker_domain value in
  let remote := default remainder (fst <$> split_once ":" remainder) in
  let? _ := ensure (bool_decide (to_lowercase remote = remote)) (NameNotLowercase remote) in
  parse (domain +:+ "/" +:+ remainder).

(** [check_tag]: the tag, then why. *)
Definition check_tag (tag : string) : result () (string * reference_error) :=
  map_err (pair tag) (check tag).

(** ** Examples *)

Example checked :
  is_ok <$> [check "app"; check "myorg/app:1.0"; check "localhost:5000/a/b:x"; check "[::1]:80/a"; check "MyOrg/app";
    check "App"; check "app:"; check "app@sha256:abc"; check "a__b-c.d/e:_x"; check "a___b"] =
  [true; true; true; true; true; false; false; false; true; false].
Proof. vm_compute. reflexivity. Qed.

(** ** The tag of a built image *)

Definition name_char (c : ascii) : bool := lower_or_digit c || bool_decide (c ∈ chars "._-").

Lemma name_run_name_chars st l c : name_run st l = true → c ∈ l → name_char c = true.
Proof.
  revert st. induction l as [|d l IH]; simpl; intros st Hrun; [by intros ?%not_elem_of_nil|].
  destruct (name_step st d) as [st'|] eqn:Hs; [|done].
  intros [->|Hc]%elem_of_cons; [|by eapply IH]. unfold name_step, name_char in *.
  destruct (lower_or_digit d); [done|]. simpl. apply bool_decide_eq_true.
  destruct st; repeat case_decide; subst; set_solver.
Qed.

Lemma name_run_starts st l : name_run NeedsWord l = true → name_run st l = true.
Proof.
  destruct l as [|c l]; [done|]. simpl. unfold name_step. by destruct (lower_or_digit c).
Qed.

Lemma name_run_dash st l k :
  name_run st l = true → name_run NeedsWord k = true → name_run st (l ++ "-"%char :: k) = true.
Proof.
  revert st. induction l as [|c l IH]; intros st Hl Hk.
  - destruct st; try done. simpl. by apply name_run_starts.
  - simpl in *. destruct (name_step st c); [by apply IH|done].
Qed.

(** Two components joined by a dash are one. *)
Lemma joined_component a b :
  is_name_component a = true → is_name_component b = true → is_name_component (a +:+ "-" +:+ b) = true.
Proof. unfold is_name_component. intros Ha Hb. rewrite !chars_app. by apply name_run_dash. Qed.

Lemma to_lowercase_id s : (∀ c, c ∈ chars s → name_char c = true ∨ c = "/"%char) → to_lowercase s = s.
Proof.
  intros H. unfold to_lowercase. rewrite <-(of_chars_chars s) at 2. f_equal.
  rewrite <-(list_fmap_id (chars s)) at 2. apply list_fmap_ext. intros i c Hc.
  specialize (H c (list_elem_of_lookup_2 _ _ _ Hc)). simpl.
  destruct H as [H| ->]; [|done].
  destruct c as [[] [] [] [] [] [] [] []]; (reflexivity || (vm_compute in H; discriminate H)).
Qed.

(** The tag made of a project and a container is one, unless it is too long. *)
Theorem project_tag_spec project container :
  is_name_component project = true → is_name_component container = true →
  check (project +:+ "-" +:+ container) =
    (if String.length (project +:+ "-" +:+ container) <=? 247 then Ok tt else Err NameTooLong).
Proof.
  intros Hp Hc. pose proof (joined_component _ _ Hp Hc) as Hn.
  assert ("-"%char ∈ chars (project +:+ "-" +:+ container)) as Hdash.
  { rewrite !chars_app. apply elem_of_app. right. by left. }
  set (s := project +:+ "-" +:+ container) in *. clearbody s.
  assert (∀ c, c ∈ chars s → name_char c = true) as Hs by (intros c; by apply (name_run_name_chars NeedsWord)).
  assert (∀ c, name_char c = false → c ∉ chars s) as Hnot by (intros c Hf Hin; by rewrite Hs in Hf).
  assert (is_image_id s = false) as Hid.
  { unfold is_image_id, all_chars. apply andb_false_iff. right. apply not_true_iff_false. rewrite forallb_forall.
    intros H. specialize (H "-"%char). by rewrite list_elem_of_In in Hdash; apply H in Hdash. }
  assert (∀ c, name_char c = false → c ≠ "/"%char → c ∉ chars (OFFICIAL_REPO_PREFIX +:+ s)) as Hlib.
  { intros c Hf Hsl. rewrite chars_app. intros [H|H]%elem_of_app; [|by eapply Hnot].
    assert (name_char c = true ∨ c = "/"%char) as [|]; [|congruence|done].
    revert H. clear. change (chars OFFICIAL_REPO_PREFIX) with (chars "library/").
    intros H. repeat (apply elem_of_cons in H as [->|H]; [vm_compute; auto|]). by apply not_elem_of_nil in H. }
  unfold check. rewrite Hid. cbn [negb ensure result_bind].
  unfold split_docker_domain. rewrite (proj2 (split_once_None "/" s)) by by apply Hnot.
  assert (contains_char "/" s = false) as -> by (apply bool_decide_eq_false; by apply Hnot).
  rewrite bool_decide_true by done. cbn [andb negb].
  rewrite (proj2 (split_once_None ":" _)) by (apply Hlib; done). cbn [fmap option_fmap option_map default from_option].
  assert (∀ t, (OFFICIAL_REPO_PREFIX +:+ s = t) → to_lowercase t = t) as Hlow.
  { intros t <-. apply to_lowercase_id. intros c Hin. destruct (name_char c) eqn:E; [by left|].
    destruct (decide (c = "/"%char)); [by right|]. by eapply Hlib in Hin. }
  rewrite Hlow by done. rewrite bool_decide_true by done. cbn [ensure result_bind].
  unfold parse, reference_captures.
  change (DEFAULT_DOMAIN +:+ "/" +:+ OFFICIAL_REPO_PREFIX +:+ s) with
    ("docker.io" +:+ String "/" (OFFICIAL_REPO_PREFIX +:+ s)).
  rewrite (proj2 (split_once_Some "/" _ "docker.io" (OFFICIAL_REPO_PREFIX +:+ s)))
    by (split; [done|]; by apply (bool_decide_eq_true_1 _)).
  change (domain "docker.io") with true. cbv iota. unfold remainder_parts.
  rewrite (proj2 (split_once_None "@" _)) by (by apply Hlib).
  rewrite (proj2 (split_once_None ":" _)) by (by apply Hlib).
  assert (repository_path (OFFICIAL_REPO_PREFIX +:+ s) = true) as ->.
  { unfold repository_path. change (OFFICIAL_REPO_PREFIX +:+ s) with ("library" +:+ String "/" s).
    rewrite split_app, (split_free _ s), split_free; [simpl; by rewrite Hn| |by apply Hnot].
    by apply (bool_decide_eq_true_1 _). }
  cbn [from_option andb mbind option_bind rf_path rf_digest].
  assert (String.length (OFFICIAL_REPO_PREFIX +:+ s) = 8 + String.length s) as -> by done.
  destruct (Nat.leb_spec (String.length s) 247) as [Hle|Hle].
  - rewrite (proj2 (Nat.leb_le _ _)); [done|]. unfold REPOSITORY_NAME_TOTAL_LENGTH_MAX. lia.
  - rewrite (proj2 (Nat.leb_gt _ _)); [done|]. unfold REPOSITORY_NAME_TOTAL_LENGTH_MAX. lia.
Qed.
