(* ===== verification/Images.v ===== *)
(** * Images: the image each container runs

    [resolve_image] of [ratect-core/src/engine.rs], what it calls, and
    [check_build_files] of [container_spec.rs].  The daemon and the build's
    files are an interface.  A memo cell is its entry in a map: the code holds a
    cell while its value is made, so no two futures make one value.  The permits
    of [--max-parallelism] are [Startup]'s. *)

From S2P Require Import Prelude Text Collections Config Values Outcome Proxy ContainerSpec Dockerignore Paths Io.
From S2P Require Import Passwd ImageReference.
From stdpp Require Import options.

#[global] Instance ImagePullPolicy_countable : Countable ImagePullPolicy :=
  inj_countable' (λ p, match p with IfNotPresent => false | Always => true end)
    (λ b, if b : bool then Always else IfNotPresent) ltac:(by intros []).

(** ** The files of a build *)

Class BuildFiles (F : Type) := {
  file_exists : F → string → bool;
  file_is_dir : F → string → bool;
  file_is_file : F → string → bool;
  file_is_link : F → string → bool;
}.

Inductive build_file_error :=
| NoBuildDirectory (directory : string)
| BuildDirectoryNotOne (directory : string)
| NoDockerfile (dockerfile directory : string)
| DockerfileNotAFile (dockerfile : string)
| DockerfileIsLink (dockerfile : string)
| DockerfileOutside (dockerfile directory : string)
| DockerfileThroughLink (dockerfile link : string).

Section build_files.
Context {F : Type} `{!BuildFiles F, !PathClean}.

(** [Path::strip_prefix], as components. *)
Definition below_root (path root : string) : option (list string) :=
  if path_starts_with path root then Some (drop (length (components root).2) (components path).2) else None.

(** The loop over [relative]: the first link passed on the way to [path], as what
    is below [root] by then. *)
Fixpoint link_on_the_way (files : F) (path reached : string) (passed relative : list string) : option string :=
  match relative with
  | [] => None
  | component :: relative =>
      let reached := path_join reached component in
      let passed := passed ++ [component] in
      if negb (bool_decide (components reached = components path)) && file_is_link files reached
      then Some (of_components (false, passed))
      else link_on_the_way files path reached passed relative
  end.

Definition check_build_files (files : F) (build_directory : string) (in_bundle dockerfile : option string)
    : result string build_file_error :=
  let dockerfile := default "Dockerfile" dockerfile in
  let directory := default build_directory in_bundle in
  let? _ := ensure (file_exists files build_directory) (NoBuildDirectory directory) in
  let? _ := ensure (file_is_dir files build_directory) (BuildDirectoryNotOne directory) in
  let root := clean build_directory in
  let path := clean (path_join root dockerfile) in
  let? _ := ensure (file_exists files path) (NoDockerfile dockerfile directory) in
  let? _ := ensure (file_is_file files path) (DockerfileNotAFile dockerfile) in
  let? _ := ensure (negb (file_is_link files path)) (DockerfileIsLink dockerfile) in
  let? relative := ok_or (below_root path root) (DockerfileOutside dockerfile directory) in
  match link_on_the_way files path root [] relative with
  | Some link => Err (DockerfileThroughLink dockerfile link)
  | None => Ok (join "/" relative)
  end.
End build_files.

(** ** The daemon *)

Inductive image_event :=
| ImagePullStarting (image : string)
| ImagePullCompleted (image : string)
| ImageBuildStarting (container : string)
| ImageBuildCompleted (container : string)
| ImageIsResolved (container : string).

(** What was asked, with what was answered: no answer is a failure. *)
Inductive request :=
| LookedUp (image : string) (answer : option (option string))
| Pulled (image : string) (policy : ImagePullPolicy) (answer : option string)
| Built (container : string) (spec : BuildSpec) (answer : option string)
| Tagged (id tag : string) (ok : bool)
| Posted (event : image_event).

Class ImageDaemon (W : Type) := {
  local_image_id : W → string → W * option (option string);
  pull_image : W → string → W * option string;
  new_build_id : W → W * string;
  build_image : W → BuildSpec → string → W * option string;
  tag_image : W → string → string → W * bool;
}.

Inductive image_error :=
| TaggedPulledImage (container : string)
| LookupFailed (image : string)
| PullFailed (image : string)
| ProjectTagInvalid (tag project_name container : string) (reason : reference_error)
| TagInvalid (tag : string) (reason : reference_error)
| BuildFilesFailed (e : build_file_error)
| BuildSpecFailed (e : spec_error)
| BuildRefused
| TagsRefused (tags : list string)
| NotBuilt (container : string) (e : image_error)
| NoImageSource (container : string)
| UndeclaredContainer (container : string).

(** [Failed::tag]: what the cleanup says failed. *)
Record failed_image := mk_failed { fi_cause : option CleanupCause; fi_error : image_error }.

(** The engine's settings a resolution reads. *)
Record ImageSettings := mk_image_settings {
  se_project_name : string;
  se_image_overrides : gmap string string;
  se_image_tags : gmap string (gset string);
  se_propagate_proxy : bool;
  se_host_env : string → option string;
}.

(** The engine's state: [pulled_images], [built_images], [containers_used],
    [in_flight_builds], and the [cells] of a task. *)
Record engine (W : Type) := mk_engine {
  en_world : W;
  en_pulled : gmap (string * ImagePullPolicy) (result string image_error);
  en_built : gmap string (result string image_error);
  en_used : gset string;
  en_in_flight : gmap string string;
  en_cells : gmap string (result string failed_image);
}.
#[global] Arguments mk_engine {W}.
#[global] Arguments en_world {W}.
#[global] Arguments en_pulled {W}.
#[global] Arguments en_built {W}.
#[global] Arguments en_used {W}.
#[global] Arguments en_in_flight {W}.
#[global] Arguments en_cells {W}.

Section images.
Context {W : Type} `{!ImageDaemon W, !BuildFiles W, !PathClean, !UrlCrate}.
Context (metadata : W → string → file_answer) (settings : ImageSettings).
#[local] Notation act A := (Io.action (engine W) request image_error A%type).

Definition set_world (w : W) (s : engine W) : engine W :=
  mk_engine w (en_pulled s) (en_built s) (en_used s) (en_in_flight s) (en_cells s).
Definition set_pulled p (s : engine W) : engine W :=
  mk_engine (en_world s) p (en_built s) (en_used s) (en_in_flight s) (en_cells s).
Definition set_built b (s : engine W) : engine W :=
  mk_engine (en_world s) (en_pulled s) b (en_used s) (en_in_flight s) (en_cells s).
Definition set_used u (s : engine W) : engine W :=
  mk_engine (en_world s) (en_pulled s) (en_built s) u (en_in_flight s) (en_cells s).
Definition set_in_flight f (s : engine W) : engine W :=
  mk_engine (en_world s) (en_pulled s) (en_built s) (en_used s) f (en_cells s).
Definition set_cells c (s : engine W) : engine W :=
  mk_engine (en_world s) (en_pulled s) (en_built s) (en_used s) (en_in_flight s) c.

(** [OnceCell::get_or_init]. *)
Definition get_or_init {E} (value : engine W → option (result string E))
    (init : result string E → engine W → engine W) (make : Io.action (engine W) request E string)
    : Io.action (engine W) request E string := λ s,
  match value s with
  | Some r => (s, [], r)
  | None => let '(s, asked, r) := make s in (init r s, asked, r)
  end.

Definition post {E} (event : image_event) : Io.action (engine W) request E () :=
  act_ask (Posted event) (λ s, (s, Ok tt)).

(** A call, recorded with its answer. *)
Definition call {A} (request_of : A → request) (f : W → W * A) : act A := λ s,
  let '(w, a) := f (en_world s) in (set_world w s, [request_of a], Ok a).

Definition update (f : engine W → engine W) : act () := λ s, (f s, [], Ok tt).

Definition resolve_pulled_image (image : string) (policy : ImagePullPolicy) : act string :=
  get_or_init (λ s, en_pulled s !! (image, policy)) (λ r s, set_pulled (<[(image, policy) := r]> (en_pulled s)) s)
    (do! found := match policy with
                  | IfNotPresent =>
                      do! found := call (LookedUp image) (λ w, local_image_id w image) in
                      act_lift (ok_or found (LookupFailed image))
                  | Always => act_ret None
                  end in
     match found with
     | Some id => act_ret id
     | None =>
         do! _ := post (ImagePullStarting image) in
         do! id := call (Pulled image policy) (λ w, pull_image w image) in
         do! id := act_lift (ok_or id (PullFailed image)) in
         do! _ := post (ImagePullCompleted image) in
         act_ret id
     end).

Definition check_image_overrides (containers : gmap string Container) : option string :=
  head (filter (λ name, containers !! name = None) (elements (dom (se_image_overrides settings)))).

Definition reject_tagged_pulled_image (container_name : string) : result () image_error :=
  ensure (bool_decide (se_image_tags settings !! container_name = None)) (TaggedPulledImage container_name).

Definition extra_tags (container_name : string) : list string :=
  sort_strings (elements (default ∅ (se_image_tags settings !! container_name))).

(** The tags, in order; those the daemon refused. *)
Fixpoint apply_tags (image_id : string) (tags : list string) : act (list string) :=
  match tags with
  | [] => act_ret []
  | tag :: tags =>
      do! ok := call (Tagged image_id tag) (λ w, tag_image w image_id tag) in
      do! refused := apply_tags image_id tags in
      act_ret (if ok then refused else tag :: refused)
  end.

Definition build (container_name : string) (container_config : Container) (build_directory : string)
    : act string :=
  let project_name := se_project_name settings in
  let tag := project_name +:+ "-" +:+ container_name in
  let extra_tags := extra_tags container_name in
  do! _ := act_lift (map_err (ProjectTagInvalid tag project_name container_name) (check tag)) in
  do! _ := act_each (λ tag, act_lift (map_err (λ e, TagInvalid e.1 e.2) (check_tag tag))) extra_tags in
  do! w := act_read en_world in
  do! dockerfile := act_lift (map_err BuildFilesFailed
    (check_build_files w build_directory (c_build_directory_in_bundle container_config)
       (c_dockerfile container_config))) in
  let proxy := proxy_environment (se_propagate_proxy settings) (se_host_env settings) ∅ in
  do! spec := act_lift (map_err BuildSpecFailed
    (derive_build_spec (metadata w) container_config build_directory dockerfile tag proxy
       (se_propagate_proxy settings))) in
  do! _ := post (ImageBuildStarting container_name) in
  do! build_id := λ s, let '(w, id) := new_build_id (en_world s) in (set_world w s, [], Ok id) in
  do! _ := update (λ s, set_in_flight (<[build_id := container_name]> (en_in_flight s)) s) in
  do! built := call (Built container_name spec) (λ w, build_image w spec build_id) in
  do! _ := update (λ s, set_in_flight (delete build_id (en_in_flight s)) s) in
  do! image_id := act_lift (ok_or built BuildRefused) in
  do! _ := post (ImageBuildCompleted container_name) in
  do! refused := apply_tags image_id extra_tags in
  do! _ := act_ensure (bool_decide (refused = [])) (TagsRefused refused) in
  act_ret image_id.

Definition map_act_err {A E F} (f : E → F) (m : Io.action (engine W) request E A)
    : Io.action (engine W) request F A := λ s,
  let '(s, asked, a) := m s in (s, asked, map_err f a).

Definition resolve_image (container_name : string) (container_config : Container) : act string :=
  do! _ := update (λ s, set_used ({[container_name]} ∪ en_used s) s) in
  match se_image_overrides settings !! container_name with
  | Some image =>
      do! _ := act_lift (reject_tagged_pulled_image container_name) in
      resolve_pulled_image image IfNotPresent
  | None =>
      match c_image container_config, c_build_directory container_config with
      | Some image, _ =>
          do! _ := act_lift (reject_tagged_pulled_image container_name) in
          resolve_pulled_image image (default IfNotPresent (c_image_pull_policy container_config))
      | None, Some build_directory =>
          get_or_init (λ s, en_built s !! container_name)
            (λ r s, set_built (<[container_name := r]> (en_built s)) s)
            (map_act_err (NotBuilt container_name) (build container_name container_config build_directory))
      | None, None => act_fail (NoImageSource container_name)
      end
  end.

(** What the cleanup says of an image that was not resolved. *)
Definition image_cause (name : string) (container_config : Container) : CleanupCause :=
  of_container name (c_reports_readiness_for container_config)
    (match c_build_directory container_config with
     | Some _ => ImageBuildFailed
     | None => ImagePullFailed
     end).

Definition ensure_image_resolved (name : string) (containers : gmap string Container)
    : Io.action (engine W) request failed_image string :=
  get_or_init (λ s, en_cells s !! name) (λ r s, set_cells (<[name := r]> (en_cells s)) s)
    (do! container_config :=
       act_lift (ok_or (containers !! name) (mk_failed None (UndeclaredContainer name))) in
     do! image := map_act_err (mk_failed (Some (image_cause name container_config)))
                    (resolve_image name container_config) in
     do! _ := match c_reports_readiness_for container_config with
              | None => post (ImageIsResolved name)
              | Some _ => act_ret tt
              end in
     act_ret image).
End images.

(** [check_tag_and_override] *)
Definition check_tag_and_override (image_tags image_overrides : list (string * string)) : option string :=
  head (filter (.∈ image_overrides.*1) image_tags.*1).

(** [resolve_user_mapping]: [user] is what [current_user] answers. *)
Definition resolve_user_mapping (user : option CurrentUser) (container_config : Container)
    : result (option UserMapping) () :=
  match c_run_as_current_user container_config with
  | None => Ok None
  | Some run_as =>
      if negb (ru_enabled run_as) then Ok None
      else
        let? user := ok_or user tt in
        let home_directory := default EmptyString (ru_home_directory run_as) in
        let cache_directories :=
          omap (λ volume, match volume with
                          | CacheMount cache =>
                              if is_read_only (cv_options cache) then None else Some (cv_container cache)
                          | _ => None
                          end) (default [] (c_volumes container_config)) in
        Ok (Some (mk_user_mapping user home_directory cache_directories))
  end.
