(* ===== verification/ImagesSpec.v ===== *)
(** * ImagesSpec: each image is pulled or built once, and run by its id *)

From S2P Require Import Prelude Text Collections Config Values Outcome Proxy ContainerSpec Dockerignore Paths Io.
From S2P Require Import ImageReference Images LexicalClean.
From stdpp Require Import options.

(** ** What was asked *)

Definition pulls (log : list request) : list (string * ImagePullPolicy) :=
  omap (λ r, match r with Pulled image policy _ => Some (image, policy) | _ => None end) log.
Definition builds (log : list request) : list string :=
  omap (λ r, match r with Built container _ _ => Some container | _ => None end) log.

Lemma pulls_app l k : pulls (l ++ k) = pulls l ++ pulls k.
Proof. apply omap_app. Qed.
Lemma builds_app l k : builds (l ++ k) = builds l ++ builds k.
Proof. apply omap_app. Qed.

Lemma elem_of_pulls image policy log :
  (image, policy) ∈ pulls log ↔ ∃ answer, Pulled image policy answer ∈ log.
Proof.
  unfold pulls. rewrite list_elem_of_omap. split.
  - intros ([] & Hin & H); try done. injection H as -> ->. by eexists.
  - intros [a Hin]. by exists (Pulled image policy a).
Qed.

Lemma elem_of_builds container log :
  container ∈ builds log ↔ ∃ spec answer, Built container spec answer ∈ log.
Proof.
  unfold builds. rewrite list_elem_of_omap. split.
  - intros ([] & Hin & H); try done. injection H as ->. by eexists _, _.
  - intros (spec & a & Hin). by exists (Built container spec a).
Qed.

Section spec.
Context {W : Type} {ID : ImageDaemon W} {BF : BuildFiles W} {PC : PathClean} {UC : UrlCrate}.
Context (metadata : W → string → file_answer) (settings : ImageSettings) (containers : gmap string Container).
#[local] Set Default Proof Using "All".

(** The image a container pulls, and when: its override's, or its own. *)
Definition pulled_image (name : string) (c : Container) : option (string * ImagePullPolicy) :=
  match se_image_overrides settings !! name with
  | Some image => Some (image, IfNotPresent)
  | None => (λ image, (image, default IfNotPresent (c_image_pull_policy c))) <$> c_image c
  end.

(** How an image's id came about. *)
Definition pulled_id (log : list request) (image : string) (policy : ImagePullPolicy) (id : string) : Prop :=
  Pulled image policy (Some id) ∈ log ∨ policy = IfNotPresent ∧ LookedUp image (Some (Some id)) ∈ log.
Definition built_id (log : list request) (name id : string) : Prop :=
  (∃ spec, Built name spec (Some id) ∈ log) ∧
  ∀ tag, tag ∈ extra_tags settings name → Tagged id tag true ∈ log.

(** A build that may be asked for. *)
Definition may_build (name : string) (spec : BuildSpec) : Prop :=
  ∃ c directory, containers !! name = Some c ∧ pulled_image name c = None ∧
    c_build_directory c = Some directory ∧ bs_build_directory spec = directory ∧
    bs_tag spec = se_project_name settings +:+ "-" +:+ name ∧ check (bs_tag spec) = Ok tt ∧
    ∀ tag, tag ∈ extra_tags settings name → check tag = Ok tt.

Definition may_pull (log : list request) (image : string) (policy : ImagePullPolicy) : Prop :=
  (∃ name c, containers !! name = Some c ∧ pulled_image name c = Some (image, policy) ∧
     se_image_tags settings !! name = None) ∧
  (policy = IfNotPresent → LookedUp image (Some None) ∈ log).

(** Everything in [log] had a reason. *)
Definition reasoned (log : list request) : Prop :=
  (∀ image policy a, Pulled image policy a ∈ log → may_pull log image policy) ∧
  (∀ name spec a, Built name spec a ∈ log → may_build name spec) ∧
  (∀ id tag ok, Tagged id tag ok ∈ log →
     ∃ name spec, Built name spec (Some id) ∈ log ∧ tag ∈ extra_tags settings name).

(** Nothing but the world changed. *)
Definition same_cells (s s' : engine W) : Prop :=
  en_pulled s' = en_pulled s ∧ en_built s' = en_built s ∧ en_cells s' = en_cells s.

(** ** A pull *)

Definition pull_made (image : string) (policy : ImagePullPolicy) : Io.action (engine W) request image_error string :=
  do! found := match policy with
               | IfNotPresent =>
                   do! found := call (LookedUp image) (λ w, local_image_id w image) in
                   act_lift (ok_or found (LookupFailed image))
               | Always => act_ret None
               end in
  match found with
  | Some id => act_ret id
  | None =>
      do! _ := post (ImagePullStarting image) in
      do! id := call (Pulled image policy) (λ w, pull_image w image) in
      do! id := act_lift (ok_or id (PullFailed image)) in
      do! _ := post (ImagePullCompleted image) in
      act_ret id
  end.

(** What one pull asked for. *)
Definition pull_log (image : string) (policy : ImagePullPolicy) (asked : list request)
    (r : result string image_error) : Prop :=
  builds asked = [] ∧ (pulls asked = [] ∨ pulls asked = [(image, policy)]) ∧
  (∀ id tag ok, Tagged id tag ok ∉ asked) ∧
  (pulls asked ≠ [] → policy = IfNotPresent → LookedUp image (Some None) ∈ asked) ∧
  ∀ id, r = Ok id → pulled_id asked image policy id.

Lemma pull_made_run image policy (s s' : engine W) asked r :
  pull_made image policy s = (s', asked, r) → same_cells s s' ∧ pull_log image policy asked r.
Proof.
  unfold pull_made, act_bind, call, post, act_lift, act_ret, act_ask. intros Hrun.
  destruct policy.
  - destruct (local_image_id (en_world s) image) as [w [[id|]|]]; simpl in Hrun.
    + injection Hrun as <- <- <-. split; [done|]. split_and!; [done|by left|set_solver|done|].
      intros ? [= <-]. right. split; [done|by left].
    + destruct (pull_image w image) as [w2 [id|]]; simpl in Hrun; injection Hrun as <- <- <-;
        (split; [done|]); split_and!; try done; try (by right); try set_solver.
      intros ? [= <-]. left. set_solver.
    + injection Hrun as <- <- <-. split; [done|]. split_and!; [done|by left|set_solver|done|done].
  - simpl in Hrun. destruct (pull_image (en_world s) image) as [w2 [id|]]; simpl in Hrun;
      injection Hrun as <- <- <-; (split; [done|]); split_and!; try done; try (by right); try set_solver.
    intros ? [= <-]. left. set_solver.
Qed.

(** ** A build *)

Lemma apply_tags_run id tags (s s' : engine W) asked r :
  apply_tags id tags s = (s', asked, r) →
  same_cells s s' ∧ pulls asked = [] ∧ builds asked = [] ∧
  (∀ id' tag ok, Tagged id' tag ok ∈ asked → id' = id ∧ tag ∈ tags) ∧
  (r = Ok [] → ∀ tag, tag ∈ tags → Tagged id tag true ∈ asked).
Proof.
  revert s s' asked r. induction tags as [|tag tags IH]; intros s s' asked r; simpl.
  { intros [= <- <- <-]. split_and!; try done; set_solver. }
  unfold call at 1. unfold act_bind at 1. destruct (tag_image (en_world s) id tag) as [w ok].
  unfold act_bind. destruct (apply_tags id tags (set_world w s)) as [[s1 a1] r1] eqn:E.
  apply IH in E as ((Hp & Hb & Hc) & Hpl & Hbl & Ht & Hall).
  destruct r1 as [refused|e]; intros [= <- <- <-].
  - rewrite app_nil_r. split_and!; [done..| |].
    + intros id' t o [[= -> -> ->]|H]%elem_of_cons; [split; [done|by left]|].
      destruct (Ht _ _ _ H). split; [done|by right].
    + intros [= Hok]. destruct ok; [|done]. intros t [->|Hin]%elem_of_cons; [by left|].
      right. apply Hall; [by f_equal|done].
  - split_and!; [done..| |done]. intros id' t o [[= -> -> ->]|H]%elem_of_cons; [split; [done|by left]|].
    destruct (Ht _ _ _ H). split; [done|by right].
Qed.

Lemma tags_checked tags (s s' : engine W) (asked : list request) (r : result () image_error) :
  act_each (λ tag, act_lift (map_err (λ e, TagInvalid e.1 e.2) (check_tag tag))) tags s = (s', asked, r) →
  s' = s ∧ asked = [] ∧ (r = Ok tt → ∀ tag, tag ∈ tags → check tag = Ok tt).
Proof.
  revert s s' asked r. induction tags as [|tag tags IH]; intros s s' asked r; simpl.
  { intros [= <- <- <-]. split_and!; [done..|]. set_solver. }
  unfold act_bind, act_lift. unfold check_tag at 1. destruct (check tag) as [[]|e] eqn:E; simpl.
  - destruct (act_each _ tags s) as [[s1 a1] r1] eqn:E1. intros [= <- <- <-].
    apply IH in E1 as (-> & -> & Hall). split_and!; [done..|]. intros Hr t [->|Hin]%elem_of_cons; [done|].
    by apply Hall.
  - by intros [= <- <- <-].
Qed.

Lemma derive_build_spec_fields m c directory dockerfile tag proxy propagate spec :
  derive_build_spec m c directory dockerfile tag proxy propagate = Ok spec →
  bs_build_directory spec = directory ∧ bs_tag spec = tag.
Proof. unfold derive_build_spec. by intros (bk & _ & [= <-])%result_bind_Ok. Qed.

(** What one build asked for. *)
Definition build_log (name : string) (asked : list request) (r : result string image_error) : Prop :=
  pulls asked = [] ∧ (builds asked = [] ∨ builds asked = [name]) ∧
  (∀ n spec a, Built n spec a ∈ asked → may_build n spec) ∧
  (∀ id tag ok, Tagged id tag ok ∈ asked →
     ∃ spec, Built name spec (Some id) ∈ asked ∧ tag ∈ extra_tags settings name) ∧
  ∀ id, r = Ok id → built_id asked name id.

Lemma build_log_nothing name e : build_log name [] (Err e).
Proof. split_and!; [done|by left|set_solver|set_solver|done]. Qed.

Lemma build_log_posted name event asked r :
  build_log name asked r → build_log name (Posted event :: asked) r.
Proof.
  intros (Hp & Hb & Hm & Ht & Hr). split_and!; [done|done| | |].
  - intros n spec a [H|H]%elem_of_cons; [done|by eapply Hm].
  - intros id tag ok [H|H]%elem_of_cons; [done|]. destruct (Ht _ _ _ H) as (spec & ? & ?).
    exists spec. split; [by right|done].
  - intros id Hid. destruct (Hr id Hid) as [(spec & ?) Hall]. split; [exists spec; by right|].
    intros tag Hin. right. by apply Hall.
Qed.

Lemma build_log_after name spec id a2 (r2 : result (list string) image_error) r :
  may_build name spec → pulls a2 = [] → builds a2 = [] →
  (∀ id' tag ok, Tagged id' tag ok ∈ a2 → id' = id ∧ tag ∈ extra_tags settings name) →
  (r2 = Ok [] → ∀ tag, tag ∈ extra_tags settings name → Tagged id tag true ∈ a2) →
  (∀ id', r = Ok id' → id' = id ∧ r2 = Ok []) →
  build_log name (Built name spec (Some id) :: Posted (ImageBuildCompleted name) :: a2) r.
Proof.
  intros Hm Hpl Hbl Ht Hall Hr. split_and!; [done|right; change (name :: builds a2 = [name]); by rewrite Hbl| | |].
  - intros n sp a [H|[H|H]%elem_of_cons]%elem_of_cons; [by injection H as -> -> ->|done|].
    exfalso. assert (n ∈ builds a2) as Hin by (apply elem_of_builds; eauto). rewrite Hbl in Hin. set_solver.
  - intros i t o [H|[H|H]%elem_of_cons]%elem_of_cons; [done..|]. destruct (Ht _ _ _ H) as [-> ?].
    exists spec. split; [by left|done].
  - intros i Hi. destruct (Hr i Hi) as [-> Hr2]. split; [exists spec; by left|].
    intros t Hin. right. right. by apply Hall.
Qed.

(** From the request on. *)
Lemma build_asked name spec build_id (s s' : engine W) asked r :
  may_build name spec →
  (do! built := call (Built name spec) (λ w, build_image w spec build_id) in
   do! _ := update (λ s, set_in_flight (delete build_id (en_in_flight s)) s) in
   do! image_id := act_lift (ok_or built BuildRefused) in
   do! _ := post (ImageBuildCompleted name) in
   do! refused := apply_tags image_id (extra_tags settings name) in
   do! _ := act_ensure (bool_decide (refused = [])) (TagsRefused refused) in
   act_ret image_id) s = (s', asked, r) →
  same_cells s s' ∧ build_log name asked r.
Proof.
  intros Hm. unfold call at 1. unfold act_bind at 1. destruct (build_image (en_world s) spec build_id) as [w [id|]].
  - unfold act_bind at 1, update. unfold act_bind at 1, act_lift. cbn [ok_or]. unfold act_bind at 1, post, act_ask.
    unfold act_bind at 1. set (s1 := set_in_flight _ _).
    destruct (apply_tags id (extra_tags settings name) s1) as [[s2 a2] r2] eqn:E.
    apply apply_tags_run in E as ((Hp & Hb & Hc) & Hpl & Hbl & Ht & Hall).
    destruct r2 as [refused|e].
    + unfold act_bind, act_ensure, act_lift, act_ret.
      case_bool_decide as Hr; cbn [ensure]; intros [= <- <- <-]; (split; [done|]);
        rewrite ?app_nil_r; cbn [app]; (eapply build_log_after; [done..|]); [|done].
      intros ? [= <-]. by rewrite Hr.
    + intros [= <- <- <-]. split; [done|]. by eapply build_log_after.
  - intros [= <- <- <-]. split; [done|]. split_and!; [done|by right| |set_solver|done].
    intros n sp a [H|[]%not_elem_of_nil]%elem_of_cons. by injection H as -> -> ->.
Qed.

Lemma build_run name c directory (s s' : engine W) asked r :
  containers !! name = Some c → pulled_image name c = None → c_build_directory c = Some directory →
  build metadata settings name c directory s = (s', asked, r) →
  same_cells s s' ∧ build_log name asked r.
Proof.
  intros Hc Hp Hd. unfold build. set (tag := se_project_name settings +:+ "-" +:+ name).
  intros [(e & Hrun & ->)|(s1 & a1 & [] & a2 & Hrun & Hrest & ->)]%act_bind_run.
  { unfold act_lift in Hrun. injection Hrun as <- <- _. split; [done|apply build_log_nothing]. }
  apply act_lift_Ok in Hrun as (-> & -> & Htag).
  apply act_bind_run in Hrest as [(e & Hrun & ->)|(s2 & a3 & [] & a4 & Hrun & Hrest & ->)];
    apply tags_checked in Hrun as (-> & -> & Htags); [by split; [|apply build_log_nothing]|].
  apply act_bind_run in Hrest as [(e & [=] & _)|(s2 & a5 & w & a6 & [= <- <- <-] & Hrest & ->)].
  apply act_bind_run in Hrest as [(e & Hrun & ->)|(s2 & a7 & dockerfile & a8 & Hrun & Hrest & ->)].
  { unfold act_lift in Hrun. injection Hrun as <- <- _. split; [done|apply build_log_nothing]. }
  apply act_lift_Ok in Hrun as (-> & -> & _).
  apply act_bind_run in Hrest as [(e & Hrun & ->)|(s2 & a9 & spec & a10 & Hrun & Hrest & ->)].
  { unfold act_lift in Hrun. injection Hrun as <- <- _. split; [done|apply build_log_nothing]. }
  apply act_lift_Ok in Hrun as (-> & -> & Hspec).
  destruct (derive_build_spec _ _ _ _ _ _ _) as [spec'|e] eqn:Es; [|done]. injection Hspec as ->.
  apply derive_build_spec_fields in Es as [Hbd Hbt].
  assert (may_build name spec) as Hm.
  { exists c, directory. rewrite Hbt. split_and!; [done..| |by apply Htags].
    by destruct (check tag) as [[]|]. }
  apply act_bind_run in Hrest as [(e & [=] & _)|(s2 & a11 & [] & a12 & [= <- <-] & Hrest & ->)].
  unfold act_bind at 1 in Hrest. destruct (new_build_id (en_world s)) as [w' build_id].
  unfold act_bind at 1, update at 1 in Hrest.
  match type of Hrest with context [act_bind ?m ?k ?s1] => destruct (act_bind m k s1) as [[s4 a13] r4] eqn:E end.
  apply build_asked in E as [Hs Hl]; [|done]. injection Hrest as <- <- <-. split; [exact Hs|].
  by apply build_log_posted.
Qed.

(** ** The memo cells *)

(** The container's image is [id], in the cell it is resolved by. *)
Definition resolved (s : engine W) (name id : string) : Prop :=
  ∃ c, containers !! name = Some c ∧
    match pulled_image name c with
    | Some source => en_pulled s !! source = Some (Ok id)
    | None => en_built s !! name = Some (Ok id)
    end.

Record inv (s : engine W) (log : list request) : Prop := {
  inv_pulls : NoDup (pulls log);
  inv_pulled : ∀ source, source ∈ pulls log → is_Some (en_pulled s !! source);
  inv_builds : NoDup (builds log);
  inv_built : ∀ name, name ∈ builds log → is_Some (en_built s !! name);
  inv_pulled_ok : ∀ image policy id, en_pulled s !! (image, policy) = Some (Ok id) → pulled_id log image policy id;
  inv_built_ok : ∀ name id, en_built s !! name = Some (Ok id) → built_id log name id;
  inv_cells : ∀ name id, en_cells s !! name = Some (Ok id) → resolved s name id;
  inv_reasoned : reasoned log;
}.

(** A cell's value never changes. *)
Definition grows (s s' : engine W) : Prop := en_pulled s ⊆ en_pulled s' ∧ en_built s ⊆ en_built s'.

Lemma grows_refl s : grows s s.
Proof. by split. Qed.
Lemma grows_trans s1 s2 s3 : grows s1 s2 → grows s2 s3 → grows s1 s3.
Proof. intros [? ?] [? ?]. split; by etrans. Qed.

Lemma resolved_grows s s' name id : grows s s' → resolved s name id → resolved s' name id.
Proof.
  intros [Hp Hb] (c & Hc & Hr). exists c. split; [done|].
  destruct (pulled_image name c); by eapply lookup_weaken.
Qed.

Lemma inv_same s s' log : same_cells s s' → inv s log → inv s' log.
Proof.
  intros (Hp & Hb & Hc) [H1 H2 H3 H4 H5 H6 H7 H8].
  constructor; rewrite ?Hp, ?Hb, ?Hc; try done. intros name id Hn. apply (resolved_grows s).
  - split; by rewrite ?Hp, ?Hb.
  - by apply H7.
Qed.

Lemma pulled_id_app log log' image policy id :
  pulled_id log image policy id ∨ pulled_id log' image policy id → pulled_id (log ++ log') image policy id.
Proof. unfold pulled_id. rewrite !elem_of_app. tauto. Qed.

Lemma built_id_app log log' name id :
  built_id log name id ∨ built_id log' name id → built_id (log ++ log') name id.
Proof.
  intros [[[spec H] Ht]|[[spec H] Ht]]; (split; [exists spec; apply elem_of_app; auto|]);
    intros tag Hin; apply elem_of_app; auto.
Qed.

Lemma reasoned_app log asked :
  reasoned log →
  (∀ image policy a, Pulled image policy a ∈ asked → may_pull asked image policy) →
  (∀ name spec a, Built name spec a ∈ asked → may_build name spec) →
  (∀ id tag ok, Tagged id tag ok ∈ asked →
     ∃ name spec, Built name spec (Some id) ∈ asked ∧ tag ∈ extra_tags settings name) →
  reasoned (log ++ asked).
Proof.
  intros (Hp & Hb & Ht) Hp' Hb' Ht'. split_and!.
  - intros image policy a [H|H]%elem_of_app; [apply Hp in H as [? Hl]|apply Hp' in H as [? Hl]];
      (split; [done|]); intros Hpol; apply elem_of_app; auto.
  - intros name spec a [H|H]%elem_of_app; eauto.
  - intros id tag ok [H|H]%elem_of_app; [destruct (Ht _ _ _ H) as (n & sp & ? & ?)|destruct (Ht' _ _ _ H) as (n & sp & ? & ?)];
      exists n, sp; rewrite elem_of_app; auto.
Qed.

Lemma NoDup_app_new {A} (l k : list A) x : NoDup l → (k = [] ∨ k = [x] ∧ x ∉ l) → NoDup (l ++ k).
Proof.
  intros Hl [->|[-> Hx]]; [by rewrite app_nil_r|]. apply NoDup_app. split_and!; [done|set_solver|].
  apply NoDup_singleton.
Qed.

Lemma pull_step name c image policy s s' log asked r :
  inv s log → containers !! name = Some c → pulled_image name c = Some (image, policy) →
  se_image_tags settings !! name = None →
  resolve_pulled_image image policy s = (s', asked, r) →
  inv s' (log ++ asked) ∧ grows s s' ∧ en_cells s' = en_cells s ∧
  ∀ id, r = Ok id → en_pulled s' !! (image, policy) = Some (Ok id).
Proof.
  intros Hi Hc Hp Ht. unfold resolve_pulled_image, get_or_init. fold (pull_made image policy).
  destruct (en_pulled s !! (image, policy)) as [r0|] eqn:El.
  { intros [= <- <- <-]. rewrite app_nil_r. split_and!; [done|apply grows_refl|done|]. by intros id ->. }
  destruct (pull_made image policy s) as [[s1 a1] r1] eqn:E. intros [= <- <- <-].
  apply pull_made_run in E as [(Ep & Eb & Ec) (Hbl & Hpl & Htg & Hlk & Hok)].
  destruct Hi as [H1 H2 H3 H4 H5 H6 H7 H8].
  assert (grows s (set_pulled (<[(image, policy) := r1]> (en_pulled s1)) s1)) as Hgrow.
  { split; simpl; rewrite ?Ep, ?Eb; [by apply insert_subseteq|done]. }
  assert ((image, policy) ∉ pulls log) as Hnew by (intros Hin%H2; rewrite El in Hin; by destruct Hin).
  split_and!; [|done|done|intros id ->; simpl; by rewrite lookup_insert_eq].
  constructor; simpl; rewrite ?pulls_app, ?builds_app, ?Hbl, ?app_nil_r, ?Ep, ?Eb, ?Ec; try done.
  - eapply NoDup_app_new; [done|]. destruct Hpl as [->| ->]; [by left|by right].
  - intros source [Hin|Hin]%elem_of_app.
    + destruct (decide (source = (image, policy))) as [->|Hne]; [rewrite lookup_insert_eq; by eexists|].
      rewrite lookup_insert_ne by done. by apply H2.
    + destruct Hpl as [Hpl|Hpl]; rewrite Hpl in Hin; [set_solver|]. apply list_elem_of_singleton in Hin as ->.
      rewrite lookup_insert_eq. by eexists.
  - intros i p id. destruct (decide ((i, p) = (image, policy))) as [[= -> ->]|Hne].
    + rewrite lookup_insert_eq. intros [= ->]. apply pulled_id_app. right. by apply Hok.
    + rewrite lookup_insert_ne by done. intros Hl. apply pulled_id_app. left. by apply H5.
  - intros n id Hn. apply built_id_app. left. by apply H6.
  - intros n id Hn. apply (resolved_grows s); [by rewrite ?Ep, ?Eb in Hgrow|by apply H7].
  - apply reasoned_app; [done|..].
    + intros i p a Hin. assert ((i, p) ∈ pulls a1) as Hin2 by (apply elem_of_pulls; by eexists).
      destruct Hpl as [Hpl|Hpl]; rewrite Hpl in Hin2; [set_solver|]. apply list_elem_of_singleton in Hin2 as [= -> ->].
      split; [by exists name, c|]. apply Hlk. by rewrite Hpl.
    + intros n spec a Hin. assert (n ∈ builds a1) as Hin2 by (apply elem_of_builds; eauto).
      rewrite Hbl in Hin2. set_solver.
    + intros id tag ok Hin. by apply Htg in Hin.
Qed.

Lemma build_step name c directory s s' log asked r :
  inv s log → containers !! name = Some c → pulled_image name c = None → c_build_directory c = Some directory →
  get_or_init (λ s, en_built s !! name) (λ r s, set_built (<[name := r]> (en_built s)) s)
    (map_act_err (NotBuilt name) (build metadata settings name c directory)) s = (s', asked, r) →
  inv s' (log ++ asked) ∧ grows s s' ∧ en_cells s' = en_cells s ∧
  ∀ id, r = Ok id → en_built s' !! name = Some (Ok id).
Proof.
  intros Hi Hc Hp Hd. unfold get_or_init, map_act_err.
  destruct (en_built s !! name) as [r0|] eqn:El.
  { intros [= <- <- <-]. rewrite app_nil_r. split_and!; [done|apply grows_refl|done|]. by intros id ->. }
  destruct (build metadata settings name c directory s) as [[s1 a1] r1] eqn:E. intros [= <- <- <-].
  apply build_run in E as [(Ep & Eb & Ec) (Hpl & Hbl & Hm & Htg & Hok)]; [|done..].
  destruct Hi as [H1 H2 H3 H4 H5 H6 H7 H8].
  assert (grows s (set_built (<[name := map_err (NotBuilt name) r1]> (en_built s1)) s1)) as Hgrow.
  { split; simpl; rewrite ?Ep, ?Eb; [done|by apply insert_subseteq]. }
  assert (name ∉ builds log) as Hnew by (intros Hin%H4; rewrite El in Hin; by destruct Hin).
  split_and!; [|done|done|intros id ->; simpl; by rewrite lookup_insert_eq].
  constructor; simpl; rewrite ?pulls_app, ?builds_app, ?Hpl, ?app_nil_r, ?Ep, ?Eb, ?Ec; try done.
  - eapply NoDup_app_new; [done|]. destruct Hbl as [->| ->]; [by left|by right].
  - intros n [Hin|Hin]%elem_of_app.
    + destruct (decide (n = name)) as [->|Hne]; [rewrite lookup_insert_eq; by eexists|].
      rewrite lookup_insert_ne by done. by apply H4.
    + destruct Hbl as [Hbl|Hbl]; rewrite Hbl in Hin; [set_solver|]. apply list_elem_of_singleton in Hin as ->.
      rewrite lookup_insert_eq. by eexists.
  - intros i p id Hl. apply pulled_id_app. left. by apply H5.
  - intros n id. destruct (decide (n = name)) as [->|Hne].
    + rewrite lookup_insert_eq. intros [= Hr]. apply built_id_app. right. apply Hok. by destruct r1; [injection Hr as ->|].
    + rewrite lookup_insert_ne by done. intros Hl. apply built_id_app. left. by apply H6.
  - intros n id Hn. apply (resolved_grows s); [by rewrite ?Ep, ?Eb in Hgrow|by apply H7].
  - apply reasoned_app; [done|..].
    + intros i p a Hin. assert ((i, p) ∈ pulls a1) as Hin2 by (apply elem_of_pulls; by eexists).
      rewrite Hpl in Hin2. set_solver.
    + intros n spec a Hin. by eapply Hm.
    + intros id tag ok Hin. destruct (Htg _ _ _ Hin) as (spec & ? & ?). by exists name, spec.
Qed.

Lemma inv_posted s log event : inv s log → inv s (log ++ [Posted event]).
Proof.
  intros [H1 H2 H3 H4 H5 H6 H7 H8].
  constructor; rewrite ?pulls_app, ?builds_app, ?app_nil_r; try done.
  - intros i p id Hl. apply pulled_id_app. left. by apply H5.
  - intros n id Hl. apply built_id_app. left. by apply H6.
  - apply reasoned_app; [done|..]; intros; set_solver.
Qed.

Lemma resolve_step name c s s' log asked r :
  inv s log → containers !! name = Some c →
  resolve_image metadata settings name c s = (s', asked, r) →
  inv s' (log ++ asked) ∧ grows s s' ∧ en_cells s' = en_cells s ∧ ∀ id, r = Ok id → resolved s' name id.
Proof.
  intros Hi Hc. unfold resolve_image. unfold act_bind at 1, update. set (s0 := set_used _ s).
  assert (same_cells s s0) as Hsame by done. apply (inv_same _ _ _ Hsame) in Hi.
  assert (∀ (m : Io.action (engine W) request image_error string) s1 a1 r1,
    (let '(w, more, b) := m s0 in (w, [] ++ more, b)) = (s1, a1, r1) → m s0 = (s1, a1, r1)) as Hstart.
  { intros m s1 a1 r1. destruct (m s0) as [[? ?] ?]. by intros [= <- <- <-]. }
  intros Hrun%Hstart. clear Hstart.
  assert (∀ image policy, pulled_image name c = Some (image, policy) →
    (do! _ := act_lift (reject_tagged_pulled_image settings name) in resolve_pulled_image image policy) s0 =
      (s', asked, r) →
    inv s' (log ++ asked) ∧ grows s s' ∧ en_cells s' = en_cells s ∧ ∀ id, r = Ok id → resolved s' name id) as Hpull.
  { intros image policy Hp. intros [(e & Hl & ->)|(s1 & a1 & [] & a2 & Hl & Hpull & ->)]%act_bind_run.
    - injection Hl as <- <- _. rewrite app_nil_r. by split_and!; [|by split|..].
    - apply act_lift_Ok in Hl as (-> & -> & Ht%ensure_Ok). apply bool_decide_eq_true in Ht.
      eapply pull_step in Hpull as (Hi' & Hg & Hcells & Hr); [|done..].
      split_and!; [done|exact Hg|done|]. intros id Hid. exists c. rewrite Hp. split; [done|by apply Hr]. }
  unfold pulled_image in Hpull. destruct (se_image_overrides settings !! name) as [image|] eqn:Eo.
  { by apply (Hpull image IfNotPresent). }
  destruct (c_image c) as [image|] eqn:Ei; [by apply (Hpull _ _ eq_refl)|]. clear Hpull.
  destruct (c_build_directory c) as [directory|] eqn:Ed.
  - assert (pulled_image name c = None) as Hp by (unfold pulled_image; by rewrite Eo, Ei).
    eapply build_step in Hrun as (Hi' & Hg & Hcells & Hr); [|done..].
    split_and!; [done|exact Hg|done|]. intros id Hid. exists c. rewrite Hp. split; [done|by apply Hr].
  - injection Hrun as <- <- <-. rewrite app_nil_r. by split_and!; [|by split|..].
Qed.

Lemma ensure_step name s s' log asked r :
  inv s log → ensure_image_resolved metadata settings name containers s = (s', asked, r) →
  inv s' (log ++ asked) ∧ grows s s' ∧ ∀ id, r = Ok id → resolved s' name id.
Proof.
  intros Hi. unfold ensure_image_resolved, get_or_init. destruct (en_cells s !! name) as [r0|] eqn:El.
  { intros [= <- <- <-]. rewrite app_nil_r. split_and!; [done|apply grows_refl|]. intros id ->. by apply Hi. }
  destruct (act_bind _ _ s) as [[s1 a1] r1] eqn:E. intros [= <- <- <-].
  assert (inv s1 (log ++ a1) ∧ grows s s1 ∧ ∀ id, r1 = Ok id → resolved s1 name id) as (Hi1 & Hg & Hr).
  { apply act_bind_run in E as [(e & Hl & ->)|(s2 & a2 & c & a3 & Hl & E & ->)].
    { injection Hl as <- <- _. rewrite app_nil_r. by split_and!; [|apply grows_refl|]. }
    apply act_lift_Ok in Hl as (-> & -> & Hc).
    destruct (containers !! name) as [c'|] eqn:Ec; [|done]. injection Hc as ->.
    unfold map_act_err in E. destruct (resolve_image metadata settings name c s) as [[s2 a4] r2] eqn:E2.
    pose proof E2 as H2. eapply resolve_step in H2 as (Hi2 & Hg2 & Hcells & Hr2); [|done..].
    apply act_bind_run in E as [(e & Hl & ->)|(s3 & a5 & id & a6 & Hl & E & ->)]; rewrite E2 in Hl;
      injection Hl as <- <- Hl.
    { by split_and!. }
    destruct r2 as [id'|]; [|done]. injection Hl as ->. rewrite !app_nil_l.
    assert (∃ extra, a6 = extra ∧ r1 = Ok id ∧ s1 = s2 ∧ inv s2 (log ++ a4 ++ extra)) as (extra & -> & -> & -> & Hx).
    { destruct (c_reports_readiness_for c); injection E as <- <- <-.
      - exists []. rewrite app_nil_r. by split_and!.
      - eexists. split_and!; [done..|]. rewrite app_assoc. by apply inv_posted. }
    split_and!; [done..|]. intros i [= <-]. by apply Hr2. }
  assert (grows s1 (set_cells (<[name := r1]> (en_cells s1)) s1)) as Hg' by done.
  split_and!; [|by eapply grows_trans|intros id Hid; by apply (resolved_grows s1); [|apply Hr]].
  destruct Hi1 as [H1 H2 H3 H4 H5 H6 H7 H8]. constructor; simpl; try done.
  intros n id. destruct (decide (n = name)) as [->|Hne].
  - rewrite lookup_insert_eq. intros [= Hid]. by apply (resolved_grows s1); [|apply Hr].
  - rewrite lookup_insert_ne by done. intros Hn. by apply (resolved_grows s1); [|apply H7].
Qed.

(** The images containers ask for, in any order, task after task: a task has cells
    of its own. *)
Fixpoint run_calls (calls : list (option string)) (s : engine W)
    : engine W * list request * list (string * result string failed_image) :=
  match calls with
  | [] => (s, [], [])
  | None :: calls => run_calls calls (set_cells ∅ s)
  | Some name :: calls =>
      let '(s, asked, r) := ensure_image_resolved metadata settings name containers s in
      let '(s, more, rs) := run_calls calls s in
      (s, asked ++ more, (name, r) :: rs)
  end.

Lemma run_calls_inv calls s s' log asked results :
  inv s log → run_calls calls s = (s', asked, results) →
  inv s' (log ++ asked) ∧ grows s s' ∧ ∀ name id, (name, Ok id) ∈ results → resolved s' name id.
Proof.
  revert s log asked results. induction calls as [|[name|] calls IH]; intros s log asked results Hi; simpl.
  - intros [= <- <- <-]. rewrite app_nil_r. split_and!; [done|apply grows_refl|set_solver].
  - destruct (ensure_image_resolved metadata settings name containers s) as [[s1 a1] r1] eqn:E.
    destruct (run_calls calls s1) as [[s2 a2] rs] eqn:E2. intros [= <- <- <-].
    eapply ensure_step in E as (Hi1 & Hg1 & Hr1); [|done].
    eapply IH in E2 as (Hi2 & Hg2 & Hr2); [|done]. rewrite app_assoc.
    split_and!; [done|by eapply grows_trans|]. intros n id [H|H]%elem_of_cons; [|by apply Hr2].
    injection H as -> <-. by eapply resolved_grows, Hr1.
  - intros H. eapply IH in H as (? & ? & ?); [done|]. destruct Hi as [H1 H2 H3 H4 H5 H6 H7 H8].
    constructor; simpl; try done.
Qed.

Definition fresh (w : W) : engine W := mk_engine w ∅ ∅ ∅ ∅ ∅.

End spec.

(** ** An invocation *)

Module Once.

(** A daemon that counts what it is asked; every file is there. *)
#[local] Instance daemon : ImageDaemon nat := {|
  local_image_id n _ := (n, Some None);
  pull_image n image := (S n, Some ("pulled " +:+ image));
  new_build_id n := (n, "b");
  build_image n spec _ := (S n, Some ("built " +:+ bs_tag spec));
  tag_image n _ _ := (n, true) |}.
#[local] Instance files : BuildFiles nat := {|
  file_exists _ _ := true; file_is_dir _ _ := true; file_is_file _ _ := true; file_is_link _ _ := false |}.
#[local] Existing Instance lexical_path_clean.
#[local] Existing Instance example_url.

Definition container (image build_directory : option string) : Container :=
  mk_container None image None build_directory None None None None None None
    None None None None None None None None None None None None None None None None None None None None
    None None None None None None None None None None None None None None None.

Definition containers : gmap string Container :=
  {[ "app" := container None (Some "/p/app"); "db" := container (Some "postgres") None;
     "replica" := container (Some "postgres") None ]}.

Definition settings : ImageSettings :=
  mk_image_settings "p" ∅ {[ "app" := {["me/app:1"]} ]} false (λ _, None).

Definition calls : list (option string) := [Some "app"; Some "db"; Some "replica"; None; Some "replica"; Some "app"].

Definition ran := run_calls (λ _ _, FileMissing) settings containers calls (fresh 0).

End Once.
