(* ===== verification/ContainerRequestSpec.v ===== *)
(** * ContainerRequestSpec: what a container is created with

    The request the daemon gets for a container, read off the configuration it
    was derived from. *)

From S2P Require Import Prelude Text Collections Values Config Passwd Labels Proxy CommandLine.
From S2P Require Import ContainerSpec Dockerignore Paths HostMounts ContainerRequest.
From stdpp Require Import options.

(** ** Maps laid over each other *)

Definition lookup_in (m : option (gmap string string)) (k : string) : option string := m ≫= lookup k.

Lemma extend_lookup m e k :
  extend m e !! k = or_else (lookup_in e k) (m !! k).
Proof.
  unfold extend, lookup_in. rewrite lookup_union. destruct e as [e|]; simpl.
  - destruct (e !! k); simpl; [by rewrite union_Some_l|by rewrite (left_id_L None (∪))].
  - by rewrite lookup_empty, (left_id_L None (∪)).
Qed.

Lemma default_lookup (m : option (gmap string string)) k : default ∅ m !! k = lookup_in m k.
Proof. destruct m; simpl; [done|apply lookup_empty]. Qed.

Lemma or_else_None {A} (a : option A) : or_else a None = a.
Proof. by destruct a. Qed.

(** The overlay's variable, or the container's, or a proxy's, or [TERM]. *)
Lemma merged_environment_lookup t p c o k :
  lookup_in (merged_environment t p c o) k =
    or_else (lookup_in o k) (or_else (lookup_in c k) (or_else (lookup_in p k) (lookup_in t k))).
Proof.
  assert (lookup_in (Some (extend (extend (extend (default ∅ t) p) c) o)) k =
    or_else (lookup_in o k) (or_else (lookup_in c k) (or_else (lookup_in p k) (lookup_in t k)))) as Hk.
  { cbn [lookup_in mbind option_bind]. by rewrite !extend_lookup, default_lookup. }
  unfold merged_environment. destruct t, p, c, o; exact Hk || done.
Qed.

Lemma or_insert_lookup key value m k :
  or_insert key value m !! k = if decide (k = key) then Some (default value (m !! key)) else m !! k.
Proof.
  unfold or_insert. destruct (m !! key) eqn:E; case_decide; subst; try done.
  - by rewrite lookup_insert_eq.
  - by rewrite lookup_insert_ne.
Qed.

(** ** Lists without repetitions *)

Lemma foldl_push_new {A} `{EqDecision A} (l acc : list A) :
  (∀ x, x ∈ foldl push_new acc l ↔ x ∈ acc ∨ x ∈ l) ∧ (NoDup acc → NoDup (foldl push_new acc l)).
Proof.
  revert acc. induction l as [|y l IH]; intros acc; simpl; [split; [set_solver|done]|].
  destruct (IH (push_new acc y)) as [Hel Hnd]. unfold push_new in *. case_decide as Hy.
  - split; [|done]. intros x. rewrite Hel, elem_of_cons. naive_solver.
  - split.
    + intros x. rewrite Hel, elem_of_app, list_elem_of_singleton, elem_of_cons. tauto.
    + intros Hacc. apply Hnd, NoDup_app. split; [done|]. split; [|by apply NoDup_singleton].
      intros x Hx ->%list_elem_of_singleton. done.
Qed.

Lemma push_new_elem {A} `{EqDecision A} (acc : list A) y x : x ∈ push_new acc y ↔ x ∈ acc ∨ x = y.
Proof. destruct (foldl_push_new [y] acc) as [H _]. simpl in H. rewrite H. set_solver. Qed.

Lemma push_new_NoDup {A} `{EqDecision A} (acc : list A) y : NoDup acc → NoDup (push_new acc y).
Proof. apply (foldl_push_new [y] acc). Qed.

(** ** Ports *)

Definition bindings_of (m : PortMap) (key : string) : list PortBinding := default [] (default None (m !! key)).

Lemma add_port_spec exposed bindings t exposed' bindings' :
  add_port (exposed, bindings) t = (exposed', bindings') →
  (∀ key, key ∈ exposed' ↔ key ∈ exposed ∨ key = port_key t.1.2 t.2) ∧
  (NoDup exposed → NoDup exposed') ∧
  (∀ key b, b ∈ bindings_of bindings' key ↔ b ∈ bindings_of bindings key ∨
     (key = port_key t.1.2 t.2 ∧ b = port_binding t.1.1)) ∧
  ((∀ key, NoDup (bindings_of bindings key)) → ∀ key, NoDup (bindings_of bindings' key)).
Proof.
  destruct t as [[local container] protocol]. simpl. intros [= <- <-].
  fold (bindings_of bindings (port_key container protocol)).
  set (key0 := port_key container protocol). clearbody key0.
  split; [intros key; apply push_new_elem|]. split; [apply push_new_NoDup|].
  assert (∀ key, bindings_of (<[key0 := Some (push_new (bindings_of bindings key0) (port_binding local))]> bindings) key =
    if decide (key = key0) then push_new (bindings_of bindings key0) (port_binding local)
    else bindings_of bindings key) as Hb.
  { intros key. unfold bindings_of at 1. case_decide as Hk.
    - subst key. by rewrite lookup_insert_eq.
    - by rewrite lookup_insert_ne. }
  split.
  - intros key b. rewrite Hb. case_decide as Hk; [subst key; rewrite push_new_elem|]; naive_solver.
  - intros Hnd key. rewrite Hb. case_decide; [apply push_new_NoDup|]; apply Hnd.
Qed.

Lemma add_ports_spec ports exposed bindings exposed' bindings' :
  foldl add_port (exposed, bindings) ports = (exposed', bindings') →
  (∀ key, key ∈ exposed' ↔ key ∈ exposed ∨ ∃ t, t ∈ ports ∧ key = port_key t.1.2 t.2) ∧
  (NoDup exposed → NoDup exposed') ∧
  (∀ key b, b ∈ bindings_of bindings' key ↔ b ∈ bindings_of bindings key ∨
     ∃ t, t ∈ ports ∧ key = port_key t.1.2 t.2 ∧ b = port_binding t.1.1) ∧
  ((∀ key, NoDup (bindings_of bindings key)) → ∀ key, NoDup (bindings_of bindings' key)).
Proof.
  revert exposed bindings. induction ports as [|t ports IH]; intros exposed bindings; cbn [foldl].
  { intros [= <- <-]. split; [set_solver|]. split; [done|]. split; [set_solver|done]. }
  destruct (add_port (exposed, bindings) t) as [e1 b1] eqn:E. intros Hf.
  destruct (add_port_spec _ _ _ _ _ E) as (Hkey & Hnd & Hb & Hbnd).
  destruct (IH _ _ Hf) as (Hkey' & Hnd' & Hb' & Hbnd').
  split; [|split; [auto|split; [|auto]]].
  - intros key. rewrite Hkey', Hkey. setoid_rewrite elem_of_cons. split.
    + intros [[?| ->]|(u & ? & ?)]; [by left|right; by exists t; auto|right; exists u; auto].
    + intros [?|(u & [->|?] & ?)]; [by left; left|left; by right|right; by exists u].
  - intros key b. rewrite Hb', Hb. setoid_rewrite elem_of_cons. split.
    + intros [[?|[-> ->]]|(u & ? & ?)]; [by left|right; by exists t; auto|right; exists u; auto].
    + intros [?|(u & [->|?] & ?)]; [by left; left|left; by right|right; by exists u].
Qed.

Lemma build_port_config_spec ports :
  let exposed := default [] (fst <$> build_port_config ports) in
  let bindings := default ∅ (snd <$> build_port_config ports) in
  NoDup exposed ∧ (∀ key, NoDup (bindings_of bindings key)) ∧
  (∀ key, key ∈ exposed ↔ ∃ t, t ∈ default [] ports ∧ key = port_key t.1.2 t.2) ∧
  (∀ key b, b ∈ bindings_of bindings key ↔
     ∃ t, t ∈ default [] ports ∧ key = port_key t.1.2 t.2 ∧ b = port_binding t.1.1).
Proof.
  assert (∀ key, bindings_of ∅ key = []) as Hempty by (intros key; unfold bindings_of; by rewrite lookup_empty).
  assert (build_port_config ports = None → default [] ports = []) as Hnone.
  { by destruct ports as [[|t l]|]. }
  destruct (build_port_config ports) as [[exposed bindings]|] eqn:E; cbn.
  - assert (foldl add_port ([], ∅) (default [] ports) = (exposed, bindings)) as Hf.
    { destruct ports as [[|t l]|]; [done| |done]. by injection E. }
    destruct (add_ports_spec _ _ _ _ _ Hf) as (Hkey & Hnd & Hb & Hbnd).
    split; [apply Hnd; constructor|]. split; [apply Hbnd; intros key; rewrite Hempty; constructor|].
    split; [intros key; rewrite Hkey; set_solver|].
    intros key b. rewrite Hb, Hempty. set_solver.
  - rewrite (Hnone eq_refl). split; [constructor|]. split; [intros key; rewrite Hempty; constructor|].
    split; [set_solver|]. intros key b. rewrite Hempty. set_solver.
Qed.

(** ** Variables and hosts *)

Lemma build_env_elem environment e :
  e ∈ default [] (build_env environment) ↔ ∃ k v, lookup_in environment k = Some v ∧ e = env_entry (k, v).
Proof.
  destruct environment as [m|]; cbn.
  - rewrite elem_of_sort_strings, list_elem_of_fmap. split.
    + intros ([k v] & -> & Hin%elem_of_map_to_list). by exists k, v.
    + intros (k & v & Hkv & ->). exists (k, v). split; [done|by apply elem_of_map_to_list].
  - split; [by intros ?%not_elem_of_nil|by intros (? & ? & ? & _)].
Qed.

Lemma build_extra_hosts_elem hosts gateway e :
  e ∈ default [] (build_extra_hosts hosts gateway) ↔
    ∃ name address, e = host_entry (name, address) ∧
      or_else (lookup_in hosts name)
        (g ← gateway; if decide (name = hg_name g) then Some (hg_address g) else None) = Some address.
Proof.
  assert (∀ m : gmap string string, e ∈ sort_strings (host_entry <$> map_to_list m) ↔
    ∃ name address, e = host_entry (name, address) ∧ m !! name = Some address) as Hm.
  { intros m. rewrite elem_of_sort_strings, list_elem_of_fmap. split.
    - intros ([k v] & -> & Hin%elem_of_map_to_list). by exists k, v.
    - intros (k & v & -> & Hkv). exists (k, v). split; [done|by apply elem_of_map_to_list]. }
  assert (e ∈ sort_strings (host_entry <$> map_to_list (extend
      match gateway with Some g => {[hg_name g := hg_address g]} | None => ∅ end hosts)) ↔
    ∃ name address, e = host_entry (name, address) ∧
      or_else (lookup_in hosts name)
        (g ← gateway; if decide (name = hg_name g) then Some (hg_address g) else None) = Some address) as Hext.
  { rewrite Hm. setoid_rewrite extend_lookup. destruct gateway as [g|]; cbn [mbind option_bind].
    - setoid_rewrite lookup_singleton.
      split; intros (name & address & He & Hl); exists name, address; (split; [done|]); rewrite <-Hl;
        destruct (decide (name = hg_name g)), (decide (hg_name g = name)); congruence.
    - by setoid_rewrite lookup_empty. }
  unfold build_extra_hosts. destruct hosts as [h|], gateway as [g|]; exact Hext.
Qed.

(** ** The request *)

Section request.
Context (iter_capabilities : gset Capability → list Capability).

Definition overlay_environment (i : ContainerSpecInputs) : option (gmap string string) :=
  (overrides (in_overlay i)).1.2.
Definition overlay_ports (i : ContainerSpecInputs) : option (list PortMapping) := (overrides (in_overlay i)).2.
Definition overlay_command (i : ContainerSpecInputs) : option string := (overrides (in_overlay i)).1.1.1.1.

(** What a variable of the container is: the overlay's over the container's
    over a proxy's over [TERM], and an identity's home where nothing says [HOME]. *)
Definition expected_variable (i : ContainerSpecInputs) (k : string) : option string :=
  let c := in_container_config i in
  let stated := or_else (lookup_in (overlay_environment i) k)
                  (or_else (lookup_in (c_environment c) k)
                    (or_else (lookup_in (pe_variables <$> in_proxy i) k) (lookup_in (in_term_var i) k))) in
  match c_identity c with
  | Some identity => if decide (k = "HOME") then Some (default (id_home identity) stated) else stated
  | None => stated
  end.

(** The user a container is created to run as, when it is the host's. *)
Definition adopted_user (i : ContainerSpecInputs) : option CurrentUser :=
  or_else (um_user <$> in_user_mapping i)
    (match c_identity (in_container_config i) with Some _ => in_identity_host_user i | None => None end).

(** A port the container publishes. *)
Definition published (i : ContainerSpecInputs) (t : port_triple) : Prop :=
  in_publish_ports i = true ∧
  ∃ m, m ∈ default [] (c_ports (in_container_config i)) ++ default [] (overlay_ports i) ∧
    t ∈ port_mapping_expand m.

Lemma derive_environment i k :
  lookup_in (sh_environment (cs_shared (derive_spec iter_capabilities i))) k = expected_variable i k.
Proof.
  unfold derive_spec, expected_variable, overlay_environment.
  destruct (overrides (in_overlay i)) as [[[[cmd entry] wd] env] ports]. cbn [cs_shared sh_environment fst snd].
  destruct (c_identity (in_container_config i)) as [identity|]; cbn [fmap option_fmap option_map ip_home];
    [|by rewrite merged_environment_lookup].
  cbn [lookup_in mbind option_bind]. rewrite or_insert_lookup, !default_lookup, !merged_environment_lookup.
  case_decide as Hk; [by subst k|done].
Qed.

Lemma derive_ports i t :
  t ∈ default [] (no_ports (sh_network_options (cs_shared (derive_spec iter_capabilities i)))) ↔ published i t.
Proof.
  unfold derive_spec, published, overlay_ports.
  destruct (overrides (in_overlay i)) as [[[[cmd entry] wd] env] ports]. cbn [cs_shared sh_network_options no_ports fst snd].
  assert (t ∈ merged_ports (c_ports (in_container_config i)) ports ↔
    ∃ m, m ∈ default [] (c_ports (in_container_config i)) ++ default [] ports ∧ t ∈ port_mapping_expand m) as Hm.
  { unfold merged_ports. rewrite (proj1 (foldl_push_new _ [])), list_elem_of_bind. set_solver. }
  rewrite <-Hm. destruct (in_publish_ports i); cbn [andb]; [|split; [by intros ?%not_elem_of_nil|by intros [? _]]].
  destruct (merged_ports (c_ports (in_container_config i)) ports) as [|p l] eqn:E.
  - rewrite bool_decide_true by done. cbn. set_solver.
  - rewrite bool_decide_false by done. cbn. tauto.
Qed.

Lemma capability_inj c c' : capability_as_str c = capability_as_str c' → c = c'.
Proof. intros H%(f_equal capability_from_str). rewrite !capability_roundtrip in H. by injection H. Qed.

Lemma capability_names_elem (Hiter : ∀ cs, iter_capabilities cs ≡ₚ elements cs) cs cap :
  capability_as_str cap ∈ default [] (capability_names iter_capabilities cs) ↔ cap ∈ default ∅ cs.
Proof.
  destruct cs as [cs|]; cbn; [|split; [by intros ?%not_elem_of_nil|by intros ?%elem_of_empty]].
  rewrite list_elem_of_fmap. split.
  - intros (cap' & ->%capability_inj & Hin). by rewrite (Hiter cs), elem_of_elements in Hin.
  - intros Hin. exists cap. by rewrite (Hiter cs), elem_of_elements.
Qed.

Lemma then_true_Some b v : then_true b = Some v ↔ b = true ∧ v = true.
Proof. unfold then_true. destruct b; naive_solver. Qed.
End request.

(** ** Properties *)

(** C10: The request a container is created by says what its configuration
    does.  Its command is the overlay's or else the container's, with the
    additional arguments after it; its environment has one entry for each
    variable, the overlay's value over the container's over a proxy's over
    [TERM], and [HOME] for an identity nothing else states one for; its labels
    are Ratect's own over the configured ones; it publishes each port of the
    container and the overlay once, and only when ports are published; its
    hosts are the configured ones and the proxy's gateway where those do not
    name it and the network namespace is its own; it runs as the host's user
    where it adopts one; its capabilities are the configured ones; and it gets
    a terminal only when it may be interactive and the process is on one. *)
Theorem container_request_spec iter_capabilities t i config
    (Hiter : ∀ cs, iter_capabilities cs ≡ₚ elements cs) :
  create_request t (derive_spec iter_capabilities i) = Ok config →
  let c := in_container_config i in
  build_cmd (or_else (overlay_command i) (c_command c)) (in_additional_args i) = Ok (cc_cmd config) ∧
  (∀ e, e ∈ default [] (cc_env config) ↔
     ∃ k v, expected_variable i k = Some v ∧ e = env_entry (k, v)) ∧
  (∀ key, lookup_in (cc_labels config) key =
     or_else (own_label (in_run_labels i) (in_name i) (in_role i) key) (lookup_in (c_labels c) key)) ∧
  cc_user config =
    match adopted_user i with
    | Some u => Some (show_N (cu_uid u) +:+ ":" +:+ show_N (cu_gid u))
    | None => process_user c None
    end ∧
  (NoDup (default [] (cc_exposed_ports config)) ∧
   ∀ key, key ∈ default [] (cc_exposed_ports config) ↔ ∃ p, published i p ∧ key = port_key p.1.2 p.2) ∧
  (cc_tty config = Some true → in_interactive i = true ∧ te_streaming t = TaskContainerOnly ∧
     te_stdin t = true ∧ te_stdout t = true) ∧
  ∃ host, cc_host_config config = Some host ∧
    (∀ key, NoDup (bindings_of (default ∅ (hc_port_bindings host)) key)) ∧
    (∀ key b, b ∈ bindings_of (default ∅ (hc_port_bindings host)) key ↔
       ∃ p, published i p ∧ key = port_key p.1.2 p.2 ∧ b = port_binding p.1.1) ∧
    (∀ e, e ∈ default [] (hc_extra_hosts host) ↔ ∃ name address, e = host_entry (name, address) ∧
       or_else (lookup_in (c_additional_hosts c) name)
         (g ← (if shares_namespace (in_network i) then None else in_proxy i ≫= host_gateway);
          if decide (name = hg_name g) then Some (hg_address g) else None) = Some address) ∧
    (∀ cap, capability_as_str cap ∈ default [] (hc_cap_add host) ↔ cap ∈ default ∅ (c_capabilities_to_add c)) ∧
    (∀ cap, capability_as_str cap ∈ default [] (hc_cap_drop host) ↔ cap ∈ default ∅ (c_capabilities_to_drop c)).
Proof.
  intros Hreq c. unfold create_request in Hreq.
  apply result_bind_Ok in Hreq as (cmd & Hcmd & Hreq). apply result_bind_Ok in Hreq as (entry & _ & Hreq).
  destruct (task_container_io _ _) as [interactive use_tty] eqn:Hio. injection Hreq as <-.
  cbn [cc_cmd cc_env cc_labels cc_user cc_exposed_ports cc_tty cc_host_config].
  pose proof (build_port_config_spec
    (no_ports (sh_network_options (cs_shared (derive_spec iter_capabilities i))))) as (Hnd & Hbnd & Hkeys & Hbind).
  setoid_rewrite derive_ports in Hkeys. setoid_rewrite derive_ports in Hbind.
  split; [|split; [|split; [|split; [|split; [split; [exact Hnd|exact Hkeys]|split]]]]].
  - rewrite <-Hcmd. unfold derive_spec, overlay_command.
    by destruct (overrides (in_overlay i)) as [[[[? ?] ?] ?] ?].
  - intros e. rewrite build_env_elem. by setoid_rewrite derive_environment.
  - intros key. unfold derive_spec. destruct (overrides (in_overlay i)) as [[[[? ?] ?] ?] ?].
    cbn [cs_labels lookup_in mbind option_bind]. rewrite for_container_lookup.
    by destruct (own_label _ _ _ key).
  - unfold derive_spec, adopted_user. destruct (overrides (in_overlay i)) as [[[[? ?] ?] ?] ?].
    cbn [cs_shared sh_process_user]. fold c. destruct (in_user_mapping i), (c_identity c); done.
  - intros Htty. cbn [sf_tty stdin_flags] in Htty. apply then_true_Some in Htty as [Htty _]. subst use_tty.
    unfold task_container_io, should_use_tty in Hio. injection Hio as <- Hio. bool_to_prop.
    assert (cs_interactive (derive_spec iter_capabilities i) = in_interactive i) as Hi
      by (unfold derive_spec; by destruct (overrides (in_overlay i)) as [[[[? ?] ?] ?] ?]).
    rewrite Hi in *. by destruct (te_streaming t).
  - eexists. split; [reflexivity|]. cbn [hc_port_bindings hc_extra_hosts hc_cap_add hc_cap_drop].
    split; [exact Hbnd|]. split; [exact Hbind|]. split; [|split].
    + intros e. rewrite build_extra_hosts_elem. unfold derive_spec.
      by destruct (overrides (in_overlay i)) as [[[[? ?] ?] ?] ?].
    + intros cap. unfold derive_spec. destruct (overrides (in_overlay i)) as [[[[? ?] ?] ?] ?].
      by apply capability_names_elem.
    + intros cap. unfold derive_spec. destruct (overrides (in_overlay i)) as [[[[? ?] ?] ?] ?].
      by apply capability_names_elem.
Qed.

(** *** A container *)

Definition example_container : Container :=
  mk_container None (Some "app:1") None None None None None None None None None None
    (Some {["LOG" := "info"; "MODE" := "dev"]}) None None None
    (Some [mk_port_mapping (mk_port_range 8080 8081) (mk_port_range 80 81) "tcp"]) None None None None None None
    (Some "serve --all") None (Some {[PROJECT := "x"; "team" := "a"]}) None None None None None None None None
    None None None None None None None None None None None.

Definition example_run : TaskRun :=
  mk_task_run "app" None (Some {["LOG" := "debug"]})
    (Some [mk_port_mapping (mk_port_range 8080 8080) (mk_port_range 80 80) "tcp"]) None None.

Definition example_inputs : ContainerSpecInputs :=
  mk_spec_inputs "app" "p-app-abc123" example_container (Run example_run) "sha256:1" (TaskNetwork "net") true ["-v"]
    None None None (Some {["TERM" := "xterm"]}) None true TaskRole (mk_run_labels "p" "serve" "run1" None).

Definition example_terminal : Terminal := mk_terminal TaskContainerOnly true false.

Definition example_request : result CreateConfig command_error :=
  create_request example_terminal (derive_spec elements example_inputs).

Example container_request_spec_witness :
  ∃ config, example_request = Ok config ∧
    cc_cmd config = Some ["serve"; "--all"; "-v"] ∧
    "LOG=debug" ∈ default [] (cc_env config) ∧ "TERM=xterm" ∈ default [] (cc_env config) ∧
    lookup_in (cc_labels config) PROJECT = Some "p" ∧ lookup_in (cc_labels config) "team" = Some "a" ∧
    cc_exposed_ports config = Some ["80/tcp"; "81/tcp"].
Proof.
  destruct example_request as [config|e] eqn:Hreq; [|exfalso; vm_compute in Hreq; discriminate Hreq].
  exists config. split; [reflexivity|].
  destruct (container_request_spec elements example_terminal example_inputs config (λ cs, Permutation_refl _) Hreq)
    as (Hcmd & Henv & Hlabels & _).
  split.
  { assert (@Ok _ command_error (Some ["serve"; "--all"; "-v"]) = Ok (cc_cmd config)) as Heq
      by (rewrite <-Hcmd; vm_compute; reflexivity).
    injection Heq as ->. reflexivity. }
  split; [apply Henv; exists "LOG", "debug"; split; vm_compute; reflexivity|].
  split; [apply Henv; exists "TERM", "xterm"; split; vm_compute; reflexivity|].
  split; [rewrite Hlabels; vm_compute; reflexivity|].
  split; [rewrite Hlabels; vm_compute; reflexivity|].
  transitivity (match example_request with Ok c => cc_exposed_ports c | Err _ => None end);
    [rewrite Hreq; reflexivity|vm_compute; reflexivity].
Defined.
