(* ===== verification/EntryLock.v ===== *)
(** * EntryLock: the lock a Git include is cloned under

    [ratect-core/src/git_include/entry_lock.rs], and [release_lock] of
    [git_include.rs], as a state machine of any number of processes that share
    one lock file.  Each system call is a step, so calls of different processes
    interleave in every order; a process may exit at any point, and the kernel
    then releases its OS locks.  A call's answer is the world's: whether it works
    is part of the step.  A file is its inode, so [path] may come to name another.

    A binary from before the OS lock is a process whose [File::lock] fails. *)

From S2P Require Import Prelude Text.
From stdpp Require Import functions options.

Definition MARKER : string := "ratect-entry-lock 1".

(** What [writeln!(file, "{MARKER}")] writes. *)
Definition marker_line : string := MARKER +:+ String "010" EmptyString.

(** A write at the start of a file that is not truncated. *)
Definition overwrite (text old : string) : string :=
  text +:+ of_chars (drop (length (chars text)) (chars old)).

(** What one look found. *)
Inductive Attempt :=
| Acquired
| HeldByRunningHolder
| HeldByUnknownHolder.
#[global] Instance Attempt_eq_dec : EqDecision Attempt.
Proof. solve_decision. Defined.

(** [take_over_if_abandoned]'s verdict, without the lock [Taken] carries. *)
Inductive TakeOver := Running | Unknown | Replaced.
#[global] Instance TakeOver_eq_dec : EqDecision TakeOver.
Proof. solve_decision. Defined.

Notation file := nat (only parsing).
Notation pid := nat (only parsing).

(** Where a process is: the system call it makes next, or what it holds. *)
Inductive phase :=
| Away                               (* not looking *)
| CreatingNew                        (* [attempt]: the exclusive open *)
| OpeningOld                         (* the second open *)
| TryLocking (f : file)              (* [file.try_lock()] *)
| Comparing (f : file)               (* [still_at] *)
| Reading (f : file)                 (* [file.read_to_string] *)
| Remarking (f : file)               (* the seek and the write *)
| LettingGo (f : file) (v : TakeOver) (* [file] is dropped, then the verdict *)
| Locking (f : file)                 (* [created]: the blocking [file.lock()] *)
| Marking (f : file)                 (* its [writeln!] *)
| Holding (f : file) (locked : bool) (* [EntryLock] *)
| Closing (f : file)                 (* [release]: [drop(self.file)] *)
| Waiting (found : Attempt)          (* [attempt] returned, without the lock *)
| Failed                             (* [attempt] returned its error *)
| Exited.
#[global] Instance phase_eq_dec : EqDecision phase.
Proof. solve_decision. Defined.

(** The directory entry, each file's text and OS lock, and the processes. *)
Record lock_state := mk_lock {
  at_path : option file;
  contents : file → string;
  os_lock : file → option pid;
  next_file : file;
  phases : pid → phase;
}.

Definition lock_init : lock_state := mk_lock None (λ _, EmptyString) (λ _, None) 0 (λ _, Away).

(** What a call answers, where the state leaves it open: [Works], [Fails], or, of
    a write, the text it left. *)
Inductive answer := Works | Fails | Leaves (text : string).

Inductive action :=
| Look                    (* [attempt] is called *)
| Call (a : answer)       (* the phase's system call *)
| Release                 (* [release] is called: [remove_file] *)
| ReleaseFails            (* the same, and [remove_file] fails *)
| Exit.

Definition set_phase (p : pid) (ph : phase) (s : lock_state) : lock_state :=
  mk_lock (at_path s) (contents s) (os_lock s) (next_file s) (<[p := ph]> (phases s)).

Definition set_path (o : option file) (s : lock_state) : lock_state :=
  mk_lock o (contents s) (os_lock s) (next_file s) (phases s).

Definition set_os (f : file) (o : option pid) (s : lock_state) : lock_state :=
  mk_lock (at_path s) (contents s) (<[f := o]> (os_lock s)) (next_file s) (phases s).

Definition set_text (f : file) (text : string) (s : lock_state) : lock_state :=
  mk_lock (at_path s) (<[f := text]> (contents s)) (os_lock s) (next_file s) (phases s).

(** The open file of process [p] is closed: its OS lock goes with it. *)
Definition close_file (p : pid) (f : file) (s : lock_state) : lock_state :=
  if decide (os_lock s f = Some p) then set_os f None s else s.

(** A process exits, and every file it had open is closed. *)
Definition close_all (p : pid) (s : lock_state) : lock_state :=
  mk_lock (at_path s) (contents s)
    (λ f, if decide (os_lock s f = Some p) then None else os_lock s f) (next_file s) (phases s).

(** A marked file: its first line is the marker. *)
Definition marked (text : string) : bool := bool_decide (head (buf_lines text) = Some MARKER).

(** The exclusive open of [path]. *)
Definition create_new (p : pid) (s : lock_state) : lock_state :=
  match at_path s with
  | None =>
      let f := next_file s in
      mk_lock (Some f) (<[f := EmptyString]> (contents s)) (<[f := None]> (os_lock s)) (S f)
        (<[p := Locking f]> (phases s))
  | Some _ => set_phase p OpeningOld s
  end.

(** [try_lock]: never waits. *)
Definition try_lock (p : pid) (f : file) (s : lock_state) : lock_state :=
  match os_lock s f with
  | None => set_phase p (Comparing f) (set_os f (Some p) s)
  | Some _ => set_phase p (LettingGo f Running) s
  end.

(** [path] still names [f]. *)
Definition still_at (f : file) (s : lock_state) : bool := bool_decide (at_path s = Some f).

(** What [attempt] does with a verdict. *)
Definition after_verdict (v : TakeOver) : phase :=
  match v with
  | Running => Waiting HeldByRunningHolder
  | Unknown => Waiting HeldByUnknownHolder
  | Replaced => CreatingNew
  end.

(** The system call of process [p]'s phase, answered. *)
Definition call (p : pid) (a : answer) (s : lock_state) : option lock_state :=
  match phases s p, a with
  | CreatingNew, Works => Some (create_new p s)
  | CreatingNew, Fails => Some (set_phase p Failed s)
  | OpeningOld, Works =>
      Some (match at_path s with
            | Some f => set_phase p (TryLocking f) s
            | None => set_phase p CreatingNew s
            end)
  | OpeningOld, Fails => Some (set_phase p (Waiting HeldByUnknownHolder) s)
  | TryLocking f, Works => Some (try_lock p f s)
  | TryLocking f, Fails => Some (set_phase p (LettingGo f Unknown) s)
  | Comparing f, Works =>
      Some (set_phase p (if still_at f s then Reading f else LettingGo f Replaced) s)
  | Comparing f, Fails => Some (set_phase p (LettingGo f Replaced) s)
  | Reading f, Works =>
      Some (set_phase p (if marked (contents s f) then Remarking f else LettingGo f Unknown) s)
  | Reading f, Fails => Some (set_phase p (LettingGo f Unknown) s)
  | Remarking f, Works => Some (set_phase p (Holding f true) (set_text f (overwrite marker_line (contents s f)) s))
  | Remarking f, Leaves text => Some (set_phase p (Holding f true) (set_text f text s))
  | LettingGo f v, Works => Some (set_phase p (after_verdict v) (close_file p f s))
  | Locking f, Works =>
      match os_lock s f with
      | None => Some (set_phase p (Marking f) (set_os f (Some p) s))
      | Some _ => None
      end
  | Locking f, Fails => Some (set_phase p (Holding f false) s)
  | Marking f, Works => Some (set_phase p (Holding f true) (set_text f (overwrite marker_line (contents s f)) s))
  | Marking f, Leaves text => Some (set_phase p (Holding f true) (set_text f text s))
  | Closing f, Works => Some (set_phase p Away (close_file p f s))
  | _, _ => None
  end.

Definition step (s : lock_state) (p : pid) (a : action) : option lock_state :=
  match a, phases s p with
  | Look, (Away | Waiting _ | Failed) => Some (set_phase p CreatingNew s)
  | Call a, _ => call p a s
  | Release, Holding f _ => Some (set_phase p (Closing f) (set_path None s))
  | ReleaseFails, Holding f _ => Some (set_phase p (Closing f) s)
  | Exit, Exited => None
  | Exit, _ => Some (set_phase p Exited (close_all p s))
  | _, _ => None
  end.

Fixpoint run (s : lock_state) (l : list (pid * action)) : option lock_state :=
  match l with
  | [] => Some s
  | (p, a) :: l => s' ← step s p a; run s' l
  end.

Inductive reachable : lock_state → Prop :=
| reachable_init : reachable lock_init
| reachable_step s p a s' : reachable s → step s p a = Some s' → reachable s'.

(** ** One look, with no other process in between *)

Fixpoint look_alone (fuel : nat) (p : pid) (s : lock_state) : option (lock_state * Attempt) :=
  match phases s p with
  | Holding _ _ => Some (s, Acquired)
  | Waiting found => Some (s, found)
  | _ =>
      match fuel with
      | O => None
      | S fuel => s' ← step s p (Call Works); look_alone fuel p s'
      end
  end.

(** No look makes more calls than this. *)
Definition LOOK_CALLS : nat := 8.

Definition look (p : pid) (s : lock_state) : option (lock_state * Attempt) :=
  s' ← step s p Look; look_alone LOOK_CALLS p s'.

(** ** What the entry lock promises

    Of [EntryLock], in every interleaving of any number of processes, calls that
    fail and exits: at most one process holds the lock, and the file it will
    delete is its own; what a look finds; and that a lock whose holder has exited
    is taken over. *)

(** The file a process has the lock on, or will have unless it exits. *)
Definition owns (ph : phase) : option file :=
  match ph with
  | Locking f | Marking f | Remarking f | Holding f _ => Some f
  | _ => None
  end.

(** The file whose OS lock it certainly has, and the one it may have. *)
Definition has_os (ph : phase) : option file :=
  match ph with
  | Comparing f | Reading f | Marking f | Remarking f | Holding f true => Some f
  | _ => None
  end.

Definition may_have_os (ph : phase) : option file :=
  match ph with
  | LettingGo f _ | Closing f => Some f
  | _ => has_os ph
  end.

(** The file a process has open. *)
Definition opened (ph : phase) : option file :=
  match ph with
  | TryLocking f | Locking f | Holding f _ => Some f
  | _ => may_have_os ph
  end.

Record lock_inv (s : lock_state) : Prop := {
  li_path f : at_path s = Some f → f < next_file s;
  li_opened p f : opened (phases s p) = Some f → f < next_file s;
  li_owner p f : owns (phases s p) = Some f → at_path s = Some f;
  li_one p q f g : owns (phases s p) = Some f → owns (phases s q) = Some g → p = q;
  li_has p f : has_os (phases s p) = Some f → os_lock s f = Some p;
  li_os p f : os_lock s f = Some p → may_have_os (phases s p) = Some f;
  li_unmarked p f : owns (phases s p) = Some f → has_os (phases s p) = None →
    marked (contents s f) = false;
  li_reading p f : phases s p = Reading f → marked (contents s f) = true → at_path s = Some f;
}.

Lemma lock_init_inv : lock_inv lock_init.
Proof. split; naive_solver. Qed.

Lemma owns_opened ph f : owns ph = Some f → opened ph = Some f.
Proof. destruct ph as [| | | | | | | | | |? []| | | |]; naive_solver. Qed.
Lemma has_os_may ph f : has_os ph = Some f → may_have_os ph = Some f.
Proof. destruct ph as [| | | | | | | | | |? []| | | |]; naive_solver. Qed.
Lemma may_opened ph f : may_have_os ph = Some f → opened ph = Some f.
Proof. destruct ph as [| | | | | | | | | |? []| | | |]; naive_solver. Qed.

Lemma phases_set (s : pid → phase) p ph q : (<[p := ph]> s) q = if decide (p = q) then ph else s q.
Proof. done. Qed.

Lemma os_set (s : file → option pid) f o g : (<[f := o]> s) g = if decide (f = g) then o else s g.
Proof. done. Qed.

Ltac at_process :=
  simpl; intros *; rewrite ?phases_set; repeat case_decide; subst; eauto.

(** A step that only moves [p] to a phase that claims no more than the old one. *)
Lemma move_inv s p ph :
  lock_inv s →
  (∀ f, opened ph = Some f → f < next_file s) →
  (∀ f, owns ph = Some f → owns (phases s p) = Some f ∧ (has_os ph = None → has_os (phases s p) = None)) →
  (∀ f, has_os ph = Some f → os_lock s f = Some p) →
  (∀ f, os_lock s f = Some p → may_have_os ph = Some f) →
  (∀ f, ph = Reading f → marked (contents s f) = true → at_path s = Some f) →
  lock_inv (set_phase p ph s).
Proof.
  intros [] Ho How Hhas Hos Hread. split; try by at_process.
  - at_process. intros []%How. eauto.
  - at_process.
    + intros [H1 _]%How. eauto.
    + intros ? [H1 _]%How. eauto.
  - at_process. intros [H1 H2]%How ?. eauto.
Qed.

Lemma create_inv s p :
  lock_inv s → phases s p = CreatingNew → lock_inv (create_new p s).
Proof.
  intros Hi Hp. unfold create_new. destruct (at_path s) as [f0|] eqn:Hpath.
  { apply move_inv; try done. intros f Hf. apply Hi in Hf. rewrite Hp in Hf. done. }
  assert (∀ q f, owns (phases s q) = Some f → False) as Hno.
  { intros q f Hq. apply Hi in Hq. congruence. }
  assert (∀ q, opened (phases s q) = Some (next_file s) → False) as Hfresh.
  { intros q Hq. apply Hi in Hq. lia. }
  assert (os_lock s (next_file s) = None) as Hos.
  { destruct (os_lock s (next_file s)) as [q|] eqn:E; [|done]. apply Hi, may_opened in E.
    exfalso. eauto. }
  destruct Hi as [H1 H2 H3 H4 H5 H6 H7 H8]. split; simpl; intros *; rewrite ?phases_set.
  - intros [= ->]. lia.
  - case_decide; simpl; [intros [= ->]; lia|]. intros ?%H2. lia.
  - case_decide; simpl; [by intros [= ->]|]. intros ?%Hno. done.
  - repeat case_decide; subst; simpl; try done; intros; exfalso; eauto.
  - case_decide; simpl; [done|]. intros Hq. rewrite os_set. case_decide; [|by apply H5]. subst.
    exfalso. eapply Hfresh, may_opened, has_os_may, Hq.
  - rewrite os_set. case_decide; [done|]. intros Hq%H6. case_decide; [|done]. subst.
    rewrite Hp in Hq. done.
  - case_decide; simpl; [|intros []%Hno]. intros [= <-] _. by rewrite fn_lookup_insert.
  - case_decide; [done|]. intros Hq. unfold insert, fn_insert. case_decide; [done|]. intros Hm.
    pose proof (H8 _ _ Hq Hm). congruence.
Qed.

(** The OS lock of a file nobody has locked is taken. *)
Lemma take_os_inv s p f ph :
  lock_inv s → os_lock s f = None → opened (phases s p) = Some f →
  opened ph = Some f → has_os ph = Some f → owns ph = owns (phases s p) → (∀ g, ph ≠ Reading g) →
  has_os (phases s p) = None → may_have_os (phases s p) = None →
  lock_inv (set_phase p ph (set_os f (Some p) s)).
Proof.
  intros Hi Hfree Hopen Hph Hhas Howns Hread Hnone Hmay.
  assert (f < next_file s) as Hlt by by eapply li_opened.
  destruct Hi as [H1 H2 H3 H4 H5 H6 H7 H8]. split; simpl; intros *; rewrite ?phases_set.
  - apply H1.
  - case_decide; [|apply H2]. intros. congruence.
  - case_decide; [rewrite Howns|]; subst; apply H3.
  - repeat case_decide; subst; rewrite ?Howns; eauto.
  - case_decide; subst.
    + rewrite Hhas. intros [= <-]. by rewrite fn_lookup_insert.
    + intros Hq%H5. rewrite os_set. case_decide; [congruence|done].
  - rewrite os_set. case_decide; [|intros Hq%H6; case_decide; [congruence|done]].
    intros [= <-]. subst. rewrite decide_True by done. by apply has_os_may.
  - case_decide; [congruence|]. apply H7.
  - case_decide; [by intros ?%Hread|]. apply H8.
Qed.

(** The owner writes to its file, whose OS lock it has. *)
Lemma write_inv s p f text :
  lock_inv s → owns (phases s p) = Some f → has_os (phases s p) = Some f →
  lock_inv (set_phase p (Holding f true) (set_text f text s)).
Proof.
  intros Hi Howns Hhas. assert (f < next_file s) as Hlt by by eapply li_opened, owns_opened.
  assert (os_lock s f = Some p) as Hos by by apply Hi.
  destruct Hi as [H1 H2 H3 H4 H5 H6 H7 H8]. split; simpl; intros *; rewrite ?phases_set.
  - apply H1.
  - case_decide; [|apply H2]. simpl. congruence.
  - case_decide; [|apply H3]. simpl. intros [= <-]. eauto.
  - repeat case_decide; subst; simpl; eauto.
  - case_decide; [|apply H5]. simpl. congruence.
  - case_decide; [|apply H6]. subst. simpl. intros Hq. apply H6 in Hq. apply has_os_may in Hhas. congruence.
  - case_decide; [done|]. intros Hq Hn. destruct (decide (f = f0)) as [<-|].
    + destruct (H4 p p0 f f); [done..|]. congruence.
    + rewrite fn_lookup_insert_ne by done. eauto.
  - case_decide; [done|]. intros Hq. destruct (decide (f = f0)) as [<-|].
    + assert (os_lock s f = Some p0) by (apply H5; by rewrite Hq). congruence.
    + rewrite fn_lookup_insert_ne by done. eauto.
Qed.

(** Process [p] closes all it has open. *)
Lemma closed_inv s p ph os' :
  lock_inv s → opened ph = None →
  (∀ g, os' g = if decide (os_lock s g = Some p) then None else os_lock s g) →
  lock_inv (set_phase p ph (mk_lock (at_path s) (contents s) os' (next_file s) (phases s))).
Proof.
  intros [H1 H2 H3 H4 H5 H6 H7 H8] Hph Hos.
  assert (owns ph = None) as Howns.
  { destruct (owns ph) eqn:E; [|done]. apply owns_opened in E. congruence. }
  assert (has_os ph = None) as Hhas.
  { destruct (has_os ph) eqn:E; [|done]. apply has_os_may, may_opened in E. congruence. }
  split; simpl; intros *; rewrite ?phases_set, ?Hos.
  - apply H1.
  - case_decide; [intros; congruence|apply H2].
  - case_decide; [intros; congruence|apply H3].
  - repeat case_decide; try (intros; congruence). apply H4.
  - case_decide; [congruence|]. intros Hq%H5. rewrite decide_False; congruence.
  - case_decide; [done|]. case_decide; [intros; congruence|apply H6].
  - case_decide; [intros; congruence|apply H7].
  - case_decide; [intros; by subst|apply H8].
Qed.

Lemma close_file_inv s p f ph :
  lock_inv s → opened ph = None → may_have_os (phases s p) = Some f →
  lock_inv (set_phase p ph (close_file p f s)).
Proof.
  intros Hi Hph Hmay. unfold close_file. case_decide as Hd.
  - apply (closed_inv s p ph); [done..|]. intros g. rewrite os_set.
    case_decide as Hg; [subst; by rewrite decide_True|]. case_decide as Hp; [|done].
    apply (li_os _ Hi) in Hp. congruence.
  - apply (closed_inv s p ph (os_lock s)) in Hi as Hc; [by destruct s|done|].
    intros g. case_decide as Hp; [|done]. pose proof (li_os _ Hi _ _ Hp). congruence.
Qed.

(** Found marked, under its OS lock: the lock is taken over. *)
Lemma take_over_inv s p f :
  lock_inv s → phases s p = Reading f → marked (contents s f) = true →
  lock_inv (set_phase p (Remarking f) s).
Proof.
  intros Hi Hp Hm. assert (at_path s = Some f) as Hpath by by apply (li_reading _ Hi p).
  assert (os_lock s f = Some p) as Hos by (apply Hi; by rewrite Hp).
  assert (∀ q g, owns (phases s q) = Some g → q = p) as Hno.
  { intros q g Hq. assert (g = f) as -> by (apply Hi in Hq; congruence).
    destruct (has_os (phases s q)) as [h|] eqn:Hh.
    - assert (h = f) as ->; [|apply Hi in Hh; congruence].
      destruct (phases s q) as [| | | | | | | | | |? []| | | |]; simpl in *; congruence.
    - by rewrite (li_unmarked _ Hi q f) in Hm. }
  destruct Hi as [H1 H2 H3 H4 H5 H6 H7 H8]. split; simpl; intros *; rewrite ?phases_set.
  - apply H1.
  - case_decide; [|apply H2]. simpl. intros [= <-]. apply (H2 p). by rewrite Hp.
  - case_decide; [|apply H3]. by intros [= <-].
  - repeat case_decide; subst; simpl; eauto. intros _ Hq. symmetry. eauto.
  - case_decide; [|apply H5]. simpl. intros [= <-]. by subst.
  - case_decide; [|apply H6]. simpl. intros Hq. subst. apply H6 in Hq. by rewrite Hp in Hq.
  - case_decide; [done|]. apply H7.
  - case_decide; [done|]. apply H8.
Qed.

(** The holder deletes its file. *)
Lemma release_inv s p f b :
  lock_inv s → phases s p = Holding f b → lock_inv (set_phase p (Closing f) (set_path None s)).
Proof.
  intros Hi Hp. assert (at_path s = Some f) as Hpath by (apply (li_owner _ Hi p); by rewrite Hp).
  assert (∀ q g, owns (phases s q) = Some g → q = p) as Hno.
  { intros q g Hq. apply (li_one _ Hi q p g f); [done|by rewrite Hp]. }
  assert (b = true ∧ os_lock s f = Some p ∨ b = false ∧ marked (contents s f) = false) as Hb.
  { destruct b; [left|right]; split; try done; [apply Hi|eapply Hi]; by rewrite Hp. }
  destruct Hi as [H1 H2 H3 H4 H5 H6 H7 H8]. split; simpl; intros *; rewrite ?phases_set; try done.
  - case_decide; [|apply H2]. simpl. intros [= <-]. by apply H1.
  - case_decide; [done|]. intros Hq%Hno. congruence.
  - repeat case_decide; subst; simpl; eauto; done.
  - case_decide; [done|]. apply H5.
  - case_decide; [|apply H6]. simpl. intros Hq. subst. apply H6 in Hq. rewrite Hp in Hq. by destruct b.
  - case_decide; [done|]. apply H7.
  - case_decide; [done|]. intros Hq Hm. assert (f0 = f) as -> by (pose proof (H8 _ _ Hq Hm); congruence).
    assert (os_lock s f = Some p0) by (apply H5; by rewrite Hq). destruct Hb as [[_ ?]|[_ ?]]; congruence.
Qed.

(** [move_inv], its side conditions read off the two phases. *)
Ltac only_moves Hi p Hp :=
  apply move_inv; [done|..];
  [intros g Hg; pose proof (li_opened _ Hi p g) as Ho; pose proof (li_path _ Hi g) as Hl; rewrite Hp in Ho; simpl in *;
     simplify_eq; by eauto
  |intros g Hg; rewrite ?Hp; simpl in *; by try congruence
  |intros g Hg; pose proof (li_has _ Hi p g) as Ho; rewrite Hp in Ho; simpl in *; try congruence; by eauto
  |intros g Hg; pose proof (li_os _ Hi _ _ Hg) as Ho; rewrite Hp in Ho; simpl in *; by repeat case_match
  |intros g Hg; try discriminate].

Lemma step_inv s p a s' : lock_inv s → step s p a = Some s' → lock_inv s'.
Proof.
  intros Hi. unfold step. destruct a as [|a| | |]; destruct (phases s p) as [| | |f|f|f|f|f v|f|f|f b|f|found| |] eqn:Hp;
    try discriminate; try (injection 1 as <-);
    try (by apply (closed_inv s p Exited)); try (by eapply release_inv);
    unfold call; rewrite ?Hp; try (destruct a; try discriminate; try (injection 1 as <-)).
  all: try (by apply create_inv).
  all: try (by apply close_file_inv; rewrite ?Hp; try done; destruct v).
  all: try (by apply write_inv; rewrite ?Hp).
  all: try (by only_moves Hi p Hp).
  - destruct (at_path s) as [f|] eqn:Hpath; by only_moves Hi p Hp.
  - unfold try_lock. destruct (os_lock s f) eqn:Hos; [by only_moves Hi p Hp|].
    by apply take_os_inv; rewrite ?Hp.
  - unfold still_at. case_bool_decide; [|by only_moves Hi p Hp]. only_moves Hi p Hp. by injection Hg as <-.
  - destruct (marked (contents s f)) eqn:Hm; [by apply take_over_inv|by only_moves Hi p Hp].
  - destruct (os_lock s f) eqn:Hos; [done|]. injection 1 as <-. by apply take_os_inv; rewrite ?Hp.
Qed.

Lemma reachable_inv s : reachable s → lock_inv s.
Proof. induction 1 as [|s p a s' _ IH Hs]; [apply lock_init_inv|by eapply step_inv]. Qed.

Lemma run_reachable s l s' : reachable s → run s l = Some s' → reachable s'.
Proof.
  revert s. induction l as [|[p a] l IH]; simpl; intros s Hr; [by intros [= <-]|].
  destruct (step s p a) eqn:E; [|done]. simpl. intros Hl. eapply IH; [|done]. by eapply reachable_step.
Qed.

(** *** Exclusion *)

Lemma set_phase_ne p q ph s : p ≠ q → phases (set_phase p ph s) q = phases s q.
Proof. intros. simpl. by rewrite phases_set, decide_False. Qed.

Lemma close_file_phases p f s : phases (close_file p f s) = phases s.
Proof. unfold close_file. by case_decide. Qed.

Lemma step_others s p a s' q : step s p a = Some s' → p ≠ q → phases s' q = phases s q.
Proof.
  intros Hs Hne. revert Hs. unfold step, call, create_new, try_lock.
  repeat case_match; try discriminate; injection 1 as <-; rewrite ?set_phase_ne by done;
    rewrite ?close_file_phases; try done; simpl; by rewrite phases_set, decide_False.
Qed.

Lemma close_file_path p f s : at_path (close_file p f s) = at_path s.
Proof. unfold close_file. by case_decide. Qed.

(** What a step does to [path]: it is made to name a new file when it named
    none, and deleted by who holds it. *)
Lemma step_path s p a s' :
  step s p a = Some s' →
  at_path s' = at_path s ∨
  at_path s = None ∧ phases s p = CreatingNew ∨
  at_path s' = None ∧ a = Release ∧ ∃ f b, phases s p = Holding f b.
Proof.
  unfold step. destruct a as [|a| | |]; destruct (phases s p) eqn:Hp; try discriminate;
    try (injection 1 as <-); try (by left); try (right; right; by eauto);
    unfold call; rewrite Hp; destruct a; try discriminate; try (injection 1 as <-); try (by left).
  - unfold create_new. destruct (at_path s) eqn:E; [by left|]. right. by left.
  - left. by destruct (at_path s) eqn:E; simpl.
  - left. unfold try_lock. by destruct (os_lock s f).
  - left. apply close_file_path.
  - destruct (os_lock s f); [done|]. injection 1 as <-. by left.
  - left. apply close_file_path.
Qed.

(** In every interleaving of any number of processes, whatever their calls
    answer and whenever one exits: at most one process has the entry lock, whether
    it made the file or took an abandoned one over; [path] names the file it holds,
    so that what its release deletes is its own lock; and no step but its release
    deletes a lock or puts another in its place. *)
Lemma one_holder s :
  reachable s →
  (∀ p q f g, owns (phases s p) = Some f → owns (phases s q) = Some g → p = q ∧ f = g) ∧
  (∀ p f, owns (phases s p) = Some f → at_path s = Some f) ∧
  (∀ p a s' f, step s p a = Some s' → at_path s = Some f → at_path s' ≠ Some f →
    a = Release ∧ at_path s' = None ∧ ∃ b, phases s p = Holding f b) ∧
  (∀ p a s' q f, step s p a = Some s' → owns (phases s q) = Some f → p ≠ q →
    owns (phases s' q) = Some f ∧ at_path s' = Some f).
Proof.
  intros Hr. pose proof (reachable_inv _ Hr) as Hi.
  assert (∀ p a s' f, step s p a = Some s' → at_path s = Some f → at_path s' ≠ Some f →
    a = Release ∧ at_path s' = None ∧ ∃ b, phases s p = Holding f b) as Hdel.
  { intros p a s' f Hs Hf Hne.
    destruct (step_path _ _ _ _ Hs) as [?|[[? ?]|(? & -> & g & b & Hp)]]; [congruence..|].
    split_and!; [done..|]. exists b. assert (at_path s = Some g) by (apply (li_owner _ Hi p); by rewrite Hp).
    congruence. }
  split_and!; [|apply Hi|done|].
  - intros p q f g Hp Hq. split; [by eapply li_one|]. apply Hi in Hp, Hq. congruence.
  - intros p a s' q f Hs Hq Hne. assert (owns (phases s' q) = Some f) as Hq'.
    { by rewrite (step_others _ _ _ _ _ Hs). }
    split; [done|]. eapply li_owner; [|done]. by eapply step_inv.
Qed.

(** *** What a look finds *)

Lemma split_l_first c l m : c ∉ l → split_l c (l ++ c :: m) = l :: split_l c m.
Proof.
  induction l as [|d l IH]; simpl; intros Hc; [by rewrite bool_decide_true|].
  apply not_elem_of_cons in Hc as [Hd Hc]. by rewrite bool_decide_false, IH.
Qed.

(** Overwriting leaves the marker as the first line. *)
Lemma overwrite_marked old : marked (overwrite marker_line old) = true.
Proof.
  unfold marked, overwrite. apply bool_decide_true. generalize (drop (length (chars marker_line)) (chars old)).
  intros l. unfold buf_lines, Text.split. rewrite chars_app, chars_of_chars.
  change (chars marker_line) with (chars MARKER ++ ["010"%char]). rewrite <- app_assoc. cbn [app].
  rewrite split_l_first by (apply (bool_decide_unpack _); vm_compute; exact I).
  destruct (split_l "010" l) as [|h t] eqn:E; [by apply split_l_nonempty in E|]. by vm_compute.
Qed.

Definition may_look (ph : phase) : bool :=
  match ph with Away | Waiting _ | Failed => true | _ => false end.

Lemma set_phase_eq p ph s : phases (set_phase p ph s) p = ph.
Proof. simpl. by rewrite phases_set, decide_True. Qed.

Definition under_way (ph : phase) : bool :=
  match ph with Holding _ _ | Waiting _ => false | _ => true end.

(** The calls of a look that leave the lock as it is: what is left is where [p] is. *)
Definition same_lock (s s' : lock_state) : Prop :=
  at_path s' = at_path s ∧ contents s' = contents s ∧ next_file s' = next_file s.

Lemma look_call n p s ph s' :
  phases s p = ph → under_way ph = true → call p Works s = Some s' →
  look_alone (S n) p s = look_alone n p s'.
Proof. intros Hp Hu Hc. simpl. rewrite Hp, Hc. by destruct ph. Qed.

Lemma look_ends n p s ph :
  phases s p = ph →
  look_alone n p s = match ph with
                     | Holding _ _ => Some (s, Acquired)
                     | Waiting found => Some (s, found)
                     | _ => look_alone n p s
                     end.
Proof. intros Hp. destruct ph, n; simpl; by rewrite ?Hp. Qed.

Lemma look_begins p s :
  may_look (phases s p) = true → look p s = look_alone LOOK_CALLS p (set_phase p CreatingNew s).
Proof. intros Hp. unfold look, step. by destruct (phases s p). Qed.

Ltac call_of Hp := eapply look_call; [exact Hp|done|unfold call; rewrite Hp; cbn].

Lemma look_trying n p s f :
  phases s p = CreatingNew → at_path s = Some f →
  ∃ s', look_alone (S (S n)) p s = look_alone n p s' ∧ phases s' p = TryLocking f ∧
    same_lock s s' ∧ os_lock s' = os_lock s.
Proof.
  intros Hp Hpath. exists (set_phase p (TryLocking f) (set_phase p OpeningOld s)).
  split; [|by rewrite set_phase_eq]. trans (look_alone (S n) p (set_phase p OpeningOld s)).
  - call_of Hp. unfold create_new. by rewrite Hpath.
  - eapply look_call; [apply set_phase_eq|done|]. unfold call. rewrite set_phase_eq. cbn. by rewrite Hpath.
Qed.

Lemma look_let_go n p s f v :
  phases s p = LettingGo f v → v ≠ Replaced →
  ∃ s' found, look_alone (S n) p s = Some (s', found) ∧
    found = (if decide (v = Running) then HeldByRunningHolder else HeldByUnknownHolder) ∧ same_lock s s'.
Proof.
  intros Hp Hv. exists (set_phase p (after_verdict v) (close_file p f s)).
  exists (if decide (v = Running) then HeldByRunningHolder else HeldByUnknownHolder). split.
  - trans (look_alone n p (set_phase p (after_verdict v) (close_file p f s))); [by call_of Hp|].
    erewrite look_ends by apply set_phase_eq. by destruct v.
  - split; [by destruct v|]. unfold same_lock, close_file. by case_decide.
Qed.

Lemma look_marks n p s f :
  phases s p = Marking f ∨ phases s p = Remarking f → contents s f = EmptyString ∨ marked (contents s f) = true →
  ∃ s', look_alone (S n) p s = Some (s', Acquired) ∧ phases s' p = Holding f true ∧
    at_path s' = at_path s ∧ os_lock s' = os_lock s ∧ marked (contents s' f) = true.
Proof.
  intros Hp Hc. exists (set_phase p (Holding f true) (set_text f (overwrite marker_line (contents s f)) s)).
  split.
  - trans (look_alone n p (set_phase p (Holding f true) (set_text f (overwrite marker_line (contents s f)) s))).
    + destruct Hp as [Hp|Hp]; by call_of Hp.
    + by erewrite look_ends by apply set_phase_eq.
  - rewrite set_phase_eq. split_and!; try done. simpl. rewrite fn_lookup_insert. apply overwrite_marked.
Qed.

Lemma same_lock_trans s1 s2 s3 : same_lock s1 s2 → same_lock s2 s3 → same_lock s1 s3.
Proof. intros (? & ? & ?) (? & ? & ?). unfold same_lock. by split_and!; etrans. Qed.

Lemma look_free s p :
  may_look (phases s p) = true → at_path s = None →
  ∃ s', look p s = Some (s', Acquired) ∧ phases s' p = Holding (next_file s) true ∧
    at_path s' = Some (next_file s) ∧ os_lock s' (next_file s) = Some p ∧
    marked (contents s' (next_file s)) = true.
Proof.
  intros Hp Hpath. rewrite look_begins by done. unfold LOOK_CALLS.
  set (f := next_file s). set (s1 := create_new p (set_phase p CreatingNew s)).
  assert (phases s1 p = Locking f ∧ at_path s1 = Some f ∧ os_lock s1 f = None ∧ contents s1 f = EmptyString)
    as (Hp1 & Hpath1 & Hos1 & Hc1).
  { unfold s1, create_new. simpl. rewrite Hpath. simpl. by rewrite !fn_lookup_insert. }
  rewrite (look_call _ _ _ CreatingNew s1); [|apply set_phase_eq|done|unfold call; by rewrite set_phase_eq].
  clearbody s1. set (s2 := set_phase p (Marking f) (set_os f (Some p) s1)).
  assert (phases s2 p = Marking f) as Hp2 by apply set_phase_eq.
  rewrite (look_call _ _ _ (Locking f) s2); [|done|done|unfold call; by rewrite Hp1, Hos1].
  destruct (look_marks 5 p s2 f) as (s' & Hl & ? & Hpath' & Hos' & ?); [by left|by left|].
  exists s'. rewrite Hpath', Hos'. split_and!; try done. simpl. apply fn_lookup_insert.
Qed.

(** The lock is there: its OS lock decides, and then its text. *)
Lemma look_held s p f :
  may_look (phases s p) = true → at_path s = Some f →
  ∃ s' found, look p s = Some (s', found) ∧ at_path s' = Some f ∧
    match os_lock s f with
    | Some _ => found = HeldByRunningHolder ∧ same_lock s s'
    | None =>
        if marked (contents s f) then
          found = Acquired ∧ phases s' p = Holding f true ∧ os_lock s' f = Some p ∧ marked (contents s' f) = true
        else found = HeldByUnknownHolder ∧ same_lock s s'
    end.
Proof.
  intros Hp Hpath. rewrite look_begins by done. unfold LOOK_CALLS.
  destruct (look_trying 6 p (set_phase p CreatingNew s) f) as (s1 & -> & Hp1 & Hs1 & Hos1);
    [apply set_phase_eq|done|]. change (same_lock s s1) in Hs1. simpl in Hos1.
  assert (at_path s1 = Some f) as Hpath1 by by rewrite (proj1 Hs1).
  destruct (os_lock s f) as [q|] eqn:Hos.
  - rewrite (look_call _ _ _ (TryLocking f) (set_phase p (LettingGo f Running) s1));
      [|done|done|unfold call, try_lock; by rewrite Hp1, Hos1, Hos].
    edestruct look_let_go as (s' & found & -> & -> & Hs'); [apply set_phase_eq|done|].
    exists s', HeldByRunningHolder. split; [done|]. rewrite (proj1 Hs'). split_and!; try done.
    by eapply same_lock_trans.
  - set (s2 := set_phase p (Comparing f) (set_os f (Some p) s1)).
    rewrite (look_call _ _ _ (TryLocking f) s2); [|done|done|unfold call, try_lock; by rewrite Hp1, Hos1, Hos].
    set (s3 := set_phase p (Reading f) s2).
    assert (phases s2 p = Comparing f) as Hp2 by apply set_phase_eq.
    rewrite (look_call _ _ _ (Comparing f) s3); [|done|done|].
    2: { unfold call. rewrite Hp2. unfold still_at. simpl. by rewrite bool_decide_true. }
    assert (phases s3 p = Reading f) as Hp3 by apply set_phase_eq.
    assert (contents s3 = contents s) as Hc3 by apply Hs1.
    destruct (marked (contents s f)) eqn:Hm.
    + rewrite (look_call _ _ _ (Reading f) (set_phase p (Remarking f) s3));
        [|done|done|unfold call; by rewrite Hp3, Hc3, Hm].
      edestruct look_marks as (s' & -> & ? & Hpath' & Hos' & ?);
        [right; apply set_phase_eq|right; simpl; by rewrite (proj1 (proj2 Hs1))|].
      exists s', Acquired. rewrite Hpath', Hos'. split_and!; try done. apply fn_lookup_insert.
    + rewrite (look_call _ _ _ (Reading f) (set_phase p (LettingGo f Unknown) s3));
        [|done|done|unfold call; by rewrite Hp3, Hc3, Hm].
      edestruct look_let_go as (s' & found & -> & -> & Hs'); [apply set_phase_eq|done|].
      exists s', HeldByUnknownHolder. split; [done|]. rewrite (proj1 Hs'). split_and!; try done.
      by eapply same_lock_trans.
Qed.

(** A look with no other process in between always comes to a verdict.  A
    lock that is not there is taken, in a file made and marked for it; one whose
    OS lock is held is its running holder's; one whose OS lock is free is taken
    over in place when it is marked, and otherwise left to a holder that cannot be
    told to have exited; and a look that does not take the lock leaves it as it
    was.  So the lock of a holder that exits, however it does, once its file is
    marked, goes to the next process that looks. *)
Lemma look_verdict s p :
  reachable s → may_look (phases s p) = true →
  (∃ s' found, look p s = Some (s', found) ∧
    match at_path s with
    | None => found = Acquired ∧ phases s' p = Holding (next_file s) true ∧
        at_path s' = Some (next_file s) ∧ marked (contents s' (next_file s)) = true
    | Some f =>
        at_path s' = Some f ∧
        match os_lock s f with
        | Some _ => found = HeldByRunningHolder ∧ same_lock s s'
        | None =>
            if marked (contents s f) then
              found = Acquired ∧ phases s' p = Holding f true ∧ os_lock s' f = Some p ∧
              marked (contents s' f) = true
            else found = HeldByUnknownHolder ∧ same_lock s s'
        end
    end) ∧
  (∀ q f s1, phases s q = Holding f true → marked (contents s f) = true → step s q Exit = Some s1 →
    ∃ s2, look p s1 = Some (s2, Acquired) ∧ phases s2 p = Holding f true).
Proof.
  intros Hr Hp. split.
  - destruct (at_path s) as [f|] eqn:Hpath.
    + destruct (look_held s p f) as (s' & found & Hl & ? & ?); [done..|]. by exists s', found.
    + destruct (look_free s p) as (s' & Hl & ? & ? & ? & ?); [done..|]. by exists s', Acquired.
  - intros q f s1 Hq Hm Hs. pose proof (reachable_inv _ Hr) as Hi.
    assert (at_path s = Some f) as Hpath by (apply (li_owner _ Hi q); by rewrite Hq).
    assert (os_lock s f = Some q) as Hos by (apply Hi; by rewrite Hq).
    assert (p ≠ q) as Hne by (intros ->; by rewrite Hq in Hp).
    assert (phases s1 p = phases s p) as Hp1 by by eapply step_others.
    unfold step in Hs. rewrite Hq in Hs. injection Hs as <-.
    destruct (look_held (set_phase q Exited (close_all q s)) p f) as (s2 & found & Hl & _ & Hcase);
      [by rewrite Hp1|done|]. simpl in Hcase. rewrite Hos, decide_True, Hm in Hcase by done.
    destruct Hcase as (-> & ? & _). by exists s2.
Qed.

(** C31: In every interleaving of any number of processes, whatever their calls
    answer and whenever one exits: at most one process has the entry lock, whether
    it made the file or took an abandoned one over; [path] names the file it holds,
    so that what its release deletes is its own lock; and no step but its release
    deletes a lock or puts another in its place.  A look with no other process in
    between always comes to a verdict: a lock that is not there is taken, in a file
    made and marked for it; one whose OS lock is held is its running holder's; one
    whose OS lock is free is taken over in place when it is marked, and otherwise
    left to a holder that cannot be told to have exited; and a look that does not
    take the lock leaves it as it was.  So the lock of a holder that exits, however
    it does, once its file is marked, goes to the next process that looks. *)
Theorem entry_lock_spec s :
  reachable s →
  ((∀ p q f g, owns (phases s p) = Some f → owns (phases s q) = Some g → p = q ∧ f = g) ∧
  (∀ p f, owns (phases s p) = Some f → at_path s = Some f) ∧
  (∀ p a s' f, step s p a = Some s' → at_path s = Some f → at_path s' ≠ Some f →
    a = Release ∧ at_path s' = None ∧ ∃ b, phases s p = Holding f b) ∧
  (∀ p a s' q f, step s p a = Some s' → owns (phases s q) = Some f → p ≠ q →
    owns (phases s' q) = Some f ∧ at_path s' = Some f)) ∧
  ∀ p,
    may_look (phases s p) = true →
    (∃ s' found, look p s = Some (s', found) ∧
      match at_path s with
      | None => found = Acquired ∧ phases s' p = Holding (next_file s) true ∧
          at_path s' = Some (next_file s) ∧ marked (contents s' (next_file s)) = true
      | Some f =>
          at_path s' = Some f ∧
          match os_lock s f with
          | Some _ => found = HeldByRunningHolder ∧ same_lock s s'
          | None =>
              if marked (contents s f) then
                found = Acquired ∧ phases s' p = Holding f true ∧ os_lock s' f = Some p ∧
                marked (contents s' f) = true
              else found = HeldByUnknownHolder ∧ same_lock s s'
          end
      end) ∧
    (∀ q f s1, phases s q = Holding f true → marked (contents s f) = true → step s q Exit = Some s1 →
      ∃ s2, look p s1 = Some (s2, Acquired) ∧ phases s2 p = Holding f true).
Proof. intros Hr. split; [by apply one_holder|]. intros p. by apply look_verdict. Qed.

(** *** A concrete history

    Process 1 makes the lock and holds it; process 2 waits; 1 is killed; 2 looks
    again, has taken the OS lock, and process 3 looks too. *)
Module Once.
Definition makes (p : pid) : list (pid * action) := [(p, Look); (p, Call Works); (p, Call Works); (p, Call Works)].
Definition waits (p : pid) : list (pid * action) :=
  [(p, Look); (p, Call Works); (p, Call Works); (p, Call Works); (p, Call Works)].
Definition takes_over (p : pid) : list (pid * action) := waits p ++ [(p, Call Works); (p, Call Works)].

Definition held : lock_state := default lock_init (run lock_init (makes 1 ++ waits 2)).
Definition orphaned : lock_state := default lock_init (run held [(1, Exit)]).
Definition recovered : lock_state := default lock_init (run orphaned (takes_over 2 ++ waits 3)).

Lemma held_reachable : reachable held.
Proof. apply (run_reachable lock_init (makes 1 ++ waits 2)); [apply reachable_init|vm_compute; reflexivity]. Qed.

Lemma recovered_reachable : reachable recovered.
Proof.
  apply (run_reachable orphaned (takes_over 2 ++ waits 3)); [|vm_compute; reflexivity].
  apply (run_reachable held [(1, Exit)]); [apply held_reachable|vm_compute; reflexivity].
Qed.

Lemma entry_lock_spec_witness :
  phases recovered 2 = Holding 0 true ∧ phases recovered 3 = Waiting HeldByRunningHolder ∧
  at_path recovered = Some 0 ∧ (∀ p f, owns (phases recovered p) = Some f → p = 2) ∧
  phases held 1 = Holding 0 true ∧
  ∃ s2, look 4 (set_phase 1 Exited (close_all 1 held)) = Some (s2, Acquired) ∧ phases s2 4 = Holding 0 true.
Proof.
  split_and!; [vm_compute; reflexivity..| |vm_compute; reflexivity|].
  - intros p f Hp. apply (proj1 (proj1 (proj1 (entry_lock_spec recovered recovered_reachable)) p 2 f 0 Hp eq_refl)).
  - apply (proj2 (proj2 (entry_lock_spec held held_reachable) 4 eq_refl) 1 0); vm_compute; reflexivity.
Defined.
End Once.
