(* ===== verification/GitIncludes.v ===== *)
(** * GitIncludes: the cache Git includes are cloned into

    The cache of [ratect-core/src/git_include.rs]: [SystemGitClient],
    [GitIncludeCache] and what they call.  The cache's directory is a map from
    names to what they are, which other processes change between any two of this
    process's calls: [others] is what they do to it before the call a tick counts.
    A call may fail, and [git], [toml], [sha2] and [uuid] are an interface.  What
    is asked for and printed is recorded, in order; [cs_seen] is every directory
    this process left for others to find.  Looks at the entry lock are answered
    by [EntryLock]'s machine, in time; a name in the cache stands for its path. *)

From S2P Require Import Prelude Text Collections Dockerignore Paths IncludeTrust Io EntryLock.
From stdpp Require Import sorting options.

(** ** Keys *)

(** [str::as_bytes], of chars below U+0100. *)
Definition utf8 (s : string) : list N :=
  chars s ≫= λ c,
    if (code c <? 128)%N then [code c] else [(192 + code c / 64)%N; (128 + code c mod 64)%N].

(** [usize::to_le_bytes] *)
Fixpoint le_bytes (count : nat) (n : N) : list N :=
  match count with
  | O => []
  | S count => (n mod 256)%N :: le_bytes count (n / 256)%N
  end.

Definition len_bytes (bytes : list N) : list N := le_bytes 8 (N.of_nat (length bytes)).

(** What the hasher is fed. *)
Definition key_input (remote : Remote) (git_ref : string) : list N :=
  len_bytes (utf8 remote) ++ utf8 remote ++ len_bytes (utf8 git_ref) ++ utf8 git_ref.

Class Sha2 := { sha256 : list N → list N }.

(** [format!("{byte:02x}")] *)
Definition hex_byte (byte : N) : list ascii := [hex_digit (byte / 16); hex_digit (byte mod 16)].

Definition cache_key `{!Sha2} (remote : Remote) (git_ref : string) : string :=
  of_chars (sha256 (key_input remote git_ref) ≫= hex_byte).

Definition STAGING_INFIX : string := ".tmp-".
Definition info_name (key : string) : string := key +:+ ".toml".
Definition lock_name (key : string) : string := key +:+ ".lock".
Definition staging_name (key unique : string) : string := key +:+ STAGING_INFIX +:+ unique.

(** ** Sidecars *)

(** [toml::Value], of which a sidecar's own fields are text, integers and a
    table. *)
Inductive InfoValue :=
| InfoString (s : string)
| InfoInteger (z : Z)
| InfoTable (t : list (string * InfoValue))
| InfoOther (written : string).
Notation Info := (list (string * InfoValue)).

Fixpoint info_get (t : Info) (key : string) : option InfoValue :=
  match t with
  | [] => None
  | (k, v) :: t => if decide (k = key) then Some v else info_get t key
  end.

(** [toml::Table::insert] *)
Fixpoint info_insert (t : Info) (key : string) (value : InfoValue) : Info :=
  match t with
  | [] => [(key, value)]
  | (k, v) :: t => if decide (k = key) then (k, value) :: t else (k, v) :: info_insert t key value
  end.

Record CacheInfo := mk_info {
  ci_kind : string;
  ci_remote : Remote;
  ci_git_ref : string;
  ci_cloned_with_version : string;
  ci_last_used : N;
}.

(** [toml::Table::try_from], and [toml::from_str] of the same fields. *)
Definition info_table (i : CacheInfo) : Info :=
  [("cloned_with_version", InfoString (ci_cloned_with_version i));
   ("last_used", InfoInteger (Z.of_N (ci_last_used i)));
   ("repo", InfoTable [("ref", InfoString (ci_git_ref i)); ("remote", InfoString (ci_remote i))]);
   ("type", InfoString (ci_kind i))].

Definition info_string (t : Info) (key : string) : option string :=
  match info_get t key with Some (InfoString s) => Some s | _ => None end.

Definition info_of (t : Info) : option CacheInfo :=
  kind ← info_string t "type";
  repo ← match info_get t "repo" with Some (InfoTable repo) => Some repo | _ => None end;
  remote ← info_string repo "remote";
  git_ref ← info_string repo "ref";
  version ← info_string t "cloned_with_version";
  last_used ← match info_get t "last_used" with
              | Some (InfoInteger z) => if (0 <=? z)%Z then Some (Z.to_N z) else None
              | _ => None
              end;
  Some (mk_info kind remote git_ref version last_used).

Class TomlCrate := {
  toml_parse : string → option Info;
  toml_print : Info → option string;
}.

(** ** The cache's directory, and who changes it *)

(** A name is a file's or a directory's: what it holds is [T]. *)
Inductive node (T : Type) :=
| FileNode (text : string)
| DirNode (tree : T).
#[global] Arguments FileNode {T} text.
#[global] Arguments DirNode {T} tree.

Notation directory T := (gmap string (node T)).

Definition is_dir {T} (d : directory T) (name : string) : bool :=
  match d !! name with Some (DirNode _) => true | _ => false end.
Definition exists_at {T} (d : directory T) (name : string) : bool := bool_decide (is_Some (d !! name)).

(** What running [git] came to. *)
Inductive git_status := GitNotRun | GitExited (success : bool).

(** Each answer may depend on when it is asked for; the numbers are ticks. *)
Class CacheWorld (T : Type) := {
  others : nat → directory T → directory T;
  fails : nat → bool;
  (** What a directory holds once its removal has failed part way. *)
  torn : nat → T → T;
  (** [git clone], and what it leaves where it was told to clone. *)
  git_clone : nat → Remote → git_status * option T;
  (** [git checkout], in what is there. *)
  git_checkout : nat → string → option T → git_status * option T;
  is_empty : T → bool;
  tree_size : T → N;
  new_unique : nat → string;
  clock : nat → N;
  (** A look at the lock, none if it fails, and the time since the wait began. *)
  looks : nat → nat → option Attempt;
  elapsed : nat → nat → N;
}.

Record cache_state (T : Type) := mk_cache_state {
  cs_dir : directory T;
  cs_tick : nat;
  cs_seen : list (directory T);
}.
#[global] Arguments mk_cache_state {T}.
#[global] Arguments cs_dir {T}.
#[global] Arguments cs_tick {T}.
#[global] Arguments cs_seen {T}.

Inductive cache_request :=
| Progress (remote : Remote) (git_ref : string)
| BlankLine
| Notice (holder_running : bool)
| TakeLock (key : string)
| ReleaseLock (key : string)
| GitClone (remote : Remote) (into : string)
| GitCheckout (git_ref : string) (inside : string)
| RenameTo (from to : string)
| RemoveDir (name : string)
| RemoveFile (name : string)
| WriteInfo (name text : string).

Inductive include_error :=
| CreateRootFailed
| LockCheckFailed (key : string)
| TimedOut (holder_running : bool)
| StillWaiting (key : string)
| RepoIsFlag (remote : Remote)
| RefIsFlag (git_ref : string)
| GitUnavailable
| CloneFailed (remote : Remote)
| CheckoutFailed (git_ref : string) (remote : Remote)
| RenameFailed (from to : string)
| RemoveCloneFailed (name : string)
| RemoveInfoFailed (name : string)
| InfoUnreadable (name : string)
| InfoUnparsable (name : string)
| ClockTooLate (name : string)
| InfoUnprintable
| InfoUnwritable (name : string)
| ListFailed.

(** The outcome of one system call on a name. *)
Inductive io_answer := Done | NotFound | IoFailed.
#[global] Instance io_answer_eq_dec : EqDecision io_answer.
Proof. solve_decision. Defined.

(** One of the cache's entries. *)
Record CachedInclude := mk_cached {
  en_key : string;
  en_remote : Remote;
  en_git_ref : string;
  en_last_used : N;
  en_size_bytes : N;
}.

Record Failure := mk_failure { fl_entry : CachedInclude; fl_error : include_error }.
Record CacheOutcome := mk_outcome { oc_succeeded : list CachedInclude; oc_failed : list Failure }.

Section cache.
Context {T : Type} `{!CacheWorld T, !Sha2, !TomlCrate}.
#[local] Notation act A := (Io.action (cache_state T) cache_request include_error A%type).

(** ** Calls *)

(** A system call: the others' changes first, then its own. *)
Definition sys {A} (f : nat → directory T → directory T * result A include_error) : act A := λ w,
  let n := cs_tick w in
  let '(d, a) := f n (others n (cs_dir w)) in
  (mk_cache_state d (S n) (cs_seen w ++ [d]), [], a).

Definition say (r : cache_request) : act () := act_ask r (λ w, (w, Ok tt)).

(** [Path::exists] and [Path::is_dir]: [false] when they cannot tell. *)
Definition path_exists (name : string) : act bool :=
  sys (λ n d, (d, Ok (negb (fails n) && exists_at d name))).
Definition path_is_dir (name : string) : act bool :=
  sys (λ n d, (d, Ok (negb (fails n) && is_dir d name))).

Definition unique : act string := sys (λ n d, (d, Ok (new_unique n))).
Definition now : act N := sys (λ n d, (d, Ok (clock n))).

(** [read_dir]; an entry it then fails to give is [next_entry]'s. *)
Definition read_root : act (option (list string)) :=
  sys (λ n d, (d, Ok (if fails n then None else Some (map_to_list d).*1))).
Definition next_entry : act bool := sys (λ n d, (d, Ok (negb (fails n)))).

Definition remove_dir_all (name : string) : act io_answer :=
  do! _ := say (RemoveDir name) in
  sys (λ n d,
    match d !! name with
    | None => (d, Ok (if fails n then IoFailed else NotFound))
    | Some (FileNode _) => (d, Ok IoFailed)
    | Some (DirNode tree) =>
        if fails n then (<[name := DirNode (torn n tree)]> d, Ok IoFailed) else (delete name d, Ok Done)
    end).

Definition remove_file (name : string) : act io_answer :=
  do! _ := say (RemoveFile name) in
  sys (λ n d,
    if fails n then (d, Ok IoFailed) else
    match d !! name with
    | None => (d, Ok NotFound)
    | Some (FileNode _) => (delete name d, Ok Done)
    | Some (DirNode _) => (d, Ok IoFailed)
    end).

(** What may be at [to] for a rename of [x] to work. *)
Definition gives_way (x : node T) (there : option (node T)) : bool :=
  match x, there with
  | _, None => true
  | DirNode _, Some (DirNode tree) => is_empty tree
  | FileNode _, Some (FileNode _) => true
  | _, _ => false
  end.

Definition rename_to (from to : string) : act io_answer :=
  do! _ := say (RenameTo from to) in
  sys (λ n d,
    match d !! from with
    | None => (d, Ok (if fails n then IoFailed else NotFound))
    | Some x =>
        if negb (fails n) && gives_way x (d !! to) then (<[to := x]> (delete from d), Ok Done)
        else (d, Ok IoFailed)
    end).

(** [fs::read_to_string]: none if there is no such file. *)
Definition read_file (name : string) (e : include_error) : act (option string) :=
  sys (λ n d,
    if fails n then (d, Err e) else
    match d !! name with
    | None => (d, Ok None)
    | Some (FileNode text) => (d, Ok (Some text))
    | Some (DirNode _) => (d, Err e)
    end).

(** [fs::write]; one that fails may have made the file. *)
Definition write_file (name text : string) : act () :=
  do! _ := say (WriteInfo name text) in
  sys (λ n d,
    match d !! name with
    | Some (DirNode _) => (d, Err (InfoUnwritable name))
    | _ =>
        if fails n then (<[name := FileNode EmptyString]> d, Err (InfoUnwritable name))
        else (<[name := FileNode text]> d, Ok tt)
    end).

(** ** [SystemGitClient] *)

Definition put_tree (name : string) (tree : option T) (d : directory T) : directory T :=
  match tree with Some tree => <[name := DirNode tree]> d | None => delete name d end.

Definition tree_at (d : directory T) (name : string) : option T :=
  match d !! name with Some (DirNode tree) => Some tree | _ => None end.

Definition clone_repo (remote : Remote) (git_ref destination : string) : act () :=
  do! _ := act_ensure (negb (starts_with "-" remote)) (RepoIsFlag remote) in
  do! _ := act_ensure (negb (starts_with "-" git_ref)) (RefIsFlag git_ref) in
  do! _ := say (GitClone remote destination) in
  do! cloned := sys (λ n d, let '(status, tree) := git_clone n remote in (put_tree destination tree d, Ok status)) in
  match cloned with
  | GitNotRun => act_fail GitUnavailable
  | GitExited false => act_fail (CloneFailed remote)
  | GitExited true =>
      do! _ := say (GitCheckout git_ref destination) in
      do! out := sys (λ n d,
        let '(status, tree) := git_checkout n git_ref (tree_at d destination) in
        (put_tree destination tree d, Ok status)) in
      match out with
      | GitNotRun => act_fail GitUnavailable
      | GitExited false => act_fail (CheckoutFailed git_ref remote)
      | GitExited true => act_ret tt
      end
  end.

(** ** Removal *)

Definition remove_entry_files (key : string) : act () :=
  do! copy := remove_dir_all key in
  match copy with
  | IoFailed => act_fail (RemoveCloneFailed key)
  | _ =>
      do! info := remove_file (info_name key) in
      match info with
      | IoFailed => act_fail (RemoveInfoFailed (info_name key))
      | _ => act_ret tt
      end
  end.

Definition remove_entry (key : string) : act () := remove_entry_files key.

Definition remove_staging_directory (staging : string) : act () :=
  do! _ := remove_dir_all staging in act_ret tt.

Fixpoint remove_staging_loop (prefix : string) (names : list string) : act () :=
  match names with
  | [] => act_ret tt
  | name :: names =>
      do! more := next_entry in
      if negb more then act_ret tt else
      do! _ := (if starts_with prefix name then remove_staging_directory name else act_ret tt) in
      remove_staging_loop prefix names
  end.

Definition remove_staging_directories (key : string) : act () :=
  do! names := read_root in
  match names with
  | None => act_ret tt
  | Some names => remove_staging_loop (key +:+ STAGING_INFIX) names
  end.

(** ** The entry lock, waited for *)

Definition LOCK_TIMEOUT : N := 5 * 60 * NANOS_PER_SEC.
Definition POLL : N := 100000000.

(** One look: whether it ends the wait, and what it prints.  [ix] looks were made,
    [held_looks] of which found it held. *)
Inductive wait_step :=
| WaitEnds (r : result () include_error)
| LookAgain (announced : bool).

Definition wait_look (key : string) (found : option Attempt) (waited : N) (announced : bool)
    (held_looks : nat) : list cache_request * wait_step :=
  match found with
  | None => ([], WaitEnds (Err (LockCheckFailed key)))
  | Some Acquired => ([TakeLock key], WaitEnds (Ok tt))
  | Some held =>
      let holder_running := bool_decide (held = HeldByRunningHolder) in
      let says := negb announced && (holder_running || (1 <? S held_looks)) in
      (if says then [Notice holder_running] else [],
       if (LOCK_TIMEOUT <? waited)%N then WaitEnds (Err (TimedOut holder_running))
       else LookAgain (announced || says))
  end.

(** The loop; none if the looks run out. *)
Fixpoint wait_loop (fuel tick : nat) (key : string) (announced : bool) (held_looks : nat) :
    option (list cache_request * result () include_error) :=
  match fuel with
  | O => None
  | S fuel =>
      let '(printed, next) :=
        wait_look key (looks tick held_looks) (elapsed tick held_looks) announced held_looks in
      match next with
      | WaitEnds r => Some (printed, r)
      | LookAgain announced =>
          '(more, r) ← wait_loop fuel tick key announced (S held_looks);
          Some (printed ++ more, r)
      end
  end.

(** Looks enough for any wait: one each [POLL], and two. *)
Definition WAIT_LOOKS : nat := N.to_nat (LOCK_TIMEOUT / POLL) + 2.

Definition acquire_lock (key : string) : act () := λ w,
  match wait_loop WAIT_LOOKS (cs_tick w) key false 0 with
  | Some (printed, r) => (mk_cache_state (cs_dir w) (S (cs_tick w)) (cs_seen w), printed, r)
  | None => (w, [], Err (StillWaiting key))
  end.

(** A failure is only logged. *)
Definition release_lock (key : string) : act () := say (ReleaseLock key).

(** ** Loads *)

(** The [match] on the rename of a finished clone. *)
Definition put_in_place (staging key : string) : act () :=
  do! moved := rename_to staging key in
  match moved with
  | Done => act_ret tt
  | _ =>
      do! won := path_is_dir key in
      do! _ := remove_staging_directory staging in
      act_ensure won (RenameFailed staging key)
  end.

(** A clone made in [staging], from its announcement on. *)
Definition clone_staged (remote : Remote) (git_ref key staging : string) : act () :=
  do! _ := say (Progress remote git_ref) in
  do! cloned := act_try (clone_repo remote git_ref staging) in
  match cloned with
  | Err e => do! _ := remove_staging_directory staging in act_fail e
  | Ok _ => do! _ := put_in_place staging key in say BlankLine
  end.

Definition clone_if_missing (remote : Remote) (git_ref key : string) : act () :=
  do! there := path_exists key in
  if there : bool then act_ret tt else
  do! _ := remove_staging_directories key in
  do! u := unique in
  clone_staged remote git_ref key (staging_name key u).

(** What a sidecar becomes when its entry is used. *)
Definition used_info (before : Info) (last_used : N) : Info :=
  info_insert before "last_used" (InfoInteger (Z.of_N last_used)).

Definition CARGO_PKG_VERSION : string := "0.34.0-dev".

Definition fresh_info (remote : Remote) (git_ref : string) : Info :=
  info_table (mk_info "git" remote git_ref CARGO_PKG_VERSION 0).

Definition update_info_file (remote : Remote) (git_ref key : string) : act () :=
  let name := info_name key in
  do! text := read_file name (InfoUnreadable name) in
  do! before := act_lift (match text with
                          | Some text => ok_or (toml_parse text) (InfoUnparsable name)
                          | None => Ok (fresh_info remote git_ref)
                          end) in
  do! last_used := now in
  do! _ := act_ensure (last_used <? 2 ^ 63)%N (ClockTooLate name) in
  do! text := act_lift (ok_or (toml_print (used_info before last_used)) InfoUnprintable) in
  do! u := unique in
  let temp := name +:+ "." +:+ u +:+ ".tmp" in
  do! _ := write_file temp text in
  do! moved := rename_to temp name in
  act_ensure (bool_decide (moved = Done)) (InfoUnwritable name).

(** [create_dir_all] of the cache's directory. *)
Definition create_root : act () :=
  sys (λ n d, (d, ensure (negb (fails n)) CreateRootFailed)).

(** The name of the working copy. *)
Definition ensure_cached (remote : Remote) (git_ref : string) : act string :=
  do! _ := create_root in
  let key := cache_key remote git_ref in
  do! there := path_exists key in
  do! _ :=
    (if there : bool then act_ret tt else
     do! _ := acquire_lock key in
     do! cloned := act_try (clone_if_missing remote git_ref key) in
     do! _ := release_lock key in
     act_lift cloned) in
  do! _ := update_info_file remote git_ref key in
  act_ret key.

(** [cached_working_copy], for who must not clone: one look at the directory. *)
Definition cached_working_copy (remote : Remote) (git_ref : string) : act (option string) :=
  let key := cache_key remote git_ref in
  do! there := path_is_dir key in
  act_ret (if there : bool then Some key else None).

(** ** Entries *)

Definition file_stem (name : string) : option string := fst <$> rsplit_once "." name.

(** What one name of the directory comes to; none when it is not an entry's, or
    is logged and skipped. *)
Definition read_entry (name : string) : act (option CachedInclude) :=
  if bool_decide (extension name = Some "toml") then
    do! text := act_try (read_file name (InfoUnreadable name)) in
    act_ret (text ← (match text with Ok text => text | Err _ => None end);
             table ← toml_parse text;
             info ← info_of table;
             key ← file_stem name;
             Some (mk_cached key (ci_remote info) (ci_git_ref info) (ci_last_used info) 0))
  else act_ret None.

Fixpoint read_entries_loop (names : list string) : act (list CachedInclude) :=
  match names with
  | [] => act_ret []
  | name :: names =>
      do! more := next_entry in
      if negb more then act_fail ListFailed else
      do! entry := read_entry name in
      do! found := read_entries_loop names in
      act_ret (option_list entry ++ found)
  end.

Definition read_entries : act (list CachedInclude) :=
  do! names := read_root in
  match names with
  | None => act_fail ListFailed
  | Some names => read_entries_loop names
  end.

(** By [last_used], then by key. *)
Definition entry_le (left right : CachedInclude) : Prop :=
  (en_last_used left < en_last_used right)%N ∨
  en_last_used left = en_last_used right ∧ str_le (en_key left) (en_key right).
#[global] Instance entry_le_dec : RelDecision entry_le.
Proof. intros ??. unfold entry_le. apply _. Defined.

Definition directory_size (name : string) : act N :=
  sys (λ n d, (d, Ok (match tree_at d name with Some tree => tree_size tree | None => 0%N end))).

Fixpoint with_sizes (entries : list CachedInclude) : act (list CachedInclude) :=
  match entries with
  | [] => act_ret []
  | e :: entries =>
      do! size := directory_size (en_key e) in
      do! rest := with_sizes entries in
      act_ret (mk_cached (en_key e) (en_remote e) (en_git_ref e) (en_last_used e) size :: rest)
  end.

Definition list_includes : act (list CachedInclude) :=
  do! entries := read_entries in with_sizes (merge_sort entry_le entries).

Definition no_outcome : CacheOutcome := mk_outcome [] [].

(** One entry acted on: the outcome so far, and what came of it. *)
Definition noted (entry : CachedInclude) (r : result () include_error) (o : CacheOutcome) : CacheOutcome :=
  match r with
  | Ok _ => mk_outcome (oc_succeeded o ++ [entry]) (oc_failed o)
  | Err e => mk_outcome (oc_succeeded o) (oc_failed o ++ [mk_failure entry e])
  end.

Fixpoint each_entry (body : CachedInclude → act ()) (entries : list CachedInclude) (o : CacheOutcome) :
    act CacheOutcome :=
  match entries with
  | [] => act_ret o
  | entry :: entries =>
      do! r := act_try (body entry) in
      each_entry body entries (noted entry r o)
  end.

Definition old_enough (minimum_age : option N) (now : N) (entry : CachedInclude) : bool :=
  match minimum_age with
  | Some age => (as_secs age <? now - en_last_used entry)%N
  | None => true
  end.

(** [continue] for the entries that are not old enough. *)
Definition clean (minimum_age : option N) : act CacheOutcome :=
  do! now := now in
  do! entries := read_entries in
  each_entry (λ entry, remove_entry (en_key entry))
    (filter (λ entry, old_enough minimum_age now entry = true) entries) no_outcome.

Definition refresh_entry (entry : CachedInclude) : act () :=
  do! _ := remove_entry (en_key entry) in
  do! _ := ensure_cached (en_remote entry) (en_git_ref entry) in
  act_ret tt.

Definition refresh : act CacheOutcome :=
  do! entries := read_entries in each_entry refresh_entry entries no_outcome.

Definition STALE_AFTER : N := 30 * 24 * 60 * 60 * NANOS_PER_SEC.

Fixpoint remove_keys (keys : list string) : act () :=
  match keys with
  | [] => act_ret tt
  | key :: keys => do! _ := act_try (remove_entry key) in remove_keys keys
  end.

Definition cleanup_stale : act () :=
  do! now := now in
  do! entries := read_entries in
  remove_keys (en_key <$> filter (λ entry, (as_secs STALE_AFTER <? now - en_last_used entry)%N = true) entries).
End cache.
