(* ===== verification/GitIncludesSpec.v ===== *)
(** * GitIncludesSpec: what the cache of Git includes promises

    Of [GitIncludes], whatever other processes do to the directory between two
    calls, and whichever calls fail: a working copy is never anything but a
    finished clone of its own include, a clone is made under the entry lock, a
    wait for that lock ends, and a removal acts on the entries it says. *)

From S2P Require Import Prelude Text Collections Dockerignore Paths IncludeTrust Io EntryLock GitIncludes.
From stdpp Require Import sorting options.

(** ** Keys *)

Lemma le_bytes_length count n : length (le_bytes count n) = count.
Proof. revert n. induction count; intros; simpl; by f_equal. Qed.

Lemma le_bytes_inj count n m :
  (n < 256 ^ N.of_nat count)%N → (m < 256 ^ N.of_nat count)%N → le_bytes count n = le_bytes count m → n = m.
Proof.
  revert n m. induction count as [|count IH]; intros n m Hn Hm; [simpl in *; lia|].
  rewrite Nat2N.inj_succ, N.pow_succ_r' in Hn, Hm. intros [= Hmod Hrest].
  assert (n / 256 = m / 256)%N as Hdiv by (apply IH; [apply N.Div0.div_lt_upper_bound..|]; done).
  rewrite (N.div_mod' n 256), (N.div_mod' m 256). congruence.
Qed.

Lemma utf8_char_inj c d l k :
  (if (code c <? 128)%N then [code c] else [(192 + code c / 64)%N; (128 + code c mod 64)%N]) ++ l =
  (if (code d <? 128)%N then [code d] else [(192 + code d / 64)%N; (128 + code d mod 64)%N]) ++ k →
  code c = code d ∧ l = k.
Proof.
  assert (code c < 256)%N by apply code_lt. assert (code d < 256)%N by apply code_lt.
  destruct (N.ltb_spec (code c) 128), (N.ltb_spec (code d) 128); cbn [app].
  - by intros [= ? ->].
  - intros [= Hc _]. revert Hc. generalize (code d / 64)%N. lia.
  - intros [= Hc _]. revert Hc. generalize (code c / 64)%N. lia.
  - intros [= Hdiv Hmod ->]. split; [|done].
    rewrite (N.div_mod' (code c) 64), (N.div_mod' (code d) 64).
    
    revert Hdiv Hmod. generalize (code c / 64)%N, (code d / 64)%N, (code c mod 64)%N, (code d mod 64)%N. lia.
Qed.

Lemma utf8_inj a b : utf8 a = utf8 b → a = b.
Proof.
  intros H. rewrite <- (of_chars_chars a), <- (of_chars_chars b). f_equal. unfold utf8 in H. revert H.
  generalize (chars a), (chars b). intros l. induction l as [|c l IH]; intros [|d k]; simpl; try done.
  - by destruct (code d <? 128)%N.
  - by destruct (code c <? 128)%N.
  - intros [Hc Hl]%utf8_char_inj. f_equal; [|by apply IH].
    rewrite <- (ascii_N_embedding c), <- (ascii_N_embedding d). unfold code in Hc. by rewrite Hc.
Qed.

(** A length at [usize]'s width. *)
Definition short (s : string) : Prop := (N.of_nat (length (utf8 s)) < 2 ^ 64)%N.

Lemma len_bytes_inj a b l k :
  short a → short b → len_bytes (utf8 a) ++ l = len_bytes (utf8 b) ++ k → 
  length (utf8 a) = length (utf8 b) ∧ l = k.
Proof.
  intros Ha Hb H. unfold len_bytes in H. apply app_inj_1 in H as [H ->]; [|by rewrite !le_bytes_length].
  split; [|done]. apply le_bytes_inj in H; [lia|exact Ha|exact Hb].
Qed.

(** The hasher is fed the same bytes for no two includes. *)
Lemma key_input_inj r g r' g' :
  short r → short g → short r' → short g' → key_input r g = key_input r' g' → r = r' ∧ g = g'.
Proof.
  intros Hr Hg Hr' Hg' H. unfold key_input in H.
  apply len_bytes_inj in H as [Hl H]; [|done..]. apply app_inj_1 in H as [H1%utf8_inj H]; [|done].
  apply len_bytes_inj in H as [_ H2%utf8_inj]; done.
Qed.

Notation bytes := (Forall (λ b, b < 256)%N).

Lemma le_bytes_bytes count n : bytes (le_bytes count n).
Proof. revert n. induction count; intros n; cbn; constructor; [by apply N.mod_lt|done]. Qed.

Lemma utf8_bytes s : bytes (utf8 s).
Proof.
  unfold utf8. induction (chars s) as [|c l IH]; cbn; [constructor|].
  pose proof (code_lt c). apply Forall_app. split; [|exact IH].
  assert (code c / 64 < 4)%N as Hd by (apply N.Div0.div_lt_upper_bound; lia).
  assert (code c mod 64 < 64)%N as Hm by by apply N.mod_lt.
  revert Hd Hm. generalize (code c / 64)%N, (code c mod 64)%N. intros high low ??.
  destruct (N.ltb_spec (code c) 128); repeat constructor; lia.
Qed.

Lemma key_input_bytes r g : bytes (key_input r g).
Proof. unfold key_input. rewrite !Forall_app. split_and!; first [apply le_bytes_bytes|apply utf8_bytes]. Qed.

(** [sha256] gives bytes, and no two of the texts it is given the same ones. *)
Class Sha2Laws `{!Sha2} := {
  sha256_bytes l : bytes l → bytes (sha256 l);
  sha256_inj l k : bytes l → bytes k → sha256 l = sha256 k → l = k;
}.

Lemma hex_digit_code n : (n < 16)%N →
  hex_digit n ≠ "."%char ∧ ∀ m, (m < 16)%N → hex_digit n = hex_digit m → n = m.
Proof.
  intros Hn. assert (∀ x, (x < 16)%N → code (hex_digit x) = (if x <? 10 then 48 + x else 87 + x)%N) as Hc.
  { intros x Hx. unfold hex_digit, code. destruct (N.ltb_spec x 10); apply N_ascii_embedding; lia. }
  split.
  - intros Hd. specialize (Hc n Hn). rewrite Hd in Hc. destruct (N.ltb_spec n 10); vm_compute code in Hc; lia.
  - intros m Hm Heq. pose proof (Hc n Hn) as H1. rewrite Heq, (Hc m Hm) in H1.
    destruct (N.ltb_spec n 10), (N.ltb_spec m 10); lia.
Qed.

Lemma nibbles b : (b < 256)%N → (b / 16 < 16)%N ∧ (b mod 16 < 16)%N.
Proof. intros Hb. split; [apply N.Div0.div_lt_upper_bound; lia|by apply N.mod_lt]. Qed.

Lemma hex_dotless l : Forall (λ b, b < 256)%N l → "."%char ∉ (l ≫= hex_byte).
Proof.
  induction 1 as [|b l Hb _ IH]; [apply not_elem_of_nil|]. destruct (nibbles b Hb) as [H1 H2].
  cbn. rewrite !elem_of_cons. intros [E|[E|E]]; [..|done];
    symmetry in E; by apply hex_digit_code in E.
Qed.

Lemma hex_inj l k :
  Forall (λ b, b < 256)%N l → Forall (λ b, b < 256)%N k → l ≫= hex_byte = k ≫= hex_byte → l = k.
Proof.
  intros Hl. revert k. induction Hl as [|b l Hb _ IH]; intros [|c k] Hk; cbn; try done.
  apply Forall_cons in Hk as [Hc Hk]. intros [= H1 H2 H3]. destruct (nibbles b Hb), (nibbles c Hc).
  apply hex_digit_code in H1, H2; try done. f_equal; [|by apply IH].
  rewrite (N.div_mod' b 16), (N.div_mod' c 16). congruence.
Qed.

Section keys.
Context `{!Sha2, !Sha2Laws}.
#[local] Set Default Proof Using "All".

Lemma cache_key_dotless r g : "."%char ∉ chars (cache_key r g).
Proof. unfold cache_key. rewrite chars_of_chars. apply hex_dotless, sha256_bytes, key_input_bytes. Qed.

Lemma cache_key_inj r g r' g' :
  short r → short g → short r' → short g' → cache_key r g = cache_key r' g' → r = r' ∧ g = g'.
Proof.
  intros ???? Heq. apply key_input_inj; [done..|]. apply sha256_inj; [apply key_input_bytes..|]. apply hex_inj; [apply sha256_bytes, key_input_bytes..|].
  rewrite <- (chars_of_chars (_ ≫= _)). fold (cache_key r g). by rewrite Heq, <- (chars_of_chars (sha256 (key_input r' g') ≫= _)).
Qed.

(** A name with a dot is no include's key. *)
Lemma dotted_not_key r g a b : cache_key r g ≠ a +:+ String "." b.
Proof.
  intros Heq. apply (cache_key_dotless r g). rewrite Heq, chars_app. apply elem_of_app. right. by left.
Qed.
End keys.

(** ** Working copies *)

Section copies.
Context {T : Type} `{!CacheWorld T, !Sha2}.

(** [tree] is what [git] left of a clone and a checkout that both worked. *)
Definition cloned (remote : Remote) (git_ref : string) (tree : T) : Prop :=
  ∃ n m fresh, git_clone n remote = (GitExited true, Some fresh) ∧
    git_checkout m git_ref (Some fresh) = (GitExited true, Some tree).

(** Every working copy is a finished clone of the include its key is of. *)
Definition whole (d : directory T) : Prop :=
  ∀ r g x, short r → short g → d !! cache_key r g = Some x → ∃ tree, x = DirNode tree ∧ cloned r g tree.

(** What is relied on: the others keep working copies whole and do not write in
    this process's staging directories, though they may remove one; [git] leaves
    something when it works, and does not work in nothing; and a sleep of [POLL]
    between looks takes that long. *)
Class CacheLaws := {
  others_whole n d : whole d → whole (others n d);
  others_staging n d r g m : let name := staging_name (cache_key r g) (new_unique m) in
    others n d !! name = d !! name ∨ others n d !! name = None;
  clone_leaves n r tree : git_clone n r = (GitExited true, tree) → is_Some tree;
  checkout_leaves n g from tree : git_checkout n g from = (GitExited true, tree) → is_Some from ∧ is_Some tree;
  elapsed_polls tick ix : (N.of_nat ix * POLL ≤ elapsed tick ix)%N;
}.

Lemma whole_delete d name : whole d → whole (delete name d).
Proof. intros Hd r g x Hr Hg [_ Hx]%lookup_delete_Some. by apply (Hd r g). Qed.

Lemma whole_insert d name x :
  whole d → (∀ r g, short r → short g → name = cache_key r g → ∃ tree, x = DirNode tree ∧ cloned r g tree) →
  whole (<[name := x]> d).
Proof.
  intros Hd Hx r g y Hr Hg [[Heq <-]|[_ Hy]]%lookup_insert_Some; [by apply Hx|by apply (Hd r g)].
Qed.

Lemma whole_put d name tree : whole d → (∀ r g, name ≠ cache_key r g) → whole (put_tree name tree d).
Proof.
  intros Hd Hn. destruct tree; [|by apply whole_delete]. apply whole_insert; [done|].
  intros r g _ _ Heq. by apply Hn in Heq.
Qed.

#[local] Notation act A := (Io.action (cache_state T) cache_request include_error A%type).

(** ** What a call keeps *)

Context `{!TomlCrate, !Sha2Laws, !CacheLaws}.
#[local] Set Default Proof Using "All".

(** No other process takes a name's directory away. *)
Definition undisturbed (name : string) : Prop := ∀ n d, is_dir d name = true → is_dir (others n d) name = true.

(** The directory is whole, and the copy [o] is of is there. *)
Definition sound (o : option (Remote * string)) (d : directory T) : Prop :=
  whole d ∧ ∀ r g, o = Some (r, g) → undisturbed (cache_key r g) → is_dir d (cache_key r g) = true.

Definition kept (Φ : directory T → Prop) (w : cache_state T) : Prop :=
  Φ (cs_dir w) ∧ Forall whole (cs_seen w).

Definition dotted (name : string) : Prop := ∀ r g, name ≠ cache_key r g.

Lemma sound_others o n d : sound o d → sound o (others n d).
Proof. intros [Hd Ho]. split; [by apply others_whole|]. intros r g Heq Hu. by apply Hu, Ho. Qed.

Lemma sound_delete o name d : dotted name → sound o d → sound o (delete name d).
Proof.
  intros Hn [Hd Ho]. split; [by apply whole_delete|]. intros r g Heq Hu.
  unfold is_dir. rewrite lookup_delete_ne by apply Hn. by apply Ho.
Qed.

Lemma sound_insert o name x d : dotted name → sound o d → sound o (<[name := x]> d).
Proof.
  intros Hn [Hd Ho]. split; [apply whole_insert; [done|]; intros ? ? _ _ Heq; by apply Hn in Heq|].
  intros r g Heq Hu. unfold is_dir. rewrite lookup_insert_ne by apply Hn. by apply Ho.
Qed.

Lemma sound_put o name tree d : dotted name → sound o d → sound o (put_tree name tree d).
Proof. intros Hn Hd. destruct tree; [by apply sound_insert|by apply sound_delete]. Qed.

Lemma kept_weaken (Φ Ψ : directory T → Prop) w : (∀ d, Φ d → Ψ d) → kept Φ w → kept Ψ w.
Proof. intros H' [? ?]. split; [by apply H'|done]. Qed.

Lemma sound_none o d : sound o d → sound None d.
Proof. intros [? _]. by split. Qed.

Lemma hoare_sys {A} (Φ : directory T → Prop) (f : nat → directory T → directory T * result A include_error)
    (Ψ : result A include_error → directory T → Prop) :
  (∀ n d, Φ d → let d' := (f n (others n d)).1 in whole d' ∧ Ψ (f n (others n d)).2 d') →
  hoare (kept Φ) (sys f) (λ r, kept (Ψ r)).
Proof.
  intros Hf w w' asked r [Hw Hs]. unfold sys. destruct (f (cs_tick w) (others (cs_tick w) (cs_dir w))) as [d a] eqn:E.
  intros [= <- _ <-]. specialize (Hf (cs_tick w) _ Hw). rewrite E in Hf. destruct Hf as [Hd Ha].
  split; [done|]. apply Forall_app. by split; [|constructor].
Qed.

Lemma keeps_sys {A} o (f : nat → directory T → directory T * result A include_error) :
  (∀ n d, sound o d → sound o (f n d).1) → retains (kept (sound o)) (sys f).
Proof.
  intros Hf. apply (hoare_sys _ _ (λ _, sound o)). intros n d Hd. simpl.
  pose proof (Hf n _ (sound_others o n d Hd)) as H'. split; [apply H'|exact H'].
Qed.

Lemma keeps_remove_dir o name : dotted name → retains (kept (sound o)) (remove_dir_all name).
Proof.
  intros Hn. apply retains_bind; [apply retains_ask|intros _]. apply keeps_sys. intros n d Hd.
  destruct (d !! name) as [[]|]; [done| |done]. destruct (fails n); [by apply sound_insert|by apply sound_delete].
Qed.

Lemma keeps_rename o from to : dotted from → dotted to → retains (kept (sound o)) (rename_to from to).
Proof.
  intros Hf Ht. apply retains_bind; [apply retains_ask|intros _]. apply keeps_sys. intros n d Hd.
  destruct (d !! from) as [x|]; [|done]. destruct (_ && _); [|done]. by apply sound_insert, sound_delete.
Qed.

Lemma keeps_write o name text : dotted name → retains (kept (sound o)) (write_file name text).
Proof.
  intros Hn. apply retains_bind; [apply retains_ask|intros _]. apply keeps_sys. intros n d Hd.
  destruct (d !! name) as [[]|], (fails n); by try apply sound_insert.
Qed.

Lemma keeps_read_file o name e : retains (kept (sound o)) (read_file name e).
Proof. apply keeps_sys. intros n d Hd. destruct (fails n); [done|]. by destruct (d !! name) as [[]|]. Qed.

Lemma dotted_app a b : dotted (a +:+ String "." b).
Proof. intros r g Heq. symmetry in Heq. by apply dotted_not_key in Heq. Qed.

Lemma staging_dotted key u : dotted (staging_name key u).
Proof. apply dotted_app. Qed.
Lemma info_dotted key : dotted (info_name key).
Proof. apply dotted_app. Qed.

Lemma prefixed_dotted key name : starts_with (key +:+ STAGING_INFIX) name = true → dotted name.
Proof.
  intros [t ->]%starts_with_true. assert ((key +:+ STAGING_INFIX) +:+ t = key +:+ String "." ("tmp-" +:+ t)) as ->.
  { apply chars_inj. by rewrite !chars_app, <- app_assoc. }
  apply dotted_app.
Qed.

Lemma temp_dotted key u : dotted (info_name key +:+ "." +:+ u +:+ ".tmp").
Proof. apply (dotted_app _ (u +:+ ".tmp")). Qed.

Lemma keeps_still {A} o (f : nat → directory T → directory T * result A include_error) :
  (∀ n d, (f n d).1 = d) → retains (kept (sound o)) (sys f).
Proof. intros Hf. apply keeps_sys. intros n d Hd. by rewrite Hf. Qed.

Lemma keeps_wait o key : retains (kept (sound o)) (acquire_lock key).
Proof.
  intros w w' asked r Hw. unfold acquire_lock. destruct (wait_loop _ _ _ _ _) as [[printed r1]|]; by intros [= <- _ <-].
Qed.

Lemma keeps_remove_staging o name : dotted name → retains (kept (sound o)) (remove_staging_directory name).
Proof. intros Hn. apply retains_bind; [by apply keeps_remove_dir|intros _; apply retains_ret]. Qed.

Lemma keeps_remove_stagings o key : retains (kept (sound o)) (remove_staging_directories key).
Proof.
  apply retains_bind; [by apply keeps_still|]. intros [names|]; [|apply retains_ret].
  induction names as [|name names IH]; [apply retains_ret|].
  apply retains_bind; [by apply keeps_still|]. intros []; [|apply retains_ret]. cbn [negb].
  apply retains_bind; [|intros _; exact IH].
  destruct (starts_with _ name) eqn:E; [|apply retains_ret]. by eapply keeps_remove_staging, prefixed_dotted.
Qed.

Lemma keeps_update o r g key : retains (kept (sound o)) (update_info_file r g key).
Proof.
  unfold update_info_file.
  repeat first [apply keeps_read_file | apply keeps_write, temp_dotted
               | apply keeps_rename; [apply temp_dotted|apply info_dotted]
               | apply retains_bind; [|intros ?] | apply retains_lift | by apply keeps_still].
Qed.

(** ** A clone *)

Definition staged (name : string) (r g : string) (d : directory T) : Prop :=
  d !! name = None ∨ ∃ tree, d !! name = Some (DirNode tree) ∧ cloned r g tree.

Definition half_staged (name : string) (r : string) (d : directory T) : Prop :=
  d !! name = None ∨ ∃ n tree, d !! name = Some (DirNode tree) ∧ git_clone n r = (GitExited true, Some tree).

(** A [git] command, run in [name]: sound whatever it came to, and [Ψ] when it
    worked. *)
Lemma hoare_git (Φ Ψ : directory T → Prop) name (git : nat → directory T → git_status * option T) :
  dotted name → (∀ d, Φ d → sound None d) →
  (∀ n d tree, Φ d → git n (others n d) = (GitExited true, tree) → ∃ t, tree = Some t ∧
    ∀ d', d' !! name = Some (DirNode t) → Ψ d') →
  hoare (kept Φ)
    (sys (λ n d, let '(status, tree) := git n d in (put_tree name tree d, Ok status)) : act git_status)
    (λ r, match r with
          | Ok status => kept (λ d, sound None d ∧ (status = GitExited true → Ψ d))
          | Err _ => λ _, False
          end).
Proof.
  intros Hname HΦ Hgit. eapply hoare_weaken; [apply (hoare_sys Φ _ (λ res d, sound None d ∧
    match res with Ok status => status = GitExited true → Ψ d | Err _ => False end))|done|].
  - intros n d Hd. pose proof (sound_put None name (git n (others n d)).2 _ Hname (sound_others None n d (HΦ d Hd))) as Hput.
    simpl. destruct (git n (others n d)) as [status tree] eqn:E. simpl in *.
    split; [apply Hput|]. split; [done|]. intros ->. destruct (Hgit n d tree Hd E) as (t & -> & Ht).
    apply Ht, lookup_insert_eq.
  - intros [status|e] w; [done|]. by intros [[_ []] _].
Qed.

Lemma clone_repo_sound r g key m :
  let name := staging_name (cache_key key.1 key.2) (new_unique m) in
  hoare (kept (sound None)) (clone_repo r g name)
    (λ res, kept (λ d, sound None d ∧ (res = Ok tt → staged name r g d))).
Proof.
  intros name. assert (dotted name) as Hname by apply staging_dotted.
  assert (∀ (Φ : directory T → Prop) e, (∀ d, Φ d → sound None d) → hoare (kept Φ) (act_fail e : act ())
    (λ res : result () include_error, kept (λ d, sound None d ∧ (res = Ok tt → staged name r g d)))) as Hfail.
  { intros Φ e HΦ. apply (hoare_lift _ (Err e)). intros w. apply kept_weaken. intros d Hd. split; [by apply HΦ|done]. }
  assert (∀ b e, hoare (kept (sound None)) (act_ensure b e : act ()) (λ r0 : result () include_error, match r0 with
    | Ok a => kept (sound None) | Err e => kept (λ d, sound None d ∧ (Err e = Ok tt → staged name r g d)) end)) as Hensure.
  { intros b e. apply hoare_lift. intros w Hw. unfold ensure. destruct b; [done|].
    revert Hw. apply kept_weaken. intros d Hd. by split. }
  unfold clone_repo. apply (hoare_bind _ _ _ (λ _, kept (sound None))); [apply Hensure|intros _].
  apply (hoare_bind _ _ _ (λ _, kept (sound None))); [apply Hensure|intros _].
  apply (hoare_bind _ _ _ (λ _, kept (sound None))); [by apply hoare_ask|intros _].
  apply (hoare_bind _ _ _ (λ status, kept (λ d, sound None d ∧ (status = GitExited true → half_staged name r d)))).
  { eapply hoare_weaken; [apply (hoare_git (sound None) (half_staged name r) name (λ n d, git_clone n r))|done|by intros []]; [done..|].
    intros n d tree Hd E. destruct (clone_leaves _ _ _ E) as [t ->]. exists t. split; [done|]. right. by exists n, t. }
  intros [|[]]; [by apply Hfail; intros ? []| |by apply Hfail; intros ? []].
  apply (hoare_bind _ _ _ (λ _, kept (λ d, sound None d ∧ half_staged name r d))).
  { apply hoare_ask. intros w. apply kept_weaken. intros d [? ?]. auto. }
  intros _. apply (hoare_bind _ _ _ (λ status, kept (λ d, sound None d ∧ (status = GitExited true → staged name r g d)))).
  { eapply hoare_weaken; [apply (hoare_git (λ d, sound None d ∧ half_staged name r d) (staged name r g) name (λ n d, git_checkout n g (tree_at d name)))|done|by intros []];
      [done|by intros ? []|]. intros n d tree [_ Hh] E.
    destruct (checkout_leaves _ _ _ _ E) as [[from Hfrom] [t ->]]. exists t. split; [done|]. right. exists t.
    split; [done|]. rewrite Hfrom in E. unfold tree_at in Hfrom.
    destruct (others_staging n d key.1 key.2 m) as [Ho|Ho]; fold name in Ho; rewrite Ho in Hfrom; [|done].
    destruct Hh as [Hh|(n1 & tree1 & Hh & Hc)]; rewrite Hh in Hfrom; [done|]. injection Hfrom as <-. by exists n1, n, tree1. }
  intros [|[]]; [by apply Hfail; intros ? []| |by apply Hfail; intros ? []].
  apply hoare_ret. intros w. apply kept_weaken. intros d [? ?]. auto.
Qed.

Lemma keeps_unique o :
  hoare (kept (sound o)) (unique : act string)
    (λ r, match r with Ok u => λ w, kept (sound o) w ∧ ∃ m, u = new_unique m | Err _ => λ _, False end).
Proof.
  intros w w' asked r Hw. pose proof (keeps_still o (λ n d, (d, Ok (new_unique n))) (λ _ _, eq_refl) w w' asked r Hw) as Hk.
  intros Hrun. specialize (Hk Hrun). revert Hrun. intros [= <- _ <-]. split; [exact Hk|by eexists].
Qed.

Section one_include.
Context (r g : string) (Hr : short r) (Hg : short g).
#[local] Notation key := (cache_key r g).

Lemma there_sound b d : sound None d → (b = true → is_dir d key = true) → sound (if b then Some (r, g) else None) d.
Proof.
  intros [Hd _] Hb. split; [done|]. destruct b; [|done]. intros ? ? [= <- <-] _. by apply Hb.
Qed.

(** A test for the working copy that says yes. *)
Lemma hoare_there (test : directory T → bool) :
  (∀ d, sound None d → test d = true → is_dir d key = true) →
  hoare (kept (sound None)) (sys (λ n d, (d, Ok (negb (fails n) && test d))) : act bool)
    (λ res, match res with
            | Ok b => kept (sound (if b : bool then Some (r, g) else None))
            | Err _ => λ _, False
            end).
Proof.
  intros Ht. eapply hoare_weaken; [apply (hoare_sys (sound None) _ (λ res d, match res with
    | Ok b => sound (if b : bool then Some (r, g) else None) d | Err _ => False end))|done|].
  - intros n d Hd. simpl. pose proof (sound_others None n d Hd) as Hd'. split; [apply Hd'|].
    apply there_sound; [done|]. intros [_ Hb]%andb_prop. by apply Ht.
  - intros [b|e] w; [done|]. by intros [[] _].
Qed.

Lemma exists_dir d : sound None d → exists_at d key = true → is_dir d key = true.
Proof.
  intros [Hd _] [x Hx]%bool_decide_eq_true. destruct (Hd r g x Hr Hg Hx) as (t & -> & _).
  unfold is_dir. by rewrite Hx.
Qed.

Lemma rename_sound name :
  dotted name → (∀ n d, others n d !! name = d !! name ∨ others n d !! name = None) →
  hoare (kept (λ d, sound None d ∧ staged name r g d)) (rename_to name key)
    (λ res, match res with
            | Ok moved => kept (sound (if decide (moved = Done) then Some (r, g) else None))
            | Err _ => λ _, False
            end).
Proof.
  intros Hname Ho. apply (hoare_bind _ _ _ (λ _, kept (λ d, sound None d ∧ staged name r g d)));
    [by apply hoare_ask|intros _].
  eapply hoare_weaken; [apply (hoare_sys (λ d, sound None d ∧ staged name r g d) _ (λ res d, match res with
    | Ok moved => sound (if decide (moved = Done) then Some (r, g) else None) d | Err _ => False end))|done|].
  - intros n d [Hd Hs]. pose proof (sound_others None n d Hd) as Hd'. simpl.
    destruct (others n d !! name) as [x|] eqn:Hx; [|simpl; split; [apply Hd'|]; by destruct (fails n)].
    destruct (_ && _); [|by split; [apply Hd'|]]. cbn [fst snd]. rewrite decide_True by done.
    assert (∃ t, x = DirNode t ∧ cloned r g t) as (t & -> & Ht).
    { destruct (Ho n d) as [E|E]; rewrite E in Hx; [|done].
      destruct Hs as [Hs|(t & Hs & ?)]; rewrite Hs in Hx; [done|]. injection Hx as <-. by exists t. }
    assert (whole (<[key := DirNode t]> (delete name (others n d)))) as Hw.
    { apply whole_insert; [apply whole_delete, Hd'|]. intros r' g' Hr' Hg' Heq.
      apply cache_key_inj in Heq as [<- <-]; [|done..]. by exists t. }
    split; [done|]. split; [done|]. intros ? ? [= <- <-] _. unfold is_dir. by rewrite lookup_insert_eq.
  - intros [moved|e] w; [done|]. by intros [[] _].
Qed.

Lemma put_in_place_sound name :
  dotted name → (∀ n d, others n d !! name = d !! name ∨ others n d !! name = None) →
  hoare (kept (λ d, sound None d ∧ staged name r g d)) (put_in_place name key)
    (λ res, kept (sound (if is_ok res then Some (r, g) else None))).
Proof.
  intros Hname Ho.
  apply (hoare_bind _ _ _ (λ moved, kept (sound (if decide (moved = Done) then Some (r, g) else None)))).
  { eapply hoare_weaken; [by apply rename_sound|done|by intros []]. }
  assert (hoare (kept (sound None))
    (do! won := path_is_dir key in do! _ := remove_staging_directory name in act_ensure won (RenameFailed name key) : act ())
    (λ res, kept (sound (if is_ok res then Some (r, g) else None)))) as Hlost.
  { apply (hoare_bind _ _ _ (λ b, kept (sound (if b : bool then Some (r, g) else None)))).
    { eapply hoare_weaken; [by apply (hoare_there (λ d, is_dir d key))|done|by intros []]. }
    intros b. apply (hoare_bind _ _ _ (λ _, kept (sound (if b : bool then Some (r, g) else None)))).
    { eapply hoare_weaken; [by apply keeps_remove_staging|done|]. intros [] w; [done|].
      apply kept_weaken. intros d. apply sound_none. }
    intros _. apply hoare_lift. intros w. by destruct b. }
  intros []; [by apply hoare_ret|exact Hlost|exact Hlost].
Qed.

Lemma clone_staged_sound m :
  hoare (kept (sound None)) (clone_staged r g key (staging_name key (new_unique m)))
    (λ res, kept (sound (if is_ok res then Some (r, g) else None))).
Proof.
  set (name := staging_name key (new_unique m)). assert (dotted name) as Hname by apply staging_dotted.
  apply (hoare_bind _ _ _ (λ _, kept (sound None))); [by apply hoare_ask|intros _].
  apply (hoare_bind _ _ _ (λ res, kept (λ d, sound None d ∧ (res = Ok tt → staged name r g d)))).
  { apply hoare_try. eapply hoare_weaken; [apply (clone_repo_sound r g (r, g) m)|done|]. intros res w Hw. exact Hw. }
  intros [[]|e].
  - apply (hoare_bind _ _ _ (λ _, kept (sound (Some (r, g))))).
    + eapply hoare_weaken; [apply put_in_place_sound; [done|intros n d; apply others_staging]| |by intros [[]|]].
      intros w. apply kept_weaken. intros d [? ?]. auto.
    + intros _. by apply hoare_ask.
  - apply (hoare_bind _ _ _ (λ _, kept (sound None))).
    + eapply hoare_weaken; [by apply (keeps_remove_staging None)| |by intros []].
      intros w. apply kept_weaken. by intros d [? _].
    + intros _. by apply (hoare_lift _ (Err e)).
Qed.

Lemma clone_if_missing_sound :
  hoare (kept (sound None)) (clone_if_missing r g key)
    (λ res, kept (sound (if is_ok res then Some (r, g) else None))).
Proof.
  apply (hoare_bind _ _ _ (λ b, kept (sound (if b : bool then Some (r, g) else None)))).
  { eapply hoare_weaken; [apply (hoare_there (λ d, exists_at d key)), exists_dir|done|by intros []]. }
  intros []; [by apply hoare_ret|].
  apply (hoare_bind _ _ _ (λ _, kept (sound None)));
    [eapply hoare_weaken; [apply (keeps_remove_stagings None)|done|by intros []]|intros _].
  apply (hoare_bind _ _ _ (λ u w, kept (sound None) w ∧ ∃ m, u = new_unique m));
    [eapply hoare_weaken; [apply (keeps_unique None)|done|by intros []]|intros u].
  intros w w' asked res [Hw [m ->]]. by apply clone_staged_sound.
Qed.

Lemma ensure_cached_sound :
  hoare (kept (sound None)) (ensure_cached r g)
    (λ res, match res with
            | Ok name => λ w, name = key ∧ kept (sound (Some (r, g))) w
            | Err _ => kept (sound None)
            end).
Proof.
  assert (∀ o (m : act ()), retains (kept (sound o)) m → hoare (kept (sound o)) m
    (λ res, match res with Ok _ => kept (sound o) | Err _ => kept (sound None) end)) as Hweak.
  { intros o m Hm. eapply hoare_weaken; [exact Hm|done|]. intros [] w; [done|]. apply kept_weaken.
    intros d. apply sound_none. }
  apply (hoare_bind _ _ _ (λ _, kept (sound None))); [by apply Hweak, keeps_still|intros _].
  apply (hoare_bind _ _ _ (λ b, kept (sound (if b : bool then Some (r, g) else None)))).
  { eapply hoare_weaken; [apply (hoare_there (λ d, exists_at d key)), exists_dir|done|by intros []]. }
  intros b. apply (hoare_bind _ _ _ (λ _, kept (sound (Some (r, g))))).
  { destruct b; [by apply hoare_ret|].
    apply (hoare_bind _ _ _ (λ _, kept (sound None))); [apply Hweak, keeps_wait|intros _].
    apply (hoare_bind _ _ _ (λ res, kept (sound (if is_ok res then Some (r, g) else None)))).
    { apply hoare_try, clone_if_missing_sound. }
    intros res. apply (hoare_bind _ _ _ (λ _, kept (sound (if is_ok res then Some (r, g) else None)))); [by apply hoare_ask|].
    intros _. apply hoare_lift. intros w. by destruct res. }
  intros _. apply (hoare_bind _ _ _ (λ _, kept (sound (Some (r, g))))).
  { eapply hoare_weaken; [apply (keeps_update (Some (r, g)))|done|]. intros [] w; [done|]. apply kept_weaken.
    intros d. apply sound_none. }
  intros _. apply hoare_ret. by intros w Hw.
Qed.
End one_include.

(** ** The wait *)

Definition is_notice (q : cache_request) : Prop := ∃ b, q = Notice b.

(** The notices still to come. *)
Definition notices_left (announced : bool) : nat := if announced then 0 else 1.

Lemma wait_look_spec key found waited announced held printed next :
  wait_look key found waited announced held = (printed, next) →
  match next with
  | WaitEnds (Ok _) => found = Some Acquired ∧ printed = [TakeLock key]
  | WaitEnds (Err e) => Forall is_notice printed ∧ length printed ≤ notices_left announced ∧
      (e = LockCheckFailed key ∧ found = None ∨
       (LOCK_TIMEOUT < waited)%N ∧ ∃ b, e = TimedOut b ∧
         found = Some (if b : bool then HeldByRunningHolder else HeldByUnknownHolder))
  | LookAgain announced' => Forall is_notice printed ∧ (waited ≤ LOCK_TIMEOUT)%N ∧
      length printed + notices_left announced' ≤ notices_left announced
  end.
Proof using Type.
  assert (∀ b (says : bool), Forall is_notice (if says then [Notice b] else [])) as Hsays.
  { intros b []; repeat constructor. by eexists. }
  unfold wait_look. destruct found as [[]|].
  - by intros [= <- <-].
  - rewrite bool_decide_true by done. destruct (N.ltb_spec LOCK_TIMEOUT waited); intros [= <- <-]; split_and!; try done.
    + by destruct announced.
    + right. split; [done|]. by exists true.
    + by destruct announced.
  - rewrite bool_decide_false by done. destruct (N.ltb_spec LOCK_TIMEOUT waited); intros [= <- <-]; split_and!; try done.
    + destruct announced, (1 <? S held); simpl; lia.
    + right. split; [done|]. by exists false.
    + destruct announced, (1 <? S held); simpl; lia.
  - intros [= <- <-]. split_and!; [constructor|simpl; lia|by left].
Qed.

Lemma wait_loop_ends fuel tick key announced held :
  0 < fuel → fuel + held = WAIT_LOOKS → is_Some (wait_loop fuel tick key announced held).
Proof.
  revert announced held. induction fuel as [|fuel IH]; intros announced held Hf Hsum; [lia|]. cbn [wait_loop].
  destruct (wait_look _ _ _ _ _) as [printed next] eqn:E. apply wait_look_spec in E.
  destruct next as [r|announced']; [by eexists|]. destruct E as (_ & Hle & _).
  destruct (IH announced' (S held)) as [[more r] ->]; [|lia|by eexists].
  pose proof (elapsed_polls tick held) as Hp. assert (N.of_nat WAIT_LOOKS = 3002%N) by done.
  unfold LOCK_TIMEOUT, POLL, NANOS_PER_SEC in *. lia.
Qed.

Lemma wait_loop_spec fuel tick key announced held printed r :
  wait_loop fuel tick key announced held = Some (printed, r) →
  ∃ notices, Forall is_notice notices ∧ length notices ≤ notices_left announced ∧
    printed = notices ++ match r with Ok _ => [TakeLock key] | Err _ => [] end ∧
    ∃ ix, held ≤ ix ∧ (∀ j, held ≤ j < ix → (elapsed tick j ≤ LOCK_TIMEOUT)%N) ∧
      match r with
      | Ok _ => looks tick ix = Some Acquired
      | Err e => e = LockCheckFailed key ∧ looks tick ix = None ∨
          (LOCK_TIMEOUT < elapsed tick ix)%N ∧ ∃ b, e = TimedOut b ∧
            looks tick ix = Some (if b : bool then HeldByRunningHolder else HeldByUnknownHolder)
      end.
Proof using Type.
  revert announced held printed. induction fuel as [|fuel IH]; intros announced held printed; [done|].
  cbn [wait_loop]. destruct (wait_look _ _ _ _ _) as [said next] eqn:E. apply wait_look_spec in E.
  destruct next as [[[]|e]|announced'].
  - destruct E as [Hf ->]. intros [= <- <-]. exists []. split_and!; [constructor|simpl; lia|done|].
    exists held. split_and!; [lia|lia|done].
  - destruct E as (? & ? & ?). intros [= <- <-]. exists said. rewrite app_nil_r. split_and!; [done..|].
    exists held. split_and!; [lia|lia|done].
  - destruct E as (Hs & Hle & Hlen). destruct (wait_loop fuel _ _ _ _) as [[more r1]|] eqn:Hrest; [|done].
    intros [= <- <-]. apply IH in Hrest as (notices & Hn & Hlen' & -> & ix & Hix & Hj & Hr).
    exists (said ++ notices). rewrite length_app, app_assoc. split_and!; [by apply Forall_app|lia|done|].
    exists ix. split_and!; [lia| |done]. intros j ?. destruct (decide (j = held)) as [->|]; [done|]. apply Hj. lia.
Qed.

(** ** What is asked for, in order *)

Definition clones (q : cache_request) : Prop := match q with GitClone _ _ => True | _ => False end.

(** Asked for while the lock is held: no clone but [r]'s. *)
Definition under_lock (r : Remote) (q : cache_request) : Prop :=
  match q with GitClone remote _ => remote = r | TakeLock _ | ReleaseLock _ => False | _ => True end.

Lemma asks_sys {A} P (f : nat → directory T → directory T * result A include_error) : asks P (sys f : act A).
Proof using Type. intros w w' asked a. unfold sys. destruct (f _ _) as [d r]. by intros [= _ <- _]. Qed.

Lemma asks_try {A} P (m : act A) : asks P m → asks P (act_try m).
Proof using Type.
  intros Hm w w' asked a. unfold act_try. destruct (m w) as [[w1 asked1] a1] eqn:E. intros [= _ <- _]. by eapply Hm.
Qed.

Lemma asks_say (P : cache_request → Prop) q : P q → asks P (say q : act ()).
Proof using Type. apply asks_ask. Qed.

Ltac asks_of :=
  repeat first [apply asks_say; solve [cbn; tauto] | apply asks_sys | apply asks_ret | apply asks_fail | apply asks_lift
               | apply asks_try | apply asks_bind; [|intros] | progress case_match].

Lemma asks_remove_stagings (P : cache_request → Prop) key : (∀ name, P (RemoveDir name)) →
  asks P (remove_staging_directories key : act ()).
Proof.
  intros HP. apply asks_bind; [apply asks_sys|intros _ _ _ [names|] _; [|apply asks_ret]].
  induction names as [|name names IH]; [apply asks_ret|]. cbn [remove_staging_loop].
  apply asks_bind; [apply asks_sys|intros _ _ _ [] _; [|apply asks_ret]]. cbn [negb].
  apply asks_bind; [|intros _ _ _ _ _; exact IH].
  case_match; [|apply asks_ret]. unfold remove_staging_directory, remove_dir_all.
  repeat first [apply asks_say, HP | apply asks_sys | apply asks_ret | apply asks_bind; [|intros]].
Qed.

Lemma clone_if_missing_asks r g key : asks (under_lock r) (clone_if_missing r g key).
Proof.
  unfold clone_if_missing. apply asks_bind; [apply asks_sys|intros _ _ _ [] _; [apply asks_ret|]].
  apply asks_bind; [by apply asks_remove_stagings|intros _ _ _ _ _].
  unfold clone_staged, clone_repo, put_in_place, rename_to, remove_staging_directory, remove_dir_all, act_ensure.
  asks_of.
Qed.

Lemma update_asks r g key : asks (λ q, ¬ clones q) (update_info_file r g key).
Proof.
  unfold update_info_file, write_file, rename_to, act_ensure. asks_of.
Qed.

Lemma acquire_lock_spec key w :
  ∃ w' notices res, acquire_lock key w = (w', notices ++ match res with Ok _ => [TakeLock key] | Err _ => [] end, res) ∧
    Forall is_notice notices ∧ length notices ≤ 1 ∧
    ∃ ix, (∀ j, j < ix → (elapsed (cs_tick w) j ≤ LOCK_TIMEOUT)%N) ∧
      match res with
      | Ok _ => looks (cs_tick w) ix = Some Acquired
      | Err e => e = LockCheckFailed key ∧ looks (cs_tick w) ix = None ∨
          (LOCK_TIMEOUT < elapsed (cs_tick w) ix)%N ∧ ∃ b, e = TimedOut b ∧
            looks (cs_tick w) ix = Some (if b : bool then HeldByRunningHolder else HeldByUnknownHolder)
      end.
Proof.
  unfold acquire_lock. destruct (wait_loop_ends WAIT_LOOKS (cs_tick w) key false 0) as [[printed r] E];
    [by apply Nat.ltb_lt; vm_compute|lia|]. rewrite E.
  apply wait_loop_spec in E as (notices & Hn & Hlen & -> & ix & _ & Hj & Hr).
  do 2 eexists. exists r. split; [done|]. split_and!; [done..|]. exists ix. split; [|done].
  intros j ?. apply Hj. lia.
Qed.

Lemma sys_asked {A} (f : nat → directory T → directory T * result A include_error) w w' asked r :
  sys f w = (w', asked, r) → asked = [].
Proof using Type. unfold sys. destruct (f _ _). by intros [= _ <- _]. Qed.

(** The requests of a load: none of them a clone, or one stretch under the lock. *)
Definition locked_clone (r : Remote) (key : string) (asked : list cache_request) : Prop :=
  Forall (λ q, ¬ clones q) asked ∨
  ∃ before during after, asked = before ++ [TakeLock key] ++ during ++ [ReleaseLock key] ++ after ∧
    Forall is_notice before ∧ Forall (under_lock r) during ∧ Forall (λ q, ¬ clones q) after.

Lemma locked_clone_app r key asked more :
  locked_clone r key asked → Forall (λ q, ¬ clones q) more → locked_clone r key (asked ++ more).
Proof using Type.
  intros [H'|(before & during & after & -> & ? & ? & ?)] Hm; [left; by apply Forall_app|].
  right. exists before, during, (after ++ more). split_and!; [by rewrite <- !app_assoc|done|done|by apply Forall_app].
Qed.

Lemma notice_no_clone notices : Forall is_notice notices → Forall (λ q, ¬ clones q) notices.
Proof using Type. intros H'. eapply Forall_impl; [exact H'|]. intros q [b ->]. cbn. tauto. Qed.

Lemma locked_block r g key w w' asked (res : result () include_error) :
  (do! _ := acquire_lock key in
   do! cloned := act_try (clone_if_missing r g key) in
   do! _ := release_lock key in
   act_lift cloned) w = (w', asked, res) → locked_clone r key asked.
Proof.
  destruct (acquire_lock_spec key w) as (w1 & notices & locked & Hrun & Hn & _).
  intros [(e & Hl & ->)|(w2 & a1 & u & a2 & Hl & Hrest & ->)]%act_bind_run;
    rewrite Hrun in Hl; injection Hl as <- <- ->.
  { left. rewrite app_nil_r. by apply notice_no_clone. }
  right. apply act_bind_run in Hrest as [(e & Hc & _)|(w3 & during & cl & a3 & Hc & Hrest & ->)].
  { unfold act_try in Hc. by destruct (clone_if_missing r g key w1) as [[??] ?]. }
  exists notices, during, []. apply act_bind_run in Hrest as [(e & [=] & _)|(w4 & a4 & [] & a5 & [= <- <-] & [= _ <- _] & ->)].
  split_and!; [by rewrite <- app_assoc|done| |constructor].
  by apply (asks_try _ _ (clone_if_missing_asks r g key)) in Hc.
Qed.

Lemma ensure_cached_trace r g w w' asked res :
  ensure_cached r g w = (w', asked, res) → locked_clone r (cache_key r g) asked.
Proof.
  unfold ensure_cached, create_root, path_exists. intros [(e & Hrun%sys_asked & ->)|(w1 & a1 & [] & a2 & Hrun%sys_asked & Hrest & ->)]%act_bind_run;
    [left; by subst|subst a1].
  apply act_bind_run in Hrest as [(e & Hrest%sys_asked & ->)|(w2 & a3 & b & a4 & Hex%sys_asked & Hrest & ->)];
    [left; by subst|subst a3]. cbn [app].
  apply act_bind_run in Hrest as [(e & Hrest & ->)|(w3 & a5 & [] & a6 & Hrest & Hu & ->)].
  - destruct b; [done|]. by eapply locked_block.
  - apply locked_clone_app.
    + destruct b; [injection Hrest as <- <-; by left|by eapply locked_block].
    + revert Hu. apply (asks_bind (λ q, ¬ clones q)); [apply update_asks|intros; apply asks_ret].
Qed.

(** What a load leaves and gives: every working copy it leaves for others to find is
    a finished clone; it gives its own include's, if at all; it clones under the lock
    alone; and its wait for the lock ends. *)
Definition load_keeps (r : Remote) (g : string) (w' : cache_state T) (asked : list cache_request)
    (res : result string include_error) : Prop :=
  whole (cs_dir w') ∧ Forall whole (cs_seen w') ∧
  (∀ name, res = Ok name → name = cache_key r g ∧
    (undisturbed name → ∃ tree, cs_dir w' !! name = Some (DirNode tree) ∧ cloned r g tree)) ∧
  locked_clone r (cache_key r g) asked ∧
  ∀ w, ∃ w1 notices held,
    acquire_lock (cache_key r g) w =
      (w1, notices ++ match held with Ok _ => [TakeLock (cache_key r g)] | Err _ => [] end, held) ∧
    Forall is_notice notices ∧ length notices ≤ 1 ∧
    ∃ ix, (∀ j, j < ix → (elapsed (cs_tick w) j ≤ LOCK_TIMEOUT)%N) ∧
      match held with
      | Ok _ => looks (cs_tick w) ix = Some Acquired
      | Err e => e = LockCheckFailed (cache_key r g) ∧ looks (cs_tick w) ix = None ∨
          (LOCK_TIMEOUT < elapsed (cs_tick w) ix)%N ∧ ∃ b, e = TimedOut b ∧
            looks (cs_tick w) ix = Some (if b : bool then HeldByRunningHolder else HeldByUnknownHolder)
      end.

Lemma ensure_cached_keeps r g w w' asked res :
  short r → short g → whole (cs_dir w) → Forall whole (cs_seen w) →
  ensure_cached r g w = (w', asked, res) → load_keeps r g w' asked res.
Proof.
  intros Hr Hg Hd Hs Hrun.
  assert (kept (sound None) w) as Hw by (split; [by split|done]).
  pose proof (ensure_cached_sound r g Hr Hg w w' asked res Hw Hrun) as Hpost.
  assert (kept (sound None) w') as [[? _] ?].
  { destruct res; [|exact Hpost]. destruct Hpost as [_ Hk]. revert Hk. apply kept_weaken. intros d. apply sound_none. }
  split_and!; [done..| | |intros w0; apply acquire_lock_spec].
  - intros name ->. destruct Hpost as [-> [[Hwhole Hthere] _]]. split; [done|]. intros Hu.
    specialize (Hthere r g eq_refl Hu). unfold is_dir in Hthere.
    destruct (cs_dir w' !! cache_key r g) as [x|] eqn:E; [|done].
    destruct (Hwhole r g x Hr Hg E) as (tree & -> & ?). by exists tree.
  - by eapply ensure_cached_trace.
Qed.
End copies.

(** ** Removal *)

Section removal.
Context {T : Type} `{!CacheWorld T, !Sha2, !TomlCrate}.
#[local] Set Default Proof Using "All".
#[local] Notation act A := (Io.action (cache_state T) cache_request include_error A%type).

Definition holds (Φ : directory T → Prop) (w : cache_state T) : Prop := Φ (cs_dir w).

Lemma sys_keeps {A} (Φ : directory T → Prop) (f : nat → directory T → directory T * result A include_error) :
  (∀ n d, Φ d → Φ (others n d)) → (∀ n d, Φ d → Φ (f n d).1) → retains (holds Φ) (sys f).
Proof.
  intros Ho Hf w w' asked r Hw. unfold sys. pose proof (Hf (cs_tick w) _ (Ho (cs_tick w) _ Hw)) as H'.
  destruct (f _ _) as [d a]. by intros [= <- _ <-].
Qed.

(** What removing one entry does to a property of the directory. *)
Definition survives (Φ : directory T → Prop) (key : string) : Prop :=
  ∀ d, Φ d → Φ (delete key d) ∧ Φ (delete (info_name key) d) ∧
    ∀ tree n, d !! key = Some (DirNode tree) → Φ (<[key := DirNode (torn n tree)]> d).

Lemma remove_entry_keeps Φ key :
  (∀ n d, Φ d → Φ (others n d)) → survives Φ key → retains (holds Φ) (remove_entry key).
Proof.
  intros Ho Hs. assert (retains (holds Φ) (remove_dir_all key)) as Hdir.
  { apply retains_bind; [apply retains_ask|intros _]. apply sys_keeps; [done|]. intros n d Hd.
    destruct (d !! key) as [[]|] eqn:E; [done| |done]. destruct (fails n); by apply Hs. }
  assert (retains (holds Φ) (remove_file (info_name key))) as Hfile.
  { apply retains_bind; [apply retains_ask|intros _]. apply sys_keeps; [done|]. intros n d Hd.
    destruct (fails n); [done|]. destruct (d !! info_name key) as [[]|]; [by apply Hs|done..]. }
  apply retains_bind; [exact Hdir|intros []]; try apply retains_fail;
    (apply retains_bind; [exact Hfile|intros []]; first [apply retains_ret|apply retains_fail]).
Qed.

Lemma read_entries_keeps Φ : (∀ n d, Φ d → Φ (others n d)) → retains (holds Φ) (read_entries : act _).
Proof.
  intros Ho. apply retains_bind; [by apply sys_keeps|intros [names|]; [|apply retains_fail]].
  induction names as [|name names IH]; [apply retains_ret|]. cbn [read_entries_loop].
  apply retains_bind; [by apply sys_keeps|intros []; [|apply retains_fail]]. cbn [negb].
  apply retains_bind; [|intros e; apply retains_bind; [exact IH|intros; apply retains_ret]].
  unfold read_entry. destruct (bool_decide _); [|apply retains_ret].
  apply retains_bind; [|intros; apply retains_ret]. apply retains_try, sys_keeps; [done|]. intros n d Hd.
  destruct (fails n); [done|]. by destruct (d !! name) as [[]|].
Qed.

Lemma each_entry_keeps P (body : CachedInclude → act ()) l o :
  (∀ e, e ∈ l → retains P (body e)) → retains P (each_entry body l o).
Proof.
  revert o. induction l as [|e l IH]; intros o Hb; [apply retains_ret|]. apply retains_bind; [apply retains_try, Hb; by left|].
  intros r. apply IH. intros e' He. apply Hb. by right.
Qed.

(** Every entry acted on is in the outcome, and once. *)
Definition accounts (l : list CachedInclude) (o o' : CacheOutcome) : Prop :=
  ∃ succeeded failed, oc_succeeded o' = oc_succeeded o ++ succeeded ∧ oc_failed o' = oc_failed o ++ failed ∧
    succeeded ++ (fl_entry <$> failed) ≡ₚ l.

Lemma each_entry_accounts (body : CachedInclude → act ()) l o w w' asked r :
  each_entry body l o w = (w', asked, r) → ∃ o', r = Ok o' ∧ accounts l o o'.
Proof.
  revert o w w' asked. induction l as [|e l IH]; intros o w w' asked.
  { intros [= _ _ <-]. exists o. split; [done|]. exists [], []. by rewrite !app_nil_r. }
  intros [(err & Ht & ->)|(w1 & a1 & res & a2 & _ & Hrest & _)]%act_bind_run.
  { unfold act_try in Ht. by destruct (body e w) as [[??] ?]. }
  apply IH in Hrest as (o' & -> & s & f & Hs & Hf & Hp). exists o'. split; [done|].
  destruct res as [[]|err]; cbn in Hs, Hf.
  - exists (e :: s), f. rewrite Hs, Hf, <- app_assoc. split_and!; [done..|]. cbn. by rewrite Hp.
  - exists s, (mk_failure e err :: f). rewrite Hs, Hf, <- app_assoc. split_and!; [done..|]. cbn.
    by rewrite <- Permutation_middle, Hp.
Qed.

Lemma remove_entry_asks key :
  asks (λ q, q = RemoveDir key ∨ q = RemoveFile (info_name key)) (remove_entry key : act ()).
Proof.
  unfold remove_entry, remove_entry_files, remove_dir_all, remove_file.
  repeat first [apply asks_say; solve [by left | by right] | apply asks_sys | apply asks_ret | apply asks_fail
               | apply asks_bind; [|intros] | progress case_match].
Qed.

Lemma each_entry_asks (P : cache_request → Prop) (body : CachedInclude → act ()) l o :
  (∀ e, e ∈ l → asks P (body e)) → asks P (each_entry body l o).
Proof.
  revert o. induction l as [|e l IH]; intros o Hb; [apply asks_ret|].
  apply asks_bind; [apply asks_try, Hb; by left|]. intros _ _ _ r _. apply IH. intros e' He. apply Hb. by right.
Qed.

Lemma read_entries_asks w w' asked r : (read_entries : act _) w = (w', asked, r) → asked = [].
Proof.
  intros Hrun. enough (Forall (λ _, False) asked) as H' by (by destruct H').
  revert Hrun. apply (asks_bind (λ _, False)); [apply asks_sys|intros _ _ _ [names|] _; [|apply asks_fail]].
  induction names as [|name names IH]; [apply asks_ret|]. cbn [read_entries_loop].
  apply asks_bind; [apply asks_sys|intros _ _ _ [] _; [|apply asks_fail]]. cbn [negb].
  apply asks_bind; [|intros; apply asks_bind; [exact IH|intros; apply asks_ret]].
  unfold read_entry. destruct (bool_decide _); [|apply asks_ret].
  apply asks_bind; [apply asks_try, asks_sys|intros; apply asks_ret].
Qed.

(** The sweep removes as a clean of the same entries does. *)
Lemma remove_keys_each l o w :
  remove_keys (en_key <$> l) w =
  let '(w', asked, r) := each_entry (λ e, remove_entry (en_key e)) l o w in (w', asked, result_map (λ _, tt) r).
Proof.
  revert o w. induction l as [|e l IH]; intros o w; [done|]. cbn [fmap list_fmap remove_keys each_entry].
  unfold act_bind at 1 2. destruct (act_try (remove_entry (en_key e)) w) as [[w1 a1] [r|err]]; [|done].
  rewrite (IH (noted e r o) w1). by destruct (each_entry _ l _ w1) as [[w2 a2] r2].
Qed.

(** No other process makes anything in the cache. *)
Definition nothing_made : Prop := ∀ n d name, d !! name = None → others n d !! name = None.

Definition gone (entry : CachedInclude) (d : directory T) : Prop :=
  d !! en_key entry = None ∧ d !! info_name (en_key entry) = None.

Lemma gone_survives entry key : survives (gone entry) key.
Proof.
  intros d [H1 H2]. split_and!; [split; by apply lookup_delete_None; right|split; by apply lookup_delete_None; right|].
  intros tree n Hk. split; rewrite lookup_insert_ne; try done; congruence.
Qed.

Lemma remove_entry_gone entry :
  nothing_made →
  hoare (λ _, True) (remove_entry (en_key entry) : act ())
    (λ r w, r = Ok tt → gone entry (cs_dir w)).
Proof.
  intros Hn. set (key := en_key entry).
  assert (∀ P e, hoare P (act_fail e : act ()) (λ r w, r = Ok tt → gone entry (cs_dir w))) as Hfail.
  { intros P e. by apply (hoare_lift _ (Err e)). }
  apply (hoare_bind _ _ _ (λ a, holds (λ d, a ≠ IoFailed → d !! key = None))).
  { apply (hoare_bind _ _ _ (λ _ _, True)); [by apply hoare_ask|intros _]. intros w w' asked r _. unfold sys.
    destruct (others (cs_tick w) (cs_dir w) !! key) as [[]|] eqn:E; [|destruct (fails (cs_tick w))|destruct (fails (cs_tick w))];
      intros [= <- _ <-]; intros Hne; cbn; first [by destruct Hne | apply lookup_delete_eq | exact E]. }
  intros a. assert (a ≠ IoFailed → hoare (holds (λ d, d !! key = None))
    (do! info := remove_file (info_name key) in
     match info with IoFailed => act_fail (RemoveInfoFailed (info_name key)) | _ => act_ret tt end : act ())
    (λ r w, r = Ok tt → gone entry (cs_dir w))) as Hinfo.
  { intros _. apply (hoare_bind _ _ _ (λ b, holds (λ d, b ≠ IoFailed → gone entry d))).
    - apply (hoare_bind _ _ _ (λ _, holds (λ d, d !! key = None))); [by apply hoare_ask|intros _].
      intros w w' asked r Hw. unfold sys. apply (Hn (cs_tick w)) in Hw. destruct (fails (cs_tick w)); [intros [= <- _ <-] Hne; by destruct Hne|].
      destruct (others (cs_tick w) (cs_dir w) !! info_name key) as [[]|] eqn:E; intros [= <- _ <-]; intros Hne; cbn;
        first [by destruct Hne | split; [by apply lookup_delete_None; right|apply lookup_delete_eq] | by split].
    - intros []; [| |apply Hfail]; apply hoare_ret; intros w Hw _; by apply Hw. }
  destruct a; [| |apply Hfail]; (eapply hoare_weaken; [by apply Hinfo| |done]; intros w Hw; by apply Hw).
Qed.

Lemma each_removed_gone l o :
  nothing_made →
  hoare (holds (λ d, ∀ e, e ∈ oc_succeeded o → gone e d)) (each_entry (λ e, remove_entry (en_key e)) l o : act _)
    (λ r, match r with Ok o' => holds (λ d, ∀ e, e ∈ oc_succeeded o' → gone e d) | Err _ => λ _, False end).
Proof.
  intros Hn. revert o. induction l as [|entry l IH]; intros o; [by apply hoare_ret|].
  apply (hoare_bind _ _ _ (λ r, holds (λ d, ∀ e, e ∈ oc_succeeded (noted entry r o) → gone e d))); [|intros r; apply IH].
  apply hoare_try. intros w w' asked r Hw Hrun e He. destruct r as [[]|err].
  - cbn in He. apply elem_of_app in He as [He| ->%list_elem_of_singleton]; [|by eapply remove_entry_gone].
    eapply (remove_entry_keeps (gone e)); [| |exact (Hw e He)|exact Hrun]; [|apply gone_survives].
    intros n d [? ?]. split; by apply Hn.
  - eapply (remove_entry_keeps (gone e)); [| |exact (Hw e He)|exact Hrun]; [|apply gone_survives].
    intros n d [? ?]. split; by apply Hn.
Qed.

Lemma untouched_survives name x key :
  name ≠ key → name ≠ info_name key → survives (λ d : directory T, d !! name = x) key.
Proof.
  intros H1 H2 d Hd. split_and!; [by rewrite lookup_delete_ne..|]. intros tree n _. by rewrite lookup_insert_ne.
Qed.

Lemma read_entries_err (w w' : cache_state T) asked e :
  (read_entries : act _) w = (w', asked, Err e) → e = ListFailed.
Proof.
  assert (∀ A (m : act A) (k : A → act (list CachedInclude)) (P : include_error → Prop),
    (∀ w w' asked e, m w = (w', asked, Err e) → P e) → (∀ a w w' asked e, k a w = (w', asked, Err e) → P e) →
    ∀ w w' asked e, act_bind m k w = (w', asked, Err e) → P e) as Hbind.
  { intros A m k P Hm Hk w0 w0' a0 e0 [?|(? & ? & ? & ? & ? & ? & _)]%act_bind_Err; eauto. }
  assert (∀ A (f : nat → directory T → A) w w' asked e,
    (sys (λ n d, (d, Ok (f n d))) : act A) w = (w', asked, Err e) → e = ListFailed) as Hsys by done.
  revert w w' asked e. apply (Hbind _ _ _ (λ e, e = ListFailed)); [apply Hsys|]. intros [names|]; [|by intros ???? [= _ _ <-]].
  induction names as [|name names IH]; [done|]. cbn [read_entries_loop].
  apply Hbind; [apply Hsys|]. intros []; [|by intros ???? [= _ _ <-]]. cbn [negb].
  apply Hbind; [|intros x; by apply Hbind].
  unfold read_entry. destruct (bool_decide _); [|done]. intros w w' asked e [Ht|(? & ? & ? & ? & _ & [=] & _)]%act_bind_Err.
  unfold act_try in Ht. by destruct (read_file _ _ _) as [[??] ?].
Qed.

(** What a clean of the entries unused for an age does. *)
Definition clean_does (minimum_age : option N) (w w' : cache_state T) (asked : list cache_request)
    (res : result CacheOutcome include_error) : Prop :=
  (minimum_age = Some STALE_AFTER → cleanup_stale w = (w', asked, result_map (λ _, tt) res)) ∧
  (asked = [] ∧ res = Err ListFailed ∨
   ∃ time entries o w1 w2, now w = (w1, [], Ok time) ∧ read_entries w1 = (w2, [], Ok entries) ∧ res = Ok o ∧
     let chosen := filter (λ e, old_enough minimum_age time e = true) entries in
     oc_succeeded o ++ (fl_entry <$> oc_failed o) ≡ₚ chosen ∧
     Forall (λ q, ∃ e, e ∈ chosen ∧ (q = RemoveDir (en_key e) ∨ q = RemoveFile (info_name (en_key e)))) asked ∧
     (∀ name, (∀ n d, others n d !! name = d !! name) →
       (∀ e, e ∈ chosen → name ≠ en_key e ∧ name ≠ info_name (en_key e)) → cs_dir w' !! name = cs_dir w !! name) ∧
     (nothing_made → ∀ e, e ∈ oc_succeeded o → gone e (cs_dir w'))).

Lemma clean_accounted minimum_age (w w' : cache_state T) asked res :
  clean minimum_age w = (w', asked, res) → clean_does minimum_age w w' asked res.
Proof.
  intros Hrun. split.
  { intros ->. revert Hrun. unfold clean, cleanup_stale, act_bind at 1 2 3 4.
    destruct (now w) as [[w1 a1] [time|e]]; [|by intros [= <- <- <-]].
    destruct (read_entries w1) as [[w2 a2] [entries|e]]; [|by intros [= <- <- <-]].
    change (λ entry, old_enough (Some STALE_AFTER) time entry = true)
      with (λ entry, (as_secs STALE_AFTER <? time - en_last_used entry)%N = true).
    rewrite (remove_keys_each _ no_outcome). destruct (each_entry _ _ _ w2) as [[w3 a3] r3]. by intros [= <- <- <-]. }
  apply act_bind_run in Hrun as [(e & [=] & _)|(w1 & a1 & time & a2 & Hnow & Hrun & ->)].
  pose proof (sys_asked _ _ _ _ _ Hnow) as ->. apply act_bind_run in Hrun as [(e & Hr & ->)|(w2 & a3 & entries & a4 & Hr & Hrun & ->)].
  { left. by rewrite (read_entries_asks _ _ _ _ Hr), (read_entries_err _ _ _ _ Hr). }
  rewrite (read_entries_asks _ _ _ _ Hr) in Hr |- *. right. exists time, entries.
  destruct (each_entry_accounts _ _ _ _ _ _ _ Hrun) as (o & -> & s & f & Hs & Hf & Hp).
  exists o, w1, w2. do 3 (split; [done|]). intros chosen. split_and!; [rewrite Hs, Hf; exact Hp|..].
  - cbn [app]. revert Hrun. apply each_entry_asks. intros e He. eapply asks_weaken; [|apply remove_entry_asks].
    intros q Hq. by exists e.
  - intros name Ho Hne. change (holds (λ d, d !! name = cs_dir w !! name) w').
    assert (∀ n d, d !! name = cs_dir w !! name → others n d !! name = cs_dir w !! name) as Ho'.
    { intros n d. by rewrite Ho. }
    assert (holds (λ d, d !! name = cs_dir w !! name) w2) as H2.
    { eapply read_entries_keeps; [exact Ho'| |exact Hr].
      eapply (sys_keeps (λ d, d !! name = cs_dir w !! name)); [exact Ho'| | |exact Hnow]; done. }
    eapply each_entry_keeps; [|exact H2|exact Hrun]. intros e He. apply remove_entry_keeps; [done|].
    destruct (Hne e He). by apply untouched_survives.
  - intros Hn. assert (holds (λ d, ∀ e, e ∈ oc_succeeded no_outcome → gone e d) w2) as H2.
    { intros e He. by apply elem_of_nil in He. }
    exact (each_removed_gone _ no_outcome Hn w2 w' a4 (Ok o) H2 Hrun).
Qed.
End removal.

Section calls.
Context {T : Type} `{!CacheWorld T, !Sha2, !TomlCrate, !Sha2Laws, !CacheLaws}.

End calls.

(** ** Concrete caches *)

Module Once.
#[global] Instance sha2 : Sha2 := {| sha256 l := l |}.
#[global] Instance sha2_laws : Sha2Laws.
Proof. by split. Qed.

#[global] Instance toml : TomlCrate := {|
  toml_parse text := if decide (text = "info") then Some (fresh_info "https://host/r.git" "1.0") else None;
  toml_print _ := Some "info" |}.

(** A working copy is [true] once it was checked out; the call of tick [broken]
    fails, and a removal that does leaves [false]. *)
Definition world (broken : nat) : CacheWorld bool := {|
  others _ d := d;
  fails n := n =? broken;
  torn _ _ := false;
  git_clone _ _ := (GitExited true, Some false);
  git_checkout _ _ from := match from with Some _ => (GitExited true, Some true) | None => (GitExited false, None) end;
  is_empty _ := false;
  tree_size _ := 1%N;
  new_unique _ := "5f3a";
  clock _ := 1700000000%N;
  looks _ ix := Some (if ix <? 2 then HeldByUnknownHolder else Acquired);
  elapsed _ ix := (N.of_nat ix * POLL)%N |}.

Definition never : nat := 1000.

Lemma world_laws broken : @CacheLaws bool (world broken) sha2.
Proof.
  split; cbn; intros; try done; [by left| |].
  - injection H as <-. by eexists.
  - destruct from; [|done]. injection H as <-. by split; eexists.
Qed.

Definition remote : Remote := "https://host/r.git".
Definition key : string := cache_key remote "1.0".
Definition start : cache_state bool := mk_cache_state ∅ 0 [].

Definition loaded := @ensure_cached bool (world never) sha2 toml remote "1.0" start.

Lemma start_whole : @whole bool (world never) sha2 (cs_dir start).
Proof. intros r g x _ _ [=]. Qed.

(** The cache after the load, cleaned of everything. *)
Definition after : cache_state bool := mk_cache_state (cs_dir loaded.1.1) 0 [].

Definition cleaned := @clean bool (world never) toml None after.
Definition entry : CachedInclude := mk_cached key remote "1.0" 0 0.


(** An entry unused for exactly the age given is kept. *)
Example exact_age_kept : old_enough (Some STALE_AFTER) (30 * 24 * 60 * 60) entry = false.
Proof. vm_compute. reflexivity. Qed.

(** A removal that fails part way reports its entry, and leaves at its key what it
    had not removed; the next load takes that for the working copy, without a
    clone, though no clone left it. *)
Theorem torn_removal_is_loaded :
  let torn := @clean bool (world 5) toml None after in
  let again := @ensure_cached bool (world never) sha2 toml remote "1.0" torn.1.1 in
  (∃ o, torn.2 = Ok o ∧ oc_succeeded o = [] ∧ oc_failed o = [mk_failure entry (RemoveCloneFailed key)]) ∧
  again.2 = Ok key ∧ Forall (λ q, ¬ clones q) again.1.2 ∧
  cs_dir again.1.1 !! key = Some (DirNode false) ∧ ¬ @cloned bool (world never) remote "1.0" false.
Proof.
  intros torn again. split_and!.
  - eexists. split; [vm_compute; reflexivity|by vm_compute].
  - by vm_compute.
  - vm_compute. repeat constructor; tauto.
  - by vm_compute.
  - by intros (n & m & fresh & _ & [=]).
Qed.
End Once.
