(* ===== verification/ConnectionSpec.v ===== *)
(** * ConnectionSpec: the daemon asked for is the daemon reached, as safely as asked

    [connect_spec]: what a connection that is made is to, what chose it, and that
    nothing that asks for TLS gives a plain connection, or one verified against
    anything but the certificates that were named. *)

From S2P Require Import Prelude Text Collections Dockerignore Paths IncludeTrust WrittenFor Includes Evaluate Connection.
From S2P Require GitIncludes LexicalClean Validate.
From stdpp Require Import options.

(** ** Options *)

Lemma non_empty_Some v s : non_empty v = Some s ↔ v = Some s ∧ s ≠ EmptyString.
Proof. destruct v as [s'|]; cbn; [|naive_solver]. case_bool_decide; naive_solver. Qed.

Lemma non_empty_None v : non_empty v = None ↔ v = None ∨ v = Some EmptyString.
Proof. destruct v as [s'|]; cbn; [|naive_solver]. case_bool_decide; naive_solver. Qed.

Lemma flag_unset {A} (o : option A) : Validate.set o = false ↔ o = None.
Proof. destruct o; naive_solver. Qed.

Lemma no_conflict o :
  conflicting_option_with_context o = None ↔
  co_host o = None ∧ co_tls o = false ∧ co_tls_verify o = false ∧ co_tls_ca_cert o = None ∧ co_tls_cert o = None ∧
  co_tls_key o = None ∧ co_cert_path o = None.
Proof.
  unfold conflicting_option_with_context. rewrite <-!(flag_unset (A := string)).
  destruct (Validate.set (co_host o)), (co_tls o), (co_tls_verify o), (Validate.set (co_tls_ca_cert o)), (Validate.set (co_tls_cert o)),
    (Validate.set (co_tls_key o)), (Validate.set (co_cert_path o)); naive_solver.
Qed.

(** ** Errors *)

(** [e] holds [found] in its chain. *)
Inductive holds_in (found : error_kind → bool) : request_error → Prop :=
| holds_here kind payload source : found kind = true → holds_in found (mk_request_error kind payload source)
| holds_inside denied e source :
    holds_in found e → holds_in found (mk_request_error (IoError denied) (Some e) source)
| holds_past kind payload e : holds_in found e → holds_in found (mk_request_error kind payload (Some e)).

Lemma chain_holds_spec found e : chain_holds found e = true ↔ holds_in found e.
Proof.
  split; revert e.
  - fix IH 1. intros [kind payload source]. cbn. rewrite !orb_true_iff. intros [[H|H]|H].
    + by apply holds_here.
    + destruct kind, payload as [p|]; try discriminate H. apply holds_inside, IH, H.
    + destruct source as [s|]; try discriminate H. apply holds_past, IH, H.
  - intros e H. induction H as [kind payload source H|denied e source _ IH|kind payload e _ IH]; cbn.
    + by rewrite H.
    + by rewrite IH, orb_true_r.
    + by rewrite IH, orb_true_r.
Qed.

(** The daemon is said not to be reached only when no TLS error was met and no
    permission was refused; a failure is explained by the trust roots only when
    a certificate was refused. *)
Lemma explain_failure_spec target note e failed :
  (explain_failure target note e failed = [Unreachable target] ↔
    holds_in (λ k, match k with HttpClientError c => c | _ => false end) e ∧
    ¬ holds_in (λ k, match k with RustlsError _ => true | IoError denied => denied | _ => false end) e) ∧
  (∀ h, h ∈ explain_failure target note e failed → h = Unreachable target ∨ h = Failed failed ∨
    holds_in (λ k, match k with RustlsError invalid => invalid | _ => false end) e ∧
    match note with
    | Some (ContextAskedToSkip name) => h = AskedToSkip name
    | Some (SystemTrustStore looked_for) => h = NoCaGiven looked_for
    | None => False
    end).
Proof.
  setoid_rewrite <-chain_holds_spec. rewrite not_true_iff_false. unfold explain_failure, is_unreachable, holds_certificate_error.
  destruct note as [[name|looked_for]|];
    repeat match goal with |- context [chain_holds ?f e] => destruct (chain_holds f e) end; cbn; (split; [naive_solver|]);
    intros h; rewrite ?elem_of_cons, ?elem_of_nil; naive_solver.
Qed.

(** ** Connections *)

Section connect.
Context `{!PathClean, !FileTree W, !DockerHost W, !DockerJson, !TlsCrates W, !GitIncludes.Sha2}.
Context (accepts : Docker → bool).

(** What chose the daemon, and that nothing before it in the order did. *)
Definition chosen_by (w : W) (env : string → option string) (o : DockerConnectionOptions) (c : Connection) : Prop :=
  match cn_daemon_target c with
  | TargetContext host name =>
      host = cn_daemon_host c ∧ name ≠ "default" ∧
      (co_context o = Some name ∨
       co_context o = None ∧ co_host o = None ∧ non_empty (env "DOCKER_HOST") = None ∧
       (non_empty (env "DOCKER_CONTEXT") = Some name ∨
        non_empty (env "DOCKER_CONTEXT") = None ∧ active_docker_context w (cn_config_directory c) = Ok (Some name))) ∧
      ∃ text skip, host_text w (context_meta_path (cn_config_directory c) name) = TextRead text ∧
        context_metadata text = Some (host, skip)
  | TargetOption host => host = cn_daemon_host c ∧ co_host o = Some host ∧ co_context o = None
  | TargetEnvironment host =>
      host = cn_daemon_host c ∧ co_host o = None ∧ non_empty (env "DOCKER_HOST") = Some host ∧
      (co_context o = None ∨ co_context o = Some "default")
  | TargetDefault =>
      cn_daemon_host c = DEFAULT_DOCKER_HOST ∧ co_host o = None ∧ non_empty (env "DOCKER_HOST") = None ∧
      (co_context o = Some "default" ∨ co_context o = None ∧
       (non_empty (env "DOCKER_CONTEXT") = Some "default" ∨ non_empty (env "DOCKER_CONTEXT") = None ∧
        match active_docker_context w (cn_config_directory c) with
        | Ok active => active = None ∨ active = Some "default"
        | Err warning => cn_warnings c = [warning]
        end))
  end.

(** Nothing asks for TLS: neither the host, nor what the context stores, nor the
    options and [DOCKER_TLS_VERIFY]. *)
Definition plain_asked (w : W) (env : string → option string) (o : DockerConnectionOptions) (c : Connection) : Prop :=
  is_https (cn_daemon_host c) = false ∧
  match cn_daemon_target c with
  | TargetContext _ name =>
      (∀ file, file ∈ ["ca.pem"; "cert.pem"; "key.pem"] →
        is_path_file w (path_join (docker_context_tls_directory (cn_config_directory c) name) file) = false) ∧
      ∃ text, host_text w (context_meta_path (cn_config_directory c) name) = TextRead text ∧
        context_metadata text = Some (cn_daemon_host c, false)
  | _ =>
      co_tls o = false ∧ co_tls_verify o = false ∧
      (parse_boolean (env "DOCKER_TLS_VERIFY") = Ok None ∨ parse_boolean (env "DOCKER_TLS_VERIFY") = Ok (Some false))
  end.

(** The CA a TLS connection is verified against: the one named or stored, or none. *)
Definition ca_asked (w : W) (env : string → option string) (o : DockerConnectionOptions) (c : Connection)
    (ca : option TlsFile) : Prop :=
  match cn_daemon_target c with
  | TargetContext _ name =>
      ca = file_in w (docker_context_tls_directory (cn_config_directory c) name) "ca.pem" (context_named name)
  | _ =>
      match co_tls_ca_cert o with
      | Some path => ca = Some (mk_tls_file path "--docker-tls-ca-cert")
      | None => ∃ directory named_by,
          docker_cert_directory w o (env "DOCKER_CERT_PATH") (env "DOCKER_CONFIG") = Ok (directory, named_by) ∧
          is_path_dir w directory = true ∧ ca = file_in w directory "ca.pem" named_by
      end
  end.

(** Its trust roots: every certificate of that file and nothing else, or without
    one the system's; and a certificate of its own is presented with its key. *)
Definition verified (w : W) (ca : option TlsFile) (client : option ClientCertificate) (config : ClientConfig) : Prop :=
  match ca with
  | Some file => ∃ bytes, host_bytes w (tf_path file) = Some bytes ∧ pem_certificates bytes = Some (cc_roots config) ∧
      cc_roots config ≠ [] ∧ ∀ x, x ∈ cc_roots config → usable_root x = true
  | None => ∀ x, x ∈ cc_roots config ↔ x ∈ native_certificates w ∧ usable_root x = true
  end ∧
  match client with
  | Some own => ∃ cert_bytes key_bytes certificates key,
      cc_client config = Some (certificates, key) ∧
      host_bytes w (tf_path (cl_cert own)) = Some cert_bytes ∧ pem_certificates cert_bytes = Some certificates ∧
      host_bytes w (tf_path (cl_key own)) = Some key_bytes ∧ pem_private_key key_bytes = Some key ∧
      pair_accepted certificates key = true
  | None => cc_client config = None
  end.

Lemma read_certificates_spec w file certificates :
  read_certificates w file = Ok certificates →
  certificates ≠ [] ∧ ∃ bytes, host_bytes w (tf_path file) = Some bytes ∧ pem_certificates bytes = Some certificates.
Proof using Type.
  unfold read_certificates, read_tls_file. destruct (host_bytes w (tf_path file)) as [bytes|]; [|done]. cbn.
  destruct (pem_certificates bytes) as [l|] eqn:E; [|done]. cbn. destruct l as [|x l]; [done|]. intros [= <-].
  split; [done|]. by exists bytes.
Qed.

Lemma read_private_key_spec w file key :
  read_private_key w file = Ok key →
  ∃ bytes, host_bytes w (tf_path file) = Some bytes ∧ pem_private_key bytes = Some key.
Proof using Type.
  unfold read_private_key, read_tls_file. destruct (host_bytes w (tf_path file)) as [bytes|]; [|done]. cbn.
  destruct (ensure _ _); [|done]. cbn. destruct (pem_private_key bytes) as [k|] eqn:E; [|done]. intros [= <-].
  by exists bytes.
Qed.

(** [SkipTLSVerify] plays no part in it. *)
Lemma tls_client_config_spec w tls config :
  tls_client_config w tls = Ok config → verified w (ts_ca tls) (ts_client tls) config.
Proof using Type.
  unfold tls_client_config. intros Hx. apply result_bind_Ok in Hx as (roots & Hroots & Hx).
  assert (cc_roots config = roots) as Hconfig.
  { destruct (ts_client tls); [|by injection Hx as <-]. split_result. done. }
  split.
  - destruct (ts_ca tls) as [ca|].
    + apply result_bind_Ok in Hroots as (certificates & Hc & Hroots).
      apply result_bind_Ok in Hroots as (? & Hu%ensure_Ok & [= ->]).
      destruct (read_certificates_spec _ _ _ Hc) as (Hne & bytes & ? & ?). rewrite Hconfig. exists bytes. split_and!; [done..|].
      intros r Hr. rewrite forallb_forall in Hu. by apply Hu, list_elem_of_In.
    + injection Hroots as <-. intros r. rewrite Hconfig. unfold system_trust_roots. rewrite list_elem_of_filter. naive_solver.
  - destruct (ts_client tls) as [own|]; [|by injection Hx as <-].
    apply result_bind_Ok in Hx as (certificates & Hc & Hx). apply result_bind_Ok in Hx as (key & Hk & Hx).
    apply result_bind_Ok in Hx as (? & Hp%ensure_Ok & [= <-]).
    destruct (read_certificates_spec _ _ _ Hc) as (_ & cb & ? & ?). destruct (read_private_key_spec _ _ _ Hk) as (kb & ? & ?).
    by exists cb, kb, certificates, key.
Qed.

Lemma dial_spec d d' : dial accepts d = Ok d' → d' = d ∧ accepts d = true.
Proof using Type. unfold dial. by destruct (accepts d) eqn:E; [intros [= <-]|]. Qed.

Lemma tls_address_spec host address :
  tls_address host = Ok address →
  host = "tcp://" +:+ address ∨ host = "https://" +:+ address ∨ host = address ∧ find_str "://" host = None.
Proof using Type.
  unfold tls_address. destruct (strip_prefix "tcp://" host) as [a|] eqn:E; [intros [= <-]|].
  { left. by apply strip_prefix_Some. }
  destruct (strip_prefix "https://" host) as [a|] eqn:E2; [intros [= <-]|].
  { right; left. by apply strip_prefix_Some. }
  destruct (find_str "://" host) eqn:E3; [done|]. intros [= <-]. by right; right.
Qed.

Lemma connect_plain_spec host d :
  connect_plain accepts host = Ok d →
  accepts d = true ∧
  match d with
  | ConnectWithHttp h => h = host ∧ (starts_with "tcp://" host = true ∨ starts_with "http://" host = true)
  | ConnectWithHost h => h = host ∧ starts_with "tcp://" host = false ∧ starts_with "http://" host = false
  | ConnectWithTls _ _ => False
  end.
Proof using Type.
  unfold connect_plain. intros [-> Ha]%dial_spec. revert Ha.
  destruct (starts_with "tcp://" host), (starts_with "http://" host); cbn; intros Ha; split; try done; auto.
Qed.

(** What is known of a connection that is made. *)
Definition as_asked (w : W) (env : string → option string) (o : DockerConnectionOptions) (c : Connection) : Prop :=
  match cn_docker c with
  | ConnectWithTls address config =>
      (cn_daemon_host c = "tcp://" +:+ address ∨ cn_daemon_host c = "https://" +:+ address ∨
       cn_daemon_host c = address ∧ find_str "://" address = None) ∧
      ∃ ca client, ca_asked w env o c ca ∧ verified w ca client config ∧
        match cn_verification_note c with
        | Some (SystemTrustStore _) => ca = None
        | Some (ContextAskedToSkip name) => ∃ host, cn_daemon_target c = TargetContext host name
        | None => True
        end
  | ConnectWithHttp host =>
      host = cn_daemon_host c ∧ (starts_with "tcp://" host = true ∨ starts_with "http://" host = true) ∧
      plain_asked w env o c
  | ConnectWithHost host =>
      host = cn_daemon_host c ∧ starts_with "tcp://" host = false ∧ starts_with "http://" host = false ∧
      plain_asked w env o c
  end.

Lemma connect_over_tls_spec w address tls d :
  connect_over_tls accepts w address tls = Ok d →
  accepts d = true ∧ ∃ config, d = ConnectWithTls address config ∧ verified w (ts_ca tls) (ts_client tls) config.
Proof using Type.
  unfold connect_over_tls. intros Hx. apply result_bind_Ok in Hx as (config & Hc & [-> Ha]%dial_spec).
  split; [done|]. exists config. split; [done|]. by apply tls_client_config_spec.
Qed.

(** A plain connection is as asked when nothing asks for TLS. *)
Lemma plain_as_asked w env o c :
  connect_plain accepts (cn_daemon_host c) = Ok (cn_docker c) → plain_asked w env o c →
  as_asked w env o c ∧ accepts (cn_docker c) = true.
Proof using Type.
  intros [Ha Hd]%connect_plain_spec Hp. split; [|done]. unfold as_asked. destruct (cn_docker c); naive_solver.
Qed.

Lemma file_in_None w directory name named_by :
  file_in w directory name named_by = None ↔ is_path_file w (path_join directory name) = false.
Proof using Type. unfold file_in. destruct (is_path_file _ _); naive_solver. Qed.

Lemma client_pair_in_None w directory named_by :
  client_pair_in w directory named_by = Ok None ↔
  is_path_file w (path_join directory "cert.pem") = false ∧ is_path_file w (path_join directory "key.pem") = false.
Proof using Type.
  rewrite <-!file_in_None with (named_by := named_by). unfold client_pair_in.
  destruct (file_in w directory "cert.pem" named_by), (file_in w directory "key.pem" named_by); naive_solver.
Qed.

Lemma connect_to_context_spec w env o dir warnings name c :
  connect_to_context accepts w o dir warnings name = Ok c →
  accepts (cn_docker c) = true ∧ as_asked w env o c ∧ cn_config_directory c = dir ∧ cn_warnings c = warnings ∧
  cn_daemon_target c = TargetContext (cn_daemon_host c) name ∧
  ∃ text skip, host_text w (context_meta_path dir name) = TextRead text ∧
    context_metadata text = Some (cn_daemon_host c, skip).
Proof using Type.
  unfold connect_to_context. intros Hx. apply result_bind_Ok in Hx as (endpoint & He & Hx).
  unfold docker_context_endpoint in He. apply result_bind_Ok in He as (text & Htext & He).
  destruct (host_text w (context_meta_path dir name)) as [t| |] eqn:Ht; [injection Htext as <-|done|done].
  apply result_bind_Ok in He as ([host skip] & Hm & He).
  destruct (context_metadata t) as [hs|] eqn:Hmeta; [|done]. injection Hm as ->.
  apply result_bind_Ok in He as (client & Hclient & [= <-]). cbn [ce_host ce_tls] in Hx.
  set (ca := file_in w _ "ca.pem" _) in *.
  assert (∀ tls address d, (ts_ca tls = ca) → tls_address host = Ok address →
    connect_over_tls accepts w address tls = Ok d →
    c = mk_connection d dir warnings host (TargetContext host name)
          (if ts_skip_verify_requested tls then Some (ContextAskedToSkip name) else None) →
    accepts (cn_docker c) = true ∧ as_asked w env o c) as Htls.
  { intros tls address d Hca Haddr Hd ->. apply connect_over_tls_spec in Hd as (Ha & config & -> & Hv). split; [done|].
    cbn. apply tls_address_spec in Haddr. split; [naive_solver|]. exists ca, (ts_client tls). rewrite <-Hca at 2.
    split_and!; [done|done|]. destruct (ts_skip_verify_requested tls); [by exists host|done]. }
  destruct (Validate.set ca || Validate.set client || skip) eqn:Hset; [|destruct (is_https host) eqn:Hhttps].
  - apply result_bind_Ok in Hx as (address & Haddr & Hx). apply result_bind_Ok in Hx as (d & Hd & [= <-]).
    destruct (Htls (mk_tls_settings ca client skip) address d eq_refl Haddr Hd eq_refl) as [? ?].
    split_and!; [done..|]. by exists t, skip.
  - apply result_bind_Ok in Hx as (address & Haddr & Hx). apply result_bind_Ok in Hx as (d & Hd & [= <-]).
    apply orb_false_iff in Hset as [[Hca%flag_unset _]%orb_false_iff _].
    destruct (Htls (mk_tls_settings None None false) address d (eq_sym Hca) Haddr Hd eq_refl) as [? ?].
    split_and!; [done..|]. by exists t, skip.
  - apply result_bind_Ok in Hx as (d & Hd & [= <-]).
    apply orb_false_iff in Hset as [[Hca%flag_unset Hcl%flag_unset]%orb_false_iff ->]. subst client.
    destruct (plain_as_asked w env o (mk_connection d dir warnings host (TargetContext host name) None) Hd) as [? ?].
    { split; [done|]. cbn. split; [|by exists t].
      apply client_pair_in_None in Hclient as [Hcert Hkey]. apply file_in_None in Hca.
      intros file Hf. repeat (apply elem_of_cons in Hf as [->|Hf]; [done|]). by apply elem_of_nil in Hf. }
    split_and!; [done..|]. by exists t, false.
Qed.

Lemma flag_tls_settings_ca w o directory named_by tls :
  flag_tls_settings w o directory named_by = Ok tls →
  ts_skip_verify_requested tls = false ∧
  match co_tls_ca_cert o with
  | Some path => ts_ca tls = Some (mk_tls_file path "--docker-tls-ca-cert")
  | None => is_path_dir w directory = true ∧ ts_ca tls = file_in w directory "ca.pem" named_by
  end.
Proof using Type.
  unfold flag_tls_settings. intros Hx. apply result_bind_Ok in Hx as (? & Hdir%ensure_Ok & Hx).
  apply result_bind_Ok in Hx as (ca & Hca & Hx). apply result_bind_Ok in Hx as (client & _ & [= <-]). split; [done|].
  destruct (co_tls_ca_cert o) as [path|].
  - apply result_bind_Ok in Hca as (file & Hf & [= <-]). unfold named_file in Hf.
    destruct (negb (path_there w path) || is_path_dir w path); [done|]. by injection Hf as <-.
  - injection Hca as <-. cbn in Hdir. by destruct (is_path_dir w directory).
Qed.

Lemma tls_enabled_spec o v enabled :
  tls_enabled o v = Ok enabled →
  enabled = false → co_tls o = false ∧ co_tls_verify o = false ∧
    (parse_boolean v = Ok None ∨ parse_boolean v = Ok (Some false)).
Proof using Type.
  unfold tls_enabled. destruct (co_tls o), (co_tls_verify o); cbn; try (by intros [= <-]).
  destruct (parse_boolean v) as [[[]|]|]; cbn; intros [= <-]; naive_solver.
Qed.

(** The target of a connection through no context. *)
Definition direct (target : DaemonTarget) : Prop := match target with TargetContext _ _ => False | _ => True end.

Lemma direct_plain w env o c :
  direct (cn_daemon_target c) → is_https (cn_daemon_host c) = false → co_tls o = false → co_tls_verify o = false →
  (parse_boolean (env "DOCKER_TLS_VERIFY") = Ok None ∨ parse_boolean (env "DOCKER_TLS_VERIFY") = Ok (Some false)) →
  plain_asked w env o c.
Proof using Type. intros Hd Hs Ht Hv Hp. split; [done|]. by destruct (cn_daemon_target c). Qed.

Lemma direct_target o v : direct (daemon_target o v None).
Proof using Type. unfold daemon_target. by destruct (co_host o), (non_empty v). Qed.

Lemma connect_to_host_spec w env o dir warnings host c :
  connect_to_host accepts w env o dir warnings host = Ok c →
  accepts (cn_docker c) = true ∧ as_asked w env o c ∧ cn_config_directory c = dir ∧ cn_warnings c = warnings ∧
  cn_daemon_target c = daemon_target o (env "DOCKER_HOST") None ∧ cn_daemon_host c = default DEFAULT_DOCKER_HOST host.
Proof using Type.
  unfold connect_to_host. intros Hx. apply result_bind_Ok in Hx as (enabled & He & Hx).
  pose proof (direct_target o (env "DOCKER_HOST")) as Hdirect.
  remember (daemon_target o (env "DOCKER_HOST") None) as target eqn:Htarget.
  destruct (enabled || match host with Some host => is_https host | None => false end) eqn:Hwanted; cbn [negb] in Hx.
  - apply result_bind_Ok in Hx as (h & Hh & Hx). destruct host as [host|]; [injection Hh as ->|done].
    apply result_bind_Ok in Hx as (address & Haddr & Hx). apply result_bind_Ok in Hx as ([directory named_by] & Hdir & Hx).
    apply result_bind_Ok in Hx as (tls & Htls & Hx). apply result_bind_Ok in Hx as (d & Hd & [= <-]).
    apply connect_over_tls_spec in Hd as (Ha & config & -> & Hv). split; [done|]. split; [|done].
    apply tls_address_spec in Haddr. apply flag_tls_settings_ca in Htls as [_ Hca]. split; [cbn; naive_solver|].
    exists (ts_ca tls), (ts_client tls). cbn [cn_verification_note]. split_and!; [|done|by destruct (ts_ca tls)].
    unfold ca_asked. cbn [cn_daemon_target].
    destruct target; [done|..];
      (destruct (co_tls_ca_cert o) as [path|]; [done|by exists directory, named_by]).
  - apply result_bind_Ok in Hx as (d & Hd & [= <-]). apply orb_false_iff in Hwanted as [-> Hhttps].
    destruct (tls_enabled_spec _ _ _ He eq_refl) as (Ht & Hv & Hp).
    set (c := mk_connection d _ _ _ _ _).
    assert (is_https (cn_daemon_host c) = false) as Hs by by destruct host.
    destruct (plain_as_asked w env o c Hd) as [? ?]; [by apply direct_plain|]. by split_and!.
Qed.

Lemma each_ok_spec {A} (body : A → result () connect_error) l u :
  each_ok body l = Ok u → ∀ y, y ∈ l → body y = Ok tt.
Proof using Type.
  induction l as [|y l IH]; cbn; [intros _ y ?%elem_of_nil; done|].
  intros ([] & Hb & Hl)%result_bind_Ok z [->|Hz]%elem_of_cons; [done|by apply IH].
Qed.

Lemma check_directory_spec w path named_by u :
  check_directory w (path, named_by) = Ok u → is_path_dir w path = true.
Proof using Type. unfold check_directory, is_path_dir. by destruct (host_metadata w path). Qed.

(** What the checks of the options leave. *)
Lemma check_options_spec w env o u :
  check_options w env o = Ok u →
  (∀ path, co_config_directory o = Some path ∨ co_cert_path o = Some path → is_path_dir w path = true) ∧
  (co_context o = None ∨ conflicting_option_with_context o = None).
Proof using Type.
  unfold check_options. intros Hx. apply result_bind_Ok in Hx as (? & Hdirs & Hx). apply result_bind_Ok in Hx as (? & _ & Hx).
  split.
  - unfold check_directories, check_chosen_directories in Hdirs. apply result_bind_Ok in Hdirs as (config & Hconfig & Hdirs).
    apply result_bind_Ok in Hdirs as (cert & Hcert & Hall). intros path [Hp|Hp].
    + unfold chosen_config_directory in Hconfig. rewrite Hp in Hconfig. injection Hconfig as <-.
      apply (check_directory_spec w path "--docker-config" tt), (each_ok_spec _ _ _ Hall). by left.
    + rewrite Hp in Hcert. injection Hcert as <-.
      apply (check_directory_spec w path "--docker-cert-path" tt), (each_ok_spec _ _ _ Hall), elem_of_app. right. by left.
  - unfold check_context_conflict in Hx. destruct (co_context o); [|by left]. right.
    by destruct (conflicting_option_with_context o).
Qed.

Lemma not_default name name' :
  (if bool_decide (name = "default") then None else Some name) = Some name' ↔ name = name' ∧ name' ≠ "default".
Proof using Type. case_bool_decide; naive_solver. Qed.

Lemma not_default_None (name : string) :
  (if bool_decide (name = "default") then None else Some name) = None ↔ name = "default".
Proof using Type. case_bool_decide; naive_solver. Qed.

Lemma resolve_host_None o v : resolve_host o v = None ↔ co_host o = None ∧ non_empty v = None.
Proof using Type. unfold resolve_host. destruct (co_host o); naive_solver. Qed.

Lemma resolve_context_name_spec w o host_env context_env dir name warnings :
  resolve_context_name o (resolve_host o host_env) context_env (λ _, active_or_warned w dir) = (name, warnings) →
  match name with
  | Some name => name ≠ "default" ∧ warnings = [] ∧
      (co_context o = Some name ∨
       co_context o = None ∧ co_host o = None ∧ non_empty host_env = None ∧
       (non_empty context_env = Some name ∨
        non_empty context_env = None ∧ active_docker_context w dir = Ok (Some name)))
  | None =>
      co_context o = Some "default" ∧ warnings = [] ∨
      co_context o = None ∧ is_Some (resolve_host o host_env) ∧ warnings = [] ∨
      co_context o = None ∧ resolve_host o host_env = None ∧
      (non_empty context_env = Some "default" ∧ warnings = [] ∨
       non_empty context_env = None ∧
       match active_docker_context w dir with
       | Ok active => (active = None ∨ active = Some "default") ∧ warnings = []
       | Err warning => warnings = [warning]
       end)
  end.
Proof using Type.
  unfold resolve_context_name. destruct (co_context o) as [context|].
  { cbn. intros [= Hname <-]. destruct name as [name|].
    - apply not_default in Hname as [-> ?]. naive_solver.
    - apply not_default_None in Hname as ->. by left. }
  destruct (resolve_host o host_env) as [host|] eqn:Hhost; cbn [Validate.set].
  { intros [= <- <-]. right; left. by split_and!. }
  apply resolve_host_None in Hhost as [Hh He].
  destruct (non_empty context_env) as [context|].
  { cbn. intros [= Hname <-]. destruct name as [name|].
    - apply not_default in Hname as [-> ?]. split_and!; [done..|]. naive_solver.
    - apply not_default_None in Hname as ->. naive_solver. }
  unfold active_or_warned. destruct (active_docker_context w dir) as [[active|]|warning]; cbn; intros [= Hname <-].
  - destruct name as [name|].
    + apply not_default in Hname as [-> ?]. split_and!; [done..|]. naive_solver.
    + apply not_default_None in Hname as ->. naive_solver.
  - subst name. naive_solver.
  - subst name. naive_solver.
Qed.

Lemma chosen_host w env o c name warnings dir :
  name = None →
  resolve_context_name o (resolve_host o (env "DOCKER_HOST")) (env "DOCKER_CONTEXT") (λ _, active_or_warned w dir)
    = (name, warnings) →
  cn_config_directory c = dir → cn_warnings c = warnings →
  cn_daemon_target c = daemon_target o (env "DOCKER_HOST") None →
  cn_daemon_host c = default DEFAULT_DOCKER_HOST (resolve_host o (env "DOCKER_HOST")) →
  (co_context o = None ∨ conflicting_option_with_context o = None) →
  chosen_by w env o c ∧ ∀ warning, warning ∈ cn_warnings c →
    co_context o = None ∧ cn_daemon_target c = TargetDefault ∧ active_docker_context w dir = Err warning.
Proof using Type.
  intros -> Hname%resolve_context_name_spec <- Hw Ht Hhost Hconflict. unfold chosen_by. rewrite Ht, Hhost, Hw.
  assert (co_context o = Some "default" → co_host o = None) as Hno.
  { intros Hd. destruct Hconflict as [?|Hc%no_conflict]; [congruence|]. by destruct Hc. }
  unfold daemon_target. unfold resolve_host in *.
  destruct (co_host o) as [host|]; [|destruct (non_empty (env "DOCKER_HOST")) as [host|]]; cbn.
  - destruct Hname as [[Hd _]|[(Hc & _ & ->)|(_ & ? & _)]]; [|split; [done|by intros ? ?%elem_of_nil]|done].
    by specialize (Hno Hd).
  - destruct Hname as [[Hd ->]|[(Hc & _ & ->)|(_ & ? & _)]]; [| |done];
      (split; [by auto|by intros ? ?%elem_of_nil]).
  - destruct Hname as [[Hd ->]|[(Hc & [? ?] & _)|(Hc & _ & Hrest)]]; [|done|].
    { split; [by auto|by intros ? ?%elem_of_nil]. }
    destruct Hrest as [[Hd ->]|[Hd Hactive]].
    { split; [split_and!; auto|by intros ? ?%elem_of_nil]. }
    destruct (active_docker_context w (cn_config_directory c)) as [active|warning].
    + destruct Hactive as [Hactive ->]. split; [split_and!; auto 8|by intros ? ?%elem_of_nil].
    + subst warnings. split; [split_and!; auto 8|]. by intros ? ->%list_elem_of_singleton.
Qed.

End connect.

Module Once.
#[local] Existing Instance LexicalClean.lexical_path_clean.

#[local] Instance tree : FileTree () := {|
  current_dir _ := Some "/p"; home_directory _ := Some "/home/u"; IncludeTrust.canonicalize _ _ := NotFound;
  is_file _ _ := false; exists_at _ _ := false |}.

(** A home whose [.docker] holds a CA. *)
#[local] Instance host : DockerHost () := {|
  host_metadata _ path :=
    if bool_decide (path = "/home/u/.docker") then MetaDirectory
    else if bool_decide (path = "/home/u/.docker/ca.pem") then MetaFile else MetaMissing;
  host_text _ _ := TextMissing;
  host_bytes _ path := if bool_decide (path = "/home/u/.docker/ca.pem") then Some "CA" else None |}.
#[local] Instance json : DockerJson := {| context_metadata _ := None; cli_current_context _ := None |}.
#[local] Instance tls : TlsCrates () := {|
  certificate := string; private_key := string; pem_certificates bytes := Some [bytes]; pem_private_key := Some;
  usable_root _ := true; pair_accepted _ _ := true; native_certificates _ := ["system"] |}.
#[local] Instance sha2 : GitIncludes.Sha2 := {| GitIncludes.sha256 bytes := bytes |}.

Definition env (name : string) : option string :=
  if bool_decide (name = "DOCKER_HOST") then Some "tcp://daemon:2376"
  else if bool_decide (name = "DOCKER_CONTEXT") then Some "other"
  else if bool_decide (name = "DOCKER_TLS_VERIFY") then Some "Yes" else None.

Definition options : DockerConnectionOptions := mk_connection_options None None None false false None None None None.

Definition expected : Connection :=
  mk_connection (ConnectWithTls "daemon:2376" (mk_client_config ["CA" : certificate] None)) "/home/u/.docker" []
    "tcp://daemon:2376" (TargetEnvironment "tcp://daemon:2376") None.

End Once.
