(* ===== verification/Credentials.v ===== *)
(** * Credentials: the registries asked about, and with what

    [ratect-core/src/registry_auth.rs] and the functions of [docker.rs] that use it:
    the registry of an image, the credentials of a pull and of a build, what a
    pull asks the daemon for, and a build's proxy arguments.  [serde_json] on the
    Docker CLI's [config.json], the crate [docker_credential] and the helpers it
    runs are interfaces. *)

From S2P Require Import Prelude Text Collections Proxy ContainerSpec.
From stdpp Require Import options.

(** ** Registries *)

Definition DOCKER_IO : string := "docker.io".

Definition registry_hostname (image_reference : string) : string :=
  match split_once "/" image_reference with
  | None => DOCKER_IO
  | Some (first_segment, _) =>
      if bool_decide (first_segment = "index.docker.io") then DOCKER_IO
      else if bool_decide (first_segment = "localhost") || contains_char "." first_segment
              || contains_char ":" first_segment || existsb is_ascii_uppercase (chars first_segment)
      then first_segment
      else DOCKER_IO
  end.

(** [serde_json] on [config.json]: the keys of [auths] and of [credHelpers], and
    [credsStore]; [None] where the text is not of the shape asked for. *)
Class CredentialJson := {
  config_registries : string → option (list string * list string);
  config_creds_store : string → option string;
}.

Section registries.
Context `{!CredentialJson}.

Definition configured_registries (config_json : string) : list string :=
  let '(auths, cred_helpers) := default ([], []) (config_registries config_json) in
  sort_dedup (auths ++ cred_helpers).

Definition configured_creds_store (config_json : string) : option string :=
  let creds_store := default EmptyString (config_creds_store config_json) in
  if bool_decide (creds_store = EmptyString) then None else Some creds_store.
End registries.

(** ** Credential helpers *)

Inductive DockerCredential :=
| UsernamePassword (username password : string)
| IdentityToken (token : string).

(** [bollard]'s [DockerCredentials] *)
Record DockerCredentials := mk_credentials {
  dc_username : option string;
  dc_password : option string;
  dc_identitytoken : option string;
}.

Definition to_bollard_credentials (credential : DockerCredential) : DockerCredentials :=
  match credential with
  | UsernamePassword username password => mk_credentials (Some username) (Some password) None
  | IdentityToken token => mk_credentials None None (Some token)
  end.

(** What [docker_credential] answers, on a thread of its own that may panic or not
    be done in [CREDENTIAL_HELPER_TIMEOUT]. *)
Inductive CredentialRetrievalError :=
| NoCredentialConfigured
| ConfigNotFound
| HelperFailure (helper stdout stderr : string)
| OtherRetrievalError (error : string).

Inductive attempt {A E : Type} :=
| Finished (answer : result A E)
| Panicked
| TimedOut.
Arguments attempt : clear implicits.

(** What a helper's [list] answers, [None] once the time is up. *)
Record helper_output := mk_helper_output {
  ho_success : bool;
  ho_stdout : string;
  ho_stderr : string;
}.

Class CredentialHelpers := {
  config_opens : bool;
  get_credential : string → attempt DockerCredential CredentialRetrievalError;
  run_list : string → option (result helper_output string);
  json_keys : string → option (list string);
}.

Inductive resolve_error :=
| HelperFailed (summary : string)
| RetrievalFailed (error : string)
| ResolutionPanicked
| ResolutionTimedOut
| HelperNotRun (helper error : string)
| ListNotAnObject (helper : string).

Definition is_credentials_not_found (output : string) : bool :=
  match find_str "credentials not found in native keychain" output with Some _ => true | None => false end.

Definition helper_failure_summary (helper stdout stderr : string) : string :=
  let collapse := λ output, join " " (split_whitespace output) in
  let said := if bool_decide (collapse stderr = EmptyString) then collapse stdout else collapse stderr in
  if bool_decide (said = EmptyString) then "`" +:+ helper +:+ "` failed with no output"
  else "`" +:+ helper +:+ "` failed: " +:+ said.

(** [RegistryCredentialResolver] *)
Class RegistryCredentialResolver := {
  resolve : string → result (option DockerCredentials) resolve_error;
  list_store : string → result (list string) resolve_error;
}.

Section helpers.
Context `{!CredentialHelpers}.

Definition resolve_registry (registry : string) : result (option DockerCredentials) resolve_error :=
  if negb config_opens then Ok None
  else
    match get_credential registry with
    | Finished (Ok credential) => Ok (Some (to_bollard_credentials credential))
    | Finished (Err (NoCredentialConfigured | ConfigNotFound)) => Ok None
    | Finished (Err (HelperFailure helper stdout stderr)) =>
        if is_credentials_not_found stdout || is_credentials_not_found stderr then Ok None
        else Err (HelperFailed (helper_failure_summary helper stdout stderr))
    | Finished (Err (OtherRetrievalError error)) => Err (RetrievalFailed error)
    | Panicked => Err ResolutionPanicked
    | TimedOut => Err ResolutionTimedOut
    end.

Definition list_store_with (program : string) : result (list string) resolve_error :=
  match run_list program with
  | Some (Ok output) =>
      let? _ := ensure (ho_success output)
                  (HelperFailed (helper_failure_summary program (ho_stdout output) (ho_stderr output))) in
      let? listed := ok_or (json_keys (ho_stdout output)) (ListNotAnObject program) in
      Ok (sort_dedup listed)
  | Some (Err error) => Err (HelperNotRun program error)
  | None => Err ResolutionTimedOut
  end.

(** [DockerCredentialHelperResolver] *)
Instance docker_credential_helper_resolver : RegistryCredentialResolver := {|
  resolve := resolve_registry;
  list_store store := list_store_with ("docker-credential-" +:+ store) |}.
End helpers.

(** ** What a pull and a build are given *)

Inductive credential_warning :=
| NotResolved (registry : string) (error : resolve_error)
| NotListed (store : string) (error : resolve_error).

Section given.
Context `{!RegistryCredentialResolver, !CredentialJson}.

Definition resolve_pull_credential (image : string) : option DockerCredentials * option credential_warning :=
  let registry := registry_hostname image in
  match resolve registry with
  | Ok credential => (credential, None)
  | Err error => (None, Some (NotResolved registry error))
  end.

Definition build_registries (config_json : string) : list string * option credential_warning :=
  let registries := configured_registries config_json in
  match configured_creds_store config_json with
  | None => (registries, None)
  | Some store =>
      match list_store store with
      | Ok listed => (sort_dedup (registries ++ listed), None)
      | Err error => (registries, Some (NotListed store error))
      end
  end.

Fixpoint resolve_each (registries : list string) (credentials : gmap string DockerCredentials)
    (warnings : list credential_warning) : gmap string DockerCredentials * list credential_warning :=
  match registries with
  | [] => (credentials, warnings)
  | registry :: registries =>
      match resolve registry with
      | Ok (Some credential) => resolve_each registries (<[registry := credential]> credentials) warnings
      | Ok None => resolve_each registries credentials warnings
      | Err error => resolve_each registries credentials (warnings ++ [NotResolved registry error])
      end
  end.

Definition resolve_build_credentials (registries : list string)
    : gmap string DockerCredentials * list credential_warning := resolve_each registries ∅ [].
End given.

(** ** References *)

(** The repository and tag; a colon before the last [/] is a port. *)
Definition split_image_reference (reference : string) : string * option string :=
  let '(before, name) := match rsplit_once "/" reference with
                         | Some (before, name) => (before +:+ "/", name)
                         | None => (EmptyString, reference)
                         end in
  match rsplit_once ":" name with
  | Some (repository, tag) => (before +:+ repository, Some tag)
  | None => (reference, None)
  end.

Definition pull_request_reference (reference : string) : string * option string :=
  if contains_char "@" reference then (reference, None)
  else
    let '(repository, tag) := split_image_reference reference in
    (repository, Some (default "latest" tag)).

Definition digest_pinned_reference (reference digest : string) : string :=
  let name := match split_once "@" reference with Some (name, _) => name | None => reference end in
  (split_image_reference name).1 +:+ "@" +:+ digest.

(** ** Build arguments *)

Definition build_args_with_config_file_proxies (read_proxies : string → option (gmap string ConfigFileProxies))
    (spec : BuildSpec) (config_json : option string) (daemon_host : string) : option (gmap string string) :=
  match config_json with
  | Some config_json =>
      if bs_config_file_proxies spec then
        let build_args := fill_config_file_proxies read_proxies config_json daemon_host (default ∅ (bs_build_args spec)) in
        match bs_build_args spec with
        | Some _ => Some build_args
        | None => if bool_decide (build_args = ∅) then None else Some build_args
        end
      else bs_build_args spec
  | None => bs_build_args spec
  end.
