(* ===== verification/DockerClient.v ===== *)
(** * DockerClient: what Ratect asks the Docker daemon, and makes of its answers

    [DockerClient] of [ratect-core/src/docker.rs]: the checks of a new client, the
    builder and class it finds once, pulls and builds, networks, and the life of a
    container from its start to its removal, with [ResourceInventory] and
    [VolumeStore].  The daemon is an interface, an answer to each request; a
    stream is the list of what it gives.  What a session attaches to (terminals,
    stdin) is left out, as are [tracing]'s logs. *)

From S2P Require Import Prelude Text Collections Io LineBuffer BuildOutput Dockerignore Paths Proxy ContainerSpec.
From S2P Require Import Regex ContainerRequest CommandLine Credentials.
From S2P Require Connection Resources.
From stdpp Require Import options.

(** ** Requests and answers *)

Inductive api_error :=
| ServerError (status_code : Z)
| ContainerWaitError (code : Z)
| OtherApiError.

Inductive BuilderVersion := BuilderV1 | BuilderBuildKit.
#[global] Instance BuilderVersion_eq_dec : EqDecision BuilderVersion.
Proof. solve_decision. Defined.

Record StopOptions := mk_stop_options { so_signal : option string; so_t : option Z }.

Record ExecOptions := mk_exec_options {
  xo_tty : bool;
  xo_env : option (list string);
  xo_cmd : list string;
  xo_user : option string;
  xo_working_dir : option string;
}.

(** [SecretSource] and [SshAgentSource] of [bollard]. *)
Inductive SecretSource := SecretFromEnv (name : string) | SecretFromFile (path : string).
Inductive AgentSource := DefaultAgentSocket | AgentAt (path : string).

(** An entry of the context: its path below the root, its mode and contents, always
    owned by root. *)
Record ContextEntry := mk_context_entry { xe_path : string; xe_mode : N; xe_contents : string }.

Record BuildRequest := mk_build_request {
  br_dockerfile : string;
  br_t : string;
  br_rm : bool;
  br_forcerm : bool;
  br_version : BuilderVersion;
  br_buildid : option string;
  br_buildargs : option (gmap string string);
  br_target : option string;
  br_pull : option string;
  br_extrahosts : option string;
  br_nocache : bool;
  br_credentials : option (gmap string DockerCredentials);
  br_secrets : list (string * SecretSource);
  br_ssh : list (string * AgentSource);
  br_context : list ContextEntry;
}.

Inductive api_request :=
| NegotiateVersion | Version | Ping | Info
| InspectImage (reference : string)
| CreateImage (from_image : string) (tag : option string) (credentials : option DockerCredentials)
| BuildImage (request : BuildRequest)
| CancelBuild (build_id : string)
| TagImage (image_id repo tag : string)
| CreateNetwork (name : string) (labels : gmap string string)
| InspectNetwork (name : string)
| RemoveNetwork (name : string)
| AttachContainer (container_id : string)
| StartContainer (container_id : string)
| StopContainer (container_id : string) (o : option StopOptions)
| RemoveContainer (container_id : string) (v force : bool)
| InspectContainer (container_id : string)
| Events (container_id since : string)
| WaitContainer (container_id : string)
| Logs (container_id : string)
| CreateExec (container_id : string) (o : ExecOptions)
| StartExec (exec_id : string)
| InspectExec (exec_id : string)
| ListContainers (all : bool) (labels : list string)
| ListNetworks (labels : list string)
| ListVolumes
| RemoveVolume (name : string)
| AwaitFollower (container_id : string)
| StartKeyring (key_files : list string)
| PostWarning (w : credential_warning)
| PostPullProgress (image message : string)
| PostBuildProgress (tag message : string).

(** What a build's stream gives, as far as it is read. *)
Inductive BuildAux := AuxDefault (id : option string) | AuxBuildKit (status : StatusResponse).
Record BuildInfo := mk_build_info {
  bi_error : option string;
  bi_stream : option string;
  bi_aux : option BuildAux;
}.

Record HealthcheckResult := mk_healthcheck_result { hr_exit_code : option Z; hr_output : option string }.

Record Inspection := mk_inspection {
  in_health_test : option (list string);
  in_running : option bool;
  in_health_log : option (list HealthcheckResult);
}.

Record ListedContainer := mk_listed_container {
  lc_id : option string;
  lc_names : option (list string);
  lc_labels : option (gmap string string);
  lc_created : option Z;
  lc_state : option string;
}.

Record ListedNetwork := mk_listed_network {
  ln_id : option string;
  ln_name : option string;
  ln_labels : option (gmap string string);
  ln_created : option Z;
}.

(** What the host has under a directory of a build. *)
Inductive dir_entry :=
| EntryFile (name : string)
| EntryDir (name : string) (contents : option (list dir_entry))
| EntryOther (name : string)
| EntryUnreadable.

Inductive ignore_answer := NoIgnoreFile | IgnoreFile (contents : string) | IgnoreFailed.

Class DockerApi (W : Type) := {
  api_negotiate : W → W * result (N * N) Connection.request_error;
  api_version : W → W * result (option string * option string) Connection.request_error;
  api_ping : W → W * result (option string) api_error;
  api_info : W → W * result (option (list string)) api_error;
  api_inspect_image : W → string → W * result (option string) api_error;
  api_create_image : W → string → option string → option DockerCredentials → W * list (result (option string) api_error);
  api_build_image : W → BuildRequest → W * list (result BuildInfo api_error);
  api_cancel_build : W → string → W * result () api_error;
  api_tag_image : W → string → string → string → W * result () api_error;
  api_create_network : W → string → gmap string string → W * result () api_error;
  api_inspect_network : W → string → W * result () api_error;
  api_remove_network : W → string → W * result () api_error;
  api_attach : W → string → W * result () api_error;
  api_start_container : W → string → W * result () api_error;
  api_stop_container : W → string → option StopOptions → W * result () api_error;
  api_remove_container : W → string → bool → bool → W * result () api_error;
  api_inspect_container : W → string → W * result Inspection api_error;
  api_first_event : W → string → string → W * option (result (option string) api_error);
  api_wait_container : W → string → W * option (result Z api_error);
  api_logs : W → string → W * list (result string api_error);
  api_create_exec : W → string → ExecOptions → W * result string api_error;
  api_start_exec : W → string → W * result (option (list (result string api_error))) api_error;
  api_inspect_exec : W → string → W * result (option Z) api_error;
  api_list_containers : W → bool → list string → W * result (list ListedContainer) api_error;
  api_list_networks : W → list string → W * result (list ListedNetwork) api_error;
  api_list_volumes : W → W * result (option (list string)) api_error;
  api_remove_volume : W → string → W * result () api_error;
}.

(** The host, and the agent [ssh_agent.rs] serves keys with: the socket it is at. *)
Class BuildHost (W : Type) := {
  host_config_json : W → option string;
  host_ignore_file : W → string → ignore_answer;
  host_read_dir : W → string → option (list dir_entry);
  host_file : W → string → string → option (N * string);
  keyring_start : W → list string → W * result string string;
}.

Inductive client_error :=
| RequestFailed (what : api_request) (e : api_error)
| ApiTooOld (major minor : N)
| WindowsDaemon (os : string)
| NotReached (headings : list Connection.heading)
| NoIdAfterPull (image : string)
| NoLocalId (image : string)
| BadBuildKitVariable (value : string)
| UnknownBuilder (value : string)
| NeedsBuildKit (tag : string)
| IgnoreFileFailed
| BadIgnorePattern (e : Dockerignore.Error)
| ContextUnreadable
| ContextFileUnreadable (path : string)
| KeysNotServed (id error : string)
| BuildFailed (tag message output : string)
| BuildStreamFailed (tag output : string) (e : api_error)
| BuildOutputPanicked
| NoBuiltId (tag : string)
| EventStreamEnded
| Unhealthy (message : string)
| ExitedBeforeHealthy
| UnexpectedEvent (action : string)
| NoExitStatus (container_id : string)
| NoState (container_id : string)
| BadCommand (e : command_error)
| NoExecExitCode (container_id : string).

(** ** Decisions *)

Definition version_lt (a b : N * N) : bool := (a.1 <? b.1)%N || ((a.1 =? b.1)%N && (a.2 <? b.2)%N).
Definition MINIMUM_API_VERSION : N * N := (1, 41)%N.

Definition check_api_version_floor (negotiated : N * N) : result () client_error :=
  if version_lt negotiated MINIMUM_API_VERSION then Err (ApiTooOld negotiated.1 negotiated.2) else Ok tt.

Definition check_daemon_os (os : option string) : result () client_error :=
  match os with
  | Some os => if bool_decide (to_ascii_lowercase os = "windows") then Err (WindowsDaemon os) else Ok tt
  | None => Ok tt
  end.

Definition docker_buildkit_env_value (enable_buildkit_flag : bool) (real_env_value : option string) : option string :=
  if enable_buildkit_flag then Some "1" else real_env_value.

Definition select_builder_version (docker_buildkit_env daemon_advertised : option string)
    : result BuilderVersion client_error :=
  let? forced := map_err BadBuildKitVariable (Connection.parse_boolean docker_buildkit_env) in
  match forced with
  | Some true => Ok BuilderBuildKit
  | Some false => Ok BuilderV1
  | None =>
      match daemon_advertised with
      | None => Ok BuilderV1
      | Some advertised =>
          if bool_decide (advertised = EmptyString ∨ advertised = "1") then Ok BuilderV1
          else if bool_decide (advertised = "2") then Ok BuilderBuildKit
          else Err (UnknownBuilder advertised)
      end
  end.

Definition refuse_buildkit_options_on_the_classic_builder (builder_version : BuilderVersion)
    (buildkit : option BuildKitOptions) (tag : string) : result () client_error :=
  match builder_version, buildkit with
  | BuilderV1, Some _ => Err (NeedsBuildKit tag)
  | _, _ => Ok tt
  end.

Definition label_filters (labels : list (string * option string)) : list string :=
  (λ p : string * option string, match p.2 with Some value => p.1 +:+ "=" +:+ value | None => p.1 end) <$> labels.

Definition show_Z (z : Z) : string := if (z <? 0)%Z then "-" +:+ show_N (Z.abs_N z) else show_N (Z.to_N z).
Definition NL : string := String "010" EmptyString.

Definition UNHEALTHY_VERDICT : string :=
  "The configured health check did not indicate that the container was healthy within the timeout period.".

Definition unhealthy_message (last_result : option HealthcheckResult) : string :=
  match last_result with
  | None => UNHEALTHY_VERDICT
  | Some last_result =>
      let exit_code := default 0%Z (hr_exit_code last_result) in
      let output := default EmptyString (hr_output last_result) in
      let details :=
        if (exit_code =? 0)%Z then
          "The most recent health check exited with code 0, which usually indicates that the container became healthy just after the timeout period expired."
        else if bool_decide (output = EmptyString) then
          "The last health check exited with code " +:+ show_Z exit_code +:+ " but did not produce any output."
        else
          "The last health check exited with code " +:+ show_Z exit_code +:+ " and output:" +:+ NL +:+ trim output
      in UNHEALTHY_VERDICT +:+ " " +:+ details
  end.

Definition build_output_suffix (output : string) : string :=
  let trimmed := trim_end output in
  if bool_decide (trimmed = EmptyString) then EmptyString else NL +:+ NL +:+ "Build output:" +:+ NL +:+ trimmed.

(** [grace_period.as_secs() + u64::from(subsec_nanos() > 0)], capped at [i32::MAX];
    a period is in nanoseconds. *)
Definition stop_seconds (grace_period : N) : Z :=
  Z.min (Z.of_N (grace_period / 1000000000 + (if (grace_period mod 1000000000 =? 0)%N then 0 else 1))) 2147483647.

Definition stop_options (stop_signal : option string) (stop_grace_period : option N) : option StopOptions :=
  match stop_signal, stop_grace_period with
  | None, None => None
  | _, _ => Some (mk_stop_options stop_signal (stop_seconds <$> stop_grace_period))
  end.

(** ** The client *)

(** What is found once, the followers of containers' output, and the world. *)
Record client (W : Type) := mk_client {
  cl_world : W;
  cl_builder_version : option BuilderVersion;
  cl_daemon_class : option DaemonClass;
  cl_log_followers : gset string;
}.
Arguments mk_client {W}.
Arguments cl_world {W}.
Arguments cl_builder_version {W}.
Arguments cl_daemon_class {W}.
Arguments cl_log_followers {W}.

Record client_settings := mk_client_settings {
  se_enable_buildkit : bool;
  se_docker_buildkit : option string;
  se_host_os : string;
  se_daemon_host : string;
  se_wants_progress : bool;
  se_interleaved : bool;
}.

Notation call W A := (Io.action (client W) api_request client_error A) (only parsing).

Section client.
Context {W : Type} `{!DockerApi W, !BuildHost W, !RegistryCredentialResolver, !CredentialJson, !PathClean, !RegexCrate}.
Context (read_proxies : string → option (gmap string ConfigFileProxies)) (settings : client_settings).

Definition with_world (w : W) (c : client W) : client W :=
  mk_client w (cl_builder_version c) (cl_daemon_class c) (cl_log_followers c).

(** A request whose failure is reported as it is. *)
Definition ask {A} (r : api_request) (answer : W → W * result A api_error) : call W A := λ c,
  let '(w, a) := answer (cl_world c) in (with_world w c, [r], map_err (RequestFailed r) a).

(** A request whose answer is looked at whatever it is. *)
Definition ask_any {A} (r : api_request) (answer : W → W * A) : call W A := λ c,
  let '(w, a) := answer (cl_world c) in (with_world w c, [r], Ok a).

Definition post (r : api_request) : call W () := λ c, (c, [r], Ok tt).

(** ** A new client *)

(** [DockerClient::new], given the connection that was made. *)
Definition new_client (target : Connection.DaemonTarget) (note : option Connection.VerificationNote) : call W () :=
  do! negotiated := ask_any NegotiateVersion api_negotiate in
  do! negotiated := act_lift (map_err (λ e, NotReached (Connection.explain_failure target note e
      "Failed to negotiate the Docker API version with the daemon")) negotiated) in
  do! _ := act_lift (check_api_version_floor negotiated) in
  do! version := ask_any Version api_version in
  do! version := act_lift (map_err (λ e, NotReached (Connection.explain_failure target note e
      "Failed to read the Docker daemon's operating system")) version) in
  act_lift (check_daemon_os version.2).

(** [get_or_try_init]: what a failure leaves is not kept. *)
Definition builder_version : call W BuilderVersion := λ c,
  match cl_builder_version c with
  | Some found => (c, [], Ok found)
  | None =>
      (do! advertised := ask Ping api_ping in
       do! selected := act_lift (select_builder_version
           (docker_buildkit_env_value (se_enable_buildkit settings) (se_docker_buildkit settings)) advertised) in
       λ c, (mk_client (cl_world c) (Some selected) (cl_daemon_class c) (cl_log_followers c), [], Ok selected)) c
  end.

Definition daemon_class : call W DaemonClass := λ c,
  match cl_daemon_class c with
  | Some found => (c, [], Ok found)
  | None =>
      (do! security_options := ask Info api_info in
       let found := classify (default [] security_options) (se_host_os settings)
                      (transport_of_host (se_daemon_host settings)) in
       λ c, (mk_client (cl_world c) (cl_builder_version c) (Some found) (cl_log_followers c), [], Ok found)) c
  end.

(** ** Images *)

Definition digest_of (status : string) : option string := strip_prefix "Digest: " status.

(** The loop over what a pull's stream gives: the last digest. *)
Fixpoint pull_loop (image : string) (r : api_request) (digest : option string)
    (stream : list (result (option string) api_error)) : call W (option string) :=
  match stream with
  | [] => act_ret digest
  | Err e :: _ => act_fail (RequestFailed r e)
  | Ok None :: stream => pull_loop image r digest stream
  | Ok (Some status) :: stream =>
      let digest := match digest_of status with Some found => Some found | None => digest end in
      do! _ := if se_wants_progress settings then post (PostPullProgress image status) else act_ret tt in
      pull_loop image r digest stream
  end.

Definition pull_image (image : string) : call W string :=
  let '(credentials, warning) := resolve_pull_credential image in
  do! _ := match warning with Some warning => post (PostWarning warning) | None => act_ret tt end in
  let '(from_image, tag) := pull_request_reference image in
  let r := CreateImage from_image tag credentials in
  do! stream := ask_any r (λ w, api_create_image w from_image tag credentials) in
  do! pulled_digest := pull_loop image r None stream in
  let lookup := match pulled_digest with Some digest => digest_pinned_reference image digest | None => image end in
  do! pulled := ask (InspectImage lookup) (λ w, api_inspect_image w lookup) in
  act_lift (ok_or pulled (NoIdAfterPull image)).

Definition local_image_id (image : string) : call W (option string) :=
  do! found := ask_any (InspectImage image) (λ w, api_inspect_image w image) in
  match found with
  | Ok id => do! id := act_lift (ok_or id (NoLocalId image)) in act_ret (Some id)
  | Err (ServerError status_code) =>
      if (status_code =? 404)%Z then act_ret None else act_fail (RequestFailed (InspectImage image) (ServerError status_code))
  | Err e => act_fail (RequestFailed (InspectImage image) e)
  end.

(** [collect_build_context_entries]: the files below, links and the rest left out;
    [None] when something cannot be read. *)
Definition both {A} (first rest : option (list A)) : option (list A) :=
  match first, rest with Some first, Some rest => Some (first ++ rest) | _, _ => None end.

Fixpoint collect_entry (prefix : list string) (entry : dir_entry) : option (list (list string)) :=
  match entry with
  | EntryFile name => Some [prefix ++ [name]]
  | EntryDir name None => None
  | EntryDir name (Some contents) =>
      foldr (λ entry, both (collect_entry (prefix ++ [name]) entry)) (Some []) contents
  | EntryOther _ => Some []
  | EntryUnreadable => None
  end.

Definition collect_build_context_entries (contents : option (list dir_entry)) : option (list string) :=
  match contents with
  | Some contents =>
      match foldr (λ entry, both (collect_entry [] entry)) (Some []) contents with
      | Some found => Some (join "/" <$> found)
      | None => None
      end
  | None => None
  end.

Definition add_entry (w : W) (build_directory relative_path : string) : result ContextEntry client_error :=
  let? (mode, contents) := ok_or (host_file w build_directory relative_path) (ContextFileUnreadable relative_path) in
  Ok (mk_context_entry relative_path mode contents).

Fixpoint add_entries (w : W) (build_directory : string) (paths : list string) : result (list ContextEntry) client_error :=
  match paths with
  | [] => Ok []
  | path :: paths =>
      let? entry := add_entry w build_directory path in
      let? entries := add_entries w build_directory paths in
      Ok (entry :: entries)
  end.

Definition build_context_tar (w : W) (build_directory dockerfile : string) : result (list ContextEntry) client_error :=
  let? ignore_file :=
    match host_ignore_file w build_directory with
    | NoIgnoreFile => Ok None
    | IgnoreFile contents => Ok (Some contents)
    | IgnoreFailed => Err IgnoreFileFailed
    end in
  (* the patterns are compiled before the walk *)
  let? _ := map_err BadIgnorePattern (context_entries ignore_file dockerfile []) in
  let? found := ok_or (collect_build_context_entries (host_read_dir w build_directory)) ContextUnreadable in
  let? paths := map_err BadIgnorePattern (context_entries ignore_file dockerfile found) in
  add_entries w build_directory paths.

(** ** Builds *)

(** [post_build_lines] *)
Definition post_build_lines (tag : string) (lines : list string) : call W () :=
  if se_wants_progress settings then act_each (λ line, post (PostBuildProgress tag line)) lines else act_ret tt.

Fixpoint classic_loop (tag : string) (output : ClassicBuildOutput) (image_id : option string)
    (stream : list (result BuildInfo api_error)) : call W string :=
  match stream with
  | [] =>
      do! _ := post_build_lines tag (classic_finish output).2 in
      act_lift (ok_or image_id (NoBuiltId tag))
  | Err e :: _ =>
      do! _ := post_build_lines tag (classic_finish output).2 in
      act_fail (BuildStreamFailed tag (build_output_suffix (c_transcript output)) e)
  | Ok info :: stream =>
      match bi_error info with
      | Some message =>
          do! _ := post_build_lines tag (classic_finish output).2 in
          act_fail (BuildFailed tag message (build_output_suffix (c_transcript output)))
      | None =>
          let '(output, lines) := match bi_stream info with
                                  | Some chunk => classic_push output chunk
                                  | None => (output, [])
                                  end in
          do! _ := post_build_lines tag lines in
          let image_id := match bi_aux info with
                          | Some (AuxDefault (Some id)) => Some id
                          | _ => image_id
                          end in
          classic_loop tag output image_id stream
      end
  end.

Definition finish_lines (tag : string) (output : BuildKitOutput) : call W () :=
  match buildkit_finish output with
  | Some (_, lines) => post_build_lines tag lines
  | None => act_fail BuildOutputPanicked
  end.

Fixpoint buildkit_loop (tag : string) (output : BuildKitOutput) (image_id : option string)
    (stream : list (result BuildInfo api_error)) : call W string :=
  match stream with
  | [] =>
      do! _ := finish_lines tag output in
      act_lift (ok_or image_id (NoBuiltId tag))
  | Err e :: _ =>
      do! _ := finish_lines tag output in
      act_fail (BuildStreamFailed tag (build_output_suffix (transcript output)) e)
  | Ok info :: stream =>
      match bi_aux info with
      | Some (AuxBuildKit status) =>
          match buildkit_push output status with
          | Some (output, lines) =>
              do! _ := post_build_lines tag lines in
              buildkit_loop tag output image_id stream
          | None => act_fail BuildOutputPanicked
          end
      | Some (AuxDefault (Some id)) => buildkit_loop tag output (Some id) stream
      | _ => buildkit_loop tag output image_id stream
      end
  end.

Definition secret_source_of (source : BuildSecretSource) : SecretSource :=
  match source with SecretEnvironment name => SecretFromEnv name | SecretFile path => SecretFromFile path end.

(** One round of the loop over the SSH agents. *)
Fixpoint ssh_sources (agents : list (string * SshAgentSource)) : call W (list (string * AgentSource)) :=
  match agents with
  | [] => act_ret []
  | (id, source) :: agents =>
      do! source :=
        match source with
        | HostAgent => act_ret DefaultAgentSocket
        | AgentSocket path => act_ret (AgentAt path)
        | AgentKeys key_files =>
            do! started := ask_any (StartKeyring key_files) (λ w, keyring_start w key_files) in
            act_lift (result_map AgentAt (map_err (KeysNotServed id) started))
        end in
      do! rest := ssh_sources agents in
      act_ret ((id, source) :: rest)
  end.

Definition build_image_via_buildkit (spec : BuildSpec) (build_args : option (gmap string string))
    (credentials : option (gmap string DockerCredentials)) (build_id : string) : call W string :=
  do! w := act_read cl_world in
  do! context := act_lift (build_context_tar w (bs_build_directory spec) (bs_dockerfile spec)) in
  let secrets := match bs_buildkit spec with
                 | Some buildkit => (λ p : string * BuildSecretSource, (p.1, secret_source_of p.2)) <$> map_to_list (bk_secrets buildkit)
                 | None => []
                 end in
  do! ssh := ssh_sources (match bs_buildkit spec with Some buildkit => map_to_list (bk_ssh_agents buildkit) | None => [] end) in
  let request := mk_build_request (bs_dockerfile spec) (bs_tag spec) true true BuilderBuildKit (Some build_id) build_args
    (bs_target spec) (if bs_force_pull spec then Some "true" else None) (extra_host <$> bs_proxy_host_gateway spec)
    (match secrets with [] => false | _ => true end) credentials secrets ssh context in
  do! stream := ask_any (BuildImage request) (λ w, api_build_image w request) in
  buildkit_loop (bs_tag spec) buildkit_new None stream.

Definition build_image_classic (spec : BuildSpec) (build_args : option (gmap string string))
    (credentials : option (gmap string DockerCredentials)) : call W string :=
  do! w := act_read cl_world in
  do! context := act_lift (build_context_tar w (bs_build_directory spec) (bs_dockerfile spec)) in
  let request := mk_build_request (bs_dockerfile spec) (bs_tag spec) true true BuilderV1 None build_args
    (bs_target spec) (if bs_force_pull spec then Some "true" else None) (extra_host <$> bs_proxy_host_gateway spec)
    false credentials [] [] context in
  do! stream := ask_any (BuildImage request) (λ w, api_build_image w request) in
  classic_loop (bs_tag spec) classic_new None stream.

Definition build_image (spec : BuildSpec) (build_id : string) : call W string :=
  do! builder := builder_version in
  do! _ := act_lift (refuse_buildkit_options_on_the_classic_builder builder (bs_buildkit spec) (bs_tag spec)) in
  do! config_json := act_read (λ c, host_config_json (cl_world c)) in
  let build_args := build_args_with_config_file_proxies read_proxies spec config_json (se_daemon_host settings) in
  let '(registries, list_warning) := match config_json with
                                     | Some config_json => build_registries config_json
                                     | None => ([], None)
                                     end in
  let '(credentials, warnings) := resolve_build_credentials registries in
  do! _ := act_each (λ warning, post (PostWarning warning)) (option_list list_warning ++ warnings) in
  let credentials := if bool_decide (credentials = ∅) then None else Some credentials in
  match builder with
  | BuilderBuildKit => build_image_via_buildkit spec build_args credentials build_id
  | BuilderV1 => build_image_classic spec build_args credentials
  end.

Definition cancel_build (build_id : string) : call W () := λ c,
  if bool_decide (cl_builder_version c = Some BuilderBuildKit)
  then ask (CancelBuild build_id) (λ w, api_cancel_build w build_id) c
  else (c, [], Ok tt).

Definition tag_image (image_id tag : string) : call W () :=
  let '(repo, tag_component) := split_image_reference tag in
  let tag := default "latest" tag_component in
  ask (TagImage image_id repo tag) (λ w, api_tag_image w image_id repo tag).

(** ** Networks *)

Definition create_network (name : string) (labels : gmap string string) : call W () :=
  ask (CreateNetwork name labels) (λ w, api_create_network w name labels).

Definition network_exists (name : string) : call W bool :=
  do! found := ask_any (InspectNetwork name) (λ w, api_inspect_network w name) in
  match found with
  | Ok _ => act_ret true
  | Err (ServerError status_code) =>
      if (status_code =? 404)%Z then act_ret false else act_fail (RequestFailed (InspectNetwork name) (ServerError status_code))
  | Err e => act_fail (RequestFailed (InspectNetwork name) e)
  end.

Definition remove_network (name : string) : call W () :=
  do! removed := ask_any (RemoveNetwork name) (λ w, api_remove_network w name) in
  match removed with
  | Ok _ => act_ret tt
  | Err (ServerError status_code) =>
      if (status_code =? 404)%Z then act_ret tt else act_fail (RequestFailed (RemoveNetwork name) (ServerError status_code))
  | Err e => act_fail (RequestFailed (RemoveNetwork name) e)
  end.

(** ** Containers *)

(** An attach before the start, where output is followed. *)
Definition start_background_container (container_id : string) : call W () :=
  do! _ := if se_interleaved settings then ask (AttachContainer container_id) (λ w, api_attach w container_id) else act_ret tt in
  do! _ := ask (StartContainer container_id) (λ w, api_start_container w container_id) in
  λ c, (if se_interleaved settings
        then mk_client (cl_world c) (cl_builder_version c) (cl_daemon_class c) ({[container_id]} ∪ cl_log_followers c)
        else c, [], Ok tt).

(** Best-effort: an inspection that fails leaves the verdict alone. *)
Definition unhealthy_details (container_id : string) : call W string :=
  do! inspection := ask_any (InspectContainer container_id) (λ w, api_inspect_container w container_id) in
  act_ret (unhealthy_message
    (inspection ← match inspection with Ok inspection => Some inspection | Err _ => None end;
     log ← in_health_log inspection;
     last log)).

Definition wait_for_container_healthy (container_id : string) : call W () :=
  do! inspection := ask (InspectContainer container_id) (λ w, api_inspect_container w container_id) in
  match in_health_test inspection with
  | None | Some [] => act_ret tt
  | Some _ =>
      let r := Events container_id "0" in
      do! event := ask_any r (λ w, api_first_event w container_id "0") in
      match event with
      | None => act_fail EventStreamEnded
      | Some (Err e) => act_fail (RequestFailed r e)
      | Some (Ok action) =>
          if bool_decide (action = Some "health_status: healthy") then act_ret tt
          else if bool_decide (action = Some "health_status: unhealthy") then
            do! message := unhealthy_details container_id in
            act_fail (Unhealthy message)
          else if bool_decide (action = Some "die") then act_fail ExitedBeforeHealthy
          else act_fail (UnexpectedEvent (default "<none>" action))
      end
  end.

Definition exit_code (container_id : string) : call W Z :=
  do! answer := ask_any (WaitContainer container_id) (λ w, api_wait_container w container_id) in
  match answer with
  | Some (Ok status_code) => act_ret status_code
  | Some (Err (ContainerWaitError code)) => act_ret code
  | Some (Err e) => act_fail (RequestFailed (WaitContainer container_id) e)
  | None => act_fail (NoExitStatus container_id)
  end.

Definition wait_for_container_exit (container_id : string) : call W Z := exit_code container_id.

(** A stream of text, to its end or its first error. *)
Fixpoint collect_output (r : api_request) (output : string) (stream : list (result string api_error)) : call W string :=
  match stream with
  | [] => act_ret output
  | Err e :: _ => act_fail (RequestFailed r e)
  | Ok chunk :: stream => collect_output r (output +:+ chunk) stream
  end.

Definition container_output (container_id : string) : call W string :=
  do! stream := ask_any (Logs container_id) (λ w, api_logs w container_id) in
  collect_output (Logs container_id) EmptyString stream.

Definition container_is_running (container_id : string) : call W bool :=
  do! inspection := ask (InspectContainer container_id) (λ w, api_inspect_container w container_id) in
  act_lift (ok_or (in_running inspection) (NoState container_id)).

Record ExecResult := mk_exec_result { xr_exit_code : Z; xr_output : string }.

Definition exec_in_container (container_id command : string) (working_directory : option string)
    (environment : option (gmap string string)) (user : option string) : call W ExecResult :=
  do! cmd := act_lift (map_err BadCommand (tokenize_command_line command)) in
  let o := mk_exec_options true (build_env environment) cmd user working_directory in
  do! id := ask (CreateExec container_id o) (λ w, api_create_exec w container_id o) in
  do! started := ask (StartExec id) (λ w, api_start_exec w id) in
  do! output := match started with
                | Some stream => collect_output (StartExec id) EmptyString stream
                | None => act_ret EmptyString
                end in
  do! code := ask (InspectExec id) (λ w, api_inspect_exec w id) in
  do! code := act_lift (ok_or code (NoExecExitCode container_id)) in
  act_ret (mk_exec_result code output).

(** [LogFollowers::await_and_remove] *)
Definition await_and_remove (container_id : string) : call W () := λ c,
  if bool_decide (container_id ∈ cl_log_followers c)
  then (mk_client (cl_world c) (cl_builder_version c) (cl_daemon_class c) (cl_log_followers c ∖ {[container_id]}),
        [AwaitFollower container_id], Ok tt)
  else (c, [], Ok tt).

Definition remove_container_forcibly (container_id : string) : call W () :=
  let r := RemoveContainer container_id true true in
  do! removed := ask_any r (λ w, api_remove_container w container_id true true) in
  do! _ := match removed with
           | Ok _ => act_ret tt
           | Err (ServerError status_code) =>
               if (status_code =? 404)%Z || (status_code =? 409)%Z then act_ret tt
               else act_fail (RequestFailed r (ServerError status_code))
           | Err e => act_fail (RequestFailed r e)
           end in
  await_and_remove container_id.

Definition stop_and_remove_container (container_id : string) (stop_signal : option string)
    (stop_grace_period : option N) : call W () :=
  let o := stop_options stop_signal stop_grace_period in
  let r := StopContainer container_id o in
  do! stopped := ask_any r (λ w, api_stop_container w container_id o) in
  do! _ := match stopped with
           | Ok _ => act_ret tt
           | Err (ServerError status_code) =>
               if (status_code =? 404)%Z then act_ret tt else act_fail (RequestFailed r (ServerError status_code))
           | Err e => act_fail (RequestFailed r e)
           end in
  remove_container_forcibly container_id.

(** ** Inventories *)

(** [trim_start_matches('/')] *)
Definition trim_slashes (s : string) : string :=
  of_chars ((fix trim l := match l with "/"%char :: l => trim l | _ => l end) (chars s)).

Definition labelled_container (c : ListedContainer) : Resources.LabelledResource :=
  Resources.mk_resource (default EmptyString (lc_id c))
    (default EmptyString (trim_slashes <$> (lc_names c ≫= head)))
    (default ∅ (lc_labels c)) (lc_created c) (lc_state c).

Definition labelled_network (n : ListedNetwork) : Resources.LabelledResource :=
  Resources.mk_resource (default EmptyString (ln_id n)) (default EmptyString (ln_name n))
    (default ∅ (ln_labels n)) (ln_created n) None.

Definition list_containers (labels : list (string * option string)) : call W (list Resources.LabelledResource) :=
  let filters := label_filters labels in
  do! containers := ask (ListContainers true filters) (λ w, api_list_containers w true filters) in
  act_ret (labelled_container <$> containers).

Definition list_networks (labels : list (string * option string)) : call W (list Resources.LabelledResource) :=
  let filters := label_filters labels in
  do! networks := ask (ListNetworks filters) (λ w, api_list_networks w filters) in
  act_ret (labelled_network <$> networks).

Definition list_volumes : call W (list string) :=
  do! volumes := ask ListVolumes api_list_volumes in act_ret (default [] volumes).

Definition remove_volume (name : string) : call W () := ask (RemoveVolume name) (λ w, api_remove_volume w name).
End client.
