(* ===== verification/DockerClientSpec.v ===== *)
(** * DockerClientSpec: what the daemon is asked, and what is made of its answers *)

From S2P Require Import Prelude Text Collections Io LineBuffer BuildOutput Dockerignore Paths Proxy ContainerSpec.
From S2P Require Import Regex ContainerRequest CommandLine Credentials DockerClient.
From S2P Require Connection Resources LexicalClean.
From stdpp Require Import options.

(** ** References *)


Lemma split_image_reference_spec reference :
  match split_image_reference reference with
  | (repository, Some tag) =>
      reference = repository +:+ ":" +:+ tag ∧ ":"%char ∉ chars tag ∧ "/"%char ∉ chars tag
  | (repository, None) => repository = reference
  end.
Proof.
  unfold split_image_reference.
  destruct (rsplit_once "/" reference) as [[before name]|] eqn:E.
  - apply rsplit_once_Some in E as [-> Hslash].
    destruct (rsplit_once ":" name) as [[repository tag]|] eqn:E2; [|done].
    apply rsplit_once_Some in E2 as [-> Hcolon]. split_and!; [|done|].
    + by rewrite <-!string_app_assoc.
    + rewrite chars_app in Hslash. cbn [chars] in Hslash. set_solver.
  - apply rsplit_once_None in E. destruct (rsplit_once ":" reference) as [[repository tag]|] eqn:E2; [|done].
    apply rsplit_once_Some in E2 as [-> Hcolon]. split_and!; [done..|].
    rewrite chars_app in E. cbn [chars] in E. set_solver.
Qed.

(** A pull names one image: a digest, or a tag. *)
Lemma pull_request_reference_spec reference :
  match pull_request_reference reference with
  | (from_image, None) => from_image = reference ∧ "@"%char ∈ chars reference
  | (from_image, Some tag) =>
      "@"%char ∉ chars reference ∧ ":"%char ∉ chars tag ∧ "/"%char ∉ chars tag ∧
      (reference = from_image +:+ ":" +:+ tag ∨ reference = from_image ∧ tag = "latest")
  end.
Proof.
  unfold pull_request_reference, contains_char. case_bool_decide as Hat; [done|].
  pose proof (split_image_reference_spec reference) as Hs.
  destruct (split_image_reference reference) as [repository [tag|]]; cbn.
  - destruct Hs as (? & ? & ?). auto.
  - subst repository. split_and!; [done|..|by right]; by apply (bool_decide_unpack _).
Qed.

(** ** Credentials *)

Section credentials.
Context `{!RegistryCredentialResolver}.

Lemma resolve_each_spec registries credentials warnings :
  let '(found, said) := resolve_each registries credentials warnings in
  (∀ registry credential, found !! registry = Some credential ↔
    registry ∈ registries ∧ resolve registry = Ok (Some credential) ∨
    credentials !! registry = Some credential ∧
      ¬ (registry ∈ registries ∧ ∃ other, resolve registry = Ok (Some other))) ∧
  said = warnings ++ omap (λ registry, match resolve registry with
                                       | Err error => Some (NotResolved registry error)
                                       | Ok _ => None
                                       end) registries.
Proof.
  revert credentials warnings. induction registries as [|r registries IH]; intros credentials warnings; cbn [resolve_each].
  { split; [|by rewrite app_nil_r]. intros. rewrite elem_of_nil. naive_solver. }
  destruct (resolve r) as [[credential|]|error] eqn:E.
  - specialize (IH (<[r := credential]> credentials) warnings). destruct (resolve_each _ _ _) as [found said].
    destruct IH as [Hfound ->]. split; [|cbn; by rewrite E].
    intros registry c. rewrite Hfound, elem_of_cons. destruct (decide (r = registry)) as [<-|Hne].
    + rewrite lookup_insert_eq, E. assert (∃ other, Ok (E := resolve_error) (Some credential) = Ok (Some other)) by by eexists.
      destruct (decide (r ∈ registries)); split; intros Hx; destruct Hx as [[? Hx]|[Hx ?]]; simplify_eq; auto; tauto.
    + rewrite lookup_insert_ne by done. naive_solver.
  - specialize (IH credentials warnings). destruct (resolve_each _ _ _) as [found said].
    destruct IH as [Hfound ->]. split; [|cbn; by rewrite E].
    intros registry c. rewrite Hfound, elem_of_cons. destruct (decide (r = registry)) as [<-|Hne]; [|naive_solver].
    rewrite E. split; (intros [[_ ?]|[? _]]; [done|right; split; [done|by intros [_ [? ?]]]]).
  - specialize (IH credentials (warnings ++ [NotResolved r error])). destruct (resolve_each _ _ _) as [found said].
    destruct IH as [Hfound ->]. split; [|cbn; rewrite E; by rewrite <-app_assoc].
    intros registry c. rewrite Hfound, elem_of_cons. destruct (decide (r = registry)) as [<-|Hne]; [|naive_solver].
    rewrite E. split; (intros [[_ ?]|[? _]]; [done|right; split; [done|by intros [_ [? ?]]]]).
Qed.

(** A build is given exactly the credentials that resolve, and a warning names each
    registry that fails to. *)
Lemma resolve_build_credentials_spec registries :
  let '(found, said) := resolve_build_credentials registries in
  (∀ registry credential, found !! registry = Some credential ↔
    registry ∈ registries ∧ resolve registry = Ok (Some credential)) ∧
  said = omap (λ registry, match resolve registry with
                           | Err error => Some (NotResolved registry error)
                           | Ok _ => None
                           end) registries.
Proof.
  unfold resolve_build_credentials. pose proof (resolve_each_spec registries ∅ []) as Hs.
  destruct (resolve_each registries ∅ []) as [found said]. destruct Hs as [Hfound ->]. split; [|done].
  intros registry credential. rewrite Hfound, lookup_empty. naive_solver.
Qed.
End credentials.

(** ** Stopping *)

(** A grace period becomes whole seconds that are never shorter, up to the width of
    Docker's field. *)
Lemma stop_seconds_spec period :
  (0 ≤ stop_seconds period ≤ 2147483647)%Z ∧
  (stop_seconds period < 2147483647 →
    (stop_seconds period - 1) * 1000000000 < Z.of_N period ≤ stop_seconds period * 1000000000)%Z ∨
  period = 0%N ∧ stop_seconds period = 0%Z.
Proof.
  destruct (decide (period = 0%N)) as [->|Hne]; [right; done|left].
  unfold stop_seconds. pose proof (N.div_mod period 1000000000 ltac:(done)) as Hd.
  pose proof (N.mod_lt period 1000000000 ltac:(done)) as Hm.
  set (q := (period / 1000000000)%N) in *. set (m := (period mod 1000000000)%N) in *. clearbody q m.
  destruct (N.eqb_spec m 0); lia.
Qed.

Lemma stop_options_None signal period : stop_options signal period = None ↔ signal = None ∧ period = None.
Proof. destruct signal, period; naive_solver. Qed.

(** ** Calls *)

Section calls.
Context {W : Type} `{!DockerApi W, !BuildHost W, !RegistryCredentialResolver, !CredentialJson, !PathClean, !RegexCrate}.
Context (settings : client_settings).

(** What is said to the user, and asked of nobody. *)
Definition is_post (r : api_request) : bool :=
  match r with PostWarning _ | PostPullProgress _ _ | PostBuildProgress _ _ => true | _ => false end.

Definition requests (asked : list api_request) : list api_request := filter (λ r, is_post r = false) asked.

Lemma requests_app a b : requests (a ++ b) = requests a ++ requests b.
Proof. apply filter_app. Qed.

Lemma requests_cons r l : requests (r :: l) = if is_post r then requests l else r :: requests l.
Proof. unfold requests. rewrite filter_cons. by destruct (is_post r). Qed.

Lemma requests_posts l : Forall (λ r, is_post r = true) l → requests l = [].
Proof.
  induction 1 as [|r l Hr _ IH]; [done|]. unfold requests. rewrite filter_cons_False; [done|]. by rewrite Hr.
Qed.

(** *** A pull *)

Fixpoint first_error (stream : list (result (option string) api_error)) : option api_error :=
  match stream with
  | [] => None
  | Err e :: _ => Some e
  | Ok _ :: stream => first_error stream
  end.

Definition last_digest (stream : list (result (option string) api_error)) : option string :=
  last (omap (λ status, match status with Ok (Some status) => digest_of status | _ => None end) stream).

Lemma pull_loop_spec image r stream (c : client W) digest :
  ∃ asked, Forall (λ r, is_post r = true) asked ∧
  pull_loop settings image r digest stream c =
    (c, asked, match first_error stream with
               | Some e => Err (RequestFailed r e)
               | None => Ok (match last_digest stream with Some found => Some found | None => digest end)
               end).
Proof using Type.
  revert digest. induction stream as [|[[status|]|e] stream IH]; intros digest; cbn [pull_loop first_error].
  - by exists [].
  - destruct (IH (match digest_of status with Some found => Some found | None => digest end)) as (asked & Hposts & IHr).
    exists ((if se_wants_progress settings then [PostPullProgress image status] else []) ++ asked).
    split. { apply Forall_app. split; [|done]. destruct (se_wants_progress settings); by repeat constructor. }
    unfold act_bind. destruct (se_wants_progress settings); cbn [post act_ret]; rewrite IHr;
      (repeat f_equal; destruct (first_error stream); [done|]; unfold last_digest; cbn [omap list_omap];
       destruct (digest_of status) as [d|]; [|done]; cbn; rewrite last_cons; by destruct (last _)).
  - destruct (IH digest) as (asked & Hposts & IHr). by exists asked.
  - by exists [].
Qed.

(** What a pull gives, request by request. *)
Definition pulled (image : string) (c : client W) (c' : client W) (asked : list api_request)
    (r : result string client_error) : Prop :=
  let '(from_image, tag) := pull_request_reference image in
  let credentials := (resolve_pull_credential image).1 in
  let '(w, stream) := api_create_image (cl_world c) from_image tag credentials in
  let create := CreateImage from_image tag credentials in
  match first_error stream with
  | Some e => requests asked = [create] ∧ c' = with_world w c ∧ r = Err (RequestFailed create e)
  | None =>
      let lookup := match last_digest stream with
                    | Some digest => digest_pinned_reference image digest
                    | None => image
                    end in
      let '(w, found) := api_inspect_image w lookup in
      requests asked = [create; InspectImage lookup] ∧ c' = with_world w c ∧
      r = match found with
          | Ok (Some id) => Ok id
          | Ok None => Err (NoIdAfterPull image)
          | Err e => Err (RequestFailed (InspectImage lookup) e)
          end
  end.

Lemma pull_image_spec image (c : client W) :
  let '(c', asked, r) := pull_image settings image c in pulled image c c' asked r.
Proof using Type.
  unfold pull_image, pulled.
  destruct (resolve_pull_credential image) as [credentials warning]. cbn [fst].
  destruct (pull_request_reference image) as [from_image tag].
  set (said := match warning with Some warning => post (PostWarning warning) | None => act_ret tt end).
  assert (∃ posts, said c = (c, posts, Ok tt) ∧ requests posts = []) as (posts & Hsaid & Hposts).
  { unfold said. destruct warning; by eexists. }
  unfold act_bind. rewrite Hsaid. unfold ask_any, ask.
  destruct (api_create_image _ _ _ _) as [w stream].
  destruct (pull_loop_spec image (CreateImage from_image tag credentials) stream (with_world w c) None)
    as (looped & Hlooped & ->).
  destruct (first_error stream) as [e|].
  { split_and!; [|done..]. by rewrite ?requests_app, ?requests_cons, ?requests_app, Hposts, (requests_posts looped). }
  assert (match last_digest stream with Some found => Some found | None => None end = last_digest stream) as ->
    by by destruct (last_digest stream).
  cbn [cl_world with_world].
  destruct (api_inspect_image _ _) as [w2 [[id|]|e]]; cbn;
    (split_and!; [|done|done]);
    repeat (rewrite ?requests_app, ?requests_cons; cbn [is_post]); by rewrite Hposts, (requests_posts looped).
Qed.

(** *** Stopping and removing *)

Definition answered (codes : list Z) (answer : result () api_error) : bool :=
  match answer with
  | Ok _ => true
  | Err (ServerError code) => bool_decide (code ∈ codes)
  | Err _ => false
  end.

Lemma remove_container_forcibly_spec container_id (c : client W) :
  let '(c', asked, r) := remove_container_forcibly container_id c in
  let '(w, removed) := api_remove_container (cl_world c) container_id true true in
  cl_world c' = w ∧
  if answered [404; 409]%Z removed
  then r = Ok tt ∧ container_id ∉ cl_log_followers c' ∧
    asked = RemoveContainer container_id true true ::
      (if bool_decide (container_id ∈ cl_log_followers c) then [AwaitFollower container_id] else [])
  else is_ok r = false ∧ asked = [RemoveContainer container_id true true].
Proof using Type.
  unfold remove_container_forcibly, act_bind, ask_any.
  destruct (api_remove_container (cl_world c) container_id true true) as [w removed].
  assert (let '(c', asked, r) := await_and_remove container_id (with_world w c) in
    cl_world c' = w ∧ r = Ok tt ∧ container_id ∉ cl_log_followers c' ∧
    asked = (if bool_decide (container_id ∈ cl_log_followers c) then [AwaitFollower container_id] else [])) as Hawait.
  { unfold await_and_remove. cbn [cl_log_followers with_world]. case_bool_decide; cbn; set_solver. }
  destruct removed as [[]|[code| |]]; cbn.
  - destruct (await_and_remove _ _) as [[c' asked] r]. destruct Hawait as (? & -> & ? & ->). done.
  - destruct (Z.eqb_spec code 404) as [->|H4]; [|destruct (Z.eqb_spec code 409) as [->|H9]]; cbn.
    + destruct (await_and_remove _ _) as [[c' asked] r]. destruct Hawait as (? & -> & ? & ->). done.
    + destruct (await_and_remove _ _) as [[c' asked] r]. destruct Hawait as (? & -> & ? & ->). done.
    + rewrite bool_decide_false by set_solver. done.
  - done.
  - done.
Qed.

(** A container is asked to be removed, with its volumes, exactly when its stop was
    answered or it was gone, and only after. *)
Lemma stop_and_remove_spec container_id signal period (c : client W) :
  let o := stop_options signal period in
  let '(c', asked, r) := stop_and_remove_container container_id signal period c in
  let '(w, stopped) := api_stop_container (cl_world c) container_id o in
  if answered [404%Z] stopped
  then
    let '(w, removed) := api_remove_container w container_id true true in
    cl_world c' = w ∧
    if answered [404; 409]%Z removed
    then r = Ok tt ∧ container_id ∉ cl_log_followers c' ∧
      asked = [StopContainer container_id o; RemoveContainer container_id true true] ++
        (if bool_decide (container_id ∈ cl_log_followers c) then [AwaitFollower container_id] else [])
    else is_ok r = false ∧ asked = [StopContainer container_id o; RemoveContainer container_id true true]
  else is_ok r = false ∧ cl_world c' = w ∧ asked = [StopContainer container_id o].
Proof using Type.
  unfold stop_and_remove_container, act_bind, ask_any. set (o := stop_options signal period).
  destruct (api_stop_container (cl_world c) container_id o) as [w stopped].
  pose proof (remove_container_forcibly_spec container_id (with_world w c)) as Hremove.
  cbn [cl_world cl_log_followers with_world] in Hremove.
  assert (∀ (rest : client W * list api_request * result () client_error),
    rest = (let '(c', asked, r) := remove_container_forcibly container_id (with_world w c) in
            (c', [StopContainer container_id o] ++ [] ++ asked, r)) →
    let '(c', asked, r) := rest in
    let '(w, removed) := api_remove_container w container_id true true in
    cl_world c' = w ∧
    if answered [404; 409]%Z removed
    then r = Ok tt ∧ container_id ∉ cl_log_followers c' ∧
      asked = [StopContainer container_id o; RemoveContainer container_id true true] ++
        (if bool_decide (container_id ∈ cl_log_followers c) then [AwaitFollower container_id] else [])
    else is_ok r = false ∧ asked = [StopContainer container_id o; RemoveContainer container_id true true]) as Hrest.
  { intros rest ->. destruct (remove_container_forcibly _ _) as [[c' asked] r].
    destruct (api_remove_container _ _ _ _) as [w2 removed]. destruct Hremove as [? Hremove]. split; [done|].
    destruct (answered _ _); [destruct Hremove as (-> & ? & ->)|destruct Hremove as [? ->]]; done. }
  destruct stopped as [[]|[code| |]]; cbn [answered].
  - cbn [act_ret]. apply Hrest. by destruct (remove_container_forcibly _ _) as [[? ?] ?].
  - destruct (Z.eqb_spec code 404) as [->|H4].
    + rewrite bool_decide_true by set_solver. cbn [act_ret]. apply Hrest.
      by destruct (remove_container_forcibly _ _) as [[? ?] ?].
    + rewrite bool_decide_false by set_solver. done.
  - done.
  - done.
Qed.

(** *** Health, and a new client *)

Lemma wait_for_container_healthy_spec container_id (c : client W) :
  let '(w, inspected) := api_inspect_container (cl_world c) container_id in
  is_ok (wait_for_container_healthy container_id c).2 = true ↔
  ∃ inspection, inspected = Ok inspection ∧
    (default [] (in_health_test inspection) = [] ∨
     (api_first_event w container_id "0").2 = Some (Ok (Some "health_status: healthy"))).
Proof using Type.
  unfold wait_for_container_healthy, act_bind, ask. destruct (api_inspect_container (cl_world c) container_id) as [w [inspection|e]]; cbn.
  2: { split; [done|]. by intros (? & ? & _). }
  destruct (in_health_test inspection) as [[|word test]|] eqn:Htest; cbn.
  1, 3: split; [|done]; intros _; exists inspection; split; [done|]; left; by rewrite Htest.
  unfold ask_any, with_world; cbn. destruct (api_first_event w container_id "0") as [w2 [[action|e]|]]; cbn.
  - case_bool_decide as Ha; cbn.
    { split; [|done]. intros _. exists inspection. split; [done|]. right. by rewrite Ha. }
    assert (¬ ∃ i, Ok (E := api_error) inspection = Ok i ∧
      (default [] (in_health_test i) = [] ∨ Some (Ok (E := api_error) action) = Some (Ok (Some "health_status: healthy")))) as Hno.
    { intros (i & [= <-] & [Hi|[= ?]]); [by rewrite Htest in Hi|done]. }
    case_bool_decide; [|case_bool_decide]; cbn; [|by split..].
    unfold unhealthy_details, act_bind, ask_any; cbn. destruct (api_inspect_container w2 container_id) as [? ?]. by split.
  - split; [done|]. intros (i & [= <-] & [Hi|?]); [by rewrite Htest in Hi|done].
  - split; [done|]. intros (i & [= <-] & [Hi|?]); [by rewrite Htest in Hi|done].
Qed.

Lemma new_client_spec target note (c : client W) :
  is_ok (new_client target note c).2 = true →
  ∃ major minor version os w,
    api_negotiate (cl_world c) = (w, Ok (major, minor)) ∧ (1 < major ∨ major = 1 ∧ 41 ≤ minor)%N ∧
    (api_version w).2 = Ok (version, os) ∧ (∀ name, os = Some name → to_ascii_lowercase name ≠ "windows").
Proof using Type.
  unfold new_client, act_bind, ask_any. destruct (api_negotiate (cl_world c)) as [w [[major minor]|e]] eqn:En; cbn; [|done].
  unfold check_api_version_floor. destruct (version_lt _ _) eqn:Ev; cbn; [done|].
  destruct (api_version w) as [w2 [[version os]|e]] eqn:Eversion; cbn; [|done].
  intros Hos. exists major, minor, version, os, w. split_and!; [done| |by rewrite Eversion|].
  - unfold version_lt in Ev. cbn in Ev.
    destruct (N.ltb_spec major 1), (N.eqb_spec major 1), (N.ltb_spec minor 41); cbn in Ev; try done; lia.
  - intros name ->. unfold check_daemon_os in Hos. by case_bool_decide.
Qed.

(** *** The builder *)

Lemma builder_version_spec (c : client W) :
  let '(c', asked, r) := builder_version settings c in
  match cl_builder_version c with
  | Some found => c' = c ∧ asked = [] ∧ r = Ok found
  | None =>
      asked = [Ping] ∧ cl_builder_version c' = match r with Ok found => Some found | Err _ => None end
  end.
Proof using Type.
  unfold builder_version. destruct (cl_builder_version c) as [found|] eqn:Hc; [done|].
  unfold act_bind, ask. destruct (api_ping (cl_world c)) as [w [advertised|e]]; cbn; [|done].
  by destruct (select_builder_version _ _).
Qed.

Lemma select_builder_version_spec env advertised :
  select_builder_version env advertised = Ok BuilderBuildKit ↔
  Connection.parse_boolean env = Ok (Some true) ∨ Connection.parse_boolean env = Ok None ∧ advertised = Some "2".
Proof using Type.
  unfold select_builder_version. destruct (Connection.parse_boolean env) as [[[]|]|e]; cbn; [naive_solver..| |naive_solver].
  destruct advertised as [a|]; [|naive_solver]. case_bool_decide; [naive_solver|]. case_bool_decide; naive_solver.
Qed.
End calls.

(** *** A build *)

Section builds.
Context {W : Type} `{!DockerApi W, !BuildHost W, !RegistryCredentialResolver, !CredentialJson, !PathClean, !RegexCrate}.
Context (read_proxies : string → option (gmap string ConfigFileProxies)) (settings : client_settings).

(** The context sent: the files below the build directory that the [.dockerignore]
    leaves, as [DockerignoreSpec] says. *)
Definition context_sent (spec : BuildSpec) (context : list ContextEntry) : Prop :=
  ∃ (w : W) ignore_file found,
    collect_build_context_entries (host_read_dir w (bs_build_directory spec)) = Some found ∧
    context_entries ignore_file (bs_dockerfile spec) found = Ok (xe_path <$> context) ∧
    (∀ entry, entry ∈ context →
      host_file w (bs_build_directory spec) (xe_path entry) = Some (xe_mode entry, xe_contents entry)).

(** The credentials and build arguments sent, by the Docker CLI's file as it was. *)
Definition credentials_sent (config_json : option string) (credentials : option (gmap string DockerCredentials)) : Prop :=
  credentials ≠ Some ∅ ∧
  ∀ registry credential, default ∅ credentials !! registry = Some credential ↔
    registry ∈ (match config_json with Some config_json => (build_registries config_json).1 | None => [] end) ∧
    resolve registry = Ok (Some credential).

(** What a request for a build holds. *)
Definition build_asked (spec : BuildSpec) (build_id : string) (config_json : option string) (builder : BuilderVersion)
    (q : BuildRequest) : Prop :=
  br_t q = bs_tag spec ∧ br_dockerfile q = bs_dockerfile spec ∧ br_target q = bs_target spec ∧
  br_rm q = true ∧ br_forcerm q = true ∧ br_pull q = (if bs_force_pull spec then Some "true" else None) ∧
  br_extrahosts q = extra_host <$> bs_proxy_host_gateway spec ∧
  br_buildargs q = build_args_with_config_file_proxies read_proxies spec config_json (se_daemon_host settings) ∧
  credentials_sent config_json (br_credentials q) ∧ context_sent spec (br_context q) ∧
  br_version q = builder ∧
  match builder with
  | BuilderV1 => bs_buildkit spec = None ∧ br_secrets q = [] ∧ br_ssh q = [] ∧ br_buildid q = None ∧ br_nocache q = false
  | BuilderBuildKit =>
      br_buildid q = Some build_id ∧
      (∀ id source, (id, source) ∈ br_secrets q ↔ ∃ options secret,
        bs_buildkit spec = Some options ∧ bk_secrets options !! id = Some secret ∧ source = secret_source_of secret) ∧
      (br_nocache q = true ↔ br_secrets q ≠ []) ∧
      (∀ id, id ∈ (br_ssh q).*1 ↔ ∃ options, bs_buildkit spec = Some options ∧ is_Some (bk_ssh_agents options !! id))
  end.

(** The image a build is said to have made: the last ID its stream gives, when
    nothing of the stream is a failure. *)
Definition aux_id (item : result BuildInfo api_error) : option string :=
  match item with Ok info => match bi_aux info with Some (AuxDefault id) => id | _ => None end | Err _ => None end.

Definition reported_id (stream : list (result BuildInfo api_error)) : option string := last (omap aux_id stream).

Definition gives_image (builder : BuilderVersion) (stream : list (result BuildInfo api_error)) (id : string) : Prop :=
  Forall (λ item, ∃ info, item = Ok info ∧ (builder = BuilderV1 → bi_error info = None)) stream ∧
  reported_id stream = Some id.

(** A build asks for one image, after the key agents it needs, or for none and fails. *)
Definition build_outcome (spec : BuildSpec) (build_id : string) (config_json : option string) (builder : BuilderVersion)
    (asked : list api_request) (r : result string client_error) : Prop :=
  ∃ keyrings, Forall (λ q, ∃ files, q = StartKeyring files) keyrings ∧ (builder = BuilderV1 → keyrings = []) ∧
  (is_ok r = false ∧ requests asked = keyrings ∨
   ∃ q (w : W), requests asked = keyrings ++ [BuildImage q] ∧ build_asked spec build_id config_json builder q ∧
     ∀ id, r = Ok id → gives_image builder (api_build_image w q).2 id).

Lemma add_entries_spec (w : W) directory paths entries :
  add_entries w directory paths = Ok entries →
  xe_path <$> entries = paths ∧
  ∀ entry, entry ∈ entries → host_file w directory (xe_path entry) = Some (xe_mode entry, xe_contents entry).
Proof using Type.
  revert entries. induction paths as [|path paths IH]; cbn; intros entries He.
  { injection He as <-. split; [done|]. by intros ? ?%elem_of_nil. }
  apply result_bind_Ok in He as (entry & Hentry & He). apply result_bind_Ok in He as (rest & Hrest & [= <-]).
  destruct (IH rest Hrest) as [<- Hfiles]. unfold add_entry in Hentry.
  destruct (host_file w directory path) as [[mode contents]|] eqn:Hf; [|done]. injection Hentry as <-. split; [done|].
  intros e [->|?]%elem_of_cons; [done|by apply Hfiles].
Qed.

Lemma build_context_tar_spec (w : W) spec context :
  build_context_tar w (bs_build_directory spec) (bs_dockerfile spec) = Ok context → context_sent spec context.
Proof using Type.
  unfold build_context_tar. intros Hx. apply result_bind_Ok in Hx as (ignore_file & _ & Hx).
  apply result_bind_Ok in Hx as (? & _ & Hx). apply result_bind_Ok in Hx as (found & Hfound & Hx).
  apply result_bind_Ok in Hx as (paths & Hpaths & Hx).
  destruct (collect_build_context_entries _) as [l|] eqn:Hl; [|done]. injection Hfound as ->.
  destruct (context_entries ignore_file (bs_dockerfile spec) found) as [ps|] eqn:Hps; [|done]. injection Hpaths as ->.
  destruct (add_entries_spec _ _ _ _ Hx) as [<- Hfiles]. by exists w, ignore_file, found.
Qed.

Lemma asks_post_lines P tag lines :
  (∀ line, P (PostBuildProgress tag line)) → asks (W := client W) P (post_build_lines settings tag lines).
Proof using Type.
  intros HP. unfold post_build_lines. destruct (se_wants_progress settings); [|apply asks_ret].
  apply asks_each. intros line _ w w' asked a [= <- <- <-]. by repeat constructor.
Qed.

Lemma asks_classic_loop P tag output image_id stream :
  (∀ line, P (PostBuildProgress tag line)) → asks (W := client W) P (classic_loop settings tag output image_id stream).
Proof using Type.
  intros HP. revert output image_id. induction stream as [|[info|e] stream IH]; intros output image_id; cbn [classic_loop].
  - apply asks_bind; [by apply asks_post_lines|]. intros. apply asks_lift.
  - destruct (bi_error info).
    { apply asks_bind; [by apply asks_post_lines|]. intros. apply asks_fail. }
    destruct (match bi_stream info with Some chunk => classic_push output chunk | None => (output, []) end) as [o lines].
    apply asks_bind; [by apply asks_post_lines|]. intros. apply IH.
  - apply asks_bind; [by apply asks_post_lines|]. intros. apply asks_fail.
Qed.

Lemma asks_finish_lines P tag output :
  (∀ line, P (PostBuildProgress tag line)) → asks (W := client W) P (finish_lines settings tag output).
Proof using Type.
  intros HP. unfold finish_lines. destruct (buildkit_finish output) as [[? lines]|]; [by apply asks_post_lines|apply asks_fail].
Qed.

Lemma asks_buildkit_loop P tag output image_id stream :
  (∀ line, P (PostBuildProgress tag line)) → asks (W := client W) P (buildkit_loop settings tag output image_id stream).
Proof using Type.
  intros HP. revert output image_id. induction stream as [|[info|e] stream IH]; intros output image_id; cbn [buildkit_loop].
  - apply asks_bind; [by apply asks_finish_lines|]. intros. apply asks_lift.
  - destruct (bi_aux info) as [[[id|]|status]|]; [apply IH..| |apply IH].
    destruct (buildkit_push output status) as [[o lines]|]; [|apply asks_fail].
    apply asks_bind; [by apply asks_post_lines|]. intros. apply IH.
  - apply asks_bind; [by apply asks_finish_lines|]. intros. apply asks_fail.
Qed.

Lemma asks_ask_any {A} (P : api_request → Prop) r (answer : W → W * A) : P r → asks (W := client W) P (ask_any r answer).
Proof using Type.
  intros HP c c' asked a. unfold ask_any. destruct (answer (cl_world c)). intros [= <- <- <-]. by repeat constructor.
Qed.

Lemma is_post_line tag line : is_post (PostBuildProgress tag line) = true.
Proof using Type. done. Qed.

Lemma requests_loop {A} (m : Io.action (client W) api_request client_error A) c c' asked r :
  asks (λ q, is_post q = true) m → m c = (c', asked, r) → requests asked = [].
Proof using Type. intros Hm Hrun. by eapply requests_posts, Hm. Qed.

Lemma reported_id_cons item stream (image_id : option string) :
  match reported_id (item :: stream) with Some found => Some found | None => image_id end =
  match reported_id stream with
  | Some found => Some found
  | None => match aux_id item with Some found => Some found | None => image_id end
  end.
Proof using Type.
  unfold reported_id. cbn [omap list_omap]. destruct (aux_id item) as [id|]; [|done].
  rewrite last_cons. by destruct (last _).
Qed.

Lemma classic_loop_result tag output image_id stream (c c' : client W) asked id :
  classic_loop settings tag output image_id stream c = (c', asked, Ok id) →
  Forall (λ item, ∃ info, item = Ok info ∧ (BuilderV1 = BuilderV1 → bi_error info = None)) stream ∧
  match reported_id stream with Some found => Some found | None => image_id end = Some id.
Proof using Type.
  revert output image_id c asked. induction stream as [|[info|e] stream IH]; intros output image_id c asked; cbn [classic_loop].
  - intros (c1 & ? & [] & ? & _ & Hlift & _)%act_bind_Ok. apply act_lift_Ok in Hlift as (_ & _ & Hid).
    split; [done|]. by destruct image_id; [injection Hid as ->|].
  - destruct (bi_error info) eqn:Herror.
    { by intros (c1 & ? & [] & ? & _ & Hfail & _)%act_bind_Ok. }
    destruct (match bi_stream info with Some chunk => classic_push output chunk | None => (output, []) end) as [o lines].
    intros (c1 & ? & [] & ? & _ & Hrest & _)%act_bind_Ok. apply IH in Hrest as [Hall Hid]. split.
    { constructor; [by exists info|done]. }
    rewrite reported_id_cons, <-Hid. cbn. by destruct (bi_aux info) as [[[]|]|].
  - by intros (c1 & ? & [] & ? & _ & Hfail & _)%act_bind_Ok.
Qed.

Lemma buildkit_loop_result tag output image_id stream (c c' : client W) asked id :
  buildkit_loop settings tag output image_id stream c = (c', asked, Ok id) →
  Forall (λ item, ∃ info, item = Ok info ∧ (BuilderBuildKit = BuilderV1 → bi_error info = None)) stream ∧
  match reported_id stream with Some found => Some found | None => image_id end = Some id.
Proof using Type.
  revert output image_id c asked. induction stream as [|[info|e] stream IH]; intros output image_id c asked; cbn [buildkit_loop].
  - intros (c1 & ? & [] & ? & _ & Hlift & _)%act_bind_Ok. apply act_lift_Ok in Hlift as (_ & _ & Hid).
    split; [done|]. by destruct image_id; [injection Hid as ->|].
  - assert (∀ output image_id' c asked, buildkit_loop settings tag output image_id' stream c = (c', asked, Ok id) →
      image_id' = match aux_id (Ok info) with Some found => Some found | None => image_id end →
      Forall (λ item, ∃ info, item = Ok info ∧ (BuilderBuildKit = BuilderV1 → bi_error info = None)) (Ok info :: stream) ∧
      match reported_id (Ok info :: stream) with Some found => Some found | None => image_id end = Some id) as Hrest.
    { intros o i d a [Hall Hid]%IH ->. split; [constructor; [by exists info|done]|]. by rewrite reported_id_cons. }
    cbn [aux_id] in Hrest. destruct (bi_aux info) as [[[found|]|status]|].
    + intros Hrun. by eapply Hrest.
    + intros Hrun. by eapply Hrest.
    + destruct (buildkit_push output status) as [[o lines]|]; [|done].
      intros (c1 & ? & [] & ? & _ & Hrun & _)%act_bind_Ok. by eapply Hrest.
    + intros Hrun. by eapply Hrest.
  - by intros (c1 & ? & [] & ? & _ & Hfail & _)%act_bind_Ok.
Qed.

(** The SSH agents ask for nothing but keyrings, and serve each agent under its name. *)
Lemma ssh_sources_spec agents (c c' : client W) asked r :
  ssh_sources agents c = (c', asked, r) →
  Forall (λ q, ∃ keys, q = StartKeyring keys) asked ∧ (∀ served, r = Ok served → served.*1 = agents.*1).
Proof using Type.
  revert c c' asked r. induction agents as [|[id source] agents IH]; intros c c' asked r; cbn [ssh_sources].
  { intros [= <- <- <-]. split; [done|]. by intros served [= <-]. }
  set (first := match source with HostAgent => _ | AgentSocket path => _ | AgentKeys key_files => _ end).
  assert (∀ c c' asked r, first c = (c', asked, r) → Forall (λ q, ∃ keys, q = StartKeyring keys) asked) as Hfirst.
  { intros d d' asked' r'. unfold first. destruct source as [|path|keys]; [intros [= <- <- <-]; done..|].
    unfold act_bind, ask_any. destruct (keyring_start (cl_world d) keys) as [w started]. cbn.
    intros [= <- <- <-]. repeat constructor. by exists keys. }
  intros Hrun%act_bind_run. destruct Hrun as [(e & He & ->)|(c1 & asked1 & served & asked2 & Ha1 & Ha2 & ->)].
  { split; [by eapply Hfirst|done]. }
  apply Hfirst in Ha1. apply act_bind_run in Ha2 as [(e & He & ->)|(c2 & asked3 & rest & asked4 & Ha3 & Ha4 & ->)].
  - apply IH in He as [He _]. split; [by apply Forall_app|done].
  - apply IH in Ha3 as [Ha3 Hrest]. injection Ha4 as <- <- <-. split; [by rewrite app_nil_r; apply Forall_app|].
    intros ? [= <-]. cbn. by rewrite (Hrest rest).
Qed.
Lemma build_image_classic_outcome spec build_id config_json credentials (c c' : client W) asked r :
  bs_buildkit spec = None → credentials_sent config_json credentials →
  build_image_classic settings spec
    (build_args_with_config_file_proxies read_proxies spec config_json (se_daemon_host settings)) credentials c
    = (c', asked, r) →
  build_outcome spec build_id config_json BuilderV1 asked r.
Proof using Type.
  intros Hnone Hcredentials Hrun. exists []. split; [done|]. split; [done|]. cbn [app].
  apply act_bind_run in Hrun as [(e & He & _)|(c1 & asked1 & w & rest & Hread & Hrun & ->)]; [done|].
  injection Hread as <- <- <-.
  apply act_bind_run in Hrun as [(e & [= <- <- ?] & ->)|(c2 & asked2 & context & rest2 & Hlift & Hrun & ->)]; [by left|].
  apply act_lift_Ok in Hlift as (-> & -> & Hcontext).
  apply act_bind_run in Hrun as [(e & He & _)|(c3 & asked3 & stream & rest3 & Hask & Hrun & ->)].
  { unfold ask_any in He. by destruct (api_build_image _ _). }
  right. unfold ask_any in Hask. set (q := mk_build_request _ _ _ _ _ _ _ _ _ _ _ _ _ _ _) in *.
  exists q, (cl_world c). split_and!.
  - destruct (api_build_image (cl_world c) q). injection Hask as <- <- <-.
    cbn [app]. rewrite requests_cons. cbn [is_post].
    by rewrite (requests_loop _ _ _ _ _ (asks_classic_loop _ _ _ _ _ (is_post_line _)) Hrun).
  - by split_and!; eauto using build_context_tar_spec.
  - intros id ->. destruct (api_build_image (cl_world c) q). injection Hask as <- <- <-.
    apply classic_loop_result in Hrun as [Hall Hid]. split; [done|]. cbn. by destruct (reported_id _).
Qed.

Lemma secrets_sent (secrets : gmap string BuildSecretSource) id source :
  (id, source) ∈ ((λ p : string * BuildSecretSource, (p.1, secret_source_of p.2)) <$> map_to_list secrets) ↔
  ∃ secret, secrets !! id = Some secret ∧ source = secret_source_of secret.
Proof using Type.
  rewrite list_elem_of_fmap. split.
  - intros ([? secret] & [= -> ->] & ?%elem_of_map_to_list). by exists secret.
  - intros (secret & ? & ->). exists (id, secret). by rewrite elem_of_map_to_list.
Qed.

Lemma agents_served (agents : gmap string SshAgentSource) id :
  id ∈ (map_to_list agents).*1 ↔ is_Some (agents !! id).
Proof using Type.
  rewrite list_elem_of_fmap. split.
  - intros ([? source] & -> & ?%elem_of_map_to_list). by exists source.
  - intros [source ?]. exists (id, source). by rewrite elem_of_map_to_list.
Qed.

Lemma buildkit_request spec build_id config_json credentials context ssh :
  credentials_sent config_json credentials → context_sent spec context →
  ssh.*1 = (match bs_buildkit spec with Some buildkit => map_to_list (bk_ssh_agents buildkit) | None => [] end).*1 →
  let secrets := match bs_buildkit spec with
                 | Some buildkit => (λ p : string * BuildSecretSource, (p.1, secret_source_of p.2)) <$> map_to_list (bk_secrets buildkit)
                 | None => []
                 end in
  build_asked spec build_id config_json BuilderBuildKit
    (mk_build_request (bs_dockerfile spec) (bs_tag spec) true true BuilderBuildKit (Some build_id)
      (build_args_with_config_file_proxies read_proxies spec config_json (se_daemon_host settings))
      (bs_target spec) (if bs_force_pull spec then Some "true" else None) (extra_host <$> bs_proxy_host_gateway spec)
      (match secrets with [] => false | _ => true end) credentials secrets ssh context).
Proof using Type.
  intros Hcredentials Hcontext Hssh secrets. split_and!; try done; cbn [br_secrets br_nocache br_ssh].
  - unfold secrets. intros id source. destruct (bs_buildkit spec) as [options|].
    + rewrite secrets_sent. split; [intros (secret & ? & ?); by exists options, secret|].
      intros (? & secret & [= <-] & ? & ?). by exists secret.
    + rewrite elem_of_nil. split; [done|]. by intros (? & ? & ? & _).
  - by destruct secrets.
  - intros id. rewrite Hssh. destruct (bs_buildkit spec) as [options|].
    + rewrite agents_served. split; [by exists options|]. by intros (? & [= <-] & ?).
    + cbn. rewrite elem_of_nil. split; [done|]. by intros (? & ? & _).
Qed.

Lemma requests_keyrings l : Forall (λ q, ∃ files, q = StartKeyring files) l → requests l = l.
Proof using Type.
  induction 1 as [|q l [files ->] _ IH]; [done|]. rewrite requests_cons. cbn. by rewrite IH.
Qed.

Lemma build_image_via_buildkit_outcome spec build_id config_json credentials (c c' : client W) asked r :
  credentials_sent config_json credentials →
  build_image_via_buildkit settings spec
    (build_args_with_config_file_proxies read_proxies spec config_json (se_daemon_host settings)) credentials build_id c
    = (c', asked, r) →
  build_outcome spec build_id config_json BuilderBuildKit asked r.
Proof using Type.
  intros Hcredentials Hrun.
  apply act_bind_run in Hrun as [(e & He & _)|(c1 & asked1 & w & rest & Hread & Hrun & ->)]; [done|].
  injection Hread as <- <- <-.
  apply act_bind_run in Hrun as [(e & [= <- <- ?] & ->)|(c2 & asked2 & context & rest2 & Hlift & Hrun & ->)].
  { exists []. split; [done|]. split; [done|]. by left. }
  apply act_lift_Ok in Hlift as (-> & -> & Hcontext). cbn [app] in *.
  apply act_bind_run in Hrun as [(e & He & ->)|(c3 & keyrings & ssh & rest3 & Hssh & Hrun & ->)].
  { apply ssh_sources_spec in He as [He _]. eexists. split; [exact He|]. split; [done|]. left.
    split; [done|]. by apply requests_keyrings. }
  apply ssh_sources_spec in Hssh as [Hkeyrings Hssh]. exists keyrings. split; [done|]. split; [done|]. right.
  apply act_bind_run in Hrun as [(e & He & _)|(c4 & asked4 & stream & rest4 & Hask & Hrun & ->)].
  { unfold ask_any in He. by destruct (api_build_image _ _). }
  unfold ask_any in Hask. set (q := mk_build_request _ _ _ _ _ _ _ _ _ _ _ _ _ _ _) in *.
  exists q, (cl_world c3). split_and!.
  - destruct (api_build_image (cl_world c3) q). injection Hask as <- <- <-.
    rewrite requests_app, (requests_keyrings keyrings) by done. cbn [app]. rewrite requests_cons. cbn [is_post].
    by rewrite (requests_loop _ _ _ _ _ (asks_buildkit_loop _ _ _ _ _ (is_post_line _)) Hrun).
  - unfold q. apply buildkit_request; [done|by eapply build_context_tar_spec|by apply Hssh].
  - intros id ->. destruct (api_build_image (cl_world c3) q). injection Hask as <- <- <-.
    apply buildkit_loop_result in Hrun as [Hall Hid]. split; [done|]. cbn. by destruct (reported_id _).
Qed.

(** The builder is known before anything else is asked, and what it cannot serve is
    refused before any credential is looked for. *)
Lemma build_image_spec spec build_id (c : client W) :
  let '(c', asked, r) := build_image read_proxies settings spec build_id c in
  let '(c1, pings, builder) := builder_version settings c in
  match builder with
  | Err e => asked = pings ∧ r = Err e
  | Ok builder =>
      if bool_decide (builder = BuilderV1 ∧ is_Some (bs_buildkit spec))
      then asked = pings ∧ r = Err (NeedsBuildKit (bs_tag spec))
      else ∃ rest, asked = pings ++ rest ∧
        build_outcome spec build_id (host_config_json (cl_world c1)) builder rest r
  end.
Proof using Type.
  destruct (build_image read_proxies settings spec build_id c) as [[c' asked] r] eqn:Hrun.
  destruct (builder_version settings c) as [[c1 pings] builder] eqn:Hbuilder.
  apply act_bind_run in Hrun as [(e & He & ->)|(c2 & asked2 & chosen & rest & Hchosen & Hrun & ->)].
  { rewrite Hbuilder in He. by injection He as <- <- ->. }
  rewrite Hbuilder in Hchosen. injection Hchosen as <- <- ->.
  apply act_bind_run in Hrun as [(e & Hlift & ->)|(c3 & asked3 & [] & rest3 & Hlift & Hrun & ->)].
  { injection Hlift as <- <- He. destruct chosen; [|done]. cbn in He. destruct (bs_buildkit spec); [|done].
    injection He as <-. rewrite bool_decide_true by by split. by rewrite app_nil_r. }
  apply act_lift_Ok in Hlift as (-> & -> & Hallowed). rewrite bool_decide_false; [|intros [-> [? Hsome]]; by rewrite Hsome in Hallowed].
  apply act_bind_run in Hrun as [(e & He & _)|(c4 & asked4 & config_json & rest4 & Hread & Hrun & ->)]; [done|].
  injection Hread as <- <- <-. cbn [app]. eexists. split; [done|].
  remember (host_config_json (cl_world c1)) as config_json eqn:Hjson. clear Hjson.
  destruct (match config_json with Some config_json => build_registries config_json | None => ([], None) end)
    as [registries list_warning] eqn:Hregistries.
  pose proof (resolve_build_credentials_spec registries) as Hresolved.
  destruct (resolve_build_credentials registries) as [credentials warnings]. destruct Hresolved as [Hresolved _].
  assert (credentials_sent config_json (if bool_decide (credentials = ∅) then None else Some credentials)) as Hcredentials.
  { split; [case_bool_decide; congruence|].
    assert (default ∅ (if bool_decide (credentials = ∅) then None else Some credentials) = credentials) as ->
      by by case_bool_decide.
    intros registry credential. rewrite Hresolved. destruct config_json; cbn in Hregistries; [by rewrite Hregistries|].
    by injection Hregistries as <- _. }
  assert (∀ warnings d d' said r, act_each (λ warning, post (W := W) (PostWarning warning)) warnings d = (d', said, r) →
    r = Ok tt ∧ requests said = []) as Hposts.
  { intros l. induction l as [|x l IH]; intros d d' said r'; cbn; [by intros [= <- <- <-]|].
    unfold act_bind. cbn. destruct (act_each _ l d) as [[? ?] ?] eqn:E. intros [= <- <- <-].
    apply IH in E as [-> E]. split; [done|]. rewrite requests_cons. cbn. done. }
  apply act_bind_run in Hrun as [(e & He & _)|(c5 & said & [] & rest5 & Hsaid & Hrun & ->)]; [by apply Hposts in He as [? _]|].
  apply Hposts in Hsaid as [_ Hsaid].
  assert (build_outcome spec build_id config_json chosen rest5 r) as (keyrings & Hkeyrings & Hv1 & Hout).
  { destruct chosen; [|by eapply build_image_via_buildkit_outcome].
    eapply build_image_classic_outcome; [|done..]. by destruct (bs_buildkit spec). }
  exists keyrings. rewrite !requests_app, Hsaid. cbn [app]. done.
Qed.
End builds.

(** ** The calls *)

Section spec.
Context {W : Type} `{!DockerApi W, !BuildHost W, !RegistryCredentialResolver, !CredentialJson, !PathClean, !RegexCrate}.
Context (read_proxies : string → option (gmap string ConfigFileProxies)) (settings : client_settings).

End spec.

(** ** One daemon *)

Module Once.
(** A daemon with one image, whose containers are gone once they are removed; it
    refuses what it does not know with a 404. *)
Definition unknown {A} (w : gset string) : gset string * result A api_error := (w, Err (ServerError 404)).

#[local] Instance daemon : DockerApi (gset string) := {|
  api_negotiate w := (w, Ok (1, 41)%N);
  api_version w := (w, Ok (None, Some "linux"));
  api_ping w := (w, Ok (Some "2"));
  api_info w := (w, Ok None);
  api_inspect_image w reference := (w, Ok (if bool_decide (reference = "alpine@sha256:1") then Some "id" else None));
  api_create_image w _ _ _ := (w, [Ok (Some "Pulling"); Ok None; Ok (Some "Digest: sha256:1"); Ok (Some "Done")]);
  api_build_image w _ := (w, [Ok (mk_build_info None None (Some (AuxDefault (Some "built"))))]);
  api_cancel_build w _ := (w, Ok tt);
  api_tag_image w _ _ _ := (w, Ok tt);
  api_create_network w _ _ := (w, Ok tt);
  api_inspect_network w _ := unknown w;
  api_remove_network w _ := unknown w;
  api_attach w _ := unknown w;
  api_start_container w _ := unknown w;
  api_stop_container w id _ := if bool_decide (id ∈ w) then (w, Ok tt) else unknown w;
  api_remove_container w id _ _ := if bool_decide (id ∈ w) then (w ∖ {[id]}, Ok tt) else unknown w;
  api_inspect_container w _ := unknown w;
  api_first_event w _ _ := (w, None);
  api_wait_container w _ := (w, None);
  api_logs w _ := (w, []);
  api_create_exec w _ _ := unknown w;
  api_start_exec w _ := unknown w;
  api_inspect_exec w _ := unknown w;
  api_list_containers w _ _ := (w, Ok []);
  api_list_networks w _ := (w, Ok []);
  api_list_volumes w := (w, Ok None);
  api_remove_volume w _ := unknown w;
|}.

#[local] Instance no_credentials : RegistryCredentialResolver := {|
  resolve _ := Ok None;
  list_store _ := Ok [];
|}.

Definition settings : client_settings := mk_client_settings false None "linux" "unix:///var/run/docker.sock" false true.

Definition start : client (gset string) := mk_client {["c"]} None None {["c"]}.

(** Half a second's grace is a second's wait, and the removal waits for the output. *)
Example stop_rounds_up :
  (stop_and_remove_container "c" None (Some 500000000%N) start).1.2 =
  [StopContainer "c" (Some (mk_stop_options None (Some 1%Z))); RemoveContainer "c" true true; AwaitFollower "c"].
Proof. reflexivity. Qed.

Example gone_is_stopped : (stop_and_remove_container "other" None None start).2 = Ok tt.
Proof. reflexivity. Qed.

Example pulled_by_digest :
  pull_image settings "alpine" start =
  (start, [CreateImage "alpine" (Some "latest") None; InspectImage "alpine@sha256:1"], Ok "id").
Proof. reflexivity. Qed.

Example port_is_not_a_tag : pull_request_reference "registry:5000/app" = ("registry:5000/app", Some "latest").
Proof. reflexivity. Qed.
End Once.
