(* ===== verification/Diagnostics.v ===== *)
(** * Diagnostics: what [ratect doctor] and [ratect config validate] find

    [ratect-core/src/diagnostics.rs]: the findings about a configuration, a host
    and a daemon's class, and what a conversion asks its reader to check.  A message is a value; its text is kept where
    the source sorts by it.  The host's files are the arguments the source gives
    its checks. *)

From S2P Require Import Prelude Text Collections Config Values Evaluate Project Outcome Dockerignore Paths.
From S2P Require Import IncludeTrust WrittenFor ContainerSpec Passwd ContainerRequest Identity Images.
From S2P Require Import Validate.
From S2P Require Resources Expressions Connection.
From stdpp Require Import sorting options.

(** ** Findings *)

Inductive list_field := DependenciesOf | PrerequisitesOf.
Inductive list_owner := ContainerList | TaskList.

Inductive home_mount := ReadOnlyBind | WritableBind | ReadOnlyCache.

Inductive message :=
| DoesNotLoadFor (error : string)
| RefusedFor (rows : nat)
| Row (row : BreakingChange) (outcome : option WrittenFor.Outcome)
| TrialLoads
| TrialDoesNot (error : string)
| EveryValueEvaluates
| ValueFails (failure : check_error)
| FloatingTag (container : string)
| NoHealthCheck (dependency : string)
| RepeatedEntry (kind : list_owner) (owner entry : string) (field : list_field)
| AbsoluteDockerfile (container relative : string)
| Unbuildable (container : string) (in_bundle : bool) (reason : build_file_error)
| BatectWrapper (name : string)
| NotABoolean (variable value : string)
| IdentityOnUsernsRemap (container : string)
| UserOnRemapped (container : string) (class : DaemonClass)
| RootWrittenMount (container : string) (mount : LocalVolumeMount)
| MountOwnedBy (container : string) (host_user : DirectoryOwner) (mount : LocalVolumeMount) (owner : DirectoryOwner)
| HomeUnderTmpfs (container home at_path : string)
| HomeUnderMount (container home at_path : string) (mount : home_mount)
| NoLeftovers
| Leftovers (count : nat).

Inductive Finding :=
| Fine (m : message)
| Warning (m : message)
| Problem (m : message).

(** ** Texts that are sorted *)

(** A directory of a bundle is shown as its description has it. *)
Definition shown_directory (in_bundle : bool) (directory : string) : string :=
  if in_bundle then directory else "'" +:+ printable directory +:+ "'".

Definition build_error_text (in_bundle : bool) (e : build_file_error) : string :=
  let shown := shown_directory in_bundle in
  match e with
  | NoBuildDirectory d => "build_directory " +:+ shown d +:+ " doesn't exist"
  | BuildDirectoryNotOne d => "build_directory " +:+ shown d +:+ " isn't a directory"
  | NoDockerfile f d => "dockerfile '" +:+ printable f +:+ "' doesn't exist in build_directory " +:+ shown d
  | DockerfileNotAFile f => "dockerfile '" +:+ printable f +:+ "' isn't a regular file"
  | DockerfileIsLink f =>
      "dockerfile '" +:+ printable f +:+ "' is a symbolic link, which Ratect's build context doesn't carry"
  | DockerfileOutside f d => "dockerfile '" +:+ printable f +:+ "' isn't inside build_directory " +:+ shown d
  | DockerfileThroughLink f link =>
      "dockerfile '" +:+ printable f +:+ "' is reached through '" +:+ printable link
      +:+ "', a symbolic link, which Ratect's build context doesn't carry"
  end.

Definition owner_text (kind : list_owner) : string :=
  match kind with ContainerList => "container" | TaskList => "task" end.
Definition field_text (field : list_field) : string :=
  match field with DependenciesOf => "dependencies" | PrerequisitesOf => "prerequisites" end.

(** The texts of the messages the source sorts; a repeated entry's up to its last
    clause, which the rest of it decides. *)
Definition sorted_text (m : message) : string :=
  match m with
  | Unbuildable name in_bundle reason => "container '" +:+ name +:+ "': " +:+ build_error_text in_bundle reason
  | AbsoluteDockerfile name relative =>
      "container '" +:+ name +:+ "' has an absolute dockerfile; written as '" +:+ relative
      +:+ "', relative to build_directory, it would work from any checkout"
  | RepeatedEntry kind owner entry field =>
      owner_text kind +:+ " '" +:+ owner +:+ "' gives '" +:+ entry +:+ "' more than once in its '"
      +:+ field_text field +:+ "'"
  | _ => EmptyString
  end.

Definition text_le (a b : message) : Prop := str_le (sorted_text a) (sorted_text b).
#[global] Instance text_le_dec : RelDecision text_le.
Proof. intros a b. unfold text_le. apply _. Defined.

(** ** A configuration that does not load *)

(** [Refusal::rows]: the outcomes run out where there was no assessment. *)
Fixpoint row_findings (rows : list BreakingChange) (outcomes : list WrittenFor.Outcome) : list Finding :=
  match rows, outcomes with
  | [], _ => []
  | row :: rows, outcome :: outcomes =>
      (if rules_out outcome then Fine (Row row (Some outcome)) else Warning (Row row (Some outcome)))
      :: row_findings rows outcomes
  | row :: rows, [] => Warning (Row row None) :: row_findings rows []
  end.

(** [error] is the refusal it was, or its text. *)
Definition load_failure_findings (error : string + Refusal) : list Finding :=
  match error with
  | inl error => [Problem (DoesNotLoadFor error)]
  | inr refusal =>
      Problem (RefusedFor (length (rf_rows refusal)))
      :: row_findings (rf_rows refusal) (match rf_assessment refusal with Some a => as_outcomes a | None => [] end)
      ++ match rf_assessment refusal with
         | Some a => [match as_load_error a with None => Fine TrialLoads | Some e => Problem (TrialDoesNot e) end]
         | None => []
         end
  end.

(** ** The configuration alone *)

Definition floating_image_tag (image : string) : bool :=
  let name := match rsplit_once "/" image with Some (_, last) => last | None => image end in
  match rsplit_once ":" name with
  | None => true
  | Some (_, tag) => bool_decide (tag = "latest")
  end.

Definition dependency_names (config : Config) : list string :=
  sort_dedup
    ((cfg_containers config ≫= λ p, default [] (c_dependencies p.2))
     ++ (cfg_tasks config ≫= λ p, default [] (t_dependencies p.2))).

Definition is_unguarded (config : Config) (name : string) : bool :=
  match im_get (cfg_containers config) name with
  | Some c =>
      negb (set (c_health_check c)) && negb (set (c_external_health_check c))
      && negb (default false (c_run_to_completion c))
  | None => false
  end.

Fixpoint count (entry : string) (entries : list string) : nat :=
  match entries with
  | [] => 0
  | e :: entries => if decide (e = entry) then S (count entry entries) else count entry entries
  end.

Definition repeated_in (kind : list_owner) (owner : string) (field : list_field)
    (entries : option (list string)) : list message :=
  let entries := default [] entries in
  (λ entry, RepeatedEntry kind owner entry field) <$>
    sort_dedup (filter (λ entry, (1 <? count entry entries) = true) entries).

Definition repeated_entries (config : Config) : list message :=
  merge_sort text_le
    ((cfg_containers config ≫= λ p, repeated_in ContainerList p.1 DependenciesOf (c_dependencies p.2))
     ++ (cfg_tasks config ≫= λ p,
           repeated_in TaskList p.1 DependenciesOf (t_dependencies p.2)
           ++ repeated_in TaskList p.1 PrerequisitesOf (t_prerequisites p.2))).

(** Every container that evaluated and can run, by name. *)
Definition name_of_le (a b : string * Container) : Prop := str_le a.1 b.1.
#[global] Instance name_of_le_dec : RelDecision name_of_le.
Proof. intros a b. unfold name_of_le. apply _. Defined.

Definition runnable_containers (evaluation : WholeProjectEvaluation) : list (string * Container) :=
  merge_sort name_of_le
    (filter (λ p, set (c_image p.2) || set (c_build_directory p.2) = true)
      (map_to_list (ev_containers (wp_evaluated evaluation)))).

(** [Iterator::max_by_key]: of several, the last. *)
Definition max_by_key {A} (key : A → nat * bool) (l : list A) : option A :=
  foldl (λ best x,
    match best with
    | None => Some x
    | Some b =>
        if (key b).1 <? (key x).1 then Some x
        else if ((key b).1 =? (key x).1) && implb (key b).2 (key x).2 then Some x else best
    end) None l.

Section findings.
Context `{!PathClean}.

(** What a container with [identity] finds above its home. *)
Definition home_finding (name home : string) (above : VolumeMount) : list Finding :=
  let at_path := container_path above in
  match above with
  | TmpfsMount _ => [Problem (HomeUnderTmpfs name home at_path)]
  | LocalMount local =>
      [Warning (HomeUnderMount name home at_path (if is_read_only (lv_options local) then ReadOnlyBind else WritableBind))]
  | CacheMount cache =>
      if is_read_only (cv_options cache) then [Warning (HomeUnderMount name home at_path ReadOnlyCache)] else []
  end.

Definition is_tmpfs (m : VolumeMount) : bool := match m with TmpfsMount _ => true | _ => false end.

(** [components().count()]: the root is one. *)
Definition depth (path : string) : nat :=
  (if (components path).1 then 1 else 0) + length (components path).2.

Definition mount_key (m : VolumeMount) : nat * bool := (depth (clean (container_path m)), negb (is_tmpfs m)).

Definition home_mount_finding (name : string) (c : Container) : list Finding :=
  match c_identity c with
  | None => []
  | Some identity =>
      let home := clean (id_home identity) in
      let mounts := default [] (c_volumes c) in
      if existsb (λ m, same_path (clean (container_path m)) home) mounts then []
      else
        match max_by_key mount_key
                (filter (λ m, path_starts_with home (clean (container_path m)) = true) mounts) with
        | None => []
        | Some above => home_finding name (id_home identity) above
        end
  end.

Definition identity_home_mount_findings (evaluation : WholeProjectEvaluation) : list Finding :=
  runnable_containers evaluation ≫= λ p, home_mount_finding p.1 p.2.

Context {F : Type} `{!BuildFiles F}.

(** One round of the loop over what is built. *)
Definition build_finding (files : F) (p : string * Container) : option (message + message) :=
  let '(name, c) := p in
  match c_image c, c_build_directory c with
  | None, Some directory =>
      match check_build_files files directory (c_build_directory_in_bundle c) (c_dockerfile c) with
      | Err reason => Some (inr (Unbuildable name (set (c_build_directory_in_bundle c)) reason))
      | Ok relative =>
          if match c_dockerfile c with Some written => negb (is_relative written) | None => false end
          then Some (inl (AbsoluteDockerfile name relative)) else None
      end
  | _, _ => None
  end.

Definition config_findings (files : F) (config : Config) (evaluation : WholeProjectEvaluation) : list Finding :=
  let containers := map_to_list (ev_containers (wp_evaluated evaluation)) in
  let built := omap (build_finding files) containers in
  (match wp_failures evaluation with [] => [Fine EveryValueEvaluates] | _ => [] end)
  ++ ((λ failure, Warning (ValueFails failure)) <$> wp_failures evaluation)
  ++ ((λ name, Warning (FloatingTag name)) <$>
        sort_strings (filter (λ p, match c_image p.2 with Some image => floating_image_tag image | None => false end = true)
                        containers).*1)
  ++ ((λ name, Warning (NoHealthCheck name)) <$>
        sort_strings (filter (λ name, is_unguarded config name = true) (dependency_names config)))
  ++ (Warning <$> repeated_entries config)
  ++ (Warning <$> merge_sort text_le (omap (λ m, match m with inl m => Some m | inr _ => None end) built))
  ++ (Problem <$> merge_sort text_le (omap (λ m, match m with inr m => Some m | inl _ => None end) built))
  ++ identity_home_mount_findings evaluation.
End findings.

(** ** The host and the daemon *)

Definition is_batect_wrapper (content : string) : bool :=
  match find_str "This file is part of Batect." content with Some _ => true | None => false end.

(** [read] is [fs::read], as [String::from_utf8_lossy] makes text of it. *)
Definition wrapper_script_findings (read : string → option string) (project_directory : string) : list Finding :=
  omap (λ name,
      content ← read (path_join project_directory name);
      if is_batect_wrapper content then Some (Warning (BatectWrapper name)) else None)
    ["batect"; "batect.cmd"].

Definition docker_environment_findings (docker_tls_verify docker_buildkit : option string) : list Finding :=
  omap (λ v : string * option string,
      match Connection.parse_boolean v.2 with Err value => Some (Problem (NotABoolean v.1 value)) | Ok _ => None end)
    [("DOCKER_TLS_VERIFY", docker_tls_verify); ("DOCKER_BUILDKIT", docker_buildkit)].

Definition remapped_daemon_warning (name : string) (c : Container) (class : DaemonClass) : option message :=
  if set (c_identity c) then
    if bool_decide (class = UsernsRemap) then Some (IdentityOnUsernsRemap name) else None
  else
    user ← c_user c;
    if is_root_user user then None
    else match class with
         | Rootless | UsernsRemap => Some (UserOnRemapped name class)
         | Desktop | RootfulLinux => None
         end.

Definition remapped_daemon_findings (evaluation : WholeProjectEvaluation) (class : option DaemonClass) : list Finding :=
  match class with
  | None => []
  | Some class =>
      Warning <$> omap (λ p, remapped_daemon_warning p.1 p.2 class) (runnable_containers evaluation)
  end.

Definition writable_bind_mounts (c : Container) : list LocalVolumeMount :=
  omap (λ m, match m with
             | LocalMount local => if is_read_only (lv_options local) then None else Some local
             | _ => None
             end) (default [] (c_volumes c)).

Definition runs_as_host_user_on_rootful_linux (c : Container) : bool :=
  set (c_identity c) || match c_run_as_current_user c with Some r => ru_enabled r | None => false end.

Definition root_written_mount_findings (is_non_directory : string → bool) (evaluation : WholeProjectEvaluation)
    (class : option DaemonClass) (transport : option Transport) (host_user : option DirectoryOwner) : list Finding :=
  if negb (bool_decide (class = Some RootfulLinux))
     || match host_user with Some user => (do_uid user =? 0)%N | None => false end
  then []
  else
    runnable_containers evaluation ≫= λ p,
      let runs_as_root := match c_user p.2 with Some user => is_root_user user | None => true end in
      if runs_as_host_user_on_rootful_linux p.2 || negb runs_as_root then []
      else
        omap (λ local,
            if bool_decide (transport = Some LocalSocket) && is_non_directory (lv_local local) then None
            else Some (Warning (RootWrittenMount p.1 local)))
          (writable_bind_mounts p.2).

Definition mount_owner_findings (path_owner : string → option DirectoryOwner) (evaluation : WholeProjectEvaluation)
    (class : option DaemonClass) (transport : option Transport) (host_user : option DirectoryOwner) : list Finding :=
  if negb (bool_decide (class = Some RootfulLinux)) || negb (bool_decide (transport = Some LocalSocket)) then []
  else
    match host_user with
    | Some user =>
        if (do_uid user =? 0)%N then []
        else
          runnable_containers evaluation ≫= λ p,
            if negb (runs_as_host_user_on_rootful_linux p.2) then []
            else
              omap (λ local,
                  owner ← path_owner (lv_local local);
                  if (do_uid owner =? do_uid user)%N then None
                  else Some (Warning (MountOwnedBy p.1 user local owner)))
                (writable_bind_mounts p.2)
    | None => []
    end.

(** A listing that fails reads as no leftovers. *)
Definition leftover_finding {D E : Type} `{!Resources.ResourceInventory D E} (docker : option D) (project : string)
    (now : Z) : option Finding :=
  docker ← docker;
  let leftovers := match Resources.find docker (Some project) None now with Ok l => l | Err _ => [] end in
  Some (match leftovers with [] => Fine NoLeftovers | _ => Warning (Leftovers (length leftovers)) end).

(** ** What a conversion asks its reader to check *)

Inductive ConversionCheckKind :=
| BundleOffersNativeFile
| BundleDeclaresGitIncludes
| UngatedTaskContainer
| RunAsCurrentUserBecomesIdentity
| HomeDirectoryExpression
| CompactVolumeExpression.

(** What its message names besides the container. *)
Inductive check_detail :=
| TasksRun (tasks : list string) (health_check setup_commands : bool)
| BecomesIdentity (writable_cache dotted_home : bool)
| HomeIs (home : string)
| LocalIs (local : string)
| IncludeIs (remote git_ref : string).

Record ConversionCheck := mk_check {
  ck_container : option string;
  ck_kind : ConversionCheckKind;
  ck_detail : check_detail;
}.

(** The declaration order. *)
Definition kind_rank (k : ConversionCheckKind) : nat :=
  match k with
  | BundleOffersNativeFile => 0
  | BundleDeclaresGitIncludes => 1
  | UngatedTaskContainer => 2
  | RunAsCurrentUserBecomesIdentity => 3
  | HomeDirectoryExpression => 4
  | CompactVolumeExpression => 5
  end.

(** [slice::sort_by], which is stable. *)
Section stable.
Context {A : Type} (le : A → A → bool).

Fixpoint stable_insert (x : A) (l : list A) : list A :=
  match l with
  | [] => [x]
  | y :: l => if le x y then x :: y :: l else y :: stable_insert x l
  end.

Definition stable_sort (l : list A) : list A := foldr stable_insert [] l.
End stable.

(** [Option]'s order, [None] first, then the kind's. *)
Definition check_le (a b : ConversionCheck) : bool :=
  match ck_container a, ck_container b with
  | None, Some _ => true
  | Some _, None => false
  | None, None => kind_rank (ck_kind a) <=? kind_rank (ck_kind b)
  | Some x, Some y =>
      if decide (x = y) then kind_rank (ck_kind a) <=? kind_rank (ck_kind b) else bool_decide (str_le x y)
  end.

Definition by_name {A} (a b : string * A) : bool := bool_decide (str_le a.1 b.1).

Definition enabled_run_as_current_user (config : Config) : list (string * option string) :=
  omap (λ p : string * Container,
      user ← c_run_as_current_user p.2;
      if ru_enabled user then Some (p.1, ru_home_directory user) else None)
    (cfg_containers config).

Definition has_writable_cache (c : Container) : bool :=
  existsb (λ m, match m with CacheMount cache => negb (is_read_only (cv_options cache)) | _ => false end)
    (default [] (c_volumes c)).

Definition run_as_current_user_checks (config : Config) : list ConversionCheck :=
  (λ p : string * option string,
     let dotted := match p.2 with Some home => identity_home_has_a_parent_component home | None => false end in
     let writable_cache := match im_get (cfg_containers config) p.1 with Some c => has_writable_cache c | None => false end in
     mk_check (Some p.1) RunAsCurrentUserBecomesIdentity (BecomesIdentity writable_cache dotted))
  <$> stable_sort by_name (enabled_run_as_current_user config).

(** What [ratect.toml] would read as an expression, as convert writes it. *)
Definition becomes_expression (text : string) : bool :=
  Expressions.contains_expression (Expressions.literal_as_expression text).

Definition home_directory_expression_checks (config : Config) : list ConversionCheck :=
  (λ p : string * string, mk_check (Some p.1) HomeDirectoryExpression (HomeIs p.2))
  <$> stable_sort by_name
        (omap (λ p : string * option string,
             home ← p.2; if becomes_expression home then Some (p.1, home) else None)
           (enabled_run_as_current_user config)).

Definition compact_volume_expression_checks (config : Config) : list ConversionCheck :=
  (λ p : string * string, mk_check (Some p.1) CompactVolumeExpression (LocalIs p.2))
  <$> stable_sort by_name
        (cfg_containers config ≫= λ p,
           omap (λ m, match m with
                      | LocalMount local =>
                          if negb (local_is_expression local true) && becomes_expression (lv_local local)
                          then Some (p.1, lv_local local) else None
                      | _ => None
                      end) (default [] (c_volumes p.2))).

Definition tasks_running (config : Config) (container : string) : list string :=
  (filter (λ p, r_container <$> t_run p.2 = Some container) (cfg_tasks config)).*1.

Definition task_containers_named (config : Config) : list string :=
  sort_dedup (omap (λ p : string * Task, r_container <$> t_run p.2) (cfg_tasks config)).

Definition ungated_task_container_checks (config : Config) : list ConversionCheck :=
  omap (λ name,
      c ← im_get (cfg_containers config) name;
      let health_check := set (c_health_check c) in
      let setup_commands := match c_setup_commands c with Some (_ :: _) => true | _ => false end in
      if health_check || setup_commands then
        Some (mk_check (Some name) UngatedTaskContainer
                (TasksRun (sort_strings (tasks_running config name)) health_check setup_commands))
      else None)
    (task_containers_named config).

Definition conversion_checks (config : Config) : list ConversionCheck :=
  stable_sort check_le
    (ungated_task_container_checks config ++ run_as_current_user_checks config
     ++ home_directory_expression_checks config ++ compact_volume_expression_checks config).
