(* ===== verification/DiagnosticsSpec.v ===== *)
(** * DiagnosticsSpec: what the findings of [Diagnostics] mean

    Each kind of finding about a configuration is there exactly when what it says
    holds, and the two a run would stop on are the run's own refusals: the build
    files [Images] checks, and the home [Identity] will not make under a [tmpfs]. *)

From S2P Require Import Prelude Text Collections Config Values Evaluate Project Dockerignore Paths.
From S2P Require Import IncludeTrust WrittenFor Validate ContainerSpec Passwd ContainerRequest ContainerFiles.
From S2P Require Import Identity Images LexicalClean Diagnostics.
From stdpp Require Import sorting options.

(** ** The largest by a key *)

Definition key_le (a b : nat * bool) : Prop := a.1 < b.1 ∨ a.1 = b.1 ∧ (a.2 = true → b.2 = true).

#[global] Instance key_le_trans : Transitive key_le.
Proof. unfold key_le. intros a b c [H1|[H1 H1']] [H2|[H2 H2']]; [left; lia..|right; split; [lia|auto]]. Qed.

Lemma key_le_refl k : key_le k k.
Proof. right. auto. Qed.

Lemma max_by_key_spec {A} (key : A → nat * bool) l :
  match max_by_key key l with
  | None => l = []
  | Some x => x ∈ l ∧ ∀ y, y ∈ l → key_le (key y) (key x)
  end.
Proof.
  unfold max_by_key.
  set (f := λ (best : option A) (x : A), _).
  assert (∀ l best,
    match foldl f best l with
    | None => best = None ∧ l = []
    | Some x => (best = Some x ∨ x ∈ l) ∧ (∀ b, best = Some b → key_le (key b) (key x)) ∧ ∀ y, y ∈ l → key_le (key y) (key x)
    end) as Hfold; [|specialize (Hfold l None); destruct (foldl f None l); naive_solver].
  clear l. induction l as [|x l IH]; intros best; cbn [foldl].
  { destruct best as [b|]; [|done]. split_and!; [by left| |by intros ? ?%elem_of_nil]. intros ? [= <-]. apply key_le_refl. }
  assert (∃ b', f best x = Some b' ∧ (best = Some b' ∨ b' = x) ∧ key_le (key x) (key b') ∧
    ∀ b, best = Some b → key_le (key b) (key b')) as (b' & -> & Hb & Hx & Hbest).
  { unfold f. destruct best as [b|]; [|exists x; split_and!; [done|by right|apply key_le_refl|done]].
    destruct (Nat.ltb_spec (key b).1 (key x).1) as [Hlt|Hge].
    { exists x. split_and!; [done|by right|apply key_le_refl|]. intros ? [= <-]. by left. }
    destruct (Nat.eqb_spec (key b).1 (key x).1) as [Heq|Hne]; [destruct (implb (key b).2 (key x).2) eqn:Hi|]; cbn.
    - exists x. split_and!; [done|by right|apply key_le_refl|]. intros ? [= <-]. right. split; [done|].
      intros Hb. by rewrite Hb in Hi.
    - exists b. split_and!; [done|by left| |intros ? [= <-]; apply key_le_refl]. right. split; [done|].
      by destruct (key b).2, (key x).2.
    - exists b. split_and!; [done|by left| |intros ? [= <-]; apply key_le_refl]. left. lia. }
  specialize (IH (Some b')). destruct (foldl f (Some b') l) as [z|]; [|by destruct IH].
  destruct IH as (Hin & Hb' & Hl). split_and!.
  - destruct Hin as [[= ->]|?]; [|right; by right]. destruct Hb as [->|<-]; [by left|right; by left].
  - intros b ->. etrans; [by apply Hbest|by apply Hb'].
  - intros y [->|?]%elem_of_cons; [|by apply Hl]. etrans; [exact Hx|by apply Hb'].
Qed.

(** ** Counting *)

Lemma count_pos entry l : 0 < count entry l ↔ entry ∈ l.
Proof.
  induction l as [|e l IH]; cbn; [split; [lia|by intros ?%elem_of_nil]|]. rewrite elem_of_cons.
  case_decide; [subst; split; [by left|lia]|]. rewrite IH. naive_solver.
Qed.

Lemma elem_repeated_in m kind owner field entries :
  m ∈ repeated_in kind owner field entries ↔
  ∃ entry, m = RepeatedEntry kind owner entry field ∧ 1 < count entry (default [] entries).
Proof.
  unfold repeated_in. rewrite list_elem_of_fmap. split.
  - intros (entry & -> & He). exists entry. split; [done|]. apply elem_of_sort_dedup, list_elem_of_filter in He as [Hc _].
    by apply Nat.ltb_lt.
  - intros (entry & -> & Hc). exists entry. split; [done|]. apply elem_of_sort_dedup, list_elem_of_filter.
    split; [by apply Nat.ltb_lt|]. apply count_pos. lia.
Qed.

(** ** The home of an identity *)

(** [path] is at or above [home]. *)
Lemma starts_with_prefix home path :
  path_starts_with home path = true ↔
  (components home).1 = (components path).1 ∧ (components path).2 `prefix_of` (components home).2.
Proof. unfold path_starts_with. by rewrite andb_true_iff, !bool_decide_eq_true. Qed.

Lemma same_path_true a b : same_path a b = true ↔ components a = components b.
Proof. apply bool_decide_eq_true. Qed.

(** Of two paths above one, the shorter is above the other. *)
Lemma above_above home a b :
  path_starts_with home a = true → path_starts_with home b = true →
  length (components b).2 ≤ length (components a).2 → path_starts_with a b = true.
Proof.
  rewrite !starts_with_prefix. intros [Ha Hpa] [Hb Hpb] Hlen. split; [congruence|].
  destruct (prefix_weak_total _ _ _ Hpa Hpb) as [Hp|Hp]; [|done].
  apply prefix_length_eq in Hp as ->; done.
Qed.

Lemma above_same home a :
  path_starts_with home a = true → length (components home).2 ≤ length (components a).2 → same_path a home = true.
Proof.
  rewrite starts_with_prefix, same_path_true. intros [Hr Hp] Hlen. apply prefix_length_eq in Hp; [|done].
  destruct (components a), (components home); simpl in *; by subst.
Qed.

Lemma above_length home a : path_starts_with home a = true → length (components a).2 ≤ length (components home).2.
Proof. rewrite starts_with_prefix. intros [_ Hp]. by apply prefix_length. Qed.

Lemma same_above a home : same_path a home = true → path_starts_with home a = true.
Proof. rewrite same_path_true, starts_with_prefix. by intros ->. Qed.

Section home.
Context `{!PathClean}.

Lemma deepest_spec (l : list (string * string)) :
  match foldl deepest None l with
  | None => l = []
  | Some m => m ∈ l ∧ ∀ n, n ∈ l → length (components n.2).2 ≤ length (components m.2).2
  end.
Proof using Type.
  assert (∀ l best,
    match foldl deepest best l with
    | None => best = None ∧ l = []
    | Some m => (best = Some m ∨ m ∈ l) ∧
        (∀ b, best = Some b → length (components b.2).2 ≤ length (components m.2).2) ∧
        ∀ n, n ∈ l → length (components n.2).2 ≤ length (components m.2).2
    end) as Hfold; [|specialize (Hfold l None); destruct (foldl deepest None l); naive_solver].
  clear l. induction l as [|x l IH]; intros best; cbn [foldl].
  { destruct best as [b|]; [|done]. split_and!; [by left| |by intros ? ?%elem_of_nil]. intros ? [= <-]. done. }
  assert (∃ b', deepest best x = Some b' ∧ (best = Some b' ∨ b' = x) ∧
    length (components x.2).2 ≤ length (components b'.2).2 ∧
    ∀ b, best = Some b → length (components b.2).2 ≤ length (components b'.2).2) as (b' & -> & Hb & Hx & Hbest).
  { unfold deepest. destruct best as [b|]; [|exists x; split_and!; [done|by right|done|done]].
    destruct (Nat.leb_spec (length (components b.2).2) (length (components x.2).2)).
    - exists x. split_and!; [done|by right|done|]. by intros ? [= <-].
    - exists b. split_and!; [done|by left|lia|]. by intros ? [= <-]. }
  specialize (IH (Some b')). destruct (foldl deepest (Some b') l) as [z|]; [|by destruct IH].
  destruct IH as (Hin & Hb' & Hl). specialize (Hb' _ eq_refl). split_and!.
  - destruct Hin as [[= ->]|?]; [|right; by right]. destruct Hb as [->|<-]; [by left|right; by left].
  - intros b Hb0. specialize (Hbest b Hb0). lia.
  - intros y [->|?]%elem_of_cons; [lia|by apply Hl].
Qed.

(** What the daemon says of a container made with [mounts]: where it cleaned the
    mounts, and each [tmpfs] as written. *)
Definition facts_of (mounts : list VolumeMount) (facts : CreatedContainerFacts) : Prop :=
  (∀ d, d ∈ cf_mount_destinations facts ↔ ∃ m, m ∈ mounts ∧ is_tmpfs m = false ∧ d = clean (container_path m)) ∧
  (∀ d, d ∈ cf_tmpfs_destinations facts ↔ ∃ m, m ∈ mounts ∧ is_tmpfs m = true ∧ d = container_path m).

(** A home whose directory a run refuses to make is one under a [tmpfs], and the
    finding's condition. *)
Definition hidden (mounts : list VolumeMount) (home : string) : Prop :=
  ∃ above, max_by_key mount_key (filter (λ m, path_starts_with home (clean (container_path m)) = true) mounts) = Some above ∧
    is_tmpfs above = true ∧ ∀ m, m ∈ mounts → same_path (clean (container_path m)) home = false.

Lemma hidden_spec mounts home :
  hidden mounts home ↔
  ∃ t, t ∈ mounts ∧ is_tmpfs t = true ∧ path_starts_with home (clean (container_path t)) = true ∧
    ∀ m, m ∈ mounts → path_starts_with home (clean (container_path m)) = true →
      same_path (clean (container_path m)) home = false ∧
      key_le (mount_key m) (mount_key t).
Proof using Type.
  pose proof (max_by_key_spec mount_key (filter (λ m, path_starts_with home (clean (container_path m)) = true) mounts)) as Hmax.
  split.
  - intros (above & Heq & Ht & Hno). rewrite Heq in Hmax. destruct Hmax as [[Ha Hin]%list_elem_of_filter Hmax].
    exists above. split_and!; [done..|]. intros m Hm Habove. split; [by apply Hno|]. apply Hmax, list_elem_of_filter. done.
  - intros (t & Ht & Htm & Ha & Hm). unfold hidden.
    destruct (max_by_key mount_key _) as [above|]; [|exfalso].
    + destruct Hmax as [[Ha' Hin]%list_elem_of_filter Hmax]. exists above. split_and!; [done| |].
      * assert (key_le (mount_key t) (mount_key above)) as H1 by (apply Hmax, list_elem_of_filter; done).
        destruct (Hm above Hin Ha') as [_ H2]. unfold key_le, mount_key in H1, H2. cbn in H1, H2. rewrite Htm in H1, H2.
        destruct (is_tmpfs above); [done|]. cbn in H1, H2. exfalso.
        destruct H1 as [?|[? ?]], H2 as [?|[? H2]]; [lia..|]. by specialize (H2 eq_refl).
      * intros m Hin'. destruct (same_path (clean (container_path m)) home) eqn:E; [|done].
        destruct (Hm m Hin' (same_above _ _ E)) as [Hf _]. congruence.
    + assert (t ∈ filter (λ m, path_starts_with home (clean (container_path m)) = true) mounts) as Hin
        by by apply list_elem_of_filter. rewrite Hmax in Hin. by apply elem_of_nil in Hin.
Qed.

Lemma depth_length home a b :
  path_starts_with home a = true → path_starts_with home b = true →
  length (components a).2 + depth b = length (components b).2 + depth a.
Proof using Type. rewrite !starts_with_prefix. unfold depth. intros [<- _] [<- _]. lia. Qed.

Lemma check_tmpfs_spec facts home :
  is_ok (check_tmpfs facts home) = false ↔
  ∃ tmpfs, tmpfs ∈ cf_tmpfs_destinations facts ∧ path_starts_with home (clean tmpfs) = true ∧
    same_path (clean tmpfs) home = false ∧
    (∀ other, other ∈ cf_tmpfs_destinations facts → path_starts_with home (clean other) = true →
      length (components (clean other)).2 ≤ length (components (clean tmpfs)).2) ∧
    ∀ mount, mount ∈ cf_mount_destinations facts → path_starts_with home mount = true →
      path_starts_with mount (clean tmpfs) = false.
Proof using Type.
  unfold check_tmpfs, deepest_tmpfs. set (l := filter _ _). pose proof (deepest_spec l) as Hd.
  assert (∀ p, p ∈ l ↔ p.1 ∈ cf_tmpfs_destinations facts ∧ p.2 = clean p.1 ∧ path_starts_with home p.2 = true) as Hl.
  { intros [t c]. unfold l. rewrite list_elem_of_filter, list_elem_of_fmap. naive_solver. }
  clearbody l. split.
  - destruct (foldl deepest None l) as [[t c]|]; [|done]. destruct Hd as [(Hin & Hc & Ha)%Hl Hd]. cbn in *. subst c.
    destruct (same_path (clean t) home) eqn:Hs; [done|]. cbn [orb].
    destruct (existsb _ _) eqn:He; [done|]. intros _. exists t. split_and!; [done..| |].
    + intros o Ho Hoa. apply (Hd (o, clean o)), Hl. done.
    + intros m Hm Hma. destruct (path_starts_with m (clean t)) eqn:Hmt; [|done]. exfalso.
      apply not_true_iff_false in He. apply He, existsb_exists. exists m.
      split; [by apply list_elem_of_In|]. by rewrite Hma, Hmt.
  - intros (t & Ht & Ha & Hs & Hmax & Hno). assert ((t, clean t) ∈ l) as Hin by by apply Hl.
    destruct (foldl deepest None l) as [[u c]|]; [|subst l; by apply elem_of_nil in Hin].
    destruct Hd as [(Hu & Hc & Hua)%Hl Hd]. cbn in *. subst c. specialize (Hd _ Hin). cbn in Hd.
    pose proof (Hmax u Hu Hua) as Hle.
    assert (same_path (clean u) (clean t) = true) as Hsame.
    { apply above_same; [|done]. by apply (above_above home). }
    apply same_path_true in Hsame.
    assert (∀ x, path_starts_with x (clean u) = path_starts_with x (clean t)) as Heq.
    { intros x. unfold path_starts_with. by rewrite Hsame. }
    assert (same_path (clean u) home = false) as ->. { unfold same_path. rewrite Hsame. exact Hs. }
    cbn [orb]. destruct (existsb _ _) eqn:He; [|done]. exfalso.
    apply existsb_exists in He as (m & Hm%list_elem_of_In & [Hma Hmu]%andb_prop).
    rewrite Heq, (Hno m Hm Hma) in Hmu. done.
Qed.

(** What [doctor] reports is what a run refuses. *)
Lemma hidden_refused mounts facts home :
  facts_of mounts facts → hidden mounts home ↔ is_ok (check_tmpfs facts home) = false.
Proof using Type.
  intros [Hmounts Htmpfs]. rewrite hidden_spec, check_tmpfs_spec. split.
  - intros (t & Ht & Htm & Ha & Hmax). exists (container_path t).
    destruct (Hmax t Ht Ha) as [Hs _]. split_and!; [by apply Htmpfs; exists t|done|done| |].
    + intros o (m & Hm & _ & ->)%Htmpfs Hoa. destruct (Hmax m Hm Hoa) as [_ Hk].
      pose proof (depth_length home _ _ Ha Hoa). destruct Hk as [Hk|[Hk _]]; cbn [fst mount_key] in Hk; lia.
    + intros d (m & Hm & Hmt & ->)%Hmounts Hma. destruct (path_starts_with (clean (container_path m)) (clean (container_path t))) eqn:E; [|done]. exfalso.
      destruct (Hmax m Hm Hma) as [_ Hk]. pose proof (depth_length home _ _ Ha Hma).
      pose proof (above_length _ _ E). destruct Hk as [Hk|[_ Hk]]; cbn [fst snd mount_key] in Hk; [lia|].
      rewrite Htm, Hmt in Hk. by specialize (Hk eq_refl).
  - intros (d & (t & Ht & Htm & ->)%Htmpfs & Ha & Hs & Hmax & Hno). exists t. split_and!; [done..|].
    intros m Hm Hma. destruct (is_tmpfs m) eqn:Hmt.
    + assert (container_path m ∈ cf_tmpfs_destinations facts) as Hin by (apply Htmpfs; by exists m).
      specialize (Hmax _ Hin Hma). pose proof (depth_length home _ _ Ha Hma). split.
      * destruct (same_path (clean (container_path m)) home) eqn:E; [|done]. exfalso.
        apply same_path_true in E. rewrite E in Hmax. apply not_true_iff_false in Hs. apply Hs.
        by apply above_same.
      * destruct (Nat.lt_trichotomy (depth (clean (container_path m))) (depth (clean (container_path t)))) as [?|[?|?]];
          [by left| |lia]. right. split; [done|]. cbn [snd mount_key]. by rewrite Htm, Hmt.
    + assert (clean (container_path m) ∈ cf_mount_destinations facts) as Hin by (apply Hmounts; by exists m).
      pose proof (Hno _ Hin Hma) as Hf. pose proof (depth_length home _ _ Ha Hma) as Hd.
      destruct (decide (length (components (clean (container_path t))).2 ≤ length (components (clean (container_path m))).2)) as [Hle|Hgt].
      { rewrite (above_above home) in Hf by done. done. }
      split; [|left; cbn [fst mount_key]; lia]. destruct (same_path (clean (container_path m)) home) eqn:E; [|done]. exfalso.
      apply same_path_true in E. rewrite E in Hgt. pose proof (above_length _ _ Ha). lia.
Qed.
End home.

(** ** The findings about a configuration *)

Lemma check_tmpfs_components `{!PathClean} facts a b :
  components a = components b → is_ok (check_tmpfs facts a) = is_ok (check_tmpfs facts b).
Proof.
  intros Heq. unfold check_tmpfs, deepest_tmpfs.
  assert (∀ x, path_starts_with a x = path_starts_with b x) as Ha.
  { intros x. unfold path_starts_with. by rewrite Heq. }
  assert (∀ x, same_path x a = same_path x b) as Hs. { intros x. unfold same_path. by rewrite Heq. }
  rewrite (list_filter_iff (λ p : string * string, path_starts_with a p.2 = true) (λ p : string * string, path_starts_with b p.2 = true))
    by (intros x; by rewrite Ha).
  destruct (foldl deepest None _) as [[t c]|]; [|done]. rewrite Hs.
  assert (∀ l, existsb (λ mount, path_starts_with a mount && path_starts_with mount c) l
             = existsb (λ mount, path_starts_with b mount && path_starts_with mount c) l) as He.
  { intros l. induction l as [|x l IH]; cbn; [done|]. by rewrite Ha, IH. }
  rewrite He. unfold ensure. by destruct (_ || _).
Qed.

Lemma elem_runnable evaluation name c :
  (name, c) ∈ runnable_containers evaluation ↔
  ev_containers (wp_evaluated evaluation) !! name = Some c ∧ (c_image c ≠ None ∨ c_build_directory c ≠ None).
Proof.
  unfold runnable_containers. rewrite (merge_sort_Permutation name_of_le), list_elem_of_filter, elem_of_map_to_list. cbn.
  destruct (c_image c), (c_build_directory c); cbn; naive_solver.
Qed.

Lemma elem_sorted m l : m ∈ merge_sort text_le l ↔ m ∈ l.
Proof. by rewrite (merge_sort_Permutation text_le l). Qed.

Lemma elem_repeated_entries config m :
  m ∈ repeated_entries config ↔
  ∃ kind owner entry field, m = RepeatedEntry kind owner entry field ∧
    match kind, field with
    | ContainerList, DependenciesOf =>
        ∃ c, (owner, c) ∈ cfg_containers config ∧ 1 < count entry (default [] (c_dependencies c))
    | ContainerList, PrerequisitesOf => False
    | TaskList, DependenciesOf =>
        ∃ t, (owner, t) ∈ cfg_tasks config ∧ 1 < count entry (default [] (t_dependencies t))
    | TaskList, PrerequisitesOf =>
        ∃ t, (owner, t) ∈ cfg_tasks config ∧ 1 < count entry (default [] (t_prerequisites t))
    end.
Proof.
  unfold repeated_entries. rewrite elem_sorted, elem_of_app, !list_elem_of_bind. split.
  - intros [([n c] & Hm & Hc)|([n t] & Hm & Ht)]; [|apply elem_of_app in Hm as [Hm|Hm]];
      apply elem_repeated_in in Hm as (e & -> & He).
    + exists ContainerList, n, e, DependenciesOf. split; [done|]. by exists c.
    + exists TaskList, n, e, DependenciesOf. split; [done|]. by exists t.
    + exists TaskList, n, e, PrerequisitesOf. split; [done|]. by exists t.
  - intros ([] & n & e & [] & -> & H); [|done| |]; destruct H as (x & Hx & He); [left|right|right];
      exists (n, x); (split; [|done]); [|apply elem_of_app; left|apply elem_of_app; right];
      apply elem_repeated_in; by exists e.
Qed.

Lemma elem_dependency_names config name :
  name ∈ dependency_names config ↔
  (∃ n c, (n, c) ∈ cfg_containers config ∧ name ∈ default [] (c_dependencies c)) ∨
  (∃ n t, (n, t) ∈ cfg_tasks config ∧ name ∈ default [] (t_dependencies t)).
Proof.
  unfold dependency_names. rewrite elem_of_sort_dedup, elem_of_app, !list_elem_of_bind. split.
  - intros [([n c] & ? & ?)|([n t] & ? & ?)]; [left|right]; by eexists _, _.
  - intros [(n & c & ? & ?)|(n & t & ? & ?)]; [left|right]; by eexists (_, _).
Qed.

Section meaning.
Context `{!PathClean} {F : Type} `{!BuildFiles F}.

(** What a finding about a configuration says. *)
Definition meaning (files : F) (config : Config) (evaluation : WholeProjectEvaluation) (f : Finding) : Prop :=
  let containers := ev_containers (wp_evaluated evaluation) in
  match f with
  | Fine EveryValueEvaluates => wp_failures evaluation = []
  | Warning (ValueFails failure) => failure ∈ wp_failures evaluation
  | Warning (FloatingTag name) =>
      ∃ c image, containers !! name = Some c ∧ c_image c = Some image ∧ floating_image_tag image = true
  | Warning (NoHealthCheck name) =>
      ((∃ n c, (n, c) ∈ cfg_containers config ∧ name ∈ default [] (c_dependencies c)) ∨
       (∃ n t, (n, t) ∈ cfg_tasks config ∧ name ∈ default [] (t_dependencies t))) ∧
      ∃ c, im_get (cfg_containers config) name = Some c ∧ c_health_check c = None ∧
        c_external_health_check c = None ∧ c_run_to_completion c ≠ Some true
  | Warning (RepeatedEntry ContainerList owner entry DependenciesOf) =>
      ∃ c, (owner, c) ∈ cfg_containers config ∧ 1 < count entry (default [] (c_dependencies c))
  | Warning (RepeatedEntry TaskList owner entry DependenciesOf) =>
      ∃ t, (owner, t) ∈ cfg_tasks config ∧ 1 < count entry (default [] (t_dependencies t))
  | Warning (RepeatedEntry TaskList owner entry PrerequisitesOf) =>
      ∃ t, (owner, t) ∈ cfg_tasks config ∧ 1 < count entry (default [] (t_prerequisites t))
  | Warning (AbsoluteDockerfile name relative) =>
      ∃ c directory written, containers !! name = Some c ∧ c_image c = None ∧
        c_build_directory c = Some directory ∧ c_dockerfile c = Some written ∧ is_relative written = false ∧
        check_build_files files directory (c_build_directory_in_bundle c) (Some written) = Ok relative
  | Problem (Unbuildable name in_bundle reason) =>
      ∃ c directory, containers !! name = Some c ∧ c_image c = None ∧ c_build_directory c = Some directory ∧
        in_bundle = set (c_build_directory_in_bundle c) ∧
        check_build_files files directory (c_build_directory_in_bundle c) (c_dockerfile c) = Err reason
  | Problem (HomeUnderTmpfs name home _) | Warning (HomeUnderMount name home _ _) =>
      ∃ c, containers !! name = Some c ∧ (c_image c ≠ None ∨ c_build_directory c ≠ None) ∧
        id_home <$> c_identity c = Some home ∧ f ∈ home_mount_finding name c
  | _ => False
  end.

Lemma home_mount_finding_shape name c f :
  f ∈ home_mount_finding name c →
  ∃ home, id_home <$> c_identity c = Some home ∧
    ((∃ at_path, f = Problem (HomeUnderTmpfs name home at_path)) ∨
     (∃ at_path m, f = Warning (HomeUnderMount name home at_path m))).
Proof using Type.
  unfold home_mount_finding. destruct (c_identity c) as [identity|]; [|by intros ?%elem_of_nil].
  intros Hf. exists (id_home identity). split; [done|]. revert Hf.
  destruct (existsb _ _); [by intros ?%elem_of_nil|]. destruct (max_by_key _ _) as [above|]; [|by intros ?%elem_of_nil].
  unfold home_finding. destruct above as [local|cache|tmpfs].
  - intros ->%list_elem_of_singleton. right. by eexists _, _.
  - destruct (is_read_only _); [|by intros ?%elem_of_nil]. intros ->%list_elem_of_singleton. right. by eexists _, _.
  - intros ->%list_elem_of_singleton. left. by eexists.
Qed.

(** The [tmpfs] finding is there when [hidden] holds. *)
Lemma home_under_tmpfs name c identity :
  c_identity c = Some identity →
  (∃ at_path, Problem (HomeUnderTmpfs name (id_home identity) at_path) ∈ home_mount_finding name c) ↔
  hidden (default [] (c_volumes c)) (clean (id_home identity)).
Proof using Type.
  intros Hid. unfold home_mount_finding, hidden. rewrite Hid. set (mounts := default [] _).
  assert (existsb (λ m, same_path (clean (container_path m)) (clean (id_home identity))) mounts = false ↔
    ∀ m, m ∈ mounts → same_path (clean (container_path m)) (clean (id_home identity)) = false) as He.
  { rewrite <-not_true_iff_false, existsb_exists. setoid_rewrite <-list_elem_of_In.
    setoid_rewrite <-not_true_iff_false. naive_solver. }
  destruct (existsb _ _).
  { split; [intros [? ?%elem_of_nil]; done|]. intros (above & _ & _ & Hno). by apply He in Hno. }
  destruct (max_by_key _ _) as [above|]; [|split; [by intros [? ?%elem_of_nil]|by intros (? & ? & _)]].
  unfold home_finding. split.
  - intros [at_path Hin]. exists above. split; [done|]. destruct above as [local|cache|tmpfs].
    + by apply list_elem_of_singleton in Hin.
    + destruct (is_read_only _); [by apply list_elem_of_singleton in Hin|by apply elem_of_nil in Hin].
    + split; [done|]. by apply He.
  - intros (? & [= <-] & Ht & _). destruct above as [|?|tmpfs]; [done..|]. eexists. by apply list_elem_of_singleton.
Qed.
End meaning.

(** ** The theorem *)

Section findings.
Context `{!PathClean} {F : Type} `{!BuildFiles F}.

Lemma elem_built (files : F) (containers : gmap string Container) m :
  m ∈ omap (build_finding files) (map_to_list containers) ↔
  ∃ name c directory, containers !! name = Some c ∧ c_image c = None ∧ c_build_directory c = Some directory ∧
    match check_build_files files directory (c_build_directory_in_bundle c) (c_dockerfile c) with
    | Err reason => m = inr (Unbuildable name (set (c_build_directory_in_bundle c)) reason)
    | Ok relative => ∃ written, c_dockerfile c = Some written ∧ is_relative written = false ∧
        m = inl (AbsoluteDockerfile name relative)
    end.
Proof using Type.
  rewrite list_elem_of_omap. split.
  - intros ([name c] & Hc%elem_of_map_to_list & Hx). unfold build_finding in Hx.
    destruct (c_image c) eqn:Hi, (c_build_directory c) as [directory|] eqn:Hd; [done..| |done].
    exists name, c, directory. split_and!; [done..|].
    destruct (check_build_files _ _ _ _) as [relative|reason]; [|by injection Hx as <-].
    destruct (c_dockerfile c) as [written|]; [|done]. exists written.
    destruct (is_relative written); [done|]. by injection Hx as <-.
  - intros (name & c & directory & Hc & Hi & Hd & Hx). exists (name, c). split; [by apply elem_of_map_to_list|].
    unfold build_finding. rewrite Hi, Hd. destruct (check_build_files _ _ _ _) as [relative|reason]; [|by subst].
    destruct Hx as (written & Hw & Hr & ->). by rewrite Hw, Hr.
Qed.

Lemma elem_no_health_check config name :
  name ∈ filter (λ name, is_unguarded config name = true) (dependency_names config) ↔
  name ∈ dependency_names config ∧
  ∃ c, im_get (cfg_containers config) name = Some c ∧ c_health_check c = None ∧
    c_external_health_check c = None ∧ c_run_to_completion c ≠ Some true.
Proof using Type.
  rewrite list_elem_of_filter. unfold is_unguarded.
  destruct (im_get (cfg_containers config) name) as [c|]; [|split; [intros [? _]; done|by intros [_ (? & ? & _)]]].
  assert ((negb (set (c_health_check c)) && negb (set (c_external_health_check c)) &&
           negb (default false (c_run_to_completion c))) = true ↔
          c_health_check c = None ∧ c_external_health_check c = None ∧ c_run_to_completion c ≠ Some true) as ->.
  { destruct (c_health_check c), (c_external_health_check c), (c_run_to_completion c) as [[]|];
      cbn; (split; [|intros (? & ? & ?)]); try done. }
  split; [intros [Hx ?]; split; [done|by exists c]|intros [? (? & [= <-] & Hx)]; done].
Qed.

Lemma elem_config_findings (files : F) config evaluation f :
  f ∈ config_findings files config evaluation ↔ meaning files config evaluation f.
Proof using Type.
  unfold config_findings. rewrite !elem_of_app, !list_elem_of_fmap.
  setoid_rewrite elem_of_sort_strings. setoid_rewrite elem_no_health_check. setoid_rewrite elem_dependency_names.
  setoid_rewrite elem_repeated_entries. setoid_rewrite elem_sorted. setoid_rewrite list_elem_of_omap.
  setoid_rewrite elem_built.
  unfold identity_home_mount_findings. rewrite list_elem_of_bind.
  split.
  - intros [Hx|[Hx|[Hx|[Hx|[Hx|[Hx|[Hx|Hx]]]]]]].
    + destruct (wp_failures evaluation) eqn:E; [|by apply elem_of_nil in Hx]. apply list_elem_of_singleton in Hx as ->. exact E.
    + by destruct Hx as (e & -> & He).
    + destruct Hx as (n & -> & Hn). apply list_elem_of_fmap in Hn as ([n' c] & -> & Hn).
      apply list_elem_of_filter in Hn as [Hf Hc%elem_of_map_to_list]. cbn in Hf |- *.
      destruct (c_image c) as [image|] eqn:Hi; [|done]. by exists c, image.
    + by destruct Hx as (n & -> & Hn).
    + destruct Hx as (m & -> & kind & owner & entry & field & -> & Hx). by destruct kind, field.
    + destruct Hx as (m & -> & [b|b] & (name & c & directory & Hc & Hi & Hd & Hx) & Hm); [|done].
      injection Hm as ->. destruct (check_build_files _ _ _ _) as [relative|reason] eqn:Hb; [|done].
      destruct Hx as (written & Hw & Hr & [= ->]). rewrite Hw in Hb. by exists c, directory, written.
    + destruct Hx as (m & -> & [b|b] & (name & c & directory & Hc & Hi & Hd & Hx) & Hm); [done|].
      injection Hm as ->. destruct (check_build_files _ _ _ _) as [relative|reason] eqn:Hb; [by destruct Hx as (? & _ & _ & ?)|].
      injection Hx as ->. by exists c, directory.
    + destruct Hx as ([name c] & Hf & Hc). apply elem_runnable in Hc as [Hc Hr]. cbn in Hf.
      destruct (home_mount_finding_shape _ _ _ Hf) as (home & Hh & [[at_path ->]|(at_path & m & ->)]); by exists c.
  - destruct f as [[]|[]|[]]; cbn [meaning]; try done.
    + intros ->. left. by left.
    + intros He. right; left. by eexists.
    + intros (c & image & Hc & Hi & Hf). do 2 right; left. exists container. split; [done|].
      apply list_elem_of_fmap. exists (container, c). split; [done|]. apply list_elem_of_filter. cbn. rewrite Hi.
      split; [done|]. by apply elem_of_map_to_list.
    + intros Hx. do 3 right; left. by eexists.
    + intros Hx. do 4 right; left. eexists. split; [done|]. eexists _, _, _, _. split; [done|]. by destruct kind, field.
    + intros (c & directory & written & Hc & Hi & Hd & Hw & Hr & Hb). do 5 right; left. eexists. split; [done|].
      eexists (inl _). split; [|done]. exists container, c, directory. split_and!; [done..|]. rewrite Hw, Hb. by exists written.
    + intros (c & Hc & Hr & _ & Hf). do 7 right. exists (container, c). split; [done|]. by apply elem_runnable.
    + intros (c & directory & Hc & Hi & Hd & -> & Hb). do 6 right; left. eexists. split; [done|].
      eexists (inr _). split; [|done]. exists container, c, directory. split_and!; [done..|]. by rewrite Hb.
    + intros (c & Hc & Hr & _ & Hf). do 7 right. exists (container, c). split; [done|]. by apply elem_runnable.
Qed.

End findings.

Module Once.
#[local] Existing Instance lexical_path_clean.

(** A host with no file on it. *)
#[local] Instance no_files : BuildFiles () := {|
  file_exists _ _ := false; file_is_dir _ _ := false; file_is_file _ _ := false; file_is_link _ _ := false |}.

Definition mounts : list VolumeMount :=
  [TmpfsMount (mk_tmpfs_mount "/home/" None); CacheMount (mk_cache_mount "data" "/data" None None)].

Definition app : Container :=
  mk_container None (Some "alpine") None None None None None None None
    None (Some mounts) None None None None None None None
    None None None None None None None None None None None None None None None None None None
    None None None None None None None None (Some (mk_identity "/home/me" [])).

Definition config : Config := mk_config "p" [("app", app)] [] None None.
Definition evaluation : WholeProjectEvaluation := mk_whole (mk_evaluated {[ "app" := app ]} ∅) [].
Definition facts : CreatedContainerFacts := mk_facts EmptyString ["/data"] ["/home/"].

End Once.
