(* ===== verification/Convert.v ===== *)
(** * Convert: a Batect-format project as native files

    [ratect-core/src/convert.rs]: which files a loaded project converts to, what
    each holds, and what its reader is asked to check.  The [toml] crate, its
    values and texts, is an interface; an assertion of the source that fails is
    the error [Bug]. *)

From S2P Require Import Prelude Text Collections Values Config Dockerignore Paths IncludeTrust WrittenFor.
From S2P Require Import Includes Diagnostics.
From S2P Require Expressions.
From stdpp Require Import options.

(** ** Paths *)

(** [Path::file_stem] *)
Definition file_stem (path : string) : option string :=
  name ← file_name path;
  Some match rsplit_once "." name with
       | Some (before, _) => if bool_decide (before = EmptyString) then name else before
       | None => name
       end.

(** [Path::with_extension] *)
Definition with_extension (path ext : string) : string :=
  match file_stem path with
  | Some stem => path_join (default EmptyString (path_parent path)) (stem +:+ "." +:+ ext)
  | None => path
  end.

(** [Path::with_file_name] *)
Definition with_file_name (path name : string) : string :=
  match file_name path with
  | Some _ => path_join (default EmptyString (path_parent path)) name
  | None => path_join path name
  end.

Definition NATIVE_CONFIG_FILE : string := "ratect.toml".
Definition NATIVE_BUNDLE_FILE : string := "ratect-bundle.toml".
Definition BATECT_BUNDLE_FILE : string := "batect-bundle.yml".

(** ** What a conversion gives *)

Record Document := mk_document {
  do_project_name : option string;
  do_containers : index_map Container;
  do_tasks : index_map Task;
  do_config_variables : option (index_map ConfigVariable);
  do_include : list IncludeEntry;
  do_forbid_telemetry : option bool;
}.

Record ConvertedFile := mk_converted_file {
  cd_source : string;
  cd_target : string;
  cd_toml : string;
  cd_checks : list ConversionCheck;
}.

Inductive bug :=
| NoRootFile
| IncludeNotReached (resolved declaring : string)
| TargetNotAFile (target : string)
| IncludeUncloned (repo : Remote) (git_ref : string)
| NotReachedInClone (file : string)
| CheckOfNoContainer
| ContainerNotDeclared (name : string)
| NoFileDeclares (bundle : BundleId)
| ReachedFromNoOwned (bundle : BundleId)
| ChecksUnplaced
| NotATable
| RoundTripLost
| WalkOutOfFuel.

Inductive convert_error :=
| OverwritesItself (file : string)
| BothWrite (previous file target : string)
| IdentityAndUser (container : string)
| HomeNotGiven (container : string)
| PathFailed (e : load_error)
| NotSerialized
| NotRendered
| NotReparsed
| Converting (file : string) (e : convert_error)
| Bug (what : bug).

(** ** A container *)

(** A container with the fields a conversion rewrites. *)
Definition with_conversion (image : option string) (volumes : option (list VolumeMount))
    (identity : option Identity) (c : Container) : Container :=
  mk_container (c_extends c) image (c_image_pull_policy c) (c_build_directory c)
    (c_build_directory_in_bundle c) (c_build_args c)
    (c_dockerfile c) (c_build_target c) (c_build_secrets c) (c_build_ssh c) volumes (c_dependencies c)
    (c_environment c) None (c_additional_hostnames c) (c_additional_hosts c) (c_ports c)
    (c_health_check c) (c_setup_commands c) (c_run_to_completion c) (c_external_health_check c)
    (c_reports_readiness_for c) (c_working_directory c) (c_command c) (c_entrypoint c) (c_labels c)
    (c_capabilities_to_add c) (c_capabilities_to_drop c) (c_privileged c) (c_shm_size c) (c_devices c)
    (c_enable_init_process c) (c_log_driver c) (c_log_options c) (c_stop_signal c)
    (c_stop_grace_period c) (c_ulimits c) (c_dns c) (c_dns_search c) (c_dns_options c)
    (c_network_mode c) (c_user c) (c_group c) (c_groups c) identity.

Definition converted_volume (volume : VolumeMount) : VolumeMount :=
  match volume with
  | LocalMount m =>
      if local_is_expression m true then volume
      else LocalMount (mk_local_mount (Expressions.literal_as_expression (lv_local m)) (lv_container m)
                         (lv_options m) (lv_compact m))
  | _ => volume
  end.

Definition converted_container (name : string) (container : Container) : result Container convert_error :=
  let image := if image_is_expression true then c_image container
               else Expressions.literal_kept <$> c_image container in
  let volumes := (λ l : list VolumeMount, converted_volume <$> l) <$> c_volumes container in
  let? identity :=
    match c_run_as_current_user container with
    | Some user =>
        if ru_enabled user then
          let? _ := ensure (match c_identity container with None => true | Some _ => false end)
                      (IdentityAndUser name) in
          let? home := ok_or (ru_home_directory user) (HomeNotGiven name) in
          Ok (Some (mk_identity (Expressions.literal_as_expression home) []))
        else Ok (c_identity container)
    | None => Ok (c_identity container)
    end in
  Ok (with_conversion image volumes identity container).

Fixpoint converted_containers (containers : index_map Container) : result (index_map Container) convert_error :=
  match containers with
  | [] => Ok []
  | (name, container) :: containers =>
      let? converted := converted_container name container in
      let? rest := converted_containers containers in
      Ok ((name, converted) :: rest)
  end.

(** ** Targets *)

(** One table of source to target, and who claimed each target. *)
Fixpoint claim_targets (pairs : list (LoadedFile * string)) (target_of claimed : gmap string string)
    : result (gmap string string) convert_error :=
  match pairs with
  | [] => Ok target_of
  | (file, target) :: pairs =>
      if bool_decide (target = lf_path file) then Err (OverwritesItself (lf_path file))
      else
        match claimed !! target with
        | Some previous => Err (BothWrite previous (lf_path file) target)
        | None => claim_targets pairs (<[lf_path file := target]> target_of) (<[target := lf_path file]> claimed)
        end
  end.

Definition targets_of (root : LoadedFile) (includes : list LoadedFile) : list string :=
  path_join (default EmptyString (path_parent (lf_path root))) NATIVE_CONFIG_FILE
  :: ((λ file, with_extension (lf_path file) "toml") <$> includes).

Section convert.
Context `{!PathClean, !FileTree W}.

Definition path_failed {A} (r : result A load_error) : result A convert_error := map_err PathFailed r.

(** ** Bundles *)

Definition declares (wanted : BundleId) (file : LoadedFile) : bool :=
  existsb (λ entry, match entry with
                    | GitInclude repo git_ref _ _ _ _ =>
                        bool_decide (repo = bi_remote wanted ∧ git_ref = bi_git_ref wanted)
                    | FileInclude _ => false
                    end) (cf_include (lf_file file)).

Definition is_owned (file : LoadedFile) : bool := match lf_boundary file with None => true | Some _ => false end.

(** [min_by_key(|file| file.boundary.is_some())]: the first owned one, or the first. *)
Definition first_owned (files : list LoadedFile) : option LoadedFile :=
  match list_find (λ file, is_owned file = true) files with
  | Some (_, file) => Some file
  | None => head files
  end.

Fixpoint climb (steps : nat) (files : list LoadedFile) (bundle wanted : BundleId) : result string convert_error :=
  match steps with
  | 0 => Err (Bug (ReachedFromNoOwned bundle))
  | S steps =>
      let? declaring := ok_or (first_owned (filter (λ file, declares wanted file = true) files))
                          (Bug (NoFileDeclares wanted)) in
      match lf_boundary declaring with
      | None => Ok (lf_path declaring)
      | Some boundary => climb steps files bundle (bu_id (bo_bundle boundary))
      end
  end.

Definition owned_file_reaching (loaded : LoadedConfig) (bundle : BundleId) : result string convert_error :=
  climb (length (lc_files loaded)) (lc_files loaded) bundle bundle.

(** [container_bundle] *)
Definition container_bundle (loaded : LoadedConfig) (name : string) : option BundleId :=
  (λ b, bu_id (bo_bundle b)) <$> lc_container_boundaries loaded !! name.

(** The file a check belongs to, or none where it does not apply. *)
Definition file_of_check (loaded : LoadedConfig) (check : ConversionCheck) : result (option string) convert_error :=
  let? container := ok_or (ck_container check) (Bug CheckOfNoContainer) in
  match container_bundle loaded container with
  | None =>
      let? origin := ok_or (lc_container_origins loaded !! container) (Bug (ContainerNotDeclared container)) in
      Ok (Some origin)
  | Some bundle =>
      match ck_kind check with
      | UngatedTaskContainer => let? file := owned_file_reaching loaded bundle in Ok (Some file)
      | _ => Ok None
      end
  end.

Fixpoint place_checks (loaded : LoadedConfig) (checks : list ConversionCheck)
    (by_file : gmap string (list ConversionCheck)) : result (gmap string (list ConversionCheck)) convert_error :=
  match checks with
  | [] => Ok by_file
  | check :: checks =>
      let? file := file_of_check loaded check in
      place_checks loaded checks
        (match file with
         | Some file => <[file := default [] (by_file !! file) ++ [check]]> by_file
         | None => by_file
         end)
  end.

Definition checks_by_file (loaded : LoadedConfig) : result (gmap string (list ConversionCheck)) convert_error :=
  place_checks loaded (conversion_checks (lc_config loaded)) ∅.

(** ** Includes *)

Definition resolve_local (w : W) (declaring path : string) : result string convert_error :=
  path_failed
    (let? target := local_include_target w (default EmptyString (path_parent declaring)) path in
     absolute w target).

Definition file_at (loaded : LoadedConfig) (path : string) : option LoadedFile :=
  snd <$> list_find (λ file, lf_path file = path) (lc_files loaded).

(** The inner loop: whether a file declares a Git include, or what it includes. *)
Fixpoint includes_of (w : W) (file_path : string) (entries : list IncludeEntry) (queue : list string)
    : result (option (list string)) convert_error :=
  match entries with
  | [] => Ok (Some queue)
  | GitInclude _ _ _ _ _ _ :: _ => Ok None
  | FileInclude path :: entries =>
      let? target := resolve_local w file_path path in
      includes_of w file_path entries (target :: queue)
  end.

(** The walk; the queue is a stack, the path pushed last in front. *)
Fixpoint git_walk (fuel : nat) (w : W) (loaded : LoadedConfig) (seen : gset string) (queue : list string)
    : result bool convert_error :=
  match queue with
  | [] => Ok false
  | file_path :: queue =>
      match fuel with
      | 0 => Err (Bug WalkOutOfFuel)
      | S fuel =>
          if bool_decide (file_path ∈ seen) then git_walk fuel w loaded seen queue
          else
            let? file := ok_or (file_at loaded file_path) (Bug (NotReachedInClone file_path)) in
            let? queue := includes_of w file_path (cf_include (lf_file file)) queue in
            match queue with
            | None => Ok true
            | Some queue => git_walk fuel w loaded ({[file_path]} ∪ seen) queue
            end
      end
  end.

(** A path is pushed for each entry of each file at most, and the first one. *)
Definition walk_fuel (loaded : LoadedConfig) : nat :=
  S (length (lc_files loaded ≫= λ file, cf_include (lf_file file))).

Definition bundle_declares_git_includes (w : W) (loaded : LoadedConfig) (clone : string) (path : option string)
    : result bool convert_error :=
  let? start := path_failed (absolute w (path_join clone (default BATECT_BUNDLE_FILE path))) in
  git_walk (walk_fuel loaded) w loaded ∅ [start].

Definition convert_include (w : W) (entry : IncludeEntry) (declaring : string) (loaded : LoadedConfig)
    (target_of : gmap string string) : result (IncludeEntry * list ConversionCheck) convert_error :=
  match entry with
  | FileInclude path =>
      let? resolved := resolve_local w declaring path in
      let? target := ok_or (target_of !! resolved) (Bug (IncludeNotReached resolved declaring)) in
      let? name := ok_or (file_name target) (Bug (TargetNotAFile target)) in
      Ok (FileInclude (with_file_name path name), [])
  | GitInclude repo git_ref path allow_host_paths _ _ =>
      let? clone := ok_or (lc_git_clones loaded !! (repo, git_ref)) (Bug (IncludeUncloned repo git_ref)) in
      let pinned := match path with
                    | Some _ => false
                    | None => is_file w (path_join clone NATIVE_BUNDLE_FILE)
                    end in
      let path := if pinned then Some BATECT_BUNDLE_FILE else path in
      let? nested := bundle_declares_git_includes w loaded clone path in
      let check := λ kind, mk_check None kind (IncludeIs (redacted repo) git_ref) in
      Ok (GitInclude repo git_ref path allow_host_paths None None,
          (if pinned then [check BundleOffersNativeFile] else [])
          ++ (if nested then [check BundleDeclaresGitIncludes] else []))
  end.

Fixpoint convert_includes (w : W) (entries : list IncludeEntry) (declaring : string) (loaded : LoadedConfig)
    (target_of : gmap string string) : result (list IncludeEntry * list ConversionCheck) convert_error :=
  match entries with
  | [] => Ok ([], [])
  | entry :: entries =>
      let? (entry, checks) := convert_include w entry declaring loaded target_of in
      let? (entries, more) := convert_includes w entries declaring loaded target_of in
      Ok (entry :: entries, checks ++ more)
  end.
End convert.

(** ** The text *)

(** [toml::Value], a number, a boolean or a date by its text. *)
Inductive toml_value :=
| TStr (s : string)
| TLeaf (text : string)
| TArr (l : list toml_value)
| TTab (t : list (string * toml_value)).

Fixpoint sort_keys (entry : string * toml_value) (t : list (string * toml_value)) : list (string * toml_value) :=
  match t with
  | [] => [entry]
  | e :: t => if bool_decide (str_le entry.1 e.1) then entry :: e :: t else e :: sort_keys entry t
  end.

Fixpoint sorted (value : toml_value) : toml_value :=
  match value with
  | TTab table =>
      TTab (foldr sort_keys [] ((fix each (t : list (string * toml_value)) :=
        match t with [] => [] | (key, value) :: t => (key, sorted value) :: each t end) table))
  | TArr values => TArr ((fix each (l : list toml_value) :=
        match l with [] => [] | value :: l => sorted value :: each l end) values)
  | other => other
  end.

(** The [toml] crate on a document, its derived writer and reader, and on a value. *)
Class TomlDocuments := {
  try_from : Document → option toml_value;
  to_string_pretty : list (string * toml_value) → option string;
  from_str : string → option Document;
  show_value : toml_value → string;
  value_eqb : toml_value → toml_value → bool;
}.

Definition INCLUDE_KEY_ORDER : list string :=
  ["type"; "repo"; "ref"; "path"; "allow_host_paths"; "allow_nested_git_includes"].

Definition newline : string := String "010" EmptyString.

Definition value_of (t : list (string * toml_value)) (key : string) : option toml_value :=
  snd <$> (snd <$> list_find (λ p, p.1 = key) t).

Section render.
Context `{!TomlDocuments}.

Definition rendered_entry (entry : toml_value) : result string convert_error :=
  match entry with
  | TTab entry =>
      let pairs := omap (λ key, (λ value, key +:+ " = " +:+ show_value value) <$> value_of entry key)
                     INCLUDE_KEY_ORDER in
      Ok ("    { " +:+ join ", " pairs +:+ " }," +:+ newline)
  | _ => Err (Bug NotATable)
  end.

Fixpoint rendered_entries (entries : list toml_value) : result string convert_error :=
  match entries with
  | [] => Ok EmptyString
  | entry :: entries =>
      let? text := rendered_entry entry in
      let? rest := rendered_entries entries in
      Ok (text +:+ rest)
  end.

(** The scalars, the [include] list, and the tables of the top level. *)
Definition is_include (p : string * toml_value) : bool :=
  match p.2 with TArr _ => bool_decide (p.1 = "include") | _ => false end.
Definition is_table (p : string * toml_value) : bool := match p.2 with TTab _ => true | _ => false end.

Definition include_entries (table : list (string * toml_value)) : list toml_value :=
  match last (filter (λ p, is_include p = true) table) with Some (_, TArr entries) => entries | _ => [] end.

Definition rendered_text (table : list (string * toml_value)) : result string convert_error :=
  let head := filter (λ p, is_include p = false ∧ is_table p = false) table in
  let body := filter (λ p, is_table p = true) table in
  let include := include_entries table in
  let? text := ok_or (to_string_pretty head) NotRendered in
  let? listed := match include with
                 | [] => Ok EmptyString
                 | _ => let? entries := rendered_entries include in
                        Ok ("include = [" +:+ newline +:+ entries +:+ "]" +:+ newline)
                 end in
  let text := text +:+ listed in
  match body with
  | [] => Ok text
  | _ =>
      let? tables := ok_or (to_string_pretty body) NotRendered in
      Ok (text +:+ (if bool_decide (text = EmptyString) then EmptyString else newline) +:+ tables)
  end.

Definition render (document : Document) (written_for : option Version) : result string convert_error :=
  let? value := ok_or (try_from document) NotSerialized in
  let value := sorted value in
  match value with
  | TTab table =>
      let? text := rendered_text table in
      let? reparsed := ok_or (from_str text) NotReparsed in
      let? reparsed_value := ok_or (try_from reparsed) NotSerialized in
      let? _ := ensure (value_eqb reparsed_value value) (Bug RoundTripLost) in
      Ok match written_for with
         | Some version => WrittenFor.FIELD +:+ " = " +:+ show_value (TStr (version_show version)) +:+ newline +:+ text
         | None => text
         end
  | _ => Err (Bug NotATable)
  end.

(** ** The project *)

Context {W : Type} `{!PathClean, !FileTree W}.

Definition converted_document (w : W) (loaded : LoadedConfig) (target_of : gmap string string)
    (is_root : bool) (file : LoadedFile) : result (Document * list ConversionCheck) convert_error :=
  let? (include, checks) :=
    convert_includes w (cf_include (lf_file file)) (lf_path file) loaded target_of in
  let? containers := converted_containers (cf_containers (lf_file file)) in
  Ok (mk_document (if is_root then Some (cfg_project_name (lc_config loaded)) else None) containers
        (cf_tasks (lf_file file)) (cf_config_variables (lf_file file)) include
        (cf_forbid_telemetry (lf_file file)), checks).

(** Each file in turn; what is left of the container checks. *)
Fixpoint convert_files (w : W) (loaded : LoadedConfig) (written_for : Version) (target_of : gmap string string)
    (is_root : bool) (pairs : list (LoadedFile * string)) (container_checks : gmap string (list ConversionCheck))
    : result (list ConvertedFile * gmap string (list ConversionCheck)) convert_error :=
  match pairs with
  | [] => Ok ([], container_checks)
  | (file, target) :: pairs =>
      let? (document, checks) := converted_document w loaded target_of is_root file in
      let checks := checks ++ default [] (container_checks !! lf_path file) in
      let? toml := map_err (Converting (lf_path file))
                     (render document (if is_root then Some written_for else None)) in
      let? (files, unplaced) := convert_files w loaded written_for target_of false pairs
                              (delete (lf_path file) container_checks) in
      Ok (mk_converted_file (lf_path file) target toml checks :: files, unplaced)
  end.

Definition owned_files (loaded : LoadedConfig) : list LoadedFile :=
  filter (λ file, is_owned file = true) (lc_files loaded).

Definition convert_project (w : W) (loaded : LoadedConfig) (written_for : Version)
    : result (list ConvertedFile) convert_error :=
  match owned_files loaded with
  | [] => Err (Bug NoRootFile)
  | root :: includes =>
      let pairs := zip (root :: includes) (targets_of root includes) in
      let? target_of := claim_targets pairs ∅ ∅ in
      let? container_checks := checks_by_file loaded in
      let? (files, unplaced) := convert_files w loaded written_for target_of true pairs container_checks in
      let? _ := ensure (bool_decide (unplaced = ∅)) (Bug ChecksUnplaced) in
      Ok files
  end.
End render.
