(* ===== verification/ConvertSpec.v ===== *)
(** * ConvertSpec: what a conversion keeps

    Where a converted file is, and what leads to it: a target is beside its source,
    and a path whose last name is replaced by its name resolves to it.  Every file
    the owner wrote is converted, with what it held; every include entry leads to
    the converted file; every check is in the file its container is declared in. *)

From S2P Require Import Prelude Text Collections Regex Values Config Dockerignore Paths IncludeTrust WrittenFor Includes IncludesSpec Diagnostics Convert.
From S2P Require Expressions LexicalClean.
From stdpp Require Import options.

(** ** Paths *)

Definition no_dots (parts : list string) : list string := filter (.≠ ".") parts.

Lemma no_dots_snoc parts name : name ≠ "." → no_dots (parts ++ [name]) = no_dots parts ++ [name].
Proof. intros H. unfold no_dots. rewrite filter_app. by rewrite filter_cons_True. Qed.

Lemma no_dots_components s : no_dots (components s).2 = filter (.≠ ".") (filter (.≠ EmptyString) (split "/" s)).
Proof.
  unfold components, no_dots. cbn [snd]. destruct (filter (.≠ EmptyString) (split "/" s)) as [|first rest]; [done|].
  destruct (negb _ && _) eqn:E.
  - apply andb_prop in E as [_ ->%bool_decide_eq_true]. rewrite !filter_cons_False by (intros H; by apply H).
    rewrite list_filter_filter. apply list_filter_iff. tauto.
  - rewrite list_filter_filter. apply list_filter_iff. tauto.
Qed.

(** A path as its components: none empty, [.] only in front of a relative one. *)
Definition piece (c : string) : Prop := c ≠ EmptyString ∧ slash ∉ chars c.
Definition shape (p : bool * list string) : Prop :=
  Forall piece p.2 ∧ Forall (.≠ ".") (if p.1 then p.2 else tail p.2).

Lemma path_component_piece c : path_component c → piece c.
Proof. intros (? & ? & ?). done. Qed.

Lemma shape_components s : shape (components s).
Proof.
  assert (Forall piece (filter (.≠ EmptyString) (split "/" s))) as Hp.
  { apply Forall_forall. intros c [Hne Hin]%list_elem_of_filter. split; [done|].
    by apply (proj1 (Forall_forall _ _) (split_parts slash s)). }
  assert (∀ l, Forall piece l → Forall piece (filter (.≠ ".") l)) as Hf.
  { intros l Hl. apply Forall_forall. intros c [_ Hin]%list_elem_of_filter.
    by apply (proj1 (Forall_forall _ _) Hl). }
  assert (∀ l, Forall (.≠ ".") (filter (.≠ ".") l)) as Hd.
  { intros l. apply Forall_forall. by intros c [? _]%list_elem_of_filter. }
  unfold components, shape. cbn [fst snd]. destruct (filter (.≠ EmptyString) (split "/" s)) as [|first rest].
  { split; [done|]. by destruct (starts_with "/" s). }
  destruct (negb _ && _) eqn:E.
  - apply andb_prop in E as [->%negb_true_iff _]. apply Forall_cons in Hp as [Hp Hr]. split; [|apply Hd].
    constructor; [done|]. by apply Hf.
  - split; [by apply Hf|]. pose proof (Hd (first :: rest)) as H. destruct (starts_with "/" s); [done|].
    destruct (filter (.≠ ".") (first :: rest)); [done|]. by apply Forall_cons in H as [_ H].
Qed.

Lemma starts_piece c s : piece c → starts_with "/" (c +:+ s) = false.
Proof.
  intros [Hne Hs]. apply not_true_iff_false. intros [t Ht]%starts_with_true.
  destruct c as [|a c]; [done|]. injection Ht as -> _. apply Hs. by left.
Qed.

Lemma starts_of_components p : shape p → starts_with "/" (of_components p) = p.1.
Proof.
  destruct p as [r parts]. intros [Hp _]. destruct r; [apply of_components_rooted|]. unfold of_components.
  cbn [fst snd] in *. destruct Hp as [|c parts Hc _]; [done|]. cbn [fst].
  change (EmptyString +:+ join "/" (c :: parts)) with (join "/" (c :: parts)).
  destruct parts as [|d parts].
  - change (join "/" [c]) with c. rewrite <-(string_app_nil_r c). by apply starts_piece.
  - rewrite join_cons by done. by apply starts_piece.
Qed.

Lemma components_of_shape p : shape p → components (of_components p) = p.
Proof.
  intros Hs. pose proof (starts_of_components p Hs) as Hst. destruct p as [[] parts].
  - destruct Hs as [Hp Hd]. apply components_of. apply Forall_forall. intros c Hc. cbn in *.
    pose proof (proj1 (Forall_forall _ _) Hp c Hc) as []. by pose proof (proj1 (Forall_forall _ _) Hd c Hc).
  - destruct Hs as [Hp Hd]. unfold components. rewrite Hst. cbn [fst snd] in *. f_equal. unfold of_components.
    cbn [fst snd]. change (EmptyString +:+ join "/" parts) with (join "/" parts).
    destruct parts as [|c parts]; [done|].
    rewrite (split_join slash) by (done || (eapply Forall_weaken; [exact Hp|]; by intros ? [])).
    rewrite (filter_all (.≠ EmptyString)) by (eapply Forall_weaken; [exact Hp|]; by intros ? []).
    cbn [negb andb]. case_bool_decide as Hc; cbn [tail] in Hd; [by rewrite filter_all|].
    rewrite filter_cons_True by done. by rewrite filter_all.
Qed.

Lemma of_components_snoc p n :
  shape p → path_component n → path_join (of_components p) n = of_components (p.1, p.2 ++ [n]).
Proof.
  destruct p as [[] parts]; intros Hs Hn.
  - apply path_join_of; [|done]. destruct Hs as [Hp Hd]. apply Forall_forall. intros c Hc. cbn in *.
    pose proof (proj1 (Forall_forall _ _) Hp c Hc) as []. by pose proof (proj1 (Forall_forall _ _) Hd c Hc).
  - unfold path_join. rewrite (proj1 (path_component_text _ Hn)). cbn [fst snd].
    destruct (decide (parts = [])) as [->|Hne]; [done|]. unfold of_components. cbn [fst snd].
    change (EmptyString +:+ join "/" parts) with (join "/" parts).
    change (EmptyString +:+ join "/" (parts ++ [n])) with (join "/" (parts ++ [n])).
    destruct Hs as [Hp _]. cbn [fst snd] in Hp.
    assert (ends_with "/" (join "/" parts) = false ∧ join "/" parts ≠ EmptyString) as [He Hj].
    { destruct (exists_last Hne) as (init & c & ->). apply Forall_app in Hp as [_ [[Hc Hsl] _]%Forall_cons].
      assert (∃ u, join "/" (init ++ [c]) = u +:+ c) as [u ->].
      { destruct init as [|x init]; [by exists EmptyString|]. rewrite join_snoc by done.
        exists (join "/" (x :: init) +:+ "/"). by rewrite !string_app_assoc. }
      split; [|by destruct u, c]. apply not_true_iff_false. intros [t Ht]%ends_with_true.
      apply (f_equal chars) in Ht. rewrite !chars_app in Ht. change (chars "/") with [slash] in Ht.
      destruct (exists_last (l := chars c)) as (l & a & Hl).
      { intros Hnil. apply Hc. by rewrite <-(of_chars_chars c), Hnil. }
      rewrite Hl, app_assoc in Ht. apply app_inj_tail in Ht as [_ ->].
      apply Hsl. rewrite Hl, elem_of_app. right. by left. }
    rewrite He, orb_false_r, bool_decide_false by done. by rewrite join_snoc.
Qed.

Lemma shape_snoc p init last n :
  shape p → p.2 = init ++ [last] → path_component n → shape (p.1, init) ∧ shape (p.1, init ++ [n]).
Proof.
  intros [Hp Hd] E Hn. destruct p as [r ps]. cbn [fst snd] in *. subst ps.
  apply Forall_app in Hp as [Hi _]. pose proof (path_component_piece n Hn) as Hpn. destruct Hn as (_ & Hdot & _).
  unfold shape. cbn [fst snd]. destruct r.
  - apply Forall_app in Hd as [Hd _]. by rewrite !Forall_app, !Forall_singleton.
  - rewrite !Forall_app, !Forall_singleton. destruct init as [|x init]; [done|]. cbn [tail app] in *.
    apply Forall_app in Hd as [Hd _]. by rewrite !Forall_app, !Forall_singleton.
Qed.

Lemma file_name_last path name :
  file_name path = Some name →
  ∃ init, (components path).2 = init ++ [name] ∧ name_component name ∧
    path_parent path = Some (of_components ((components path).1, init)).
Proof.
  unfold file_name, path_parent. intros H. apply bind_Some in H as (c & Hl & H).
  case_bool_decide as Hc; [done|]. injection H as ->. apply last_Some in Hl as [init E]. exists init.
  split; [done|]. split.
  - destruct (shape_components path) as [Hp _]. rewrite E, Forall_app, Forall_singleton in Hp.
    destruct Hp as [_ []]. unfold name_component. tauto.
  - rewrite E. destruct (init ++ [name]) eqn:E'; [by destruct init|]. by rewrite <-E', removelast_last.
Qed.

(** [with_file_name] and [with_extension] replace the last component. *)
Lemma with_file_name_components path name n :
  file_name path = Some name → path_component n →
  ∃ init, (components path).2 = init ++ [name] ∧
    components (with_file_name path n) = ((components path).1, init ++ [n]) ∧
    with_file_name path n = of_components ((components path).1, init ++ [n]).
Proof.
  intros H Hn. destruct (file_name_last _ _ H) as (init & E & _ & Hpar). exists init. split; [done|].
  destruct (shape_snoc _ _ _ _ (shape_components path) E Hn) as [Hs1 Hs2].
  unfold with_file_name. rewrite H, Hpar. cbn [from_option id].
  rewrite of_components_snoc by done. cbn [fst snd]. split; [|done]. by apply components_of_shape.
Qed.

(** The names of a path, in order. *)
Definition names (s : string) : list string := no_dots (components s).2.

Lemma names_join dir path :
  starts_with "/" path = false → names (path_join dir path) = names dir ++ names path.
Proof.
  intros Hpath. unfold names, path_join. rewrite Hpath, !no_dots_components.
  assert (∀ d p, filter (.≠ ".") (filter (.≠ EmptyString) (split "/" (d +:+ String slash p))) =
    filter (.≠ ".") (filter (.≠ EmptyString) (split "/" d)) ++
    filter (.≠ ".") (filter (.≠ EmptyString) (split "/" p))) as Hsplit.
  { intros d p. by rewrite split_app, !filter_app. }
  destruct (bool_decide (dir = EmptyString) || ends_with "/" dir) eqn:E; [|apply Hsplit].
  apply orb_prop in E as [->%bool_decide_eq_true|[t ->]%ends_with_true].
  { change (split "/" EmptyString) with [EmptyString].
    by rewrite (filter_cons_False (.≠ EmptyString)) by (intros Hn; by apply Hn). }
  rewrite <-string_app_assoc. change ("/" +:+ path) with (String slash path).
  change (t +:+ "/") with (t +:+ String slash EmptyString). by rewrite !Hsplit, app_nil_r.
Qed.

Lemma starts_join dir path :
  starts_with "/" (path_join dir path) =
  starts_with "/" path || negb (bool_decide (dir = EmptyString)) && starts_with "/" dir.
Proof.
  unfold path_join. destruct (starts_with "/" path) eqn:E; [done|]. destruct dir as [|c dir]; [done|].
  rewrite bool_decide_false by done. cbn [negb andb orb].
  assert (∀ s, starts_with "/" (String c dir +:+ s) = starts_with "/" (String c dir)) as Hp; [|by destruct (ends_with _ _)].
  intros s. destruct (starts_with "/" (String c dir)) eqn:Es.
  - apply starts_with_true in Es as [t ->]. apply starts_with_true. exists (t +:+ s). by rewrite string_app_assoc.
  - apply not_true_iff_false. intros [t Ht]%starts_with_true. apply not_true_iff_false in Es. apply Es, starts_with_true.
    injection Ht as -> _. by exists dir.
Qed.

(** Two paths that differ in their last name. *)
Definition swap (x n p q : string) : Prop :=
  starts_with "/" p = starts_with "/" q ∧ ∃ init, names p = init ++ [x] ∧ names q = init ++ [n].

Lemma swap_join x n dir p q : swap x n p q → swap x n (path_join dir p) (path_join dir q).
Proof.
  intros [Hs (init & Hp & Hq)]. split; [by rewrite !starts_join, Hs|].
  destruct (starts_with "/" p) eqn:E.
  - unfold path_join. rewrite E, <-Hs. by exists init.
  - exists (names dir ++ init). rewrite !names_join by congruence. by rewrite Hp, Hq, !(assoc_L (++)).
Qed.

Lemma swap_of_components r init x n :
  shape (r, init ++ [x]) → shape (r, init ++ [n]) → x ≠ "." → n ≠ "." →
  swap x n (of_components (r, init ++ [x])) (of_components (r, init ++ [n])).
Proof.
  intros Hx Hn Hdx Hdn. split; [by rewrite !starts_of_components|]. exists (no_dots init).
  unfold names. rewrite !components_of_shape by done. cbn [snd]. by rewrite !no_dots_snoc.
Qed.

(** What [path_clean] does above the last name does not depend on that name. *)
Class PathCleanLast `{!PathClean} : Prop := {
  clean_last s init name :
    starts_with "/" s = true → names s = init ++ [name] → name_component name →
    names (clean s) = names (clean (of_components (true, init))) ++ [name];
}.

Section paths.
Context {W : Type} {PC : PathClean} {clean_laws : PathCleanLaws} {last_laws : PathCleanLast}.
Context {FT : FileTree W} {tree_laws : FileTreeLaws W}.

Lemma clean_swap x n p q :
  swap x n p q → starts_with "/" p = true → name_component x → name_component n →
  ∃ dir, Forall name_component dir ∧ clean p = of_components (true, dir ++ [x]) ∧
    clean q = of_components (true, dir ++ [n]).
Proof using clean_laws last_laws.
  intros [Hs (init & Hp & Hq)] Hr Hx Hn.
  assert (∀ s, starts_with "/" s = true → Forall name_component (names (clean s)) ∧
    clean s = of_components (true, names (clean s))) as Hclean.
  { intros s Hst. destruct (clean_rooted s Hst) as (l & Hl & ->).
    assert (names ("/" +:+ join "/" l) = l) as ->; [|done].
    unfold names. change ("/" +:+ join "/" l) with (of_components (true, l)).
    rewrite components_of by (by apply names_path_components). cbn [snd]. apply filter_all.
    eapply Forall_weaken; [exact Hl|]. by intros ? (? & ? & ?). }
  destruct (Hclean (of_components (true, init)) (of_components_rooted _)) as [Hd _].
  destruct (Hclean p Hr) as [_ Ep], (Hclean q) as [_ Eq]; [congruence|].
  rewrite (clean_last p init x) in Ep by done.
  rewrite (clean_last q init n) in Eq by (done || congruence). eauto.
Qed.

Lemma absolute_swap w x n p q r :
  absolute w p = Ok r → swap x n p q → name_component x → name_component n →
  ∃ dir, Forall name_component dir ∧ r = of_components (true, dir ++ [x]) ∧
    absolute w q = Ok (of_components (true, dir ++ [n])).
Proof using clean_laws last_laws tree_laws.
  unfold absolute, absolute_path. destruct (current_dir w) as [cwd|] eqn:E; [|done].
  intros [= <-] Hs Hx Hn. pose proof (current_dir_rooted w cwd E) as Hr.
  destruct (clean_swap x n (path_join cwd p) (path_join cwd q)) as (dir & Hd & Hp & Hq); [|..|done|done|].
  - by apply swap_join.
  - rewrite starts_join, Hr. destruct cwd; [done|]. by rewrite orb_true_r.
  - exists dir. simpl. by rewrite Hq.
Qed.

(** An include path with its last name replaced leads to the path it led to
    with its last name replaced. *)
Lemma resolve_swap w declaring path x n r :
  resolve_local w declaring path = Ok r → file_name path = Some x → components path ≠ (false, ["~"]) →
  name_component n → n ≠ "~" →
  ∃ dir, Forall name_component dir ∧ r = of_components (true, dir ++ [x]) ∧
    resolve_local w declaring (with_file_name path n) = Ok (of_components (true, dir ++ [n])).
Proof using clean_laws last_laws tree_laws.
  intros Hr Hx Htilde Hn Hnt. destruct (file_name_last _ _ Hx) as (i & Ei & Hxc & _).
  destruct (with_file_name_components path x n Hx (name_path_component _ Hn)) as (init & E & Ec & Et).
  assert (i = init) as -> by (rewrite E in Ei; by apply app_inj_tail in Ei as [-> _]).
  pose proof (shape_components path) as Hsh.
  destruct (shape_snoc _ _ _ _ Hsh E (name_path_component _ Hn)) as [_ Hsh'].
  pose proof Hxc as (_ & Hxd & _). pose proof Hn as (_ & Hnd & _).
  unfold resolve_local, path_failed, local_include_target in *. rewrite Et in Ec |- *.
  unfold expand_home_directory in *. rewrite Ec. destruct (components path) as [b parts] eqn:Ecp.
  cbn [fst snd] in *. subst parts.
  assert (∀ t t', swap x n t t' → map_err PathFailed (absolute w t) = Ok r →
    ∃ dir, Forall name_component dir ∧ r = of_components (true, dir ++ [x]) ∧
      map_err PathFailed (absolute w t') = Ok (of_components (true, dir ++ [n]))) as Hgo.
  { intros t t' Hs Ha. destruct (absolute w t) as [a|] eqn:Eat; [|done]. injection Ha as ->.
    destruct (absolute_swap w x n t t' r Eat Hs Hxc Hn) as (dir & Hd & Hrd & ->). by exists dir. }
  assert (swap x n (path_join (default EmptyString (path_parent declaring)) path)
    (path_join (default EmptyString (path_parent declaring)) (of_components (b, init ++ [n])))) as Hplain.
  { apply swap_join. split.
    - rewrite starts_of_components by done. exact (f_equal fst Ecp).
    - exists (no_dots init). unfold names. rewrite Ecp, Ec. cbn [snd]. by rewrite !no_dots_snoc. }
  destruct b; [by apply (Hgo _ _ Hplain)|]. destruct init as [|first init].
  { cbn [app] in *. rewrite bool_decide_false in Hr by congruence. rewrite bool_decide_false by done.
    by apply (Hgo _ _ Hplain). }
  cbn [app] in *. case_bool_decide as Hf; [|by apply (Hgo _ _ Hplain)].
  destruct (home_directory w) as [home|]; [|done]. cbn [result_bind ok_or] in *. refine (Hgo _ _ _ Hr).
  apply swap_join. assert (∀ m, shape (false, first :: init ++ [m]) → shape (false, init ++ [m])) as Hpop.
  { intros m [[_ Hm]%Forall_cons Hd]. split; [done|]. cbn [snd fst tail] in *.
    destruct (init ++ [m]); [done|]. by apply Forall_cons in Hd as [_ Hd]. }
  apply swap_of_components; auto.
Qed.
End paths.

(** ** Targets *)

Lemma no_slash s : forallb (λ c, negb (Ascii.eqb c slash)) (chars s) = true → slash ∉ chars s.
Proof.
  rewrite forallb_forall. intros H Hin. apply list_elem_of_In, H in Hin. by rewrite Ascii.eqb_refl in Hin.
Qed.

Lemma suffixed_name stem suffix :
  slash ∉ chars stem → slash ∉ chars suffix → 2 < length (chars suffix) → name_component (stem +:+ suffix).
Proof.
  intros Hs Hx Hlen. assert (∀ s, length (chars s) ≤ 2 → stem +:+ suffix ≠ s) as Hne.
  { intros s Hl E. apply (f_equal (length ∘ chars)) in E. simpl in E. rewrite chars_app, length_app in E. lia. }
  unfold name_component. rewrite chars_app, elem_of_app. split_and!; [apply Hne; simpl; lia..|tauto].
Qed.

Lemma file_stem_name path name :
  file_name path = Some name → ∃ stem, file_stem path = Some stem ∧ slash ∉ chars stem.
Proof.
  intros H. unfold file_stem. rewrite H. cbn [mbind option_bind]. eexists. split; [done|].
  destruct (file_name_last _ _ H) as (_ & _ & (_ & _ & _ & Hs) & _).
  destruct (rsplit_once "." name) as [[before after]|] eqn:E; [|done].
  case_bool_decide; [done|]. apply rsplit_once_Some in E as [-> _].
  rewrite chars_app, elem_of_app in Hs. tauto.
Qed.

Lemma file_name_of dir x :
  Forall name_component dir → name_component x → file_name (of_components (true, dir ++ [x])) = Some x.
Proof.
  intros Hd Hx. unfold file_name. rewrite components_of.
  - cbn [snd]. rewrite last_snoc. cbn [mbind option_bind]. destruct Hx as (_ & ? & ? & _). by rewrite bool_decide_false by tauto.
  - apply names_path_components, Forall_app. auto.
Qed.

(** A target is beside its source. *)
Lemma target_beside root includes file target dir x :
  (file, target) ∈ zip (root :: includes) (targets_of root includes) →
  lf_path file = of_components (true, dir ++ [x]) → Forall name_component dir → name_component x →
  ∃ n, name_component n ∧ n ≠ "~" ∧ target = of_components (true, dir ++ [n]).
Proof.
  intros Hin Hp Hd Hx. pose proof (names_path_components _ Hd) as Hpd.
  assert (path_parent (lf_path file) = Some (of_components (true, dir))) as Hpar.
  { rewrite Hp. apply path_parent_of, names_path_components, Forall_app. auto. }
  assert (file_name (lf_path file) = Some x) as Hname by (rewrite Hp; by apply file_name_of).
  cbn [targets_of zip zip_with] in Hin. apply elem_of_cons in Hin as [[= -> ->]|Hin].
  - exists NATIVE_CONFIG_FILE. rewrite Hpar. cbn [from_option id].
    assert (name_component NATIVE_CONFIG_FILE) as Hn.
    { split_and!; [done..|]. by apply no_slash. }
    split_and!; [done..|]. apply path_join_of; [done|by apply name_path_component].
  - apply list_elem_of_lookup in Hin as [i Hi]. apply lookup_zip_Some in Hi as [Hf Ht].
    apply list_lookup_fmap_Some in Ht as (file' & -> & Ht). assert (file' = file) as -> by congruence.
    destruct (file_stem_name _ _ Hname) as (stem & Hstem & Hs).
    exists (stem +:+ ".toml"). unfold with_extension. rewrite Hstem, Hpar. cbn [from_option id].
    assert (name_component (stem +:+ ".toml")) as Hn.
    { apply suffixed_name; [done| |simpl; lia]. by apply no_slash. }
    split_and!; [done| |]; [|apply path_join_of; [done|by apply name_path_component]].
    intros E. apply (f_equal (length ∘ chars)) in E. simpl in E. rewrite chars_app, length_app in E.
    simpl in E. lia.
Qed.

Lemma claim_targets_spec pairs target_of claimed m :
  claim_targets pairs target_of claimed = Ok m →
  (∀ p t, m !! p = Some t → target_of !! p = Some t ∨ ∃ file, (file, t) ∈ pairs ∧ lf_path file = p) ∧
  NoDup pairs.*2 ∧ (∀ t, t ∈ pairs.*2 → claimed !! t = None) ∧
  Forall (λ p, p.2 ≠ lf_path p.1) pairs.
Proof.
  revert target_of claimed. induction pairs as [|[file target] pairs IH]; intros target_of claimed; cbn [claim_targets].
  { intros [= ->]. split_and!; [by left|constructor|by intros t ?%elem_of_nil|done]. }
  case_bool_decide as Hne; [done|]. destruct (claimed !! target) eqn:Hc; [done|].
  intros H. apply IH in H as (Hm & Hnd & Hcl & Hall). cbn [fmap list_fmap fst snd]. split_and!.
  - intros p t Hp. destruct (Hm p t Hp) as [Ht|(f & Hf & Hfp)].
    + destruct (decide (lf_path file = p)) as [<-|Hn].
      * rewrite lookup_insert_eq in Ht. injection Ht as ->. right. exists file. split; [by left|done].
      * rewrite lookup_insert_ne in Ht by done. by left.
    + right. exists f. split; [by right|done].
  - constructor; [|done]. intros Hin. pose proof (Hcl target Hin) as H. by rewrite lookup_insert_eq in H.
  - intros t [->|Hin]%elem_of_cons; [done|]. pose proof (Hcl t Hin) as H.
    destruct (decide (target = t)) as [->|Hn]; [done|]. by rewrite lookup_insert_ne in H.
  - constructor; [done|done].
Qed.

(** ** [path_clean] as its crate documents it *)

Lemma push_component_skip rooted stack l :
  foldl (LexicalClean.push_component rooted) stack (filter (.≠ ".") (filter (.≠ EmptyString) l)) =
  foldl (LexicalClean.push_component rooted) stack l.
Proof.
  revert stack. induction l as [|c l IH]; intros stack; [done|]. rewrite filter_cons. case_decide as Hne.
  - rewrite filter_cons. case_decide as Hd; cbn [foldl]; [apply IH|]. rewrite IH.
    unfold LexicalClean.push_component at 3. by rewrite bool_decide_true by auto.
  - cbn [foldl]. rewrite IH. unfold LexicalClean.push_component at 3.
    by rewrite bool_decide_true by auto.
Qed.

#[export] Instance lexical_path_clean_last : @PathCleanLast LexicalClean.lexical_path_clean.
Proof.
  assert (∀ s, starts_with "/" s = true →
    names (LexicalClean.lexical_clean s) =
    reverse (foldl (LexicalClean.push_component true) [] (names s))) as Hnames.
  { intros s Hs. unfold LexicalClean.lexical_clean. rewrite Hs. unfold names at 2. rewrite no_dots_components, push_component_skip.
    assert (Forall name_component (reverse (foldl (LexicalClean.push_component true) [] (split slash s)))) as Hn
      by (apply Forall_reverse, LexicalClean.foldl_push_rooted; [apply split_parts|done]).
    unfold names. set (l := reverse _) in *. change ("/" +:+ join "/" l) with (of_components (true, l)).
    rewrite components_of by (by apply names_path_components). cbn [snd]. apply filter_all.
    eapply Forall_weaken; [exact Hn|]. by intros ? (? & ? & ?). }
  split. intros s init name Hs E Hname. simpl. rewrite !Hnames by (done || apply of_components_rooted).
  assert (names (of_components (true, init)) = init) as ->.
  { unfold names. pose proof (components_parts s Hs) as Hp. unfold names in E.
    assert (Forall path_component init) as Hi.
    { assert (Forall path_component (no_dots (components s).2)) as Hf.
      { apply Forall_forall. intros c [_ Hc]%list_elem_of_filter. by apply (proj1 (Forall_forall _ _) Hp). }
      rewrite E in Hf. by apply Forall_app in Hf as [Hf _]. }
    rewrite components_of by done. apply filter_all. eapply Forall_weaken; [exact Hi|]. by intros ? (? & ? & ?). }
  rewrite E, foldl_snoc. destruct Hname as (? & ? & ? & ?). unfold LexicalClean.push_component at 1.
  rewrite bool_decide_false by tauto. rewrite decide_False by done. by rewrite reverse_cons.
Qed.


(** *** The checks, by file *)

(** Whether a check belongs to the file at a path. *)
Definition placed_at (loaded : LoadedConfig) (path : string) (check : ConversionCheck) : bool :=
  match file_of_check loaded check with Ok (Some p) => bool_decide (p = path) | _ => false end.

Definition checks_at (loaded : LoadedConfig) (path : string) (checks : list ConversionCheck) : list ConversionCheck :=
  filter (λ check, placed_at loaded path check = true) checks.

Lemma place_checks_spec loaded checks m m' :
  place_checks loaded checks m = Ok m' →
  (∀ path, default [] (m' !! path) = default [] (m !! path) ++ checks_at loaded path checks) ∧
  (∀ check, check ∈ checks → ∃ placed, file_of_check loaded check = Ok placed).
Proof.
  revert m. induction checks as [|check checks IH]; intros m; cbn [place_checks].
  { intros [= ->]. split; [|by intros ? ?%elem_of_nil]. intros path. by rewrite app_nil_r. }
  intros (placed & Hp & H)%result_bind_Ok. apply IH in H as [Hm Hc]. split.
  - intros path. rewrite Hm. unfold checks_at. rewrite filter_cons.
    assert (placed_at loaded path check = match placed with Some p => bool_decide (p = path) | None => false end) as ->
      by (unfold placed_at; rewrite Hp; by destruct placed).
    destruct placed as [p|]; [|done]. destruct (decide (p = path)) as [->|Hn].
    + rewrite lookup_insert_eq, bool_decide_true by done. rewrite decide_True by done.
      cbn [from_option id]. by rewrite <-(assoc_L (++)).
    + rewrite lookup_insert_ne, bool_decide_false by done. by rewrite decide_False by done.
  - intros c [->|Hin]%elem_of_cons; [by exists placed|auto].
Qed.

(** *** The walk of a bundle *)

Section walk.
Context {W : Type} {PC : PathClean} {FT : FileTree W}.
#[local] Set Default Proof Using "Type".

Definition declares_git (file : LoadedFile) : Prop :=
  ∃ repo git_ref path hp nested reviewed, GitInclude repo git_ref path hp nested reviewed ∈ cf_include (lf_file file).

(** The files some paths reach by local includes. *)
Inductive reached (w : W) (loaded : LoadedConfig) (starts : list string) : string → Prop :=
| reached_start p : p ∈ starts → reached w loaded starts p
| reached_include p file path q :
    reached w loaded starts p → file_at loaded p = Some file →
    FileInclude path ∈ cf_include (lf_file file) → resolve_local w p path = Ok q →
    reached w loaded starts q.

Lemma reached_trans w loaded starts starts' p :
  (∀ q, q ∈ starts' → reached w loaded starts q) → reached w loaded starts' p → reached w loaded starts p.
Proof. intros Hs. induction 1; [by apply Hs|]. by eapply reached_include. Qed.

Lemma includes_of_spec w p entries queue r :
  includes_of w p entries queue = Ok r →
  match r with
  | None => ∃ repo git_ref path hp nested reviewed, GitInclude repo git_ref path hp nested reviewed ∈ entries
  | Some queue' =>
      (∀ repo git_ref path hp nested reviewed, GitInclude repo git_ref path hp nested reviewed ∉ entries) ∧
      (∀ q, q ∈ queue' ↔ q ∈ queue ∨ ∃ path, FileInclude path ∈ entries ∧ resolve_local w p path = Ok q) ∧
      length queue' = length queue + length entries
  end.
Proof.
  revert queue. induction entries as [|entry entries IH]; intros queue; cbn [includes_of].
  { intros [= <-]. split_and!; [by intros * ?%elem_of_nil| |simpl; lia].
    intros q. split; [by left|]. by intros [?|(? & ?%elem_of_nil & _)]. }
  destruct entry as [path|].
  - intros (target & Ht & H)%result_bind_Ok. apply IH in H. destruct r as [queue'|].
    + destruct H as (Hg & Hq & Hl). split_and!.
      * intros * [?|Hin]%elem_of_cons; [done|]. by eapply Hg.
      * intros q. rewrite Hq, elem_of_cons. split.
        -- intros [[->|?]|(path' & Hin & Hr)]; [|by left|]; right; [exists path|exists path']; (split; [|done]);
             rewrite elem_of_cons; auto.
        -- intros [?|(path' & Hin & Hr)]; [auto|]. apply elem_of_cons in Hin as [[= ->]|Hin].
           ++ rewrite Hr in Ht. injection Ht as ->. auto.
           ++ right. by exists path'.
      * simpl in *. lia.
    + destruct H as (repo & git_ref & path' & hp & nested & reviewed & H). repeat eexists. by right.
  - intros [= <-]. repeat eexists. by left.
Qed.

(** A file the walk has read: it declares no Git include, and what it includes
    is read or to be read. *)
Definition walked (w : W) (loaded : LoadedConfig) (seen : gset string) (queue : list string) : Prop :=
  ∀ p, p ∈ seen → ∃ file, file_at loaded p = Some file ∧ ¬ declares_git file ∧
    ∀ path q, FileInclude path ∈ cf_include (lf_file file) → resolve_local w p path = Ok q → q ∈ seen ∨ q ∈ queue.

Lemma git_walk_spec fuel w loaded seen queue b :
  git_walk fuel w loaded seen queue = Ok b → walked w loaded seen queue →
  if b then ∃ p file, reached w loaded queue p ∧ file_at loaded p = Some file ∧ declares_git file
  else ∃ all : gset string, walked w loaded all [] ∧ ∀ p, p ∈ seen ∨ p ∈ queue → p ∈ all.
Proof.
  revert seen queue. induction fuel as [|fuel IH]; intros seen [|p queue] H Hw; cbn [git_walk] in H; [|done| |].
  1, 2: injection H as <-; exists seen; split; [done|]; by intros p [?|?%elem_of_nil].
  case_bool_decide as Hs.
  - apply IH in H.
    + destruct b; [destruct H as (q & f & Hr & Hf); exists q, f; split; [|done]|].
      * eapply reached_trans, Hr. intros; apply reached_start; by right.
      * destruct H as (all & Hall & Hin). exists all. split; [done|].
        intros q [?|[->|?]%elem_of_cons]; apply Hin; auto.
    + intros q Hq. destruct (Hw q Hq) as (f & Hf & Hg & Hi). exists f. split_and!; [done..|].
      intros path r H1 H2. destruct (Hi path r H1 H2) as [?|[->|?]%elem_of_cons]; auto.
  - apply result_bind_Ok in H as (file & Hfile & H). apply result_bind_Ok in H as (r & Hr & H).
    assert (file_at loaded p = Some file) as Hp by (by destruct (file_at loaded p); [injection Hfile as ->|]).
    apply includes_of_spec in Hr. destruct r as [queue'|].
    + destruct Hr as (Hg & Hq & _). apply IH in H.
      * destruct b; [destruct H as (q & f & Hr & Hf); exists q, f; split; [|done]|].
        -- eapply reached_trans, Hr. intros r [?|(path & Hi & Ht)]%Hq; [apply reached_start; by right|].
           eapply reached_include; [|done..]. apply reached_start. by left.
        -- destruct H as (all & Hall & Hin). exists all. split; [done|].
           intros q [?|[->|?]%elem_of_cons]; apply Hin; [left; set_solver|left; set_solver|].
           right. apply Hq. by left.
      * intros q [->%elem_of_singleton|Hin]%elem_of_union.
        -- exists file. split_and!; [done|by intros (? & ? & ? & ? & ? & ? & ?%Hg)|].
           intros path r H1 H2. right. apply Hq. right. by exists path.
        -- destruct (Hw q Hin) as (f & Hf & Hgf & Hi). exists f. split_and!; [done..|].
           intros path r H1 H2. destruct (Hi path r H1 H2) as [?|[->|?]%elem_of_cons].
           ++ left. set_solver.
           ++ left. set_solver.
           ++ right. apply Hq. by left.
    + injection H as <-. exists p, file. split; [apply reached_start; by left|]. split; [done|].
      destruct Hr as (? & ? & ? & ? & ? & ? & ?). by repeat eexists.
Qed.

Lemma bundle_declares_spec w loaded clone path b :
  bundle_declares_git_includes w loaded clone path = Ok b →
  ∃ start, absolute w (path_join clone (default BATECT_BUNDLE_FILE path)) = Ok start ∧
    (b = true ↔ ∃ p file, reached w loaded [start] p ∧ file_at loaded p = Some file ∧ declares_git file).
Proof.
  intros (start & Hs & H)%result_bind_Ok. exists start. split.
  { unfold path_failed in Hs. destruct (absolute _ _); [|done]. by injection Hs as ->. }
  apply git_walk_spec in H; [|by intros p ?%elem_of_empty]. destruct b; [done|]. split; [done|].
  destruct H as (all & Hall & Hin). intros (p & file & Hr & Hf & Hg). exfalso.
  assert (p ∈ all) as Hp.
  { clear Hf Hg file. induction Hr as [p Hp|p f written q Hr IH Hf Hi Hq]; [apply Hin; by right|].
    destruct (Hall p IH) as (f' & Hf' & _ & Hi'). assert (f' = f) as -> by congruence.
    destruct (Hi' written q Hi Hq) as [?|?%elem_of_nil]; done. }
  destruct (Hall p Hp) as (f' & Hf' & Hng & _). assert (f' = file) as -> by congruence. done.
Qed.

(** The includes of the files not walked yet. *)
Definition unwalked (loaded : LoadedConfig) (seen : gset string) : nat :=
  length (filter (λ file, lf_path file ∉ seen) (lc_files loaded) ≫= λ file, cf_include (lf_file file)).

Lemma unwalked_less files (seen : gset string) p file :
  snd <$> list_find (λ file, lf_path file = p) files = Some file → p ∉ seen →
  length (filter (λ file, lf_path file ∉ {[p]} ∪ seen) files ≫= λ file, cf_include (lf_file file))
    + length (cf_include (lf_file file)) ≤
  length (filter (λ file, lf_path file ∉ seen) files ≫= λ file, cf_include (lf_file file)).
Proof.
  intros Hf Hp. apply fmap_Some in Hf as ([i f] & Hf & ->). cbn [snd].
  assert (∀ l, length (filter (λ file, lf_path file ∉ {[p]} ∪ seen) l ≫= λ file, cf_include (lf_file file)) ≤
    length (filter (λ file, lf_path file ∉ seen) l ≫= λ file, cf_include (lf_file file))) as Hmono.
  { induction l as [|g l IH]; [done|]. rewrite !filter_cons.
    repeat case_decide; cbn [mbind list_bind]; rewrite ?length_app; try lia. set_solver. }
  apply list_find_Some in Hf as (Hi & Hpf & _). apply list_elem_of_lookup_2 in Hi.
  induction files as [|g files IH]; [by apply elem_of_nil in Hi|]. rewrite !filter_cons.
  apply elem_of_cons in Hi as [<-|Hi].
  - rewrite decide_False by set_solver. rewrite decide_True by congruence.
    cbn [mbind list_bind]. rewrite length_app. pose proof (Hmono files). lia.
  - specialize (IH Hi). repeat case_decide; cbn [mbind list_bind]; rewrite ?length_app; try lia. set_solver.
Qed.

Lemma resolve_local_err w p path e : resolve_local w p path = Err e → ∃ e', e = PathFailed e'.
Proof. unfold resolve_local, path_failed. destruct (result_bind _ _); [done|]. intros [= <-]. eauto. Qed.

Lemma includes_of_err w p entries queue e : includes_of w p entries queue = Err e → ∃ e', e = PathFailed e'.
Proof.
  revert queue. induction entries as [|[path|] entries IH]; intros queue; cbn [includes_of]; [done| |done].
  intros [H|(target & _ & H)]%result_bind_Err; [by eapply resolve_local_err|by eapply IH].
Qed.

Lemma git_walk_ends fuel w loaded seen queue :
  length queue + unwalked loaded seen ≤ fuel → git_walk fuel w loaded seen queue ≠ Err (Bug WalkOutOfFuel).
Proof.
  revert seen queue. induction fuel as [|fuel IH]; intros seen [|p queue] Hl; cbn [git_walk]; try done.
  { simpl in Hl. lia. }
  case_bool_decide as Hs; [apply IH; simpl in Hl; lia|].
  destruct (file_at loaded p) as [file|] eqn:Hf; [|done]. cbn [ok_or result_bind].
  destruct (includes_of w p _ queue) as [[queue'|]|e] eqn:Hi; cbn [result_bind]; [|done|].
  - apply includes_of_spec in Hi as (_ & _ & Hlen). apply IH.
    pose proof (unwalked_less _ seen p file Hf Hs). unfold unwalked in *. simpl in Hl. lia.
  - apply includes_of_err in Hi as [e' ->]. done.
Qed.

(** The walk's fuel is enough. *)
Lemma bundle_walk_ends w loaded clone path :
  bundle_declares_git_includes w loaded clone path ≠ Err (Bug WalkOutOfFuel).
Proof.
  unfold bundle_declares_git_includes. destruct (path_failed _) as [start|e] eqn:Hs; cbn [result_bind].
  - apply git_walk_ends. unfold unwalked, walk_fuel. rewrite (filter_all _ (lc_files loaded)); [simpl; lia|].
    apply Forall_true. intros file. apply not_elem_of_empty.
  - unfold path_failed in Hs. destruct (absolute _ _); [done|]. by injection Hs as <-.
Qed.
End walk.

(** *** What is kept *)

(** A text [ratect.toml] reads as an expression: well formed, and unless a check
    says it became a reference, worth the text the source holds. *)
Definition means (text kept : string) : Prop :=
  Expressions.check_syntax kept = Ok tt ∧
  (becomes_expression text = false → ∀ env vars, Expressions.interpolate kept env vars = Ok text).

Definition volume_kept (v v' : VolumeMount) : Prop :=
  match v, v' with
  | LocalMount m, LocalMount m' =>
      lv_container m' = lv_container m ∧ lv_options m' = lv_options m ∧ lv_compact m' = lv_compact m ∧
      if local_is_expression m true then lv_local m' = lv_local m else means (lv_local m) (lv_local m')
  | _, _ => v' = v
  end.

(** An image is the text itself, whatever it holds; an enabled
    [run_as_current_user] is an identity with its home; the rest is as written. *)
Definition container_kept (c c' : Container) : Prop :=
  match c_image c, c_image c' with
  | Some image, Some image' => ∀ env vars, Expressions.interpolate image' env vars = Ok image
  | None, None => True
  | _, _ => False
  end ∧
  match c_volumes c, c_volumes c' with
  | Some volumes, Some volumes' => Forall2 volume_kept volumes volumes'
  | None, None => True
  | _, _ => False
  end ∧
  c_run_as_current_user c' = None ∧
  match c_run_as_current_user c with
  | Some user =>
      if ru_enabled user then
        c_identity c = None ∧
        ∃ home home', ru_home_directory user = Some home ∧ c_identity c' = Some (mk_identity home' []) ∧ means home home'
      else c_identity c' = c_identity c
  | None => c_identity c' = c_identity c
  end ∧
  with_conversion None None None c' = with_conversion None None None c.

Lemma literal_means text : means text (Expressions.literal_as_expression text).
Proof.
  split; [exact (proj1 (Expressions.literal_as_expression_valid text (λ _, None) ∅))|].
  intros H env vars. exact (proj2 (Expressions.literal_as_expression_valid text env vars) H).
Qed.

Lemma converted_volume_kept v : volume_kept v (converted_volume v).
Proof.
  destruct v as [m|m|m]; [|done..]. cbn. destruct (local_is_expression m true) eqn:E; cbn; rewrite ?E.
  - done.
  - split_and!; [done..|apply literal_means].
Qed.

Lemma converted_container_kept name c c' : converted_container name c = Ok c' → container_kept c c'.
Proof.
  unfold converted_container. intros (identity & Hi & [= <-])%result_bind_Ok. unfold container_kept. split_and!.
  - cbn. destruct (c_image c); [|done]. intros env vars. apply Expressions.literal_kept_roundtrip.
  - cbn. destruct (c_volumes c) as [volumes|]; [|done]. cbn. apply Forall2_fmap_r, Forall_Forall2_diag, Forall_true.
    apply converted_volume_kept.
  - done.
  - cbn [c_identity with_conversion]. destruct (c_run_as_current_user c) as [user|]; [|by injection Hi as ->].
    destruct (ru_enabled user); [|by injection Hi as ->].
    apply result_bind_Ok in Hi as ([] & He%ensure_Ok & Hi). apply result_bind_Ok in Hi as (home & Hh & [= <-]).
    split; [by destruct (c_identity c)|]. exists home, (Expressions.literal_as_expression home).
    split_and!; [by destruct (ru_home_directory user); [injection Hh as ->|]|done|apply literal_means].
  - done.
Qed.

Definition containers_kept : index_map Container → index_map Container → Prop :=
  Forall2 (λ p p', p'.1 = p.1 ∧ container_kept p.2 p'.2).

Lemma converted_containers_kept containers containers' :
  converted_containers containers = Ok containers' → containers_kept containers containers'.
Proof.
  revert containers'. induction containers as [|[name c] containers IH]; intros containers'; cbn [converted_containers].
  { intros [= <-]. constructor. }
  intros (c' & Hc & H)%result_bind_Ok. apply result_bind_Ok in H as (rest & Hr & [= <-]).
  constructor; [|by apply IH]. split; [done|by eapply converted_container_kept].
Qed.

Section kept.
Context {W : Type} {PC : PathClean} {clean_laws : PathCleanLaws} {last_laws : PathCleanLast}.
Context {FT : FileTree W} {tree_laws : FileTreeLaws W} {TD : TomlDocuments}.
Context (w : W) (loaded : LoadedConfig) (written_for : Version).
Notation pairs := (list (LoadedFile * string)).

(** An include path that names a file: it has a last name, and is not the home
    directory itself. *)
Definition names_file (path : string) : Prop :=
  is_Some (file_name path) ∧ components path ≠ (false, ["~"]).

(** An entry of the file [declaring] as the converted file has it, with what its
    reader is asked to check. *)
Inductive include_kept (ps : pairs) (declaring : string) : IncludeEntry → IncludeEntry → list ConversionCheck → Prop :=
| file_include_kept path path' file target :
    (file, target) ∈ ps →
    resolve_local w declaring path = Ok (lf_path file) →
    (names_file path → resolve_local w declaring path' = Ok target) →
    include_kept ps declaring (FileInclude path) (FileInclude path') []
| git_include_kept repo git_ref path host_paths nested reviewed clone pinned path' start nests :
    lc_git_clones loaded !! (repo, git_ref) = Some clone →
    pinned = match path with Some _ => false | None => is_file w (path_join clone NATIVE_BUNDLE_FILE) end →
    path' = (if pinned then Some BATECT_BUNDLE_FILE else path) →
    absolute w (path_join clone (default BATECT_BUNDLE_FILE path)) = Ok start →
    (nests = true ↔ ∃ p file, reached w loaded [start] p ∧ file_at loaded p = Some file ∧ declares_git file) →
    include_kept ps declaring (GitInclude repo git_ref path host_paths nested reviewed)
      (GitInclude repo git_ref path' host_paths None None)
      ((if pinned then [mk_check None BundleOffersNativeFile (IncludeIs (redacted repo) git_ref)] else []) ++
       (if nests then [mk_check None BundleDeclaresGitIncludes (IncludeIs (redacted repo) git_ref)] else [])).

(** A table of targets that holds no more than the pairs. *)
Definition targets_from (ps : pairs) (target_of : gmap string string) : Prop :=
  ∀ p t, target_of !! p = Some t → ∃ file, (file, t) ∈ ps ∧ lf_path file = p.

Lemma convert_include_kept root includes target_of declaring entry entry' checks :
  targets_from (zip (root :: includes) (targets_of root includes)) target_of →
  convert_include w entry declaring loaded target_of = Ok (entry', checks) →
  include_kept (zip (root :: includes) (targets_of root includes)) declaring entry entry' checks.
Proof using clean_laws last_laws tree_laws.
  intros Ht. destruct entry as [path|repo git_ref path hp nested reviewed]; cbn [convert_include].
  - intros (source & Hs & H)%result_bind_Ok. apply result_bind_Ok in H as (target & Htarget & H).
    apply result_bind_Ok in H as (n & Hn & [= <- <-]).
    assert (target_of !! source = Some target) as Hl by (by destruct (target_of !! source); [injection Htarget as ->|]).
    assert (file_name target = Some n) as Hname by (by destruct (file_name target); [injection Hn as ->|]).
    destruct (Ht _ _ Hl) as (file & Hin & Hf). subst source.
    eapply file_include_kept; [exact Hin|exact Hs|]. intros [[x Hx] Hnt].
    destruct (resolve_swap w declaring path x NATIVE_CONFIG_FILE (lf_path file) Hs Hx Hnt)
      as (dir & Hd & Hp & _).
    { split_and!; [done..|by apply no_slash]. } { done. }
    destruct (file_name_last _ _ Hx) as (_ & _ & Hxc & _).
    destruct (target_beside root includes file target dir x Hin Hp Hd Hxc) as (m & Hm & Hmt & ->).
    rewrite file_name_of in Hname by done. injection Hname as ->.
    destruct (resolve_swap w declaring path x n (lf_path file) Hs Hx Hnt Hm Hmt) as (dir' & Hd' & Hp' & ->).
    rewrite Hp in Hp'. do 2 f_equal. apply (f_equal components) in Hp'.
    rewrite !components_of in Hp' by (apply names_path_components, Forall_app; auto).
    injection Hp' as Hp'. by apply app_inj_tail in Hp' as [-> _].
  - intros (clone & Hc & H)%result_bind_Ok. apply result_bind_Ok in H as (nests & Hn & [= <- <-]).
    destruct (bundle_declares_spec _ _ _ _ _ Hn) as (start & Hs & Hiff).
    assert (lc_git_clones loaded !! (repo, git_ref) = Some clone) as Hl
      by (by destruct (lc_git_clones loaded !! (repo, git_ref)); [injection Hc as ->|]).
    assert (absolute w (path_join clone (default BATECT_BUNDLE_FILE path)) = Ok start) as Hstart
      by (destruct path; [exact Hs|]; destruct (is_file w _); exact Hs).
    exact (git_include_kept _ _ repo git_ref path hp nested reviewed clone _ _ start nests Hl eq_refl eq_refl Hstart Hiff).
Qed.

(** A document written: the text reads back as a document of the same value; the
    root's says first whose rules it was written for. *)
Definition written (is_root : bool) (document : Document) (text : string) : Prop :=
  ∃ body value document' value',
    text = (if is_root
            then FIELD +:+ " = " +:+ show_value (TStr (version_show written_for)) +:+ newline +:+ body
            else body) ∧
    try_from document = Some value ∧ from_str body = Some document' ∧ try_from document' = Some value' ∧
    value_eqb value' (sorted value) = true.

Lemma render_written (is_root : bool) document text :
  render document (if is_root then Some written_for else None) = Ok text → written is_root document text.
Proof using Type.
  unfold render. intros (value & Hv & H)%result_bind_Ok. destruct (sorted value) as [| | |table] eqn:Es; try done.
  apply result_bind_Ok in H as (body & _ & H). apply result_bind_Ok in H as (document' & Hd & H).
  apply result_bind_Ok in H as (value' & Hv' & H). apply result_bind_Ok in H as ([] & He%ensure_Ok & [= <-]).
  exists body, value, document', value'. rewrite Es. split_and!; [by destruct is_root| | | |done].
  - by destruct (try_from document); [injection Hv as ->|].
  - by destruct (from_str body); [injection Hd as ->|].
  - by destruct (try_from document'); [injection Hv' as ->|].
Qed.

(** A file of the project as it is converted. *)
Definition file_kept (ps : pairs) (is_root : bool) (file : LoadedFile) (converted : ConvertedFile) : Prop :=
  ∃ document include_checks,
    do_project_name document = (if is_root then Some (cfg_project_name (lc_config loaded)) else None) ∧
    containers_kept (cf_containers (lf_file file)) (do_containers document) ∧
    do_tasks document = cf_tasks (lf_file file) ∧
    do_config_variables document = cf_config_variables (lf_file file) ∧
    do_forbid_telemetry document = cf_forbid_telemetry (lf_file file) ∧
    Forall3 (include_kept ps (lf_path file)) (cf_include (lf_file file)) (do_include document) include_checks ∧
    written is_root document (cd_toml converted) ∧
    cd_checks converted =
      mjoin include_checks ++ checks_at loaded (lf_path file) (conversion_checks (lc_config loaded)).

Lemma convert_includes_kept root includes target_of declaring entries entries' checks :
  targets_from (zip (root :: includes) (targets_of root includes)) target_of →
  convert_includes w entries declaring loaded target_of = Ok (entries', checks) →
  ∃ each, checks = mjoin each ∧
    Forall3 (include_kept (zip (root :: includes) (targets_of root includes)) declaring) entries entries' each.
Proof using clean_laws last_laws tree_laws.
  intros Ht. revert entries' checks. induction entries as [|entry entries IH]; intros entries' checks; cbn [convert_includes].
  { intros [= <- <-]. exists []. split; [done|constructor]. }
  intros ([entry' first] & He & H)%result_bind_Ok. apply result_bind_Ok in H as ([rest more] & Hr & [= <- <-]).
  destruct (IH _ _ Hr) as (each & -> & Hall). exists (first :: each). split; [done|].
  constructor; [|done]. by apply (convert_include_kept root includes target_of).
Qed.

Lemma converted_document_kept root includes target_of (is_root : bool) file document checks placed toml target :
  targets_from (zip (root :: includes) (targets_of root includes)) target_of →
  converted_document w loaded target_of is_root file = Ok (document, checks) →
  map_err (Converting (lf_path file)) (render document (if is_root then Some written_for else None)) = Ok toml →
  placed = checks_at loaded (lf_path file) (conversion_checks (lc_config loaded)) →
  file_kept (zip (root :: includes) (targets_of root includes)) is_root file
    (mk_converted_file (lf_path file) target toml (checks ++ placed)).
Proof using clean_laws last_laws tree_laws.
  intros Ht Hd Hr ->. apply result_bind_Ok in Hd as ([include cs] & Hi & Hd).
  apply result_bind_Ok in Hd as (containers & Hc & [= <- <-]).
  destruct (convert_includes_kept _ _ _ _ _ _ _ Ht Hi) as (each & -> & Hall).
  match type of Hr with context [render ?d _] => exists d, each end. split_and!; try reflexivity; cbn.
  - by apply converted_containers_kept.
  - exact Hall.
  - apply render_written. by destruct (render _ _); [injection Hr as ->|].
Qed.

Lemma convert_files_kept root includes target_of is_root ps placed files unplaced :
  targets_from (zip (root :: includes) (targets_of root includes)) target_of →
  convert_files w loaded written_for target_of is_root ps placed = Ok (files, unplaced) →
  NoDup (lf_path <$> ps.*1) →
  (∀ p, p ∈ lf_path <$> ps.*1 →
     default [] (placed !! p) = checks_at loaded p (conversion_checks (lc_config loaded))) →
  cd_source <$> files = lf_path <$> ps.*1 ∧ cd_target <$> files = ps.*2 ∧
  (∀ p, p ∉ lf_path <$> ps.*1 → unplaced !! p = placed !! p) ∧
  match ps, files with
  | [], [] => True
  | (file, _) :: ps, converted :: files =>
      file_kept (zip (root :: includes) (targets_of root includes)) is_root file converted ∧
      Forall2 (file_kept (zip (root :: includes) (targets_of root includes)) false) ps.*1 files
  | _, _ => False
  end.
Proof using clean_laws last_laws tree_laws.
  intros Ht. revert is_root placed files unplaced.
  induction ps as [|[file target] ps IH]; intros is_root placed files unplaced; cbn [convert_files].
  { intros [= <- <-] _ _. done. }
  intros ([document checks] & Hd & H)%result_bind_Ok Hnd Hpl. apply result_bind_Ok in H as (toml & Hr & H).
  apply result_bind_Ok in H as ([files' un] & Hf & [= <- <-]). cbn [fmap list_fmap fst snd] in *.
  apply NoDup_cons in Hnd as [Hnin Hnd]. destruct (IH _ _ _ _ Hf Hnd) as (Hs & Htg & Hun & Hall).
  { intros p Hp. rewrite lookup_delete_ne by (by intros <-). apply Hpl. by right. }
  split_and!.
  - by rewrite Hs.
  - by rewrite Htg.
  - intros p Hp%not_elem_of_cons. rewrite Hun by tauto. apply lookup_delete_ne. intros E. by destruct Hp.
  - eapply converted_document_kept; [exact Ht|exact Hd|exact Hr|]. apply Hpl. by left.
  - destruct ps as [|[file' target'] ps], files' as [|converted files']; try done.
    destruct Hall. by constructor.
Qed.

End kept.

(** *** An example

    A project of a root, a local include of it, and a Git include of a bundle
    that offers a native file. *)

Module Once.
#[local] Existing Instances LexicalClean.lexical_path_clean LexicalClean.lexical_path_clean_laws lexical_path_clean_last.

Definition example_app : Container :=
  mk_container
    None (Some "alpine\$HOME") None None None None None None None
    None (Some [LocalMount (mk_local_mount "./src" "/code" None true)]) None None
    (Some (mk_run_as true (Some "/home/$x"))) None None None None
    None None None None None None None None None
    None None None None None None None None None
    None None None None None None None None None.

Definition example_tree : gmap string ConfigFile := list_to_map [
  ("/p/batect.yml", mk_config_file (Some "p") [("app", example_app)] [] None
     [FileInclude "./sub/more.yml"; GitInclude "https://host/r" "v1" None true None None] None None);
  ("/p/sub/more.yml", mk_config_file None [("db", container_default)] [] None [FileInclude "../batect.yml"] None None);
  ("/c/v1/batect-bundle.yml", mk_config_file None [("lint", container_default)] [] None [] None None)].

#[local] Instance example_files : FileTree () := {
  current_dir _ := Some "/p";
  home_directory _ := None;
  canonicalize _ p := RealPath p;
  is_file _ p := bool_decide (is_Some (example_tree !! p)) || bool_decide (p = "/c/v1/ratect-bundle.toml");
  exists_at _ p := bool_decide (is_Some (example_tree !! p));
}.
#[local] Instance example_tree_laws : FileTreeLaws ().
Proof. split; intros w d H; [by injection H as <-|discriminate H]. Qed.
#[local] Instance example_toml : TomlFiles () := {
  read_to_string _ _ := None;
  parse_toml _ := None;
}.
#[local] Instance example_source : ConfigSource () := {
  parse_yaml_config_file _ p := example_tree !! p;
  parse_toml_config_file _ p := None;
  ensure_cached w repo git_ref := (w, Some ("/c/" +:+ git_ref));
  cached_working_copy w repo git_ref := Some ("/c/" +:+ git_ref);
}.

Definition example_load : option (result LoadedConfig load_error) :=
  load_from_file_impl 10 () "/p/batect.yml" Compat None.

Definition example_loaded : LoadedConfig :=
  match example_load with
  | Some (Ok lc) => lc
  | _ => mk_loaded_config (mk_config EmptyString [] [] None None) ∅ ∅ ∅ Compat [] ∅
  end.

Lemma example_convert_load_Ok : example_load = Some (Ok example_loaded).
Proof. vm_compute. reflexivity. Qed.

Definition example_entry (entry : IncludeEntry) : toml_value :=
  match entry with
  | FileInclude path => TTab [("path", TStr path)]
  | GitInclude repo git_ref path _ _ _ =>
      TTab ([("type", TStr "git"); ("repo", TStr repo); ("ref", TStr git_ref)] ++
            match path with Some path => [("path", TStr path)] | None => [] end)
  end.

Fixpoint same_value (v v' : toml_value) : bool :=
  match v, v' with
  | TStr s, TStr s' => bool_decide (s = s')
  | TLeaf s, TLeaf s' => bool_decide (s = s')
  | TArr l, TArr l' =>
      (fix each (l l' : list toml_value) : bool :=
         match l, l' with [], [] => true | v :: l, v' :: l' => same_value v v' && each l l' | _, _ => false end) l l'
  | TTab t, TTab t' =>
      (fix each (t t' : list (string * toml_value)) : bool :=
         match t, t' with
         | [], [] => true
         | (k, v) :: t, (k', v') :: t' => bool_decide (k = k') && same_value v v' && each t t'
         | _, _ => false
         end) t t'
  | _, _ => false
  end.

Definition quoted (v : toml_value) : string :=
  match v with TStr s => String "034" (s +:+ String "034" EmptyString) | _ => EmptyString end.

(** A writer of the names and the include entries, and a reader of the two texts
    it writes. *)
Definition example_value (document : Document) : toml_value :=
  TTab (match do_project_name document with Some name => [("project_name", TStr name)] | None => [] end
        ++ [("include", TArr (example_entry <$> do_include document));
            ("containers", TTab ((λ p : string * Container, (p.1, TTab [])) <$> do_containers document))]).

Definition example_text (table : list (string * toml_value)) : string :=
  foldr (λ p text, p.1 +:+ " = " +:+ quoted p.2 +:+ newline +:+ text) EmptyString table.

Definition example_document (project_name : option string) (containers : index_map Container)
    (include : list IncludeEntry) : Document :=
  mk_document project_name containers [] None include None.

Definition converted_app : Container :=
  match converted_container "app" example_app with Ok c => c | Err _ => example_app end.

#[local] Instance example_documents : TomlDocuments := {
  try_from document := Some (example_value document);
  to_string_pretty table := Some (example_text table);
  from_str text :=
    Some (if starts_with "project_name" text
          then example_document (Some "p") [("app", converted_app)]
                 [FileInclude "./sub/more.toml";
                  GitInclude "https://host/r" "v1" (Some "batect-bundle.yml") true None None]
          else example_document None [("db", container_default)] [FileInclude "../ratect.toml"]);
  show_value := quoted;
  value_eqb v v' := same_value (sorted v) (sorted v');
}.

Definition example_converted : list ConvertedFile :=
  match convert_project () example_loaded (mk_version 1 2 3) with Ok files => files | Err _ => [] end.

Lemma example_converted_Ok : convert_project () example_loaded (mk_version 1 2 3) = Ok example_converted.
Proof. vm_compute. reflexivity. Qed.


(** A target may be the source of another file: nothing compares the two. *)
Example target_is_a_source :
  let root := mk_loaded_file "/p/a.toml" (mk_config_file (Some "p") [] [] None [FileInclude "a.yml"] None None) None in
  let include := mk_loaded_file "/p/a.yml" (mk_config_file None [] [] None [] None None) None in
  claim_targets (zip [root; include] (targets_of root [include])) ∅ ∅ =
    Ok (list_to_map [("/p/a.toml", "/p/ratect.toml"); ("/p/a.yml", "/p/a.toml")]).
Proof. vm_compute. reflexivity. Qed.
End Once.
