(* ===== verification/Wire.v ===== *)
(** * Wire: how values are read from a document and written to one

    The hand-written [Deserialize] and [Serialize] of [ratect-core/src/config.rs]:
    what each visitor makes of the kind of node it is given, and the node each
    value is written as.  A reader's derived struct and the parsers below it are
    [Serde]. *)

From S2P Require Import Prelude Text Collections Values Config Dockerignore Paths IncludeTrust WrittenFor Includes.
From S2P Require Expressions.
From stdpp Require Import options.

(** ** Nodes *)

(** What a deserializer hands a visitor; a float by its [Display]. *)
Inductive node :=
| NNull
| NStr (v : string)
| NU64 (v : N)
| NI64 (v : Z)
| NF64 (text : string)
| NBool (v : bool)
| NSeq (items : list node)
| NMap (entries : list (string * node)).

Inductive wire_error :=
| InvalidType
| BadFields
| MissingField (name : string)
| BadValue (e : value_error)
| InvalidExpression (value : string) (e : Expressions.expr_error)
| OnlyForCache (field : string)
| NotPermitted (field mount : string)
| UnknownMountType (name : string)
| BothSecretFields
| NeitherSecretField
| UnknownIncludeType (name : string)
| OnlyForGit (field : string)
| InvalidName (name : string)
| UnknownVariant (name : string).

(** The parsers and [serde]: whether the file being read is Batect-format, a node
    read as a [String], and the fields of a derived struct that denies unknown
    ones. *)
Class Serde := {
  reading_batect_format : bool;
  as_string : node → option string;
  derived_fields : list string → list (string * node) → option (gmap string node);
}.

(** A string is read as itself, and a struct's fields are read exactly when every
    key is one of them and none is repeated. *)
Class SerdeLaws `{!Serde} : Prop := {
  as_string_str v : as_string (NStr v) = Some v;
  derived_fields_Some names entries fields :
    derived_fields names entries = Some fields ↔
    NoDup entries.*1 ∧ entries.*1 ⊆ names ∧ fields = list_to_map entries;
}.

Section wire.
Context `{!Serde}.

(** ** Fields *)

Definition object_fields (names : list string) (map : list (string * node)) : result (gmap string node) wire_error :=
  ok_or (derived_fields names map) BadFields.

Definition required {A} (read : node → result A wire_error) (fields : gmap string node) (name : string)
    : result A wire_error :=
  let? n := ok_or (fields !! name) (MissingField name) in read n.

(** [present]: a field that may be left out, but not null. *)
Definition present {A} (read : node → result A wire_error) (fields : gmap string node) (name : string)
    : result (option A) wire_error :=
  match fields !! name with
  | Some n => let? value := read n in Ok (Some value)
  | None => Ok None
  end.

Definition read_string (n : node) : result string wire_error := ok_or (as_string n) InvalidType.

Definition read_bool (n : node) : result bool wire_error :=
  match n with NBool v => Ok v | _ => Err InvalidType end.

Definition read_i64 (n : node) : result Z wire_error :=
  match n with
  | NU64 v => let? _ := ensure (Z.of_N v <=? i64_max)%Z InvalidType in Ok (Z.of_N v)
  | NI64 v => Ok v
  | _ => Err InvalidType
  end.

Fixpoint read_each {A} (read : node → result A wire_error) (items : list node) : result (list A) wire_error :=
  match items with
  | [] => Ok []
  | item :: items =>
      let? value := read item in
      let? rest := read_each read items in
      Ok (value :: rest)
  end.

Definition read_list {A} (read : node → result A wire_error) (n : node) : result (list A) wire_error :=
  match n with NSeq items => read_each read items | _ => Err InvalidType end.

Definition read_option {A} (read : node → result A wire_error) (n : node) : result (option A) wire_error :=
  match n with NNull => Ok None | n => let? value := read n in Ok (Some value) end.

(** A visitor that takes strings and integers. *)
Definition read_scalar {A} (visit : scalar → result A value_error) (n : node) : result A wire_error :=
  match n with
  | NStr v => map_err BadValue (visit (ScalarStr v))
  | NU64 v => map_err BadValue (visit (ScalarU64 v))
  | NI64 v => map_err BadValue (visit (ScalarI64 v))
  | _ => Err InvalidType
  end.

Definition write_option (name : string) (value : option node) : list (string * node) :=
  match value with Some v => [(name, v)] | None => [] end.

(** ** Expressions *)

Definition checked_expression (value : string) : result string wire_error :=
  match Expressions.check_syntax value with
  | Ok _ => Ok value
  | Err e => Err (InvalidExpression value e)
  end.

(** [Checked] *)
Definition read_checked (n : node) : result string wire_error :=
  let? value := read_string n in checked_expression value.

Definition deserialize_optional_expression (n : node) : result (option string) wire_error :=
  read_option read_checked n.

Definition deserialize_image (n : node) : result (option string) wire_error :=
  if image_is_expression reading_batect_format then deserialize_optional_expression n
  else read_option read_string n.

(** A [HashMap], entry by entry. *)
Fixpoint read_entries {A} (read : node → result A wire_error) (entries : list (string * node)) (map : gmap string A)
    : result (gmap string A) wire_error :=
  match entries with
  | [] => Ok map
  | (key, n) :: entries =>
      let? value := read n in
      read_entries read entries (<[key := value]> map)
  end.

Definition read_map {A} (read : node → result A wire_error) (n : node) : result (gmap string A) wire_error :=
  match n with NMap entries => read_entries read entries ∅ | _ => Err InvalidType end.

Definition deserialize_expression_map (n : node) : result (option (gmap string string)) wire_error :=
  read_option (read_map read_checked) n.

Definition deserialize_expression_list (n : node) : result (list string) wire_error := read_list read_checked n.

(** [ScalarString]: the text a typed scalar is rendered as; a parser that keeps
    the text of a plain scalar gives it as a string. *)
Definition scalar_text (n : node) : result string wire_error :=
  match n with
  | NStr v => Ok v
  | NI64 v => Ok (show_Z v)
  | NU64 v => Ok (show_N v)
  | NF64 text => Ok text
  | NBool v => Ok (if v then "true" else "false")
  | _ => Err InvalidType
  end.

Definition read_scalar_string (n : node) : result string wire_error :=
  let? value := scalar_text n in checked_expression value.

Definition deserialize_scalar_string_map (n : node) : result (option (gmap string string)) wire_error :=
  read_option (read_map read_scalar_string) n.

(** ** Identities, names and modes *)

Definition additional_user_fields : list string := ["name"; "uid"; "gid"].

Definition read_u32 (n : node) : result N wire_error :=
  match n with
  | NU64 v => let? _ := ensure (v <=? 4294967295)%N InvalidType in Ok v
  | NI64 v => let? _ := ensure ((0 <=? v) && (v <=? 4294967295))%Z InvalidType in Ok (Z.to_N v)
  | _ => Err InvalidType
  end.

Definition additional_user_of (n : node) : result AdditionalUser wire_error :=
  match n with
  | NMap map =>
      let? fields := object_fields additional_user_fields map in
      let? name := required read_string fields "name" in
      let? uid := required read_u32 fields "uid" in
      let? gid := required read_u32 fields "gid" in
      Ok (mk_additional_user name uid gid)
  | _ => Err InvalidType
  end.

Definition additional_user_to (u : AdditionalUser) : node :=
  NMap [("name", NStr (au_name u)); ("uid", NU64 (au_uid u)); ("gid", NU64 (au_gid u))].

(** A field with [serde(default)]. *)
Definition defaulted {A} (read : node → result A wire_error) (fields : gmap string node) (name : string) (value : A)
    : result A wire_error :=
  match fields !! name with Some n => read n | None => Ok value end.

Definition identity_of (n : node) : result Identity wire_error :=
  match n with
  | NMap map =>
      let? fields := object_fields ["home"; "additional_users"] map in
      let? home := required read_string fields "home" in
      let? additional_users := defaulted (read_list additional_user_of) fields "additional_users" [] in
      let? home := checked_expression home in
      Ok (mk_identity home additional_users)
  | _ => Err InvalidType
  end.

(** An empty list is left out. *)
Definition identity_to (i : Identity) : node :=
  NMap (("home", NStr (id_home i)) ::
        match id_additional_users i with
        | [] => []
        | users => [("additional_users", NSeq (additional_user_to <$> users))]
        end).

Definition name_or_id_of : node → result NameOrId wire_error := read_scalar name_or_id_deserialize.
Definition name_or_id_to (v : NameOrId) : node := NStr v.

Definition network_mode_of (n : node) : result NetworkMode wire_error :=
  let? value := read_string n in map_err BadValue (network_mode_try_from value).
Definition network_mode_to (m : NetworkMode) : node := NStr (network_mode_into m).

Definition shm_size_of : node → result Z wire_error := read_scalar deserialize_shm_size.
Definition shm_size_to (size : Z) : node := NI64 size.

Definition run_as_current_user_of (n : node) : result RunAsCurrentUser wire_error :=
  match n with
  | NMap map =>
      let? fields := object_fields ["enabled"; "home_directory"] map in
      let? enabled := defaulted read_bool fields "enabled" false in
      let? home := defaulted (read_option read_string) fields "home_directory" None in
      Ok (mk_run_as enabled home)
  | _ => Err InvalidType
  end.

Definition deserialize_run_as_current_user (n : node) : result (option RunAsCurrentUser) wire_error :=
  if reading_batect_format then read_option run_as_current_user_of n
  else Ok (Some (mk_run_as false None)).

(** ** Devices and limits *)

Definition device_of (n : node) : result DeviceMapping wire_error :=
  match n with
  | NStr v => map_err BadValue (device_parse_string v)
  | NMap map =>
      let? fields := object_fields ["local"; "container"; "options"] map in
      let? local := required read_string fields "local" in
      let? container := required read_string fields "container" in
      let? options := present read_string fields "options" in
      Ok (mk_device local container options)
  | _ => Err InvalidType
  end.

Definition device_to (d : DeviceMapping) : node :=
  NMap ([("local", NStr (dm_local d)); ("container", NStr (dm_container d))] ++
        write_option "options" (NStr <$> dm_options d)).

(** [UlimitResource::ALL] *)
Definition all_resources : list UlimitResource :=
  [Core; Cpu; Data; Fsize; Locks; Memlock; Msgqueue; Nice; Nofile; Nproc; Rss; Rtprio; Rttime; Sigpending; Stack].

(** What the derived [Deserialize] reads: the constructor of that name. *)
Definition read_resource (n : node) : result UlimitResource wire_error :=
  let? name := read_string n in
  ok_or (snd <$> list_find (λ r, ulimit_as_str r = name) all_resources) (UnknownVariant name).

Definition ulimit_of (n : node) : result Ulimit wire_error :=
  match n with
  | NMap map =>
      let? fields := object_fields ["name"; "soft"; "hard"] map in
      let? name := required read_resource fields "name" in
      let? soft := required read_i64 fields "soft" in
      let? hard := present read_i64 fields "hard" in
      map_err BadValue (ulimit_new name soft (default soft hard))
  | _ => Err InvalidType
  end.

Definition ulimit_to (u : Ulimit) : node :=
  NMap [("name", NStr (ulimit_as_str (ul_name u))); ("soft", NI64 (ul_soft u)); ("hard", NI64 (ul_hard u))].

(** ** Volumes *)

(** What both forms of a local mount check of its host path. *)
Definition checked_local (m : LocalVolumeMount) : result VolumeMount wire_error :=
  if local_is_expression m reading_batect_format then
    let? local := checked_expression (lv_local m) in
    Ok (LocalMount (mk_local_mount local (lv_container m) (lv_options m) (lv_compact m)))
  else Ok (LocalMount m).

Definition cache_scope_show (s : CacheScope) : string := match s with Project => "project" | Shared => "shared" end.

Definition read_cache_scope (n : node) : result CacheScope wire_error :=
  let? name := read_string n in
  if bool_decide (name = "project") then Ok Project
  else if bool_decide (name = "shared") then Ok Shared
  else Err (UnknownVariant name).

Definition refused {A} (field : option A) (e : wire_error) : result () wire_error :=
  ensure (match field with Some _ => false | None => true end) e.

Definition volume_of (n : node) : result VolumeMount wire_error :=
  match n with
  | NStr v =>
      let? mount := map_err BadValue (volume_parse_string v) in
      match mount with LocalMount m => checked_local m | _ => Ok mount end
  | NMap map =>
      let? fields := object_fields ["local"; "container"; "options"; "name"; "type"; "scope"] map in
      let? local := present read_string fields "local" in
      let? container := required read_string fields "container" in
      let? options := present read_string fields "options" in
      let? name := present read_string fields "name" in
      let? mount_type := present read_string fields "type" in
      let? scope := present read_cache_scope fields "scope" in
      let mount_type := default "local" mount_type in
      if bool_decide (mount_type = "local") then
        let? _ := refused scope (OnlyForCache "scope") in
        let? _ := refused name (NotPermitted "name" "local path") in
        let? local := ok_or local (MissingField "local") in
        checked_local (mk_local_mount local container options false)
      else if bool_decide (mount_type = "cache") then
        let? _ := refused local (NotPermitted "local" "cache") in
        let? name := ok_or name (MissingField "name") in
        Ok (CacheMount (mk_cache_mount name container options scope))
      else if bool_decide (mount_type = "tmpfs") then
        let? _ := refused scope (OnlyForCache "scope") in
        let? _ := refused local (NotPermitted "local" "tmpfs") in
        let? _ := refused name (NotPermitted "name" "tmpfs") in
        Ok (TmpfsMount (mk_tmpfs_mount container options))
      else Err (UnknownMountType mount_type)
  | _ => Err InvalidType
  end.

Definition volume_to (v : VolumeMount) : node :=
  match v with
  | LocalMount m =>
      NMap ([("local", NStr (lv_local m)); ("container", NStr (lv_container m))] ++
            write_option "options" (NStr <$> lv_options m))
  | CacheMount m =>
      NMap ([("type", NStr "cache"); ("name", NStr (cv_name m)); ("container", NStr (cv_container m))] ++
            write_option "options" (NStr <$> cv_options m) ++
            write_option "scope" ((λ s, NStr (cache_scope_show s)) <$> cv_scope m))
  | TmpfsMount m =>
      NMap ([("type", NStr "tmpfs"); ("container", NStr (tv_container m))] ++
            write_option "options" (NStr <$> tv_options m))
  end.

(** ** Secrets *)

Definition secret_of (n : node) : result BuildSecret wire_error :=
  match n with
  | NMap map =>
      let? fields := object_fields ["environment"; "path"] map in
      let? environment := present read_string fields "environment" in
      let? path := present read_string fields "path" in
      match environment, path with
      | Some _, Some _ => Err BothSecretFields
      | Some environment, None => Ok (EnvironmentSecret environment)
      | None, Some path => let? path := checked_expression path in Ok (PathSecret path)
      | None, None => Err NeitherSecretField
      end
  | _ => Err InvalidType
  end.

Definition secret_to (s : BuildSecret) : node :=
  match s with
  | EnvironmentSecret value => NMap [("environment", NStr value)]
  | PathSecret value => NMap [("path", NStr value)]
  end.

(** ** Ports *)

Definition port_range_of : node → result PortRange wire_error := read_scalar port_range_deserialize.
Definition port_range_to (r : PortRange) : node :=
  match port_range_serialize r with ScalarStr v => NStr v | ScalarU64 v => NU64 v | ScalarI64 v => NI64 v end.

Definition port_mapping_of (n : node) : result PortMapping wire_error :=
  match n with
  | NStr v => map_err BadValue (port_mapping_parse_string v)
  | NMap map =>
      let? fields := object_fields ["local"; "container"; "protocol"] map in
      let? local := required port_range_of fields "local" in
      let? container := required port_range_of fields "container" in
      let? protocol := present read_string fields "protocol" in
      map_err BadValue (port_mapping_new local container (default "tcp" protocol))
  | _ => Err InvalidType
  end.

Definition port_mapping_to (m : PortMapping) : node :=
  NMap [("local", port_range_to (pm_local m)); ("container", port_range_to (pm_container m));
        ("protocol", NStr (pm_protocol m))].

(** ** Includes *)

Definition include_fields : list string :=
  ["path"; "type"; "repo"; "ref"; "allow_host_paths"; "allow_nested_git_includes"; REVIEWED_FIELD].

Definition include_of (n : node) : result IncludeEntry wire_error :=
  match n with
  | NStr v => Ok (FileInclude v)
  | NMap map =>
      let? fields := object_fields include_fields map in
      let? path := present read_string fields "path" in
      let? include_type := present read_string fields "type" in
      let? repo := present read_string fields "repo" in
      let? git_ref := present read_string fields "ref" in
      let? allow_host_paths := present read_bool fields "allow_host_paths" in
      let? allow_nested_git_includes := present read_bool fields "allow_nested_git_includes" in
      let? reviewed := present read_string fields REVIEWED_FIELD in
      if bool_decide (include_type = Some "git") then
        let? repo := ok_or repo (MissingField "repo") in
        let? git_ref := ok_or git_ref (MissingField "ref") in
        Ok (GitInclude repo git_ref path (default false allow_host_paths) allow_nested_git_includes reviewed)
      else
        let? _ := match include_type with
                  | Some other => ensure (bool_decide (other = "file")) (UnknownIncludeType other)
                  | None => Ok tt
                  end in
        let? _ := refused repo (OnlyForGit "repo") in
        let? _ := refused git_ref (OnlyForGit "ref") in
        let? _ := refused allow_host_paths (OnlyForGit "allow_host_paths") in
        let? _ := refused allow_nested_git_includes (OnlyForGit "allow_nested_git_includes") in
        let? _ := refused reviewed (OnlyForGit REVIEWED_FIELD) in
        let? path := ok_or path (MissingField "path") in
        Ok (FileInclude path)
  | _ => Err InvalidType
  end.

Definition include_to (i : IncludeEntry) : node :=
  match i with
  | FileInclude path => NMap [("path", NStr path)]
  | GitInclude repo git_ref path allow_host_paths nested reviewed =>
      NMap ([("type", NStr "git"); ("repo", NStr repo); ("ref", NStr git_ref)] ++
            write_option "path" (NStr <$> path) ++
            (if allow_host_paths then [("allow_host_paths", NBool true)] else []) ++
            write_option "allow_nested_git_includes" (NBool <$> nested) ++
            write_option REVIEWED_FIELD (NStr <$> reviewed))
  end.

(** ** Names *)

Definition deserialize_project_name (n : node) : result (option string) wire_error :=
  let? name := read_option read_string n in
  match name with
  | None => Ok None
  | Some name => let? _ := ensure (ExternalChecks.is_name_component name) (InvalidName name) in Ok (Some name)
  end.

(** [NamedKey] *)
Definition named_key (check : string → bool) (name : string) : result string wire_error :=
  let? _ := ensure (check name) (InvalidName name) in Ok name.

(** [deserialize_named], [unwrap_names]: an [IndexMap] whose keys are checked as
    they are read, each before its value. *)
Fixpoint read_named {V} (check : string → bool) (read : node → result V wire_error)
    (entries : list (string * node)) (map : index_map V) : result (index_map V) wire_error :=
  match entries with
  | [] => Ok map
  | (key, n) :: entries =>
      let? key := named_key check key in
      let? value := read n in
      read_named check read entries (im_insert key value map)
  end.

Definition deserialize_named {V} (check : string → bool) (read : node → result V wire_error) (n : node)
    : result (index_map V) wire_error :=
  match n with NMap entries => read_named check read entries [] | _ => Err InvalidType end.

Definition deserialize_optional_named {V} (check : string → bool) (read : node → result V wire_error) (n : node)
    : result (option (index_map V)) wire_error :=
  read_option (deserialize_named check read) n.

(** [SkippingExtensions]: the top-level entries left once extensions are skipped. *)
Definition EXTENSION_KEY_PREFIX : string := ".".

Definition skip_extensions (entries : list (string * node)) : list (string * node) :=
  filter (λ e, starts_with EXTENSION_KEY_PREFIX e.1 = false) entries.
End wire.
