(* ===== verification/WireSpec.v ===== *)
(** * WireSpec: what is written is read back

    Each value the native format holds, written and read, is itself, and each value
    read is one that is; an object with a field its kind of value does not have is
    refused. *)

From S2P Require Import Prelude Text Collections Values Config IncludeTrust WrittenFor Includes Wire.
From S2P Require Expressions.
From stdpp Require Import options.

(** ** Values with a reader and a writer

    A value is written as its settled form, which is what is read back. *)

Class Wire `{!Serde} (A : Type) := {
  wire_of : node → result A wire_error;
  wire_to : A → node;
  wire_wf : A → Prop;
  settled : A → A;
}.

Class WireLaws `{!Serde} (A : Type) `{!Wire A} : Prop := {
  wire_read n (x : A) : wire_of n = Ok x → wire_wf (settled x);
  wire_settled (x : A) : wire_to (settled x) = wire_to x;
  wire_written (x : A) : wire_wf x → wire_of (wire_to x) = Ok x;
}.

Section wire.
Context {serde : Serde} {laws : SerdeLaws} (native : reading_batect_format = false).

Lemma wire_read_back `{!Wire A, !WireLaws A} n (x : A) : wire_of n = Ok x → wire_of (wire_to x) = Ok (settled x).
Proof using Type. intros H. rewrite <-wire_settled. by eapply wire_written, wire_read. Qed.

(** ** Fields *)

Lemma object_fields_Ok names entries fields :
  object_fields names entries = Ok fields ↔ NoDup entries.*1 ∧ entries.*1 ⊆ names ∧ fields = list_to_map entries.
Proof using laws.
  unfold object_fields. rewrite <-derived_fields_Some. destruct (derived_fields names entries); naive_solver.
Qed.

Lemma object_fields_written names entries :
  bool_decide (NoDup entries.*1) = true → forallb (λ k, bool_decide (k ∈ names)) entries.*1 = true →
  object_fields names entries = Ok (list_to_map entries).
Proof using laws.
  intros Hd%bool_decide_eq_true Hn. apply object_fields_Ok. split_and!; [done| |done].
  intros k Hk. rewrite forallb_forall in Hn. by apply list_elem_of_In, Hn, bool_decide_eq_true in Hk.
Qed.

Lemma read_string_str v : read_string (NStr v) = Ok v.
Proof using laws. unfold read_string. by rewrite as_string_str. Qed.

Lemma checked_Ok value v : checked_expression value = Ok v ↔ v = value ∧ Expressions.check_syntax value = Ok tt.
Proof using Type.
  unfold checked_expression. destruct (Expressions.check_syntax value) as [[]|]; naive_solver.
Qed.

Lemma present_None {A} (read : node → result A wire_error) entries name o :
  present read (list_to_map entries) name = Ok o → (o = None ↔ name ∉ entries.*1).
Proof using Type.
  unfold present. destruct (list_to_map entries !! name) as [n|] eqn:E.
  - intros (a & _ & [= <-])%result_bind_Ok. split; [done|]. intros H. by rewrite not_elem_of_list_to_map_1 in E.
  - intros [= <-]. split; [|done]. intros _. by apply not_elem_of_list_to_map_2.
Qed.

Lemma refused_Ok {A} (field : option A) e u : refused field e = Ok u ↔ field = None.
Proof using Type. unfold refused. rewrite ensure_Ok. by destruct field. Qed.
End wire.

(** Runs a reader on the object a writer makes. *)
Ltac run_reader :=
  rewrite object_fields_written by (vm_compute; reflexivity); cbn [result_bind list_to_map foldr uncurry fst snd];
  unfold required, present, defaulted;
  repeat first [rewrite lookup_insert_eq | rewrite lookup_insert_ne by done | rewrite lookup_empty
               | rewrite read_string_str | progress cbn [result_bind ok_or]].

(** ** The values *)

Section values.
Context {serde : Serde} {laws : SerdeLaws} (native : reading_batect_format = false).
#[local] Set Default Proof Using "laws".

#[export] Instance device_wire : Wire DeviceMapping := {|
  wire_of := device_of; wire_to := device_to; wire_wf _ := True; settled d := d |}.
#[export] Instance device_laws : WireLaws DeviceMapping.
Proof.
  split; [done..|]. intros [local container options] _. cbn [wire_of wire_to device_wire device_to device_of dm_local dm_container dm_options].
  destruct options; cbn [write_option fmap option_fmap option_map app]; by run_reader.
Qed.

#[export] Instance name_or_id_wire : Wire NameOrId := {|
  wire_of := name_or_id_of; wire_to := name_or_id_to; wire_wf _ := True; settled v := v |}.
#[export] Instance name_or_id_laws : WireLaws NameOrId.
Proof using Type. by split. Qed.

#[export] Instance network_mode_wire : Wire NetworkMode := {|
  wire_of := network_mode_of; wire_to := network_mode_to; settled m := m;
  wire_wf m := match m with ContainerMode name => name ≠ EmptyString | _ => True end |}.
#[export] Instance network_mode_laws : WireLaws NetworkMode.
Proof.
  split; cbn [wire_of wire_to wire_wf settled network_mode_wire].
  - intros n m (value & _ & H)%result_bind_Ok. unfold network_mode_try_from in H.
    destruct (bool_decide (value = "host")); [by simplify_eq/=|].
    destruct (bool_decide (value = "none")); [by simplify_eq/=|].
    destruct (strip_prefix _ value) as [name|]; [|done]. case_bool_decide; by simplify_eq/=.
  - done.
  - intros m Hm. unfold network_mode_of, network_mode_to. rewrite read_string_str. cbn [result_bind].
    destruct m as [| |name]; [done..|]. unfold network_mode_try_from, network_mode_into.
    rewrite !bool_decide_false by by destruct name. rewrite (proj2 (strip_prefix_Some _ _ name)) by done. by rewrite bool_decide_true.
Qed.

#[export] Instance shm_size_wire : Wire Z := {|
  wire_of := shm_size_of; wire_to := shm_size_to; wire_wf size := (0 ≤ size)%Z; settled size := size |}.
#[export] Instance shm_size_laws : WireLaws Z.
Proof using Type.
  split; cbn [wire_of wire_to wire_wf settled shm_size_wire].
  - intros n z H. unfold shm_size_of, read_scalar in H. destruct n; try done.
    + cbn [deserialize_shm_size] in H. destruct (parse_byte_size v) eqn:E; simplify_eq/=. apply parse_byte_size_bound in E. lia.
    + cbn [deserialize_shm_size] in H. destruct (Z.leb_spec (Z.of_N v) i64_max); simplify_eq/=. lia.
    + cbn [deserialize_shm_size] in H. by destruct (Z.ltb_spec v 0); simplify_eq/=.
  - done.
  - intros z Hz. unfold shm_size_of, shm_size_to. cbn [read_scalar deserialize_shm_size]. destruct (Z.ltb_spec z 0); [lia|done].
Qed.

#[export] Instance additional_user_wire : Wire AdditionalUser := {|
  wire_of := additional_user_of; wire_to := additional_user_to; settled u := u;
  wire_wf u := (au_uid u ≤ 4294967295 ∧ au_gid u ≤ 4294967295)%N |}.

Lemma read_u32_Ok n v : read_u32 n = Ok v → (v ≤ 4294967295)%N.
Proof using Type.
  destruct n; try done; simpl; intros (u & H%ensure_Ok & [= <-])%result_bind_Ok.
  - by apply N.leb_le.
  - apply andb_prop in H as [?%Z.leb_le ?%Z.leb_le]. lia.
Qed.

Lemma required_Ok {A} (read : node → result A wire_error) fields name a :
  required read fields name = Ok a → ∃ n, read n = Ok a.
Proof using Type. intros (n & _ & H)%result_bind_Ok. eauto. Qed.

#[export] Instance additional_user_laws : WireLaws AdditionalUser.
Proof.
  split; cbn [wire_of wire_to wire_wf settled additional_user_wire].
  - intros n u H. destruct n; try done. cbn in H. apply result_bind_Ok in H as (fields & _ & H).
    apply result_bind_Ok in H as (name & _ & H). apply result_bind_Ok in H as (uid & [? Hu]%required_Ok & H).
    apply result_bind_Ok in H as (gid & [? Hg]%required_Ok & [= <-]). by apply read_u32_Ok in Hu, Hg.
  - done.
  - intros [name uid gid] [Hu Hg]. cbn in Hu, Hg. cbn [additional_user_to additional_user_of au_name au_uid au_gid].
    run_reader. unfold read_u32. apply N.leb_le in Hu, Hg. by rewrite Hu, Hg.
Qed.

Lemma read_each_Forall {A} (read : node → result A wire_error) (P : A → Prop) items l :
  (∀ n a, read n = Ok a → P a) → read_each read items = Ok l → Forall P l.
Proof using Type.
  intros HP. revert l. induction items as [|item items IH]; intros l; cbn [read_each]; [by intros [= <-]|].
  intros (a & Ha & (rest & Hr & [= <-])%result_bind_Ok)%result_bind_Ok. constructor; [by eapply HP|by apply IH].
Qed.

Lemma read_each_written {A} (read : node → result A wire_error) (write : A → node) l :
  Forall (λ a, read (write a) = Ok a) l → read_each read (write <$> l) = Ok l.
Proof using Type. induction 1 as [|a l Ha Hl IH]; [done|]. cbn. by rewrite Ha, IH. Qed.

(** Lists of values, a [Vec] field. *)
#[export] Instance list_wire `{!Wire A} : Wire (list A) := {|
  wire_of := read_list wire_of; wire_to l := NSeq (wire_to <$> l); wire_wf := Forall wire_wf; settled l := settled <$> l |}.
#[export] Instance list_laws `{!Wire A, !WireLaws A} : WireLaws (list A).
Proof using Type.
  split; cbn [wire_of wire_to wire_wf settled list_wire].
  - intros [| | | | | |items|] l H; try done. apply Forall_fmap.
    eapply read_each_Forall; [|exact H]. apply wire_read.
  - intros l. rewrite <-list_fmap_compose. f_equal. apply list_fmap_ext. intros _ a _. apply wire_settled.
  - intros l Hl. cbn. apply read_each_written. eapply Forall_impl; [exact Hl|]. apply wire_written.
Qed.

#[export] Instance identity_wire : Wire Identity := {|
  wire_of := identity_of; wire_to := identity_to; settled i := i;
  wire_wf i := Expressions.check_syntax (id_home i) = Ok tt ∧ Forall wire_wf (id_additional_users i) |}.
#[export] Instance identity_laws : WireLaws Identity.
Proof.
  split; cbn [wire_of wire_to wire_wf settled identity_wire].
  - intros n i H. destruct n; try done. cbn in H. apply result_bind_Ok in H as (fields & _ & H).
    apply result_bind_Ok in H as (home & _ & H). apply result_bind_Ok in H as (users & Hu & H).
    apply result_bind_Ok in H as (home' & [-> Hh]%checked_Ok & [= <-]). split; [done|]. cbn.
    unfold defaulted in Hu. destruct (fields !! "additional_users") as [n|]; [|by injection Hu as <-].
    pose proof (wire_read (A := list AdditionalUser) n users Hu) as Hwf. cbn in Hwf. by rewrite list_fmap_id in Hwf.
  - done.
  - intros [home users] [Hh Hu]. cbn [id_home id_additional_users] in *.
    assert (checked_expression home = Ok home) as Hc by by apply checked_Ok.
    pose proof (wire_written (A := list AdditionalUser) users Hu) as Hw.
    unfold identity_to, identity_of. cbn [id_home id_additional_users].
    destruct users as [|u users]; run_reader.
    + by rewrite Hc.
    + cbn [wire_of wire_to list_wire] in Hw. change additional_user_to with (wire_to (A := AdditionalUser)).
      change additional_user_of with (wire_of (A := AdditionalUser)). rewrite Hw. cbn [result_bind]. by rewrite Hc.
Qed.

#[export] Instance ulimit_wire : Wire Ulimit := {|
  wire_of := ulimit_of; wire_to := ulimit_to; settled u := u;
  wire_wf u := ulimit_new (ul_name u) (ul_soft u) (ul_hard u) = Ok u |}.

Lemma read_resource_written r : read_resource (NStr (ulimit_as_str r)) = Ok r.
Proof. unfold read_resource. rewrite read_string_str. by destruct r. Qed.

#[export] Instance ulimit_laws : WireLaws Ulimit.
Proof.
  split; cbn [wire_of wire_to wire_wf settled ulimit_wire].
  - intros n u H. destruct n; try done. cbn in H. apply result_bind_Ok in H as (fields & _ & H).
    apply result_bind_Ok in H as (name & _ & H). apply result_bind_Ok in H as (soft & _ & H).
    apply result_bind_Ok in H as (hard & _ & H). destruct (ulimit_new _ _ _) as [v|] eqn:E; [|done].
    injection H as ->. unfold ulimit_new in E. repeat (case_match; try done). injection E as <-. cbn.
    unfold ulimit_new. by repeat case_match.
  - done.
  - intros [name soft hard] Hu. cbn in Hu. unfold ulimit_to, ulimit_of. cbn [ul_name ul_soft ul_hard].
    run_reader. rewrite read_resource_written. cbn [result_bind read_i64 from_option id]. by rewrite Hu.
Qed.

#[export] Instance secret_wire : Wire BuildSecret := {|
  wire_of := secret_of; wire_to := secret_to; settled x := x;
  wire_wf x := match x with PathSecret p => Expressions.check_syntax p = Ok tt | _ => True end |}.
#[export] Instance secret_laws : WireLaws BuildSecret.
Proof.
  split; cbn [wire_of wire_to wire_wf settled secret_wire].
  - intros n x H. destruct n; try done. cbn in H. apply result_bind_Ok in H as (fields & _ & H).
    apply result_bind_Ok in H as ([environment|] & _ & H); apply result_bind_Ok in H as ([p|] & _ & H);
      try done; [by injection H as <-|].
    by apply result_bind_Ok in H as (p' & [-> Hp]%checked_Ok & [= <-]).
  - done.
  - intros [name|path] Hx; cbn [secret_to secret_of]; run_reader; [done|].
    by rewrite (proj2 (checked_Ok path path)).
Qed.

#[export] Instance port_range_wire : Wire PortRange := {|
  wire_of := port_range_of; wire_to := port_range_to; wire_wf := port_range_wf; settled r := r |}.
#[export] Instance port_range_laws : WireLaws PortRange.
Proof using Type.
  split; cbn [wire_of wire_to wire_wf settled port_range_wire].
  - intros n r H. unfold port_range_of, read_scalar in H.
    assert (∀ v, map_err BadValue (port_range_deserialize v) = Ok r → port_range_wf r) as Hv.
    { intros v Hv. destruct (port_range_deserialize v) eqn:E; simplify_eq/=. by eapply (proj2 (port_range_roundtrip r)). }
    by destruct n; try done; apply Hv in H.
  - done.
  - intros r Hr. pose proof (proj1 (port_range_roundtrip r) Hr) as H. unfold port_range_of, port_range_to.
    destruct (port_range_serialize r); cbn [read_scalar]; by rewrite H.
Qed.

#[export] Instance port_mapping_wire : Wire PortMapping := {|
  wire_of := port_mapping_of; wire_to := port_mapping_to; wire_wf := port_mapping_wf; settled m := m |}.
#[export] Instance port_mapping_laws : WireLaws PortMapping.
Proof.
  split; cbn [wire_of wire_to wire_wf settled port_mapping_wire].
  - intros n m H. destruct n; try done; cbn in H.
    + destruct (port_mapping_parse_string v) eqn:E; simplify_eq/=. by eapply port_mapping_parse_wf.
    + apply result_bind_Ok in H as (fields & _ & H). apply result_bind_Ok in H as (l & [nl Hl]%required_Ok & H).
      apply result_bind_Ok in H as (c & [nc Hc]%required_Ok & H). apply result_bind_Ok in H as (protocol & _ & H).
      pose proof (wire_read (A := PortRange) nl l Hl). pose proof (wire_read (A := PortRange) nc c Hc). unfold port_mapping_new in H.
      destruct (N.eqb_spec (port_range_size l) (port_range_size c)); simplify_eq/=. by split_and!.
  - done.
  - intros [l c p] (Hl & Hc & Hs). cbn in Hl, Hc, Hs. unfold port_mapping_to, port_mapping_of.
    cbn [pm_local pm_container pm_protocol]. run_reader.
    pose proof (wire_written (A := PortRange) l Hl) as El. pose proof (wire_written (A := PortRange) c Hc) as Ec.
    cbn [wire_of wire_to port_range_wire] in El, Ec. rewrite El, Ec. cbn [result_bind from_option id].
    unfold port_mapping_new. by rewrite Hs, N.eqb_refl.
Qed.

#[export] Instance include_wire : Wire IncludeEntry := {|
  wire_of := include_of; wire_to := include_to; wire_wf _ := True; settled i := i |}.
#[export] Instance include_laws : WireLaws IncludeEntry.
Proof.
  split; [done..|]. intros i _. cbn [wire_of wire_to include_wire].
  destruct i as [path|repo git_ref path hp nested reviewed]; unfold include_to, include_of; [by run_reader|].
  destruct path, hp, nested, reviewed; cbn [write_option fmap option_fmap option_map app]; by run_reader.
Qed.

(** A volume is written in the object form, whose host path is an expression. *)
#[export] Instance volume_wire : Wire VolumeMount := {|
  wire_of := volume_of; wire_to := volume_to;
  wire_wf v := match v with
               | LocalMount m => lv_compact m = false ∧ Expressions.check_syntax (lv_local m) = Ok tt
               | _ => True
               end;
  settled v := match v with
               | LocalMount m => LocalMount (mk_local_mount (lv_local m) (lv_container m) (lv_options m) false)
               | _ => v
               end |}.

Lemma checked_local_Ok m v :
  checked_local m = Ok v → v = LocalMount m ∧ Expressions.check_syntax (lv_local m) = Ok tt.
Proof using native.
  unfold checked_local, local_is_expression. rewrite native, andb_false_r. cbn [negb].
  intros (local & [-> Hc]%checked_Ok & [= <-])%result_bind_Ok. by destruct m.
Qed.

Lemma checked_local_checked m :
  Expressions.check_syntax (lv_local m) = Ok tt → checked_local m = Ok (LocalMount m).
Proof using native.
  intros H. unfold checked_local, local_is_expression. rewrite native, andb_false_r. cbn [negb].
  rewrite (proj2 (checked_Ok _ (lv_local m))) by done. by destruct m.
Qed.

Lemma volume_of_map entries v :
  volume_of (NMap entries) = Ok v →
  match v with
  | LocalMount m =>
      lv_compact m = false ∧ Expressions.check_syntax (lv_local m) = Ok tt ∧
      "name" ∉ entries.*1 ∧ "scope" ∉ entries.*1
  | CacheMount _ => "local" ∉ entries.*1
  | TmpfsMount _ => "local" ∉ entries.*1 ∧ "name" ∉ entries.*1 ∧ "scope" ∉ entries.*1
  end.
Proof using laws native.
  cbn [volume_of]. intros (fields & (_ & _ & ->)%object_fields_Ok & H)%result_bind_Ok.
  apply result_bind_Ok in H as (local & Hl%present_None & H). apply result_bind_Ok in H as (container & _ & H).
  apply result_bind_Ok in H as (options & _ & H). apply result_bind_Ok in H as (name & Hn%present_None & H).
  apply result_bind_Ok in H as (mount_type & _ & H). apply result_bind_Ok in H as (scope & Hs%present_None & H).
  cbv zeta in H. repeat case_bool_decide; [| | |done].
  - apply result_bind_Ok in H as (? & Hs'%refused_Ok & H). apply result_bind_Ok in H as (? & Hn'%refused_Ok & H).
    apply result_bind_Ok in H as (path & _ & [-> Hc]%checked_local_Ok). naive_solver.
  - apply result_bind_Ok in H as (? & Hl'%refused_Ok & H). apply result_bind_Ok in H as (? & _ & [= <-]). naive_solver.
  - apply result_bind_Ok in H as (? & Hs'%refused_Ok & H). apply result_bind_Ok in H as (? & Hl'%refused_Ok & H).
    apply result_bind_Ok in H as (? & Hn'%refused_Ok & [= <-]). naive_solver.
Qed.

#[export] Instance volume_laws : WireLaws VolumeMount.
Proof using laws native.
  split; cbn [wire_of wire_to wire_wf settled volume_wire].
  - intros n v H. destruct n; try done.
    + cbn [volume_of] in H. apply result_bind_Ok in H as (m & Hm & H).
      unfold volume_parse_string in Hm. destruct (parse_mount_parts v0) as [[[l c] o]|]; [|done]. injection Hm as <-.
      apply checked_local_Ok in H as [-> Hc]. done.
    + apply volume_of_map in H. destruct v; naive_solver.
  - by intros [[]| |].
  - intros [[l c o compact]|[n c o scope]|[c o]] Hv.
    + cbn in Hv. destruct Hv as [-> Hc]. cbn [volume_to lv_local lv_container lv_options]. unfold volume_of.
      destruct o; cbn [write_option fmap option_fmap option_map app]; run_reader;
        (etrans; [|by apply (checked_local_checked (mk_local_mount l c _ false))]); reflexivity.
    + cbn [volume_to cv_name cv_container cv_options cv_scope]. unfold volume_of.
      destruct o, scope as [[]|]; cbn [write_option fmap option_fmap option_map app cache_scope_show];
        run_reader; unfold read_cache_scope; rewrite ?read_string_str; done.
    + cbn [volume_to tv_container tv_options]. unfold volume_of.
      destruct o; cbn [write_option fmap option_fmap option_map app]; by run_reader.
Qed.

(** ** Objects *)

(** An object is read only where its keys are fields of its kind, each once. *)
Definition strict {A} (rd : node → result A wire_error) (names : list string) : Prop :=
  ∀ entries x, rd (NMap entries) = Ok x → NoDup entries.*1 ∧ entries.*1 ⊆ names.

Lemma strict_fields {A} (rd : node → result A wire_error) names (k : gmap string node → result A wire_error) :
  (∀ entries, rd (NMap entries) = let? fields := object_fields names entries in k fields) → strict rd names.
Proof. intros H entries x Hx. rewrite H in Hx. by apply result_bind_Ok in Hx as (f & (? & ? & _)%object_fields_Ok & _). Qed.

Lemma objects_strict :
  strict device_of ["local"; "container"; "options"] ∧
  strict ulimit_of ["name"; "soft"; "hard"] ∧
  strict volume_of ["local"; "container"; "options"; "name"; "type"; "scope"] ∧
  strict secret_of ["environment"; "path"] ∧
  strict port_mapping_of ["local"; "container"; "protocol"] ∧
  strict include_of include_fields ∧
  strict identity_of ["home"; "additional_users"] ∧
  strict additional_user_of additional_user_fields ∧
  strict run_as_current_user_of ["enabled"; "home_directory"].
Proof. split_and!; eapply strict_fields; intros entries; reflexivity. Qed.

(** A local include sets nothing of a Git include. *)
Lemma file_include_fields entries path :
  include_of (NMap entries) = Ok (FileInclude path) → entries.*1 ⊆ ["path"; "type"].
Proof.
  clear native. cbn [include_of]. intros (fields & (_ & Hsub & ->)%object_fields_Ok & H)%result_bind_Ok.
  apply result_bind_Ok in H as (p & _ & H). apply result_bind_Ok in H as (t & _ & H).
  apply result_bind_Ok in H as (repo & Hrepo%present_None & H). apply result_bind_Ok in H as (r & Hr%present_None & H).
  apply result_bind_Ok in H as (hp & Hhp%present_None & H). apply result_bind_Ok in H as (nested & Hn%present_None & H).
  apply result_bind_Ok in H as (reviewed & Hv%present_None & H). case_bool_decide.
  { apply result_bind_Ok in H as (? & _ & H). by apply result_bind_Ok in H as (? & _ & [= <-]). }
  apply result_bind_Ok in H as (_ & _ & H).
  apply result_bind_Ok in H as (? & E1%refused_Ok & H). apply result_bind_Ok in H as (? & E2%refused_Ok & H).
  apply result_bind_Ok in H as (? & E3%refused_Ok & H). apply result_bind_Ok in H as (? & E4%refused_Ok & H).
  apply result_bind_Ok in H as (? & E5%refused_Ok & _).
  apply Hrepo in E1. apply Hr in E2. apply Hhp in E3. apply Hn in E4. apply Hv in E5.
  intros k Hk. pose proof (Hsub k Hk) as Hin. unfold include_fields in Hin. set_solver.
Qed.

(** ** Maps *)

Lemma read_entries_all {A} (read : node → result A wire_error) (P : A → Prop) entries m m' :
  (∀ n a, read n = Ok a → P a) → map_Forall (λ _, P) m → read_entries read entries m = Ok m' → map_Forall (λ _, P) m'.
Proof using Type.
  intros HP. revert m. induction entries as [|[key n] entries IH]; intros m Hm; cbn [read_entries]; [by intros [= <-]|].
  intros (a & Ha & H)%result_bind_Ok. eapply IH, H. apply map_Forall_insert_2; [by eapply HP|done].
Qed.

Lemma read_option_map_all {A} (read : node → result A wire_error) (P : A → Prop) n m :
  (∀ n a, read n = Ok a → P a) → read_option (read_map read) n = Ok (Some m) → map_Forall (λ _, P) m.
Proof using Type.
  intros HP H. unfold read_option in H. destruct n; try done;
    apply result_bind_Ok in H as (m' & Hm & [= <-]); try done.
  eapply read_entries_all; [exact HP|apply map_Forall_empty|exact Hm].
Qed.

Lemma expression_maps_checked n m :
  deserialize_scalar_string_map n = Ok (Some m) ∨ deserialize_expression_map n = Ok (Some m) →
  map_Forall (λ _ value, Expressions.check_syntax value = Ok tt) m.
Proof using Type.
  intros [H|H]; (eapply read_option_map_all; [|exact H]); intros n' a (v & _ & [-> Hc]%checked_Ok)%result_bind_Ok; done.
Qed.

Lemma read_named_keys {V} check (read : node → result V wire_error) entries m m' :
  Forall (λ k, check k = true) m.*1 → NoDup m.*1 → read_named check read entries m = Ok m' →
  Forall (λ k, check k = true) m'.*1 ∧ NoDup m'.*1.
Proof using Type.
  revert m. induction entries as [|[key n] entries IH]; intros m Hc Hd; cbn [read_named]; [by intros [= <-]|].
  intros (key' & (_ & Hk%ensure_Ok & [= <-])%result_bind_Ok & H)%result_bind_Ok.
  apply result_bind_Ok in H as (v & _ & H). eapply IH, H.
  - rewrite im_insert_keys. case_bool_decide; [done|]. apply Forall_app. split; [done|by constructor].
  - by apply im_insert_NoDup.
Qed.

Lemma deserialize_named_keys {V} check (read : node → result V wire_error) n m :
  deserialize_named check read n = Ok m → Forall (λ k, check k = true) m.*1 ∧ NoDup m.*1.
Proof using Type. destruct n; try done. apply read_named_keys; constructor. Qed.

(** ** What is written is read back *)

Definition read_back (A : Type) `{!Wire A} : Prop :=
  (∀ x : A, wire_wf x → wire_of (wire_to x) = Ok x) ∧
  ∀ n (x : A), wire_of n = Ok x → wire_wf (settled x) ∧ wire_of (wire_to x) = Ok (settled x).

Lemma laws_read_back `{!Wire A, !WireLaws A} : read_back A.
Proof using Type.
  split; [apply wire_written|]. intros n x H. split; [by eapply wire_read|by eapply wire_read_back].
Qed.
End values.

(** C37: The values of a native file, read and written.  Each kind of value is written
    as a node that is read back as the same value, and every value a reader
    accepts, in whichever of its forms, is one that is: a compact volume comes back
    in the object form, a port mapping with its protocol, a limit with both of its
    bounds.  An object is accepted only where every key is a field of its kind and
    none is repeated; a mount has no field of another type of mount, and a local
    include none of a Git include.  Every value of a map of expressions is a well
    formed one, and every name of a map of named things is an allowed one, once. *)
Theorem wire_spec {serde : Serde} {laws : SerdeLaws} :
  reading_batect_format = false →
  (read_back DeviceMapping ∧ read_back VolumeMount ∧ read_back PortMapping ∧ read_back PortRange ∧
   read_back Ulimit ∧ read_back BuildSecret ∧ read_back IncludeEntry ∧ read_back Identity ∧
   read_back NetworkMode ∧ read_back NameOrId ∧ read_back Z ∧ read_back (list VolumeMount)) ∧
  (strict device_of ["local"; "container"; "options"] ∧
   strict ulimit_of ["name"; "soft"; "hard"] ∧
   strict volume_of ["local"; "container"; "options"; "name"; "type"; "scope"] ∧
   strict secret_of ["environment"; "path"] ∧
   strict port_mapping_of ["local"; "container"; "protocol"] ∧
   strict include_of include_fields ∧
   strict identity_of ["home"; "additional_users"] ∧
   strict additional_user_of additional_user_fields ∧
   strict run_as_current_user_of ["enabled"; "home_directory"]) ∧
  (∀ entries v, volume_of (NMap entries) = Ok v →
    match v with
    | LocalMount m => "name" ∉ entries.*1 ∧ "scope" ∉ entries.*1
    | CacheMount _ => "local" ∉ entries.*1
    | TmpfsMount _ => "local" ∉ entries.*1 ∧ "name" ∉ entries.*1 ∧ "scope" ∉ entries.*1
    end) ∧
  (∀ entries path, include_of (NMap entries) = Ok (FileInclude path) → entries.*1 ⊆ ["path"; "type"]) ∧
  (∀ n m, deserialize_scalar_string_map n = Ok (Some m) ∨ deserialize_expression_map n = Ok (Some m) →
    map_Forall (λ _ value, Expressions.check_syntax value = Ok tt) m) ∧
  (∀ V check (read : node → result V wire_error) n m, deserialize_named check read n = Ok m →
    Forall (λ k, check k = true) m.*1 ∧ NoDup m.*1).
Proof.
  intros native. pose proof (volume_laws native) as Hv.
  split; [split_and!; apply laws_read_back|]. split; [apply objects_strict|]. split_and!.
  - intros entries v H. apply (volume_of_map native) in H. destruct v; tauto.
  - apply file_include_fields.
  - apply expression_maps_checked.
  - intros V check read n m. apply deserialize_named_keys.
Qed.

Module Once.
(** A reader of nodes as they are, of a native file. *)
#[local] Instance plain_serde : Serde := {
  reading_batect_format := false;
  as_string n := match n with NStr v => Some v | _ => None end;
  derived_fields names entries :=
    if bool_decide (NoDup entries.*1 ∧ entries.*1 ⊆ names) then Some (list_to_map entries) else None;
}.
#[local] Instance plain_serde_laws : SerdeLaws.
Proof.
  split; [done|]. intros names entries fields. simpl. case_bool_decide; naive_solver.
Qed.

Definition compact_volume : node := NStr "./$src:/code:ro".

Lemma wire_spec_witness :
  volume_of compact_volume = Ok (LocalMount (mk_local_mount "./$src" "/code" (Some "ro") true)) ∧
  volume_of (volume_to (LocalMount (mk_local_mount "./$src" "/code" (Some "ro") true))) =
    Ok (LocalMount (mk_local_mount "./$src" "/code" (Some "ro") false)).
Proof.
  assert (volume_of compact_volume = Ok (LocalMount (mk_local_mount "./$src" "/code" (Some "ro") true))) as H
    by (vm_compute; reflexivity).
  split; [exact H|].
  exact (proj2 (proj2 (proj1 (proj2 (proj1 (wire_spec eq_refl)))) compact_volume _ H)).
Defined.
End Once.
