(* ===== verification/Durations.v ===== *)
(** * Durations: [parse_duration] of [ratect-core/src/config.rs]

    Its arithmetic is on [f64]s that are never negative.  Such a number is either
    infinite or a multiple of 2^-1074; a result is the exact one rounded to
    nearest, ties to even, at 53 significant bits. *)

From S2P Require Import Prelude Text.
From stdpp Require Import options.

(** ** [f64] *)

(** A finite number is how many times 2^-1074 it is. *)
Inductive f64 :=
| Finite (quanta : N)
| Infinite.
#[global] Instance f64_eq_dec : EqDecision f64.
Proof. solve_decision. Defined.

Definition one : N := 2 ^ 1074.
Definition overflow : N := 2 ^ 2098.

(** [p / q] to the nearest integer, ties to even. *)
Definition nearest (p q : N) : N :=
  let d := (p / q)%N in
  match (2 * (p mod q) ?= q)%N with
  | Lt => d
  | Gt => d + 1
  | Eq => if N.even d then d else d + 1
  end%N.

(** The [f64] nearest to [p / q]. *)
Definition round_f64 (p q : N) : f64 :=
  let scaled := (p * one)%N in
  let unit := (2 ^ (N.log2 (scaled / q) - 52))%N in
  let quanta := (unit * nearest scaled (q * unit))%N in
  if (overflow <=? quanta)%N then Infinite else Finite quanta.

Definition f64_of_int (n : N) : f64 := round_f64 n 1.

Definition f64_mul (a b : f64) : f64 :=
  match a, b with
  | Finite a, Finite b => round_f64 (a * b) (one * one)
  | _, _ => Infinite
  end.

Definition f64_add (a b : f64) : f64 :=
  match a, b with
  | Finite a, Finite b => round_f64 (a + b) one
  | _, _ => Infinite
  end.


(** [round() as u64]: halves away from zero, and what is above a [u64] is its
    maximum. *)
Definition f64_round_as_u64 (x : f64) : N :=
  match x with
  | Finite quanta => N.min u64_max ((2 * quanta + one) / (2 * one))
  | Infinite => u64_max
  end.

Definition f64_positive (x : f64) : bool := match x with Finite quanta => (0 <? quanta)%N | Infinite => true end.

(** ** [parse_unsigned_duration_nanos] *)

Inductive duration_error :=
| InvalidDuration (text : string)
| NoUnit (text number : string)
| NegativeDuration (text : string).
#[global] Instance duration_error_eq_dec : EqDecision duration_error.
Proof. solve_decision. Defined.

(** The micro sign is U+00B5; a text holds no Greek mu, the other spelling. *)
Definition UNITS : list (string * N) :=
  [("ns", 1); ("us", 1000); (String "181" "s", 1000); ("ms", 1000000);
   ("s", 1000000000); ("m", 60000000000); ("h", 3600000000000)]%N.

Definition number_char (c : ascii) : bool := is_ascii_digit c || Ascii.eqb c ".".

(** What [find] splits off: the digits and dots in front. *)
Fixpoint span_number (l : list ascii) : list ascii * list ascii :=
  match l with
  | c :: l => if number_char c then let '(number, rest) := span_number l in (c :: number, rest) else ([], c :: l)
  | [] => ([], [])
  end.

Definition dot : ascii := ".".

(** [parse::<f64>] of digits with at most one dot. *)
Definition f64_parse (number : list ascii) : f64 :=
  let fraction := match list_find (λ c, c = dot) number with Some (i, _) => length number - S i | None => 0 end in
  round_f64 (default 0%N (parse_digits 0 (filter (.≠ dot) number))) (10 ^ N.of_nat fraction).

(** The loop; one round for each component. *)
Fixpoint duration_loop (fuel : nat) (text : string) (remaining : list ascii) (total_nanos : f64)
    : option (result f64 duration_error) :=
  match remaining with
  | [] => Some (Ok total_nanos)
  | _ =>
      match fuel with
      | 0 => None
      | S fuel =>
          let '(number, unit_str) := span_number remaining in
          if negb (existsb is_ascii_digit number) || (1 <? length (filter (.= dot) number))
          then Some (Err (InvalidDuration text))
          else if bool_decide (unit_str = []) then Some (Err (NoUnit text (of_chars number)))
          else
            match list_find (λ e : string * N, starts_with e.1 (of_chars unit_str) = true) UNITS with
            | None => Some (Err (InvalidDuration text))
            | Some (_, (unit, multiplier)) =>
                duration_loop fuel text (drop (length (chars unit)) unit_str)
                  (f64_add total_nanos (f64_mul (f64_parse number) (f64_of_int multiplier)))
            end
      end
  end.

(** A component is not empty. *)
Definition parse_unsigned_duration_nanos (text unsigned : string) : option (result f64 duration_error) :=
  if bool_decide (unsigned = "0") then Some (Ok (Finite 0))
  else if bool_decide (unsigned = EmptyString) then Some (Err (InvalidDuration text))
  else duration_loop (length (chars unsigned)) text (chars unsigned) (Finite 0).

(** ** [parse_duration], [duration_string] *)

Definition parse_duration (text : string) : option (result N duration_error) :=
  let '(negative, unsigned) :=
    match strip_prefix "-" text with
    | Some rest => (true, rest)
    | None => (false, default text (strip_prefix "+" text))
    end in
  r ← parse_unsigned_duration_nanos text unsigned;
  Some (let? total_nanos := r in
        let? _ := ensure (negb (negative && f64_positive total_nanos)) (NegativeDuration text) in
        Ok (f64_round_as_u64 total_nanos)).

(** What [serialize] writes: whole nanoseconds. *)
Definition duration_show (nanos : N) : string := show_N nanos +:+ "ns".

Example one_and_a_half : parse_duration "1m1.5s" = Some (Ok 61500000000%N).
Proof. vm_compute. reflexivity. Qed.
Example unitless : parse_duration "5" = Some (Err (NoUnit "5" "5")).
Proof. vm_compute. reflexivity. Qed.
(** Above 2^53 nanoseconds, some hundred days, a text is read to the nearest [f64]. *)
Example nearest_f64 : parse_duration "9007199254740993ns" = Some (Ok 9007199254740992%N).
Proof. vm_compute. reflexivity. Qed.
Example saturates : parse_duration "99999999999999h" = Some (Ok u64_max).
Proof. vm_compute. reflexivity. Qed.
Example tenth : parse_duration ".1h" = Some (Ok 360000000000%N).
Proof. vm_compute. reflexivity. Qed.

(** ** What a duration is read as

    A total of whole units is exact up to 2^53 nanoseconds, and every duration a
    configuration can hold is written as a text that is read as it again. *)

(** *** Rounding *)

(** A number of at most 53 significant bits. *)
Definition representable (k : N) : Prop := ∃ m s, k = (m * 2 ^ s)%N ∧ (m ≤ 2 ^ 53)%N.

Lemma nearest_exact a q : (0 < q)%N → nearest (a * q) q = a.
Proof.
  intros Hq. unfold nearest. rewrite N.div_mul, N.Div0.mod_mul by lia.
  destruct (N.compare_spec (2 * 0) q); lia.
Qed.

Lemma nearest_le p q b : (0 < q)%N → (p / q < b)%N → (nearest p q ≤ b)%N.
Proof. intros Hq Hb. unfold nearest. repeat case_match; lia. Qed.

Lemma log2_unit f : (f / 2 ^ (N.log2 f - 52) < 2 ^ 53)%N.
Proof.
  destruct (decide (f = 0%N)) as [->|Hf]; [done|].
  apply N.Div0.div_lt_upper_bound. rewrite <-N.pow_add_r.
  destruct (N.log2_spec f) as [_ H]; [lia|]. eapply N.lt_le_trans; [exact H|]. apply N.pow_le_mono_r; lia.
Qed.

Lemma pow2_pos n : (0 < 2 ^ n)%N.
Proof. apply N.neq_0_lt_0, N.pow_nonzero. lia. Qed.

Lemma round_representable p q k : (0 < q)%N → round_f64 p q = Finite k → representable k.
Proof.
  intros Hq. unfold round_f64. case_match; [done|]. intros [= <-].
  set (s := (N.log2 (p * one / q) - 52)%N). exists (nearest (p * one) (q * 2 ^ s)), s. split; [lia|].
  apply nearest_le; [pose proof (pow2_pos s); nia|]. rewrite <-N.Div0.div_div. apply log2_unit.
Qed.

Lemma representable_unit k : representable k → ∃ a, k = (a * 2 ^ (N.log2 k - 52))%N.
Proof.
  intros (m & s & -> & Hm). destruct (decide (m = 0%N)) as [->|Hm0]; [by exists 0%N|].
  set (k := (m * 2 ^ s)%N). assert (N.log2 k - 52 ≤ s ∨ m = 2 ^ 53 ∧ N.log2 k - 52 ≤ 53 + s)%N as [Hs|[Hm' Hs]].
  - unfold k. rewrite N.log2_mul_pow2 by lia. destruct (decide (m = 2 ^ 53)%N) as [->|Hne].
    + right. split; [done|]. rewrite N.log2_pow2 by lia. lia.
    + left. assert (N.log2 m < 53)%N by (apply N.log2_lt_pow2; lia). lia.
  - exists (m * 2 ^ (s - (N.log2 k - 52)))%N. rewrite <-N.mul_assoc, <-N.pow_add_r. unfold k at 1. do 2 f_equal. lia.
  - exists (2 ^ (53 + s - (N.log2 k - 52)))%N. rewrite <-N.pow_add_r. unfold k at 1. rewrite Hm', <-N.pow_add_r.
    f_equal. lia.
Qed.

(** What is exact is not rounded. *)
Lemma round_exact p q k :
  (0 < q)%N → (p * one = k * q)%N → representable k → (k < overflow)%N → round_f64 p q = Finite k.
Proof.
  intros Hq E Hk Ho. unfold round_f64. rewrite E, N.div_mul by lia.
  destruct (representable_unit k Hk) as [a Ha]. set (u := (2 ^ (N.log2 k - 52))%N) in *.
  assert (nearest (k * q) (q * u) = a) as ->.
  { rewrite Ha, <-N.mul_assoc, (N.mul_comm u). apply nearest_exact. unfold u. pose proof (pow2_pos (N.log2 k - 52)). nia. }
  rewrite (N.mul_comm u), <-Ha. destruct (N.leb_spec overflow k); [lia|done].
Qed.

Definition well_formed (x : f64) : Prop :=
  match x with Finite k => representable k ∧ (k < overflow)%N | Infinite => True end.

Lemma round_well_formed p q : (0 < q)%N → well_formed (round_f64 p q).
Proof.
  intros Hq. destruct (round_f64 p q) as [k|] eqn:E; [|done]. split; [by eapply round_representable|].
  unfold round_f64 in E. destruct (N.leb_spec overflow (2 ^ (N.log2 (p * one / q) - 52) *
    nearest (p * one) (q * 2 ^ (N.log2 (p * one / q) - 52)))); [done|]. by injection E as <-.
Qed.

Lemma one_pos : (0 < one)%N.
Proof. apply pow2_pos. Qed.

Lemma integer_representable n : (n ≤ 2 ^ 53)%N → representable (n * one).
Proof. intros Hn. by exists n, 1074%N. Qed.

Lemma integer_small n : (n ≤ 2 ^ 53)%N → (n * one < overflow)%N.
Proof.
  intros Hn. unfold one, overflow. eapply N.le_lt_trans; [apply N.mul_le_mono_r; exact Hn|].
  rewrite <-N.pow_add_r. apply N.pow_lt_mono_r; lia.
Qed.

Lemma of_int_exact n : (n ≤ 2 ^ 53)%N → round_f64 n 1 = Finite (n * one).
Proof. intros Hn. apply round_exact; [lia|lia|by apply integer_representable|by apply integer_small]. Qed.

Lemma mul_exact a b : (a * b ≤ 2 ^ 53)%N → f64_mul (Finite (a * one)) (Finite (b * one)) = Finite (a * b * one).
Proof.
  intros Hn. pose proof one_pos. apply round_exact; [nia|ring|by apply integer_representable|by apply integer_small].
Qed.

Lemma add_exact a b : (a + b ≤ 2 ^ 53)%N → f64_add (Finite (a * one)) (Finite (b * one)) = Finite ((a + b) * one).
Proof.
  intros Hn. pose proof one_pos. apply round_exact; [done|ring|by apply integer_representable|by apply integer_small].
Qed.

Lemma mul_one k : representable k → (k < overflow)%N → f64_mul (Finite k) (Finite (1 * one)) = Finite k.
Proof. intros Hk Ho. pose proof one_pos. apply round_exact; [nia|ring|done|done]. Qed.

Lemma add_zero k : representable k → (k < overflow)%N → f64_add (Finite 0) (Finite k) = Finite k.
Proof. intros Hk Ho. pose proof one_pos. apply round_exact; [done|ring|done|done]. Qed.

Lemma nanos_integer n : f64_round_as_u64 (Finite (n * one)) = N.min u64_max n.
Proof.
  unfold f64_round_as_u64. f_equal. pose proof one_pos.
  replace (2 * (n * one) + one)%N with (one + n * (2 * one))%N by ring.
  rewrite N.div_add by lia. rewrite N.div_small by lia. lia.
Qed.

(** A duration, as an [f64] of nanoseconds, is that duration. *)
Lemma nanos_kept x : well_formed x → f64_round_as_u64 (round_f64 (f64_round_as_u64 x) 1) = f64_round_as_u64 x.
Proof.
  intros Hx. set (d := f64_round_as_u64 x). assert (d ≤ u64_max)%N as Hmax by (destruct x; simpl in d; lia).
  destruct (decide (d ≤ 2 ^ 53)%N) as [Hsmall|Hbig]; [rewrite of_int_exact, nanos_integer by done; lia|].
  destruct (decide (d = u64_max)) as [->|Hne]; [vm_compute; reflexivity|].
  destruct x as [k|]; [|done]. destruct Hx as [(m & s & -> & Hm) Ho]. unfold d in *. cbn [f64_round_as_u64] in *.
  set (r := ((2 * (m * 2 ^ s) + one) / (2 * one))%N) in *. assert (d = r) as Hd by (unfold d; lia).
  assert (2 ^ 53 < r)%N as Hr by lia. pose proof one_pos as Hone.
  assert (2 ^ 53 * one < m * 2 ^ s)%N as Hk.
  { pose proof (N.Div0.mul_div_le (2 * (m * 2 ^ s) + one) (2 * one)) as Hle. fold r in Hle. nia. }
  assert (1074 < s)%N as Hs.
  { destruct (decide (s ≤ 1074)%N) as [Hs|]; [|lia]. exfalso.
    assert (2 ^ s ≤ one)%N by (apply N.pow_le_mono_r; lia). nia. }
  set (j := (m * 2 ^ (s - 1074))%N). assert (m * 2 ^ s = j * one)%N as Ej.
  { unfold j, one. rewrite <-N.mul_assoc, <-N.pow_add_r. do 2 f_equal. lia. }
  assert (r = j) as Hrj.
  { unfold r. rewrite Ej. replace (2 * (j * one) + one)%N with (one + j * (2 * one))%N by ring.
    rewrite N.div_add by lia. rewrite N.div_small by lia. lia. }
  replace (N.min u64_max r) with j by lia. rewrite (round_exact j 1 (j * one)); [rewrite nanos_integer; lia|lia|lia| |lia].
  rewrite <-Ej. by exists m, s.
Qed.

(** *** Reading *)

Lemma span_number_app l c rest :
  Forall (λ c, number_char c = true) l → number_char c = false → span_number (l ++ c :: rest) = (l, c :: rest).
Proof. intros Hl Hc. induction Hl as [|d l Hd Hl IH]; simpl; [by rewrite Hc|]. by rewrite Hd, IH. Qed.

Lemma span_number_split l number rest : span_number l = (number, rest) → l = number ++ rest.
Proof.
  revert number. induction l as [|c l IH]; intros number; simpl; [by intros [= <- <-]|].
  destruct (number_char c); [|by intros [= <- <-]]. destruct (span_number l) as [n r]. intros [= <- <-].
  simpl. f_equal. by apply IH.
Qed.

Lemma shown_digits n : Forall (λ c, is_ascii_digit c = true) (chars (show_N n)).
Proof. apply Forall_forall. intros c. apply show_N_digits. Qed.

Lemma digit_not_dot c : is_ascii_digit c = true → c ≠ dot.
Proof. by intros H ->. Qed.

Lemma f64_parse_shown n : f64_parse (chars (show_N n)) = f64_of_int n.
Proof.
  unfold f64_parse, f64_of_int. pose proof (shown_digits n) as Hd.
  assert (list_find (λ c, c = dot) (chars (show_N n)) = None) as ->.
  { apply list_find_None. eapply Forall_impl; [exact Hd|]. apply digit_not_dot. }
  assert (filter (.≠ dot) (chars (show_N n)) = chars (show_N n)) as ->.
  { revert Hd. generalize (chars (show_N n)). induction 1 as [|c l Hc Hl IH]; [done|].
    rewrite filter_cons_True by by apply digit_not_dot. by rewrite IH. }
  by rewrite parse_shown.
Qed.

(** What may follow a unit: nothing, or the next number. *)
Definition number_next (rest : list ascii) : Prop :=
  rest = [] ∨ ∃ n rest', rest = chars (show_N n) ++ rest'.

Lemma find_unit (u : string) m rest :
  (u, m) ∈ UNITS → number_next rest →
  ∃ i, list_find (λ e : string * N, starts_with e.1 (of_chars (chars u ++ rest)) = true) UNITS = Some (i, (u, m)).
Proof.
  intros Hu Hrest.
  assert (rest = [] ∨ ∃ d rest', (d < 10)%N ∧ rest = digit_char d :: rest') as [->|(d & rest' & Hd & ->)].
  { destruct Hrest as [->|(n & rest' & ->)]; [by left|right].
    destruct (chars (show_N n)) as [|c l] eqn:E.
    { exfalso. apply (show_N_nonempty n). by rewrite <-(of_chars_chars (show_N n)), E. }
    destruct (show_N_digit n c) as (d & Hd & ->); [rewrite E; by left|]. eauto. }
  - unfold UNITS in Hu. repeat (apply elem_of_cons in Hu as [[= -> ->]|Hu]; [eexists; reflexivity|]).
    by apply elem_of_nil in Hu.
  - assert (Forall (λ d, ∀ um, um ∈ UNITS → ∃ i,
      list_find (λ e : string * N, starts_with e.1 (of_chars (chars um.1 ++ digit_char d :: rest')) = true) UNITS = Some (i, um))
      [0;1;2;3;4;5;6;7;8;9]%N) as H.
    { repeat constructor; intros um Hum; unfold UNITS in Hum;
        repeat (apply elem_of_cons in Hum as [->|Hum]; [eexists; reflexivity|]); by apply elem_of_nil in Hum. }
    refine (proj1 (Forall_forall _ _) H d _ (u, m) Hu).
    assert (d = 0 ∨ d = 1 ∨ d = 2 ∨ d = 3 ∨ d = 4 ∨ d = 5 ∨ d = 6 ∨ d = 7 ∨ d = 8 ∨ d = 9)%N as Hd' by lia.
    rewrite !elem_of_cons. tauto.
Qed.

(** One component of whole units. *)
Lemma duration_loop_component fuel text n (u : string) m rest total :
  (u, m) ∈ UNITS → number_next rest →
  duration_loop (S fuel) text (chars (show_N n) ++ chars u ++ rest) total =
  duration_loop fuel text rest (f64_add total (f64_mul (f64_of_int n) (f64_of_int m))).
Proof.
  intros Hu Hrest. pose proof (shown_digits n) as Hd.
  assert (∃ c l, chars u = c :: l ∧ number_char c = false) as (c & l & Ec & Hc).
  { unfold UNITS in Hu. repeat (apply elem_of_cons in Hu as [[= -> ->]|Hu]; [by eexists _, _|]). by apply elem_of_nil in Hu. }
  destruct (chars (show_N n)) as [|d digits] eqn:En.
  { exfalso. apply (show_N_nonempty n). by rewrite <-(of_chars_chars (show_N n)), En. }
  rewrite Ec. cbn [duration_loop app]. change (d :: digits ++ c :: l ++ rest) with ((d :: digits) ++ c :: (l ++ rest)).
  rewrite span_number_app; [|eapply Forall_impl; [exact Hd|]; unfold number_char; by intros ? ->|done].
  assert (existsb is_ascii_digit (d :: digits) = true) as ->.
  { apply Forall_cons in Hd as [Hd _]. simpl. by rewrite Hd. }
  assert (filter (.= dot) (d :: digits) = []) as ->.
  { clear -Hd. induction Hd as [|c l Hc Hl IH]; [done|]. by rewrite filter_cons_False by by apply digit_not_dot. }
  cbn [negb orb length Nat.ltb Nat.leb]. rewrite bool_decide_false by done.
  change (c :: l ++ rest) with ((c :: l) ++ rest). rewrite <-Ec.
  destruct (find_unit u m rest Hu Hrest) as [i ->]. rewrite drop_app_length. by rewrite <-En, f64_parse_shown.
Qed.

(** A duration as components of whole units. *)
Notation component := (N * (string * N))%type.

Definition components_text (cs : list component) : string :=
  foldr (λ c text, show_N c.1 +:+ c.2.1 +:+ text) EmptyString cs.

Definition total (cs : list component) : N := foldr (λ c n, c.1 * c.2.2 + n)%N 0%N cs.

Lemma components_next cs : number_next (chars (components_text cs)).
Proof.
  destruct cs as [|[n u] cs]; [by left|right]. exists n. eexists. cbn [components_text foldr]. by rewrite chars_app.
Qed.

Lemma components_length cs : Forall (λ c, c.2 ∈ UNITS) cs → 2 * length cs ≤ length (chars (components_text cs)).
Proof.
  induction 1 as [|[n [u m]] cs Hu Hcs IH]; [done|]. cbn [components_text foldr fst snd]. fold (components_text cs).
  rewrite !chars_app, !length_app. destruct (chars (show_N n)) as [|c l] eqn:E.
  { exfalso. apply (show_N_nonempty n). by rewrite <-(of_chars_chars (show_N n)), E. }
  assert (0 < length (chars u)); [|simpl in *; lia].
  unfold UNITS in Hu. repeat (apply elem_of_cons in Hu as [[= -> ->]|Hu]; [simpl; lia|]). by apply elem_of_nil in Hu.
Qed.

Lemma duration_loop_components text cs fuel n :
  Forall (λ c, c.2 ∈ UNITS) cs → length cs ≤ fuel → (n + total cs ≤ 2 ^ 53)%N →
  duration_loop fuel text (chars (components_text cs)) (Finite (n * one)) =
  Some (Ok (Finite ((n + total cs) * one))).
Proof.
  intros Hcs. revert fuel n. induction Hcs as [|[k [u m]] cs Hu Hcs IH]; intros fuel n Hf Hn.
  { cbn [total foldr] in *. rewrite N.add_0_r. by destruct fuel. }
  destruct fuel as [|fuel]; [simpl in Hf; lia|]. cbn [components_text foldr fst snd total] in *. fold (total cs) in *.
  fold (components_text cs). rewrite !chars_app, (duration_loop_component fuel text k u m) by (done || apply components_next).
  assert (m ≤ 2 ^ 53)%N as Hm.
  { unfold UNITS in Hu. repeat (apply elem_of_cons in Hu as [[= _ ->]|Hu]; [vm_compute; discriminate|]). by apply elem_of_nil in Hu. }
  assert (0 < m)%N as Hm0.
  { unfold UNITS in Hu. repeat (apply elem_of_cons in Hu as [[= _ ->]|Hu]; [lia|]). by apply elem_of_nil in Hu. }
  assert (k ≤ k * m)%N by nia.
  unfold f64_of_int. rewrite !of_int_exact, mul_exact, add_exact by lia.
  rewrite IH by (simpl in Hf; lia). do 3 f_equal. lia.
Qed.

Lemma duration_loop_Some fuel text remaining t :
  length remaining ≤ fuel → well_formed t →
  ∃ r, duration_loop fuel text remaining t = Some r ∧ ∀ x, r = Ok x → well_formed x.
Proof.
  revert remaining t. induction fuel as [|fuel IH]; intros [|c l] t Hl Ht; cbn [duration_loop];
    try (eexists; split; [done|]; by intros x [= <-]); [simpl in Hl; lia|].
  destruct (span_number (c :: l)) as [number rest] eqn:E. apply span_number_split in E.
  destruct (negb _ || _) eqn:Hn; [by eexists; split; [done|]|]. case_bool_decide; [by eexists; split; [done|]|].
  destruct (list_find _ UNITS) as [[i [u m]]|]; [|by eexists; split; [done|]].
  apply IH.
  - apply orb_false_iff in Hn as [Hn _]. destruct number as [|d number]; [done|].
    apply (f_equal length) in E. rewrite length_app in E. rewrite length_drop. simpl in *. lia.
  - destruct t as [a|]; [|done]. destruct (f64_mul (f64_parse number) (f64_of_int m)) as [b|]; [|done].
    apply round_well_formed, one_pos.
Qed.

Lemma parse_unsigned_Some_wf text unsigned :
  ∃ r, parse_unsigned_duration_nanos text unsigned = Some r ∧ ∀ x, r = Ok x → well_formed x.
Proof.
  unfold parse_unsigned_duration_nanos. assert (well_formed (Finite 0)) as H0.
  { split; [by exists 0%N, 0%N|]. apply pow2_pos. }
  case_bool_decide; [eexists; split; [done|]; by intros x [= <-]|].
  case_bool_decide; [by eexists; split; [done|]|]. by apply duration_loop_Some.
Qed.

(** A text that starts with a number has no sign. *)
Lemma parse_unsigned_text n s :
  parse_duration (show_N n +:+ s) =
  r ← parse_unsigned_duration_nanos (show_N n +:+ s) (show_N n +:+ s);
  Some (let? total_nanos := r in Ok (f64_round_as_u64 total_nanos)).
Proof.
  assert (∀ c, is_ascii_digit c = false → strip_prefix (String c EmptyString) (show_N n +:+ s) = None) as Hsign.
  { intros c Hc. destruct (strip_prefix _ _) as [t|] eqn:E; [|done]. apply strip_prefix_Some in E. exfalso.
    destruct (show_N n) as [|a s'] eqn:Es; [by apply (show_N_nonempty n)|]. injection E as -> _.
    pose proof (show_N_digits n c) as Hd. rewrite Es in Hd. rewrite Hd in Hc; [done|by left]. }
  unfold parse_duration. by rewrite !Hsign.
Qed.

(** A component is more than a bare zero. *)
Lemma parse_component text n (u : string) m s :
  (u, m) ∈ UNITS →
  parse_unsigned_duration_nanos text (show_N n +:+ u +:+ s) =
  duration_loop (S (S (length (chars (show_N n +:+ u +:+ s)) - 2))) text
    (chars (show_N n) ++ chars u ++ chars s) (Finite (0 * one)).
Proof.
  intros Hu. assert (2 ≤ length (chars (show_N n +:+ u +:+ s))) as Hl.
  { rewrite !chars_app, !length_app. destruct (chars (show_N n)) as [|c l] eqn:E.
    { exfalso. apply (show_N_nonempty n). by rewrite <-(of_chars_chars (show_N n)), E. }
    unfold UNITS in Hu. repeat (apply elem_of_cons in Hu as [[= -> ->]|Hu]; [simpl; lia|]). by apply elem_of_nil in Hu. }
  unfold parse_unsigned_duration_nanos. rewrite !bool_decide_false.
  - rewrite <-!chars_app. f_equal. lia.
  - intros E. rewrite E in Hl. simpl in Hl. lia.
  - intros E. rewrite E in Hl. simpl in Hl. lia.
Qed.

(** What [duration_string] writes for what was read is read as the same. *)
Lemma duration_shown x :
  well_formed x →
  parse_duration (duration_show (f64_round_as_u64 x)) = Some (Ok (f64_round_as_u64 x)).
Proof.
  intros Hx. set (d := f64_round_as_u64 x). unfold duration_show. rewrite parse_unsigned_text.
  change ("ns" : string) with ("ns" +:+ EmptyString). rewrite (parse_component _ d "ns" 1) by by left.
  rewrite (duration_loop_component _ _ d "ns" 1) by (by left). cbn [duration_loop chars].
  assert (f64_add (Finite (0 * one)) (f64_mul (f64_of_int d) (f64_of_int 1)) = f64_of_int d) as ->.
  { unfold f64_of_int at 2. rewrite (of_int_exact 1) by lia. unfold f64_of_int.
    pose proof (round_well_formed d 1) as Hw. destruct (round_f64 d 1) as [k|]; [|done].
    destruct Hw as [Hk Ho]; [lia|]. by rewrite mul_one, N.mul_0_l, add_zero. }
  unfold f64_of_int, d. change (chars EmptyString) with (@nil ascii). cbn [mbind option_bind result_bind].
  by rewrite nanos_kept.
Qed.

(** C38: Durations.  Reading one always ends, with no more than a [u64] of
    nanoseconds; one with a minus sign is refused unless it is zero.  A sum of whole
    components of at most 2^53 nanoseconds is read exactly, however it is split into
    units.  And whatever was read, rounded or not, is written as a text that is
    read as the same duration. *)
Theorem durations_spec :
  (∀ text, ∃ r, parse_duration text = Some r ∧
    ∀ d, r = Ok d → (d ≤ u64_max)%N ∧ (starts_with "-" text = true → d = 0%N) ∧
      parse_duration (duration_show d) = Some (Ok d)) ∧
  (∀ cs, cs ≠ [] → Forall (λ c, c.2 ∈ UNITS) cs → (total cs ≤ 2 ^ 53)%N →
    parse_duration (components_text cs) = Some (Ok (total cs))).
Proof.
  split.
  - intros text. unfold parse_duration at 1.
    destruct (match strip_prefix "-" text with Some rest => _ | None => _ end) as [negative unsigned] eqn:Es.
    destruct (parse_unsigned_Some_wf text unsigned) as (r & -> & Hr). eexists. split; [done|].
    intros d (x & -> & H)%result_bind_Ok. apply result_bind_Ok in H as ([] & Hn%ensure_Ok & [= <-]).
    split_and!.
    + destruct x; simpl; lia.
    + intros Hst. apply starts_with_true in Hst as [t ->]. rewrite (proj2 (strip_prefix_Some _ _ t)) in Es by done.
      injection Es as <- <-. destruct x as [k|]; [|done]. simpl in Hn. destruct (N.ltb_spec 0 k); [done|].
      assert (k = 0%N) as -> by lia. vm_compute. done.
    + by apply duration_shown, Hr.
  - intros [|[n [u m]] cs] Hne Hcs Ht; [done|]. assert ((u, m) ∈ UNITS) as Hu by by apply Forall_cons in Hcs as [? _].
    cbn [components_text foldr fst snd]. rewrite parse_unsigned_text, (parse_component _ n u m) by done.
    rewrite <-!chars_app. change (show_N n +:+ u +:+ _) with (components_text ((n, (u, m)) :: cs)).
    rewrite duration_loop_components; [|done| |lia].
    + cbn [mbind option_bind result_bind]. rewrite N.add_0_l, nanos_integer. do 2 f_equal. unfold u64_max. lia.
    + pose proof (components_length _ Hcs) as Hlen. cbn [length] in Hlen |- *. lia.
Qed.

(** Ninety seconds, in two units. *)
Lemma durations_spec_witness :
  parse_duration "1m30s" = Some (Ok 90000000000%N).
Proof.
  refine (proj2 durations_spec [(1, ("m", 60000000000)); (30, ("s", 1000000000))]%N _ _ _).
  - discriminate.
  - repeat constructor; vm_compute.
  - vm_compute. discriminate.
Defined.
