(* ===== verification/Displays.v ===== *)
(** * Displays: what Ratect writes to its terminal

    [ratect-core/src/ui.rs] and [ui/raw_mode.rs]: the output style and the colours an
    invocation gets, texts and how values go into them, the bytes a line is written
    as; then the events a run posts, and the styles that only append: [quiet],
    [simple] ([ui/simple.rs]) and [all] ([ui/interleaved.rs]), with what a load
    prints itself.  A sink is a state, and posting an event gives the next state and
    the writes made. *)

From S2P Require Import Prelude Text Collections Paths IncludeTrust Outcome.
From S2P Require CheckScript ContainerRequest DockerClient.
From stdpp Require Import options.

(** ** Output styles *)

Inductive OutputStyle := Fancy | Simple | Quiet | All.
#[global] Instance OutputStyle_eq_dec : EqDecision OutputStyle.
Proof. solve_decision. Defined.

Inductive ProgressStream := Stdout | Stderr.
#[global] Instance ProgressStream_eq_dec : EqDecision ProgressStream.
Proof. solve_decision. Defined.

Definition stream_name (s : ProgressStream) : string :=
  match s with Stdout => "stdout" | Stderr => "stderr" end.

Record TerminalFacts := mk_terminal_facts {
  tf_term : option string;
  tf_stdout_is_terminal : bool;
  tf_stderr_is_terminal : bool;
  tf_console_dimensions_available : bool;
}.

Definition is_terminal (t : TerminalFacts) (stream : ProgressStream) : bool :=
  match stream with Stdout => tf_stdout_is_terminal t | Stderr => tf_stderr_is_terminal t end.

Definition resolve_no_color (cli_flag : bool) (env : string → option string) : bool :=
  cli_flag || bool_decide (is_Some (env "NO_COLOR")).

Inductive ColorMode := Auto | Off | ForcedOn.
#[global] Instance ColorMode_eq_dec : EqDecision ColorMode.
Proof. solve_decision. Defined.

Definition resolve_color_mode (no_color : bool) (env : string → option string) : ColorMode :=
  if no_color then Off
  else match env "CLICOLOR_FORCE" with
    | Some value => if decide (value = "0") then Auto else ForcedOn
    | None => Auto
    end.

Definition enables_color (mode : ColorMode) (terminal : bool) : bool :=
  match mode with Off => false | ForcedOn => true | Auto => terminal end.

Definition explicit_fancy_refusal (t : TerminalFacts) (progress : ProgressStream) : option string :=
  if negb (is_terminal t progress) then Some (stream_name progress +:+ " isn't a terminal")
  else if bool_decide (tf_term t = Some "dumb") then Some "TERM is 'dumb'"
  else if negb (tf_console_dimensions_available t) then Some "the terminal size can't be determined"
  else None.

Definition supports_interactivity (t : TerminalFacts) (progress : ProgressStream) : bool :=
  bool_decide (is_Some (tf_term t)) && bool_decide (explicit_fancy_refusal t progress = None).

Definition select_output_style (requested : option OutputStyle) (no_color : bool) (t : TerminalFacts)
    (progress : ProgressStream) : OutputStyle :=
  match requested with
  | Some style => style
  | None => if supports_interactivity t progress && negb no_color then Fancy else Simple
  end.

(** ** Texts *)

Definition NEWLINE : ascii := ascii_of_N 10.
Definition TAB : ascii := ascii_of_N 9.
Definition RETURN : ascii := ascii_of_N 13.
Definition ESC : ascii := ascii_of_N 27.

(** [Text], made by [Text::raw]. *)
Record Text := raw { as_str : string }.
#[global] Instance Text_eq_dec : EqDecision Text.
Proof. solve_decision. Defined.

(** [From<&str>]: a line or a message, its line breaks and tabs kept. *)
Definition Text_from (text : string) : Text :=
  raw (escape_controls text (λ c, bool_decide (c ≠ NEWLINE) && bool_decide (c ≠ TAB))).

Class ToText (A : Type) := to_text : A → Text.
#[export] Instance string_to_text : ToText string := λ s, raw (printable s).
#[export] Instance text_to_text : ToText Text := λ t, t.
#[export] Instance Z_to_text : ToText Z := λ z, raw (DockerClient.show_Z z).
#[export] Instance nat_to_text : ToText nat := λ n, raw (show_nat n).

(** [text!]: its literal parts and its arguments. *)
Definition text (parts : list Text) : Text := raw (of_chars (parts ≫= λ p, chars (as_str p))).

Definition text_join (items : list Text) (separator : string) : Text := raw (join separator (as_str <$> items)).

Inductive Color := Red | Green | Yellow | Blue | Magenta | Cyan.
#[global] Instance Color_eq_dec : EqDecision Color.
Proof. solve_decision. Defined.

Definition ansi_code (c : Color) : string :=
  match c with
  | Red => "31" | Green => "32" | Yellow => "33" | Blue => "34" | Magenta => "35" | Cyan => "36"
  end.

(** ** Raw mode *)

Fixpoint translate (previous : option ascii) (bytes : list ascii) : list ascii :=
  match bytes with
  | [] => []
  | byte :: bytes =>
      (if bool_decide (byte = NEWLINE) && bool_decide (previous ≠ Some RETURN) then [RETURN; byte] else [byte])
        ++ translate (Some byte) bytes
  end.

(** What a writer that is a terminal is given of [bytes] while raw mode is [active]. *)
Definition line_endings (active : bool) (bytes : list ascii) (terminal : bool) : list ascii :=
  if negb (terminal && active) || bool_decide (NEWLINE ∉ bytes) then bytes else translate None bytes.

(** ** Consoles *)

Record Console := mk_console {
  cn_stream : ProgressStream;
  cn_color_enabled : bool;
  cn_is_terminal : bool;
}.

#[global] Instance Console_eq_dec : EqDecision Console.
Proof. solve_decision. Defined.

Definition for_stream (stream : ProgressStream) (mode : ColorMode) (t : TerminalFacts) : Console :=
  mk_console stream (enables_color mode (is_terminal t stream)) (is_terminal t stream).

Inductive io_kind := BrokenPipe | OtherKind.
#[global] Instance io_kind_eq_dec : EqDecision io_kind.
Proof. solve_decision. Defined.

(** Whether the reader of a console has gone, after one more write. *)
Definition note_failure (reader_gone : bool) (result : result () io_kind) : bool :=
  reader_gone || bool_decide (result = Err BrokenPipe).

(** [text], in SGR [code] line by line. *)
Definition styled (c : Console) (code : string) (t : Text) : Text :=
  if negb (cn_color_enabled c) then t
  else raw (join (of_chars [NEWLINE]) ((λ line,
    if decide (line = EmptyString) then EmptyString
    else of_chars (ESC :: chars "[") +:+ code +:+ "m" +:+ line +:+ of_chars (ESC :: chars "[0m"))
    <$> split NEWLINE (as_str t))).

Definition bold {A} `{ToText A} (c : Console) (a : A) : Text := styled c "1" (to_text a).
Definition colored {A} `{ToText A} (c : Console) (color : Color) (a : A) : Text :=
  styled c (ansi_code color) (to_text a).
Definition bold_colored {A} `{ToText A} (c : Console) (color : Color) (a : A) : Text :=
  styled c ("1;" +:+ ansi_code color) (to_text a).

(** One write: the console and the text, before line endings. *)
Definition write : Type := Console * list ascii.

Definition println (c : Console) (line : Text) : write := (c, chars (as_str line) ++ [NEWLINE]).
Definition print (c : Console) (t : Text) : write := (c, chars (as_str t)).

(** The bytes a write puts on its stream. *)
Definition written (active : bool) (w : write) : list ascii := line_endings active w.2 (cn_is_terminal w.1).

Definition error_line (c : Console) (message : Text) : write :=
  println c (text [bold_colored c Red (raw "Error:"); raw " "; message]).
Definition warning {A} `{ToText A} (c : Console) (message : A) : write :=
  println c (text [bold_colored c Yellow (raw "Warning:"); raw " "; to_text message]).
Definition notice {A} `{ToText A} (c : Console) (message : A) : write := println c (to_text message).

(** ** Phrases the styles share *)

(** A guard that fires once: whether it fires now, and what it is left as. *)
Definition fire_once (flag : bool) : bool * bool := (negb flag, true).

Definition cleaning_up (c : Console) (cause : option CleanupCause) : Text :=
  let name (s : string) := bold c s in
  let number (z : Z) := bold c (DockerClient.show_Z z) in
  let after (parts : list Text) := text [raw "Cleaning up after "; text parts; raw "..."] in
  match cause with
  | None => raw "Cleaning up..."
  | Some (Exited task exit_code) => after [name task; raw " exited with code "; number exit_code]
  | Some (ImagePullFailed container) => after [name container; raw "'s image failed to pull"]
  | Some (ImageBuildFailed container) => after [name container; raw "'s image failed to build"]
  | Some (CreateFailed container) => after [name container; raw " failed to be created"]
  | Some (StartFailed container) => after [name container; raw " failed to start"]
  | Some (NotHealthy container) => after [name container; raw " did not become healthy"]
  | Some (SetupCommandExited container index exit_code) =>
      after [name container; raw "'s setup command "; to_text index; raw " exited with code "; number exit_code]
  | Some (SetupCommandNotRun container index) =>
      after [name container; raw "'s setup command "; to_text index; raw " could not be run"]
  | Some (DependencyExited container exit_code) => after [name container; raw " exited with code "; number exit_code]
  | Some (TaskFailedCause task) => after [name task; raw " failed"]
  end.

Definition command (c : Console) (cmd : string) : Text := bold c (Text_from cmd).

Definition nothing_more_to_do (c : Console) (task : string) : Text :=
  text [raw "The task "; bold c task; raw " only defines prerequisite tasks, nothing more to do."].

(** A duration, in nanoseconds, by its [f64] seconds. *)
Definition tenths (f : SpecFloat.spec_float) : N :=
  match f with
  | SpecFloat.S754_finite _ m (Zneg e) => CheckScript.div_half_even (N.pos m * 10) (2 ^ N.pos e)
  | SpecFloat.S754_finite _ m e => N.pos m * 10 * 2 ^ Z.to_N e
  | _ => 0
  end%N.

Definition show_one (f : SpecFloat.spec_float) : string :=
  show_N (tenths f / 10)%N +:+ "." +:+ show_N (tenths f mod 10)%N.

(** [f.floor() as u64] of a float that is not negative. *)
Definition floor_u64 (f : SpecFloat.spec_float) : N :=
  match f with
  | SpecFloat.S754_finite _ m (Zneg e) => N.pos m / 2 ^ N.pos e
  | SpecFloat.S754_finite _ m e => N.pos m * 2 ^ Z.to_N e
  | _ => 0
  end%N.

Definition format_duration (duration : N) : string :=
  let total_seconds := CheckScript.as_secs_f64 duration in
  let sixty := CheckScript.f64_of_N 60 in
  if SpecFloat.SFltb total_seconds sixty then show_one total_seconds +:+ "s"
  else
    let minutes := floor_u64 (SpecFloat.SFdiv 53 1024 total_seconds sixty) in
    show_N minutes +:+ "m " +:+
      show_one (SpecFloat.SFsub 53 1024 total_seconds
        (SpecFloat.SFmul 53 1024 (CheckScript.f64_of_N minutes) sixty)) +:+ "s".

Definition format_task_failed_summary (c : Console) (task : string) (duration : N) : Text :=
  text [bold c task; raw " failed after "; to_text (format_duration duration); raw "."].

Definition format_task_summary (c : Console) (task : string) (exit_code : Z) (duration : N) : Text :=
  let color := if decide (exit_code = 0%Z) then Green else Red in
  text [bold c task; raw " finished with exit code "; bold_colored c color (DockerClient.show_Z exit_code);
        raw " in "; to_text (format_duration duration); raw "."].

Definition exited_unexpectedly (c : Console) (exit_code : Z) : Text :=
  text [raw "exited unexpectedly with exit code "; bold c (DockerClient.show_Z exit_code)].

Example duration_of_minutes : format_duration 123400000000 = "2m 3.4s".
Proof. vm_compute. reflexivity. Qed.

(** A duration just short of a minute is rounded to one. *)
Example duration_rounded_to_a_minute : format_duration 59960000000 = "60.0s".
Proof. vm_compute. reflexivity. Qed.

(** ** Events *)

Record TaskContainerInfo := mk_info {
  ti_name : string;
  ti_image : option string;
  ti_build_tag : option string;
  ti_dependencies : list string;
  ti_has_setup_commands : bool;
  ti_is_task_container : bool;
}.

Inductive TaskEvent :=
| TaskStarting (task : string)
| PrerequisitesOnly (task : string)
| TaskGraphResolved (containers : list TaskContainerInfo)
| TaskFinished (task : string) (exit_code : Z) (duration : N)
| ImagePullStarting (image : string)
| ImagePullProgress (image message : string)
| ImagePullCompleted (image : string)
| ImageBuildStarting (container : string)
| ImageBuildProgress (tag message : string)
| ImageBuildCompleted (container : string)
| ImageResolved (container : string)
| ContainerCreating (container : string)
| ContainerCreated (container : string)
| DependencyStarting (container : string)
| DependencyStarted (container : string)
| ContainerBecameHealthy (container : string)
| DependencyCompleted (container : string)
| RunningSetupCommand (container command : string) (index total : nat) (run_in : option string)
| SetupCommandsCompleted (container : string)
| DependencyExitedUnexpectedly (container : string) (exit_code : Z)
| RunningTaskContainer (container : string) (command : option string)
| CleanupStarting (cause : option CleanupCause)
| CleanupFinished
| ContainerStopped (container : string)
| ContainerRemoved (container : string)
| RemovingNetwork
| NetworkRemoved
| RunEnded (task : string)
| TaskFailed (task : string) (duration : N)
| ContainerOutput (container line : string)
| SetupCommandOutput (container : string) (index : nat) (line : string)
| NoticePosted (message : Text)
| WarningPosted (message : Text)
| ErrorPosted (message : Text).

(** The three classes every style prints on stderr. *)
Definition print_stderr_class (stderr : Console) (e : TaskEvent) : option write :=
  match e with
  | ErrorPosted message => Some (error_line stderr message)
  | WarningPosted message => Some (warning stderr message)
  | NoticePosted message => Some (notice stderr message)
  | _ => None
  end.

(** ** [quiet] *)

Definition quiet_post (stderr : Console) (e : TaskEvent) : list write := option_list (print_stderr_class stderr e).

(** ** What a load prints *)

Record LoadOutput := mk_load_output { lo_stderr : Console; lo_progress : option Console }.

Definition load_output_new (style : OutputStyle) (mode : ColorMode) (progress : ProgressStream) (t : TerminalFacts)
  : LoadOutput :=
  mk_load_output (for_stream Stderr mode t)
    (if decide (style = Quiet) then None else Some (for_stream progress mode t)).

Definition load_notice {A} `{ToText A} (o : LoadOutput) (message : A) : list write := [notice (lo_stderr o) message].
Definition load_progress (o : LoadOutput) (line : Text) : list write :=
  option_list ((λ c, println c line) <$> lo_progress o).
Definition progress_bold (o : LoadOutput) (t : string) : Text :=
  match lo_progress o with Some c => bold c t | None => to_text t end.

(** ** [simple] *)

Record SimpleState := mk_simple {
  si_printed_a_task : bool;
  si_started_cleanup : bool;
  si_task_container : option string;
}.
Definition simple_new : SimpleState := mk_simple false false None.

Definition task_container_of (containers : list TaskContainerInfo) : option string :=
  ti_name <$> head (filter (λ info, ti_is_task_container info = true) containers).

Section simple.
Context (console stderr : Console).

Let name (s : string) : Text := bold console s.

(** The blank line between two tasks. *)
Definition separator (printed_a_task : bool) : list write := if printed_a_task then [println console (raw "")] else [].

Definition simple_post (s : SimpleState) (e : TaskEvent) : SimpleState * list write :=
  let say (parts : list Text) := (s, [println console (text parts)]) in
  let unless_task_container (container : string) (parts : list Text) :=
    if decide (si_task_container s = Some container) then (s, []) else say parts in
  match print_stderr_class stderr e with
  | Some w => (s, [w])
  | None =>
      match e with
      | TaskStarting task =>
          (mk_simple true false None,
           separator (si_printed_a_task s) ++ [println console (text [raw "Running "; name task; raw "..."])])
      | PrerequisitesOnly task =>
          (mk_simple true (si_started_cleanup s) (si_task_container s),
           separator (si_printed_a_task s) ++ [println console (nothing_more_to_do console task)])
      | TaskFinished task exit_code duration =>
          (s, [println console (format_task_summary console task exit_code duration)])
      | TaskFailed task duration => (s, [println console (format_task_failed_summary console task duration)])
      | ImagePullStarting image => say [raw "Pulling "; name image; raw "..."]
      | ImagePullCompleted image => say [raw "Pulled "; name image; raw "."]
      | ImageBuildStarting container => say [raw "Building "; name container; raw "..."]
      | ImageBuildCompleted container => say [raw "Built "; name container; raw "."]
      | DependencyStarting container => say [raw "Starting "; name container; raw "..."]
      | DependencyStarted container => say [raw "Started "; name container; raw "."]
      | ContainerBecameHealthy container =>
          unless_task_container container [name container; raw " has become healthy."]
      | DependencyCompleted container => say [name container; raw " ran to completion."]
      | RunningSetupCommand container cmd index total run_in =>
          let location := match run_in with
            | Some run_in => text [name run_in; raw ", for "; name container]
            | None => name container
            end in
          unless_task_container container
            [raw "Running setup command "; command console cmd; raw " ("; to_text index; raw " of "; to_text total;
             raw ") in "; location; raw "..."]
      | SetupCommandsCompleted container =>
          unless_task_container container [name container; raw " has completed all setup commands."]
      | DependencyExitedUnexpectedly container exit_code =>
          say [name container; raw " "; exited_unexpectedly console exit_code; raw "."]
      | RunningTaskContainer container (Some cmd) =>
          say [raw "Running "; command console cmd; raw " in "; name container; raw "..."]
      | RunningTaskContainer container None => say [raw "Running "; name container; raw "..."]
      | CleanupStarting cause =>
          let '(fires, flag) := fire_once (si_started_cleanup s) in
          (mk_simple (si_printed_a_task s) flag (si_task_container s),
           if fires then [println console (raw ""); println console (cleaning_up console cause)] else [])
      | TaskGraphResolved containers =>
          (mk_simple (si_printed_a_task s) (si_started_cleanup s) (task_container_of containers), [])
      | _ => (s, [])
      end
  end.
End simple.

(** ** [all] *)

(** The [unicode-width] crate. *)
Class UnicodeWidth := {
  char_width : ascii → option nat;
  str_width : string → nat;
}.

Definition CONTAINER_COLORS : list Color := [Cyan; Yellow; Green; Magenta; Blue].

Record InterleavedState := mk_interleaved {
  il_task : option string;
  il_task_container : option string;
  il_preamble_pending : bool;
  il_colors : gmap string Color;
  il_images : gmap string string;
  il_build_tags : gmap string string;
  il_prefix_width : nat;
  il_started_cleanup : bool;
}.
Definition interleaved_new : InterleavedState := mk_interleaved None None false ∅ ∅ ∅ 0 false.

(** A map collected from pairs: the last of a key stays. *)
Definition collect {V} (l : list (string * V)) : gmap string V := foldl (λ m p, <[p.1 := p.2]> m) ∅ l.

(** [zip] of a list with a [cycle]. *)
Definition zip_cycle {A B} (l : list A) (cycle : list B) : list (A * B) :=
  omap (λ p, (λ b, (p.2, b)) <$> cycle !! (p.1 mod length cycle)) (imap pair l).

Section interleaved.
Context `{!UnicodeWidth} (console stderr result_console : Console).

Definition shown_width (name : string) : nat := str_width (printable name).

(** [text] under the prefix of [name], line by line. *)
Definition print_prefixed (c : Console) (s : InterleavedState) (name : string) (color : option Color) (t : Text)
  : list write :=
  let padding := of_chars (repeat " "%char (il_prefix_width s - shown_width name)) in
  let padded := text [to_text name; to_text padding] in
  let prefix := match color with Some color => bold_colored c color padded | None => bold c padded end in
  (λ line, println c (text [prefix; raw " | "; raw line])) <$> split NEWLINE (as_str t).

Definition print_for_container (s : InterleavedState) (container : string) (line : Text) : list write :=
  print_prefixed console s container (il_colors s !! container) line.

Definition print_for_task (s : InterleavedState) (line : Text) : list write :=
  print_prefixed console s (default "" (il_task s)) None line.

Definition flush_preamble_if_pending (s : InterleavedState) : InterleavedState * list write :=
  if il_preamble_pending s then
    let s := mk_interleaved (il_task s) (il_task_container s) false (il_colors s) (il_images s) (il_build_tags s)
      (il_prefix_width s) (il_started_cleanup s) in
    (s, print_for_task s (text [raw "Running "; bold console (default "" (il_task s)); raw "..."]))
  else (s, []).

Definition containers_for_image (s : InterleavedState) (image : string) : list string :=
  sort_strings (filter (λ p : string * string, p.2 = image) (map_to_list (il_images s))).*1.

Definition container_for_build_tag (s : InterleavedState) (tag : string) : option string :=
  fst <$> head (filter (λ p : string * string, p.2 = tag) (map_to_list (il_build_tags s))).

Definition graph_resolved (s : InterleavedState) (containers : list TaskContainerInfo) : InterleavedState :=
  mk_interleaved (il_task s) (task_container_of containers) (il_preamble_pending s)
    (collect (zip_cycle (sort_strings (ti_name <$> containers)) CONTAINER_COLORS))
    (collect (omap (λ info, pair (ti_name info) <$> ti_image info) containers))
    (collect (omap (λ info, pair (ti_name info) <$> ti_build_tag info) containers))
    (max_list ((shown_width ∘ ti_name <$> containers) ++ [from_option shown_width 0 (il_task s)]))
    (il_started_cleanup s).

Definition interleaved_post (s : InterleavedState) (e : TaskEvent) : InterleavedState * list write :=
  let say (container : string) (line : Text) := (s, print_for_container s container line) in
  match print_stderr_class stderr e with
  | Some w => (s, [w])
  | None =>
      match e with
      | TaskStarting task => (mk_interleaved (Some task) None true ∅ ∅ ∅ 0 false, [])
      | PrerequisitesOnly task =>
          let s := mk_interleaved (Some task) None false ∅ ∅ ∅ (shown_width task) false in
          (s, print_for_task s (nothing_more_to_do console task))
      | TaskGraphResolved containers => flush_preamble_if_pending (graph_resolved s containers)
      | ImagePullStarting image =>
          (s, containers_for_image s image ≫= λ container,
            print_for_container s container (text [raw "Pulling "; bold console image; raw "..."]))
      | ImagePullCompleted image =>
          (s, containers_for_image s image ≫= λ container,
            print_for_container s container (text [raw "Pulled "; bold console image; raw "."]))
      | ImageBuildStarting container => say container (Text_from "Building image...")
      | ImageBuildProgress tag message =>
          (s, match container_for_build_tag s tag with
              | Some container =>
                  split NEWLINE message ≫= λ line,
                    print_for_container s container (text [raw "Image build | "; Text_from line])
              | None => []
              end)
      | ImageBuildCompleted container => say container (Text_from "Image built.")
      | DependencyStarting container => say container (Text_from "Starting container...")
      | DependencyStarted container => say container (Text_from "Container started.")
      | ContainerBecameHealthy container => say container (Text_from "Container became healthy.")
      | DependencyCompleted container => say container (Text_from "Container ran to completion.")
      | RunningSetupCommand container cmd index total run_in =>
          let elsewhere := match run_in with
            | Some run_in => text [raw " in "; to_text run_in]
            | None => raw ""
            end in
          say container (text [raw "Running setup command "; command console cmd; raw " ("; to_text index;
            raw " of "; to_text total; raw ")"; elsewhere; raw "..."])
      | SetupCommandOutput container index line =>
          say container (text [raw "Setup command "; to_text index; raw " | "; raw line])
      | SetupCommandsCompleted container => say container (Text_from "Container has completed all setup commands.")
      | DependencyExitedUnexpectedly container exit_code =>
          say container (text [exited_unexpectedly console exit_code; raw "."])
      | RunningTaskContainer container cmd =>
          say container (match cmd with
            | Some cmd => text [raw "Running "; command console cmd; raw "..."]
            | None => raw "Running..."
            end)
      | ContainerOutput container line =>
          if decide (il_task_container s = Some container) then
            (s, print_prefixed result_console s container (il_colors s !! container) (raw line))
          else say container (raw line)
      | CleanupStarting cause =>
          let '(fires, flag) := fire_once (il_started_cleanup s) in
          let s := mk_interleaved (il_task s) (il_task_container s) (il_preamble_pending s) (il_colors s)
            (il_images s) (il_build_tags s) (il_prefix_width s) flag in
          (s, if fires then print_for_task s (cleaning_up console cause) else [])
      | ContainerStopped container => say container (Text_from "Container stopped.")
      | ContainerRemoved container => say container (Text_from "Container removed.")
      | RemovingNetwork => (s, print_for_task s (Text_from "Removing task network..."))
      | NetworkRemoved => (s, print_for_task s (Text_from "Task network removed."))
      | TaskFinished task exit_code duration =>
          (s, print_for_task s (format_task_summary console task exit_code duration))
      | RunEnded _ => flush_preamble_if_pending s
      | TaskFailed task duration => (s, print_for_task s (format_task_failed_summary console task duration))
      | _ => (s, [])
      end
  end.
End interleaved.

(** Every write of a run of events. *)
Fixpoint posts {S} (post : S → TaskEvent → S * list write) (s : S) (events : list TaskEvent) : S * list write :=
  match events with
  | [] => (s, [])
  | e :: events =>
      let '(s, w) := post s e in
      let '(s, ws) := posts post s events in
      (s, w ++ ws)
  end.
