(* ===== verification/FancyDisplay.v ===== *)
(** * FancyDisplay: the live display

    [ratect-core/src/ui/fancy.rs]: a row for each container of a task, painted
    over in place while the task starts, and a countdown while it is cleaned up;
    with [create_event_sink] of [ui.rs], which chooses among the styles.  What the
    terminal says of its size is given with each event. *)

From S2P Require Import Prelude Text Collections IncludeTrust Outcome Displays.
From S2P Require ContainerRequest.
From stdpp Require Import options.

(** ** Rows *)

Inductive Stage :=
| Pending
| Pulling (status : option string)
| Building (line : option string)
| ImageBuilt
| Creating
| WaitingForDependencies (remaining : list string)
| StartingContainer
| WaitingToBecomeHealthy
| AboutToRunSetupCommands
| RunningSetup (command : string) (index total : nat) (run_in : option string)
| Ready
| RunningCommand (command : option string)
| ExitedUnexpectedly (exit_code : Z).

Record ContainerLine := mk_line { cl_info : TaskContainerInfo; cl_stage : Stage }.

Record State := mk_state {
  fa_lines : list ContainerLine;
  fa_painted_lines : nat;
  fa_painted_width : option nat;
  fa_last_rendered : option (list ascii);
  fa_keep_updating_startup : bool;
  fa_created_containers : gset string;
  fa_ready : gset string;
  fa_removing_network : bool;
  fa_cleanup_shown : bool;
  fa_cleanup_live : bool;
  fa_cleanup_width : option nat;
  fa_separator_owed : bool;
  fa_printed_a_task : bool;
}.

(** [State::default()], but for what a new task keeps. *)
Definition new_task (keep_updating printed_a_task : bool) : State :=
  mk_state [] 0 None None keep_updating ∅ ∅ false false false None false printed_a_task.
Definition fancy_new : State := new_task false false.

Definition set_lines (f : list ContainerLine → list ContainerLine) (s : State) : State :=
  mk_state (f (fa_lines s)) (fa_painted_lines s) (fa_painted_width s) (fa_last_rendered s)
    (fa_keep_updating_startup s) (fa_created_containers s) (fa_ready s) (fa_removing_network s) (fa_cleanup_shown s)
    (fa_cleanup_live s) (fa_cleanup_width s) (fa_separator_owed s) (fa_printed_a_task s).
Definition set_painted (lines : nat) (width : option nat) (rendered : option (list ascii)) (s : State) : State :=
  mk_state (fa_lines s) lines width rendered
    (fa_keep_updating_startup s) (fa_created_containers s) (fa_ready s) (fa_removing_network s) (fa_cleanup_shown s)
    (fa_cleanup_live s) (fa_cleanup_width s) (fa_separator_owed s) (fa_printed_a_task s).
Definition set_updating (keep : bool) (s : State) : State :=
  mk_state (fa_lines s) (fa_painted_lines s) (fa_painted_width s) (fa_last_rendered s)
    keep (fa_created_containers s) (fa_ready s) (fa_removing_network s) (fa_cleanup_shown s)
    (fa_cleanup_live s) (fa_cleanup_width s) (fa_separator_owed s) (fa_printed_a_task s).
Definition set_created (f : gset string → gset string) (s : State) : State :=
  mk_state (fa_lines s) (fa_painted_lines s) (fa_painted_width s) (fa_last_rendered s)
    (fa_keep_updating_startup s) (f (fa_created_containers s)) (fa_ready s) (fa_removing_network s)
    (fa_cleanup_shown s) (fa_cleanup_live s) (fa_cleanup_width s) (fa_separator_owed s) (fa_printed_a_task s).
Definition set_ready (ready : gset string) (s : State) : State :=
  mk_state (fa_lines s) (fa_painted_lines s) (fa_painted_width s) (fa_last_rendered s)
    (fa_keep_updating_startup s) (fa_created_containers s) ready (fa_removing_network s)
    (fa_cleanup_shown s) (fa_cleanup_live s) (fa_cleanup_width s) (fa_separator_owed s) (fa_printed_a_task s).
Definition set_removing_network (s : State) : State :=
  mk_state (fa_lines s) (fa_painted_lines s) (fa_painted_width s) (fa_last_rendered s)
    (fa_keep_updating_startup s) (fa_created_containers s) (fa_ready s) true
    (fa_cleanup_shown s) (fa_cleanup_live s) (fa_cleanup_width s) (fa_separator_owed s) (fa_printed_a_task s).
Definition set_cleanup_shown (shown : bool) (s : State) : State :=
  mk_state (fa_lines s) (fa_painted_lines s) (fa_painted_width s) (fa_last_rendered s)
    (fa_keep_updating_startup s) (fa_created_containers s) (fa_ready s) (fa_removing_network s)
    shown (fa_cleanup_live s) (fa_cleanup_width s) (fa_separator_owed s) (fa_printed_a_task s).
Definition set_cleanup_live (live : bool) (s : State) : State :=
  mk_state (fa_lines s) (fa_painted_lines s) (fa_painted_width s) (fa_last_rendered s)
    (fa_keep_updating_startup s) (fa_created_containers s) (fa_ready s) (fa_removing_network s)
    (fa_cleanup_shown s) live (fa_cleanup_width s) (fa_separator_owed s) (fa_printed_a_task s).
Definition set_cleanup_painted (width : option nat) (owed : bool) (s : State) : State :=
  mk_state (fa_lines s) (fa_painted_lines s) (fa_painted_width s) (fa_last_rendered s)
    (fa_keep_updating_startup s) (fa_created_containers s) (fa_ready s) (fa_removing_network s)
    true (fa_cleanup_live s) width owed (fa_printed_a_task s).
Definition set_separator_owed (owed : bool) (s : State) : State :=
  mk_state (fa_lines s) (fa_painted_lines s) (fa_painted_width s) (fa_last_rendered s)
    (fa_keep_updating_startup s) (fa_created_containers s) (fa_ready s) (fa_removing_network s)
    (fa_cleanup_shown s) (fa_cleanup_live s) (fa_cleanup_width s) owed (fa_printed_a_task s).

(** ** Stages *)

Definition set_stage (stage : Stage) (line : ContainerLine) : ContainerLine := mk_line (cl_info line) stage.

Definition waiting_for (s : State) (info : TaskContainerInfo) : Stage :=
  WaitingForDependencies (filter (.∉ fa_ready s) (ti_dependencies info)).

Definition start_waiting (starts : ContainerLine → bool) (s : State) : State :=
  set_lines (fmap (λ line, if starts line then set_stage (waiting_for s (cl_info line)) line else line)) s.

(** [f] on the first line of [container]. *)
Fixpoint update_line (container : string) (f : ContainerLine → ContainerLine) (lines : list ContainerLine)
  : list ContainerLine :=
  match lines with
  | [] => []
  | line :: lines =>
      if decide (ti_name (cl_info line) = container) then f line :: lines
      else line :: update_line container f lines
  end.

Definition line_of (container : string) (lines : list ContainerLine) : option ContainerLine :=
  head (filter (λ line, ti_name (cl_info line) = container) lines).

Definition no_longer_waits (container : string) (line : ContainerLine) : ContainerLine :=
  match cl_stage line with
  | WaitingForDependencies remaining =>
      set_stage (WaitingForDependencies (filter (.≠ container) remaining)) line
  | _ => line
  end.

Definition mark_ready (container : string) (s : State) : State :=
  set_ready ({[container]} ∪ fa_ready s)
    (set_lines (λ lines, no_longer_waits container <$> update_line container (set_stage Ready) lines) s).

(** ** Fitting a row *)

(** Line breaks and tabs as spaces. *)
Definition flatten (l : list ascii) : list ascii :=
  (λ c, if bool_decide (c = NEWLINE) || bool_decide (c = RETURN) || bool_decide (c = TAB) then " "%char else c) <$> l.

Section fit.
Context `{!UnicodeWidth}.

Definition width_of (c : ascii) : nat := default 0 (char_width c).

Fixpoint display_width_from (in_escape : bool) (l : list ascii) : nat :=
  match l with
  | [] => 0
  | c :: l =>
      if in_escape then display_width_from (negb (is_ascii_alphabetic c)) l
      else if decide (c = ESC) then display_width_from true l
      else width_of c + display_width_from false l
  end.
Definition display_width (l : list ascii) : nat := display_width_from false l.

(** The loop: what is kept, the escapes held since, and whether a char was kept. *)
Fixpoint clip_loop (keep : nat) (in_escape : bool) (out held : list ascii) (kept_any : bool) (kept_width : nat)
    (l : list ascii) : list ascii * list ascii * bool :=
  match l with
  | [] => (out, held, kept_any)
  | c :: l =>
      if in_escape then clip_loop keep (negb (is_ascii_alphabetic c)) out (held ++ [c]) kept_any kept_width l
      else if decide (c = ESC) then clip_loop keep true out (held ++ [c]) kept_any kept_width l
      else if decide (keep < kept_width + width_of c) then (out, held, kept_any)
      else clip_loop keep false (out ++ held ++ [c]) [] true (kept_width + width_of c) l
  end.

Fixpoint last_escape (l : list ascii) : option (list ascii) :=
  match l with
  | [] => None
  | c :: l' =>
      match last_escape l' with
      | Some escape => Some escape
      | None => if decide (c = ESC) then Some l else None
      end
  end.

Definition RESET : list ascii := ESC :: chars "[0m".

Definition clip_to_width (l : list ascii) (width : option nat) : list ascii :=
  match width with
  | None => l
  | Some width =>
      if decide (display_width l ≤ width) then l
      else
        let '(out, held, kept_any) := clip_loop (width - 3) false [] [] false 0 l in
        let out := if (kept_any : bool) then out ++ chars "..." ++ held
          else out ++ held ++ take (Nat.min width 3) (chars "...") in
        match last_escape out with
        | Some escape => if bool_decide (RESET `prefix_of` escape) then out else out ++ RESET
        | None => out
        end
  end.

Definition fit_row (l : list ascii) (width : option nat) : list ascii := clip_to_width (flatten l) width.
End fit.

(** A blank line of a build: empty, or the bare label of a step. *)
Definition is_blank_build_line (message : string) : bool :=
  match strip_prefix "#" message with
  | Some number => bool_decide (number ≠ EmptyString) && forallb is_ascii_digit (chars number)
  | None => bool_decide (message = EmptyString)
  end.

(** ** The order of the rows *)

Fixpoint visit (fuel : nat) (name : string) (st : gmap string TaskContainerInfo * list TaskContainerInfo)
  : gmap string TaskContainerInfo * list TaskContainerInfo :=
  match fuel with
  | 0 => st
  | S fuel =>
      match st.1 !! name with
      | None => st
      | Some info =>
          let st := foldl (λ st dependency, visit fuel dependency st) (delete name st.1, st.2) (ti_dependencies info) in
          (st.1, st.2 ++ [info])
      end
  end.

Definition dependency_post_order (containers : list TaskContainerInfo) : list TaskContainerInfo :=
  let root := task_container_of containers in
  let by_name := collect ((λ info, (ti_name info, info)) <$> containers) in
  let st := match root with
    | Some root => visit (S (size by_name)) root (by_name, [])
    | None => (by_name, [])
    end in
  st.2 ++ omap (st.1 !!.) (sort_strings (map_to_list st.1).*1).

Section fancy.
Context `{!UnicodeWidth} (console stderr : Console) (stderr_on_screen : bool).

(** ** What a row says *)

Definition names_list (names : list string) : Text :=
  match reverse ((bold console : string → Text) <$> names) with
  | [] => raw ""
  | [last] => last
  | last :: names => text [text_join (reverse names) ", "; raw " and "; last]
  end.

Definition description (line : ContainerLine) : Text :=
  let info := cl_info line in
  match cl_stage line with
  | Pending =>
      match ti_image info, ti_build_tag info with
      | Some image, _ => text [raw "ready to pull image "; bold console image]
      | None, Some _ => raw "ready to build image"
      | None, None => raw "ready"
      end
  | Pulling None =>
      match ti_image info with
      | Some image => text [raw "pulling image "; bold console image; raw "..."]
      | None => raw "pulling image..."
      end
  | Pulling (Some status) =>
      match ti_image info with
      | Some image => text [raw "pulling "; bold console image; raw ": "; to_text status]
      | None => text [raw "pulling image: "; to_text status]
      end
  | Building None => raw "building image..."
  | Building (Some line) => text [raw "building image: "; to_text (of_chars (flatten (chars line)))]
  | ImageBuilt => raw "image built, ready to create container"
  | Creating => raw "creating container..."
  | WaitingForDependencies [] => raw "ready to start"
  | WaitingForDependencies remaining =>
      text [raw "waiting for "; to_text (if decide (length remaining = 1) then "dependency" else "dependencies");
            raw " "; names_list remaining; raw " to be ready..."]
  | StartingContainer => raw "starting container..."
  | WaitingToBecomeHealthy => raw "container started, waiting for it to become healthy..."
  | AboutToRunSetupCommands => raw "running setup commands..."
  | RunningSetup cmd index total run_in =>
      let elsewhere := match run_in with
        | Some run_in => text [raw " in "; bold console run_in]
        | None => raw ""
        end in
      text [raw "running setup command "; command console cmd; raw " ("; to_text index; raw " of ";
            to_text total; raw ")"; elsewhere; raw "..."]
  | Ready => raw "ready"
  | RunningCommand (Some cmd) => text [raw "running "; command console cmd]
  | RunningCommand None => raw "running"
  | ExitedUnexpectedly exit_code => exited_unexpectedly console exit_code
  end.

Definition render (line : ContainerLine) : Text :=
  text [bold console (ti_name (cl_info line)); raw ": "; description line].

(** ** Painting *)

Definition CLEAR_LINE : list ascii := RETURN :: ESC :: chars "[2K".
Definition cursor_up (n : nat) : list ascii := ESC :: chars ("[" +:+ show_nat n +:+ "A").
Definition CURSOR_UP_ONE_AND_CLEAR : list ascii := ESC :: chars "[1A" ++ CLEAR_LINE.

(** The width a repaint sees: the fixed one of a test, or the terminal's. *)
Definition current_width (fixed : nat) (size : option nat) : option nat :=
  if decide (0 < fixed) then Some fixed
  else width ← size; if decide (0 < width) then Some width else None.

Definition rendered_rows (lines : list ContainerLine) (width : option nat) : list ascii :=
  lines ≫= λ line, CLEAR_LINE ++ fit_row (chars (as_str (render line))) width ++ [NEWLINE].

Definition repaint_startup (width : option nat) (s : State) : State * list write :=
  if decide (fa_lines s = []) then (s, [])
  else
    let rendered := rendered_rows (fa_lines s) width in
    if decide (fa_last_rendered s = Some rendered) then
      (set_painted (fa_painted_lines s) width (fa_last_rendered s) s, [])
    else
      let up := if decide (0 < fa_painted_lines s) then
          if decide (fa_painted_width s = width) then cursor_up (fa_painted_lines s) else [NEWLINE]
        else [] in
      (set_painted (length (fa_lines s)) width (Some rendered) s,
       [print console (raw (of_chars (up ++ rendered)))]).

Definition cleanup_text (s : State) : Text :=
  let created := sort_strings (elements (fa_created_containers s)) in
  if decide (created ≠ []) then
    let count := length created in
    text [raw "Cleaning up: "; to_text count; raw " container"; to_text (if decide (count = 1) then "" else "s");
          raw " ("; names_list created; raw ") left to remove..."]
  else if fa_removing_network s then raw "Cleaning up: removing task network..."
  else raw "Cleaning up...".

Definition repaint_cleanup (width : option nat) (s : State) : State * list write :=
  let before :=
    if fa_cleanup_shown s then
      if decide (fa_cleanup_width s = width) then CURSOR_UP_ONE_AND_CLEAR else [NEWLINE]
    else [NEWLINE] in
  let owed := fa_cleanup_shown s && fa_separator_owed s in
  (set_cleanup_painted width owed s,
   [print console (raw (of_chars (before ++ fit_row (chars (as_str (cleanup_text s))) width ++ [NEWLINE])))]).

Definition clear_cleanup_line (width : option nat) (s : State) : State * list write :=
  if fa_cleanup_shown s then
    (set_cleanup_shown false s,
     [if decide (fa_cleanup_width s = width) then print console (raw (of_chars CURSOR_UP_ONE_AND_CLEAR))
      else println console (raw "")])
  else (s, []).

Definition pay_separator (s : State) : State * list write :=
  (set_separator_owed false s, if fa_separator_owed s then [println console (raw "")] else []).

(** ** Events *)

(** One step after another, and a write of its own. *)
Definition then_step (step : State → State * list write) (r : State * list write) : State * list write :=
  let '(s, ws) := step r.1 in (s, r.2 ++ ws).
Definition say (line : Text) (s : State) : State * list write := (s, [println console line]).

Definition starting (task_line : Text) (keep_updating : bool) (s : State) : State * list write :=
  (new_task keep_updating true,
   (if fa_printed_a_task s then [println console (raw "")] else []) ++ [println console task_line]).

Definition when_live (width : option nat) (s : State) (f : State → State) : State * list write :=
  if fa_keep_updating_startup s then repaint_startup width (f s) else (s, []).

Definition on_line (container : string) (stage : Stage) : State → State :=
  set_lines (update_line container (set_stage stage)).

Definition on_lines (picks : ContainerLine → bool) (stage : Stage) : State → State :=
  set_lines (fmap (λ line, if picks line then set_stage stage line else line)).

Definition uses_image (image : string) (line : ContainerLine) : bool :=
  bool_decide (ti_image (cl_info line) = Some image).
Definition builds_tag (tag : string) (line : ContainerLine) : bool :=
  bool_decide (ti_build_tag (cl_info line) = Some tag).
Definition is_line_of (container : string) (line : ContainerLine) : bool :=
  bool_decide (ti_name (cl_info line) = container).

Definition becomes_healthy (container : string) (s : State) : State :=
  match line_of container (fa_lines s) with
  | Some line =>
      if ti_has_setup_commands (cl_info line) then on_line container AboutToRunSetupCommands s
      else mark_ready container s
  | None => mark_ready container s
  end.

(** What a line of another kind does to what is live. *)
Definition live_display_interrupted (width : option nat) (s : State) : State * list write :=
  if stderr_on_screen then
    let s := set_cleanup_shown false (set_painted 0 (fa_painted_width s) None s) in
    if fa_cleanup_live s then repaint_cleanup width s else (s, [])
  else (s, []).

Definition fancy_post (width : option nat) (s : State) (e : TaskEvent) : State * list write :=
  match print_stderr_class stderr e with
  | Some w => then_step (live_display_interrupted width) (s, [w])
  | None =>
      match e with
      | TaskStarting task => starting (text [raw "Running "; bold console task; raw "..."]) true s
      | PrerequisitesOnly task => starting (nothing_more_to_do console task) false s
      | TaskGraphResolved containers =>
          repaint_startup width
            (set_updating true
              (set_painted 0 None None
                (set_lines (λ _, (λ info, mk_line info Pending) <$> dependency_post_order containers) s)))
      | ImagePullStarting image => when_live width s (on_lines (uses_image image) (Pulling None))
      | ImagePullProgress image message => when_live width s (on_lines (uses_image image) (Pulling (Some message)))
      | ImagePullCompleted image => when_live width s (start_waiting (uses_image image))
      | ImageBuildStarting container => when_live width s (on_line container (Building None))
      | ImageBuildProgress tag message =>
          if is_blank_build_line message then (s, [])
          else when_live width s (on_lines (builds_tag tag) (Building (Some message)))
      | ImageBuildCompleted container => when_live width s (on_line container ImageBuilt)
      | ImageResolved container =>
          when_live width s (start_waiting (λ line,
            is_line_of container line && match cl_stage line with Pending => true | _ => false end))
      | DependencyStarting container => when_live width s (on_line container StartingContainer)
      | DependencyStarted container => when_live width s (on_line container WaitingToBecomeHealthy)
      | ContainerBecameHealthy container => when_live width s (becomes_healthy container)
      | DependencyCompleted container => when_live width s (mark_ready container)
      | RunningSetupCommand container cmd index total run_in =>
          when_live width s (on_line container (RunningSetup cmd index total run_in))
      | SetupCommandsCompleted container => when_live width s (mark_ready container)
      | DependencyExitedUnexpectedly container exit_code =>
          if fa_keep_updating_startup s then
            repaint_startup width (on_line container (ExitedUnexpectedly exit_code) s)
          else
            then_step (λ s,
                let s := set_cleanup_shown false s in
                if fa_cleanup_live s then repaint_cleanup width s else (s, []))
              (say (text [to_text container; raw " "; exited_unexpectedly console exit_code; raw "."]) s)
      | ContainerCreating container => when_live width s (on_line container Creating)
      | ContainerCreated container =>
          let '(s, ws) := when_live width s (start_waiting (is_line_of container)) in
          (set_created ({[container]} ∪.) s, ws)
      | RunningTaskContainer container cmd =>
          let s := set_separator_owed true s in
          if fa_keep_updating_startup s then
            then_step (say (raw ""))
              (let '(s, ws) := repaint_startup width (on_line container (RunningCommand cmd) s) in
               (set_updating false s, ws))
          else (s, [])
      | RunEnded _ => (set_updating false s, [])
      | CleanupStarting _ => repaint_cleanup width (set_cleanup_live true s)
      | ContainerRemoved container =>
          let s := set_created (.∖ {[container]}) s in
          if fa_cleanup_live s then repaint_cleanup width s else (s, [])
      | RemovingNetwork =>
          let s := set_removing_network s in
          if fa_cleanup_live s then repaint_cleanup width s else (s, [])
      | CleanupFinished => clear_cleanup_line width (set_cleanup_live false s)
      | TaskFinished task exit_code duration =>
          then_step (say (format_task_summary console task exit_code duration))
            (then_step pay_separator (clear_cleanup_line width s))
      | TaskFailed task duration =>
          then_step (say (format_task_failed_summary console task duration))
            (then_step pay_separator (clear_cleanup_line width s))
      | ContainerStopped _ | NetworkRemoved | ContainerOutput _ _ | SetupCommandOutput _ _ _ => (s, [])
      | NoticePosted _ | WarningPosted _ | ErrorPosted _ => (s, [])
      end
  end.
End fancy.

(** ** The sink of an invocation *)

Inductive Sink :=
| SimpleSink (progress stderr : Console)
| QuietSink (stderr : Console)
| FancySink (progress stderr : Console) (stderr_on_screen : bool)
| InterleavedSink (progress stderr result : Console).

Inductive sink_error := FancyRefused (reason : string).

Definition create_event_sink (requested : option OutputStyle) (mode : ColorMode) (t : TerminalFacts)
    (progress : ProgressStream) : result Sink sink_error :=
  let no_color := bool_decide (mode = Off) in
  let progress_console := for_stream progress mode t in
  let stderr := for_stream Stderr mode t in
  match select_output_style requested no_color t progress with
  | Simple => Ok (SimpleSink progress_console stderr)
  | Quiet => Ok (QuietSink stderr)
  | Fancy =>
      match explicit_fancy_refusal t progress with
      | Some reason => Err (FancyRefused reason)
      | None => Ok (FancySink progress_console stderr (tf_stderr_is_terminal t))
      end
  | All => Ok (InterleavedSink progress_console stderr (for_stream Stdout mode t))
  end.

(** [EventSink]'s answers to the engine and the client. *)
Definition container_io_streaming (sink : Sink) : ContainerRequest.ContainerIoStreaming :=
  match sink with
  | InterleavedSink _ _ _ => ContainerRequest.Interleaved
  | _ => ContainerRequest.TaskContainerOnly
  end.
Definition wants_progress_detail (sink : Sink) : bool :=
  match sink with FancySink _ _ _ | InterleavedSink _ _ _ => true | _ => false end.
