(* ===== verification/DisplaysSpec.v ===== *)
(** * DisplaysSpec: what reaches a terminal

    No char of a name, a value or a message is a command to the terminal: what the
    appending styles write is chars that print, line breaks, tabs and the display's
    own styles, where the console has colours. *)

From S2P Require Import Prelude Text Collections IncludeTrust Outcome Displays FancyDisplay.
From S2P Require DockerClient.
From stdpp Require Import options.

(** ** Clean chars *)

Definition COLORS : list Color := [Red; Green; Yellow; Blue; Magenta; Cyan].
Definition SGR_CODES : list string :=
  ["0"; "1"] ++ (ansi_code <$> COLORS) ++ ((λ c, "1;" +:+ ansi_code c) <$> COLORS).
Definition sgr (code : string) : list ascii := ESC :: "["%char :: chars code ++ ["m"%char].

(** Chars that print, with line breaks and tabs where [layout], and styles where
    [colour]. *)
Inductive clean (colour layout : bool) : list ascii → Prop :=
| clean_nil : clean colour layout []
| clean_char c l : is_control c = false → clean colour layout l → clean colour layout (c :: l)
| clean_layout c l :
    layout = true → c = NEWLINE ∨ c = TAB → clean colour layout l → clean colour layout (c :: l)
| clean_sgr code l :
    colour = true → code ∈ SGR_CODES → clean colour layout l → clean colour layout (sgr code ++ l).

Lemma clean_app colour layout l k : clean colour layout l → clean colour layout k → clean colour layout (l ++ k).
Proof.
  induction 1; intros Hk; [done|by constructor; auto|by apply clean_layout; auto|].
  rewrite <-(assoc_L (++)). by apply clean_sgr; auto.
Qed.

Lemma clean_weaken colour layout colour' layout' l :
  clean colour layout l → (colour = true → colour' = true) → (layout = true → layout' = true) →
  clean colour' layout' l.
Proof. induction 1; intros; [constructor|by constructor; auto|by apply clean_layout; auto|by apply clean_sgr; auto]. Qed.

Lemma clean_printing colour layout l : Forall (λ c, is_control c = false) l → clean colour layout l.
Proof. induction 1; by constructor. Qed.

Lemma clean_literal colour layout s :
  forallb (λ c, negb (is_control c)) (chars s) = true → clean colour layout (chars s).
Proof.
  intros H. apply clean_printing, Forall_forall. intros c Hc.
  rewrite forallb_forall in H. specialize (H c). rewrite <-list_elem_of_In in H. by apply negb_true_iff, H.
Qed.

Lemma forall_small (P : N → Prop) `{∀ n, Decision (P n)} m n :
  (n < N.of_nat m)%N → bool_decide (Forall P (N.of_nat <$> seq 0 m)) = true → P n.
Proof.
  intros Hn H0%bool_decide_eq_true. rewrite Forall_forall in H0. apply H0, list_elem_of_fmap.
  exists (N.to_nat n). split; [lia|]. apply elem_of_seq. lia.
Qed.

Lemma hex_digit_prints n : (n < 16)%N → is_control (hex_digit n) = false.
Proof. intros H. apply (forall_small (λ n, is_control (hex_digit n) = false) 16); [done|vm_compute; done]. Qed.

Lemma digit_char_prints d : (d < 10)%N → is_control (digit_char d) = false.
Proof. intros H. apply (forall_small (λ n, is_control (digit_char n) = false) 10); [done|vm_compute; done]. Qed.

Lemma escape_debug_prints c : Forall (λ c, is_control c = false) (escape_debug c).
Proof.
  unfold escape_debug.
  do 4 (case_bool_decide; [by repeat constructor|]). cbv zeta.
  apply Forall_app; split; [by repeat constructor|]. apply Forall_app; split.
  - case_bool_decide; constructor; [|constructor]. apply hex_digit_prints.
    pose proof (code_lt c). apply N.Div0.div_lt_upper_bound; lia.
  - apply Forall_app; split; [|by repeat constructor]. constructor; [|constructor]. by apply hex_digit_prints, N.mod_lt.
Qed.

Lemma clean_escape colour layout value escaped :
  (∀ c, is_control c = true → escaped c = false → layout = true ∧ (c = NEWLINE ∨ c = TAB)) →
  clean colour layout (chars (escape_controls value escaped)).
Proof.
  intros H. unfold escape_controls. rewrite chars_of_chars. induction (chars value) as [|c l IH]; csimpl; [constructor|].
  apply clean_app; [|done]. destruct (is_control c) eqn:Ec; [destruct (escaped c) eqn:Ee|]; csimpl.
  - apply clean_printing, escape_debug_prints.
  - destruct (H c Ec Ee). apply clean_layout; [done..|constructor].
  - by repeat constructor.
Qed.

(** ** Clean texts *)

Definition clean_text (colour layout : bool) (t : Text) : Prop := clean colour layout (chars (as_str t)).

Lemma clean_of_string colour layout (s : string) : clean_text colour layout (to_text s).
Proof. by apply clean_escape. Qed.

Lemma clean_of_message colour s : clean_text colour true (Text_from s).
Proof.
  apply clean_escape. intros c _ He. split; [done|].
  destruct (decide (c = NEWLINE)), (decide (c = TAB)); auto. by rewrite !bool_decide_eq_true_2 in He.
Qed.

Lemma show_N_prints n : Forall (λ c, is_control c = false) (chars (show_N n)).
Proof. apply Forall_forall. intros c (d & Hd & ->)%show_N_digit. by apply digit_char_prints. Qed.

Lemma clean_of_nat colour layout (n : nat) : clean_text colour layout (to_text n).
Proof. apply clean_printing, show_N_prints. Qed.

Lemma clean_parts colour layout parts : Forall (clean_text colour layout) parts → clean_text colour layout (text parts).
Proof.
  unfold clean_text at 2, text; simpl. rewrite chars_of_chars.
  induction 1; csimpl; [constructor|]. by apply clean_app.
Qed.

Lemma sgr_no_newline code : code ∈ SGR_CODES → NEWLINE ∉ sgr code.
Proof.
  intros H. assert (bool_decide (NEWLINE ∉ sgr code) = true) as Hb; [|by apply bool_decide_eq_true in Hb].
  revert code H. refine (proj1 (Forall_forall _ _) _). vm_compute. repeat constructor.
Qed.

Lemma newline_is_control : is_control NEWLINE = true.
Proof. reflexivity. Qed.

Lemma split_l_cons_free c p l :
  c ∉ p → ∃ h t, split_l c l = h :: t ∧ split_l c (p ++ l) = (p ++ h) :: t.
Proof.
  intros Hp. destruct (split_l c l) as [|h t] eqn:E; [by apply split_l_nonempty in E|].
  exists h, t. split; [done|]. induction p as [|d p IH]; csimpl; [done|].
  apply not_elem_of_cons in Hp as [Hd Hp]. rewrite IH by done.
  rewrite bool_decide_eq_false_2; [done|congruence].
Qed.

Lemma clean_split colour layout l : clean colour layout l → Forall (clean colour layout) (split_l NEWLINE l).
Proof.
  assert (∀ p l, clean colour layout p → NEWLINE ∉ p →
    Forall (clean colour layout) (split_l NEWLINE l) → Forall (clean colour layout) (split_l NEWLINE (p ++ l))) as Hp.
  { intros p k Hp Hn Hk. destruct (split_l_cons_free NEWLINE p k Hn) as (h & t & E1 & ->).
    rewrite E1 in Hk. inversion Hk; subst. constructor; [by apply clean_app|done]. }
  induction 1 as [|c l Hc _ IH|c l Hl [-> | ->] _ IH|code l Hcol Hcode _ IH].
  - repeat constructor.
  - apply (Hp [c]); [by repeat constructor| |done]. intros <-%list_elem_of_singleton. done.
  - change (NEWLINE :: l) with ([] ++ NEWLINE :: l). rewrite split_l_app. constructor; [constructor|done].
  - apply (Hp [TAB]); [apply clean_layout; auto; constructor| |done]. by intros ?%list_elem_of_singleton.
  - apply Hp; [|by apply sgr_no_newline|done]. rewrite <-(app_nil_r (sgr code)). apply clean_sgr; [done..|constructor].
Qed.

Lemma clean_lines colour layout t :
  clean_text colour layout t → Forall (λ line, clean_text colour layout (raw line)) (split NEWLINE (as_str t)).
Proof.
  intros H%clean_split. unfold split. apply Forall_fmap. eapply Forall_impl; [exact H|].
  intros l Hl. unfold clean_text; simpl. by rewrite chars_of_chars.
Qed.

Lemma clean_line_of colour layout t line :
  clean_text colour layout t → line ∈ split NEWLINE (as_str t) → clean_text colour false (raw line) ∨ layout = true.
Proof. destruct layout; [by right|]. intros H%clean_lines Hl. left. rewrite Forall_forall in H. by apply H. Qed.

Lemma clean_joined colour lines :
  Forall (λ line, clean_text colour true (raw line)) lines →
  clean_text colour true (raw (join (of_chars [NEWLINE]) lines)).
Proof.
  unfold clean_text; simpl. induction 1 as [|line lines Hl _ IH]; [constructor|].
  destruct lines as [|line' lines]; [done|].
  change (join _ _) with (line +:+ of_chars [NEWLINE] +:+ join (of_chars [NEWLINE]) (line' :: lines)).
  rewrite !chars_app. apply clean_app; [done|]. apply clean_app; [|done].
  apply clean_layout; [done|by left|constructor].
Qed.

Lemma styled_line_chars code line :
  chars (of_chars (ESC :: chars "[") +:+ code +:+ "m" +:+ line +:+ of_chars (ESC :: chars "[0m")) =
    sgr code ++ chars line ++ sgr "0".
Proof.
  rewrite !chars_app, !chars_of_chars. unfold sgr. simpl. by rewrite <-!(assoc_L (++)).
Qed.

Lemma clean_styled_line colour layout code line :
  colour = true → code ∈ SGR_CODES → clean colour layout (chars line) →
  clean colour layout (chars (of_chars (ESC :: chars "[") +:+ code +:+ "m" +:+ line +:+ of_chars (ESC :: chars "[0m"))).
Proof.
  intros Hc Hcode Hl. rewrite styled_line_chars. apply clean_sgr; [done..|]. apply clean_app; [done|].
  rewrite <-(app_nil_r (sgr "0")). apply clean_sgr; [done| |constructor]. by left.
Qed.

(** A text without line breaks is one span. *)
Lemma clean_styled c layout code t :
  code ∈ SGR_CODES → clean_text (cn_color_enabled c) layout t → clean_text (cn_color_enabled c) layout (styled c code t).
Proof.
  intros Hcode Ht. unfold styled. destruct (cn_color_enabled c) eqn:Ec; simpl; [|done].
  destruct layout.
  - apply clean_joined, Forall_fmap. eapply Forall_impl; [by apply clean_lines|].
    intros line Hl. unfold clean_text in *; simpl in *. case_decide; [constructor|]. by apply clean_styled_line.
  - assert (split NEWLINE (as_str t) = [as_str t]) as ->.
    { apply split_free. unfold clean_text in Ht. revert Ht. generalize (chars (as_str t)).
      induction 1 as [|d l Hd _ IH| |code' l Hc' Hcode' _ IH]; [set_solver| |done|].
      - intros [<-|?]%elem_of_cons; [done|by apply IH].
      - intros [H|H]%elem_of_app; [by apply (sgr_no_newline _ Hcode') in H|by apply IH]. }
    unfold clean_text in *; simpl. case_decide; [constructor|]. by apply clean_styled_line.
Qed.

Lemma clean_bold {A} `{ToText A} c layout (a : A) :
  clean_text (cn_color_enabled c) layout (to_text a) → clean_text (cn_color_enabled c) layout (bold c a).
Proof. apply clean_styled. vm_compute. set_solver. Qed.

Lemma clean_bold_colored {A} `{ToText A} c color layout (a : A) :
  clean_text (cn_color_enabled c) layout (to_text a) → clean_text (cn_color_enabled c) layout (bold_colored c color a).
Proof. apply clean_styled. destruct color; vm_compute; set_solver. Qed.

Lemma clean_raw colour layout s :
  forallb (λ c, negb (is_control c)) (chars s) = true → clean_text colour layout (raw s).
Proof. apply clean_literal. Qed.

Lemma clean_command c cmd : clean_text (cn_color_enabled c) true (command c cmd).
Proof. apply clean_bold, clean_of_message. Qed.

Create HintDb clean.
#[export] Hint Resolve clean_of_string clean_of_message clean_of_nat clean_bold clean_bold_colored clean_command
  clean_parts : clean.
#[export] Hint Constructors Forall : clean.
#[export] Hint Extern 1 (clean_text _ _ (raw _)) => apply clean_raw; reflexivity : clean.
#[export] Hint Extern 2 (clean_text _ _ (to_text ?t)) => change (to_text t) with t : clean.

(** The parts of a text, each by the hints. *)
Ltac clean_tac := auto 30 with clean.

(** ** Clean writes *)

Definition clean_write (w : write) : Prop := clean (cn_color_enabled w.1) true w.2.

Lemma clean_println c t : clean_text (cn_color_enabled c) true t → clean_write (println c t).
Proof. intros H. apply clean_app; [done|]. apply clean_layout; [done|by left|constructor]. Qed.
#[export] Hint Resolve clean_println : clean.

Lemma clean_cleaning_up c cause : clean_text (cn_color_enabled c) true (cleaning_up c cause).
Proof. destruct cause as [[]|]; unfold cleaning_up; clean_tac. Qed.

Lemma clean_summary c task exit_code duration :
  clean_text (cn_color_enabled c) true (format_task_summary c task exit_code duration).
Proof. unfold format_task_summary. clean_tac. Qed.

Lemma clean_failed_summary c task duration :
  clean_text (cn_color_enabled c) true (format_task_failed_summary c task duration).
Proof. unfold format_task_failed_summary. clean_tac. Qed.

Lemma clean_nothing_more c task : clean_text (cn_color_enabled c) true (nothing_more_to_do c task).
Proof. unfold nothing_more_to_do. clean_tac. Qed.

Lemma clean_exited c exit_code : clean_text (cn_color_enabled c) true (exited_unexpectedly c exit_code).
Proof. unfold exited_unexpectedly. clean_tac. Qed.
#[export] Hint Resolve clean_cleaning_up clean_summary clean_failed_summary clean_nothing_more clean_exited : clean.

(** A posted message is a text its poster made clean. *)
Definition message_clean (colour : bool) (e : TaskEvent) : Prop :=
  match e with
  | NoticePosted m | WarningPosted m | ErrorPosted m => clean_text colour true m
  | _ => True
  end.

Definition is_stderr_class (e : TaskEvent) : bool :=
  match e with NoticePosted _ | WarningPosted _ | ErrorPosted _ => true | _ => false end.

Lemma stderr_class_write c e w :
  print_stderr_class c e = Some w →
  is_stderr_class e = true ∧ w.1 = c ∧ (message_clean (cn_color_enabled c) e → clean_write w).
Proof.
  destruct e; intros [= <-]; split_and!; try done; cbn [message_clean]; intros Hm;
    unfold error_line, warning, notice; clean_tac.
Qed.

Lemma stderr_class_None c e : print_stderr_class c e = None → is_stderr_class e = false.
Proof. by destruct e. Qed.

(** ** [simple] *)

Definition simple_lines (console stderr : Console) (e : TaskEvent) (w : write) : Prop :=
  w.1 = (if is_stderr_class e then stderr else console) ∧
  (message_clean (cn_color_enabled stderr) e → clean_write w).

Lemma simple_line console stderr e t :
  is_stderr_class e = false → clean_text (cn_color_enabled console) true t →
  simple_lines console stderr e (println console t).
Proof. intros He Ht. unfold simple_lines. rewrite He. split; [done|]. intros _. by apply clean_println. Qed.

Lemma separator_lines console stderr e printed :
  is_stderr_class e = false → Forall (simple_lines console stderr e) (separator console printed).
Proof. intros He. destruct printed; repeat constructor; apply simple_line; clean_tac. Qed.

Lemma simple_post_lines console stderr s e : Forall (simple_lines console stderr e) (simple_post console stderr s e).2.
Proof.
  unfold simple_post. destruct (print_stderr_class stderr e) as [w|] eqn:Ew.
  { apply stderr_class_write in Ew as (He & Hw & Hc). repeat constructor; [by rewrite He, Hw|done]. }
  apply stderr_class_None in Ew.
  destruct e; cbn [snd]; try apply Forall_nil_2; try discriminate Ew;
    try (apply Forall_app_2; [by apply separator_lines|]);
    try (case_decide; cbn [snd]; [apply Forall_nil_2|]);
    try (apply Forall_singleton, simple_line; [done|clean_tac]).
  - apply clean_parts. repeat (apply Forall_cons_2; [|]); try apply Forall_nil_2; try clean_tac.
    destruct run_in; clean_tac.
  - destruct command; apply Forall_singleton, simple_line; clean_tac.
  - destruct (si_started_cleanup s); simpl; [apply Forall_nil_2|].
    repeat apply Forall_cons_2; [| |apply Forall_nil_2]; apply simple_line; clean_tac.
Qed.

(** ** [all] *)

(** A line of a program's own output, after a clean prefix. *)
Definition program_line (e : TaskEvent) (w : write) : Prop :=
  ∃ line prefix piece,
    ((∃ container, e = ContainerOutput container line) ∨ (∃ container index, e = SetupCommandOutput container index line))
  ∧ clean (cn_color_enabled w.1) false prefix ∧ piece ∈ split NEWLINE line
  ∧ w.2 = prefix ++ chars piece ++ [NEWLINE].

Section interleaved.
Context `{!UnicodeWidth} (console stderr result_console : Console).

Notation post := (interleaved_post console stderr result_console).

Lemma prefixed_piece c s name color t w :
  w ∈ print_prefixed c s name color t →
  w.1 = c ∧ ∃ prefix piece, clean (cn_color_enabled c) false prefix ∧ piece ∈ split NEWLINE (as_str t)
    ∧ w.2 = prefix ++ chars piece ++ [NEWLINE].
Proof.
  unfold print_prefixed. intros (line & -> & Hl)%list_elem_of_fmap. split; [done|].
  set (padded := text [to_text name; _]).
  assert (clean_text (cn_color_enabled c) false
    (match color with Some color => bold_colored c color padded | None => bold c padded end)) as Hp.
  { destruct color; [apply clean_bold_colored|apply clean_bold]; apply clean_parts; clean_tac. }
  eexists (chars (as_str _) ++ chars " | "), line. split_and!; [apply clean_app; [exact Hp|by apply clean_literal]|done|].
  simpl. rewrite chars_of_chars, !app_nil_r, <-!(assoc_L (++)). done.
Qed.

Lemma clean_prefixed c s name color t :
  clean_text (cn_color_enabled c) true t → Forall clean_write (print_prefixed c s name color t).
Proof.
  intros Ht. apply Forall_forall. intros w (Hc & prefix & piece & Hp & Hl & E)%prefixed_piece.
  unfold clean_write. rewrite Hc, E. apply clean_app; [by eapply clean_weaken|]. apply clean_app.
  - apply clean_lines in Ht. rewrite Forall_forall in Ht. by apply Ht.
  - apply clean_layout; [done|by left|constructor].
Qed.

(** Where a write of an event goes. *)
Definition written_to (s : InterleavedState) (e : TaskEvent) : Console :=
  match e with
  | ContainerOutput container _ => if decide (il_task_container s = Some container) then result_console else console
  | _ => if is_stderr_class e then stderr else console
  end.

Definition interleaved_lines (s : InterleavedState) (e : TaskEvent) (w : write) : Prop :=
  w.1 = written_to s e ∧ (message_clean (cn_color_enabled stderr) e → clean_write w ∨ program_line e w).

Lemma prefixed_lines s e s' name color t :
  written_to s e = console → clean_text (cn_color_enabled console) true t →
  Forall (interleaved_lines s e) (print_prefixed console s' name color t).
Proof.
  intros Hw Ht. apply Forall_forall. intros w Hin. split.
  - rewrite Hw. by apply prefixed_piece in Hin as [? _].
  - intros _. left. revert w Hin. apply Forall_forall, clean_prefixed, Ht.
Qed.

Lemma preamble_lines s e s' :
  written_to s e = console → Forall (interleaved_lines s e) (flush_preamble_if_pending console s').2.
Proof.
  intros Hw. unfold flush_preamble_if_pending. destruct (il_preamble_pending s'); [|apply Forall_nil_2].
  apply prefixed_lines; [done|clean_tac].
Qed.

Lemma image_lines s e containers line :
  written_to s e = console → clean_text (cn_color_enabled console) true line →
  Forall (interleaved_lines s e) (containers ≫= λ container : string, print_for_container console s container line).
Proof.
  intros Hw Hl. induction containers as [|c l IH]; csimpl; [apply Forall_nil_2|].
  apply Forall_app_2; [by apply prefixed_lines|done].
Qed.

Lemma output_pieces s name color c container line w e :
  e = ContainerOutput container line → w ∈ print_prefixed c s name color (raw line) → program_line e w.
Proof.
  intros He (Hc & prefix & piece & Hp & Hl & E)%prefixed_piece.
  exists line, prefix, piece. split_and!; eauto. by rewrite Hc.
Qed.

Lemma setup_output_pieces s name color c container index line w e :
  e = SetupCommandOutput container index line →
  w ∈ print_prefixed c s name color (text [raw "Setup command "; to_text index; raw " | "; raw line]) →
  program_line e w.
Proof.
  intros He (Hc & prefix & piece & Hp & Hl & E)%prefixed_piece.
  set (label := chars "Setup command " ++ chars (show_nat index) ++ chars " | ").
  assert (clean (cn_color_enabled c) false label) as Hlabel.
  { apply clean_app; [by apply clean_literal|]. apply clean_app; [apply clean_printing, show_N_prints|by apply clean_literal]. }
  assert (NEWLINE ∉ label) as Hn.
  { intros Hn. assert (Forall (λ c, is_control c = false) label) as Hall.
    { repeat apply Forall_app_2; try apply show_N_prints; by repeat constructor. }
    rewrite Forall_forall in Hall. by specialize (Hall _ Hn). }
  unfold split in Hl. simpl in Hl. rewrite chars_of_chars, app_nil_r in Hl.
  apply list_elem_of_fmap in Hl as (p & -> & Hl).
  destruct (split_l_cons_free NEWLINE label (chars line) Hn) as (h & t & Eh & Et).
  unfold label in Et. rewrite <-!(assoc_L (++)) in Et. simpl in Hl. setoid_rewrite Et in Hl.
  apply elem_of_cons in Hl as [-> | Hl].
  - exists line, (prefix ++ label), (of_chars h). split_and!; [by eauto| | |].
    + rewrite Hc. by apply clean_app.
    + apply list_elem_of_fmap. exists h. rewrite Eh. split; [done|by left].
    + rewrite E. unfold label. rewrite !chars_of_chars, <-!(assoc_L (++)). done.
  - exists line, prefix, (of_chars p). split_and!; [by eauto|by rewrite Hc| |done].
    apply list_elem_of_fmap. exists p. rewrite Eh. split; [done|by right].
Qed.

Lemma interleaved_post_lines s e : Forall (interleaved_lines s e) (post s e).2.
Proof.
  unfold interleaved_post. destruct (print_stderr_class stderr e) as [w|] eqn:Ew.
  { apply stderr_class_write in Ew as (He & Hw & Hc). apply Forall_singleton. split; [rewrite Hw; by destruct e|by left; auto]. }
  apply stderr_class_None in Ew.
  destruct e; cbn [snd]; try apply Forall_nil_2; try discriminate Ew;
    try (apply preamble_lines; done);
    try (apply image_lines; [done|clean_tac]);
    try (apply prefixed_lines; [done|solve [clean_tac]]).
  - destruct (container_for_build_tag _ _) as [c|]; [|apply Forall_nil_2].
    induction (split NEWLINE message) as [|line lines IH]; csimpl; [apply Forall_nil_2|].
    apply Forall_app_2; [apply prefixed_lines; [done|clean_tac]|done].
  - apply prefixed_lines; [done|]. apply clean_parts. repeat (apply Forall_cons_2; [|]); try apply Forall_nil_2; try clean_tac. destruct run_in; clean_tac.
  - apply prefixed_lines; [done|]. destruct command; clean_tac.
  - destruct (il_started_cleanup s); simpl; [apply Forall_nil_2|]. apply prefixed_lines; [done|clean_tac].
  - case_decide as Ht; cbn [snd]; apply Forall_forall; intros w Hw; (split;
      [simpl; by rewrite ?decide_True, ?decide_False by done; apply prefixed_piece in Hw as [? _]
      |intros _; right; by eapply output_pieces]).
  - apply Forall_forall. intros w Hw. split; [by apply prefixed_piece in Hw as [? _]|].
    intros _. right. by eapply setup_output_pieces.
Qed.
End interleaved.

(** ** Runs of events *)

Lemma posts_each {S} (post : S → TaskEvent → S * list write) (P : TaskEvent → write → Prop) s events :
  (∀ s e, Forall (P e) (post s e).2) →
  Forall (λ w, ∃ e, e ∈ events ∧ P e w) (posts post s events).2.
Proof.
  intros H. revert s. induction events as [|e events IH]; intros s; simpl; [apply Forall_nil_2|].
  specialize (H s e). destruct (post s e) as [s' ws]. specialize (IH s'). destruct (posts post s' events) as [s'' ws'].
  simpl in *. apply Forall_app_2.
  - eapply Forall_impl; [exact H|]. intros w Hw. exists e. split; [by left|done].
  - eapply Forall_impl; [exact IH|]. intros w (e' & He & Hw). exists e'. split; [by right|done].
Qed.

Lemma translate_clean colour layout previous l :
  clean colour layout l → previous ≠ Some RETURN →
  translate previous l = l ≫= λ c, if decide (c = NEWLINE) then [RETURN; NEWLINE] else [c].
Proof.
  intros Hl. assert (RETURN ∉ l) as Hr.
  { induction Hl as [|c l Hc _ IH|c l _ [-> | ->] _ IH|code l _ Hcode _ IH]; [set_solver| |set_solver|set_solver|].
    - intros [<-|?]%elem_of_cons; [done|by apply IH].
    - assert (bool_decide (RETURN ∉ sgr code) = true) as Hb%bool_decide_eq_true; [|set_solver].
      revert code Hcode. refine (proj1 (Forall_forall _ _) _). vm_compute. repeat constructor. }
  clear Hl. revert previous. induction l as [|c l IH]; intros previous Hp; csimpl; [done|].
  apply not_elem_of_cons in Hr as [Hc Hr]. rewrite IH; [|done|congruence].
  case_decide as E.
  - subst c. rewrite (bool_decide_eq_true_2 (NEWLINE = NEWLINE)) by done. by rewrite bool_decide_eq_true_2.
  - by rewrite (bool_decide_eq_false_2 (c = NEWLINE)).
Qed.

Lemma translated_free l : NEWLINE ∉ l → (l ≫= λ c, if decide (c = NEWLINE) then [RETURN; NEWLINE] else [c]) = l.
Proof.
  induction l as [|c l IH]; csimpl; [done|]. intros [Hc Hl]%not_elem_of_cons.
  rewrite decide_False by congruence. simpl. by rewrite IH.
Qed.

(** In raw mode a terminal is given [\r\n] for each line break, and nothing else
    changes. *)
Lemma written_clean active w :
  clean_write w →
  written active w =
    if cn_is_terminal w.1 && active then w.2 ≫= λ c, if decide (c = NEWLINE) then [RETURN; NEWLINE] else [c]
    else w.2.
Proof.
  intros Hw. unfold written, line_endings. destruct (cn_is_terminal w.1 && active); simpl; [|done].
  case_bool_decide as E; [by rewrite translated_free|by eapply translate_clean].
Qed.

Lemma quiet_lines stderr events :
  Forall (message_clean (cn_color_enabled stderr)) events →
  Forall (λ w, w.1 = stderr ∧ clean_write w) (events ≫= quiet_post stderr).
Proof.
  induction 1 as [|e events He _ IH]; csimpl; [apply Forall_nil_2|]. apply Forall_app_2; [|done].
  unfold quiet_post. destruct (print_stderr_class stderr e) as [w|] eqn:Ew; simpl; [|apply Forall_nil_2].
  apply stderr_class_write in Ew as (_ & Hw & Hc). apply Forall_singleton. auto.
Qed.

Lemma selected_fancy requested no_color t progress :
  select_output_style requested no_color t progress = Fancy →
  requested = Some Fancy ∨ requested = None ∧ no_color = false ∧ explicit_fancy_refusal t progress = None.
Proof.
  unfold select_output_style, supports_interactivity. destruct requested; [naive_solver|].
  destruct no_color; rewrite ?andb_false_r; [done|]. rewrite andb_true_r.
  case_bool_decide; simpl; [|done]. case_bool_decide; [|done]. naive_solver.
Qed.

Lemma sink_refused requested mode t progress reason :
  create_event_sink requested mode t progress = Err (FancyRefused reason) ↔
    requested = Some Fancy ∧ explicit_fancy_refusal t progress = Some reason.
Proof.
  unfold create_event_sink. split.
  - destruct (select_output_style _ _ _ _) eqn:Es; try done.
    apply selected_fancy in Es as [-> | (_ & _ & ->)]; [|done].
    destruct (explicit_fancy_refusal t progress); naive_solver.
  - intros [-> E]. simpl. by rewrite E.
Qed.


(** A run with a task whose name would ring the terminal's bell. *)
Module Posts.
#[local] Instance latin_width : UnicodeWidth := {|
  char_width c := if is_control c then None else Some 1;
  str_width s := length (filter (λ c, is_control c = false) (chars s));
|}.

Definition plain : Console := mk_console Stdout false true.
Definition coloured : Console := mk_console Stderr true true.
Definition bell : string := String (ascii_of_N 7) "db".
Definition events : list TaskEvent :=
  [TaskStarting "test"; TaskGraphResolved [mk_info bell (Some "postgres") None [] false false;
                                           mk_info "app" None (Some "app") [bell] false true];
   ImagePullStarting "postgres"; WarningPosted (text [raw "slow "; to_text bell]);
   ContainerOutput "app" (String ESC "[2J")].


Example bell_escaped :
  (λ w, of_chars w.2) <$> (posts (interleaved_post plain coloured plain) interleaved_new events).2 !! 1 =
    Some ("\u{7}db | Pulling postgres..." +:+ of_chars [NEWLINE]).
Proof. vm_compute. reflexivity. Qed.
End Posts.
