(* ===== verification/Screen.v ===== *)
(** * Screen: a terminal, as far as Ratect uses one

    What a terminal of [cols] columns and [height] rows makes of the bytes it is
    given.  It is partial on purpose: a char written over another, a cursor moved
    above the top row, a row erased from its middle and a sequence Ratect never
    writes have no result, so that bytes with one do none of these. *)

From S2P Require Import Prelude Text Collections Displays FancyDisplay DisplaysSpec.
From stdpp Require Import options.

(** The rows above the cursor's, its row, whether it is in the first column or after
    the row's last char, and the rows below. *)
Record screen := mk_screen {
  sn_above : list (list ascii);
  sn_line : list ascii;
  sn_home : bool;
  sn_below : list (list ascii);
}.

Inductive mode := Ground | Escaped | Csi (params : list ascii).

Section screen.
Context `{!UnicodeWidth} (cols height : nat).

Definition row_width (l : list ascii) : nat := sum_list_with width_of l.

Definition next_row (s : screen) : screen :=
  mk_screen (sn_above s ++ [sn_line s]) (default [] (head (sn_below s))) true (tail (sn_below s)).

(** A char after those of the row, or on the next row if it does not fit. *)
Definition put (c : ascii) (s : screen) : option screen :=
  if sn_home s && bool_decide (sn_line s ≠ []) then None
  else if decide (row_width (sn_line s) + width_of c ≤ cols) then
    Some (mk_screen (sn_above s) (sn_line s ++ [c]) false (sn_below s))
  else if decide (width_of c ≤ cols ∧ sn_line (next_row s) = []) then
    Some (mk_screen (sn_above (next_row s)) [c] false (sn_below (next_row s)))
  else None.

(** Blanks up to the next of the stops, eight columns apart. *)
Definition put_tab (s : screen) : option screen :=
  if sn_home s && bool_decide (sn_line s ≠ []) then None
  else
    let column := row_width (sn_line s) in
    let line := sn_line s ++ replicate (Nat.min (8 - column mod 8) (cols - 1 - column)) " "%char in
    Some (mk_screen (sn_above s) line (bool_decide (line = [])) (sn_below s)).

Definition move_up (n : nat) (s : screen) : option screen :=
  let top := length (sn_above s) + 1 + length (sn_below s) - height in
  let row := length (sn_above s) - n in
  if sn_home s && bool_decide (n ≤ length (sn_above s) ∧ top ≤ row) then
    Some (mk_screen (take row (sn_above s)) (default [] (sn_above s !! row)) true
      (drop (S row) (sn_above s) ++ sn_line s :: sn_below s))
  else None.

Definition erase_line (s : screen) : option screen :=
  if sn_home s then Some (mk_screen (sn_above s) [] true (sn_below s)) else None.

Definition csi (params : list ascii) (final : ascii) (s : screen) : option screen :=
  if decide (final = "m"%char) then Some s
  else if decide (final = "A"%char) then n ← parse_digits 0 params; move_up (Nat.max 1 (N.to_nat n)) s
  else if decide (final = "K"%char ∧ params = chars "2") then erase_line s
  else None.

Fixpoint feed (m : mode) (s : screen) (bytes : list ascii) : option screen :=
  match bytes with
  | [] => match m with Ground => Some s | _ => None end
  | c :: bytes =>
      match m with
      | Ground =>
          if decide (c = ESC) then feed Escaped s bytes
          else if decide (c = NEWLINE) then feed Ground (next_row s) bytes
          else if decide (c = RETURN) then feed Ground (mk_screen (sn_above s) (sn_line s) true (sn_below s)) bytes
          else if decide (c = TAB) then s ← put_tab s; feed Ground s bytes
          else if is_control c then None
          else s ← put c s; feed Ground s bytes
      | Escaped => if decide (c = "["%char) then feed (Csi []) s bytes else None
      | Csi params =>
          if is_ascii_digit c || bool_decide (c = ";"%char) then feed (Csi (params ++ [c])) s bytes
          else s ← csi params c s; feed Ground s bytes
      end
  end.

Lemma feed_app m s s' bytes rest : feed m s bytes = Some s' → feed m s (bytes ++ rest) = feed Ground s' rest.
Proof.
  revert m s. induction bytes as [|c bytes IH]; intros m s; simpl; [by destruct m; intros [= ->]|].
  assert (∀ o : option screen, (s ← o; feed Ground s bytes) = Some s' →
    (s ← o; feed Ground s (bytes ++ rest)) = feed Ground s' rest) as Hbind.
  { intros [s1|]; simpl; [by apply IH|done]. }
  destruct m as [| |params].
  - repeat case_decide; try done; try (by apply IH); try (by apply Hbind).
    destruct (is_control c); [done|]. apply Hbind.
  - case_decide; [by apply IH|done].
  - destruct (_ || _); [by apply IH|]. apply Hbind.
Qed.

(** A style is no char. *)
Lemma feed_sgr code s rest : code ∈ SGR_CODES → feed Ground s (sgr code ++ rest) = feed Ground s rest.
Proof.
  intros Hcode. apply feed_app. revert code Hcode. refine (proj1 (Forall_forall _ _) _).
  repeat (apply Forall_cons_2; [reflexivity|]). apply Forall_nil_2.
Qed.

Lemma feed_up n s rest :
  0 < n → feed Ground s (cursor_up n ++ rest) = s ← move_up n s; feed Ground s rest.
Proof.
  intros Hn. unfold cursor_up. cbn [app feed]. rewrite decide_True by done.
  change (chars ("[" +:+ show_nat n +:+ "A")) with ("["%char :: chars (show_nat n +:+ "A")).
  cbn [app feed]. rewrite decide_True by done. rewrite chars_app, <-(assoc_L (++)).
  assert (∀ params digits tl, Forall (λ c, is_ascii_digit c = true) digits →
    feed (Csi params) s (digits ++ tl) = feed (Csi (params ++ digits)) s tl) as Hd.
  { intros params digits tl Hd. revert params. induction Hd as [|c l Hc _ IH]; intros params; [by rewrite app_nil_r|].
    cbn [app feed]. rewrite Hc. cbn [orb]. rewrite IH, <-(assoc_L (++)). done. }
  rewrite Hd by (apply Forall_forall; intros c; apply show_N_digits). cbn [app feed]. simpl.
  unfold csi. rewrite decide_False by done. rewrite decide_True by done.
  unfold show_nat. rewrite parse_shown.
  simpl. replace (Nat.max 1 (N.to_nat (N.of_nat n))) with n by lia. by destruct (move_up n s).
Qed.

(** ** Rows *)

(** The chars of a text that show: those outside its escapes. *)
Fixpoint shown_from (in_escape : bool) (l : list ascii) : list ascii :=
  match l with
  | [] => []
  | c :: l =>
      if in_escape then shown_from (negb (is_ascii_alphabetic c)) l
      else if decide (c = ESC) then shown_from true l
      else c :: shown_from false l
  end.
Definition shown (l : list ascii) : list ascii := shown_from false l.

Lemma row_width_app l k : row_width (l ++ k) = row_width l + row_width k.
Proof. apply sum_list_with_app. Qed.

Lemma width_of_shown l : display_width l = row_width (shown l).
Proof.
  unfold display_width, shown. generalize false. induction l as [|c l IH]; intros b; simpl; [done|].
  destruct b; [done|]. case_decide; [done|]. by rewrite IH.
Qed.

Lemma shown_sgr code l : code ∈ SGR_CODES → shown (sgr code ++ l) = shown l.
Proof.
  revert code. refine (proj1 (Forall_forall _ _) _).
  repeat (apply Forall_cons_2; [reflexivity|]). apply Forall_nil_2.
Qed.

Lemma printing_char c : is_control c = false → c ≠ ESC ∧ c ≠ NEWLINE ∧ c ≠ RETURN ∧ c ≠ TAB.
Proof. intros Hc. split_and!; by intros ->. Qed.

Lemma shown_char c l : is_control c = false → shown (c :: l) = c :: shown l.
Proof. intros Hc. unfold shown. simpl. by rewrite decide_False by apply printing_char, Hc. Qed.

Lemma feed_char c s rest :
  is_control c = false → feed Ground s (c :: rest) = s ← put c s; feed Ground s rest.
Proof.
  intros Hc. cbn [feed]. destruct (printing_char c Hc) as (? & ? & ? & ?).
  by rewrite !decide_False, Hc by done.
Qed.

Lemma feed_newline s rest : feed Ground s (NEWLINE :: rest) = feed Ground (next_row s) rest.
Proof. done. Qed.

(** The cursor is at the end of its row. *)
Definition at_end (above : list (list ascii)) (line : list ascii) (below : list (list ascii)) : screen :=
  mk_screen above line (bool_decide (line = [])) below.

Lemma put_fits c above line below :
  row_width line + width_of c ≤ cols →
  put c (at_end above line below) = Some (at_end above (line ++ [c]) below).
Proof.
  intros Hw. unfold put, at_end. cbn [sn_home sn_line sn_above sn_below].
  replace (bool_decide (line = []) && bool_decide (line ≠ [])) with false by by repeat case_bool_decide.
  rewrite decide_True by done. rewrite bool_decide_eq_false_2 by (by destruct line). done.
Qed.

(** A clean row that fits is typed on its row. *)
Lemma feed_row colour l above line below :
  clean colour false l → row_width line + display_width l ≤ cols →
  feed Ground (at_end above line below) l = Some (at_end above (line ++ shown l) below).
Proof.
  intros Hl. rewrite width_of_shown. revert line.
  induction Hl as [|c l Hc _ IH|c l Hlay|code l _ Hcode _ IH]; intros line Hw; [|..|done|].
  - by rewrite app_nil_r.
  - rewrite shown_char in * by done. simpl in Hw. rewrite feed_char by done.
    rewrite put_fits by (unfold row_width in *; simpl in *; lia). simpl. rewrite IH.
    + by rewrite <-(assoc_L (++)).
    + rewrite row_width_app. unfold row_width in *. simpl in *. lia.
  - rewrite shown_sgr in * by done. rewrite feed_sgr by done. by apply IH.
Qed.

Definition painted_row (l : list ascii) : list ascii := CLEAR_LINE ++ l ++ [NEWLINE].

(** A row painted over another. *)
Lemma feed_painted_row colour l above line below rest :
  clean colour false l → display_width l ≤ cols →
  feed Ground (mk_screen above line true below) (painted_row l ++ rest) =
    feed Ground (mk_screen (above ++ [shown l]) (default [] (head below)) true (tail below)) rest.
Proof.
  intros Hl Hw. unfold painted_row. rewrite <-(assoc_L (++)).
  transitivity (feed Ground (at_end above [] below) ((l ++ [NEWLINE]) ++ rest)); [reflexivity|].
  rewrite <-(assoc_L (++)). rewrite (feed_app _ _ (at_end above ([] ++ shown l) below)).
  - reflexivity.
  - eapply feed_row; [exact Hl|]. exact Hw.
Qed.

Definition row_ok (colour : bool) (l : list ascii) : Prop := clean colour false l ∧ display_width l ≤ cols.

Lemma feed_painted_rows colour rows above line below rest :
  Forall (row_ok colour) rows →
  feed Ground (mk_screen above line true below) ((rows ≫= painted_row) ++ rest) =
    feed Ground (mk_screen (above ++ (shown <$> rows)) (default [] ((line :: below) !! length rows)) true
      (drop (length rows) below)) rest.
Proof.
  intros Hrows. revert above line below. induction Hrows as [|l rows [Hl Hw] _ IH]; intros above line below.
  - simpl. by rewrite app_nil_r, drop_0.
  - change ((l :: rows) ≫= painted_row) with (painted_row l ++ (rows ≫= painted_row)).
    rewrite fmap_cons. rewrite <-(assoc_L (++)). erewrite feed_painted_row by done. rewrite IH.
    rewrite <-(assoc_L (++)). destruct below as [|b below]; [|reflexivity].
    cbn [head tail length drop]. rewrite !drop_nil. by destruct (length rows).
Qed.

(** ** Typing on the last row *)

(** What was there stays: each row above the last is as it was, and the last one is
    at most continued. *)
Definition extends (s s' : screen) : Prop :=
  ∃ more rest, sn_above s' ++ [sn_line s'] = sn_above s ++ (sn_line s ++ more) :: rest.

Lemma extends_refl s : extends s s.
Proof. exists [], []. by rewrite app_nil_r. Qed.

Lemma extends_trans s1 s2 s3 : extends s1 s2 → extends s2 s3 → extends s1 s3.
Proof.
  intros (m1 & r1 & E1) (m2 & r2 & E2). unfold extends. rewrite E2.
  destruct r1 as [|x r1 _] using rev_ind.
  - apply app_inj_tail in E1 as [-> ->]. exists (m1 ++ m2), r2. by rewrite (assoc_L (++)).
  - rewrite app_comm_cons, (assoc_L (++)) in E1. apply app_inj_tail in E1 as [-> ->].
    exists m1, (r1 ++ (x ++ m2) :: r2). by rewrite <-(assoc_L (++)).
Qed.

Lemma extends_line above line below more below' home home' :
  extends (mk_screen above line home below) (mk_screen above (line ++ more) home' below').
Proof. by exists more, []. Qed.

Lemma extends_rows above line home below rows last home' below' :
  extends (mk_screen above line home below) (mk_screen (above ++ line :: rows) last home' below').
Proof. exists [], (rows ++ [last]). simpl. by rewrite app_nil_r, <-(assoc_L (++)). Qed.

(** Empty rows are all there is below. *)
Definition open_screen (s : screen) : Prop :=
  ∃ above line k, k ≤ 1 ∧ s = at_end above line (replicate k []).

Lemma open_newline s : open_screen s → open_screen (next_row s) ∧ extends s (next_row s) ∧ sn_line (next_row s) = [].
Proof.
  intros (above & line & k & Hk & ->). unfold next_row, at_end. cbn [sn_above sn_line sn_below].
  assert (default [] (head (replicate k (@nil ascii))) = []) as -> by (by destruct k). split_and!; [|by apply (extends_rows _ _ _ _ [])|done].
  exists (above ++ [line]), [], (k - 1). split; [lia|]. unfold at_end. simpl. f_equal. destruct k as [|k]; simpl; [done|].
  by replace (k - 0) with k by lia.
Qed.

Lemma open_put c s :
  width_of c ≤ cols → open_screen s → ∃ s', put c s = Some s' ∧ open_screen s' ∧ extends s s'.
Proof.
  intros Hc (above & line & k & Hk & ->).
  destruct (decide (row_width line + width_of c ≤ cols)) as [Hw|Hw].
  - rewrite put_fits by done. eexists. split_and!; [done| |apply extends_line]. by exists above, (line ++ [c]), k.
  - destruct (open_newline (at_end above line (replicate k []))) as (Ho & He & Hl); [by exists above, line, k|].
    unfold put. rewrite (decide_False (P := _ ≤ _)) by done. rewrite decide_True by done.
    unfold at_end at 1 2. cbn [sn_home sn_line].
    replace (bool_decide (line = []) && bool_decide (line ≠ [])) with false by by repeat case_bool_decide.
    eexists. split_and!; [done| |].
    + exists (above ++ [line]), [c], (k - 1). split; [lia|]. unfold at_end, next_row. simpl. f_equal.
      destruct k as [|k]; simpl; [done|]. by replace (k - 0) with k by lia.
    + apply (extends_rows above line _ _ []).
Qed.

Lemma open_tab s : open_screen s → ∃ s', put_tab s = Some s' ∧ open_screen s' ∧ extends s s'.
Proof.
  intros (above & line & k & Hk & ->). unfold put_tab. unfold at_end at 1 2. cbn [sn_home sn_line].
  replace (bool_decide (line = []) && bool_decide (line ≠ [])) with false by by repeat case_bool_decide.
  eexists. split_and!; [done| |apply extends_line]. by eexists above, _, k.
Qed.

Lemma feed_clean colour layout l s :
  (∀ c, width_of c ≤ cols) → clean colour layout l → open_screen s →
  ∃ s', feed Ground s l = Some s' ∧ open_screen s' ∧ extends s s'.
Proof.
  intros Hcols Hl. revert s.
  assert (∀ s s1 l, open_screen s1 ∧ extends s s1 →
    (∀ s, open_screen s → ∃ s', feed Ground s l = Some s' ∧ open_screen s' ∧ extends s s') →
    ∃ s', feed Ground s1 l = Some s' ∧ open_screen s' ∧ extends s s') as Hstep.
  { intros s s1 k [Ho He] IH. destruct (IH s1 Ho) as (s' & -> & Ho' & He'). exists s'. split_and!; [done..|].
    by eapply extends_trans. }
  induction Hl as [|c l Hc _ IH|c l _ [-> | ->] _ IH|code l _ Hcode _ IH]; intros s Hs.
  - exists s. split_and!; [done..|apply extends_refl].
  - rewrite feed_char by done. destruct (open_put c s (Hcols c) Hs) as (s1 & -> & H1). by eapply Hstep.
  - rewrite feed_newline. destruct (open_newline s Hs) as (Ho & He & _). by eapply Hstep.
  - change (feed Ground s (TAB :: l)) with (s ← put_tab s; feed Ground s l).
    destruct (open_tab s Hs) as (s1 & -> & H1). by eapply Hstep.
  - rewrite feed_sgr by done. by apply IH.
Qed.

(** A line is typed, and the cursor goes to an empty row. *)
Lemma feed_line colour l s :
  (∀ c, width_of c ≤ cols) → clean colour true l → open_screen s →
  ∃ s', feed Ground s (l ++ [NEWLINE]) = Some s' ∧ open_screen s' ∧ extends s s' ∧ sn_line s' = [].
Proof.
  intros Hcols Hl Hs. destruct (feed_clean colour true l s Hcols Hl Hs) as (s1 & E & Ho & He).
  erewrite feed_app by exact E. destruct (open_newline s1 Ho) as (Ho' & He' & Hline).
  exists (next_row s1). split_and!; [done..| |done]. by eapply extends_trans.
Qed.

Lemma feed_up_one s rest : feed Ground s (CURSOR_UP_ONE_AND_CLEAR ++ rest) = s ← move_up 1 s; feed Ground s (CLEAR_LINE ++ rest).
Proof. apply (feed_up 1 s (CLEAR_LINE ++ rest)). lia. Qed.

(** Back to the first of the rows just painted. *)
Lemma move_up_rows above rows :
  length rows + 1 < height → rows ≠ [] →
  move_up (length rows) (mk_screen (above ++ rows) [] true []) =
    Some (mk_screen above (default [] (head rows)) true (tail rows ++ [[]])).
Proof.
  intros Hh Hne. unfold move_up. cbn [sn_above sn_below sn_home sn_line]. rewrite length_app.
  rewrite bool_decide_eq_true_2 by (simpl; lia). simpl.
  replace (length above + length rows - length rows) with (length above) by lia.
  destruct rows as [|r rows]; [done|]. f_equal. f_equal.
  - by rewrite take_app_length.
  - rewrite lookup_app_r by lia. by rewrite Nat.sub_diag.
  - rewrite drop_app_ge by lia. by replace (S (length above) - length above) with 1 by lia.
Qed.
End screen.
