(* ===== verification/FancyDisplaySpec.v ===== *)
(** * FancyDisplaySpec: the live display paints over nothing but itself

    On a terminal whose width is known, the screen after each event is the rows that
    stay, each as it was, and below them the rows of what is live now: one for each
    container of the task while it starts, or the countdown of its cleanup. *)

From S2P Require Import Prelude Text Collections IncludeTrust Outcome Displays FancyDisplay DisplaysSpec Screen.
From stdpp Require Import options.

(** ** Fitting a row *)

Section fit.
Context {uw : UnicodeWidth}.

Lemma width_app colour layout l k :
  clean colour layout l → display_width (l ++ k) = display_width l + display_width k.
Proof.
  rewrite !width_of_shown. assert (∀ l, clean colour layout l → shown (l ++ k) = shown l ++ shown k) as H.
  { induction 1 as [|c l' Hc _ IH|c l' _ Hc _ IH|code l' _ Hcode _ IH]; [done|..].
    - cbn [app]. by rewrite !shown_char, IH by done.
    - destruct Hc as [-> | ->]; simpl; unfold shown in *; simpl; by rewrite IH.
    - rewrite <-(assoc_L (++)), !shown_sgr by done. exact IH. }
  intros Hl. by rewrite H, row_width_app.
Qed.

Lemma width_sgr code : code ∈ SGR_CODES → display_width (sgr code) = 0.
Proof. intros Hc. rewrite width_of_shown, <-(app_nil_r (sgr code)), shown_sgr by done. done. Qed.

Lemma flatten_sgr code : code ∈ SGR_CODES → flatten (sgr code) = sgr code.
Proof.
  revert code. refine (proj1 (Forall_forall _ _) _).
  repeat (apply Forall_cons_2; [reflexivity|]). apply Forall_nil_2.
Qed.

Lemma flatten_clean colour l : clean colour true l → clean colour false (flatten l).
Proof.
  induction 1 as [|c l Hc _ IH|c l _ Hc _ IH|code l Hcol Hcode _ IH].
  - constructor.
  - unfold flatten; csimpl. destruct (printing_char c Hc) as (_ & ? & ? & ?).
    rewrite !bool_decide_eq_false_2 by done. by constructor.
  - destruct Hc as [-> | ->]; by constructor.
  - unfold flatten in *. rewrite fmap_app. setoid_rewrite flatten_sgr; [|done]. by apply clean_sgr.
Qed.

(** The codes are parameters: no char of one ends its escape. *)
Lemma code_params code : code ∈ SGR_CODES → Forall (λ c, is_ascii_alphabetic c = false) ("["%char :: chars code).
Proof.
  revert code. refine (proj1 (Forall_forall _ _) _).
  repeat (apply Forall_cons_2; [by repeat constructor|]). apply Forall_nil_2.
Qed.

Lemma clip_loop_sgr keep out held any kept code l :
  code ∈ SGR_CODES →
  clip_loop keep false out held any kept (sgr code ++ l) = clip_loop keep false out (held ++ sgr code) any kept l.
Proof.
  intros Hcode%code_params. unfold sgr. cbn [app clip_loop]. rewrite decide_True by done.
  assert (∀ params held tl, Forall (λ c, is_ascii_alphabetic c = false) params →
    clip_loop keep true out held any kept (params ++ "m"%char :: tl) =
      clip_loop keep false out (held ++ params ++ ["m"%char]) any kept tl) as H.
  { intros params held' tl Hp. revert held'. induction Hp as [|c params Hc _ IH]; intros held'; cbn [app clip_loop]; [done|].
    rewrite Hc. cbn [negb]. rewrite IH, <-!(assoc_L (++)). done. }
  specialize (H ("["%char :: chars code) (held ++ [ESC]) l Hcode). rewrite <-(assoc_L (++) held) in H.
  rewrite <-(assoc_L (++) (chars code)). exact H.
Qed.

(** What the loop has kept and what it holds. *)
Definition clipped (colour : bool) (keep kept : nat) (out held : list ascii) (any : bool) : Prop :=
  clean colour false out ∧ clean colour false held ∧ display_width out = kept ∧ kept ≤ keep ∧
  display_width held = 0 ∧ (any = false → out = []).

Lemma clip_loop_clipped colour keep l out held any kept :
  clean colour false l → clipped colour keep kept out held any →
  ∃ kept', let '(out, held, any) := clip_loop keep false out held any kept l in
    clipped colour keep kept' out held any.
Proof.
  intros Hl. revert out held any kept.
  induction Hl as [|c l Hc _ IH|c l Hlay|code l Hcol Hcode _ IH]; intros out held any kept H0; [by exists kept| |done|].
  - cbn [clip_loop]. rewrite (decide_False (P := c = ESC)) by apply printing_char, Hc.
    case_decide as Hk; [by exists kept|]. apply IH. destruct H0 as (Ho & Hh & Hw & Hle & Hz & _).
    assert (clean colour false [c]) as Hc1 by by repeat constructor.
    split_and!; [by repeat apply clean_app|constructor| |lia|done|done].
    rewrite (width_app colour false), (width_app colour false) by done. rewrite Hz, Hw. simpl.
    rewrite width_of_shown, shown_char by done. simpl. lia.
  - rewrite clip_loop_sgr by done. apply IH. destruct H0 as (Ho & Hh & Hw & Hle & Hz & Hany).
    split_and!; try done.
    + apply clean_app; [done|]. rewrite <-(app_nil_r (sgr code)). apply clean_sgr; [done..|constructor].
    + rewrite (width_app colour false) by done. rewrite Hz, width_sgr by done. done.
Qed.

Lemma last_escape_clean colour layout l : clean colour layout l → last_escape l ≠ None → colour = true.
Proof.
  intros Hl. destruct colour; [done|]. intros H0. exfalso. apply H0. clear H0.
  induction Hl as [|c l Hc _ IH|c l _ Hc _ IH|]; [done|..|done]; simpl; rewrite IH; apply decide_False.
  - by apply printing_char.
  - by destruct Hc as [-> | ->].
Qed.

Lemma reset_last colour out :
  clean colour false out →
  let r := match last_escape out with
    | Some escape => if bool_decide (RESET `prefix_of` escape) then out else out ++ RESET
    | None => out
    end in
  clean colour false r ∧ display_width r = display_width out.
Proof.
  intros Ho. destruct (last_escape out) as [escape|] eqn:E; [|done]. case_bool_decide; [done|].
  assert (colour = true) as -> by (eapply last_escape_clean; [exact Ho|by rewrite E]).
  assert ("0" ∈ SGR_CODES) as H0 by by left. split.
  - apply clean_app; [done|]. change RESET with (sgr "0" ++ []). apply clean_sgr; [done..|constructor].
  - rewrite (width_app true false) by done. change RESET with (sgr "0"). rewrite width_sgr by done. lia.
Qed.

(** An ellipsis is as wide as its dots. *)
Context (dot_width : width_of "."%char = 1).

Lemma dots_width n : n ≤ 3 → display_width (take n (chars "...")) = n.
Proof using dot_width.
  intros Hn. rewrite width_of_shown. destruct n as [|[|[|[|]]]]; [..|lia]; unfold shown, row_width; simpl;
    rewrite ?dot_width; done.
Qed.

(** A row fitted to three columns or more fits. *)
Lemma fit_row_ok colour l width :
  3 ≤ width → clean colour true l → row_ok width colour (fit_row l (Some width)).
Proof using dot_width.
  intros Hwidth Hl%flatten_clean. unfold row_ok, fit_row, clip_to_width. case_decide as Hd; [done|].
  destruct (clip_loop_clipped colour (width - 3) (flatten l) [] [] false 0 Hl) as (kept & Hk).
  { split_and!; try done; try constructor. lia. }
  destruct (clip_loop _ _ _ _ _ _ _) as [[out held] any]. destruct Hk as (Ho & Hh & Hw & Hle & Hz & Hany).
  assert (∀ n, clean colour false (take n (chars "..."))) as Hdots.
  { intros n. apply clean_printing, Forall_take. by repeat constructor. }
  set (r := if any then _ else _).
  assert (clean colour false r ∧ display_width r ≤ width) as [Hr Hrw].
  { unfold r. destruct any.
    - split; [apply clean_app; [done|]; apply clean_app; [apply (Hdots 3)|done]|].
      rewrite (width_app colour false), (width_app colour false) by (done || apply (Hdots 3)).
      rewrite Hz, Hw. pose proof (dots_width 3 ltac:(lia)) as H3. simpl in H3. simpl. lia.
    - rewrite (Hany eq_refl) in *. split; [apply clean_app; [done|]; apply clean_app; [done|apply Hdots]|].
      rewrite (width_app colour false), (width_app colour false) by done.
      rewrite Hz, dots_width by lia. change (display_width []) with 0. lia. }
  destruct (reset_last colour r Hr) as [H1 H2]. split; [exact H1|]. rewrite H2. exact Hrw.
Qed.
End fit.

(** ** Clean rows *)

Section rows.
Context {uw : UnicodeWidth} (console : Console).

Notation colour := (cn_color_enabled console).

Lemma clean_join colour' layout sep texts :
  forallb (λ c, negb (is_control c)) (chars sep) = true →
  Forall (clean_text colour' layout) texts → clean_text colour' layout (text_join texts sep).
Proof.
  intros Hsep. unfold clean_text at 2, text_join; simpl.
  induction 1 as [|t texts Ht _ IH]; csimpl; [constructor|].
  destruct texts as [|t' texts]; [exact Ht|]. csimpl in *. rewrite !chars_app.
  apply clean_app; [exact Ht|]. apply clean_app; [by apply clean_literal|exact IH].
Qed.

Lemma clean_names names : clean_text colour true (names_list console names).
Proof.
  unfold names_list.
  assert (Forall (clean_text colour true) (reverse ((bold console : string → Text) <$> names))) as H.
  { apply Forall_reverse, Forall_fmap, Forall_true. intros name. unfold compose. clean_tac. }
  destruct (reverse _) as [|last [|t texts]]; [clean_tac|by inversion H|].
  apply Forall_cons in H as [Hlast H]. apply clean_parts.
  repeat (apply Forall_cons_2; [|]); try apply Forall_nil_2; [|by apply clean_raw|done].
  apply clean_join; [done|]. by apply Forall_reverse.
Qed.
#[local] Hint Resolve clean_names : clean.

Lemma clean_description line : clean_text colour true (description console line).
Proof.
  unfold description. destruct (cl_stage line) as [|[]|[]| | |[|n names]| | | | | | | ]; try clean_tac;
    repeat match goal with |- context [match ?o with Some _ => _ | None => _ end] => destruct o end; clean_tac.
Qed.

Lemma clean_render line : clean_text colour true (render console line).
Proof. unfold render. pose proof (clean_description line). clean_tac. Qed.

Lemma clean_cleanup_text st : clean_text colour true (cleanup_text console st).
Proof.
  unfold cleanup_text. case_decide; [|destruct (fa_removing_network st); clean_tac].
  set (names := sort_strings _). clean_tac.
Qed.
End rows.

(** ** What is live *)

(** The screen with the cursor on an empty row below [rows]. *)
Definition fresh (rows : list (list ascii)) : screen := mk_screen rows [] true [].

Section live.
Context {uw : UnicodeWidth} (console : Console) (cols height : nat).

(** A container's row, at a width. *)
Definition row (width : nat) (line : ContainerLine) : list ascii :=
  fit_row (chars (as_str (render console line))) (Some width).

Definition rows_at (width : nat) (st : State) : list (list ascii) := row width <$> fa_lines st.

(** What the terminal shows in a state: the screen of what stays, and what is live
    below it.  Rows painted for a width the terminal no longer has may have been
    wrapped, if they do not fit, and then all of the screen is what stays. *)
Inductive shows (st : State) (scr settled : screen) : Prop :=
| shows_still :
    open_screen scr → settled = scr → fa_cleanup_shown st = false →
    (fa_keep_updating_startup st = true → fa_painted_lines st = 0 ∧ sn_line scr = []) →
    shows st scr settled
| shows_startup above rows width :
    fa_keep_updating_startup st = true → fa_cleanup_shown st = false →
    fa_painted_lines st = length (fa_lines st) → fa_lines st ≠ [] →
    fa_painted_width st = Some width → 3 ≤ width →
    fa_last_rendered st = Some (rendered_rows console (fa_lines st) (Some width)) →
    settled = fresh above → scr = fresh (above ++ (shown <$> rows)) →
    rows = rows_at width st
      ∨ rows = [] ∧ width ≠ cols ∧ ¬ Forall (λ r, display_width r ≤ cols) (rows_at width st) →
    shows st scr settled
| shows_cleanup above rows width :
    fa_keep_updating_startup st = false → fa_cleanup_shown st = true → fa_cleanup_width st = Some width →
    settled = fresh above → scr = fresh (above ++ (shown <$> rows)) →
    (∃ r, rows = [r]) ∨ rows = [] ∧ width ≠ cols →
    shows st scr settled.

(** What holds of every state. *)
Definition wf (st : State) : Prop :=
  length (fa_lines st) + 1 < height ∧
  (fa_painted_lines st = 0 → fa_last_rendered st = None) ∧
  (fa_cleanup_live st = true → fa_keep_updating_startup st = false).

(** States that show the same but for the texts of their rows. *)
Definition same_display (st st' : State) : Prop :=
  length (fa_lines st') = length (fa_lines st) ∧
  fa_painted_lines st' = fa_painted_lines st ∧ fa_painted_width st' = fa_painted_width st ∧
  fa_last_rendered st' = fa_last_rendered st ∧ fa_keep_updating_startup st' = fa_keep_updating_startup st ∧
  fa_cleanup_shown st' = fa_cleanup_shown st ∧ fa_cleanup_live st' = fa_cleanup_live st ∧
  fa_cleanup_width st' = fa_cleanup_width st.

Lemma same_wf st st' : same_display st st' → wf st → wf st'.
Proof. intros (E0 & E1 & _ & E2 & E3 & _ & E4 & _) Hwf. unfold wf. rewrite E0, E1, E2, E3, E4. exact Hwf. Qed.

Lemma shows_same st st' scr settled :
  same_display st st' → fa_lines st' = fa_lines st → shows st scr settled → shows st' scr settled.
Proof.
  intros (_ & E1 & E2 & E3 & E4 & E5 & _ & E6) El [Ho Hs Hc Hk|above rows width Hk Hc Hp Hne Hw Hw3 Hl Hs Hscr Hr
    |above rows width Hk Hc Hw Hs Hscr Hr].
  - apply shows_still; [done..|congruence|]. by rewrite E4, E1.
  - apply (shows_startup _ _ _ above rows width); unfold rows_at; rewrite ?El, ?E1, ?E2, ?E3, ?E4, ?E5; done.
  - apply (shows_cleanup _ _ _ above rows width); rewrite ?E1, ?E2, ?E3, ?E4, ?E5, ?E6; done.
Qed.

Lemma extends_fresh above more line home below : extends (fresh above) (mk_screen (above ++ more) line home below).
Proof.
  unfold extends; simpl. rewrite <-(assoc_L (++)). destruct more as [|r more]; [by exists line, []|by exists r, (more ++ [line])].
Qed.

Lemma rendered_rows_at width st : rendered_rows console (fa_lines st) (Some width) = rows_at width st ≫= painted_row.
Proof.
  unfold rendered_rows, rows_at. induction (fa_lines st) as [|line lines IH]; [done|].
  rewrite fmap_cons. change (painted_row (row width line) ++ (lines ≫= λ line,
    CLEAR_LINE ++ fit_row (chars (as_str (render console line))) (Some width) ++ [NEWLINE]) =
    painted_row (row width line) ++ ((row width <$> lines) ≫= painted_row)). by rewrite IH.
Qed.

Lemma rendered_injective colour rows rows' :
  Forall (clean colour false) rows → Forall (clean colour false) rows' →
  rows ≫= painted_row = rows' ≫= painted_row → rows = rows'.
Proof.
  assert (∀ r, clean colour false r → NEWLINE ∉ r) as Hfree.
  { induction 1 as [|c l Hc _ IH| |code l _ Hcode _ IH]; [set_solver| |done|].
    - intros [<-|?]%elem_of_cons; [done|by apply IH].
    - intros [H|H]%elem_of_app; [by apply (sgr_no_newline _ Hcode) in H|by apply IH]. }
  assert (∀ r rest, clean colour false r →
    split_l NEWLINE (painted_row r ++ rest) = (CLEAR_LINE ++ r) :: split_l NEWLINE rest) as Hsplit.
  { intros r rest Hr. unfold painted_row. rewrite <-!(assoc_L (++)).
    rewrite (assoc_L (++) CLEAR_LINE). change ([NEWLINE] ++ rest) with (NEWLINE :: rest).
    rewrite split_l_app, split_l_free; [done|]. intros [H|H]%elem_of_app; [|by apply (Hfree r Hr)].
    revert H. vm_compute. set_solver. }
  intros H. revert rows'. induction H as [|r rows Hr _ IH]; intros [|r' rows'] H' E; [done|..];
    cbn [mbind list_bind] in E.
  { by unfold painted_row, CLEAR_LINE in E. }
  { by unfold painted_row, CLEAR_LINE in E. }
  apply Forall_cons in H' as [Hr' H']. pose proof (f_equal (split_l NEWLINE) E) as E2.
  rewrite !Hsplit in E2 by done. injection E2 as E1 _.
  assert (r = r') as -> by done. f_equal. apply IH; [done|]. by apply (inj (painted_row r' ++.)) in E.
Qed.
End live.

(** ** Painting *)

(** The bytes of the writes that reach the terminal. *)
Definition screen_bytes (console : Console) (on_screen : bool) (ws : list write) : list ascii :=
  ws ≫= λ w, if bool_decide (w.1 = console) || on_screen then w.2 else [].

Section painting.
#[local] Set Default Proof Using "All".
Context {uw : UnicodeWidth} (console : Console) (on_screen : bool) (cols height : nat).
Context (dot_width : width_of "."%char = 1) (wide : 3 ≤ cols) (tall : 2 < height).

Notation colour := (cn_color_enabled console).
Notation bytes := (screen_bytes console on_screen).
Notation feed := (feed cols height).
Notation shows := (shows console cols).
Notation wf := (wf height).

Lemma bytes_print t ws : bytes (print console t :: ws) = chars (as_str t) ++ bytes ws.
Proof. unfold screen_bytes. csimpl. by rewrite bool_decide_eq_true_2. Qed.

Lemma bytes_println t ws : bytes (println console t :: ws) = (chars (as_str t) ++ [NEWLINE]) ++ bytes ws.
Proof. unfold screen_bytes. csimpl. by rewrite bool_decide_eq_true_2. Qed.

Lemma bytes_app ws ws' : bytes (ws ++ ws') = bytes ws ++ bytes ws'.
Proof. apply bind_app. Qed.

Lemma rows_ok width st : 3 ≤ width → Forall (row_ok width colour) (rows_at console width st).
Proof using dot_width.
  intros Hw. unfold rows_at. apply Forall_fmap, Forall_true. intros line. apply fit_row_ok; [done..|apply clean_render].
Qed.

Lemma rows_clean width st : 3 ≤ width → Forall (clean colour false) (rows_at console width st).
Proof using dot_width. intros Hw. eapply Forall_impl; [by apply rows_ok|]. by intros ? []. Qed.

(** Rows painted from the start of an empty row. *)
Lemma feed_fresh_rows above k width st :
  k ≤ 1 → width = cols → fa_lines st ≠ [] →
  feed Ground (at_end above [] (replicate k [])) (rows_at console width st ≫= painted_row) =
    Some (fresh (above ++ (shown <$> rows_at console width st))).
Proof using dot_width wide tall.
  intros Hk -> Hne. rewrite <-(app_nil_r (_ ≫= _)). unfold at_end. rewrite bool_decide_eq_true_2 by done.
  erewrite feed_painted_rows by (by apply rows_ok). unfold rows_at at 2 3. rewrite length_fmap.
  simpl. unfold fresh. f_equal. f_equal.
  - destruct (([] :: replicate k []) !! length (fa_lines st)) as [l|] eqn:E; [|done].
    apply list_elem_of_lookup_2, elem_of_cons in E as [->|E]; [done|]. by apply elem_of_replicate in E as [-> _].
  - destruct (fa_lines st); [done|]. destruct k as [|[|]]; [done| |lia]. simpl. apply drop_nil.
Qed.

(** Rows painted over as many. *)
Lemma feed_over above rows st :
  fa_lines st ≠ [] → length rows = length (fa_lines st) → length rows + 1 < height →
  feed Ground (fresh (above ++ rows)) (cursor_up (length rows) ++ (rows_at console cols st ≫= painted_row)) =
    Some (fresh (above ++ (shown <$> rows_at console cols st))).
Proof using dot_width wide tall.
  intros Hne Hlen Hh. assert (rows ≠ []) as Hr by (destruct rows, (fa_lines st); done).
  rewrite feed_up by (destruct rows; simpl; [done|lia]). unfold fresh. rewrite move_up_rows by done.
  cbn [mbind option_bind]. rewrite <-(app_nil_r (_ ≫= _)).
  erewrite feed_painted_rows by (by apply rows_ok). unfold rows_at at 2 3. rewrite length_fmap, <-Hlen.
  destruct rows as [|r rows]; [done|]. cbn [head tail length]. simpl. f_equal. f_equal.
  - by rewrite lookup_app_r, Nat.sub_diag by lia.
  - apply drop_ge. rewrite length_app. simpl. lia.
Qed.

Lemma repaint_startup_shows st0 st scr settled :
  same_display st0 st → fa_keep_updating_startup st0 = true → wf st0 → shows st0 scr settled →
  let '(st', ws) := repaint_startup console (Some cols) st in
  ∃ scr' settled', feed Ground scr (bytes ws) = Some scr' ∧ shows st' scr' settled' ∧ wf st' ∧
    extends settled settled'.
Proof using dot_width wide tall.
  intros Hsame Hkeep Hwf Hshows. pose proof (same_wf height _ _ Hsame Hwf) as Hwf'.
  destruct Hsame as (El & Ep & Epw & Er & Ek & Ec & Ev & _).
  unfold repaint_startup. case_decide as Hlines.
  { exists scr, settled. split_and!; [done| |done|apply extends_refl].
    destruct Hshows as [Ho Hs Hc Hk|above rows width Hk Hc Hp Hne Hw Hw3 Hl Hs Hscr Hr|above rows width Hk Hc Hw Hs Hscr Hr].
    - apply shows_still; [done..|congruence|]. by rewrite Ek, Ep.
    - rewrite Hlines in El. by destruct (fa_lines st0).
    - congruence. }
  cbv zeta. rewrite Er. rewrite !rendered_rows_at.
  assert (∀ above, shows (set_painted (length (fa_lines st)) (Some cols) (Some (rows_at console cols st ≫= painted_row)) st)
    (fresh (above ++ (shown <$> rows_at console cols st))) (fresh above)) as Hnew.
  { intros above. apply (shows_startup _ _ _ _ _ above (rows_at console cols st) cols); simpl; rewrite ?Ek, ?Ec; try done.
    - destruct Hshows; congruence.
    - by rewrite rendered_rows_at.
    - by left. }
  destruct Hshows as [Ho Hs Hc Hk|above rows width Hk Hc Hp Hne Hw Hw3 Hl Hs Hscr Hr|above rows width Hk Hc Hw Hs Hscr Hr];
    [|..|congruence].
  - destruct (Hk Hkeep) as [Hp0 Hline]. destruct Hwf as (Hlen & Hnone & Hlive). rewrite (Hnone Hp0). rewrite decide_False by done.
    rewrite Ep, Hp0. rewrite decide_False by lia. rewrite bytes_print. simpl. rewrite chars_of_chars, app_nil_r.
    destruct Ho as (above & line & k & Hk1 & ->). simpl in Hline. subst line.
    rewrite feed_fresh_rows by done. eexists _, (fresh above). split_and!; [done|apply Hnew| |subst settled; by exists [], []].
    unfold FancyDisplaySpec.wf. simpl. destruct Hwf' as (? & _ & ?). split_and!; [done|by destruct (fa_lines st)|done].
  - assert (length (rows_at console width st0) = length (fa_lines st)) as Hrows
      by (unfold rows_at; by rewrite length_fmap).
    rewrite Hl, rendered_rows_at. case_decide as Heq.
    + injection Heq as Heq. apply (rendered_injective colour) in Heq; [|by apply rows_clean..].
      assert (rows = rows_at console cols st) as Hrows'.
      { destruct Hr as [->|(_ & _ & Hwide)]; [done|]. exfalso. apply Hwide. rewrite Heq.
        eapply Forall_impl; [by apply rows_ok|]. by intros ? []. }
      assert (FancyDisplaySpec.wf height (set_painted (fa_painted_lines st) (Some cols)
        (Some (rows_at console width st0 ≫= painted_row)) st)) as Hwf1.
      { destruct Hwf' as (? & _ & ?). split_and!; simpl; [done| |done]. rewrite Ep, Hp. by destruct (fa_lines st0). }
      exists scr, settled. split_and!; [done| |done|apply extends_refl].
      apply (shows_startup _ _ _ _ _ above rows cols); simpl; rewrite ?Ek, ?Ec, ?Ep, ?El; try done.
      * by rewrite Heq, rendered_rows_at.
      * by left.
    + rewrite Ep, Epw, Hw, Hp. rewrite decide_True by (destruct (fa_lines st0); simpl; [done|lia]).
      assert (FancyDisplaySpec.wf height (set_painted (length (fa_lines st)) (Some cols)
        (Some (rows_at console cols st ≫= painted_row)) st)) as Hwf1.
      { destruct Hwf' as (? & ? & ?). split_and!; simpl; [done| |done]. by destruct (fa_lines st). }
      case_decide as Hcols.
      * injection Hcols as ->. destruct Hr as [-> | (_ & ? & _)]; [|done]. subst scr settled.
        rewrite bytes_print. simpl. rewrite chars_of_chars, app_nil_r.
        eexists _, (fresh above). split_and!; [|apply Hnew|done|apply extends_refl].
        rewrite <-El, <-Hrows, <-(length_fmap shown). apply feed_over; [done|..]; rewrite length_fmap, ?Hrows; [done|].
        destruct Hwf' as (? & _). lia.
      * subst scr settled. rewrite bytes_print. simpl. rewrite chars_of_chars, app_nil_r.
        eexists _, (fresh ((above ++ (shown <$> rows)) ++ [[]])). split_and!; [|apply Hnew|done|].
        -- change (next_row (fresh (above ++ (shown <$> rows)))) with
             (at_end ((above ++ (shown <$> rows)) ++ [[]]) [] (replicate 0 [])).
           apply feed_fresh_rows; [lia|done..].
        -- rewrite <-(assoc_L (++)). apply extends_fresh.
Qed.

Lemma shows_open st scr settled : shows st scr settled → open_screen scr ∧ extends settled scr.
Proof.
  assert (∀ above, open_screen (fresh above)) as Hfresh by (intros above; by exists above, [], 0; split; [lia|]).
  destruct 1; subst; (split; [done|]); [apply extends_refl|apply extends_fresh..].
Qed.

(** What a step does: the screen it leaves, what stays of it, and the line it typed. *)
Definition types (settled settled' : screen) (t : option Text) : Prop :=
  match t with
  | None => True
  | Some t => ∃ mid mid', extends settled mid ∧ feed Ground mid (chars (as_str t) ++ [NEWLINE]) = Some mid' ∧
      extends mid' settled'
  end.

Definition displays (t : option Text) (scr settled : screen) (r : State * list write) : Prop :=
  ∃ scr' settled', feed Ground scr (bytes r.2) = Some scr' ∧ shows r.1 scr' settled' ∧ wf r.1 ∧
    extends settled settled' ∧ types settled settled' t.

Lemma types_weaken s1 s1' s2 s2' t : extends s1 s1' → extends s2' s2 → types s1' s2' t → types s1 s2 t.
Proof.
  intros H1 H2. destruct t as [t|]; [|done]. intros (m & m' & ? & ? & ?). exists m, m'.
  split_and!; [by eapply extends_trans|done|by eapply extends_trans].
Qed.

Lemma displays_nothing st scr settled : shows st scr settled → wf st → displays None scr settled (st, []).
Proof. intros Hs Hwf. exists scr, settled. by split_and!; [|done|done|apply extends_refl|]. Qed.

Lemma displays_then t t' scr settled r step :
  displays t scr settled r →
  (∀ scr' settled', shows r.1 scr' settled' → wf r.1 → displays t' scr' settled' (step r.1)) →
  displays t scr settled (then_step step r) ∧ displays t' scr settled (then_step step r).
Proof.
  intros (scr1 & settled1 & Hf & Hs & Hw & He & Ht) Hstep. unfold then_step.
  destruct (Hstep scr1 settled1 Hs Hw) as (scr2 & settled2 & Hf2 & Hs2 & Hw2 & He2 & Ht2).
  destruct (step r.1) as [st ws]. simpl in *. unfold displays. simpl. rewrite bytes_app.
  rewrite (feed_app _ _ _ _ _ _ _ Hf).
  split; exists scr2, settled2; (split_and!; [done..|by eapply extends_trans|]).
  - eapply types_weaken; [apply extends_refl|exact He2|exact Ht].
  - eapply types_weaken; [exact He|apply extends_refl|exact Ht2].
Qed.

(** A line typed under all there is, which stays. *)
Lemma displays_line colour' t st st' ws scr settled :
  shows st scr settled → bytes ws = chars (as_str t) ++ [NEWLINE] → clean_text colour' true t →
  (∀ c, width_of c ≤ cols) →
  wf st' → fa_cleanup_shown st' = false → (fa_keep_updating_startup st' = true → fa_painted_lines st' = 0) →
  displays (Some t) scr settled (st', ws) ∧ displays None scr settled (st', ws).
Proof.
  intros Hs Hws Ht Hcols Hwf Hc Hp. destruct (shows_open _ _ _ Hs) as [Ho He].
  destruct (feed_line cols height colour' _ scr Hcols Ht Ho) as (scr' & Hf & Ho' & He' & Hline).
  assert (shows st' scr' scr') as Hs' by by apply shows_still; auto.
  assert (feed Ground scr (bytes ws) = Some scr') as Hf' by by rewrite Hws.
  assert (extends settled scr') as He2 by by eapply extends_trans.
  split; exists scr', scr'; split_and!; try done.
  exists scr, scr'. split_and!; [done..|apply extends_refl].
Qed.

Lemma bytes_one t : bytes [println console t] = chars (as_str t) ++ [NEWLINE].
Proof. rewrite bytes_println. change (bytes []) with (@nil ascii). by rewrite app_nil_r. Qed.

(** ** The countdown *)

Definition cleanup_row (width : nat) (st : State) : list ascii :=
  fit_row (chars (as_str (cleanup_text console st))) (Some width).

Lemma cleanup_row_ok width st : 3 ≤ width → row_ok width colour (cleanup_row width st).
Proof using dot_width. intros Hw. apply fit_row_ok; [done..|apply clean_cleanup_text]. Qed.

Lemma feed_row_line above k r :
  k ≤ 1 → row_ok cols colour r →
  feed Ground (at_end above [] (replicate k [])) (r ++ [NEWLINE]) = Some (fresh (above ++ [shown r])).
Proof.
  intros Hk [Hr Hw]. erewrite feed_app by (eapply feed_row; [exact Hr|exact Hw]). simpl. f_equal. unfold next_row, fresh. simpl.
  by destruct k as [|[|]]; [..|lia].
Qed.

Lemma cleanup_painted st scr settled ws above owed :
  fa_keep_updating_startup st = false → wf st → extends settled (fresh above) →
  feed Ground scr (bytes ws) = Some (fresh (above ++ [shown (cleanup_row cols st)])) →
  displays None scr settled (set_cleanup_painted (Some cols) owed st, ws).
Proof.
  intros Hkeep Hwf He Hf. exists (fresh (above ++ [shown (cleanup_row cols st)])), (fresh above). split_and!; try done.
  apply (shows_cleanup _ _ _ _ _ above [cleanup_row cols st] cols); try done. left. by eexists.
Qed.

(** The countdown is painted over itself, or below all there is. *)
Lemma repaint_cleanup_shows st scr settled :
  fa_keep_updating_startup st = false → wf st → shows st scr settled →
  displays None scr settled (repaint_cleanup console (Some cols) st) ∧
  ∃ above, feed Ground scr (bytes (repaint_cleanup console (Some cols) st).2) =
    Some (fresh (above ++ [shown (cleanup_row cols st)])).
Proof.
  intros Hkeep Hwf Hs. pose proof (cleanup_row_ok cols st wide) as Hrow.
  assert (∃ above, extends settled (fresh above) ∧
    feed Ground scr (bytes (repaint_cleanup console (Some cols) st).2) =
      Some (fresh (above ++ [shown (cleanup_row cols st)]))) as (above & He & Hf).
  2: { split; [|by exists above]. by eapply cleanup_painted. }
  unfold repaint_cleanup. cbn [snd]. rewrite bytes_print. cbn [as_str]. rewrite chars_of_chars.
  change (bytes []) with (@nil ascii). rewrite app_nil_r. fold (cleanup_row cols st).
  destruct Hs as [Ho Hs Hc Hk|above rows width Hk|above rows width Hk Hc Hw Hs Hscr Hr]; [|congruence|].
  - rewrite Hc. destruct Ho as (above & line & k & Hk1 & ->). exists (above ++ [line]). split.
    + subst settled. exists [], [[]]. simpl. by rewrite app_nil_r, <-(assoc_L (++)).
    + rewrite <-(feed_row_line (above ++ [line]) (k - 1)) by (done || lia).
      change ([NEWLINE] ++ ?l) with (NEWLINE :: l). rewrite feed_newline. f_equal. unfold next_row, at_end. simpl.
      destruct k as [|k]; [done|]. simpl. by rewrite Nat.sub_0_r.
  - rewrite Hc, Hw. subst scr settled. case_decide as Hcols.
    + injection Hcols as ->. destruct Hr as [[r0 ->]|[_ ?]]; [|done]. exists above. split; [apply extends_refl|].
      change (CURSOR_UP_ONE_AND_CLEAR ++ ?l) with (cursor_up (length [shown r0]) ++ CLEAR_LINE ++ l).
      rewrite feed_up by (simpl; lia). unfold fresh. cbn [fmap list_fmap]. rewrite move_up_rows by (simpl; done || lia).
      cbn [mbind option_bind head tail default].
      rewrite <-(app_nil_r (CLEAR_LINE ++ _)). destruct Hrow as [Hr1 Hr2].
      change ((CLEAR_LINE ++ cleanup_row cols st ++ [NEWLINE]) ++ []) with (painted_row (cleanup_row cols st) ++ []).
      erewrite feed_painted_row by done. reflexivity.
    + exists ((above ++ (shown <$> rows)) ++ [[]]). split; [rewrite <-(assoc_L (++)); apply extends_fresh|].
      rewrite <-(feed_row_line ((above ++ (shown <$> rows)) ++ [[]]) 0) by (done || lia). reflexivity.
Qed.

Lemma clear_cleanup_shows st scr settled :
  fa_keep_updating_startup st = false → wf st → shows st scr settled →
  displays None scr settled (clear_cleanup_line console (Some cols) st) ∧
  fa_cleanup_shown (clear_cleanup_line console (Some cols) st).1 = false.
Proof.
  intros Hkeep Hwf Hs. unfold clear_cleanup_line.
  destruct (fa_cleanup_shown st) eqn:Hshown; [|split; [by apply displays_nothing|done]]. split; [|done].
  destruct Hs as [Ho Hs Hc Hk|above rows width Hk|above rows width Hk Hc Hw Hs Hscr Hr]; [congruence..|].
  subst scr settled. rewrite Hw. case_decide as Hcols.
  - injection Hcols as ->. destruct Hr as [[r0 ->]|[_ ?]]; [|done].
    exists (at_end above [] (replicate 1 [])), (at_end above [] (replicate 1 [])). split_and!; [| |done| |done].
    + cbn [snd]. rewrite bytes_print. cbn [as_str]. rewrite chars_of_chars.
      change (CURSOR_UP_ONE_AND_CLEAR ++ ?l) with (cursor_up (length [shown r0]) ++ CLEAR_LINE ++ l).
      rewrite feed_up by (simpl; lia). unfold fresh. cbn [fmap list_fmap]. rewrite move_up_rows by (simpl; done || lia).
      reflexivity.
    + apply shows_still; [by exists above, [], 1|done..|]. simpl. congruence.
    + by exists [], [].
  - exists (fresh ((above ++ (shown <$> rows)) ++ [[]])), (fresh ((above ++ (shown <$> rows)) ++ [[]])).
    split_and!; [| |done| |done].
    + cbn [snd]. by rewrite bytes_println.
    + apply shows_still; [by eexists _, [], 0; split; [lia|]|done..|]. simpl. congruence.
    + rewrite <-(assoc_L (++)). apply extends_fresh.
Qed.

(** ** Events *)

Context (stderr : Console) (apart : on_screen = false → stderr ≠ console).
Context (narrow : ∀ c, width_of c ≤ cols).

(** The events that end a run or a task come after [RunEnded], and a graph right
    after its task's line. *)
Definition permitted (st : State) (scr : screen) (e : TaskEvent) : Prop :=
  match e with
  | TaskGraphResolved containers =>
      fa_cleanup_shown st = false ∧ fa_cleanup_live st = false ∧ sn_line scr = [] ∧
      length (dependency_post_order containers) + 1 < height
  | CleanupStarting _ | TaskFinished _ _ _ | TaskFailed _ _ => fa_keep_updating_startup st = false
  | _ => True
  end.

Definition class_text (e : TaskEvent) : option Text :=
  match e with
  | ErrorPosted message => Some (text [bold_colored stderr Red (raw "Error:"); raw " "; message])
  | WarningPosted message => Some (text [bold_colored stderr Yellow (raw "Warning:"); raw " "; to_text message])
  | NoticePosted message => Some message
  | _ => None
  end.

(** The line an event leaves on the screen. *)
Definition printed (st : State) (e : TaskEvent) : option Text :=
  match e with
  | TaskStarting task => Some (text [raw "Running "; bold console task; raw "..."])
  | PrerequisitesOnly task => Some (nothing_more_to_do console task)
  | TaskFinished task exit_code duration => Some (format_task_summary console task exit_code duration)
  | TaskFailed task duration => Some (format_task_failed_summary console task duration)
  | DependencyExitedUnexpectedly container exit_code =>
      if fa_keep_updating_startup st then None
      else Some (text [to_text container; raw " "; exited_unexpectedly console exit_code; raw "."])
  | _ => if on_screen then class_text e else None
  end.

Lemma update_line_length container f lines : length (update_line container f lines) = length lines.
Proof. induction lines as [|line lines IH]; simpl; [done|]. case_decide; simpl; by rewrite ?IH. Qed.

Lemma same_on_line container stage st : same_display st (on_line container stage st).
Proof. split_and!; try done. apply update_line_length. Qed.

Lemma same_on_lines picks stage st : same_display st (on_lines picks stage st).
Proof. split_and!; try done. apply length_fmap. Qed.

Lemma same_start_waiting starts st : same_display st (start_waiting starts st).
Proof. split_and!; try done. apply length_fmap. Qed.

Lemma same_mark_ready container st : same_display st (mark_ready container st).
Proof. split_and!; try done. simpl. by rewrite length_fmap, update_line_length. Qed.

Lemma same_healthy container st : same_display st (becomes_healthy container st).
Proof.
  unfold becomes_healthy. destruct (line_of _ _) as [line|]; [|apply same_mark_ready].
  destruct (ti_has_setup_commands _); [apply same_on_line|apply same_mark_ready].
Qed.

Lemma displays_repaint st0 st scr settled :
  same_display st0 st → fa_keep_updating_startup st0 = true → wf st0 → shows st0 scr settled →
  displays None scr settled (repaint_startup console (Some cols) st).
Proof.
  intros H1 H2 H3 H4. pose proof (repaint_startup_shows _ _ _ _ H1 H2 H3 H4) as H.
  destruct (repaint_startup _ _ _) as [st' ws]. destruct H as (scr' & settled' & ? & ? & ? & ?).
  by exists scr', settled'.
Qed.

Lemma displays_live st scr settled f :
  same_display st (f st) → wf st → shows st scr settled →
  displays None scr settled (when_live console (Some cols) st f).
Proof.
  intros Hf Hwf Hs. unfold when_live. destruct (fa_keep_updating_startup st) eqn:Hk; [|by apply displays_nothing].
  by eapply displays_repaint.
Qed.

Lemma displays_same t scr settled st st' ws :
  same_display st st' → fa_lines st' = fa_lines st → displays t scr settled (st, ws) → displays t scr settled (st', ws).
Proof.
  intros Hsame Hl (scr' & settled' & ? & ? & ? & ? & ?). exists scr', settled'.
  split_and!; [done|by eapply shows_same|by eapply same_wf|done..].
Qed.

(** The block stays as it is from now on. *)
Lemma displays_freeze scr settled st ws :
  displays None scr settled (st, ws) → fa_cleanup_shown st = false → displays None scr settled (set_updating false st, ws).
Proof.
  intros (scr' & settled' & Hf & Hs & (Hl & Hn & Hv) & He & _) Hc. destruct (shows_open _ _ _ Hs) as [Ho He'].
  exists scr', scr'. split_and!; try done; [by apply shows_still|by eapply extends_trans].
Qed.

Lemma displays_run_ended st scr settled :
  wf st → shows st scr settled → displays None scr settled (set_updating false st, []).
Proof.
  intros Hwf Hs. destruct (fa_cleanup_shown st) eqn:Hc; [|by apply displays_freeze; [apply displays_nothing|]].
  assert (fa_keep_updating_startup st = false) as Hk by (destruct Hs; congruence).
  eapply displays_same; [| |by apply displays_nothing]; [|done]. by split_and!.
Qed.

Definition countdown_again (st : State) : State * list write :=
  if fa_cleanup_live st then repaint_cleanup console (Some cols) st else (st, []).

Lemma displays_countdown st scr settled : wf st → shows st scr settled → displays None scr settled (countdown_again st).
Proof.
  intros Hwf Hs. unfold countdown_again. destruct (fa_cleanup_live st) eqn:Hv; [|by apply displays_nothing].
  apply repaint_cleanup_shows; [|done..]. by apply Hwf.
Qed.

(** A line of the display's own, when nothing of it is live from now on. *)
Lemma displays_say t st st' scr settled :
  shows st scr settled → clean_text colour true t →
  wf st' → fa_cleanup_shown st' = false → (fa_keep_updating_startup st' = true → fa_painted_lines st' = 0) →
  displays (Some t) scr settled (st', [println console t]) ∧ displays None scr settled (st', [println console t]).
Proof. intros. eapply displays_line; [done|apply bytes_one|done..]. Qed.

(** A line of another kind, with the countdown below it again. *)
Lemma displays_interrupted colour' t st st' ws scr settled :
  shows st scr settled → bytes ws = chars (as_str t) ++ [NEWLINE] → clean_text colour' true t →
  wf st' → fa_cleanup_shown st' = false → (fa_keep_updating_startup st' = true → fa_painted_lines st' = 0) →
  displays (Some t) scr settled (then_step countdown_again (st', ws)).
Proof.
  intros Hs Hws Ht Hwf Hc Hp. eapply (displays_then (Some t) None).
  - by eapply displays_line.
  - intros scr' settled' Hs' Hwf'. by apply displays_countdown.
Qed.

Lemma class_write e w : print_stderr_class stderr e = Some w → ∃ t, class_text e = Some t ∧ w = println stderr t.
Proof. destruct e; intros [= <-]; eexists; split; try done. Qed.

Lemma class_none e : print_stderr_class stderr e = None → class_text e = None.
Proof. by destruct e. Qed.

Lemma displays_class st scr settled e w :
  shows st scr settled → wf st → message_clean (cn_color_enabled stderr) e → print_stderr_class stderr e = Some w →
  displays (printed st e) scr settled (fancy_post console stderr on_screen (Some cols) st e).
Proof.
  intros Hs Hwf Hm Hw. unfold fancy_post. rewrite Hw.
  pose proof (stderr_class_write _ _ _ Hw) as (Hclass & _ & Hclean).
  destruct (class_write e w Hw) as (t & Ht & ->).
  replace (printed st e) with (if on_screen then class_text e else None) by (by destruct e).
  assert (clean_text (cn_color_enabled stderr) true t) as Htc.
  { destruct e; try discriminate Ht; injection Ht as <-; simpl in Hm; clean_tac. }
  unfold then_step. cbn [fst snd]. destruct (sumbool_of_bool on_screen) as [Hscr|Hscr].
  - set (st' := set_cleanup_shown false (set_painted 0 (fa_painted_width st) None st)).
    assert (live_display_interrupted console on_screen (Some cols) st = countdown_again st') as ->
      by (unfold live_display_interrupted; by rewrite Hscr).
    replace (if on_screen then class_text e else None) with (Some t) by (by rewrite Hscr, Ht).
    change (displays (Some t) scr settled (then_step countdown_again (st', [println stderr t]))).
    eapply displays_interrupted; [exact Hs| |exact Htc| |done|done].
    + unfold screen_bytes. csimpl. rewrite Hscr, orb_true_r. by rewrite app_nil_r.
    + destruct Hwf as (? & ? & ?). by split_and!.
  - assert (live_display_interrupted console on_screen (Some cols) st = (st, [])) as ->
      by (unfold live_display_interrupted; by rewrite Hscr).
    replace (if on_screen then class_text e else None) with (@None Text) by (by rewrite Hscr).
    assert (bytes [println stderr t] = []) as Hb.
    { unfold screen_bytes. csimpl. rewrite Hscr. by rewrite bool_decide_eq_false_2 by by apply apart. }
    exists scr, settled. rewrite app_nil_r. cbn [snd]. rewrite Hb. split_and!; try done. apply extends_refl.
Qed.

Lemma displays_starting t keep st scr settled :
  shows st scr settled → wf st → clean_text colour true t →
  displays (Some t) scr settled (starting console t keep st).
Proof.
  intros Hs Hwf Ht. unfold starting.
  assert (∀ k p, FancyDisplaySpec.wf height (new_task k p)) as Hnew by (intros k p; split_and!; simpl; [lia|done|done]).
  destruct (fa_printed_a_task st).
  - change (displays (Some t) scr settled (then_step (λ _, (new_task keep true, [println console t]))
      (new_task false true, [println console (raw "")]))).
    eapply (displays_then None (Some t)); [by eapply displays_say; [done|apply clean_raw| | |]|].
    intros scr' settled' Hs' _. by eapply displays_say.
  - by eapply displays_say.
Qed.

Lemma displays_graph st scr settled containers :
  shows st scr settled → wf st → permitted st scr (TaskGraphResolved containers) →
  displays None scr settled (fancy_post console stderr on_screen (Some cols) st (TaskGraphResolved containers)).
Proof.
  intros Hs Hwf (Hc & Hv & Hline & Hlen). destruct (shows_open _ _ _ Hs) as [Ho He].
  cbn [fancy_post print_stderr_class].
  set (st0 := set_updating true _). assert (FancyDisplaySpec.wf height st0) as Hwf0.
  { split_and!; simpl; [by rewrite length_fmap|done|congruence]. }
  assert (shows st0 scr scr) as Hs0 by by apply shows_still.
  destruct (displays_repaint st0 st0 scr scr) as (scr' & settled' & ? & ? & ? & ? & ?); [by split_and!|done..|].
  exists scr', settled'. split_and!; try done. by eapply extends_trans.
Qed.

Lemma displays_summary t st scr settled :
  fa_keep_updating_startup st = false → shows st scr settled → wf st → clean_text colour true t →
  displays (Some t) scr settled
    (then_step (say console t) (then_step (pay_separator console) (clear_cleanup_line console (Some cols) st))).
Proof.
  intros Hk Hs Hwf Ht. destruct (clear_cleanup_shows _ _ _ Hk Hwf Hs) as [Hclear Hshown].
  assert (fa_keep_updating_startup (clear_cleanup_line console (Some cols) st).1 = false) as Hk1.
  { unfold clear_cleanup_line. by destruct (fa_cleanup_shown st). }
  destruct (clear_cleanup_line console (Some cols) st) as [st1 ws1]. simpl in Hshown, Hk1.
  eapply (displays_then None (Some t)).
  - eapply (displays_then None None); [exact Hclear|]. intros scr' settled' Hs' Hwf'. simpl in Hs', Hwf'. unfold pay_separator; simpl.
    destruct (fa_separator_owed st1).
    + eapply displays_say; [exact Hs'|by apply clean_raw|exact Hwf'|done|]. simpl. congruence.
    + eapply displays_same; [| |by apply displays_nothing]; [by split_and!|done].
  - intros scr' settled' Hs' Hwf'. eapply displays_say; [exact Hs'|done|exact Hwf'|done|]. simpl. congruence.
Qed.

Lemma displays_running st scr settled container cmd :
  shows st scr settled → wf st →
  displays None scr settled (fancy_post console stderr on_screen (Some cols) st (RunningTaskContainer container cmd)).
Proof.
  intros Hs Hwf. cbn [fancy_post print_stderr_class]. simpl.
  destruct (fa_keep_updating_startup st) eqn:Hk.
  - set (st1 := on_line container (RunningCommand cmd) (set_separator_owed true st)).
    assert (same_display st st1) as Hsame.
    { split_and!; try done. apply update_line_length. }
    pose proof (displays_repaint st st1 scr settled Hsame Hk Hwf Hs) as Hpaint.
    destruct (repaint_startup console (Some cols) st1) as [st2 ws] eqn:E.
    assert (fa_cleanup_shown st2 = false) as Hc2.
    { assert (fa_cleanup_shown st2 = fa_cleanup_shown st) as ->; [|by destruct Hs; congruence].
      revert E. unfold repaint_startup. repeat case_decide; intros [= <- _]; done. }
    eapply (displays_then None (Some _)); [by apply displays_freeze|]. intros scr' settled' Hs' Hwf'.
    by eapply displays_say; [exact Hs'|apply clean_raw|..].
  - eapply displays_same; [| |by apply displays_nothing]; [by split_and!|done].
Qed.

Lemma shows_live_flag live st scr settled : shows st scr settled → shows (set_cleanup_live live st) scr settled.
Proof.
  intros [Ho Hs Hc Hk|above rows width Hk Hc Hp Hne Hw Hw3 Hl Hs Hscr Hr|above rows width Hk Hc Hw Hs Hscr Hr].
  - by apply shows_still.
  - by apply (shows_startup _ _ _ _ _ above rows width).
  - by apply (shows_cleanup _ _ _ _ _ above rows width).
Qed.

Lemma displays_post st scr settled e :
  shows st scr settled → wf st → message_clean (cn_color_enabled stderr) e → permitted st scr e →
  displays (printed st e) scr settled (fancy_post console stderr on_screen (Some cols) st e).
Proof.
  intros Hs Hwf Hm Hp. destruct (print_stderr_class stderr e) as [w|] eqn:Hw; [by eapply displays_class|].
  pose proof (class_none e Hw) as Hc.
  assert (∀ f, (∀ st, same_display st (f st)) → displays None scr settled (when_live console (Some cols) st f)) as Hlive.
  { intros f Hf. by apply displays_live. }
  assert (∀ containers, e = TaskGraphResolved containers → displays None scr settled
    (fancy_post console stderr on_screen (Some cols) st e)) as Hgraph by (intros containers ->; by apply displays_graph).
  assert (∀ container cmd, e = RunningTaskContainer container cmd → displays None scr settled
    (fancy_post console stderr on_screen (Some cols) st e)) as Hrun by (intros container cmd ->; by apply displays_running).
  assert ((if on_screen then class_text e else None) = None) as Hprinted by (rewrite Hc; by destruct on_screen).
  destruct e; try discriminate Hw; cbn [printed]; rewrite ?Hprinted; try (by eapply Hgraph); try (by eapply Hrun);
    clear Hgraph Hrun; cbn [fancy_post print_stderr_class];
    try (by apply displays_nothing);
    try (apply Hlive; intros st'; (apply same_on_line || apply same_on_lines || apply same_start_waiting
      || apply same_mark_ready || apply same_healthy)).
  - apply displays_starting; [done..|clean_tac].
  - apply displays_starting; [done..|clean_tac].
  - apply displays_summary; [done..|clean_tac].
  - destruct (is_blank_build_line message); [by apply displays_nothing|]. apply Hlive. intros st'. apply same_on_lines.
  - pose proof (Hlive (start_waiting (is_line_of container)) (same_start_waiting _)) as H.
    destruct (when_live _ _ _ _) as [st' ws]. eapply displays_same; [| |exact H]; [by split_and!|done].
  - destruct (fa_keep_updating_startup st) eqn:Hk.
    + eapply displays_repaint; [apply same_on_line|done..].
    + change (displays (Some (text [to_text container; raw " "; exited_unexpectedly console exit_code; raw "."])) scr
        settled (then_step countdown_again (set_cleanup_shown false st,
          [println console (text [to_text container; raw " "; exited_unexpectedly console exit_code; raw "."])]))).
      eapply displays_interrupted; [exact Hs|apply bytes_one|clean_tac|by apply Hwf|done|]. simpl. congruence.
  - apply repaint_cleanup_shows; [done| |]; [destruct Hwf as (? & ? & ?); by split_and!|].
    by apply shows_live_flag.
  - destruct (fa_keep_updating_startup st) eqn:Hk.
    + assert (fa_cleanup_shown st = false) as Hcs by (destruct Hs; congruence).
      unfold clear_cleanup_line. simpl. rewrite Hcs. apply displays_nothing; [by apply shows_live_flag|].
      destruct Hwf as (? & ? & ?). by split_and!.
    + apply clear_cleanup_shows; [done| |by apply shows_live_flag]. destruct Hwf as (? & ? & ?). by split_and!.
  - apply displays_countdown; [exact Hwf|]. eapply shows_same; [| |exact Hs]; [by split_and!|done].
  - apply displays_countdown; [exact Hwf|]. eapply shows_same; [| |exact Hs]; [by split_and!|done].
  - by apply displays_run_ended.
  - apply displays_summary; [done..|clean_tac].
Qed.
End painting.

(** ** The rows *)

Definition infos_of (st : gmap string TaskContainerInfo * list TaskContainerInfo) : list TaskContainerInfo :=
  (map_to_list st.1).*2 ++ st.2.

Lemma visit_perm fuel name st : infos_of (visit fuel name st) ≡ₚ infos_of st.
Proof.
  revert name st. induction fuel as [|fuel IH]; intros name [m ordered]; simpl; [done|].
  destruct (m !! name) as [info|] eqn:E; [|done].
  assert (∀ deps st, infos_of (foldl (λ st dependency, visit fuel dependency st) st deps) ≡ₚ infos_of st) as Hfold.
  { induction deps as [|d deps IHd]; intros st; simpl; [done|]. by rewrite IHd. }
  specialize (Hfold (ti_dependencies info) (delete name m, ordered)).
  destruct (foldl _ _ _) as [m' ordered']. unfold infos_of in *. simpl in *.
  rewrite (assoc_L (++)), Hfold. rewrite <-(map_to_list_delete m name info E). simpl.
  by rewrite Permutation_app_comm.
Qed.

Lemma collect_values {V} (l : list (string * V)) : NoDup l.*1 → (map_to_list (collect l)).*2 ≡ₚ l.*2.
Proof.
  assert (∀ (m : gmap string V) l, NoDup l.*1 → (∀ k, k ∈ l.*1 → m !! k = None) →
    (map_to_list (foldl (λ m p, <[p.1 := p.2]> m) m l)).*2 ≡ₚ (map_to_list m).*2 ++ l.*2) as H.
  { intros m k. revert m. induction k as [|[key v] k IH]; intros m Hnd Hm; csimpl; [by rewrite app_nil_r|].
    apply NoDup_cons in Hnd as [Hnot Hnd]. rewrite IH; [|done|].
    - rewrite map_to_list_insert by (apply Hm; by left). csimpl. by rewrite Permutation_middle.
    - intros key' Hkey'. rewrite lookup_insert_ne by set_solver. apply Hm. by right. }
  intros Hnd. unfold collect. rewrite H; [by rewrite map_to_list_empty|done|done].
Qed.

Lemma omap_lookup_keys {V} (m : gmap string V) keys :
  keys ≡ₚ (map_to_list m).*1 → omap (m !!.) keys ≡ₚ (map_to_list m).*2.
Proof.
  intros ->. assert (∀ l : list (string * V), l ⊆ map_to_list m → omap (m !!.) l.*1 = l.*2) as H.
  { induction l as [|[k v] l IH]; intros Hl; csimpl; [done|].
    rewrite (proj1 (elem_of_map_to_list m k v)) by (apply Hl; by left). rewrite IH by set_solver. done. }
  by rewrite H.
Qed.

Lemma collected_values containers :
  NoDup (ti_name <$> containers) →
  (map_to_list (collect ((λ info, (ti_name info, info)) <$> containers))).*2 ≡ₚ containers.
Proof.
  intros Hnd. rewrite collect_values; rewrite <-list_fmap_compose; unfold compose; simpl; [|done].
  by rewrite list_fmap_id.
Qed.

(** Each container has one row. *)
Lemma post_order_perm containers :
  NoDup (ti_name <$> containers) → dependency_post_order containers ≡ₚ containers.
Proof.
  intros Hnd. unfold dependency_post_order. set (by_name := collect _).
  set (st := match task_container_of containers with Some _ => _ | None => _ end).
  assert (infos_of st ≡ₚ containers) as Hst.
  { transitivity (infos_of (by_name, [])).
    - unfold st. destruct (task_container_of containers); [apply visit_perm|done].
    - unfold infos_of, by_name; simpl. rewrite app_nil_r. by apply collected_values. }
  rewrite <-Hst. unfold infos_of. rewrite (omap_lookup_keys st.1) by apply merge_sort_Permutation.
  apply Permutation_app_comm.
Qed.

Section order.
Context (all : gmap string TaskContainerInfo) (rank : string → nat).
Context (named : ∀ name info, all !! name = Some info → ti_name info = name).
Context (acyclic : ∀ name info d, all !! name = Some info → d ∈ ti_dependencies info → rank d < rank name).

(** Each row comes after those of the containers it depends on. *)
Definition ordered_rows (rows : list TaskContainerInfo) : Prop :=
  ∀ pre info post d, rows = pre ++ info :: post → d ∈ ti_dependencies info → is_Some (all !! d) →
    d ∈ ti_name <$> pre.

(** A walk under way: what is still to be visited, what has its row, and the
    containers whose dependencies are being visited. *)
Definition walking (stack : gset string) (st : gmap string TaskContainerInfo * list TaskContainerInfo) : Prop :=
  st.1 ⊆ all ∧ ordered_rows st.2 ∧
  ∀ name, is_Some (all !! name) → is_Some (st.1 !! name) ∨ name ∈ ti_name <$> st.2 ∨ name ∈ stack.

(** A step of it: rows are only added. *)
Definition walked (st st' : gmap string TaskContainerInfo * list TaskContainerInfo) : Prop :=
  size st'.1 ≤ size st.1 ∧ ∃ more, st'.2 = st.2 ++ more.

Lemma walked_refl st : walked st st.
Proof. split; [done|]. exists []. by rewrite app_nil_r. Qed.

Lemma walked_trans st1 st2 st3 : walked st1 st2 → walked st2 st3 → walked st1 st3.
Proof. intros [? [m1 E1]] [? [m2 E2]]. split; [lia|]. exists (m1 ++ m2). by rewrite E2, E1, <-(assoc_L (++)). Qed.

Lemma walked_names st st' name : walked st st' → name ∈ ti_name <$> st.2 → name ∈ ti_name <$> st'.2.
Proof. intros [_ [more ->]] H. rewrite fmap_app. apply elem_of_app. by left. Qed.

Lemma rows_snoc rows info :
  ordered_rows rows → (∀ d, d ∈ ti_dependencies info → is_Some (all !! d) → d ∈ ti_name <$> rows) →
  ordered_rows (rows ++ [info]).
Proof.
  intros Hr Hd pre x post d E Hdx Hin. destruct post as [|y post _] using rev_ind.
  - apply app_inj_tail in E as [-> ->]. by apply Hd.
  - rewrite app_comm_cons, (assoc_L (++)) in E. apply app_inj_tail in E as [-> ->]. by eapply Hr.
Qed.

Lemma visit_walks fuel name stack st :
  size st.1 < fuel → walking stack st → (∀ s, s ∈ stack → rank name < rank s) →
  let st' := visit fuel name st in
  walking stack st' ∧ walked st st' ∧ (is_Some (all !! name) → name ∈ ti_name <$> st'.2).
Proof using named acyclic.
  revert name stack st. induction fuel as [|fuel IH]; intros name stack [m rows] Hfuel Hw Hstack; [simpl in Hfuel; lia|].
  simpl in *. destruct (m !! name) as [info|] eqn:Em.
  2: { split_and!; [done|apply walked_refl|]. intros Hin. destruct Hw as (_ & _ & Hall).
       destruct (Hall name Hin) as [[? ?]|[?|Hs]]; [simpl in *; congruence|done|]. specialize (Hstack _ Hs). lia. }
  destruct Hw as (Hsub & Hord & Hall). simpl in *.
  assert (all !! name = Some info) as Eall by by eapply lookup_weaken.
  pose proof (named _ _ Eall) as Hname.
  assert (∀ deps st, size st.1 < fuel → walking ({[name]} ∪ stack) st → (∀ d, d ∈ deps → rank d < rank name) →
    let st' := foldl (λ st dependency, visit fuel dependency st) st deps in
    walking ({[name]} ∪ stack) st' ∧ walked st st' ∧ ∀ d, d ∈ deps → is_Some (all !! d) → d ∈ ti_name <$> st'.2) as Hfold.
  { clear -IH Hstack. induction deps as [|d deps IHd]; intros st Hf Hw Hr; simpl; [by split_and!; [|apply walked_refl|intros ? ?%elem_of_nil]|].
    destruct (IH d ({[name]} ∪ stack) st Hf Hw) as (Hw1 & Hs1 & Hd1).
    { intros s [->%elem_of_singleton|Hs]%elem_of_union; [by apply Hr; left|].
      transitivity (rank name); [by apply Hr; left|by apply Hstack]. }
    destruct (IHd (visit fuel d st)) as (Hw2 & Hs2 & Hd2); [destruct Hs1; lia|done|intros d' ?; apply Hr; by right|].
    split_and!; [done|by eapply walked_trans|].
    intros d' [->|Hd']%elem_of_cons Hin; [by eapply walked_names; [|apply Hd1]|by apply Hd2]. }
  destruct (Hfold (ti_dependencies info) (delete name m, rows)) as ((Hsub' & Hord' & Hall') & Hs & Hdeps); simpl.
  { pose proof (map_size_delete_Some name m ltac:(by eexists)) as Hsize. assert (size m ≠ 0) by (intros H0%map_size_empty_inv; set_solver). lia. }
  { split_and!; simpl; [etrans; [apply delete_subseteq|done]|done|]. intros n Hn.
    destruct (decide (n = name)) as [->|Hne]; [right; right; apply elem_of_union; left; by apply elem_of_singleton|].
    destruct (Hall n Hn) as [[x Hx]|[?|?]]; [left; rewrite lookup_delete_ne by done; by exists x|by right; left|].
    right. right. apply elem_of_union. by right. }
  { intros d Hd. by eapply acyclic. }
  set (st' := foldl _ _ _) in *. split_and!.
  - split_and!; simpl; [done|by apply rows_snoc|]. intros n Hn. rewrite fmap_app.
    destruct (Hall' n Hn) as [?|[?|[->%elem_of_singleton|?]%elem_of_union]]; [by left| | |by right; right];
      [right; left; apply elem_of_app; by left|].
    right. left. apply elem_of_app. right. simpl. rewrite Hname. by apply list_elem_of_singleton.
  - destruct Hs as [Hsize [more Emore]]. simpl in *. split; simpl.
    + pose proof (map_size_delete name m) as Hd. rewrite Em in Hd. lia.
    + exists (more ++ [info]). by rewrite Emore, <-(assoc_L (++)).
  - intros _. rewrite fmap_app. apply elem_of_app. right. simpl. rewrite Hname. by apply list_elem_of_singleton.
Qed.
End order.

Lemma post_order_ordered containers rank root :
  NoDup (ti_name <$> containers) →
  (∀ info d, info ∈ containers → d ∈ ti_dependencies info → rank d < rank (ti_name info)) →
  task_container_of containers = Some root →
  ∃ rows info rest, dependency_post_order containers = rows ++ info :: rest ∧ ti_name info = root ∧
    ordered_rows (collect ((λ info, (ti_name info, info)) <$> containers)) (rows ++ [info]).
Proof.
  intros Hnd Hrank Hroot. unfold dependency_post_order. rewrite Hroot. set (m := collect _).
  assert (∀ name info, m !! name = Some info → ti_name info = name ∧ info ∈ containers) as Hm.
  { assert (∀ l (m0 : gmap string TaskContainerInfo) name info, foldl (λ m p, <[p.1 := p.2]> m) m0 ((λ info, (ti_name info, info)) <$> l) !! name = Some info →
      m0 !! name = Some info ∨ ti_name info = name ∧ info ∈ l) as H.
    { induction l as [|x l IH]; intros m0 name info; csimpl; [by left|].
      intros [H|[? ?]]%IH; [|set_solver]. apply lookup_insert_Some in H as [[<- <-]|[_ H]]; [right; set_solver|by left]. }
    intros name info Hl. apply H in Hl as [Hl|?]; [by rewrite lookup_empty in Hl|done]. }
  assert (root ∈ ti_name <$> containers) as Hin.
  { unfold task_container_of in Hroot. destruct (filter _ _) as [|info l] eqn:E; [done|]. injection Hroot as <-.
    assert (info ∈ filter (λ info, ti_is_task_container info = true) containers) as Hi by (rewrite E; by left).
    apply list_elem_of_filter in Hi as [_ Hi]. by apply list_elem_of_fmap_2. }
  pose proof (visit_walks m rank (λ n i H, proj1 (Hm n i H))) as Hvisit.
  specialize (Hvisit ltac:(intros n i d H Hd; destruct (Hm n i H) as [<- Hi]; by apply Hrank)
    (S (size m)) root ∅ (m, [])).
  destruct (Hvisit) as ((_ & Hord & _) & _ & _).
  { simpl. lia. }
  { split_and!; simpl; [done|intros [|] ? ? ? [=]|intros; by left]. }
  { set_solver. }
  assert (∃ info, m !! root = Some info) as [info Hinfo].
  { destruct (m !! root) eqn:E; [by eexists|]. exfalso.
    assert (root ∈ ti_name <$> (map_to_list m).*2) as Hr.
    { unfold m. by rewrite collected_values. }
    apply list_elem_of_fmap in Hr as (i & -> & ((k, i') & -> & Hi%elem_of_map_to_list)%list_elem_of_fmap). simpl in *.
    destruct (Hm _ _ Hi) as [Hk _]. rewrite Hk in E. congruence. }
  revert Hord. cbn [visit fst snd]. rewrite Hinfo. cbn [fst snd]. intros Hord.
  eexists _, info, _. rewrite <-(assoc_L (++)). split_and!; [reflexivity|by apply Hm|exact Hord].
Qed.

(** ** The display *)

(** A terminal that only re-wraps rows that do not fit, after its width changed. *)
Definition rewrapped `{!UnicodeWidth} (console : Console) (cols width : nat) (st : State) (above : list (list ascii)) : screen :=
  fresh (above ++ if decide (Forall (λ r, display_width r ≤ cols) (rows_at console width st))
    then shown <$> rows_at console width st else []).


Module Live.
#[local] Instance latin_width : UnicodeWidth := {|
  char_width c := if is_control c then None else Some 1;
  str_width s := length (filter (λ c, is_control c = false) (chars s));
|}.

Definition console : Console := mk_console Stderr true true.
Definition graph : list TaskContainerInfo :=
  [mk_info "app" None (Some "app") ["database"] false true; mk_info "database" (Some "postgres") None [] false false].
Definition events : list TaskEvent :=
  [TaskStarting "test"; TaskGraphResolved graph; ImagePullStarting "postgres"; WarningPosted (to_text "slow");
   ImagePullCompleted "postgres"; RunningTaskContainer "app" None; RunEnded "test"; CleanupStarting None;
   CleanupFinished; TaskFinished "test" 0 1500000000].

(** The rows of the screen the events leave, on a terminal of 30 columns. *)
Definition screen_after (n : nat) : option (list string) :=
  s ← feed 30 10 Ground (at_end [] [] [])
    (screen_bytes console true (posts (fancy_post console console true (Some 30)) fancy_new (take n events)).2);
  Some (of_chars <$> sn_above s ++ [sn_line s]).

Example starting : screen_after 3 = Some ["Running test..."; "database: pulling image pos..."; "app: ready to build image"; ""].
Proof. vm_compute. reflexivity. Qed.

(** A warning leaves the rows as they were, and the next event paints them below it. *)
Example warned : screen_after 5 =
  Some ["Running test..."; "database: pulling image pos..."; "app: ready to build image"; "Warning: slow";
        "database: ready to start"; "app: ready to build image"; ""].
Proof. vm_compute. reflexivity. Qed.

Example finished : drop 7 <$> screen_after 10 =
  Some [""; "test finished with exit code 0"; " in 1.5s."; ""].
Proof. vm_compute. reflexivity. Qed.

End Live.
