(* ===== verification/CompatCli.v ===== *)
(** * CompatCli: the command line of ratect-compat

    [ratect-compat/src/main.rs]: the options, where they end and the task begins, what
    a command line is refused for, the values of options, the settings a run gets, and
    the exit code of a command line that is none.  [clap], which reads the options
    alone, is an interface; an argument is what it is of UTF-8, or what is shown of it. *)

From S2P Require Import Prelude Text Collections Values Outcome Paths ImageReference Project.
From S2P Require Caches Connection.
From stdpp Require Import options.

(** ** Arguments *)

(** [OsString]: UTF-8, or what [to_string_lossy] makes of it. *)
Inductive OsString := Utf8 (s : string) | NotUtf8 (lossy : string).
#[global] Instance OsString_eq_dec : EqDecision OsString.
Proof. solve_decision. Defined.

Definition to_string_lossy (a : OsString) : string := match a with Utf8 s | NotUtf8 s => s end.
Definition to_str (a : OsString) : option string := match a with Utf8 s => Some s | NotUtf8 _ => None end.

Inductive OutputStyleArg := Fancy | Simple | Quiet | All.

Record Args := mk_args {
  ar_config_file : string;
  ar_config_file_given : bool;
  ar_list_tasks : bool;
  ar_config_var : list (string * string);
  ar_config_vars_file : option string;
  ar_use_network : option string;
  ar_disable_ports : bool;
  ar_no_proxy_vars : bool;
  ar_skip_prerequisites : bool;
  ar_override_image : list (string * string);
  ar_tag_image : list (string * string);
  ar_no_cleanup : bool;
  ar_no_cleanup_after_failure : bool;
  ar_no_cleanup_after_success : bool;
  ar_enable_buildkit : bool;
  ar_docker_host : option string;
  ar_docker_context : option string;
  ar_docker_config : option string;
  ar_docker_tls : bool;
  ar_docker_tls_verify : bool;
  ar_docker_cert_path : option string;
  ar_docker_tls_ca_cert : option string;
  ar_docker_tls_cert : option string;
  ar_docker_tls_key : option string;
  ar_max_parallelism : option N;
  ar_cache_type : option Caches.CacheType;
  ar_clean : bool;
  ar_clean_cache : list string;
  ar_upgrade : bool;
  ar_no_update_notification : bool;
  ar_no_wrapper_cache_cleanup : bool;
  ar_output : option OutputStyleArg;
  ar_no_color : bool;
  ar_log_file : option string;
  ar_task_name : option string;
  ar_additional_args : list string;
}.

(** [a] with its caches, its task and the task's arguments. *)
Definition set_named (clean_cache : list string) (task_name : option string) (additional_args : list string) (a : Args)
  : Args :=
  mk_args (ar_config_file a) (ar_config_file_given a) (ar_list_tasks a) (ar_config_var a) (ar_config_vars_file a)
    (ar_use_network a) (ar_disable_ports a) (ar_no_proxy_vars a) (ar_skip_prerequisites a) (ar_override_image a)
    (ar_tag_image a) (ar_no_cleanup a) (ar_no_cleanup_after_failure a) (ar_no_cleanup_after_success a)
    (ar_enable_buildkit a) (ar_docker_host a) (ar_docker_context a) (ar_docker_config a) (ar_docker_tls a)
    (ar_docker_tls_verify a) (ar_docker_cert_path a) (ar_docker_tls_ca_cert a) (ar_docker_tls_cert a)
    (ar_docker_tls_key a) (ar_max_parallelism a) (ar_cache_type a) (ar_clean a) clean_cache (ar_upgrade a)
    (ar_no_update_notification a) (ar_no_wrapper_cache_cleanup a) (ar_output a) (ar_no_color a) (ar_log_file a)
    task_name additional_args.

(** The declarations: an option's names, and whether it takes a value. *)
Record Arg := mk_arg { get_long : option string; get_short : option ascii; takes_values : bool }.

Definition flag (name : string) : Arg := mk_arg (Some name) None false.
Definition valued (name : string) : Arg := mk_arg (Some name) None true.

Definition get_arguments : list Arg :=
  [mk_arg (Some "config-file") (Some "f"%char) true; mk_arg (Some "list-tasks") (Some "T"%char) false;
   valued "config-var"; valued "config-vars-file"; valued "use-network"; flag "disable-ports"; flag "no-proxy-vars";
   flag "skip-prerequisites"; valued "override-image"; valued "tag-image"; flag "no-cleanup";
   flag "no-cleanup-after-failure"; flag "no-cleanup-after-success"; flag "enable-buildkit"; valued "docker-host";
   valued "docker-context"; valued "docker-config"; flag "docker-tls"; flag "docker-tls-verify";
   valued "docker-cert-path"; valued "docker-tls-ca-cert"; valued "docker-tls-cert"; valued "docker-tls-key";
   valued "max-parallelism"; valued "cache-type"; flag "clean"; valued "clean-cache"; flag "upgrade";
   flag "no-update-notification"; flag "no-wrapper-cache-cleanup"; mk_arg (Some "output") (Some "o"%char) true;
   flag "no-color"; valued "log-file"; mk_arg None None true; mk_arg None None true].

Definition is_word (word : Word) (arg : Arg) : bool :=
  match word with
  | Long name => bool_decide (get_long arg = Some name)
  | Short short => bool_decide (get_short arg = Some short)
  | Positional _ => false
  end.

Definition takes_value (word : Word) : bool :=
  match List.find (is_word word) get_arguments with Some arg => takes_values arg | None => false end.

(** ** Where the options end *)

Inductive refusal :=
| LongWithNothing (name : string)
| ShortWithNothing (short : ascii)
| ValueLooksLikeOption (opt value : string)
| NotValidUtf8 (lossy : string)
| NoTaskName
| AfterTheTask (task extra : string)
| GivenMoreThanOnce (opt key_name key : string).

(** What a cluster of shorts is: the option whose value is the next argument, and
    what it is refused for. *)
Fixpoint short_value_option (shorts : list ascii) : option string * option refusal :=
  match shorts with
  | [] => (None, None)
  | short :: attached =>
      if takes_value (Short short) then
        (if decide (attached = []) then Some (of_chars ["-"%char; short]) else None,
         if decide (attached = ["="%char]) then Some (ShortWithNothing short) else None)
      else short_value_option attached
  end.

(** The same of an argument, [None] where the options end. *)
Definition value_option (argument : string) : option (option string * option refusal) :=
  if decide (argument = "--") then None
  else
    match strip_prefix "--" argument with
    | Some long =>
        Some match split_once "=" long with
          | Some (name, value) =>
              (None, if decide (value = EmptyString) then
                  if takes_value (Long name) then Some (LongWithNothing name) else None
                else None)
          | None => (if takes_value (Long long) then Some ("--" +:+ long) else None, None)
          end
    | None =>
        match strip_prefix "-" argument with
        | Some (String c shorts) => Some (short_value_option (chars (String c shorts)))
        | _ => None
        end
    end.

Definition first_refusal (a b : option refusal) : option refusal := match a with Some _ => a | None => b end.

(** The value of an option that is an argument of its own. *)
Definition next_value_refused (opt value : string) : option refusal :=
  match strip_prefix "-" value with
  | Some _ => if decide (value = "-") then None else Some (ValueLooksLikeOption opt value)
  | None => None
  end.

(** The loop: the options, the rest, and the first thing refused. *)
Fixpoint split_options (arguments : list OsString) : list OsString * list OsString * option refusal :=
  match arguments with
  | [] => ([], [], None)
  | argument :: others =>
      match value_option (to_string_lossy argument) with
      | None => ([], arguments, None)
      | Some (next, refused) =>
          match next, others with
          | Some opt, value :: others =>
              let '(options, rest, later) := split_options others in
              (argument :: value :: options, rest,
               first_refusal refused (first_refusal (next_value_refused opt (to_string_lossy value)) later))
          | _, _ =>
              let '(options, rest, later) := split_options others in
              (argument :: options, rest, first_refusal refused later)
          end
      end
  end.

Definition split_at_task (arguments : list OsString) : list OsString * list OsString * option refusal :=
  match arguments with
  | [] => ([], [], None)
  | program :: arguments =>
      let '(options, rest, refused) := split_options arguments in (program :: options, rest, refused)
  end.

(** The words that make a command line another command than a run. *)
Definition replaces_the_task (word : Word) : bool :=
  match word with
  | Long name => bool_decide (name ∈ ["list-tasks"; "clean"; "clean-cache"; "upgrade"])
  | Short short => bool_decide (short = "T"%char)
  | Positional _ => false
  end.

Fixpoint take_while {A} (f : A → bool) (l : list A) : list A :=
  match l with
  | [] => []
  | x :: l => if f x then x :: take_while f l else []
  end.

Definition is_positional (word : Word) : bool := match word with Positional _ => true | _ => false end.

Definition is_a_run (args : list string) : bool :=
  negb (existsb replaces_the_task (take_while (λ w, negb (is_positional w)) (command_line_words takes_value args))).

Definition runs_a_task (a : Args) : bool :=
  negb (ar_upgrade a) && negb (ar_clean a) && bool_decide (ar_clean_cache a = []) && negb (ar_list_tasks a).

(** ** The command line *)

Inductive error_kind := InvalidValue | InvalidUtf8 | MissingRequiredArgument | UnknownArgument | ArgumentConflict.

(** What a command line is refused with: [clap]'s own error, or one made here, of a
    kind that is printed on stderr. *)
Inductive cli_error (E : Type) := ByClap (e : E) | Refused (kind : error_kind) (why : refusal).
Arguments ByClap {E} _.
Arguments Refused {E} _ _.

(** The [clap] crate: what it makes of the options, with whether [--config-file] was
    among them. *)
Class Clap (E : Type) := {
  try_get_matches_from : list OsString → result Args E;
  use_stderr : E → bool;
  is_unknown_argument : E → bool;
  remove_suggested : E → E;
}.

(** The names in the values of [--clean-cache]. *)
Definition cache_names (values : list string) : list string := values ≫= λ value, trim <$> split "," value.

(** The first key given twice. *)
Fixpoint given_twice (seen : list string) (pairs : list (string * string)) : option string :=
  match pairs with
  | [] => None
  | (key, _) :: pairs => if decide (key ∈ seen) then Some key else given_twice (key :: seen) pairs
  end.

Section parsing.
Context {E : Type} {clap : Clap E}.

(** The task and its arguments. *)
Definition task_of (rest : list string) : result (string * list string) (cli_error E) :=
  match rest with
  | [] => Err (Refused MissingRequiredArgument NoTaskName)
  | task :: more =>
      if decide (task = "--") then Err (Refused MissingRequiredArgument NoTaskName)
      else
        match more with
        | [] => Ok (task, [])
        | extra :: task_args =>
            if decide (extra = "--") then Ok (task, task_args)
            else Err (Refused UnknownArgument (AfterTheTask task extra))
        end
  end.

Fixpoint all_utf8 (words : list OsString) : result (list string) (cli_error E) :=
  match words with
  | [] => Ok []
  | word :: words =>
      match to_str word with
      | None => Err (Refused InvalidUtf8 (NotValidUtf8 (to_string_lossy word)))
      | Some s => let? words := all_utf8 words in Ok (s :: words)
      end
  end.

Definition once (opt key_name : string) (pairs : list (string * string)) : result () (cli_error E) :=
  match given_twice [] pairs with
  | Some key => Err (Refused ArgumentConflict (GivenMoreThanOnce opt key_name key))
  | None => Ok tt
  end.

Definition parse_checked (arguments : list OsString) : result Args (cli_error E) :=
  let '(options, rest, refused) := split_at_task arguments in
  let? args :=
    match try_get_matches_from options, refused with
    | Ok args, None => Ok args
    | Ok _, Some why => Err (Refused InvalidValue why)
    | Err e, Some why => if use_stderr e then Err (Refused InvalidValue why) else Err (ByClap e)
    | Err e, None =>
        Err (ByClap (if use_stderr e && is_unknown_argument e then remove_suggested e else e))
    end in
  let args := set_named (cache_names (ar_clean_cache args)) (ar_task_name args) (ar_additional_args args) args in
  let? args :=
    if runs_a_task args then
      let? rest := all_utf8 rest in
      let? named := task_of rest in
      Ok (set_named (ar_clean_cache args) (Some named.1) named.2 args)
    else Ok args in
  let? _ := once "--config-var" "variable" (ar_config_var args) in
  let? _ := once "--override-image" "container" (ar_override_image args) in
  Ok args.

(** The arguments, or the exit code of an invocation that is none: [clap] exits with
    success after [--help] and [--version]. *)
Definition parse_args (arguments : list OsString) : result Args Z :=
  map_err (λ error,
    match error with
    | ByClap e => if use_stderr e then for_invocation_error (is_a_run (to_string_lossy <$> drop 1 arguments)) else SUCCESS
    | Refused _ _ => for_invocation_error (is_a_run (to_string_lossy <$> drop 1 arguments))
    end) (parse_checked arguments).
End parsing.

(** ** The values of options *)

Inductive value_error :=
| ExpectedPair (shape given : string)
| EmptyContainer
| EmptyValue (value_name : string)
| BadTag (tag : string) (e : reference_error).

Definition parse_config_var (s : string) : result (string * string) value_error :=
  ok_or (split_once "=" s) (ExpectedPair "NAME=VALUE" s).

Definition parse_container_value_pair (s value_name : string) : result (string * string) value_error :=
  match split_once "=" s with
  | None => Err (ExpectedPair "CONTAINER=VALUE" s)
  | Some (container, value) =>
      if decide (container = EmptyString) then Err EmptyContainer
      else if decide (value = EmptyString) then Err (EmptyValue value_name)
      else Ok (container, value)
  end.

Definition parse_override_image (s : string) : result (string * string) value_error :=
  parse_container_value_pair s "image".

Definition parse_tag_image (s : string) : result (string * string) value_error :=
  let? parsed := parse_container_value_pair s "tag" in
  let? _ := map_err (λ e, BadTag e.1 e.2) (check_tag parsed.2) in
  Ok parsed.

(** ** What a run is given *)

Inductive option_value_error :=
| NotACacheType (other : string)
| VarsFileNotAFile (path : string)
| VarsFileUnreadable (path : string).

Definition cache_type (a : Args) (batect_cache_type_env : option string) : result Caches.CacheType option_value_error :=
  match ar_cache_type a with
  | Some cache_type => Ok cache_type
  | None =>
      match batect_cache_type_env with
      | None => Ok Caches.Volume
      | Some other =>
          if decide (other = "volume") then Ok Caches.Volume
          else if decide (other = "directory") then Ok Caches.Directory
          else Err (NotACacheType other)
      end
  end.

Definition docker_connection (a : Args) : Connection.DockerConnectionOptions :=
  Connection.mk_connection_options (ar_docker_host a) (ar_docker_context a) (ar_docker_config a) (ar_docker_tls a)
    (ar_docker_tls_verify a) (ar_docker_cert_path a) (ar_docker_tls_ca_cert a) (ar_docker_tls_cert a)
    (ar_docker_tls_key a).

(** What [std::fs::metadata] says. *)
Inductive metadata := IsFile | IsOther | NotFound | Unreadable.

Definition resolve_config_vars_file (explicit : option string) (dir : string) (at_path : string → metadata)
  : result (option string) option_value_error :=
  match explicit with
  | Some _ => Ok explicit
  | None =>
      let default := path_join dir "batect.local.yml" in
      match at_path default with
      | IsFile => Ok (Some default)
      | NotFound => Ok None
      | IsOther => Err (VarsFileNotAFile default)
      | Unreadable => Err (VarsFileUnreadable default)
      end
  end.

Record TaskEngineSettings := mk_settings {
  se_existing_network : option string;
  se_publish_ports : bool;
  se_propagate_proxy_environment_variables : bool;
  se_run_prerequisites : bool;
  se_image_overrides : gmap string string;
  se_image_tags : gmap string (gset string);
  se_cleanup_after_success : bool;
  se_cleanup_after_failure : bool;
  se_max_parallelism : option N;
  se_cache : option (Caches.CacheType * string);
  se_ratect_version : option string;
  se_dialect : Dialect;
  se_config_var_overrides : gmap string string;
}.

(** [version] is the crate's own. *)
Definition engine_settings (version : string) (a : Args) (project_directory : string) (dialect : Dialect)
    (config_var_overrides : gmap string string) (cache_type : Caches.CacheType) : TaskEngineSettings :=
  mk_settings (ar_use_network a) (negb (ar_disable_ports a)) (negb (ar_no_proxy_vars a))
    (negb (ar_skip_prerequisites a))
    (foldl (λ m p, <[p.1 := p.2]> m) ∅ (ar_override_image a))
    (foldl (λ m p, <[p.1 := {[p.2]} ∪ default ∅ (m !! p.1)]> m) ∅ (ar_tag_image a))
    (negb (ar_no_cleanup a || ar_no_cleanup_after_success a)) (negb (ar_no_cleanup a || ar_no_cleanup_after_failure a))
    (ar_max_parallelism a) (Some (cache_type, project_directory)) (Some version) dialect config_var_overrides.

(** The variables of the command line over those of the file. *)
Definition config_var_overrides (file_variables : gmap string string) (a : Args) : gmap string string :=
  foldl (λ m p, <[p.1 := p.2]> m) file_variables (ar_config_var a).

(** ** Reading the options back *)

(** A value that is an argument of its own, and is not taken for an option. *)
Definition plain (value : string) : Prop := strip_prefix "-" value = None ∨ value = "-".

(** An option as it may be written: no value is empty after a [=], and none that is an
    argument of its own looks like an option. *)
Definition option_ok (i : item) : Prop :=
  item_ok takes_value i ∧
  match i with
  | ILong name (Inline value) => value = EmptyString → takes_value (Long name) = false
  | IShorts _ (Some (_, Inline value)) => value ≠ "="
  | ILong _ (Next value) | IShorts _ (Some (_, Next value)) => plain value
  | IPositional _ => False
  | _ => True
  end.

(** An option without the value it takes. *)
Definition value_missing (argument : string) : Prop :=
  ∀ value, plain value → ∃ i, option_ok i ∧ render i = [argument; value].

(** Where the options end. *)
Definition ends_options (argument : string) : Prop :=
  argument = "--" ∨ strip_prefix "-" argument = None ∨ argument = "-".

Notation lossy := (fmap to_string_lossy).

Lemma first_refusal_None a b : first_refusal a b = None ↔ a = None ∧ b = None.
Proof. destruct a; naive_solver. Qed.

Lemma next_value_plain opt value : next_value_refused opt value = None ↔ plain value.
Proof.
  unfold next_value_refused, plain. destruct (strip_prefix "-" value); [|naive_solver].
  case_decide; [naive_solver|]. split; [done|]. by intros [?|?].
Qed.

Lemma strip_dash s : strip_prefix "-" ("-" +:+ s) = Some s.
Proof. by apply strip_prefix_Some. Qed.
Lemma strip_dashes_dash s : strip_prefix "-" ("--" +:+ s) = Some ("-" +:+ s).
Proof. by apply strip_prefix_Some. Qed.

Lemma value_option_ends argument : value_option argument = None ↔ ends_options argument.
Proof.
  unfold value_option, ends_options. case_decide as Hd; [naive_solver|].
  destruct (strip_prefix "--" argument) as [long|] eqn:E.
  - apply strip_prefix_Some in E as ->. split; [done|]. intros [?|[?|?]]; [done| |done]. done.
  - destruct (strip_prefix "-" argument) as [[|c s]|] eqn:E1; [|split; [done|]|naive_solver].
    + apply strip_prefix_Some in E1 as ->. split; [by right; right|done].
    + apply strip_prefix_Some in E1 as ->. intros [?|[?|?]]; done.
Qed.

Lemma two_step_ind {A} (P : list A → Prop) : P [] → (∀ a l, P l → P (tail l) → P (a :: l)) → ∀ l, P l.
Proof.
  intros Hnil Hstep l. enough (P l ∧ P (tail l)) by tauto.
  induction l as [|a l [IH1 IH2]]; [done|]. split; [by apply Hstep|done].
Qed.

Lemma split_options_parts arguments :
  let '(options, rest, _) := split_options arguments in
  arguments = options ++ rest ∧ ∀ a, head rest = Some a → ends_options (to_string_lossy a).
Proof.
  induction arguments as [|argument others IH1 IH2] using two_step_ind; [done|]. cbn [split_options].
  destruct (value_option _) as [[next refused]|] eqn:E.
  2: { split; [done|]. intros a [= <-]. by apply value_option_ends. }
  destruct next as [opt|]; [destruct others as [|value others]|]; cbn [tail] in IH2.
  1, 3: clear IH2; destruct (split_options _) as [[o r] l]; destruct IH1 as [-> ?]; by split.
  clear IH1. destruct (split_options others) as [[o r] l]. destruct IH2 as [-> ?]. by split.
Qed.

(** The options alone are read as they are with what follows. *)
Lemma split_options_alone arguments options rest refused :
  split_options arguments = (options, rest, refused) → split_options options = (options, [], refused).
Proof.
  revert options rest refused.
  induction arguments as [|argument others IH1 IH2] using two_step_ind; intros options rest refused; [by intros [= <- <- <-]|].
  cbn [split_options]. destruct (value_option _) as [[next refused0]|] eqn:E; [|by intros [= <- <- <-]].
  destruct next as [opt|]; [destruct others as [|value others]|]; cbn [tail] in IH2.
  1, 3: clear IH2; destruct (split_options _) as [[o r] l] eqn:El; intros [= <- <- <-]; cbn [split_options]; rewrite E.
  - cbn [split_options] in El. by simplify_eq/=.
  - by rewrite (IH1 _ _ _ eq_refl).
  - clear IH1. destruct (split_options others) as [[o r] l]. intros [= <- <- <-]. cbn [split_options]. rewrite E.
    by rewrite (IH2 _ _ _ eq_refl).
Qed.

(** ** Options as items *)

Lemma short_value_flags flags rest :
  Forall (λ c, takes_value (Short c) = false) flags → short_value_option (flags ++ rest) = short_value_option rest.
Proof. induction 1 as [|c flags Hc _ IH]; [done|]. csimpl. by rewrite Hc. Qed.

(** A cluster is flags, and then at most one option that takes a value. *)
Lemma short_cluster l : ∃ flags valued, l = flags ++ valued ∧ Forall (λ c, takes_value (Short c) = false) flags ∧
  ∀ c, head valued = Some c → takes_value (Short c) = true.
Proof.
  induction l as [|c l (flags & valued & -> & Hf & Hv)]; [by exists [], []|].
  destruct (takes_value (Short c)) eqn:E.
  - exists [], (c :: flags ++ valued). split_and!; [done..|]. by intros ? [= <-].
  - exists (c :: flags), valued. split_and!; [done|by constructor|done].
Qed.

Lemma value_option_cluster c l :
  c ≠ "-"%char → value_option ("-" +:+ of_chars (c :: l)) = Some (short_value_option (c :: l)).
Proof.
  intros Hc. unfold value_option. rewrite decide_False by (by intros [= ?]).
  destruct (strip_prefix "--" _) as [t|] eqn:E; [apply strip_prefix_Some in E; by injection E|].
  rewrite strip_dash. change (of_chars (c :: l)) with (String c (of_chars l)). cbv iota beta. do 2 f_equal.
  apply (chars_of_chars (c :: l)).
Qed.

Lemma value_option_long name : name ≠ EmptyString → "="%char ∉ chars name →
  value_option ("--" +:+ name) = Some (if takes_value (Long name) then Some ("--" +:+ name) else None, None).
Proof.
  intros Hn Heq. unfold value_option. rewrite decide_False by (intros E; by injection E).
  rewrite strip_prefix_dashes. by rewrite (proj2 (split_once_None "=" name)).
Qed.

Lemma value_option_long_inline name value : "="%char ∉ chars name → value_option ("--" +:+ name +:+ "=" +:+ value) =
  Some (None, if decide (value = EmptyString) then if takes_value (Long name) then Some (LongWithNothing name) else None
    else None).
Proof.
  intros Heq. unfold value_option. rewrite decide_False by (intros E; injection E; by destruct name).
  rewrite strip_prefix_dashes. by rewrite (proj2 (split_once_Some "=" (name +:+ "=" +:+ value) name value)).
Qed.

(** An item's first argument, and the value that may follow it. *)
Lemma item_value_option i : option_ok i →
  (∃ a, render i = [a] ∧ value_option a = Some (None, None)) ∨
  (∃ a opt v, render i = [a; v] ∧ value_option a = Some (Some opt, None) ∧ plain v).
Proof.
  destruct i as [name [|v|v]|flags valued|w]; intros [Hi Hok]; [| | | |done].
  - destruct Hi as (Hn & Heq & Ht). left. eexists. split; [done|]. by rewrite value_option_long, Ht.
  - left. eexists. split; [done|]. rewrite value_option_long_inline by done. do 2 f_equal. case_decide; [|done]. by rewrite Hok.
  - destruct Hi as (Hn & Heq & Ht). right. eexists _, _, _. split_and!; [done| |done]. by rewrite value_option_long, Ht.
  - destruct Hi as (Hf & Hv & Hh). destruct valued as [[c v]|].
    + destruct (flags ++ [c]) as [|c0 l] eqn:El; [by destruct flags|].
      assert (c0 ≠ "-"%char) as Hc0 by (intros ->; by simpl in Hh). destruct Hv as [Hc Hv].
      destruct v as [|v|v]; [done| |]; cbn [render]; rewrite El.
      * left. eexists. split; [done|].
        replace ("-" +:+ of_chars (c0 :: l) +:+ v) with ("-" +:+ of_chars (c0 :: (l ++ chars v)))
          by (by rewrite app_comm_cons, of_chars_app, of_chars_chars).
        rewrite value_option_cluster by done. rewrite app_comm_cons, <-El, <-(assoc_L (++)), short_value_flags by done.
        cbn [app short_value_option]. rewrite Hc. rewrite decide_False by (intros E; apply Hv; by apply chars_inj).
        rewrite decide_False; [done|]. intros E. apply Hok, chars_inj. by rewrite E.
      * right. eexists _, _, _. split_and!; [done| |done].
        rewrite value_option_cluster by done. rewrite <-El, short_value_flags by done. cbn [short_value_option]. by rewrite Hc.
    + rewrite app_nil_r in Hh. left. eexists. split; [done|]. destruct flags as [|c0 l]; [done|].
      rewrite value_option_cluster by (intros ->; by simpl in Hh).
      by rewrite <-(app_nil_r (c0 :: l)), short_value_flags.
Qed.

(** An argument that is an option on its own is an item, and one that waits for its
    value is one with any value that does not look like an option. *)
Lemma value_option_item a next : value_option a = Some (next, None) →
  match next with None => ∃ i, option_ok i ∧ render i = [a] | Some _ => value_missing a end.
Proof.
  unfold value_option. case_decide as Ha; [done|]. destruct (strip_prefix "--" a) as [long|] eqn:E.
  { apply strip_prefix_Some in E as ->. destruct (split_once "=" long) as [[name value]|] eqn:E.
    - apply split_once_Some in E as [-> Hn]. intros [= <- H]. exists (ILong name (Inline value)). split; [|done].
      split; [done|]. intros ->. rewrite decide_True in H by done. by destruct (takes_value _).
    - apply split_once_None in E. assert (long ≠ EmptyString) by (by intros ->).
      intros [= <-]. destruct (takes_value (Long long)) eqn:Et.
      + intros value Hv. by exists (ILong long (Next value)).
      + by exists (ILong long NoValue). }
  destruct (strip_prefix "-" a) as [[|c0 s]|] eqn:E1; [done| |done]. apply strip_prefix_Some in E1 as ->.
  assert (c0 ≠ "-"%char) as Hc0 by (intros ->; by rewrite (proj2 (strip_prefix_Some "--" _ s)) in E).
  intros Hs0. assert (short_value_option (c0 :: chars s) = (next, None)) as Hs by exact (inj Some _ _ Hs0). clear Hs0.
  destruct (short_cluster (c0 :: chars s)) as (flags & rest & El & Hf & Hr).
  rewrite El, short_value_flags in Hs by done.
  assert ("-" +:+ String c0 s = "-" +:+ of_chars (c0 :: chars s)) as -> by (by rewrite <-(of_chars_chars (String c0 s))).
  rewrite El. destruct rest as [|c value]; cbn [short_value_option] in Hs.
  { injection Hs as <-. exists (IShorts flags None). rewrite app_nil_r in *. split; [|done]. split; [|done].
    split_and!; [done|by rewrite <-El|]. rewrite app_nil_r, <-El. by intros [= ->]. }
  rewrite (Hr c eq_refl) in Hs. injection Hs as <- Hs. destruct (decide (value = [])) as [Hv|Hv].
  - subst value. intros v Hp. exists (IShorts flags (Some (c, Next v))). split; [|done]. split; [|done].
    split_and!; [done|by apply Hr|done|]. rewrite <-El. by intros [= ->].
  - exists (IShorts flags (Some (c, Inline (of_chars value)))). split.
    + split; [|by intros Hv'; rewrite decide_True in Hs by (by rewrite <-(chars_of_chars value), Hv')].
      split_and!; [done|by apply Hr|intros Hv'; apply Hv; by rewrite <-(chars_of_chars value), Hv'|].
      destruct flags; injection El as -> _; by intros [= ->].
    + simpl. f_equal. by rewrite <-of_chars_app, <-(assoc_L (++)).
Qed.

(** What a command line's options are when nothing is refused: options as they may be
    written, and then at most one whose value is missing, which ends the line. *)
Definition reads_as_options (options rest : list OsString) : Prop :=
  ∃ items, Forall option_ok items ∧
    (lossy options = concat (render <$> items) ∨
     rest = [] ∧ ∃ last, value_missing last ∧ lossy options = concat (render <$> items) ++ [last]).

Lemma value_missing_option a : value_missing a → ∃ opt, value_option a = Some (Some opt, None).
Proof.
  intros H. destruct (H "x") as (i & Hi & Hr); [by left|].
  destruct (item_value_option i Hi) as [(b & E & _)|(b & opt & v & E & Ho & _)]; rewrite Hr in E; simplify_eq/=. by eexists.
Qed.

Lemma split_items items : Forall option_ok items → ∀ os others, lossy os = concat (render <$> items) →
  split_options (os ++ others) = let '(o, r, refused) := split_options others in (os ++ o, r, refused).
Proof.
  induction 1 as [|i items Hi _ IH]; intros os others Hos; csimpl in Hos.
  { apply fmap_nil_inv in Hos as ->. simpl. by destruct (split_options others) as [[? ?] ?]. }
  destruct (item_value_option i Hi) as [(a & Hr & Ha)|(a & opt & v & Hr & Ha & Hv)]; rewrite Hr in Hos.
  - destruct os as [|a' os]; [done|]. injection Hos as Ha' Hos. cbn [app split_options]. rewrite Ha', Ha, (IH _ others Hos).
    by destruct (split_options others) as [[? ?] ?].
  - destruct os as [|a' [|v' os]]; [done..|]. injection Hos as Ha' Hv' Hos.
    cbn [app split_options]. rewrite Ha', Ha, Hv', (IH _ others Hos). rewrite (proj2 (next_value_plain opt v) Hv).
    by destruct (split_options others) as [[? ?] ?].
Qed.

Lemma split_options_reads arguments options rest refused :
  split_options arguments = (options, rest, refused) → refused = None ↔ reads_as_options options rest.
Proof.
  intros Hs. split.
  - intros ->. revert options rest Hs.
    induction arguments as [|argument others IH1 IH2] using two_step_ind; intros options rest.
    { intros [= <- <-]. exists []. split; [done|]. by left. }
    cbn [split_options]. destruct (value_option _) as [[next refused0]|] eqn:E.
    2: { intros [= <- <-]. exists []. split; [done|]. by left. }
    destruct next as [opt|]; [destruct others as [|value others]|]; cbn [tail] in IH2.
    + intros [= <- <- Hr]. apply first_refusal_None in Hr as [-> _]. exists []. split; [done|]. right. split; [done|].
      exists (to_string_lossy argument). split; [by apply (value_option_item _ _ E)|done].
    + destruct (split_options others) as [[o r] l]. intros [= <- <- Hr].
      apply first_refusal_None in Hr as [-> [Hv%next_value_plain ->]%first_refusal_None].
      destruct (value_option_item _ _ E _ Hv) as (i & Hi & Hri). destruct (IH2 _ _ eq_refl) as (items & Hitems & Hl).
      exists (i :: items). split; [by constructor|]. csimpl. rewrite Hri.
      destruct Hl as [-> |(-> & last & ? & ->)]; [by left|right; split; [done|by exists last]].
    + destruct (split_options others) as [[o r] l]. intros [= <- <- Hr].
      apply first_refusal_None in Hr as [-> ->].
      destruct (value_option_item _ _ E) as (i & Hi & Hri). destruct (IH1 _ _ eq_refl) as (items & Hitems & Hl).
      exists (i :: items). split; [by constructor|]. csimpl. rewrite Hri.
      destruct Hl as [-> |(-> & last & ? & ->)]; [by left|right; split; [done|by exists last]].
  - intros (items & Hitems & Hl). apply split_options_alone in Hs.
    assert (refused = (split_options options).2) as -> by (by rewrite Hs).
    destruct Hl as [Hl|(-> & last & [opt Ho]%value_missing_option & Hl)].
    + by rewrite <-(app_nil_r options), (split_items _ Hitems _ [] Hl).
    + apply fmap_app_inv in Hl as (os & os' & Hos & Hlast & ->). rewrite (split_items _ Hitems _ _ (eq_sym Hos)).
      destruct os' as [|a [|]]; [done| |done]. injection Hlast as ->. cbn [split_options]. by rewrite Ho.
Qed.

(** ** A run, read from the words *)

Lemma short_words_options l :
  Forall (λ w, is_positional w = false) (short_words takes_value l).1 ∧
  (short_words takes_value l).2 = match (short_value_option l).1 with Some _ => true | None => false end.
Proof.
  induction l as [|c l [IH1 IH2]]; [by repeat constructor|]. cbn [short_words short_value_option].
  destruct (takes_value (Short c)).
  - simpl. split; [by repeat constructor|]. case_bool_decide; by case_decide.
  - destruct (short_words _ _) as [words next]. simpl in *. split; [by constructor|done].
Qed.

Lemma value_option_words a :
  match value_option a with
  | None => a = "--" ∨ a ≠ "--" ∧ arg_words takes_value a = ([Positional a], false)
  | Some (next, _) => a ≠ "--" ∧ Forall (λ w, is_positional w = false) (arg_words takes_value a).1 ∧
      (arg_words takes_value a).2 = match next with Some _ => true | None => false end
  end.
Proof.
  unfold value_option, arg_words. case_decide as Ha; [by left|].
  destruct (strip_prefix "--" a) as [long|].
  - destruct (split_once "=" long) as [[name value]|]; [by repeat constructor|].
    split_and!; [done|by repeat constructor|]. simpl. by destruct (takes_value _).
  - destruct (strip_prefix "-" a) as [[|c s]|]; [by right| |by right].
    pose proof (short_words_options (chars (String c s))) as [H1 H2].
    destruct (short_value_option _) as [next r]. by split_and!.
Qed.

Lemma take_while_app {A} (f : A → bool) l k : Forall (λ x, f x = true) l → take_while f (l ++ k) = l ++ take_while f k.
Proof. induction 1 as [|x l Hx _ IH]; [done|]. csimpl. by rewrite Hx, IH. Qed.

Lemma words_of_options arguments :
  take_while (λ w, negb (is_positional w)) (command_line_words takes_value (lossy arguments)) =
  command_line_words takes_value (lossy (split_options arguments).1.1).
Proof.
  unfold command_line_words.
  induction arguments as [|argument others IH1 IH2] using two_step_ind; [done|].
  cbn [split_options]. csimpl. cbn [words_from]. pose proof (value_option_words (to_string_lossy argument)) as H.
  destruct (value_option _) as [[next refused0]|] eqn:E.
  2: { destruct H as [H|[Hne H]]; [by rewrite decide_True|]. by rewrite decide_False, H. }
  destruct H as (Hne & Hw & Hnext). rewrite decide_False by done.
  assert (Forall (λ w, negb (is_positional w) = true) (arg_words takes_value (to_string_lossy argument)).1) as Hw'.
  { eapply Forall_impl; [exact Hw|]. by intros w ->. }
  destruct (arg_words takes_value (to_string_lossy argument)) as [words b] eqn:Ea. cbn [fst snd] in *.
  destruct next as [opt|]; [destruct others as [|value others]|]; subst b; cbn [tail] in IH2;
    rewrite take_while_app by done.
  - cbn [split_options fst]. csimpl. cbn [words_from]. rewrite decide_False by done. by rewrite Ea, !app_nil_r.
  - csimpl. cbn [words_from]. destruct (split_options others) as [[o r] l]. cbn [fst] in *. csimpl. cbn [words_from].
    rewrite decide_False by done. rewrite Ea. by f_equal.
  - destruct (split_options others) as [[o r] l]. cbn [fst] in *. csimpl. cbn [words_from].
    rewrite decide_False by done. rewrite Ea. by f_equal.
Qed.

(** ** What a command line is parsed as *)

(** What [clap] documents: a flag is set exactly when it was given, and a tip of an error
    is no part of its kind. *)
Class ClapLaws (E : Type) `{!Clap E} := {
  flags_read options a :
    split_options (drop 1 options) = (drop 1 options, [], None) → try_get_matches_from options = Ok a →
    let words := command_line_words takes_value (lossy (drop 1 options)) in
    (ar_list_tasks a = true ↔ Long "list-tasks" ∈ words ∨ Short "T" ∈ words) ∧
    (ar_clean a = true ↔ Long "clean" ∈ words) ∧ (ar_upgrade a = true ↔ Long "upgrade" ∈ words) ∧
    (ar_clean_cache a ≠ [] ↔ Long "clean-cache" ∈ words);
  removed_stderr e : use_stderr (remove_suggested e) = use_stderr e;
}.

Lemma runs_named a task task_args :
  runs_a_task (set_named (cache_names (ar_clean_cache a)) task task_args a) = runs_a_task a.
Proof.
  unfold runs_a_task. simpl. do 2 f_equal. apply bool_decide_ext. unfold cache_names.
  destruct (ar_clean_cache a) as [|value values]; [done|]. csimpl. split; [|done].
  intros [H _]%app_eq_nil. by apply fmap_nil_inv, split_nonempty in H.
Qed.

Section parsing.
Context {E : Type} `{!Clap E}.

#[local] Instance Utf8_inj : Inj (=) (=) Utf8.
Proof. by intros ? ? [= ->]. Qed.

Lemma all_utf8_spec words l : all_utf8 (E := E) words = Ok l ↔ words = Utf8 <$> l.
Proof.
  revert l. induction words as [|[s|s] words IH]; intros l; simpl.
  - split; [by intros [= <-]|]. by destruct l.
  - destruct (all_utf8 words) as [l'|] eqn:El; simpl.
    + rewrite (proj1 (IH l') eq_refl). split; [by intros [= <-]|].
      destruct l as [|s' l]; intros [= -> Hl]. by apply (inj (fmap Utf8)) in Hl as ->.
    + split; [done|]. destruct l as [|s' l]; intros [= -> Hl]. by apply IH in Hl.
  - split; [done|]. by destruct l.
Qed.

Lemma task_of_spec rest task task_args : task_of (E := E) rest = Ok (task, task_args) ↔
  task ≠ "--" ∧ (rest = [task] ∧ task_args = [] ∨ rest = task :: "--" :: task_args).
Proof.
  unfold task_of. destruct rest as [|word [|extra more]]; [naive_solver| |];
    case_decide; try case_decide; subst; naive_solver.
Qed.

Lemma given_twice_None seen pairs :
  given_twice seen pairs = None ↔ NoDup pairs.*1 ∧ ∀ key, key ∈ pairs.*1 → key ∉ seen.
Proof.
  revert seen. induction pairs as [|[key value] pairs IH]; intros seen; csimpl.
  - split; [|done]. intros _. split; [constructor|]. by intros ? ?%not_elem_of_nil.
  - rewrite NoDup_cons. case_decide as Hk; [set_solver|]. rewrite IH. set_solver.
Qed.

Lemma once_spec opt key_name pairs u : once (E := E) opt key_name pairs = Ok u ↔ NoDup pairs.*1.
Proof.
  unfold once. pose proof (given_twice_None [] pairs) as H.
  assert (NoDup pairs.*1 ↔ given_twice [] pairs = None) as ->.
  { rewrite H. split; [|by intros []]. split; [done|]. intros ? ? ?%not_elem_of_nil. done. }
  destruct u, (given_twice [] pairs); naive_solver.
Qed.

Lemma keys_once args a :
  (let? _ := once (E := E) "--config-var" "variable" (ar_config_var args) in
   let? _ := once "--override-image" "container" (ar_override_image args) in Ok args) = Ok a ↔
  args = a ∧ NoDup (ar_config_var args).*1 ∧ NoDup (ar_override_image args).*1.
Proof.
  pose proof (once_spec "--config-var" "variable" (ar_config_var args) ()) as H1.
  pose proof (once_spec "--override-image" "container" (ar_override_image args) ()) as H2.
  destruct (once "--config-var" _ _) as [[]|]; simpl; [|naive_solver].
  destruct (once "--override-image" _ _) as [[]|]; simpl; naive_solver.
Qed.

Lemma parse_checked_Ok arguments a : parse_checked arguments = Ok a ↔
  ∃ options rest a0, split_at_task arguments = (options, rest, None) ∧ try_get_matches_from options = Ok a0 ∧
    NoDup (ar_config_var a0).*1 ∧ NoDup (ar_override_image a0).*1 ∧
    let caches := cache_names (ar_clean_cache a0) in
    if runs_a_task a0
    then ∃ task task_args, task ≠ "--" ∧
      (rest = [Utf8 task] ∧ task_args = [] ∨ rest = Utf8 task :: Utf8 "--" :: (Utf8 <$> task_args)) ∧
      a = set_named caches (Some task) task_args a0
    else a = set_named caches (ar_task_name a0) (ar_additional_args a0) a0.
Proof.
  unfold parse_checked. destruct (split_at_task arguments) as [[options rest] refused]. split.
  - destruct (try_get_matches_from options) as [a0|e] eqn:Hclap, refused as [why|];
      try (destruct (use_stderr e)); try discriminate. cbn [result_bind].
    rewrite runs_named. intros H. exists options, rest, a0. do 2 (split; [done|]). destruct (runs_a_task a0).
    + destruct (all_utf8 rest) as [words|] eqn:Hu; [|done]. apply all_utf8_spec in Hu as ->. cbn [result_bind] in H.
      destruct (task_of words) as [[task task_args]|] eqn:Ht; [|done]. apply task_of_spec in Ht as [Hne Ht].
      cbn [result_bind fst snd] in H. apply keys_once in H as (<- & H1 & H2).
      split; [exact H1|]. split; [exact H2|].
      exists task, task_args. split; [done|]. split; [|done]. destruct Ht as [[-> ->]| ->]; [by left|by right].
    + cbn [result_bind] in H. by apply keys_once in H as (<- & H1 & H2).
  - intros (options' & rest' & a0 & [= <- <- ->] & -> & H1 & H2 & H). cbn [result_bind]. rewrite runs_named.
    destruct (runs_a_task a0).
    + destruct H as (task & task_args & Hne & Hrest & ->).
      assert (∃ words, rest = Utf8 <$> words ∧ (words = [task] ∧ task_args = [] ∨ words = task :: "--" :: task_args))
        as (words & Hu & Hw).
      { destruct Hrest as [[-> ->]| ->]; [exists [task]|exists (task :: "--" :: task_args)]; naive_solver. }
      rewrite (proj2 (all_utf8_spec rest words) Hu). cbn [result_bind].
      rewrite (proj2 (task_of_spec words task task_args) (conj Hne Hw)). cbn [result_bind fst snd]. by apply keys_once.
    + subst a. cbn [result_bind]. by apply keys_once.
Qed.

(** A check of this program's own: its errors are not [clap]'s. *)
Definition own {A} (r : result A (cli_error E)) : Prop := ∀ e, r ≠ Err (ByClap e).

Lemma own_bind {A B} (r : result A (cli_error E)) (k : A → result B (cli_error E)) :
  own r → (∀ x, own (k x)) → own (result_bind r k).
Proof. intros Hr Hk. destruct r as [x|why]; [apply Hk|]. intros e [= ->]. by apply (Hr e). Qed.

Lemma own_checks args rest :
  own (let? args := (if runs_a_task args
         then let? rest := all_utf8 rest in let? named := task_of rest in
           Ok (set_named (ar_clean_cache args) (Some named.1) named.2 args)
         else Ok args) in
       let? _ := once "--config-var" "variable" (ar_config_var args) in
       let? _ := once "--override-image" "container" (ar_override_image args) in Ok args).
Proof.
  apply own_bind.
  - destruct (runs_a_task args); [|done]. apply own_bind; [|intros words; apply own_bind; [|done]].
    + induction rest as [|[s|s] rest IH]; [done| |done]. by apply (own_bind _ (λ words, Ok (s :: words))).
    + unfold task_of. by repeat case_match.
  - intros a. apply own_bind; [|intros _; apply own_bind; [|done]]; unfold once; by case_match.
Qed.

(** The only error that is not printed on stderr is one [clap] gives as it is. *)
Lemma shown_by_clap `{!ClapLaws E} arguments e : parse_checked arguments = Err (ByClap e) → use_stderr e = false →
  ∃ e, try_get_matches_from (split_at_task arguments).1.1 = Err e ∧ use_stderr e = false.
Proof.
  intros Hp He. unfold parse_checked in Hp. destruct (split_at_task arguments) as [[options rest] refused]. cbn [fst].
  destruct (try_get_matches_from options) as [a|e'], refused as [why|]; cbn [result_bind] in Hp.
  - done.
  - exfalso. by eapply own_checks.
  - destruct (use_stderr e') eqn:He'; [done|]. by exists e'.
  - exists e'. split; [done|]. destruct (use_stderr e') eqn:He'; [|done]. simpl in Hp. injection Hp as <-.
    destruct (is_unknown_argument e'); [rewrite removed_stderr in He|]; congruence.
Qed.

Lemma replaced_words words : existsb replaces_the_task words = true ↔
  (Long "list-tasks" ∈ words ∨ Short "T" ∈ words) ∨
  Long "clean" ∈ words ∨ Long "upgrade" ∈ words ∨ Long "clean-cache" ∈ words.
Proof.
  rewrite existsb_exists. setoid_rewrite <-list_elem_of_In. split.
  - intros ([name|c|w] & Hin & Hw); simpl in Hw; [|apply bool_decide_eq_true in Hw; subst; tauto|done].
    apply bool_decide_eq_true in Hw. rewrite !elem_of_cons, elem_of_nil in Hw. destruct_or?; subst; tauto.
  - intros [[?|?]|[?|[?|?]]]; eexists; (split; [done|]); vm_compute; reflexivity.
Qed.

(** Whether a command line is a run is read of its words as of its arguments. *)
Lemma is_a_run_agrees `{!ClapLaws E} arguments a :
  parse_checked arguments = Ok a → is_a_run (to_string_lossy <$> drop 1 arguments) = runs_a_task a.
Proof.
  intros (options & rest & a0 & Hs & Hclap & _ & _ & H)%parse_checked_Ok.
  assert (runs_a_task a = runs_a_task a0) as ->.
  { revert H. destruct (runs_a_task a0) eqn:Hr; [intros (task & task_args & _ & _ & ->)|intros ->]; by rewrite runs_named. }
  assert (split_options (drop 1 arguments) = (drop 1 options, rest, None)) as Ho.
  { destruct arguments as [|program arguments]; [by injection Hs as <- <-|].
    simpl in Hs |- *. rewrite drop_0. destruct (split_options arguments) as [[o r] refused]. by injection Hs as <- <- ->. }
  destruct (flags_read _ _ (split_options_alone _ _ _ _ Ho) Hclap) as (Hlist & Hclean & Hup & Hcache).
  unfold is_a_run. rewrite words_of_options, Ho. cbn [fst].
  set (words := command_line_words _ _) in *. unfold runs_a_task.
  destruct (existsb replaces_the_task words) eqn:E1; simpl; symmetry.
  all: clear Ho Hclap Hs H.
  - apply replaced_words in E1. apply not_true_iff_false.
    rewrite !andb_true_iff, !negb_true_iff, bool_decide_eq_true, <-!not_true_iff_false, Hlist, Hclean, Hup.
    intros [[[Hu Hc] Hcc] Hl]. destruct E1 as [?|[?|[?|?%Hcache]]]; tauto.
  - apply not_true_iff_false in E1. rewrite replaced_words in E1.
    rewrite !andb_true_iff, !negb_true_iff, bool_decide_eq_true, <-!not_true_iff_false, Hlist, Hclean, Hup.
    destruct (decide (ar_clean_cache a0 = [])) as [|Hne]; [tauto|]. apply Hcache in Hne. tauto.
Qed.
End parsing.

(** ** Settings *)

Lemma inserted_spec (pairs : list (string * string)) : NoDup pairs.*1 → ∀ (m : gmap string string) key value,
  foldl (λ m p, <[p.1 := p.2]> m) m pairs !! key = Some value ↔
  (key, value) ∈ pairs ∨ key ∉ pairs.*1 ∧ m !! key = Some value.
Proof.
  induction pairs as [|[k v] pairs IH]; intros Hnd m key value; csimpl; [set_solver|].
  apply NoDup_cons in Hnd as [Hk Hnd]. rewrite (IH Hnd). clear IH.
  assert (∀ v, (k, v) ∈ pairs → k ∈ pairs.*1) as Hin by (intros ? H; by apply (list_elem_of_fmap_2 fst) in H).
  rewrite !elem_of_cons. destruct (decide (key = k)) as [->|Hne].
  - rewrite lookup_insert_eq. split; [intros [H%Hin|[_ [= ->]]]; [done|by left; left]|].
    intros [[[= ->]|H%Hin]|[H _]]; [by right|done|]. by destruct H; left.
  - rewrite lookup_insert_ne by done. naive_solver.
Qed.

Lemma tags_spec (pairs : list (string * string)) (m : gmap string (gset string)) container tag :
  tag ∈ default ∅ (foldl (λ m p, <[p.1 := {[p.2]} ∪ default ∅ (m !! p.1)]> m) m pairs !! container) ↔
  tag ∈ default ∅ (m !! container) ∨ (container, tag) ∈ pairs.
Proof.
  revert m. induction pairs as [|[k v] pairs IH]; intros m; csimpl; [set_solver|]. rewrite IH, elem_of_cons.
  destruct (decide (container = k)) as [->|Hne].
  - rewrite lookup_insert_eq. simpl. set_solver.
  - rewrite lookup_insert_ne by done. naive_solver.
Qed.

(** ** The property *)

(** C8: The command line of ratect-compat.  The words of a command line are read back
    from however its options, values and positionals are written, and nothing after
    [--] is read.  The options end where the first argument is none: what is handed to
    [clap] is refused exactly when it is not options as they may be written, so that no
    option takes for its value what looks like another, and options as they may be
    written are all handed over, whatever follows them.  A command line parses exactly
    when [clap] takes its options, no key is given twice, and, if it is a run, a task
    follows and then nothing or [--] and the task's arguments, which it gets as they
    are; and whether it is a run is the same read of its words.  One that does not parse
    exits as a run that failed exactly when its words are a run's, and otherwise as a
    command line that is none, but for the help [clap] shows.  The settings of a run
    have exactly the images, tags and variables given. *)
Theorem command_line_spec {E} `{!Clap E, !ClapLaws E} :
  (∀ takes_value items rest, Forall (item_ok takes_value) items →
    command_line_words takes_value (concat (render <$> items)) = concat (item_words <$> items) ∧
    command_line_words takes_value (concat (render <$> items) ++ "--" :: rest) = concat (item_words <$> items)) ∧
  (∀ arguments options rest refused, split_options arguments = (options, rest, refused) →
    arguments = options ++ rest ∧ (∀ a, head rest = Some a → ends_options (to_string_lossy a)) ∧
    (refused = None ↔ reads_as_options options rest)) ∧
  (∀ items options rest, Forall option_ok items → lossy options = concat (render <$> items) →
    (∀ a, head rest = Some a → ends_options (to_string_lossy a)) →
    split_options (options ++ rest) = (options, rest, None)) ∧
  (∀ arguments a, parse_checked arguments = Ok a ↔
    ∃ options rest a0, split_at_task arguments = (options, rest, None) ∧ try_get_matches_from options = Ok a0 ∧
      NoDup (ar_config_var a0).*1 ∧ NoDup (ar_override_image a0).*1 ∧
      let caches := cache_names (ar_clean_cache a0) in
      if runs_a_task a0
      then ∃ task task_args, task ≠ "--" ∧
        (rest = [Utf8 task] ∧ task_args = [] ∨ rest = Utf8 task :: Utf8 "--" :: (Utf8 <$> task_args)) ∧
        a = set_named caches (Some task) task_args a0
      else a = set_named caches (ar_task_name a0) (ar_additional_args a0) a0) ∧
  (∀ arguments a, parse_checked arguments = Ok a → is_a_run (lossy (drop 1 arguments)) = runs_a_task a) ∧
  (∀ arguments code, parse_args arguments = Err code →
    code = SUCCESS ∧ (∃ e, try_get_matches_from (split_at_task arguments).1.1 = Err e ∧ use_stderr e = false) ∨
    code = if is_a_run (lossy (drop 1 arguments)) then RATECT_FAILED else INVOCATION_ERROR) ∧
  (∀ arguments a version dir dialect vars cache_type, parse_checked arguments = Ok a →
    let s := engine_settings version a dir dialect (config_var_overrides vars a) cache_type in
    (∀ container image, se_image_overrides s !! container = Some image ↔ (container, image) ∈ ar_override_image a) ∧
    (∀ container tag, tag ∈ default ∅ (se_image_tags s !! container) ↔ (container, tag) ∈ ar_tag_image a) ∧
    (∀ name value, se_config_var_overrides s !! name = Some value ↔
      (name, value) ∈ ar_config_var a ∨ name ∉ (ar_config_var a).*1 ∧ vars !! name = Some value)).
Proof.
  split_and!.
  - intros takes_value items rest Hi. by apply command_line_words_read.
  - intros arguments options rest refused Hs. pose proof (split_options_parts arguments) as Hp. rewrite Hs in Hp.
    destruct Hp. split_and!; [done..|]. by eapply split_options_reads.
  - intros items options rest Hi Ho Hr. rewrite (split_items _ Hi _ _ Ho). destruct rest as [|a rest]; [by simpl; rewrite app_nil_r|].
    cbn [split_options]. rewrite (proj2 (value_option_ends _) (Hr a eq_refl)). by rewrite app_nil_r.
  - apply parse_checked_Ok.
  - apply is_a_run_agrees.
  - intros arguments code. unfold parse_args. destruct (parse_checked arguments) as [|error] eqn:Hp; [done|]. intros [= <-].
    destruct error as [e|kind why]; [|by right; destruct (is_a_run _)].
    destruct (use_stderr e) eqn:He; [by right; destruct (is_a_run _)|]. left. split; [done|]. by eapply shown_by_clap.
  - intros arguments a version dir dialect vars cache_type (options & rest & a0 & _ & _ & Hv & Ho & Ha)%parse_checked_Ok.
    assert (NoDup (ar_config_var a).*1 ∧ NoDup (ar_override_image a).*1) as [Hv' Ho'].
    { revert Ha. destruct (runs_a_task a0); [intros (? & ? & _ & _ & ->)|intros ->]; done. }
    split_and!; intros; simpl.
    + rewrite inserted_spec by done. set_solver.
    + rewrite tags_spec. set_solver.
    + by apply inserted_spec.
Qed.

(** ** A command line *)

Module Line.
(** A [clap] that reads the flags, and shows its help; an error is whether it is printed
    on stderr. *)
Definition reads (words : list Word) : Args :=
  mk_args "batect.yml" false (bool_decide (Long "list-tasks" ∈ words ∨ Short "T" ∈ words)) [] None None false false false
    [] [] false false false false None None None false false None None None None None None
    (bool_decide (Long "clean" ∈ words)) (if decide (Long "clean-cache" ∈ words) then [EmptyString] else [])
    (bool_decide (Long "upgrade" ∈ words)) false false None false None None [].

#[local] Instance clap : Clap bool := {|
  try_get_matches_from options :=
    let words := command_line_words takes_value (lossy (drop 1 options)) in
    if decide (Long "help" ∈ words) then Err false else Ok (reads words);
  use_stderr e := e;
  is_unknown_argument _ := false;
  remove_suggested e := e;
|}.

#[local] Instance clap_laws : ClapLaws bool.
Proof.
  split; [|done]. intros options a _. simpl. case_decide; [done|]. intros [= <-]. unfold reads.
  split_and!; cbn; rewrite ?bool_decide_eq_true; [done..|]. by case_decide.
Qed.

Definition line : list OsString := Utf8 <$> ["ratect-compat"; "-o"; "simple"; "--no-color"; "build"; "--"; "--help"].

(** A value that looks like an option is refused, and the help is no failure. *)
Example value_refused :
  parse_checked (Utf8 <$> ["ratect-compat"; "-f"; "--list-tasks"; "build"]) =
    Err (Refused InvalidValue (ValueLooksLikeOption "-f" "--list-tasks")) ∧
  parse_args (Utf8 <$> ["ratect-compat"; "-f"; "--list-tasks"; "build"]) = Err RATECT_FAILED ∧
  parse_args (Utf8 <$> ["ratect-compat"; "-T"; "--help"]) = Err SUCCESS.
Proof. split_and!; vm_compute; reflexivity. Qed.

Lemma command_line_spec_witness :
  (∃ a, parse_checked line = Ok a ∧ ar_task_name a = Some "build" ∧ ar_additional_args a = ["--help"]) ∧
  is_a_run (lossy (drop 1 line)) = true.
Proof.
  pose proof (command_line_spec (E := bool)) as (_ & _ & _ & _ & Hrun & _).
  split; [eexists; split_and!; [vm_compute; reflexivity..]|].
  rewrite (Hrun line (set_named [] (Some "build") ["--help"] (reads [Short "o"; Long "no-color"]))); vm_compute; reflexivity.
Defined.
End Line.
